(* ===== verification/_CoqProject ===== *)
-Q . S2P
Prelude.v
Words.v
Floats.v
Wyhash.v
Xxh3.v
Xxh3Vector.v
Xxh3Stream.v
FloatRound.v
BitArray.v
BitFilter.v
SelfBloom.v
BlockBloom.v
RegisterBloom.v
LocArrays.v
WyhashCustoms.v
XxhCustoms.v
Crc32Hash.v
CrcWyhashCustoms.v
EntropyEstimators.v
EntropyOld.v
Storage.v
EntropyFiles.v
Timings.v
Workload.v
DataGen.v
SmallHashes.v
LibBloom.v
HashFns.v
BenchSelect.v
BlockedLoop.v
BenchHashes.v
FiniteMaps.v
RobinGrowth.v
RobinTable.v
RobinInv.v
RobinProbe.v
RobinErase.v
RobinLoad.v
RobinMap.v
RobinRefine.v
RobinExtra.v
RobinRun.v
RobinObjects.v
RobinOverflow.v
DenseTable.v
DenseProbe.v
DenseInv.v
DenseUpdate.v
DenseResize.v
DenseMap.v
DenseManage.v
DenseRun.v
DenseIO.v
DenseLimits.v
SwissBits.v
SwissGroup.v
SwissPortable.v
SwissTable.v
SwissShape.v
SwissFind.v
SwissInv.v
SwissResize.v
SwissDrop.v
SwissInsert.v
SwissErase.v
SwissManage.v
SwissRun.v
SwissFacts.v
StringMap.v
BenchFilters.v
Driver.v
DriverLocations.v
Dispatch.v
Pipeline.v
BenchTables.v
BenchGoogle.v
BenchSwiss.v
BenchMt.v
BenchPartitions.v
BenchBloom.v
