(* ===== verification/Prelude.v ===== *)
(** * Entropy-learned hashing: a verification development

    The repository is a benchmark suite for entropy-learned hashing: a greedy
    estimator chooses the words of the keys that carry the most entropy, hash functors
    read only those words, and Bloom filters, hash tables and a partitioner are
    measured with them. This library models the C++ sources under src/ (the program's
    own code, and of the vendored code the hash functions it calls and three hash
    tables) as executable functions, and proves what they compute. The root file is also the prelude: machine
    integers, loops, shared tactics and hint databases.

    ** Conventions

    - An unsigned [w]-bit integer is a [Z]; [u8], [u32], [u64] write the wrap-around,
      [fits w z] is its range, [chk_i32] is [None] where an [int] overflows.
    - A key is a list of bytes. A read outside it, an index outside a vector, a
      division by zero, a shift of undefined value, a failed [assert] and [exit] are
      [None]; so a theorem that a function returns [Some] is a safety theorem.
    - A [for] loop with a known number of turns is [for_loop]; other loops are [while]
      with fuel, [None] when it runs out. The fuel is the number of turns the code can
      make (a length, [numHashes], a string position, the buckets of a table) and the
      theorems that state a result show it is enough. Three loops have no such bound. The
      summation of [calculateFPRGivenK] has its fuel as a parameter, and
      [fpr_loop_terminates] says exactly when enough exists; the rejection of zero bytes in
      [generateRandomStrings] has one too, enough when the engine always comes to another byte
      within that many draws; and so has the rejection of candidates in [make_secret], of
      which only the trial divisions are bounded (2^31 are enough).
    - [double] and [float] are [spec_float] with the rounding of binary64 and binary32
      (Floats.v; FloatRound.v bounds the rounding), as the code is written; the Makefile's
      -Ofast lets a compiler deviate. libm ([log], [log2], [exp], [lgamma], [pow], [sqrt]), the random engine,
      [std::shuffle], [std::hash], the enumeration order of [unordered_map] and the CRC
      instruction are parameters; where a result relies on them the documented behaviour is
      a hypothesis, and an instance shows it can hold.
    - Asserts are on, since the Makefile does not define [NDEBUG]; for the dense and the flat
      hash maps, whose behaviour without them is of interest, [NDEBUG] is a parameter.
    - What the flat hash map does depends on addresses, on bytes of fresh memory and on a
      counter of the thread: the [platform] is a parameter, and the state it goes through is
      passed as a [world].
    - A vector that is indexed by an [unsigned] loop variable has fewer than 2^32
      elements where a theorem needs it; loops over a whole vector are recursions on it.

    ** The parts

    Hash functions:
    - Words.v: bytes, little-endian loads, arrays, 64-bit products.
    - Wyhash.v (include/hash/wyhash.hh): [wyhash] and its multiplication; the portable
      branch of [_wymum] agrees with the 128-bit one; the random words, their conversion to
      [double] with its range, and what the words of a drawn secret have in common.
    - Xxh3.v (include/hash/orig_xhash.hh): [XXH3_64bits] plain, seeded and with a secret, all
      length ranges, over the class [XXH_VECTOR] of the functions on the accumulators, whose
      laws say that they compute what the scalar instance does; the scalar multiplication
      agrees with the 128-bit one. Xxh3Vector.v: the SSE2, AVX2 and AVX-512 instances obey
      the laws. Xxh3Stream.v: the streaming interface over any lawful instance; a digest is
      the hash of the bytes since the last reset, for every sequence of calls.
    - Crc32Hash.v (include/hash/crc32_hash.hh), SmallHashes.v (include/hash.hh,
      murmurhash2.h, hash/mmh_var.hh, hash/o1hash.hh).
    - LocArrays.v: the arrays of byte offsets the sub-key functors build, and the
      classes [SubKeySafe] (total and in bounds) and [SubKeyLocal] (a function of the
      length and the chosen words) that a container may rely on. WyhashCustoms.v,
      XxhCustoms.v and CrcWyhashCustoms.v (the three [*_customs.hh] headers) discharge
      them; the three- and four-word xxh3 functors are proved not to be local.
    - HashFns.v: one name per functor the benchmarks instantiate, [run_hash], and the
      contracts as single theorems.

    Choosing the words:
    - EntropyEstimators.v (include/entropyEstimation/entropy_estimators.hh): partial
      strings, the entropy of a sample, the greedy selectors. Two keys the estimator
      does not tell apart collide under every local functor. EntropyOld.v
      (entropy_estimators_old.hh): where the older selector agrees with the current one.

    Filters:
    - BitArray.v, BitFilter.v: bit operations, and the class [BitFilter] with its laws:
      an element owns positions, insertion sets them, a test looks them up. No false
      negatives and exactness are proved from the laws alone.
    - SelfBloom.v, BlockBloom.v, RegisterBloom.v, LibBloom.v (self_reg_bloom.hh,
      self_block_bloom.hh, register_blocked_bloom.hh, libbloom.cpp): the four filters,
      constructors included, as instances of the class.

    The robin-hood table (tsl/robin_growth_policy.h, robin_hash.h, robin_map.h):
    - RobinGrowth.v: the growth policies. RobinTable.v: the array of buckets and every operation.
    - RobinInv.v, RobinProbe.v, RobinErase.v, RobinLoad.v: the invariant of the array (order of
      the distances, every entry on the probe path of its hash, counters), what probing finds,
      the backward shift, and the load that keeps the vectors within their limits.
    - RobinMap.v, RobinRefine.v, RobinExtra.v, RobinRun.v: the table refines a finite map,
      operation by operation (RobinExtra.v: hints, ranges, reservations, whole tables) and over
      every sequence of them; iteration, find_guaranteed. RobinObjects.v: two maps that are
      copied, moved, exchanged and cleared.
    - RobinOverflow.v: the keys that overflow the 16-bit distance, and the lookups that then
      read an empty bucket, or never end.

    Google's dense hash map (sparsehash: internal/hashtable-common.h, internal/densehashtable.h,
    dense_hash_map):
    - DenseTable.v: the settings, the array and every operation, with or without asserts.
    - DenseProbe.v, DenseInv.v: the triangular probe that reaches every bucket, the thresholds
      the load factors give, the invariant of the array and what a probe finds.
      DenseUpdate.v, DenseResize.v: writing a bucket, iterating, copying into another size,
      the sizes chosen.
    - DenseMap.v, DenseManage.v, DenseRun.v: the table refines a finite map with
      an empty key and perhaps a deleted key, operation by operation and over every sequence of
      operations on two tables.
    - DenseIO.v: a table written to a stream and read back.
    - DenseLimits.v: what happens outside the contract (the empty key stored, a load factor of 1).

    Abseil's flat hash map (absl/container/internal/raw_hash_set.h and .cc, raw_hash_map.h,
    absl/base/internal/bits.h):
    - SwissBits.v, SwissGroup.v, SwissPortable.v: the bit counts and masks; the class [Group] of
      a group of control bytes, its laws, and its two implementations (SSE2 lanes, a 64-bit
      word) that obey them.
    - SwissTable.v: the control bytes, the slots and every operation.
    - SwissShape.v, SwissFind.v: the groups of a probe cover the table, the bytes mirrored
      behind the sentinel, what a load sees and what a probe finds.
    - SwissInv.v, SwissResize.v, SwissDrop.v, SwissInsert.v, SwissErase.v, SwissManage.v: the
      invariant and, operation by operation, the finite map a
      table stands for; rehashing into another array and in place.
    - SwissRun.v: every sequence of operations on two tables. SwissFacts.v: agreement of the
      groups and of the bit counts, well-formed tables, rehashing in place, reservation.
    FiniteMaps.v: what the insertions of the tables do to a map.

    Benchmarks:
    - Storage.v, EntropyFiles.v (storage.cpp, entropyEstimatorMain.cpp), Workload.v
      (workload_generator.cpp), DataGen.v (dataGenerators/workload_generator.cpp): data sets,
      files of locations and of entropies, probes, random strings.
    - Driver.v, DriverLocations.v, Dispatch.v (benchmarker.cpp, include/benchmark_*.hh): the
      data set and its trials up to what they hand to the benchmarks; the files of locations,
      generated and read; the clients that a trial calls. Pipeline.v: from the files of
      locations to the functors that run. Timings.v (include/benchmarks.hh, TimeCounter.hh):
      which measured time is recorded for a run; the stopwatch.
    - BenchSelect.v (benchmark_*.cpp): number of locations and functor of every run.
    - BlockedLoop.v: the loops over blocks of 100 probes, with bodies that may skip.
    - StringMap.v: what the clients rely on of a hash table, as a class: insertion and lookup
      of string keys, which may fail, with their laws while the keys fit. Its instances are an
      association list, the robin-hood table, the dense hash map (BenchGoogle.v) and the flat
      hash map (BenchSwiss.v).
    - BenchFilters.v, BenchTables.v, BenchPartitions.v, BenchHashes.v: the clients and what
      they report; BenchTables also runs its client on the robin-hood table, BenchGoogle.v on
      the dense hash map and BenchSwiss.v on the flat hash map, with the functors its benchmark picks.
    - BenchBloom.v: a whole run of the Bloom-filter benchmark, functor to report.
    - BenchMt.v (benchmark_tables_mt.cpp): the spin barrier, the workers and the main
      thread as a step relation; one step is one access to a shared variable, in a
      sequentially consistent interleaving.

    ** What the theorems show

    Safety and locality of the functors, also for the locations the driver generates; the filters answer exactly by the bits of the
    inserted elements; the estimator's counts, the optimality of its choice and the
    termination of its loops; equivalence of the duplicated and the optimised
    routines, of the vector targets of xxh3 and the scalar code, and of its streaming and its
    one-shot interface; round trips of the files; the robin-hood table, the dense and the flat hash maps as
    finite maps over every sequence of operations within their limits; the reports of the clients, from the
    split of the data to the count, including where they differ from the count they mean; barrier
    safety and the possibility to finish in every interleaving. Where the code is wrong the
    theorem states what it does.

    ** Not modelled

    The clock, printing and the parsing of the command line (boost); the big-endian reads of
    the hashes and the NEON and VSX targets, which are not compiled on the machines the
    benchmarks run on; XXH32, XXH64, XXH128 and [XXH3_generateSecret], which nothing calls,
    and the modified copy of xxHash (xxhash_var.hh) that no file includes; copy and move
    members of the filters, which do not compile when they are instantiated; the read-only
    interface by buckets of the dense hash map; the sampling, the sanitizer marks and the
    debugging interface of the flat hash map; allocators; the standard library's hash table,
    of which StringMap states what is relied on; the CSV library, the rest of Abseil and of
    the sparsehash library. *)
From stdpp Require Export prelude.
From Stdlib Require Export ZArith Lia Sorted.

Declare Scope elh_scope.
Delimit Scope elh_scope with elh.
#[global] Open Scope Z_scope.

(** ** Machine integers kept as [Z]

    A value of an unsigned [w]-bit type is a [Z] in [0, 2^w); every operation of
    the code that can wrap goes through [wrap]. *)

Definition wrap (w z : Z) : Z := z `mod` 2 ^ w.

Notation "'u8' z" := (wrap 8 z) (at level 10, z at level 9) : elh_scope.
Notation "'u32' z" := (wrap 32 z) (at level 10, z at level 9) : elh_scope.
Notation "'u64' z" := (wrap 64 z) (at level 10, z at level 9) : elh_scope.
#[global] Open Scope elh_scope.

Definition fits (w z : Z) : Prop := 0 ≤ z < 2 ^ w.

#[export] Instance fits_decision w z : Decision (fits w z).
Proof. unfold fits. apply _. Defined.

(** A result of a signed [int] expression: overflow is undefined behaviour, so
    the value exists only inside the range of the type. *)
Definition chk_i32 (z : Z) : option Z :=
  if (- 2 ^ 31 <=? z) && (z <? 2 ^ 31) then Some z else None.

(** The conversion of a 32-bit pattern to [int] and of a 64-bit one to [int64_t] (two's complement). *)
Definition to_i32 (z : Z) : Z := wrap 32 (z + 2 ^ 31) - 2 ^ 31.
Definition to_i64 (z : Z) : Z := wrap 64 (z + 2 ^ 63) - 2 ^ 63.

Create HintDb elh discriminated.
Create Rewrite HintDb elh_rw.

Lemma fits_wrap w z : 0 ≤ w → fits w (wrap w z).
Proof. intros Hw. unfold fits, wrap. apply Z.mod_pos_bound. lia. Qed.

Lemma wrap_small w z : fits w z → wrap w z = z.
Proof. intros H. apply Z.mod_small, H. Qed.

Lemma wrap_wrap w z : wrap w (wrap w z) = wrap w z.
Proof. unfold wrap. apply Zmod_mod. Qed.

Lemma wrap_add_l w a b : wrap w (wrap w a + b) = wrap w (a + b).
Proof. unfold wrap. apply Zplus_mod_idemp_l. Qed.

Lemma wrap_add_r w a b : wrap w (a + wrap w b) = wrap w (a + b).
Proof. unfold wrap. apply Zplus_mod_idemp_r. Qed.

Lemma wrap_mul_r w a b : wrap w (a * wrap w b) = wrap w (a * b).
Proof. unfold wrap. apply Zmult_mod_idemp_r. Qed.

Lemma wrap_mul_l w a b : wrap w (wrap w a * b) = wrap w (a * b).
Proof. unfold wrap. apply Zmult_mod_idemp_l. Qed.

#[export] Hint Rewrite wrap_wrap wrap_add_l wrap_add_r wrap_mul_l wrap_mul_r : elh_rw.

Lemma to_i64_add_l a b : to_i64 (to_i64 a + b) = to_i64 (a + b).
Proof.
  unfold to_i64. f_equal. replace (wrap 64 (a + 2 ^ 63) - 2 ^ 63 + b + 2 ^ 63) with (wrap 64 (a + 2 ^ 63) + b) by lia.
  rewrite wrap_add_l. f_equal. lia.
Qed.

Lemma to_i32_small z : - 2 ^ 31 ≤ z < 2 ^ 31 → to_i32 z = z.
Proof. intros Hz. unfold to_i32. rewrite wrap_small by (split; lia). lia. Qed.

Lemma fits_testbit w z : 0 ≤ w → fits w z ↔ 0 ≤ z ∧ ∀ i, w ≤ i → Z.testbit z i = false.
Proof.
  intros Hw. split.
  - intros [H0 H1]. split; [done|]. intros i Hi.
    rewrite <-(Z.mod_small z (2 ^ w)) by done. by apply Z.mod_pow2_bits_high.
  - intros [H0 Hbits]. split; [done|].
    destruct (decide (z = 0)) as [->|Hz]; [lia|].
    apply Z.log2_lt_pow2; [lia|].
    destruct (Z.lt_ge_cases (Z.log2 z) w) as [|Hge]; [done|].
    specialize (Hbits _ Hge). rewrite Z.bit_log2 in Hbits; [done|lia].
Qed.

Lemma fits_bitwise (f : Z → Z → Z) (g : bool → bool → bool) w a b :
  0 ≤ w → g false false = false →
  (∀ x y i, Z.testbit (f x y) i = g (Z.testbit x i) (Z.testbit y i)) →
  (0 ≤ a → 0 ≤ b → 0 ≤ f a b) →
  fits w a → fits w b → fits w (f a b).
Proof.
  intros Hw Hg Hf Hpos Ha Hb.
  apply fits_testbit in Ha as [Ha0 Ha]; [|done].
  apply fits_testbit in Hb as [Hb0 Hb]; [|done].
  apply fits_testbit; [done|]. split; [auto|].
  intros i Hi. by rewrite Hf, Ha, Hb.
Qed.

Lemma fits_lxor w a b : 0 ≤ w → fits w a → fits w b → fits w (Z.lxor a b).
Proof.
  intros Hw. apply (fits_bitwise Z.lxor xorb); [done|done|apply Z.lxor_spec|].
  intros; apply Z.lxor_nonneg; tauto.
Qed.

Lemma fits_lor w a b : 0 ≤ w → fits w a → fits w b → fits w (Z.lor a b).
Proof.
  intros Hw. apply (fits_bitwise Z.lor orb); [done|done|apply Z.lor_spec|].
  intros; apply Z.lor_nonneg; tauto.
Qed.

Lemma fits_land_l w a b : 0 ≤ w → fits w a → fits w (Z.land a b).
Proof.
  intros Hw [H0 H]%fits_testbit; [|done]. apply fits_testbit; [done|]. split.
  - apply Z.land_nonneg; auto.
  - intros i Hi. by rewrite Z.land_spec, H.
Qed.

Lemma fits_shiftr w a n : 0 ≤ n → fits w a → fits w (Z.shiftr a n).
Proof.
  intros Hn [H0 H1]. rewrite Z.shiftr_div_pow2 by done.
  assert (0 < 2 ^ n) by lia. split.
  - apply Z.div_pos; lia.
  - apply Z.div_lt_upper_bound; nia.
Qed.

Lemma fits_weaken w w' z : w ≤ w' → fits w z → fits w' z.
Proof.
  intros Hw [H0 H1]. split; [done|].
  eapply Z.lt_le_trans; [exact H1|]. apply Z.pow_le_mono_r; lia.
Qed.

Lemma land_ones_wrap w z : 0 ≤ w → Z.land z (2 ^ w - 1) = wrap w z.
Proof.
  intros Hw. unfold wrap. rewrite <-Z.land_ones by done.
  by rewrite Z.ones_equiv, Z.sub_1_r.
Qed.

Lemma b2z_bound b : 0 ≤ Z.b2z b ≤ 1.
Proof. destruct b; simpl; lia. Qed.

Ltac solve_fits :=
  repeat first
    [ assumption
    | apply fits_lxor; [lia| |]
    | apply fits_lor; [lia| |]
    | apply fits_wrap; lia
    | apply fits_shiftr; [lia|]
    | apply fits_land_l; [lia|]
    | (split; vm_compute; congruence) ].

#[export] Hint Resolve fits_lxor fits_lor fits_wrap fits_shiftr fits_land_l : elh.
#[export] Hint Extern 1 (0 ≤ _) => lia : elh.

(** ** Loops

    A [while] loop of the code is [while fuel cond body s]: [body] may fail (an
    out-of-range access), and running out of [fuel] is [None] as well, so a
    theorem that a loop returns [Some] says that the fuel was enough. *)
Section loops.
Context {S : Type}.

Fixpoint while (fuel : nat) (cond : S → bool) (body : S → option S) (s : S) : option S :=
  if cond s then
    match fuel with
    | O => None
    | Datatypes.S fuel' => s' ← body s; while fuel' cond body s'
    end
  else Some s.

(** [for (i = first; i < first + n; i++) s = body(i, s)] *)
Fixpoint for_loop (n : nat) (i : Z) (body : Z → S → option S) (s : S) : option S :=
  match n with
  | O => Some s
  | Datatypes.S n' => s' ← body i s; for_loop n' (i + 1) body s'
  end.

Lemma while_total (I : S → Prop) (m : S → nat) cond body :
  (∀ s, I s → cond s = true → ∃ s', body s = Some s' ∧ I s' ∧ (m s' < m s)%nat) →
  ∀ fuel s, I s → (m s ≤ fuel)%nat →
    ∃ s', while fuel cond body s = Some s' ∧ I s' ∧ cond s' = false.
Proof.
  intros Hbody fuel. induction fuel as [|fuel IH]; intros s HI Hm; simpl.
  - destruct (cond s) eqn:Hc; [|eauto].
    destruct (Hbody s HI Hc) as (s' & _ & _ & ?). lia.
  - destruct (cond s) eqn:Hc; [|eauto].
    destruct (Hbody s HI Hc) as (s' & Hs' & HI' & Hm').
    rewrite Hs'; simpl. apply IH; [done|lia].
Qed.

(** An invariant of the turns taken holds at the end, where the condition fails. *)
Lemma while_inv (I : S → Prop) cond body :
  (∀ s s', I s → cond s = true → body s = Some s' → I s') →
  ∀ fuel s s', I s → while fuel cond body s = Some s' → I s' ∧ cond s' = false.
Proof.
  intros Hbody fuel. induction fuel as [|fuel IH]; intros s s' HI; simpl.
  - destruct (cond s) eqn:Hc; [done|]. by intros [= <-].
  - destruct (cond s) eqn:Hc; [|by intros [= <-]].
    destruct (body s) as [t|] eqn:Hs; simpl; [|done]. apply IH. by apply (Hbody s).
Qed.

(** When a measure decreases at every turn, any larger fuel gives the same answer. *)
Lemma while_enough_fuel (I : S → Prop) (m : S → nat) cond body :
  (∀ s s', I s → cond s = true → body s = Some s' → I s' ∧ (m s' < m s)%nat) →
  ∀ fuel fuel' s, I s → (m s ≤ fuel)%nat → (m s ≤ fuel')%nat →
    (∀ s, I s → m s = 0%nat → cond s = false) →
    while fuel cond body s = while fuel' cond body s.
Proof.
  intros Hbody fuel. induction fuel as [|fuel IH]; intros fuel' s HI Hm Hm' Hz.
  - destruct fuel'; simpl; rewrite Hz by (done || lia); done.
  - destruct fuel' as [|fuel']; simpl; [rewrite Hz by (done || lia); done|].
    destruct (cond s) eqn:Hc; [|done]. destruct (body s) as [s'|] eqn:Hs; simpl; [|done].
    destruct (Hbody s s' HI Hc Hs) as [HI' Hlt].
    apply IH; auto; lia.
Qed.

(** The state after [n] turns of a [while] loop, if it makes so many. *)
Fixpoint turns (n : nat) (cond : S → bool) (body : S → option S) (s : S) : option S :=
  match n with
  | O => Some s
  | Datatypes.S n' => if cond s then s' ← body s; turns n' cond body s' else None
  end.

(** When a measure decreases at every turn, a loop makes no more turns than that, and either
    ends or comes to a turn that fails. *)
Lemma turns_bound (I : S → Prop) (m : S → nat) cond body :
  (∀ s s', I s → cond s = true → body s = Some s' → I s' ∧ (m s' < m s)%nat) →
  ∀ n s s', I s → turns n cond body s = Some s' → I s' ∧ (n + m s' ≤ m s)%nat.
Proof.
  intros Hbody n. induction n as [|n IH]; intros s s' HI Hs; cbn [turns] in Hs.
  - injection Hs as <-. split; [done|lia].
  - destruct (cond s) eqn:Hc; [|done]. apply bind_Some in Hs as (s1 & H1 & Hs).
    destruct (Hbody s s1 HI Hc H1) as [HI1 Hlt]. destruct (IH s1 s' HI1 Hs). split; [done|lia].
Qed.

Lemma while_ends_or_fails (I : S → Prop) (m : S → nat) cond body :
  (∀ s s', I s → cond s = true → body s = Some s' → I s' ∧ (m s' < m s)%nat) →
  (∀ s, I s → m s = 0%nat → cond s = false) →
  ∀ fuel s, I s → (m s ≤ fuel)%nat →
    (∃ s', while fuel cond body s = Some s' ∧ I s' ∧ cond s' = false) ∨
    (∃ n s', turns n cond body s = Some s' ∧ cond s' = true ∧ body s' = None ∧ while fuel cond body s = None).
Proof.
  intros Hbody Hz fuel. induction fuel as [|fuel IH]; intros s HI Hm; cbn [while].
  - rewrite Hz by (done || lia). left. exists s. by rewrite Hz by (done || lia).
  - destruct (cond s) eqn:Hc; [|left; by exists s].
    destruct (body s) as [s1|] eqn:H1; cbn [mbind option_bind]; [|right; by exists 0%nat, s].
    destruct (Hbody s s1 HI Hc H1) as [HI1 Hlt].
    destruct (IH s1 HI1 ltac:(lia)) as [Hend|(n & s' & Hn & Hrest)]; [by left|right].
    exists (Datatypes.S n), s'. cbn [turns]. rewrite Hc, H1. by split.
Qed.

Lemma for_loop_total (I : Z → S → Prop) body n :
  ∀ i s, I i s →
    (∀ j s, i ≤ j < i + Z.of_nat n → I j s → ∃ s', body j s = Some s' ∧ I (j + 1) s') →
    ∃ s', for_loop n i body s = Some s' ∧ I (i + Z.of_nat n) s'.
Proof.
  induction n as [|n IH]; intros i s HI Hbody.
  - exists s. split; [done|]. by rewrite Z.add_0_r.
  - destruct (Hbody i s) as (s' & Hs' & HI'); [lia|done|].
    destruct (IH (i + 1) s' HI') as (s'' & Hs'' & HI'').
    { intros j t Hj. apply Hbody. lia. }
    exists s''. simpl. rewrite Hs'. split; [done|].
    by replace (i + Z.of_nat (Datatypes.S n)) with (i + 1 + Z.of_nat n) by lia.
Qed.

Lemma for_loop_ind (I : Z → S → Prop) body n :
  ∀ i s s', I i s →
    (∀ j s s', i ≤ j < i + Z.of_nat n → I j s → body j s = Some s' → I (j + 1) s') →
    for_loop n i body s = Some s' → I (i + Z.of_nat n) s'.
Proof.
  induction n as [|n IH]; intros i s s' HI Hbody Hrun; simpl in Hrun.
  - injection Hrun as <-. by rewrite Z.add_0_r.
  - destruct (body i s) as [t|] eqn:Ht; simpl in Hrun; [|done].
    replace (i + Z.of_nat (Datatypes.S n)) with (i + 1 + Z.of_nat n) by lia.
    apply (IH (i + 1) t); [apply (Hbody i s); [lia|done|done]| |done].
    intros j u u' Hj. apply Hbody. lia.
Qed.

(** A turn that always fails makes the loop fail. *)
Lemma for_loop_None body n :
  ∀ i s j, i ≤ j < i + Z.of_nat n → (∀ t, body j t = None) → for_loop n i body s = None.
Proof.
  induction n as [|n IH]; intros i s j Hj Hnone; [lia|]. simpl.
  destruct (decide (j = i)) as [->|]; [by rewrite Hnone|].
  destruct (body i s) as [t|]; simpl; [|done]. apply (IH _ _ j); [lia|done].
Qed.

Lemma for_loop_snoc body n :
  ∀ i s, for_loop (Datatypes.S n) i body s =
    s' ← for_loop n i body s; body (i + Z.of_nat n) s'.
Proof.
  induction n as [|n IH]; intros i s.
  - simpl. rewrite Z.add_0_r. by destruct (body i s).
  - change (for_loop (Datatypes.S (Datatypes.S n)) i body s) with
      (s' ← body i s; for_loop (Datatypes.S n) (i + 1) body s').
    simpl (for_loop (Datatypes.S n) i body s).
    destruct (body i s) as [t|]; simpl; [|done].
    change (t' ← body (i + 1) t; for_loop n (i + 1 + 1) body t') with
      (for_loop (Datatypes.S n) (i + 1) body t).
    rewrite IH. by replace (i + 1 + Z.of_nat n) with (i + Z.pos (Pos.of_succ_nat n)) by lia.
Qed.

(** A loop taken in two parts, and loops whose bodies agree. *)
Lemma for_loop_app body n m :
  ∀ i s, for_loop (n + m) i body s = s' ← for_loop n i body s; for_loop m (i + Z.of_nat n) body s'.
Proof.
  induction n as [|n IH]; intros i s; simpl; [by rewrite Z.add_0_r|].
  destruct (body i s) as [t|]; simpl; [|done]. rewrite IH.
  by replace (i + 1 + Z.of_nat n) with (i + Z.pos (Pos.of_succ_nat n)) by lia.
Qed.

Lemma for_loop_ext body body' n :
  ∀ i d s, (∀ j t, i ≤ j < i + Z.of_nat n → body j t = body' (j + d) t) →
    for_loop n i body s = for_loop n (i + d) body' s.
Proof.
  induction n as [|n IH]; intros i d s Heq; simpl; [done|].
  rewrite (Heq i) by lia. destruct (body' (i + d) s) as [t|]; simpl; [|done].
  rewrite (IH _ d) by (intros; apply Heq; lia). f_equal. lia.
Qed.

Lemma for_loop_body_ext body body' n i s :
  (∀ j t, i ≤ j < i + Z.of_nat n → body j t = body' j t) → for_loop n i body s = for_loop n i body' s.
Proof.
  intros Heq. rewrite (for_loop_ext body body' n i 0), Z.add_0_r; [done|].
  intros j t Hj. rewrite Z.add_0_r. by apply Heq.
Qed.

(** Bodies that agree, and return, on the states that occur. *)
Lemma for_loop_same (I : Z → S → Prop) body body' n :
  ∀ i s, I i s →
    (∀ j s, i ≤ j < i + Z.of_nat n → I j s →
       ∃ s', body j s = Some s' ∧ body' j s = Some s' ∧ I (j + 1) s') →
    ∃ s', for_loop n i body s = Some s' ∧ for_loop n i body' s = Some s' ∧ I (i + Z.of_nat n) s'.
Proof.
  induction n as [|n IH]; intros i s HI Hbody; cbn [for_loop].
  - exists s. by rewrite Z.add_0_r.
  - destruct (Hbody i s) as (s' & -> & -> & HI'); [lia|done|]. cbn [mbind option_bind].
    destruct (IH (i + 1) s' HI') as (s'' & -> & -> & HI'').
    { intros j t Hj. apply Hbody. lia. }
    exists s''. split_and!; [done..|].
    by replace (i + Z.of_nat (Datatypes.S n)) with (i + 1 + Z.of_nat n) by lia.
Qed.
End loops.

(** Two loops whose bodies agree on the states that occur return the same. *)
Lemma while_ext {S} (cond : S → bool) (body body' : S → option S) fuel :
  (∀ s, cond s = true → body s = body' s) →
  ∀ s, while fuel cond body s = while fuel cond body' s.
Proof.
  intros Heq. induction fuel as [|fuel IH]; intros s; simpl; [done|].
  destruct (cond s) eqn:Hc; [|done]. rewrite (Heq s Hc).
  destruct (body' s); simpl; auto.
Qed.

Lemma leb_ltb_succ a b : (a <=? b) = (a <? b + 1).
Proof. destruct (Z.leb_spec a b), (Z.ltb_spec a (b + 1)); done || lia. Qed.

Lemma while_cond_ext {S} (cond cond' : S → bool) (body : S → option S) fuel :
  (∀ s, cond s = cond' s) → ∀ s, while fuel cond body s = while fuel cond' body s.
Proof.
  intros Heq. induction fuel as [|fuel IH]; intros s; simpl; rewrite Heq; [done|].
  destruct (cond' s); [|done]. destruct (body s); simpl; auto.
Qed.

Lemma length_omap_le {A B} (f : A → option B) (l : list A) : (length (omap f l) ≤ length l)%nat.
Proof. induction l as [|x l IH]; [done|]. cbn. destruct (f x); cbn; lia. Qed.

(** [simplify_bind] takes the monadic binds of a hypothesis apart. *)
Ltac simplify_bind :=
  repeat match goal with
  | H : mbind _ ?o = Some _ |- _ =>
      let x := fresh "x" in let Hx := fresh "Hx" in
      apply bind_Some in H as (x & Hx & H)
  | H : mbind _ None = Some _ |- _ => discriminate H
  | H : Some _ = Some _ |- _ => injection H as H
  | H : None = Some _ |- _ => discriminate H
  end.

(** Case analysis on the boolean comparisons of the code. *)
Ltac case_bool :=
  repeat match goal with
  | |- context [if ?b then _ else _] => destruct b eqn:?
  end;
  repeat match goal with
  | H : (_ <=? _) = true |- _ => apply Z.leb_le in H
  | H : (_ <=? _) = false |- _ => apply Z.leb_gt in H
  | H : (_ <? _) = true |- _ => apply Z.ltb_lt in H
  | H : (_ <? _) = false |- _ => apply Z.ltb_ge in H
  | H : (_ =? _) = true |- _ => apply Z.eqb_eq in H
  | H : (_ =? _) = false |- _ => apply Z.eqb_neq in H
  | H : negb _ = true |- _ => apply negb_true_iff in H
  | H : negb _ = false |- _ => apply negb_false_iff in H
  end.

(** Decides a closed decidable goal by computation. *)
Ltac vm_decide := apply (bool_decide_unpack _); vm_compute; exact I.

(** Linear arithmetic with divisions and remainders by constants. *)
Ltac div_lia := Z.div_mod_to_equations; lia.
