(* ===== verification/Words.v ===== *)
(** * Buffers of bytes and unaligned little-endian reads

    [memcpy(&v, p + off, n)] as used by the hash functions under
    src/include/hash: a buffer is a list of bytes, a read that is not inside the
    buffer has no value. *)
From S2P Require Import Prelude.
From Stdlib Require Strings.Byte.
From Stdlib Require Export Init.Byte.

#[export] Instance byte_eq_dec : EqDecision byte.
Proof. intros x y. destruct (Strings.Byte.byte_eq_dec x y); [by left|by right]. Defined.

Abbreviation bytes := (list byte).

Definition byteZ (b : byte) : Z := Z.of_N (Strings.Byte.to_N b).

(** The bytes [p[off .. off+n)]. *)
Definition slice {A} (p : list A) (off : Z) (n : nat) : option (list A) :=
  if (0 <=? off) && (off + Z.of_nat n <=? Z.of_nat (length p))
  then Some (take n (drop (Z.to_nat off) p)) else None.

Fixpoint le_combine (l : bytes) : Z :=
  match l with
  | [] => 0
  | b :: l => byteZ b + 256 * le_combine l
  end.

(** An [n]-byte little-endian load from [p + off]. *)
Definition load_le (n : nat) (p : bytes) (off : Z) : option Z :=
  le_combine <$> slice p off n.

(** [p[i]] for [const uint8_t *p]. *)
Definition load_byte (p : bytes) (i : Z) : option Z :=
  if 0 <=? i then byteZ <$> p !! Z.to_nat i else None.

(** [a[i]] for an array of integers. *)
Definition arr_get (a : list Z) (i : Z) : option Z :=
  if 0 <=? i then a !! Z.to_nat i else None.

Lemma byteZ_fits b : fits 8 (byteZ b).
Proof. unfold fits, byteZ. destruct b; vm_compute; done. Qed.

Lemma byteZ_inj b b' : byteZ b = byteZ b' → b = b'.
Proof.
  unfold byteZ. intros H%N2Z.inj.
  pose proof (Strings.Byte.of_to_N b) as Hb. pose proof (Strings.Byte.of_to_N b') as Hb'.
  rewrite H in Hb. congruence.
Qed.

Lemma le_combine_fits l : fits (8 * Z.of_nat (length l)) (le_combine l).
Proof.
  unfold fits. induction l as [|b l IH]; simpl le_combine.
  - simpl. lia.
  - pose proof (byteZ_fits b) as [? ?].
    replace (8 * Z.of_nat (length (b :: l))) with (8 + 8 * Z.of_nat (length l))
      by (simpl length; lia).
    rewrite Z.pow_add_r by lia. change (2 ^ 8) with 256 in *. lia.
Qed.

Lemma le_combine_inj l l' :
  length l = length l' → le_combine l = le_combine l' → l = l'.
Proof.
  revert l'. induction l as [|b l IH]; intros [|b' l'] Hlen Heq; try done.
  simpl in Heq, Hlen. pose proof (byteZ_fits b) as Hb. pose proof (byteZ_fits b') as Hb'.
  unfold fits in *. change (2 ^ 8) with 256 in *.
  assert (byteZ b = byteZ b' ∧ le_combine l = le_combine l') as [Hbb Hll] by lia.
  f_equal; [by apply byteZ_inj|]. apply IH; [lia|done].
Qed.

Lemma slice_Some {A} (p : list A) off n l :
  slice p off n = Some l → 0 ≤ off ∧ off + Z.of_nat n ≤ Z.of_nat (length p) ∧ length l = n.
Proof.
  unfold slice. destruct ((0 <=? off) && _) eqn:H; [|done]. intros [= <-].
  apply andb_true_iff in H as [H1%Z.leb_le H2%Z.leb_le].
  split; [done|]. split; [done|]. rewrite length_take, length_drop. lia.
Qed.

Lemma slice_in_bounds {A} (p : list A) off n :
  0 ≤ off → off + Z.of_nat n ≤ Z.of_nat (length p) →
  slice p off n = Some (take n (drop (Z.to_nat off) p)).
Proof.
  intros H1 H2. unfold slice.
  apply Z.leb_le in H1 as ->. by apply Z.leb_le in H2 as ->.
Qed.

(** A load inside the buffer has a value, and the value fits its width. *)
Lemma load_le_in_bounds n p off :
  0 ≤ off → off + Z.of_nat n ≤ Z.of_nat (length p) →
  ∃ v, load_le n p off = Some v ∧ fits (8 * Z.of_nat n) v.
Proof.
  intros H1 H2. unfold load_le. rewrite (slice_in_bounds _ _ _ H1 H2). simpl.
  eexists. split; [done|].
  replace n with (length (take n (drop (Z.to_nat off) p))) at 1; [apply le_combine_fits|].
  rewrite length_take, length_drop. lia.
Qed.

Lemma load_le_Some n p off v :
  load_le n p off = Some v →
  0 ≤ off ∧ off + Z.of_nat n ≤ Z.of_nat (length p) ∧ fits (8 * Z.of_nat n) v.
Proof.
  unfold load_le. intros (l & Hs & ->)%fmap_Some.
  apply slice_Some in Hs as (H1 & H2 & <-). auto using le_combine_fits.
Qed.

(** Equal loads of the same width mean equal bytes. *)
Lemma load_le_inj n p p' off off' v :
  load_le n p off = Some v → load_le n p' off' = Some v → slice p off n = slice p' off' n.
Proof.
  unfold load_le. intros (l & Hs & Hv)%fmap_Some (l' & Hs' & Hv')%fmap_Some.
  rewrite Hs, Hs'. f_equal. apply le_combine_inj; [|congruence].
  apply slice_Some in Hs as (_ & _ & ->). by apply slice_Some in Hs' as (_ & _ & ->).
Qed.

Lemma load_byte_in_bounds p i :
  0 ≤ i < Z.of_nat (length p) → ∃ v, load_byte p i = Some v ∧ fits 8 v.
Proof.
  intros [H1 H2]. unfold load_byte. rewrite (proj2 (Z.leb_le _ _) H1).
  destruct (p !! Z.to_nat i) as [b|] eqn:Hb.
  - simpl. eauto using byteZ_fits.
  - apply lookup_ge_None in Hb. lia.
Qed.

Lemma arr_get_Some a i v : arr_get a i = Some v ↔ 0 ≤ i ∧ a !! Z.to_nat i = Some v.
Proof.
  unfold arr_get. destruct (Z.leb_spec 0 i).
  - split; [done|]. by intros [_ ?].
  - split; [done|]. intros [? _]. lia.
Qed.

Lemma arr_get_lookup a i v : 0 ≤ i → a !! Z.to_nat i = Some v → arr_get a i = Some v.
Proof. intros. by apply arr_get_Some. Qed.

Lemma arr_get_in_bounds a i : 0 ≤ i < Z.of_nat (length a) → ∃ v, arr_get a i = Some v.
Proof.
  intros [H1 H2]. unfold arr_get. rewrite (proj2 (Z.leb_le _ _) H1).
  apply lookup_lt_is_Some. lia.
Qed.

(** ** The low half of a word *)

Lemma le_combine_app l l' :
  le_combine (l ++ l') = le_combine l + 2 ^ (8 * Z.of_nat (length l)) * le_combine l'.
Proof.
  induction l as [|b l IH]; [simpl; lia|].
  cbn [le_combine app length]. rewrite IH, Nat2Z.inj_succ.
  replace (8 * Z.succ (Z.of_nat (length l))) with (8 + 8 * Z.of_nat (length l)) by lia.
  rewrite Z.pow_add_r by lia. change (2 ^ 8) with 256. ring.
Qed.

(** Loading the first [m] bytes of an [n]-byte word is its low part. *)
Lemma load_le_low m n p off v :
  (m ≤ n)%nat → load_le n p off = Some v → load_le m p off = Some (wrap (8 * Z.of_nat m) v).
Proof.
  intros Hmn. unfold load_le. intros (l & Hs & ->)%fmap_Some.
  pose proof (slice_Some _ _ _ _ Hs) as (H1 & H2 & Hl).
  rewrite slice_in_bounds in Hs by lia. injection Hs as <-.
  rewrite slice_in_bounds by lia. cbn [fmap option_fmap option_map]. f_equal.
  set (d := drop (Z.to_nat off) p) in *.
  rewrite <-(take_drop m (take n d)), le_combine_app, take_take, Nat.min_l by done.
  assert (length (take m d) = m) as Hm by (rewrite length_take in *; lia).
  rewrite Hm. unfold wrap. rewrite Z.mul_comm, Z_mod_plus_full, Z.mod_small; [done|].
  pose proof (le_combine_fits (take m d)) as Hf. by rewrite Hm in Hf.
Qed.

(** A slice of a slice. *)
Lemma slice_slice {A} (p : list A) off n l k m :
  slice p off n = Some l → 0 ≤ k → k + Z.of_nat m ≤ Z.of_nat n →
  slice p (off + k) m = slice l k m.
Proof.
  intros Hs Hk Hm. pose proof (slice_Some _ _ _ _ Hs) as (H1 & H2 & Hl).
  rewrite slice_in_bounds in Hs by lia. injection Hs as <-.
  rewrite !slice_in_bounds by (rewrite ?Hl; lia). f_equal.
  rewrite skipn_firstn_comm, take_take, drop_drop. f_equal; [lia|]. f_equal. lia.
Qed.

Lemma slice_prefix {A} (x y : list A) off n :
  off + Z.of_nat n ≤ Z.of_nat (length x) → slice (x ++ y) off n = slice x off n.
Proof.
  intros Hn. unfold slice. rewrite length_app.
  destruct (Z.leb_spec 0 off); [|done]. cbn [andb].
  rewrite (proj2 (Z.leb_le _ _) Hn), (proj2 (Z.leb_le _ (Z.of_nat (_ + _)))) by lia.
  f_equal. rewrite drop_app_le by lia. apply take_app_le. rewrite length_drop. lia.
Qed.

(** Loads at the same place of equal slices, and of a buffer that goes on. *)
Lemma load_le_slice n p off w l k :
  slice p off w = Some l → 0 ≤ k → k + Z.of_nat n ≤ Z.of_nat w →
  load_le n p (off + k) = load_le n l k.
Proof. intros Hs Hk Hn. unfold load_le. by rewrite (slice_slice p off w l). Qed.

Lemma load_le_prefix n x y off :
  off + Z.of_nat n ≤ Z.of_nat (length x) → load_le n (x ++ y) off = load_le n x off.
Proof. intros Hn. unfold load_le. by rewrite slice_prefix. Qed.

Lemma load_byte_prefix x y i : i < Z.of_nat (length x) → load_byte (x ++ y) i = load_byte x i.
Proof.
  intros Hi. unfold load_byte. destruct (Z.leb_spec 0 i); [|done].
  rewrite lookup_app_l; [done|lia].
Qed.

(** ** Writes *)

Definition byte_of_Z (z : Z) : byte := default x00 (Strings.Byte.of_N (Z.to_N (u8 z))).

(** The [n] bytes of a word, the low one first. *)
Fixpoint le_split (n : nat) (v : Z) : bytes :=
  match n with
  | O => []
  | S n => byte_of_Z v :: le_split n (Z.shiftr v 8)
  end.

(** [memcpy(p + off, l, length l)]: the array after the copy, if it is inside. *)
Definition write_at {A} (p : list A) (off : Z) (l : list A) : option (list A) :=
  if (0 <=? off) && (off + Z.of_nat (length l) <=? Z.of_nat (length p))
  then Some (take (Z.to_nat off) p ++ l ++ drop (Z.to_nat off + length l) p) else None.

Lemma length_le_split n v : length (le_split n v) = n.
Proof. revert v. induction n; intros; simpl; auto. Qed.

Lemma write_at_in_bounds {A} (p : list A) off l :
  0 ≤ off → off + Z.of_nat (length l) ≤ Z.of_nat (length p) →
  write_at p off l = Some (take (Z.to_nat off) p ++ l ++ drop (Z.to_nat off + length l) p).
Proof. intros H1 H2. unfold write_at. apply Z.leb_le in H1 as ->. by apply Z.leb_le in H2 as ->. Qed.

Lemma write_at_Some {A} (p : list A) off l p' : write_at p off l = Some p' → length p' = length p.
Proof.
  unfold write_at. destruct ((0 <=? off) && _) eqn:H; [|done]. intros [= <-].
  apply andb_true_iff in H as [H1%Z.leb_le H2%Z.leb_le].
  rewrite !length_app, length_take, length_drop. lia.
Qed.

(** Two writes, one behind the other, are one. *)
Lemma write_at_app {A} (p : list A) off l1 l2 :
  0 ≤ off → off + Z.of_nat (length l1 + length l2) ≤ Z.of_nat (length p) →
  (q ← write_at p off l1; write_at q (off + Z.of_nat (length l1)) l2) = write_at p off (l1 ++ l2).
Proof.
  intros H1 H2. rewrite (write_at_in_bounds p off l1), (write_at_in_bounds p off (l1 ++ l2)) by (rewrite ?length_app; lia).
  cbn [mbind option_bind]. rewrite write_at_in_bounds; [|lia|].
  2:{ rewrite !length_app, length_take, length_drop. lia. }
  replace (Z.to_nat (off + Z.of_nat (length l1))) with (Z.to_nat off + length l1)%nat by lia.
  set (o := Z.to_nat off). assert (Hlen : length (take o p) = o) by (rewrite length_take; lia).
  f_equal. rewrite (app_assoc (take o p) l1), (take_app_length' (take o p ++ l1)) by (rewrite length_app; lia).
  rewrite drop_app_ge by (rewrite length_app; lia).
  rewrite drop_drop, !length_app, Hlen, <-!app_assoc. do 3 f_equal. f_equal. lia.
Qed.

(** ** 64-bit products *)

(** A word split at bit 32. *)
Lemma split32 x :
  fits 64 x → x = Z.shiftr x 32 * 2 ^ 32 + u32 x ∧ fits 32 (Z.shiftr x 32) ∧ fits 32 (u32 x).
Proof.
  unfold fits, wrap. intros Hx. rewrite Z.shiftr_div_pow2 by lia.
  pose proof (Z.div_mod x (2 ^ 32)). pose proof (Z.mod_pos_bound x (2 ^ 32)).
  assert (x / 2 ^ 32 < 2 ^ 32) by (apply Z.div_lt_upper_bound; lia).
  assert (0 ≤ x / 2 ^ 32) by (apply Z.div_pos; lia). lia.
Qed.

(** [x << 32] keeps the low half of [x]. *)
Lemma shl32_wrap x : fits 64 x → u64 (Z.shiftl x 32) = u32 x * 2 ^ 32.
Proof.
  intros Hx. destruct (split32 x Hx) as (Heq & Hh & Hl). unfold fits in *.
  rewrite Z.shiftl_mul_pow2 by lia. rewrite Heq at 1.
  replace ((Z.shiftr x 32 * 2 ^ 32 + u32 x) * 2 ^ 32)
    with (u32 x * 2 ^ 32 + Z.shiftr x 32 * 2 ^ 64) by (change (2 ^ 64) with (2 ^ 32 * 2 ^ 32); ring).
  unfold wrap at 1. rewrite Z_mod_plus_full. apply Z.mod_small. change (2 ^ 64) with (2 ^ 32 * 2 ^ 32). nia.
Qed.

(** The two words of a 128-bit product. *)
Lemma mul64_split A B :
  let product := wrap 128 (A * B) in
  fits 64 A → fits 64 B →
  fits 64 (u64 product) ∧ fits 64 (u64 (Z.shiftr product 64)) ∧
  A * B = u64 (Z.shiftr product 64) * 2 ^ 64 + u64 product.
Proof.
  intros product HA HB. subst product. unfold fits in *.
  rewrite (wrap_small 128) by (unfold fits; nia).
  rewrite Z.shiftr_div_pow2 by lia.
  rewrite (wrap_small 64 (A * B / 2 ^ 64)).
  - pose proof (Z.div_mod (A * B) (2 ^ 64)).
    pose proof (Z.mod_pos_bound (A * B) (2 ^ 64)).
    assert (A * B / 2 ^ 64 < 2 ^ 64) by (apply Z.div_lt_upper_bound; nia).
    assert (0 ≤ A * B / 2 ^ 64) by (apply Z.div_pos; nia).
    unfold wrap. lia.
  - split; [apply Z.div_pos; nia|apply Z.div_lt_upper_bound; nia].
Qed.
