(* ===== verification/Floats.v ===== *)
(** * The floating-point arithmetic of the code

    [double] is IEEE binary64 and [float] binary32, both as the Standard Library's
    [spec_float], rounded to nearest even. Conversions to integer types truncate
    and have no value outside the range of the type. *)
From S2P Require Import Prelude.
From Stdlib Require Export Floats.SpecFloat.

Definition f64_add := SFadd 53 1024.
Definition f64_sub := SFsub 53 1024.
Definition f64_mul := SFmul 53 1024.
Definition f64_div := SFdiv 53 1024.

(** Integer to [double] / [float]; a decimal literal [m / 10^k] is the correctly
    rounded quotient. *)
Definition f64_of_Z (z : Z) : spec_float := binary_normalize 53 1024 z 0 false.
Definition f32_of_Z (z : Z) : spec_float := binary_normalize 24 128 z 0 false.
Definition f64_lit (m k : Z) : spec_float := f64_div (f64_of_Z m) (f64_of_Z (10 ^ k)).

Definition f32_mul := SFmul 24 128.
Definition f32_div := SFdiv 24 128.
Definition f32_sub := SFsub 24 128.

(** [double] to [float] and back. *)
Definition sf_round (prec emax : Z) (x : spec_float) : spec_float :=
  match x with
  | S754_finite s m e => binary_normalize prec emax (cond_Zopp s (Zpos m)) e s
  | _ => x
  end.
Definition f32_of_f64 := sf_round 24 128.
Definition f64_of_f32 := sf_round 53 1024.

(** Truncation towards zero. *)
Definition sf_trunc (x : spec_float) : option Z :=
  match x with
  | S754_zero _ => Some 0
  | S754_finite s m e =>
      Some (cond_Zopp s (if 0 <=? e then Zpos m * 2 ^ e else Zpos m / 2 ^ (- e)))
  | _ => None
  end.

(** Conversion to an unsigned type of [w] bits and to [int]. *)
Definition sf_to_unsigned (w : Z) (x : spec_float) : option Z :=
  z ← sf_trunc x; if (0 <=? z) && (z <? 2 ^ w) then Some z else None.
Definition sf_to_i32 (x : spec_float) : option Z := z ← sf_trunc x; chk_i32 z.

(** [std::max(a, b)]: the second argument only when the first is smaller. *)
Definition sf_max (a b : spec_float) : spec_float := if SFltb a b then b else a.

(** [ceil]: the next integer up, as a floating-point value. *)
Definition f64_ceil (x : spec_float) : spec_float :=
  match x with
  | S754_finite s m e =>
      if 0 <=? e then x
      else binary_normalize 53 1024 (- ((- cond_Zopp s (Zpos m)) / 2 ^ (- e))) 0 s
  | _ => x
  end.

Definition f32_ceil (x : spec_float) : spec_float :=
  match x with
  | S754_finite s m e =>
      if 0 <=? e then x
      else binary_normalize 24 128 (- ((- cond_Zopp s (Zpos m)) / 2 ^ (- e))) 0 s
  | _ => x
  end.

(** A [float] literal [m / 10^k], both exactly representable. *)
Definition f32_lit (m k : Z) : spec_float := f32_div (f32_of_Z m) (f32_of_Z (10 ^ k)).

(** [std::min(hi, std::max(lo, v))] *)
Definition sf_clamp (v lo hi : spec_float) : spec_float :=
  let m := sf_max lo v in if SFltb m hi then m else hi.

Lemma sf_to_unsigned_fits w x z : sf_to_unsigned w x = Some z → fits w z.
Proof.
  unfold sf_to_unsigned. intros (t & _ & H)%bind_Some.
  destruct ((0 <=? t) && _) eqn:Ht; [|done]. injection H as <-.
  apply andb_true_iff in Ht as [?%Z.leb_le ?%Z.ltb_lt]. split; lia.
Qed.

(** ** Order

    The comparison of [spec_float] is lexicographic on sign, exponent and mantissa,
    hence transitive, on all representations. *)
Lemma SFltb_trans a b c : SFltb a b = true → SFltb b c = true → SFltb a c = true.
Proof.
  unfold SFltb, SFcompare.
  destruct a as [[]|[]| |[] ma ea], b as [[]|[]| |[] mb eb], c as [[]|[]| |[] mc ec]; try done;
    destruct (Z.compare_spec ea eb), (Z.compare_spec eb ec), (Z.compare_spec ea ec); try done; try lia;
    unfold Pos.compare_cont; fold Pos.compare_cont;
    repeat match goal with
    | |- context [CompOpp (Pos.compare_cont Eq ?x ?y)] => change (Pos.compare_cont Eq x y) with (Pos.compare x y)
    | |- context [Pos.compare_cont Eq ?x ?y] => change (Pos.compare_cont Eq x y) with (Pos.compare x y)
    end;
    destruct (Pos.compare_spec ma mb), (Pos.compare_spec mb mc), (Pos.compare_spec ma mc); try done; lia.
Qed.

Lemma SFltb_irrefl a : SFltb a a = false.
Proof.
  unfold SFltb, SFcompare. destruct a as [[]|[]| |[] m e]; try done;
    rewrite Z.compare_refl; change (Pos.compare_cont Eq m m) with (Pos.compare m m);
    by rewrite Pos.compare_refl.
Qed.

(** ** Integers as floating-point numbers *)

Lemma digits2_pos_range m : 2 ^ (Zpos (digits2_pos m) - 1) ≤ Zpos m < 2 ^ Zpos (digits2_pos m).
Proof.
  induction m as [m IH|m IH|]; cbn [digits2_pos]; [| |done];
    rewrite Pos2Z.inj_succ; replace (Z.succ (Zpos (digits2_pos m)) - 1) with (Z.succ (Zpos (digits2_pos m) - 1)) by lia;
    rewrite !Z.pow_succ_r by lia; lia.
Qed.

(** A finite number divided by itself. *)
Lemma f64_div_self m e : f64_div (S754_finite false m e) (S754_finite false m e) = f64_of_Z 1.
Proof.
  unfold f64_div, SFdiv, SFdiv_core_binary. rewrite !Z.sub_diag.
  change (Z.min (fexp 53 1024 0) 0) with (-53). change (0 - -53) with 53. cbv iota.
  rewrite Z.shiftl_mul_pow2 by lia.
  assert (Z.div_eucl (Zpos m * 2 ^ 53) (Zpos m) = (2 ^ 53, 0)) as ->.
  { pose proof (Z_div_mod (Zpos m * 2 ^ 53) (Zpos m) ltac:(lia)) as H. destruct (Z.div_eucl _ _) as [q r].
    destruct H as [H1 H2]. assert (q = 2 ^ 53) as -> by nia. f_equal. lia. }
  assert (new_location (Zpos m) 0 = loc_Exact) as ->.
  { unfold new_location. destruct (Z.even _); reflexivity. }
  vm_compute. reflexivity.
Qed.


Lemma digits2_pos_iter p d : digits2_pos (Pos.iter xO p d) = (digits2_pos p + d)%positive.
Proof.
  induction d as [|d IH] using Pos.peano_ind; [cbn; lia|].
  rewrite Pos.iter_succ. cbn [digits2_pos]. rewrite IH. lia.
Qed.

Lemma Zpos_iter_xO p d : Zpos (Pos.iter xO p d) = Zpos p * 2 ^ Zpos d.
Proof.
  induction d as [|d IH] using Pos.peano_ind; [cbn; lia|].
  rewrite Pos.iter_succ, Pos2Z.inj_xO, IH, Pos2Z.inj_succ, Z.pow_succ_r by lia. lia.
Qed.

(** An integer below 2^53 is a [double], exactly. *)
Lemma f64_of_Z_exact n :
  0 < n < 2 ^ 53 → ∃ m e, f64_of_Z n = S754_finite false m e ∧
    Zpos (digits2_pos m) = 53 ∧ -53 ≤ e ≤ 0 ∧ Zpos m = n * 2 ^ (- e).
Proof.
  intros Hn. destruct n as [|p|p]; try lia. unfold f64_of_Z, binary_normalize, binary_round.
  pose proof (digits2_pos_range p) as Hr.
  assert (Zpos (digits2_pos p) ≤ 53) as Hd.
  { destruct (Z.le_gt_cases (Zpos (digits2_pos p)) 53); [done|].
    assert (2 ^ 53 ≤ 2 ^ (Zpos (digits2_pos p) - 1)) by (apply Z.pow_le_mono_r; lia). lia. }
  assert (∃ mz ez, shl_align p 0 (fexp 53 1024 (Zpos (digits2_pos p) + 0)) = (mz, ez) ∧
    Zpos (digits2_pos mz) = 53 ∧ -53 ≤ ez ≤ 0 ∧ Zpos mz = Zpos p * 2 ^ (- ez)) as (mz & ez & -> & Hm & He & Hv).
  { unfold fexp, emin. rewrite Z.max_l by lia. unfold shl_align.
    replace (Zpos (digits2_pos p) + 0 - 53 - 0) with (Zpos (digits2_pos p) - 53) by lia.
    destruct (Zpos (digits2_pos p) - 53) as [|d|d] eqn:Hs; [|lia|].
    - exists p, 0. split; [done|]. lia.
    - do 2 eexists. split; [done|]. rewrite digits2_pos_iter, Zpos_iter_xO.
      split_and!; [lia..|]. do 2 f_equal. lia. }
  assert (∀ l, shr_fexp 53 1024 (Zpos mz) ez l = (shr_record_of_loc (Zpos mz) l, ez)) as Hshr.
  { intros l. unfold shr_fexp. cbn [Zdigits2]. rewrite Hm. unfold fexp, emin. rewrite Z.max_l by lia.
    by replace (53 + ez - 53 - ez) with 0 by lia. }
  unfold binary_round_aux. rewrite Hshr. cbn [shr_record_of_loc shr_m loc_of_shr_record round_nearest_even].
  rewrite Hshr. cbn [shr_record_of_loc shr_m]. rewrite (proj2 (Z.leb_le _ _)) by lia. eauto 10.
Qed.

Lemma f64_of_Z_finite n : 0 < n < 2 ^ 53 → ∃ m e, f64_of_Z n = S754_finite false m e.
Proof. intros Hn. destruct (f64_of_Z_exact n Hn) as (m & e & Hm & _). eauto. Qed.

(** ** Concrete functions in the place of libm

    The theorems take the functions of libm as parameters; their instances at concrete
    inputs use these. *)
Definition libm_one (_ : spec_float) : spec_float := f64_of_Z 1.
Definition libm_zero (_ : spec_float) : spec_float := f64_of_Z 0.
Definition libm_minus_two (x : spec_float) : spec_float := f64_sub x (f64_of_Z 2).
Definition libm_half (_ _ : spec_float) : spec_float := f64_lit 5 1.
