(* ===== verification/Wyhash.v ===== *)
(** * wyhash (src/include/hash/wyhash.hh)

    The 64-bit multiply-and-mix functions, the unaligned readers and the main
    function [wyhash], with the buffer reads checked against the key's bytes; the random
    numbers, their conversions, and the secrets that [make_secret] draws until they fit. *)
From Stdlib Require Import ZArith.Znumtheory.
From S2P Require Import Prelude Words Floats.

(** [const uint64_t *secret], an array of four words. *)
Record secret_t := Secret { sec0 : Z; sec1 : Z; sec2 : Z; sec3 : Z }.

Definition secret_wf (s : secret_t) : Prop :=
  fits 64 (sec0 s) ∧ fits 64 (sec1 s) ∧ fits 64 (sec2 s) ∧ fits 64 (sec3 s).

Definition _wyp : secret_t :=
  Secret 0xa0761d6478bd642f 0xe7037ed1a0b428db 0x8ebc6af09c88c6e3 0x589965cc75374cc3.

Definition _wyrot (x : Z) : Z := Z.lor (Z.shiftr x 32) (u64 (Z.shiftl x 32)).

(** [_wymum] replaces [*A] and [*B] by the low and the high word of the product:
    the [__uint128_t] branch, and the branch for compilers without it. *)
Definition _wymum (A B : Z) : Z * Z :=
  let r := wrap 128 (A * B) in
  (u64 r, u64 (Z.shiftr r 64)).

Definition _wymum_portable (A B : Z) : Z * Z :=
  let ha := Z.shiftr A 32 in let hb := Z.shiftr B 32 in
  let la := u32 A in let lb := u32 B in
  let rh := u64 (ha * hb) in let rm0 := u64 (ha * lb) in
  let rm1 := u64 (hb * la) in let rl := u64 (la * lb) in
  let t := u64 (rl + u64 (Z.shiftl rm0 32)) in
  let c := Z.b2z (t <? rl) in
  let lo := u64 (t + u64 (Z.shiftl rm1 32)) in
  let c := u64 (c + Z.b2z (lo <? t)) in
  let hi := u64 (rh + Z.shiftr rm0 32 + Z.shiftr rm1 32 + c) in
  (lo, hi).

Definition _wymix (A B : Z) : Z := let '(A, B) := _wymum A B in Z.lxor A B.

Definition _wyr8 (p : bytes) (off : Z) : option Z := load_le 8 p off.
Definition _wyr4 (p : bytes) (off : Z) : option Z := load_le 4 p off.

Definition _wyr3 (p : bytes) (off k : Z) : option Z :=
  a ← load_byte p off;
  b ← load_byte p (off + Z.shiftr k 1);
  c ← load_byte p (off + k - 1);
  Some (Z.lor (Z.lor (u64 (Z.shiftl a 16)) (u64 (Z.shiftl b 8))) c).

(** The state of the two loops of [wyhash]: the pointer as an offset into the
    key, the bytes left, and the seeds. *)
Record wy_state := WySt { wy_p : Z; wy_i : Z; wy_seed : Z; wy_see1 : Z; wy_see2 : Z }.

Definition wyhash_body48 (key : bytes) (secret : secret_t) (s : wy_state) : option wy_state :=
  let p := wy_p s in
  a0 ← _wyr8 key p; b0 ← _wyr8 key (p + 8);
  a1 ← _wyr8 key (p + 16); b1 ← _wyr8 key (p + 24);
  a2 ← _wyr8 key (p + 32); b2 ← _wyr8 key (p + 40);
  Some (WySt (p + 48) (wy_i s - 48)
    (_wymix (Z.lxor a0 (sec1 secret)) (Z.lxor b0 (wy_seed s)))
    (_wymix (Z.lxor a1 (sec2 secret)) (Z.lxor b1 (wy_see1 s)))
    (_wymix (Z.lxor a2 (sec3 secret)) (Z.lxor b2 (wy_see2 s)))).

Definition wyhash_body16 (key : bytes) (secret : secret_t) (s : wy_state) : option wy_state :=
  let p := wy_p s in
  a ← _wyr8 key p; b ← _wyr8 key (p + 8);
  Some (WySt (p + 16) (wy_i s - 16)
    (_wymix (Z.lxor a (sec1 secret)) (Z.lxor b (wy_seed s))) (wy_see1 s) (wy_see2 s)).

(** The branch for keys of more than 16 bytes: the do-while loop over 48-byte
    blocks, then the while loop over 16-byte blocks, then the last 16 bytes. *)
Definition wyhash_long (key : bytes) (len seed : Z) (secret : secret_t) : option (Z * Z * Z) :=
  let fuel := Z.to_nat len in
  s ← (if 48 <? len then
         s ← wyhash_body48 key secret (WySt 0 len seed seed seed);
         s ← while fuel (λ s, 48 <? wy_i s) (wyhash_body48 key secret) s;
         Some (WySt (wy_p s) (wy_i s)
                 (Z.lxor (wy_seed s) (Z.lxor (wy_see1 s) (wy_see2 s))) (wy_see1 s) (wy_see2 s))
       else Some (WySt 0 len seed 0 0));
  s ← while fuel (λ s, 16 <? wy_i s) (wyhash_body16 key secret) s;
  a ← _wyr8 key (wy_p s + wy_i s - 16);
  b ← _wyr8 key (wy_p s + wy_i s - 8);
  Some (a, b, wy_seed s).

Definition wyhash (key : bytes) (len seed : Z) (secret : secret_t) : option Z :=
  let seed := Z.lxor seed (sec0 secret) in
  '(a, b, seed) ←
    (if len <=? 16 then
       if len <=? 8 then
         if 4 <=? len then a ← _wyr4 key 0; b ← _wyr4 key (len - 4); Some (a, b, seed)
         else if negb (len =? 0) then a ← _wyr3 key 0 len; Some (a, 0, seed)
         else Some (0, 0, seed)
       else a ← _wyr8 key 0; b ← _wyr8 key (len - 8); Some (a, b, seed)
     else wyhash_long key len seed secret);
  Some (_wymix (Z.lxor (sec1 secret) len)
          (_wymix (Z.lxor a (sec1 secret)) (Z.lxor b seed))).

Definition wyhash_default (key : bytes) (len : Z) : option Z := wyhash key len 0 _wyp.

Definition wyhash64 (A B : Z) : Z :=
  let '(A, B) := _wymum (Z.lxor A (sec0 _wyp)) (Z.lxor B (sec1 _wyp)) in
  _wymix (Z.lxor A (sec0 _wyp)) (Z.lxor B (sec1 _wyp)).

(** [wyrand] returns the number and the advanced [*seed]. *)
Definition wyrand (seed : Z) : Z * Z :=
  let seed := u64 (seed + sec0 _wyp) in
  (_wymix seed (Z.lxor seed (sec1 _wyp)), seed).

Definition wy2u0k (r k : Z) : Z := let '(r, k) := _wymum r k in k.

(** Conversions of random words to [double]. *)
Definition wy2u01 (r : Z) : spec_float :=
  let _wynorm := f64_div (f64_of_Z 1) (f64_of_Z (Z.shiftl 1 52)) in
  f64_mul (f64_of_Z (Z.shiftr r 12)) _wynorm.

Definition wy2gau (r : Z) : spec_float :=
  let _wynorm := f64_div (f64_of_Z 1) (f64_of_Z (Z.shiftl 1 20)) in
  let sum := u64 (Z.land r 0x1fffff + Z.land (Z.shiftr r 21) 0x1fffff + Z.land (Z.shiftr r 42) 0x1fffff) in
  f64_sub (f64_mul (f64_of_Z sum) _wynorm) (f64_of_Z 3).

(** ** [make_secret]

    The table [c] of the bytes with four bits set; a candidate word has eight of them. *)
Definition secret_bytes : list Z :=
  [ 15; 23; 27; 29; 30; 39; 43; 45; 46; 51; 53; 54; 57; 58; 60; 71; 75; 77; 78; 83; 85; 86; 89; 90;
    92; 99; 101; 102; 105; 106; 108; 113; 114; 116; 120; 135; 139; 141; 142; 147; 149; 150; 153; 154;
    156; 163; 165; 166; 169; 170; 172; 177; 178; 180; 184; 195; 197; 198; 201; 202; 204; 209; 210;
    212; 216; 225; 226; 228; 232; 240 ].

Definition draw_word (seed : Z) : option (Z * Z) :=
  for_loop 8 0
    (λ k '(seed, w),
       let '(r, seed) := wyrand seed in
       b ← arr_get secret_bytes (r `mod` 70);
       Some (seed, Z.lor w (u64 (Z.shiftl b (8 * k))))) (seed, 0).

(** [__builtin_popcountll] *)
Definition popcountll (x : Z) : Z := Z.of_nat (length (filter (λ i, Z.testbit x i = true) (seqZ 0 64))).

(** The trial division, at most [tests] of them; whether no divisor was found. *)
Definition no_divisor (tests : nat) (w : Z) : option bool :=
  snd <$> while tests (λ '(j, ok), (j <? 0x100000000) && ok)
    (λ '(j, ok), Some (if w `mod` j =? 0 then (j, false) else (j + 2, ok))) (3, true).

(** One turn of the [do] loop: the seed, the candidate and [ok]; [words] are those found before. *)
Definition secret_turn (tests : nat) (words : list Z) (s : Z * Z * bool) : option (Z * Z * bool) :=
  '(seed, w) ← draw_word s.1.1;
  if w `mod` 2 =? 0 then Some (seed, w, false)
  else if negb (forallb (λ x, popcountll (Z.lxor x w) =? 32) words) then Some (seed, w, false)
  else ok ← no_divisor tests w; Some (seed, w, ok).

Definition next_word (turns tests : nat) (words : list Z) (seed : Z) : option (Z * Z) :=
  s ← secret_turn tests words (seed, 0, false);
  fst <$> while turns (λ s, negb s.2) (secret_turn tests words) s.

Definition make_secret (turns tests : nat) (seed : Z) : option secret_t :=
  '(_, words) ← for_loop 4 0
     (λ _ '(seed, words), '(seed, w) ← next_word turns tests words seed; Some (seed, words ++ [w])) (seed, []);
  match words with
  | [a; b; c; d] => Some (Secret a b c d)
  | _ => None
  end.

(** ** Multiply and mix *)

Lemma _wymum_spec A B :
  fits 64 A → fits 64 B →
  fits 64 (_wymum A B).1 ∧ fits 64 (_wymum A B).2 ∧
  A * B = (_wymum A B).2 * 2 ^ 64 + (_wymum A B).1.
Proof. apply mul64_split. Qed.

Lemma _wymix_fits A B : fits 64 A → fits 64 B → fits 64 (_wymix A B).
Proof.
  intros HA HB. unfold _wymix. destruct (_wymum_spec A B HA HB) as (H1 & H2 & _).
  destruct (_wymum A B) as [lo hi]. by apply fits_lxor.
Qed.

Lemma _wymix_comm A B : _wymix A B = _wymix B A.
Proof. unfold _wymix, _wymum. by rewrite (Z.mul_comm A B). Qed.

#[export] Hint Resolve _wymix_fits : elh.

Ltac solve_wy := repeat first [assumption | apply _wymix_fits | progress solve_fits].

(** Addition with the carry read off by comparing the sum with an operand. *)
Lemma carry_add x y :
  fits 64 x → fits 64 y → x + y = Z.b2z (u64 (x + y) <? x) * 2 ^ 64 + u64 (x + y).
Proof.
  unfold fits, wrap. intros Hx Hy. destruct (Z.lt_ge_cases (x + y) (2 ^ 64)).
  - rewrite Z.mod_small by lia. replace (x + y <? x) with false by (symmetry; apply Z.ltb_ge; lia).
    simpl. lia.
  - replace ((x + y) `mod` 2 ^ 64) with (x + y - 2 ^ 64).
    + replace (x + y - 2 ^ 64 <? x) with true by (symmetry; apply Z.ltb_lt; lia). simpl. lia.
    + apply Z.mod_unique with 1; lia.
Qed.

(** C29: The 32-bit-halves multiplication of the fallback branch of [_wymum]
    computes the same two words as the 128-bit branch. *)
Theorem _wymum_portable_correct A B :
  fits 64 A → fits 64 B → _wymum_portable A B = _wymum A B.
Proof.
  intros HA HB.
  destruct (_wymum_spec A B HA HB) as (Hlo & Hhi & Hprod).
  destruct (_wymum A B) as [lo hi]. cbn [fst snd] in *.
  destruct (split32 A HA) as (HAeq & HAh & HAl).
  destruct (split32 B HB) as (HBeq & HBh & HBl).
  unfold _wymum_portable. cbv zeta.
  set (ha := Z.shiftr A 32) in *. set (la := u32 A) in *.
  set (hb := Z.shiftr B 32) in *. set (lb := u32 B) in *.
  assert (Hmul : ∀ x y, fits 32 x → fits 32 y → fits 64 (x * y)) by (unfold fits; nia).
  rewrite !(wrap_small 64 (_ * _)) by auto.
  destruct (split32 (ha * lb)) as (Hrm0 & Hrm0h & Hrm0l); [auto|].
  destruct (split32 (hb * la)) as (Hrm1 & Hrm1h & Hrm1l); [auto|].
  rewrite !shl32_wrap by auto.
  set (q0 := Z.shiftr (ha * lb) 32) in *. set (r0 := u32 (ha * lb)) in *.
  set (q1 := Z.shiftr (hb * la) 32) in *. set (r1 := u32 (hb * la)) in *.
  assert (Hr : ∀ r, fits 32 r → fits 64 (r * 2 ^ 32)) by (unfold fits; lia).
  pose proof (carry_add (la * lb) (r0 * 2 ^ 32) ltac:(auto) ltac:(auto)) as Hc1.
  set (t := u64 (la * lb + r0 * 2 ^ 32)) in *.
  assert (Ht : fits 64 t) by (by apply fits_wrap).
  pose proof (carry_add t (r1 * 2 ^ 32) Ht ltac:(auto)) as Hc2.
  set (lo' := u64 (t + r1 * 2 ^ 32)) in *.
  assert (Hlo' : fits 64 lo') by (by apply fits_wrap).
  set (c1 := Z.b2z (t <? la * lb)) in *. set (c2 := Z.b2z (lo' <? t)) in *.
  assert (Hc1b : 0 ≤ c1 ≤ 1) by apply b2z_bound.
  assert (Hc2b : 0 ≤ c2 ≤ 1) by apply b2z_bound.
  clearbody c1 c2 t lo' q0 r0 q1 r1.
  assert (HAB : A * B = (ha * hb + q0 + q1 + c1 + c2) * 2 ^ 64 + lo').
  { rewrite HAeq, HBeq. clear -Hrm0 Hrm1 Hc1 Hc2. lia. }
  unfold fits in *.
  assert (lo' = lo ∧ ha * hb + q0 + q1 + c1 + c2 = hi) as [-> Hhi'].
  { clear -HAB Hprod Hlo Hlo'. lia. }
  f_equal. rewrite (wrap_small 64 (c1 + c2)) by (unfold fits; lia).
  rewrite wrap_small by (unfold fits; lia). lia.
Qed.

(** Lemire reduction. *)
Theorem wy2u0k_range r k : fits 64 r → fits 64 k → 0 < k → 0 ≤ wy2u0k r k < k.
Proof.
  intros Hr Hk Hpos. unfold wy2u0k. destruct (_wymum_spec r k Hr Hk) as (Hlo & Hhi & Hprod).
  destruct (_wymum r k) as [lo hi]. cbn [fst snd] in *. unfold fits in *. nia.
Qed.

(** ** Reads and termination of [wyhash] *)

Lemma _wyr8_in_bounds p off :
  0 ≤ off → off + 8 ≤ Z.of_nat (length p) → ∃ v, _wyr8 p off = Some v ∧ fits 64 v.
Proof. apply (load_le_in_bounds 8). Qed.

Lemma _wyr4_in_bounds p off :
  0 ≤ off → off + 4 ≤ Z.of_nat (length p) → ∃ v, _wyr4 p off = Some v ∧ fits 64 v.
Proof.
  intros H1 H2. destruct (load_le_in_bounds 4 p off H1 H2) as (v & Hv & Hf).
  exists v. split; [done|]. by apply (fits_weaken 32).
Qed.

(** [read8 off] and [read4 off] perform a read whose bounds [lia] can see. *)
Ltac read8 off v :=
  let Hv := fresh "H" v in let Hf := fresh "F" v in
  lazymatch goal with |- context [_wyr8 ?p off] =>
    destruct (_wyr8_in_bounds p off ltac:(lia) ltac:(lia)) as (v & Hv & Hf)
  end;
  rewrite Hv; cbn [mbind option_bind].
Ltac read4 off v :=
  let Hv := fresh "H" v in let Hf := fresh "F" v in
  lazymatch goal with |- context [_wyr4 ?p off] =>
    destruct (_wyr4_in_bounds p off ltac:(lia) ltac:(lia)) as (v & Hv & Hf)
  end;
  rewrite Hv; cbn [mbind option_bind].

Lemma _wyr3_in_bounds p k :
  0 < k ≤ Z.of_nat (length p) → ∃ v, _wyr3 p 0 k = Some v ∧ fits 64 v.
Proof.
  intros Hk. unfold _wyr3.
  assert (0 ≤ Z.shiftr k 1 < k) as Hk2.
  { rewrite Z.shiftr_div_pow2 by lia. split; [apply Z.div_pos; lia|].
    apply Z.div_lt_upper_bound; lia. }
  destruct (load_byte_in_bounds p 0) as (a & -> & Ha); [lia|].
  destruct (load_byte_in_bounds p (0 + Z.shiftr k 1)) as (b & -> & Hb); [lia|].
  destruct (load_byte_in_bounds p (0 + k - 1)) as (c & -> & Hc); [lia|].
  eexists. split; [done|]. apply fits_lor; [lia|solve_fits|by apply (fits_weaken 8)].
Qed.

Section wyhash_safety.
Context (key : bytes) (secret : secret_t) (Hsec : secret_wf secret).

(** What holds at the head of both loops: the pointer and the count stay inside
    the key, at least one byte is left, and the seeds are 64-bit words. *)
Definition wy_inv (s : wy_state) : Prop :=
  0 ≤ wy_p s ∧ wy_p s + wy_i s = Z.of_nat (length key) ∧ 0 < wy_i s ∧
  fits 64 (wy_seed s) ∧ fits 64 (wy_see1 s) ∧ fits 64 (wy_see2 s).

Lemma wyhash_body48_ok s :
  wy_inv s → 48 < wy_i s →
  ∃ s', wyhash_body48 key secret s = Some s' ∧ wy_inv s' ∧ wy_i s' = wy_i s - 48.
Proof using Hsec.
  intros (Hp & Hpi & Hi & H0 & H1 & H2) Hlt. destruct Hsec as (S0 & S1 & S2 & S3).
  unfold wyhash_body48.
  read8 (wy_p s) a0. read8 (wy_p s + 8) b0. read8 (wy_p s + 16) a1.
  read8 (wy_p s + 24) b1. read8 (wy_p s + 32) a2. read8 (wy_p s + 40) b2.
  eexists. split; [done|]. split; [|done]. unfold wy_inv. cbn [wy_p wy_i wy_seed wy_see1 wy_see2].
  split_and!; try lia; solve_wy.
Qed.

Lemma wyhash_body16_ok s :
  wy_inv s → 16 < wy_i s →
  ∃ s', wyhash_body16 key secret s = Some s' ∧ wy_inv s' ∧ wy_i s' = wy_i s - 16.
Proof using Hsec.
  intros (Hp & Hpi & Hi & H0 & H1 & H2) Hlt. destruct Hsec as (S0 & S1 & S2 & S3).
  unfold wyhash_body16. read8 (wy_p s) a. read8 (wy_p s + 8) b.
  eexists. split; [done|]. split; [|done]. unfold wy_inv. cbn [wy_p wy_i wy_seed wy_see1 wy_see2].
  split_and!; try lia; solve_wy.
Qed.

(** Either loop, started in the invariant, ends in it with its guard false. *)
Lemma wyhash_loop_ok body step :
  0 < step →
  (∀ s, wy_inv s → step < wy_i s → ∃ s', body s = Some s' ∧ wy_inv s' ∧ wy_i s' = wy_i s - step) →
  ∀ s, wy_inv s →
    ∃ s', while (length key) (λ s, step <? wy_i s) body s = Some s' ∧ wy_inv s' ∧ wy_i s' ≤ step.
Proof.
  intros Hstep Hbody s Hs.
  destruct (while_total wy_inv (λ s, Z.to_nat (wy_i s)) (λ s, step <? wy_i s) body)
    with (fuel := length key) (s := s) as (s' & H1 & H2 & H3%Z.ltb_ge); [|done| |eauto].
  - intros t Ht Hlt%Z.ltb_lt. destruct (Hbody t Ht Hlt) as (t' & Ht' & Hinv & Hdec).
    exists t'. split; [done|]. split; [done|]. lia.
  - destruct Hs as (? & ? & ? & _). lia.
Qed.

Lemma wyhash_long_ok seed :
  16 < Z.of_nat (length key) → fits 64 seed →
  ∃ a b sd, wyhash_long key (Z.of_nat (length key)) seed secret = Some (a, b, sd) ∧
    fits 64 a ∧ fits 64 b ∧ fits 64 sd.
Proof using Hsec.
  intros Hlen Hseed. unfold wyhash_long. rewrite Nat2Z.id.
  set (first := if 48 <? _ then _ else _).
  assert (∃ s, first = Some s ∧ wy_inv s) as (s & -> & Hs).
  { unfold first. assert (fits 64 0) by (split; lia). case_bool.
    - destruct (wyhash_body48_ok (WySt 0 (Z.of_nat (length key)) seed seed seed))
        as (s & -> & Hs & _); [unfold wy_inv; cbn; split_and!; done || lia|done|].
      cbn [mbind option_bind].
      destruct (wyhash_loop_ok _ 48 eq_refl wyhash_body48_ok s Hs)
        as (s' & -> & (? & ? & ? & ? & ? & ?) & _).
      eexists. split; [done|]. unfold wy_inv. cbn. split_and!; try done; solve_wy.
    - eexists. split; [done|]. unfold wy_inv. cbn. split_and!; try done; lia. }
  cbn [mbind option_bind].
  destruct (wyhash_loop_ok _ 16 eq_refl wyhash_body16_ok s Hs)
    as (s' & -> & (? & ? & ? & ? & ? & ?) & ?).
  cbn [mbind option_bind].
  read8 (wy_p s' + wy_i s' - 16) a. read8 (wy_p s' + wy_i s' - 8) b. eauto 10.
Qed.
End wyhash_safety.

(** [wyhash] returns for every key, seed and secret. *)
Theorem wyhash_total key seed secret :
  secret_wf secret → fits 64 seed → fits 64 (Z.of_nat (length key)) →
  ∃ h, wyhash key (Z.of_nat (length key)) seed secret = Some h ∧ fits 64 h.
Proof.
  intros Hsec Hseed Hlen. unfold wyhash.
  set (sd := Z.lxor seed (sec0 secret)).
  assert (Hsd : fits 64 sd) by (destruct Hsec; unfold sd; solve_fits).
  set (branch := if _ <=? 16 then _ else _).
  assert (∃ a b s, branch = Some (a, b, s) ∧ fits 64 a ∧ fits 64 b ∧ fits 64 s)
    as (a & b & s & -> & Ha & Hb & Hs).
  { unfold branch. assert (F0 : fits 64 0) by (split; lia). case_bool.
    - read4 0 a. read4 (Z.of_nat (length key) - 4) b. eauto 10.
    - destruct (_wyr3_in_bounds key (Z.of_nat (length key))) as (a & -> & Ha); [lia|].
      cbn [mbind option_bind]. eauto 10.
    - eauto 10.
    - read8 0 a. read8 (Z.of_nat (length key) - 8) b. eauto 10.
    - by apply wyhash_long_ok. }
  destruct Hsec as (S0 & S1 & S2 & S3). cbn [mbind option_bind].
  eexists. split; [done|]. solve_wy.
Qed.

Lemma _wymum_portable_correct_witness :
  _wymum_portable 0xFEDCBA9876543210 0xFFFFFFFFFFFFFFFF = _wymum 0xFEDCBA9876543210 0xFFFFFFFFFFFFFFFF.
Proof. apply _wymum_portable_correct; unfold fits; lia. Defined.

Lemma wy2u0k_range_witness : 0 ≤ wy2u0k 0xFEDCBA9876543210 1000 < 1000.
Proof. apply wy2u0k_range; unfold fits; lia. Defined.

(** ** Random numbers *)

(** Multiplying by a power of two below 1 only changes the exponent. *)
Lemma f64_scale m e k :
  Zpos (digits2_pos m) = 53 → -53 ≤ e ≤ 0 → -60 ≤ k ≤ 0 →
  f64_mul (S754_finite false m e) (S754_finite false 4503599627370496 (k - 52)) = S754_finite false m (k + e).
Proof.
  intros Hd He Hk. unfold f64_mul, SFmul, binary_round_aux. cbn [xorb].
  rewrite Pos.mul_comm. change (4503599627370496 * m)%positive with (Pos.iter xO m 52).
  unfold shr_fexp. cbn [shr_record_of_loc Zdigits2]. rewrite digits2_pos_iter, Pos2Z.inj_add, Hd.
  unfold fexp at 1, emin at 1. rewrite Z.max_l by lia.
  replace (53 + 52 + (e + (k - 52)) - 53 - (e + (k - 52))) with 52 by lia.
  cbn [shr Pos.iter iter_pos shr_1 shr_m shr_r shr_s loc_of_shr_record orb round_nearest_even Zdigits2]. rewrite Hd.
  unfold fexp, emin. rewrite Z.max_l by lia.
  replace (53 + (e + (k - 52) + 52) - 53 - (e + (k - 52) + 52)) with 0 by lia. cbn [shr shr_m].
  rewrite (proj2 (Z.leb_le _ _)) by lia. f_equal. lia.
Qed.

(** [wy2u01] is in [0, 1), and is the number of the upper 52 bits over 2^52, exactly. *)
Theorem wy2u01_range r :
  fits 64 r →
  (r < 2 ^ 12 → wy2u01 r = S754_zero false) ∧
  (2 ^ 12 ≤ r → ∃ m e, wy2u01 r = S754_finite false m e ∧ e < -52 ∧ Zpos m = Z.shiftr r 12 * 2 ^ (- (52 + e))) ∧
  SFltb (wy2u01 r) (f64_of_Z 1) = true ∧ SFleb (f64_of_Z 0) (wy2u01 r) = true.
Proof.
  intros [Hr0 Hr]. unfold wy2u01. rewrite Z.shiftr_div_pow2 by lia.
  change (f64_div (f64_of_Z 1) (f64_of_Z (Z.shiftl 1 52))) with (S754_finite false 4503599627370496 (-52 - 52)).
  set (n := r `div` 2 ^ 12). assert (0 ≤ n < 2 ^ 52) as Hn.
  { subst n. split; [apply Z.div_pos; lia|]. apply Z.div_lt_upper_bound; lia. }
  destruct (decide (n = 0)) as [Hz|].
  - rewrite Hz. split; [done|]. split; [|done]. intros Hle. subst n.
    assert (1 ≤ r `div` 2 ^ 12) by (apply Z.div_le_lower_bound; lia). lia.
  - destruct (f64_of_Z_exact n) as (m & e & -> & Hm & He & Hv); [lia|].
    rewrite f64_scale by (done || lia).
    assert (e < 0). { destruct (decide (e = 0)) as [->|]; [|lia]. pose proof (digits2_pos_range m) as Hd. rewrite Hm in Hd. lia. }
    split; [intros; subst n; assert (r `div` 2 ^ 12 = 0) by (apply Z.div_small; lia); lia|].
    split; [intros _; exists m, (-52 + e); split_and!; [done|lia|]; rewrite Hv; do 2 f_equal; lia|].
    split; [|done]. change (f64_of_Z 1) with (S754_finite false 4503599627370496 (-52)).
    unfold SFltb, SFcompare. by rewrite (proj2 (Z.compare_lt_iff _ _)) by lia.
Qed.

Lemma wy2u01_range_witness : SFltb (wy2u01 0xFEDCBA9876543210) (f64_of_Z 1) = true.
Proof. apply (wy2u01_range 0xFEDCBA9876543210). split; lia. Defined.

Example wy2gau_extremes :
  wy2gau 0 = f64_of_Z (-3) ∧ wy2gau (2 ^ 64 - 1) = f64_sub (f64_of_Z 3) (f64_div (f64_of_Z 3) (f64_of_Z (2 ^ 20))).
Proof. vm_compute. done. Qed.

(** ** Secrets *)

(** A word above another. *)
Lemma lor_above n w b : 0 ≤ n → 0 ≤ w < 2 ^ n → Z.lor w (Z.shiftl b n) = w + b * 2 ^ n.
Proof.
  intros Hn Hw. rewrite Z.shiftl_mul_pow2 by done. symmetry. apply Z.add_nocarry_lor, Z.bits_inj'. intros i Hi.
  rewrite Z.land_spec, Z.bits_0. destruct (Z.lt_ge_cases i n).
  - by rewrite Z.mul_pow2_bits_low, andb_false_r.
  - apply fits_testbit in Hw as [_ Hw]; [|done]. by rewrite (Hw i).
Qed.

Lemma secret_byte_ok i : 0 ≤ i < 70 → ∃ b, arr_get secret_bytes i = Some b ∧ b ∈ secret_bytes ∧ 15 ≤ b < 256.
Proof.
  intros Hi. destruct (arr_get_in_bounds secret_bytes i) as (b & Hb); [done|]. exists b. split; [done|].
  apply arr_get_Some in Hb as [_ Hb%list_elem_of_lookup_2]. split; [done|]. revert b Hb. apply Forall_forall.
  unfold secret_bytes. repeat constructor; lia.
Qed.

(** A candidate has eight bytes of the table. *)
Lemma draw_word_ok seed :
  ∃ seed' w, draw_word seed = Some (seed', w) ∧ 2 ^ 56 ≤ w < 2 ^ 64 ∧
    ∀ k, 0 ≤ k < 8 → (w `div` 2 ^ (8 * k)) `mod` 256 ∈ secret_bytes.
Proof.
  destruct (for_loop_total (λ k s, 0 ≤ s.2 < 2 ^ (8 * k) ∧ (0 < k → 2 ^ (8 * (k - 1)) ≤ s.2) ∧
      ∀ j, 0 ≤ j < k → (s.2 `div` 2 ^ (8 * j)) `mod` 256 ∈ secret_bytes)
    (λ k '(seed, w), let '(r, seed) := wyrand seed in
       b ← arr_get secret_bytes (r `mod` 70); Some (seed, Z.lor w (u64 (Z.shiftl b (8 * k))))) 8 0 (seed, 0))
    as ([seed' w] & Hrun & Hw & Hlow & Hbytes).
  - cbn. split_and!; [lia|lia|lia|intros j Hj; lia].
  - intros k [sd w] Hk (Hw & _ & Hbytes). cbn [snd] in *.
    destruct (wyrand sd) as [r sd']. destruct (secret_byte_ok (r `mod` 70)) as (b & -> & Hb & Hb256);
      [apply Z.mod_pos_bound; lia|]. cbn [mbind option_bind]. eexists. split; [done|]. cbn [snd].
    assert (Hp : 2 ^ (8 * (k + 1)) = 256 * 2 ^ (8 * k)).
    { replace (8 * (k + 1)) with (8 * k + 8) by lia. rewrite Z.pow_add_r by lia. lia. }
    assert (0 < 2 ^ (8 * k)) by (apply Z.pow_pos_nonneg; lia).
    assert (2 ^ (8 * (k + 1)) ≤ 2 ^ 64) by (apply Z.pow_le_mono_r; lia).
    rewrite wrap_small by (rewrite Z.shiftl_mul_pow2 by lia; split; nia).
    rewrite lor_above by lia. split; [nia|]. split; [replace (k + 1 - 1) with k by lia; nia|].
    intros j Hj. destruct (decide (j = k)) as [->|].
    + rewrite Z.div_add, (Z.div_small w), Z.mod_small by lia. done.
    + assert (b * 2 ^ (8 * k) = b * 2 ^ (8 * (k - j - 1)) * 256 * 2 ^ (8 * j)) as ->.
      { replace (8 * k) with (8 * (k - j - 1) + 8 + 8 * j) by lia. rewrite !Z.pow_add_r by lia. lia. }
      rewrite Z.div_add by (apply Z.pow_nonzero; lia). rewrite Z_mod_plus_full. apply Hbytes. lia.
  - exists seed', w. split; [exact Hrun|]. cbn in *. split; [|intros k Hk; apply Hbytes; lia].
    split; [apply Hlow; lia|apply Hw].
Qed.

(** Trial division by the odd numbers below 2^32 decides whether an odd word is prime. *)
Lemma no_divisor_ok tests w :
  2 ^ 31 ≤ Z.of_nat tests →
  ∃ ok, no_divisor tests w = Some ok ∧
    (ok = true ↔ ∀ j, 3 ≤ j < 2 ^ 32 → j `mod` 2 = 1 → w `mod` j ≠ 0).
Proof.
  intros Ht. unfold no_divisor.
  set (body := λ '(j, ok), Some (if w `mod` j =? 0 then (j, false) else (j + 2, ok))).
  pose (I := λ s : Z * bool, 3 ≤ s.1 ≤ 2 ^ 32 + 1 ∧ s.1 `mod` 2 = 1 ∧
    (if s.2 then ∀ j, 3 ≤ j < s.1 → j `mod` 2 = 1 → w `mod` j ≠ 0 else s.1 < 2 ^ 32 ∧ w `mod` s.1 = 0)).
  destruct (while_total I (λ s, if s.2 then Z.to_nat ((2 ^ 32 + 1 - s.1) `div` 2) else 0%nat)
    (λ '(j, ok), (j <? 0x100000000) && ok) body) with (fuel := tests) (s := (3, true))
    as ([j ok] & -> & (Hj & Hodd & HI) & Hend).
  - intros [j ok] (Hj & Hodd & HI) [Hlt%Z.ltb_lt ->]%andb_true_iff. cbn [fst snd] in *.
    subst body. cbv beta iota. eexists. split; [done|]. destruct (Z.eqb_spec (w `mod` j) 0) as [Hz|Hnz]; cbn [fst snd].
    + split; [done|]. div_lia.
    + split; [|div_lia]. split; [cbn [fst]; lia|]. split; [cbn [fst]; rewrite <-Zplus_mod_idemp_r, Z_mod_same_full, Z.add_0_r; done|].
      cbn [fst snd]. intros i Hi Hio. destruct (decide (i < j)); [apply HI; [lia|done]|].
      assert (i = j) as ->; [|done]. destruct (decide (i = j + 1)) as [->|]; [|lia].
      rewrite <-Zplus_mod_idemp_l, Hodd in Hio. done.
  - split_and!; [cbn; lia|cbn; lia|done|]. intros i Hi. cbn in Hi. lia.
  - cbn [snd fst]. change ((2 ^ 32 + 1 - 3) `div` 2) with (2 ^ 31 - 1). lia.
  - exists ok. split; [done|]. cbn [fst snd] in *. destruct ok.
    + rewrite andb_true_r in Hend. apply Z.ltb_ge in Hend. split; [|done]. intros _ i Hi. apply HI. lia.
    + split; [done|]. intros Hall. destruct HI as [Hlt Hz]. by destruct (Hall j ltac:(lia) Hodd).
Qed.

Lemma trial_division_prime w :
  2 ^ 32 < w < 2 ^ 64 → w `mod` 2 = 1 →
  (∀ j, 3 ≤ j < 2 ^ 32 → j `mod` 2 = 1 → w `mod` j ≠ 0) ↔ prime w.
Proof.
  intros Hw Hodd. split.
  - intros Hall. apply prime_alt. split; [lia|]. intros d Hd [q Hq].
    (* the smaller of the two divisors is one that was tried *)
    assert (Htry : ∀ a b, w = a * b → 1 < a → 1 < b → a ≤ b → False).
    { intros a b Hab Ha Hb Hle. apply (Hall a).
      - assert (a < 2 ^ 32) by nia. assert (a ≠ 2); [|lia]. intros ->.
        rewrite Hab, Z.mul_comm, Z_mod_mult in Hodd. done.
      - assert (a `mod` 2 = 0 ∨ a `mod` 2 = 1) as [Ha2|]; [|..|done].
        { pose proof (Z.mod_pos_bound a 2). lia. }
        rewrite Hab, <-Zmult_mod_idemp_l, Ha2 in Hodd. done.
      - rewrite Hab, Z.mul_comm. apply Z_mod_mult. }
    assert (1 < q) by nia. destruct (Z.le_gt_cases q d).
    + apply (Htry q d); lia.
    + apply (Htry d q); lia.
  - intros [_ Hprime]%prime_alt j Hj _ Hz. apply (Hprime j); [lia|]. apply Z.mod_divide; [lia|done].
Qed.

(** What [make_secret] demands of a word, given those before. *)
Definition secret_word (words : list Z) (w : Z) : Prop :=
  prime w ∧ fits 64 w ∧ (∀ k, 0 ≤ k < 8 → (w `div` 2 ^ (8 * k)) `mod` 256 ∈ secret_bytes) ∧
  Forall (λ x, popcountll (Z.lxor x w) = 32) words.

Section make_secret.
Context (turns tests : nat) (Htests : 2 ^ 31 ≤ Z.of_nat tests).

(** A turn always returns, and with [ok] the candidate is good. *)
Lemma secret_turn_ok words s :
  ∃ seed w ok, secret_turn tests words s = Some (seed, w, ok) ∧ (ok = true → secret_word words w).
Proof using Htests.
  unfold secret_turn. destruct (draw_word_ok s.1.1) as (seed & w & -> & Hw & Hbytes). cbn [mbind option_bind].
  destruct (Z.eqb_spec (w `mod` 2) 0) as [|Hodd]; [by exists seed, w, false|].
  assert (w `mod` 2 = 1) by (pose proof (Z.mod_pos_bound w 2); lia).
  destruct (forallb _ words) eqn:Hdist; cbn [negb]; [|by exists seed, w, false].
  destruct (no_divisor_ok tests w Htests) as (ok & -> & Hok). exists seed, w, ok. split; [done|].
  intros Htrue. split_and!; [|split; lia|done|].
  - apply trial_division_prime; [split; [|lia]|done|by apply Hok].
    assert (2 ^ 32 < 2 ^ 56) by (apply Z.pow_lt_mono_r; lia). lia.
  - apply Forall_forall. intros x Hx%list_elem_of_In.
    rewrite forallb_forall in Hdist. by apply Z.eqb_eq, Hdist.
Qed.

Lemma next_word_ok words seed seed' w :
  next_word turns tests words seed = Some (seed', w) → secret_word words w.
Proof using Htests.
  unfold next_word. intros (s & Hs & Hrun)%bind_Some.
  apply fmap_Some in Hrun as ([[sd x] ok] & Hrun & [= -> ->]).
  pose (I := λ s : Z * Z * bool, s.2 = true → secret_word words s.1.2).
  assert (Hturn : ∀ s t, secret_turn tests words s = Some t → I t).
  { intros s1 t Ht. destruct (secret_turn_ok words s1) as (sd' & x' & ok' & Ht' & Hok). rewrite Ht' in Ht.
    injection Ht as <-. exact Hok. }
  destruct (while_inv I _ _ (λ s s' _ _ Hb, Hturn s s' Hb) turns s _ (Hturn _ _ Hs) Hrun) as [HI Hend].
  apply HI. cbn in *. by destruct ok.
Qed.

(** The words of a secret are odd primes with balanced bytes, any two of them 32 bits apart;
    [tests] of at least 2^31 trial divisions are enough for each. *)
Theorem make_secret_words seed s :
  make_secret turns tests seed = Some s →
  secret_word [] (sec0 s) ∧ secret_word [sec0 s] (sec1 s) ∧ secret_word [sec0 s; sec1 s] (sec2 s) ∧
  secret_word [sec0 s; sec1 s; sec2 s] (sec3 s) ∧ secret_wf s.
Proof using Htests.
  unfold make_secret. intros ([sd l] & Hrun & Hs)%bind_Some. cbn [for_loop] in Hrun.
  repeat (let Hw := fresh "Hw" in apply bind_Some in Hrun as ([? ?] & Hw & Hrun);
          apply bind_Some in Hw as ([? ?] & Hw & [= <- <-]); apply next_word_ok in Hw).
  injection Hrun as <- <-. cbn in Hs. injection Hs as <-. cbn in *.
  split_and!; try done. split_and!; cbn; match goal with H : secret_word _ ?x |- fits 64 ?x => apply H end.
Qed.
End make_secret.
