(* ===== verification/Xxh3.v ===== *)
(** * XXH3, 64-bit variant (src/include/hash/orig_xhash.hh)

    [XXH3_64bits] with its three short-key ranges, the mid range and the long-key loop,
    plain, seeded and with a secret of the caller. The functions on the accumulators are
    those that the class [XXH_VECTOR] provides; its instance here is the scalar one
    (Xxh3Vector.v has the others). Every read of the key and of the secret is checked. *)
From S2P Require Import Prelude Words.

Definition XXH_PRIME32_1 : Z := 0x9E3779B1.
Definition XXH_PRIME32_2 : Z := 0x85EBCA77.
Definition XXH_PRIME32_3 : Z := 0xC2B2AE3D.
Definition XXH_PRIME64_1 : Z := 0x9E3779B185EBCA87.
Definition XXH_PRIME64_2 : Z := 0xC2B2AE3D27D4EB4F.
Definition XXH_PRIME64_3 : Z := 0x165667B19E3779F9.
Definition XXH_PRIME64_4 : Z := 0x85EBCA77C2B2AE63.
Definition XXH_PRIME64_5 : Z := 0x27D4EB2F165667C5.

Definition XXH3_kSecret : bytes :=
  [ xb8; xfe; x6c; x39; x23; xa4; x4b; xbe; x7c; x01; x81; x2c; xf7; x21; xad; x1c;
    xde; xd4; x6d; xe9; x83; x90; x97; xdb; x72; x40; xa4; xa4; xb7; xb3; x67; x1f;
    xcb; x79; xe6; x4e; xcc; xc0; xe5; x78; x82; x5a; xd0; x7d; xcc; xff; x72; x21;
    xb8; x08; x46; x74; xf7; x43; x24; x8e; xe0; x35; x90; xe6; x81; x3a; x26; x4c;
    x3c; x28; x52; xbb; x91; xc3; x00; xcb; x88; xd0; x65; x8b; x1b; x53; x2e; xa3;
    x71; x64; x48; x97; xa2; x0d; xf9; x4e; x38; x19; xef; x46; xa9; xde; xac; xd8;
    xa8; xfa; x76; x3f; xe3; x9c; x34; x3f; xf9; xdc; xbb; xc7; xc7; x0b; x4f; x1d;
    x8a; x51; xe0; x4b; xcd; xb4; x59; x31; xc8; x9f; x7e; xc9; xd9; x78; x73; x64;
    xea; xc5; xac; x83; x34; xd3; xeb; xc3; xc5; x81; xa0; xff; xfa; x13; x63; xeb;
    x17; x0d; xdd; x51; xb7; xf0; xda; x49; xd3; x16; x55; x26; x29; xd4; x68; x9e;
    x2b; x16; xbe; x58; x7d; x47; xa1; xfc; x8f; xf8; xb8; xd1; x7a; xd0; x31; xce;
    x45; xcb; x3a; x8f; x95; x16; x04; x28; xaf; xd7; xfb; xca; xbb; x4b; x40; x7e ].

(** ** Integer helpers *)

Definition XXH_rotl64 (x r : Z) : Z := Z.lor (u64 (Z.shiftl x r)) (Z.shiftr x (64 - r)).
Definition XXH_xorshift64 (v64 shift : Z) : Z := Z.lxor v64 (Z.shiftr v64 shift).
Definition XXH_mult32to64 (x y : Z) : Z := u64 (u32 x * u32 y).

Definition XXH_swap32 (x : Z) : Z :=
  Z.lor (Z.lor (Z.lor (Z.land (u32 (Z.shiftl x 24)) 0xff000000)
                      (Z.land (u32 (Z.shiftl x 8)) 0x00ff0000))
               (Z.land (Z.shiftr x 8) 0x0000ff00))
        (Z.land (Z.shiftr x 24) 0x000000ff).

Definition XXH_swap64 (x : Z) : Z :=
  Z.lor (Z.lor (Z.lor (Z.lor (Z.lor (Z.lor (Z.lor
    (Z.land (u64 (Z.shiftl x 56)) 0xff00000000000000)
    (Z.land (u64 (Z.shiftl x 40)) 0x00ff000000000000))
    (Z.land (u64 (Z.shiftl x 24)) 0x0000ff0000000000))
    (Z.land (u64 (Z.shiftl x 8)) 0x000000ff00000000))
    (Z.land (Z.shiftr x 8) 0x00000000ff000000))
    (Z.land (Z.shiftr x 24) 0x0000000000ff0000))
    (Z.land (Z.shiftr x 40) 0x000000000000ff00))
    (Z.land (Z.shiftr x 56) 0x00000000000000ff).

(** [XXH128_hash_t] of a product as (low64, high64): the 128-bit branch and the
    scalar branch. *)
Definition XXH_mult64to128 (lhs rhs : Z) : Z * Z :=
  let product := wrap 128 (lhs * rhs) in
  (u64 product, u64 (Z.shiftr product 64)).

Definition XXH_mult64to128_scalar (lhs rhs : Z) : Z * Z :=
  let lo_lo := XXH_mult32to64 (Z.land lhs 0xFFFFFFFF) (Z.land rhs 0xFFFFFFFF) in
  let hi_lo := XXH_mult32to64 (Z.shiftr lhs 32) (Z.land rhs 0xFFFFFFFF) in
  let lo_hi := XXH_mult32to64 (Z.land lhs 0xFFFFFFFF) (Z.shiftr rhs 32) in
  let hi_hi := XXH_mult32to64 (Z.shiftr lhs 32) (Z.shiftr rhs 32) in
  let cross := u64 (Z.shiftr lo_lo 32 + Z.land hi_lo 0xFFFFFFFF + lo_hi) in
  let upper := u64 (Z.shiftr hi_lo 32 + Z.shiftr cross 32 + hi_hi) in
  let lower := Z.lor (u64 (Z.shiftl cross 32)) (Z.land lo_lo 0xFFFFFFFF) in
  (lower, upper).

Definition XXH3_mul128_fold64 (lhs rhs : Z) : Z :=
  let '(low64, high64) := XXH_mult64to128 lhs rhs in Z.lxor low64 high64.

Definition XXH64_avalanche (h64 : Z) : Z :=
  let h64 := Z.lxor h64 (Z.shiftr h64 33) in
  let h64 := u64 (h64 * XXH_PRIME64_2) in
  let h64 := Z.lxor h64 (Z.shiftr h64 29) in
  let h64 := u64 (h64 * XXH_PRIME64_3) in
  Z.lxor h64 (Z.shiftr h64 32).

Definition XXH3_avalanche (h64 : Z) : Z :=
  let h64 := XXH_xorshift64 h64 37 in
  let h64 := u64 (h64 * 0x165667919E3779F9) in
  XXH_xorshift64 h64 32.

Definition XXH3_rrmxmx (h64 len : Z) : Z :=
  let h64 := Z.lxor h64 (Z.lxor (XXH_rotl64 h64 49) (XXH_rotl64 h64 24)) in
  let h64 := u64 (h64 * 0x9FB21C651E98DF25) in
  let h64 := Z.lxor h64 (u64 (Z.shiftr h64 35 + len)) in
  let h64 := u64 (h64 * 0x9FB21C651E98DF25) in
  XXH_xorshift64 h64 28.

(** ** Reads *)

Definition XXH_readLE32 (p : bytes) (off : Z) : option Z := load_le 4 p off.
Definition XXH_readLE64 (p : bytes) (off : Z) : option Z := load_le 8 p off.

(** ** Keys of at most 16 bytes *)

Definition XXH3_len_1to3_64b (input : bytes) (len : Z) (secret : bytes) (seed : Z) : option Z :=
  c1 ← load_byte input 0;
  c2 ← load_byte input (Z.shiftr len 1);
  c3 ← load_byte input (len - 1);
  let combined := Z.lor (Z.lor (Z.lor (u32 (Z.shiftl c1 16)) (u32 (Z.shiftl c2 24))) c3)
                        (u32 (Z.shiftl (u32 len) 8)) in
  s0 ← XXH_readLE32 secret 0; s4 ← XXH_readLE32 secret 4;
  let bitflip := u64 (Z.lxor s0 s4 + seed) in
  let keyed := Z.lxor combined bitflip in
  Some (XXH64_avalanche keyed).

Definition XXH3_len_4to8_64b (input : bytes) (len : Z) (secret : bytes) (seed : Z) : option Z :=
  let seed := Z.lxor seed (u64 (Z.shiftl (XXH_swap32 (u32 seed)) 32)) in
  input1 ← XXH_readLE32 input 0;
  input2 ← XXH_readLE32 input (len - 4);
  s8 ← XXH_readLE64 secret 8; s16 ← XXH_readLE64 secret 16;
  let bitflip := u64 (Z.lxor s8 s16 - seed) in
  let input64 := u64 (input2 + u64 (Z.shiftl input1 32)) in
  let keyed := Z.lxor input64 bitflip in
  Some (XXH3_rrmxmx keyed len).

Definition XXH3_len_9to16_64b (input : bytes) (len : Z) (secret : bytes) (seed : Z) : option Z :=
  s24 ← XXH_readLE64 secret 24; s32 ← XXH_readLE64 secret 32;
  s40 ← XXH_readLE64 secret 40; s48 ← XXH_readLE64 secret 48;
  let bitflip1 := u64 (Z.lxor s24 s32 + seed) in
  let bitflip2 := u64 (Z.lxor s40 s48 - seed) in
  lo ← XXH_readLE64 input 0; hi ← XXH_readLE64 input (len - 8);
  let input_lo := Z.lxor lo bitflip1 in
  let input_hi := Z.lxor hi bitflip2 in
  let acc := u64 (len + XXH_swap64 input_lo + input_hi + XXH3_mul128_fold64 input_lo input_hi) in
  Some (XXH3_avalanche acc).

Definition XXH3_len_0to16_64b (input : bytes) (len : Z) (secret : bytes) (seed : Z) : option Z :=
  if 8 <? len then XXH3_len_9to16_64b input len secret seed
  else if 4 <=? len then XXH3_len_4to8_64b input len secret seed
  else if negb (len =? 0) then XXH3_len_1to3_64b input len secret seed
  else s56 ← XXH_readLE64 secret 56; s64 ← XXH_readLE64 secret 64;
       Some (XXH64_avalanche (Z.lxor seed (Z.lxor s56 s64))).

(** ** Keys of 17 to 240 bytes *)

(** [XXH3_mix16B(input + i, secret + s, seed64)]. *)
Definition XXH3_mix16B (input : bytes) (i : Z) (secret : bytes) (s seed64 : Z) : option Z :=
  input_lo ← XXH_readLE64 input i;
  input_hi ← XXH_readLE64 input (i + 8);
  s0 ← XXH_readLE64 secret s;
  s8 ← XXH_readLE64 secret (s + 8);
  Some (XXH3_mul128_fold64 (Z.lxor input_lo (u64 (s0 + seed64)))
                           (Z.lxor input_hi (u64 (s8 - seed64)))).

(** [acc += XXH3_mix16B(input + i, secret + s, seed)]. *)
Definition XXH3_acc_mix (input : bytes) (i : Z) (secret : bytes) (s seed acc : Z) : option Z :=
  m ← XXH3_mix16B input i secret s seed; Some (u64 (acc + m)).

Definition XXH3_len_17to128_64b (input : bytes) (len : Z) (secret : bytes) (seed : Z) : option Z :=
  let mix i s acc := XXH3_acc_mix input i secret s seed acc in
  let acc := u64 (len * XXH_PRIME64_1) in
  acc ← (if 32 <? len then
           acc ← (if 64 <? len then
                    acc ← (if 96 <? len then acc ← mix 48 96 acc; mix (len - 64) 112 acc
                           else Some acc);
                    acc ← mix 32 64 acc; mix (len - 48) 80 acc
                  else Some acc);
           acc ← mix 16 32 acc; mix (len - 32) 48 acc
         else Some acc);
  acc ← mix 0 0 acc;
  acc ← mix (len - 16) 16 acc;
  Some (XXH3_avalanche acc).

Definition XXH3_MIDSIZE_MAX : Z := 240.
Definition XXH3_MIDSIZE_STARTOFFSET : Z := 3.
Definition XXH3_MIDSIZE_LASTOFFSET : Z := 17.
Definition XXH3_SECRET_SIZE_MIN : Z := 136.

Definition XXH3_len_129to240_64b (input : bytes) (len : Z) (secret : bytes) (seed : Z) : option Z :=
  let acc := u64 (len * XXH_PRIME64_1) in
  let nbRounds := len `div` 16 in
  acc ← for_loop 8 0 (λ i acc, XXH3_acc_mix input (16 * i) secret (16 * i) seed acc) acc;
  let acc := XXH3_avalanche acc in
  acc ← for_loop (Z.to_nat (nbRounds - 8)) 8
          (λ i acc, XXH3_acc_mix input (16 * i) secret
                      (16 * (i - 8) + XXH3_MIDSIZE_STARTOFFSET) seed acc) acc;
  acc ← XXH3_acc_mix input (len - 16) secret
          (XXH3_SECRET_SIZE_MIN - XXH3_MIDSIZE_LASTOFFSET) seed acc;
  Some (XXH3_avalanche acc).

(** ** Long keys: eight accumulator lanes *)

Definition XXH_STRIPE_LEN : Z := 64.
Definition XXH_SECRET_CONSUME_RATE : Z := 8.
Definition XXH_ACC_NB : nat := 8.
Definition XXH_SECRET_LASTACC_START : Z := 7.
Definition XXH_SECRET_MERGEACCS_START : Z := 11.

(** [xacc[i] += v]. *)
Definition lane_add (i v : Z) (acc : list Z) : list Z :=
  alter (λ a, u64 (a + v)) (Z.to_nat i) acc.

Definition XXH3_accumulate_512_scalar (acc : list Z) (input : bytes) (p : Z) (secret : bytes) (s : Z)
    : option (list Z) :=
  for_loop XXH_ACC_NB 0
    (λ i acc,
       data_val ← XXH_readLE64 input (p + 8 * i);
       sk ← XXH_readLE64 secret (s + i * 8);
       let data_key := Z.lxor data_val sk in
       let acc := lane_add (Z.lxor i 1) data_val acc in
       Some (lane_add i (XXH_mult32to64 (Z.land data_key 0xFFFFFFFF) (Z.shiftr data_key 32)) acc))
    acc.

Definition XXH3_scrambleAcc_scalar (acc : list Z) (secret : bytes) (s : Z) : option (list Z) :=
  for_loop XXH_ACC_NB 0
    (λ i acc,
       key64 ← XXH_readLE64 secret (s + 8 * i);
       acc64 ← arr_get acc i;
       let acc64 := XXH_xorshift64 acc64 47 in
       let acc64 := Z.lxor acc64 key64 in
       let acc64 := u64 (acc64 * XXH_PRIME32_1) in
       Some (<[Z.to_nat i := acc64]> acc))
    acc.

Definition XXH_SECRET_DEFAULT_SIZE : Z := 192.
Definition XXH_writeLE64 (dst : bytes) (off v64 : Z) : option bytes := write_at dst off (le_split 8 v64).

Definition XXH3_initCustomSecret_scalar (customSecret : bytes) (seed64 : Z) : option bytes :=
  let nbRounds := XXH_SECRET_DEFAULT_SIZE `div` 16 in
  for_loop (Z.to_nat nbRounds) 0
    (λ i customSecret,
       k ← XXH_readLE64 XXH3_kSecret (16 * i); let lo := u64 (k + seed64) in
       k ← XXH_readLE64 XXH3_kSecret (16 * i + 8); let hi := u64 (k - seed64) in
       customSecret ← XXH_writeLE64 customSecret (16 * i) lo;
       XXH_writeLE64 customSecret (16 * i + 8) hi)
    customSecret.

(** The types of the function pointers. *)
Definition XXH3_f_accumulate_512 : Type := list Z → bytes → Z → bytes → Z → option (list Z).
Definition XXH3_f_scrambleAcc : Type := list Z → bytes → Z → option (list Z).
Definition XXH3_f_initCustomSecret : Type := bytes → Z → option bytes.

(** What the macro [XXH_VECTOR] selects. *)
Class XXH_VECTOR := {
  XXH3_accumulate_512 : XXH3_f_accumulate_512;
  XXH3_scrambleAcc : XXH3_f_scrambleAcc;
  XXH3_initCustomSecret : XXH3_f_initCustomSecret;
}.

Definition XXH_SCALAR : XXH_VECTOR := {|
  XXH3_accumulate_512 := XXH3_accumulate_512_scalar;
  XXH3_scrambleAcc := XXH3_scrambleAcc_scalar;
  XXH3_initCustomSecret := XXH3_initCustomSecret_scalar;
|}.
#[export] Existing Instance XXH_SCALAR.

(** [XXH3_accumulate(acc, input + p, secret + s, nbStripes, f_acc512)]. *)
Definition XXH3_accumulate (acc : list Z) (input : bytes) (p : Z) (secret : bytes) (s nbStripes : Z)
    (f_acc512 : XXH3_f_accumulate_512) : option (list Z) :=
  for_loop (Z.to_nat nbStripes) 0
    (λ n acc, f_acc512 acc input (p + n * XXH_STRIPE_LEN) secret (s + n * XXH_SECRET_CONSUME_RATE))
    acc.

Definition XXH3_hashLong_internal_loop (acc : list Z) (input : bytes) (len : Z) (secret : bytes)
    (f_acc512 : XXH3_f_accumulate_512) (f_scramble : XXH3_f_scrambleAcc) : option (list Z) :=
  let secretSize := Z.of_nat (length secret) in
  let nbStripesPerBlock := (secretSize - XXH_STRIPE_LEN) `div` XXH_SECRET_CONSUME_RATE in
  let block_len := XXH_STRIPE_LEN * nbStripesPerBlock in
  let nb_blocks := (len - 1) `div` block_len in
  acc ← for_loop (Z.to_nat nb_blocks) 0
          (λ n acc,
             acc ← XXH3_accumulate acc input (n * block_len) secret 0 nbStripesPerBlock f_acc512;
             f_scramble acc secret (secretSize - XXH_STRIPE_LEN))
          acc;
  let nbStripes := ((len - 1) - (block_len * nb_blocks)) `div` XXH_STRIPE_LEN in
  acc ← XXH3_accumulate acc input (nb_blocks * block_len) secret 0 nbStripes f_acc512;
  f_acc512 acc input (len - XXH_STRIPE_LEN)
    secret (secretSize - XXH_STRIPE_LEN - XXH_SECRET_LASTACC_START).

Definition XXH3_mix2Accs (acc : list Z) (i : Z) (secret : bytes) (s : Z) : option Z :=
  a0 ← arr_get acc i; a1 ← arr_get acc (i + 1);
  s0 ← XXH_readLE64 secret s; s8 ← XXH_readLE64 secret (s + 8);
  Some (XXH3_mul128_fold64 (Z.lxor a0 s0) (Z.lxor a1 s8)).

Definition XXH3_mergeAccs (acc : list Z) (secret : bytes) (s start : Z) : option Z :=
  result64 ← for_loop 4 0
    (λ i result64, m ← XXH3_mix2Accs acc (2 * i) secret (s + 16 * i); Some (u64 (result64 + m)))
    start;
  Some (XXH3_avalanche result64).

Definition XXH3_INIT_ACC : list Z :=
  [ XXH_PRIME32_3; XXH_PRIME64_1; XXH_PRIME64_2; XXH_PRIME64_3;
    XXH_PRIME64_4; XXH_PRIME32_2; XXH_PRIME64_5; XXH_PRIME32_1 ].

Definition XXH3_hashLong_64b_internal (input : bytes) (len : Z) (secret : bytes)
    (f_acc512 : XXH3_f_accumulate_512) (f_scramble : XXH3_f_scrambleAcc) : option Z :=
  acc ← XXH3_hashLong_internal_loop XXH3_INIT_ACC input len secret f_acc512 f_scramble;
  XXH3_mergeAccs acc secret XXH_SECRET_MERGEACCS_START (u64 (len * XXH_PRIME64_1)).

Definition XXH3_hashLong_64b_withSeed_internal (input : bytes) (len seed : Z)
    (f_acc512 : XXH3_f_accumulate_512) (f_scramble : XXH3_f_scrambleAcc)
    (f_initSec : XXH3_f_initCustomSecret) : option Z :=
  if seed =? 0 then XXH3_hashLong_64b_internal input len XXH3_kSecret f_acc512 f_scramble
  else secret ← f_initSec (replicate (Z.to_nat XXH_SECRET_DEFAULT_SIZE) x00) seed;
       XXH3_hashLong_64b_internal input len secret f_acc512 f_scramble.

Section entry_points.
Context `{V : XXH_VECTOR}.

Definition XXH3_hashLong_64b_withSecret (input : bytes) (len seed64 : Z) (secret : bytes) : option Z :=
  XXH3_hashLong_64b_internal input len secret XXH3_accumulate_512 XXH3_scrambleAcc.

Definition XXH3_hashLong_64b_default (input : bytes) (len seed64 : Z) (secret : bytes) : option Z :=
  XXH3_hashLong_64b_internal input len XXH3_kSecret XXH3_accumulate_512 XXH3_scrambleAcc.

Definition XXH3_hashLong_64b_withSeed (input : bytes) (len seed : Z) (secret : bytes) : option Z :=
  XXH3_hashLong_64b_withSeed_internal input len seed
    XXH3_accumulate_512 XXH3_scrambleAcc XXH3_initCustomSecret.

Definition XXH3_64bits_internal (input : bytes) (len seed64 : Z) (secret : bytes)
    (f_hashLong : bytes → Z → Z → bytes → option Z) : option Z :=
  if len <=? 16 then XXH3_len_0to16_64b input len secret seed64
  else if len <=? 128 then XXH3_len_17to128_64b input len secret seed64
  else if len <=? XXH3_MIDSIZE_MAX then XXH3_len_129to240_64b input len secret seed64
  else f_hashLong input len seed64 secret.

Definition XXH3_64bits (input : bytes) (len : Z) : option Z :=
  XXH3_64bits_internal input len 0 XXH3_kSecret XXH3_hashLong_64b_default.

Definition XXH3_64bits_withSecret (input : bytes) (len : Z) (secret : bytes) : option Z :=
  XXH3_64bits_internal input len 0 secret XXH3_hashLong_64b_withSecret.

Definition XXH3_64bits_withSeed (input : bytes) (len seed : Z) : option Z :=
  XXH3_64bits_internal input len seed XXH3_kSecret XXH3_hashLong_64b_withSeed.
End entry_points.

(** ** Widths *)

Lemma XXH_mult64to128_spec lhs rhs :
  fits 64 lhs → fits 64 rhs →
  fits 64 (XXH_mult64to128 lhs rhs).1 ∧ fits 64 (XXH_mult64to128 lhs rhs).2.
Proof. intros. split; apply fits_wrap; lia. Qed.

Lemma XXH3_mul128_fold64_fits lhs rhs : fits 64 (XXH3_mul128_fold64 lhs rhs).
Proof. apply fits_lxor; [lia|apply fits_wrap; lia|apply fits_wrap; lia]. Qed.

Lemma XXH_xorshift64_fits v n : 0 ≤ n → fits 64 v → fits 64 (XXH_xorshift64 v n).
Proof. intros. unfold XXH_xorshift64. solve_fits. Qed.

Lemma XXH3_avalanche_fits h : fits 64 (XXH3_avalanche h).
Proof. apply XXH_xorshift64_fits; [lia|apply fits_wrap; lia]. Qed.

Lemma XXH3_rrmxmx_fits h len : fits 64 (XXH3_rrmxmx h len).
Proof. apply XXH_xorshift64_fits; [lia|apply fits_wrap; lia]. Qed.

Lemma XXH64_avalanche_fits h : fits 64 (XXH64_avalanche h).
Proof.
  unfold XXH64_avalanche. cbv zeta. apply fits_lxor; [lia| |apply fits_shiftr; [lia|]];
    apply fits_wrap; lia.
Qed.

#[export] Hint Resolve XXH3_mul128_fold64_fits XXH3_avalanche_fits XXH3_rrmxmx_fits
  XXH64_avalanche_fits : elh.

(** ** In-bounds reads *)

Lemma XXH_readLE64_in_bounds p off :
  0 ≤ off → off + 8 ≤ Z.of_nat (length p) → ∃ v, XXH_readLE64 p off = Some v ∧ fits 64 v.
Proof. apply (load_le_in_bounds 8). Qed.

Lemma XXH_readLE32_in_bounds p off :
  0 ≤ off → off + 4 ≤ Z.of_nat (length p) → ∃ v, XXH_readLE32 p off = Some v ∧ fits 32 v.
Proof. apply (load_le_in_bounds 4). Qed.

(** Performs every read at the head of the goal whose bounds [lia] can see. *)
Ltac xxh_reads :=
  cbn [mbind option_bind];
  repeat (lazymatch goal with
  | |- context [XXH_readLE64 ?p ?off ≫= _] =>
      let v := fresh "v" in let Hv := fresh "Hv" in
      destruct (XXH_readLE64_in_bounds p off ltac:(lia) ltac:(lia)) as (v & Hv & ?);
      rewrite Hv; clear Hv
  | |- context [XXH_readLE32 ?p ?off ≫= _] =>
      let v := fresh "v" in let Hv := fresh "Hv" in
      destruct (XXH_readLE32_in_bounds p off ltac:(lia) ltac:(lia)) as (v & Hv & ?);
      rewrite Hv; clear Hv
  | |- context [load_byte ?p ?off ≫= _] =>
      let v := fresh "v" in let Hv := fresh "Hv" in
      destruct (load_byte_in_bounds p off ltac:(lia)) as (v & Hv & ?);
      rewrite Hv; clear Hv
  end; cbn [mbind option_bind]).

Lemma XXH3_acc_mix_in_bounds input i secret s seed acc :
  0 ≤ i → i + 16 ≤ Z.of_nat (length input) → 0 ≤ s → s + 16 ≤ Z.of_nat (length secret) →
  ∃ v, XXH3_acc_mix input i secret s seed acc = Some v.
Proof. intros. unfold XXH3_acc_mix, XXH3_mix16B. xxh_reads. eauto. Qed.

Ltac xxh_mixes :=
  cbn [mbind option_bind];
  repeat (lazymatch goal with
  | |- context [XXH3_acc_mix ?p ?i ?q ?s ?seed ?acc] =>
      let v := fresh "acc" in let Hv := fresh "Hv" in
      destruct (XXH3_acc_mix_in_bounds p i q s seed acc
                  ltac:(lia) ltac:(lia) ltac:(lia) ltac:(lia)) as (v & Hv);
      rewrite Hv; clear Hv
  end; cbn [mbind option_bind]).

Section short_keys.
Context (input secret : bytes) (seed : Z).
Context (Hsecret : XXH3_SECRET_SIZE_MIN ≤ Z.of_nat (length secret)).
Let len := Z.of_nat (length input).

Lemma XXH3_len_0to16_ok :
  len ≤ 16 → fits 64 seed → ∃ h, XXH3_len_0to16_64b input len secret seed = Some h ∧ fits 64 h.
Proof using Hsecret.
  intros Hlen Hseed. unfold XXH3_SECRET_SIZE_MIN in Hsecret. unfold XXH3_len_0to16_64b.
  case_bool.
  - unfold XXH3_len_9to16_64b. xxh_reads. eauto with elh.
  - unfold XXH3_len_4to8_64b. xxh_reads. eauto with elh.
  - assert (0 ≤ Z.shiftr len 1 < len).
    { rewrite Z.shiftr_div_pow2 by lia. split; [apply Z.div_pos; lia|].
      apply Z.div_lt_upper_bound; lia. }
    unfold XXH3_len_1to3_64b. xxh_reads. eauto with elh.
  - xxh_reads. eauto with elh.
Qed.

Lemma XXH3_len_17to128_ok :
  16 < len ≤ 128 → ∃ h, XXH3_len_17to128_64b input len secret seed = Some h ∧ fits 64 h.
Proof using Hsecret.
  intros Hlen. unfold XXH3_SECRET_SIZE_MIN in Hsecret. unfold XXH3_len_17to128_64b. cbv zeta.
  case_bool; xxh_mixes; eauto with elh.
Qed.

Lemma XXH3_len_129to240_ok :
  128 < len ≤ 240 → ∃ h, XXH3_len_129to240_64b input len secret seed = Some h ∧ fits 64 h.
Proof using Hsecret.
  intros Hlen. unfold XXH3_SECRET_SIZE_MIN in Hsecret. unfold XXH3_len_129to240_64b. cbv zeta.
  set (nb := len `div` 16).
  assert (8 ≤ nb ∧ 16 * nb ≤ len ∧ nb ≤ 15) as (Hnb & Hnb' & Hnb15).
  { unfold nb. pose proof (Z.div_mod len 16). pose proof (Z.mod_pos_bound len 16). lia. }
  destruct (for_loop_total (λ _ _, True)
    (λ i acc, XXH3_acc_mix input (16 * i) secret (16 * i) seed acc) 8 0
    (u64 (len * XXH_PRIME64_1))) as (acc & -> & _); [done| |].
  { intros i acc Hi _. xxh_mixes. eauto. }
  cbn [mbind option_bind]. set (fuel := Z.to_nat (nb - 8)).
  destruct (for_loop_total (λ _ _, True)
    (λ i acc, XXH3_acc_mix input (16 * i) secret
       (16 * (i - 8) + XXH3_MIDSIZE_STARTOFFSET) seed acc) fuel 8
    (XXH3_avalanche acc)) as (acc' & -> & _); [done| |].
  { intros i t Hi _. unfold XXH3_MIDSIZE_STARTOFFSET, fuel in *. xxh_mixes. eauto. }
  cbn [mbind option_bind]. unfold XXH3_SECRET_SIZE_MIN, XXH3_MIDSIZE_LASTOFFSET.
  xxh_mixes. eauto with elh.
Qed.
End short_keys.

(** ** The long-key loop stays inside the key, the secret and the lanes *)

Definition lanes_wf (acc : list Z) : Prop := length acc = XXH_ACC_NB ∧ Forall (fits 64) acc.

Lemma lane_add_wf i v acc : lanes_wf acc → lanes_wf (lane_add i v acc).
Proof.
  intros [Hlen Hf]. unfold lane_add. split; [by rewrite length_alter|].
  apply Forall_alter; [done|]. intros x _ _. apply fits_wrap. lia.
Qed.

Lemma XXH3_INIT_ACC_wf : lanes_wf XXH3_INIT_ACC.
Proof. split; [done|]. repeat constructor; vm_compute; congruence. Qed.

Lemma accumulate_scalar_ok acc input p secret s :
  lanes_wf acc → 0 ≤ p → p + 64 ≤ Z.of_nat (length input) →
  0 ≤ s → s + 64 ≤ Z.of_nat (length secret) →
  ∃ acc', XXH3_accumulate_512_scalar acc input p secret s = Some acc' ∧ lanes_wf acc'.
Proof.
  intros Hacc Hp Hpi Hs Hss. unfold XXH3_accumulate_512_scalar.
  apply (for_loop_total (λ _, lanes_wf)); [done|].
  intros i a Hi Ha. unfold XXH_ACC_NB in Hi. xxh_reads. eexists. split; [done|].
  by apply lane_add_wf, lane_add_wf.
Qed.

Lemma scramble_scalar_ok acc secret s :
  lanes_wf acc → 0 ≤ s → s + 64 ≤ Z.of_nat (length secret) →
  ∃ acc', XXH3_scrambleAcc_scalar acc secret s = Some acc' ∧ lanes_wf acc'.
Proof.
  intros Hacc Hs Hss. unfold XXH3_scrambleAcc_scalar.
  apply (for_loop_total (λ _, lanes_wf)); [done|].
  intros i a Hi [Hlen Ha]. unfold XXH_ACC_NB in *. xxh_reads.
  destruct (arr_get_in_bounds a i) as (w & ->); [lia|]. cbn [mbind option_bind].
  eexists. split; [done|]. split; [by rewrite length_insert|].
  apply Forall_insert; [done|]. apply fits_wrap. lia.
Qed.

(** ** What a vector target owes: it agrees with the scalar one inside the arrays *)
Class XXH_VectorLaws (V : XXH_VECTOR) := {
  vec_accumulate acc input p secret s :
    lanes_wf acc → 0 ≤ p → p + 64 ≤ Z.of_nat (length input) →
    0 ≤ s → s + 64 ≤ Z.of_nat (length secret) →
    XXH3_accumulate_512 acc input p secret s = XXH3_accumulate_512_scalar acc input p secret s;
  vec_scramble acc secret s :
    lanes_wf acc → 0 ≤ s → s + 64 ≤ Z.of_nat (length secret) →
    XXH3_scrambleAcc acc secret s = XXH3_scrambleAcc_scalar acc secret s;
  vec_initSecret customSecret seed :
    Z.of_nat (length customSecret) = XXH_SECRET_DEFAULT_SIZE → fits 64 seed → seed ≠ 2 ^ 63 →
    XXH3_initCustomSecret customSecret seed = XXH3_initCustomSecret_scalar customSecret seed;
}.

#[export] Instance XXH_SCALAR_laws : XXH_VectorLaws XXH_SCALAR.
Proof. split; done. Qed.

(** The blocks and stripes of a key of [len] bytes under a secret of [size] bytes. *)
Lemma block_counts len size :
  XXH3_SECRET_SIZE_MIN ≤ size → 64 < len →
  let nb := (size - XXH_STRIPE_LEN) `div` XXH_SECRET_CONSUME_RATE in
  let blocks := (len - 1) `div` (XXH_STRIPE_LEN * nb) in
  let stripes := (len - 1 - XXH_STRIPE_LEN * nb * blocks) `div` XXH_STRIPE_LEN in
  9 ≤ nb ∧ 8 * nb + 64 ≤ size ∧ 0 ≤ blocks ∧ 64 * nb * blocks ≤ len - 1 ∧
  0 ≤ stripes < nb ∧ 64 * (nb * blocks + stripes) ≤ len - 1 < 64 * (nb * blocks + stripes) + 64.
Proof.
  intros Hsize Hlen nb blocks stripes.
  unfold XXH3_SECRET_SIZE_MIN, XXH_STRIPE_LEN, XXH_SECRET_CONSUME_RATE in *.
  assert (9 ≤ nb ∧ 8 * nb + 64 ≤ size) as [? ?] by (unfold nb; div_lia).
  pose proof (Z.div_mod (len - 1) (64 * nb)) as Hdm.
  pose proof (Z.mod_pos_bound (len - 1) (64 * nb)) as Hm.
  assert (0 ≤ blocks) by (apply Z.div_pos; lia). fold blocks in Hdm.
  assert (len - 1 - 64 * nb * blocks = (len - 1) `mod` (64 * nb)) as Hr by lia.
  assert (0 ≤ stripes < nb ∧ 64 * stripes ≤ len - 1 - 64 * nb * blocks < 64 * stripes + 64) as [? ?].
  { unfold stripes. rewrite Hr. revert Hm. generalize ((len - 1) `mod` (64 * nb)). intros r Hm.
    specialize (Hm ltac:(lia)). split; [split; [apply Z.div_pos; lia|apply Z.div_lt_upper_bound; lia]|div_lia]. }
  repeat (split; [lia|]). lia.
Qed.

Section lawful.
Context {V : XXH_VECTOR} {VL : XXH_VectorLaws V}.

(** A run of the target and of the scalar code that return the same lanes. *)
Lemma vec_accumulate_ok acc input p secret s n :
  lanes_wf acc → 0 ≤ n → 0 ≤ p → p + 64 * n ≤ Z.of_nat (length input) →
  0 ≤ s → s + 8 * n + 56 ≤ Z.of_nat (length secret) →
  ∃ acc', XXH3_accumulate acc input p secret s n XXH3_accumulate_512 = Some acc' ∧
          XXH3_accumulate acc input p secret s n XXH3_accumulate_512_scalar = Some acc' ∧ lanes_wf acc'.
Proof using VL.
  intros Hacc Hn Hp Hpi Hs Hss. unfold XXH3_accumulate, XXH_STRIPE_LEN, XXH_SECRET_CONSUME_RATE.
  apply (for_loop_same (λ _, lanes_wf)); [done|]. intros i a Hi Ha.
  rewrite vec_accumulate by (done || lia).
  destruct (accumulate_scalar_ok a input (p + i * 64) secret (s + i * 8)) as (a' & -> & Ha'); [done|lia..|].
  eauto.
Qed.

Lemma hashLong_internal_loop_ok acc input secret :
  let len := Z.of_nat (length input) in
  XXH3_SECRET_SIZE_MIN ≤ Z.of_nat (length secret) → lanes_wf acc → 64 < len →
  ∃ acc', XXH3_hashLong_internal_loop acc input len secret XXH3_accumulate_512 XXH3_scrambleAcc = Some acc' ∧
          XXH3_hashLong_internal_loop acc input len secret XXH3_accumulate_512_scalar XXH3_scrambleAcc_scalar
            = Some acc' ∧ lanes_wf acc'.
Proof using VL.
  intros len Hsec Hacc Hlen. unfold XXH3_hashLong_internal_loop. cbv zeta.
  set (size := Z.of_nat (length secret)) in *.
  pose proof (block_counts len size Hsec Hlen) as (Hnb & Hnbs & Hb & Hbl & Hst & Hstl).
  set (nb := (size - XXH_STRIPE_LEN) `div` XXH_SECRET_CONSUME_RATE) in *.
  set (blocks := (len - 1) `div` (XXH_STRIPE_LEN * nb)) in *.
  set (stripes := (len - 1 - XXH_STRIPE_LEN * nb * blocks) `div` XXH_STRIPE_LEN) in *.
  unfold XXH_STRIPE_LEN, XXH_SECRET_LASTACC_START. clearbody nb blocks stripes.
  match goal with |- context [for_loop ?n ?i ?body acc] =>
    match goal with |- context [for_loop n i ?body' acc] =>
      assert_fails (constr_eq body body');
      destruct (for_loop_same (λ _, lanes_wf) body body' n i acc Hacc) as (a & -> & -> & Ha) end end.
  { intros i t Hi Ht.
    destruct (vec_accumulate_ok t input (i * (64 * nb)) secret 0 nb) as (t' & -> & -> & Ht');
      [done|fold len size; nia..|]. cbn [mbind option_bind].
    rewrite vec_scramble by (done || fold size; lia).
    destruct (scramble_scalar_ok t' secret (size - 64)) as (t'' & -> & ?); [done|lia..|]. eauto. }
  cbn [mbind option_bind].
  destruct (vec_accumulate_ok a input (blocks * (64 * nb)) secret 0 stripes) as (a' & -> & -> & Ha');
    [done|fold len size; lia..|]. cbn [mbind option_bind].
  rewrite vec_accumulate by (done || fold len size; lia).
  destruct (accumulate_scalar_ok a' input (len - 64) secret (size - 64 - 7)) as (a'' & -> & ?);
    [done|fold len size; lia..|]. eauto.
Qed.
End lawful.

Lemma XXH3_mergeAccs_ok acc secret start :
  lanes_wf acc → 75 ≤ Z.of_nat (length secret) →
  ∃ h, XXH3_mergeAccs acc secret XXH_SECRET_MERGEACCS_START start = Some h ∧ fits 64 h.
Proof.
  intros [Hlen _] Hs. unfold XXH3_mergeAccs, XXH_ACC_NB in *.
  destruct (for_loop_total (λ _ _, True)
    (λ i r, m ← XXH3_mix2Accs acc (2 * i) secret (XXH_SECRET_MERGEACCS_START + 16 * i);
            Some (u64 (r + m))) 4 0 start) as (r & -> & _); [done| |].
  { intros i r Hi _. unfold XXH3_mix2Accs, XXH_SECRET_MERGEACCS_START.
    destruct (arr_get_in_bounds acc (2 * i)) as (a0 & ->); [lia|].
    destruct (arr_get_in_bounds acc (2 * i + 1)) as (a1 & ->); [lia|].
    xxh_reads. eauto. }
  cbn [mbind option_bind]. eauto with elh.
Qed.

(** Every entry point returns a word, for every key and secret, and it does not depend on
    the target. *)
Section entry_points_ok.
Context {V : XXH_VECTOR} {VL : XXH_VectorLaws V}.

Lemma hashLong_64b_internal_ok input secret :
  let len := Z.of_nat (length input) in
  XXH3_SECRET_SIZE_MIN ≤ Z.of_nat (length secret) → 64 < len →
  ∃ h, XXH3_hashLong_64b_internal input len secret XXH3_accumulate_512 XXH3_scrambleAcc = Some h ∧
       XXH3_hashLong_64b_internal input len secret XXH3_accumulate_512_scalar XXH3_scrambleAcc_scalar = Some h ∧
       fits 64 h.
Proof using VL.
  intros len Hsec Hlen. unfold XXH3_hashLong_64b_internal.
  destruct (hashLong_internal_loop_ok XXH3_INIT_ACC input secret) as (acc & Hl & Hl' & Hacc);
    [done|apply XXH3_INIT_ACC_wf|done|]. fold len in Hl, Hl'. rewrite Hl, Hl'. cbn [mbind option_bind].
  destruct (XXH3_mergeAccs_ok acc secret (u64 (len * XXH_PRIME64_1))) as (h & -> & ?);
    [done|unfold XXH3_SECRET_SIZE_MIN in *; lia|]. eauto.
Qed.

Lemma XXH3_64bits_internal_ok input secret seed f f' :
  let len := Z.of_nat (length input) in
  XXH3_SECRET_SIZE_MIN ≤ Z.of_nat (length secret) → fits 64 seed →
  (240 < len → ∃ h, f input len seed secret = Some h ∧ f' input len seed secret = Some h ∧ fits 64 h) →
  ∃ h, XXH3_64bits_internal input len seed secret f = Some h ∧
       XXH3_64bits_internal input len seed secret f' = Some h ∧ fits 64 h.
Proof.
  intros len Hsec Hseed Hf. unfold XXH3_64bits_internal, XXH3_MIDSIZE_MAX.
  case_bool; [..|by apply Hf].
  - destruct (XXH3_len_0to16_ok input secret seed) as (h & Hh & ?); [done..|]. fold len in Hh. eauto.
  - destruct (XXH3_len_17to128_ok input secret seed) as (h & Hh & ?); [done|fold len; lia|]. fold len in Hh. eauto.
  - destruct (XXH3_len_129to240_ok input secret seed) as (h & Hh & ?); [done|fold len; lia|]. fold len in Hh. eauto.
Qed.
End entry_points_ok.

(** XXH3_64bits total. *)
Theorem XXH3_64bits_total input :
  ∃ h, XXH3_64bits input (Z.of_nat (length input)) = Some h ∧ fits 64 h.
Proof.
  destruct (XXH3_64bits_internal_ok input XXH3_kSecret 0 XXH3_hashLong_64b_default XXH3_hashLong_64b_default)
    as (h & Hh & _ & ?); [vm_compute; congruence|done| |by exists h].
  intros Hlen. destruct (hashLong_64b_internal_ok input XXH3_kSecret) as (h & Hh & _ & ?);
    [vm_compute; congruence|lia|by exists h].
Qed.

(** ** The two multiplications *)

Lemma mask32 x : 0 ≤ x → Z.land x 0xFFFFFFFF = u32 x.
Proof. intros Hx. change 0xFFFFFFFF with (2 ^ 32 - 1). by apply land_ones_wrap. Qed.

(** [low | high << 32] on disjoint halves. *)
Lemma lor_halves h l : fits 32 l → Z.lor (h * 2 ^ 32) l = h * 2 ^ 32 + l.
Proof.
  intros Hl. symmetry. apply Z.add_nocarry_lor. apply Z.bits_inj'. intros i Hi.
  rewrite Z.land_spec, Z.bits_0. destruct (Z.lt_ge_cases i 32).
  - by rewrite Z.mul_pow2_bits_low.
  - apply fits_testbit in Hl as [_ Hl]; [|lia]. by rewrite (Hl i), andb_false_r.
Qed.

(** The scalar multiplication of xxHash, with its cross products and without carry
    tracking, computes the same two words as the 128-bit branch. *)
Theorem XXH_mult64to128_scalar_correct lhs rhs :
  fits 64 lhs → fits 64 rhs → XXH_mult64to128_scalar lhs rhs = XXH_mult64to128 lhs rhs.
Proof.
  intros HA HB. destruct (mul64_split lhs rhs HA HB) as (Hlo & Hhi & Hprod).
  unfold XXH_mult64to128. cbv zeta. set (lo := u64 (wrap 128 (lhs * rhs))) in *.
  set (hi := u64 (Z.shiftr (wrap 128 (lhs * rhs)) 64)) in *. clearbody lo hi.
  destruct (split32 lhs HA) as (HAeq & HAh & HAl). destruct (split32 rhs HB) as (HBeq & HBh & HBl).
  unfold XXH_mult64to128_scalar, XXH_mult32to64. cbv zeta.
  assert (Hnn : ∀ z, fits 64 z → 0 ≤ z) by (unfold fits; lia).
  rewrite !mask32 by (auto; apply Hnn, fits_wrap; lia).
  set (ha := Z.shiftr lhs 32) in *. set (la := u32 lhs) in *.
  set (hb := Z.shiftr rhs 32) in *. set (lb := u32 rhs) in *.
  assert (Hmul : ∀ x y, fits 32 x → fits 32 y → fits 64 (x * y)) by (unfold fits; nia).
  assert (Hmax : ∀ x y, fits 32 x → fits 32 y → x * y ≤ (2 ^ 32 - 1) * (2 ^ 32 - 1)) by (unfold fits; nia).
  rewrite !(wrap_small 32 la), !(wrap_small 32 lb), !(wrap_small 32 ha), !(wrap_small 32 hb) by done.
  rewrite !(wrap_small 64 (_ * _)) by auto.
  destruct (split32 (la * lb)) as (Hll & Hllh & Hlll); [auto|].
  destruct (split32 (ha * lb)) as (Hhl & Hhlh & Hhll); [auto|].
  pose proof (Hmax la hb HAl HBh) as Hlh. pose proof (Hmul la hb HAl HBh) as Hlh'.
  pose proof (Hmax ha hb HAh HBh) as Hhh.
  set (q0 := Z.shiftr (la * lb) 32) in *. set (r0 := u32 (la * lb)) in *.
  set (q1 := Z.shiftr (ha * lb) 32) in *. set (r1 := u32 (ha * lb)) in *.
  assert (Hcross : fits 64 (q0 + r1 + la * hb)) by (unfold fits in *; lia).
  rewrite (wrap_small 64 (q0 + r1 + la * hb)) by done.
  destruct (split32 _ Hcross) as (Hc & Hch & Hcl). rewrite shl32_wrap by done.
  set (qc := Z.shiftr (q0 + r1 + la * hb) 32) in *. set (rc := u32 (q0 + r1 + la * hb)) in *.
  rewrite lor_halves by done. clearbody q0 r0 q1 r1 qc rc.
  assert (HAB : lhs * rhs = (q1 + qc + ha * hb) * 2 ^ 64 + (rc * 2 ^ 32 + r0)).
  { rewrite HAeq, HBeq. clear - Hll Hhl Hc. lia. }
  unfold fits in *.
  assert (rc * 2 ^ 32 + r0 = lo ∧ q1 + qc + ha * hb = hi) as [-> Hhi'].
  { clear - HAB Hprod Hlo Hcl Hlll. lia. }
  f_equal. rewrite wrap_small by (unfold fits; lia). done.
Qed.

Lemma XXH_mult64to128_scalar_correct_witness :
  XXH_mult64to128_scalar 0xFEDCBA9876543210 0xFFFFFFFFFFFFFFFF
  = XXH_mult64to128 0xFEDCBA9876543210 0xFFFFFFFFFFFFFFFF.
Proof. apply XXH_mult64to128_scalar_correct; unfold fits; lia. Defined.
