(* ===== verification/Xxh3Vector.v ===== *)
(** * The vector targets of XXH3 (src/include/hash/orig_xhash.hh)

    [XXH3_accumulate_512], [XXH3_scrambleAcc] and [XXH3_initCustomSecret] for SSE2, AVX2 and
    AVX-512. A register is the list of its 64-bit lanes, the low one first: 2, 4 or 8 of
    them. The accumulators are eight words of memory, so that [xacc[i]] is a slice of them.
    The intrinsics do what Intel documents; the three targets obey the laws of
    [XXH_VECTOR], and so compute the hashes of the scalar code. *)
From S2P Require Import Prelude Words Xxh3.

(** ** The intrinsics *)

(** [_mm_loadu_si128], [_mm256_loadu_si256], [_mm512_loadu_si512] from [p + off]. *)
Definition loadu (lanes : nat) (p : bytes) (off : Z) : option (list Z) :=
  mapM (λ j : nat, load_le 8 p (off + 8 * Z.of_nat j)) (seq 0 lanes).

Definition mm_xor (a b : list Z) : list Z := zip_with Z.lxor a b.
Definition mm_add_epi64 (a b : list Z) : list Z := zip_with (λ x y, u64 (x + y)) a b.
Definition mm_mul_epu32 (a b : list Z) : list Z := zip_with (λ x y, u64 (u32 x * u32 y)) a b.
Definition mm_srli_epi64 (a : list Z) (n : Z) : list Z := (λ x, Z.shiftr x n) <$> a.
Definition mm_slli_epi64 (a : list Z) (n : Z) : list Z := (λ x, u64 (Z.shiftl x n)) <$> a.
Definition mm_set1_epi32 (lanes : nat) (x : Z) : list Z :=
  replicate lanes (Z.lor (Z.shiftl (u32 x) 32) (u32 x)).

(** [_MM_SHUFFLE(z, y, x, w)], and the 32-bit word that two bits of it select out of a
    128-bit half of a register. *)
Definition MM_SHUFFLE (z y x w : Z) : Z :=
  Z.lor (Z.lor (Z.lor (Z.shiftl z 6) (Z.shiftl y 4)) (Z.shiftl x 2)) w.

Definition dword (a b c : Z) : Z :=
  u32 (Z.shiftr (if c <? 2 then a else b) (32 * (c `mod` 2))).

Fixpoint mm_shuffle_epi32 (v : list Z) (imm : Z) : list Z :=
  match v with
  | a :: b :: v =>
      let sel k := dword a b (Z.land (Z.shiftr imm (2 * k)) 3) in
      Z.lor (Z.shiftl (sel 1) 32) (sel 0) :: Z.lor (Z.shiftl (sel 3) 32) (sel 2) ::
      mm_shuffle_epi32 v imm
  | _ => []
  end.

(** [-(xxh_i64)seed64]: the negation of the least [int64_t] overflows. *)
Definition neg_i64 (seed64 : Z) : option Z :=
  if to_i64 seed64 =? - 2 ^ 63 then None else Some (u64 (- to_i64 seed64)).

(** ** The body of the loops *)

Definition accumulate_vec (acc_vec data_vec key_vec : list Z) : list Z :=
  let data_key := mm_xor data_vec key_vec in
  let data_key_lo := mm_shuffle_epi32 data_key (MM_SHUFFLE 0 3 0 1) in
  let product := mm_mul_epu32 data_key data_key_lo in
  let data_swap := mm_shuffle_epi32 data_vec (MM_SHUFFLE 1 0 3 2) in
  let sum := mm_add_epi64 acc_vec data_swap in
  mm_add_epi64 product sum.

Definition scramble_vec (prime32 acc_vec key_vec : list Z) : list Z :=
  let shifted := mm_srli_epi64 acc_vec 47 in
  let data_vec := mm_xor acc_vec shifted in
  let data_key := mm_xor data_vec key_vec in
  let data_key_hi := mm_shuffle_epi32 data_key (MM_SHUFFLE 0 3 0 1) in
  let prod_lo := mm_mul_epu32 data_key prime32 in
  let prod_hi := mm_mul_epu32 data_key_hi prime32 in
  mm_add_epi64 prod_lo (mm_slli_epi64 prod_hi 32).

(** The loops over the registers of [lanes] lanes that make up 64 bytes. *)
Definition accumulate_512_loop (lanes : nat) (acc : list Z) (input : bytes) (p : Z)
    (secret : bytes) (s : Z) : option (list Z) :=
  for_loop (8 / lanes) 0
    (λ i acc,
       let o := Z.of_nat lanes * i in
       data_vec ← loadu lanes input (p + 8 * o);
       key_vec ← loadu lanes secret (s + 8 * o);
       xacc ← slice acc o lanes;
       write_at acc o (accumulate_vec xacc data_vec key_vec))
    acc.

Definition scrambleAcc_loop (lanes : nat) (acc : list Z) (secret : bytes) (s : Z) : option (list Z) :=
  let prime32 := mm_set1_epi32 lanes XXH_PRIME32_1 in
  for_loop (8 / lanes) 0
    (λ i acc,
       let o := Z.of_nat lanes * i in
       acc_vec ← slice acc o lanes;
       key_vec ← loadu lanes secret (s + 8 * o);
       write_at acc o (scramble_vec prime32 acc_vec key_vec))
    acc.

(** [dest[i] = src[i] + seed] over the registers of the secret. *)
Definition initCustomSecret_loop (lanes : nat) (seed : list Z) (customSecret : bytes) : option bytes :=
  for_loop (24 / lanes) 0
    (λ i customSecret,
       let o := 8 * Z.of_nat lanes * i in
       src ← loadu lanes XXH3_kSecret o;
       write_at customSecret o (mm_add_epi64 src seed ≫= le_split 8))
    customSecret.

(** ** The targets *)

Definition XXH3_accumulate_512_sse2 : XXH3_f_accumulate_512 := accumulate_512_loop 2.
Definition XXH3_scrambleAcc_sse2 : XXH3_f_scrambleAcc := scrambleAcc_loop 2.
Definition XXH3_initCustomSecret_sse2 (customSecret : bytes) (seed64 : Z) : option bytes :=
  neg ← neg_i64 seed64;
  initCustomSecret_loop 2 [seed64; neg] customSecret.

Definition XXH3_accumulate_512_avx2 : XXH3_f_accumulate_512 := accumulate_512_loop 4.
Definition XXH3_scrambleAcc_avx2 : XXH3_f_scrambleAcc := scrambleAcc_loop 4.
Definition XXH3_initCustomSecret_avx2 (customSecret : bytes) (seed64 : Z) : option bytes :=
  neg ← neg_i64 seed64;
  initCustomSecret_loop 4 [seed64; neg; seed64; neg] customSecret.

Definition XXH3_accumulate_512_avx512 (acc : list Z) (input : bytes) (p : Z)
    (secret : bytes) (s : Z) : option (list Z) :=
  data_vec ← loadu 8 input p;
  key_vec ← loadu 8 secret s;
  xacc ← slice acc 0 8;
  write_at acc 0 (accumulate_vec xacc data_vec key_vec).

Definition XXH3_scrambleAcc_avx512 (acc : list Z) (secret : bytes) (s : Z) : option (list Z) :=
  let prime32 := mm_set1_epi32 8 XXH_PRIME32_1 in
  acc_vec ← slice acc 0 8;
  key_vec ← loadu 8 secret s;
  write_at acc 0 (scramble_vec prime32 acc_vec key_vec).

(** [_mm512_mask_set1_epi64(_mm512_set1_epi64(x), 0xAA, y)]: [y] where the mask has a bit. *)
Definition mm512_mask_set1_epi64 (v : list Z) (mask y : Z) : list Z :=
  imap (λ j x, if Z.testbit mask (Z.of_nat j) then y else x) v.

Definition XXH3_initCustomSecret_avx512 (customSecret : bytes) (seed64 : Z) : option bytes :=
  neg ← neg_i64 seed64;
  initCustomSecret_loop 8 (mm512_mask_set1_epi64 (replicate 8 seed64) 0xAA neg) customSecret.

Definition XXH_SSE2 : XXH_VECTOR := {|
  XXH3_accumulate_512 := XXH3_accumulate_512_sse2;
  XXH3_scrambleAcc := XXH3_scrambleAcc_sse2;
  XXH3_initCustomSecret := XXH3_initCustomSecret_sse2 |}.

Definition XXH_AVX2 : XXH_VECTOR := {|
  XXH3_accumulate_512 := XXH3_accumulate_512_avx2;
  XXH3_scrambleAcc := XXH3_scrambleAcc_avx2;
  XXH3_initCustomSecret := XXH3_initCustomSecret_avx2 |}.

Definition XXH_AVX512 : XXH_VECTOR := {|
  XXH3_accumulate_512 := XXH3_accumulate_512_avx512;
  XXH3_scrambleAcc := XXH3_scrambleAcc_avx512;
  XXH3_initCustomSecret := XXH3_initCustomSecret_avx512 |}.

(** ** Words of 32 bits *)

Lemma dword_lo x : u32 (Z.shiftr x (32 * 0)) = u32 x.
Proof. by rewrite Z.mul_0_r, Z.shiftr_0_r. Qed.

Lemma u32_join h l : u32 (Z.lor (Z.shiftl (u32 h) 32) (u32 l)) = u32 l.
Proof.
  rewrite Z.shiftl_mul_pow2, lor_halves by (lia || (apply fits_wrap; lia)).
  rewrite Z.add_comm. unfold wrap. rewrite Z_mod_plus_full. apply Zmod_mod.
Qed.

Lemma join_halves x : fits 64 x → Z.lor (Z.shiftl (u32 (Z.shiftr x 32)) 32) (u32 x) = x.
Proof.
  intros Hx. destruct (split32 x Hx) as (Heq & Hh & Hl).
  rewrite (wrap_small 32 (Z.shiftr x 32)) by done.
  rewrite Z.shiftl_mul_pow2, lor_halves by (done || lia). lia.
Qed.

(** The control [0, 3, 0, 1] puts the high half of each word in its low half; [1, 0, 3, 2]
    swaps neighbouring words. *)
Lemma shuffle_0301 a b v :
  mm_shuffle_epi32 (a :: b :: v) (MM_SHUFFLE 0 3 0 1) =
  Z.lor (Z.shiftl (u32 a) 32) (u32 (Z.shiftr a 32)) ::
  Z.lor (Z.shiftl (u32 a) 32) (u32 (Z.shiftr b 32)) :: mm_shuffle_epi32 v (MM_SHUFFLE 0 3 0 1).
Proof. rewrite <-(dword_lo a). reflexivity. Qed.

Lemma shuffle_1032 a b v :
  fits 64 a → fits 64 b →
  mm_shuffle_epi32 (a :: b :: v) (MM_SHUFFLE 1 0 3 2) = b :: a :: mm_shuffle_epi32 v (MM_SHUFFLE 1 0 3 2).
Proof.
  intros Ha Hb. rewrite <-(join_halves a) at 2 by done. rewrite <-(join_halves b) at 2 by done.
  rewrite <-(dword_lo a), <-(dword_lo b). reflexivity.
Qed.

(** ** Accumulating and scrambling *)

(** The words of a stripe, wherever the code reads them. *)
Lemma stripe_words p off :
  0 ≤ off → off + 64 ≤ Z.of_nat (length p) →
  ∃ w : list Z, length w = 8%nat ∧ Forall (fits 64) w ∧
    ∀ k o, o = off + 8 * Z.of_nat k → (k < 8)%nat → load_le 8 p o = w !! k.
Proof.
  intros H1 H2.
  exists ((λ k : nat, default 0 (load_le 8 p (off + 8 * Z.of_nat k))) <$> seq 0 8).
  assert (Hl : ∀ k : nat, (k < 8)%nat → ∃ v, load_le 8 p (off + 8 * Z.of_nat k) = Some v ∧ fits 64 v).
  { intros k Hk. apply (load_le_in_bounds 8); lia. }
  split; [done|]. split.
  - apply Forall_fmap, Forall_forall. intros k Hk%elem_of_seq. unfold compose.
    destruct (Hl k) as (v & -> & ?); [lia|done].
  - intros k o -> Hk. rewrite list_lookup_fmap, lookup_seq_lt by done.
    destruct (Hl k) as (v & Hv & ?); [done|]. cbn. by rewrite Hv.
Qed.

Lemma loadu_words lanes p off w k o :
  (∀ k o, o = off + 8 * Z.of_nat k → (k < 8)%nat → load_le 8 p o = w !! k) → length w = 8%nat →
  o = off + 8 * Z.of_nat k → (k + lanes ≤ 8)%nat → loadu lanes p o = Some (take lanes (drop k w)).
Proof.
  intros Hw Hlen -> Hk. unfold loadu. apply mapM_Some. apply Forall2_same_length_lookup_2.
  { rewrite length_seq, length_take, length_drop. lia. }
  intros j x y (-> & Hj)%lookup_seq Hy.
  rewrite lookup_take_lt, lookup_drop in Hy by lia. rewrite <-Hy. apply Hw; lia.
Qed.

Lemma eight {A} (l : list A) :
  length l = 8%nat → ∃ x0 x1 x2 x3 x4 x5 x6 x7, l = [x0; x1; x2; x3; x4; x5; x6; x7].
Proof.
  intros Hl. do 9 (destruct l as [|? l]; [try discriminate Hl; by eauto 10|]). discriminate Hl.
Qed.

(** Evaluates the loads, at constant places of a stripe, of code that is unrolled. *)
Ltac stripe_load H :=
  repeat match type of H with
  | ∀ k o, o = ?off + _ → _ → load_le 8 ?p o = _ =>
      match goal with |- context [load_le 8 p ?o] =>
        first [ rewrite (H 0%nat o) by lia | rewrite (H 1%nat o) by lia | rewrite (H 2%nat o) by lia
              | rewrite (H 3%nat o) by lia | rewrite (H 4%nat o) by lia | rewrite (H 5%nat o) by lia
              | rewrite (H 6%nat o) by lia | rewrite (H 7%nat o) by lia ] end end.

Ltac eval_indices :=
  repeat match goal with |- context [Z.to_nat ?x] =>
    let v := eval vm_compute in (Z.to_nat x) in change (Z.to_nat x) with v end.

(** The lanes after a stripe: each gets its neighbour's word and a product. *)
Fixpoint swap_pairs (l : list Z) : list Z :=
  match l with
  | x :: y :: l => y :: x :: swap_pairs l
  | _ => l
  end.

Definition lane_sum (a d' x : Z) : Z := u64 (a + d' + u32 x * u32 (Z.shiftr x 32)).

Definition lane_sums (a d k : list Z) : list Z :=
  zip_with (λ ad x, lane_sum ad.1 ad.2 x) (zip a (swap_pairs d)) (zip_with Z.lxor d k).

Lemma product_words x : XXH_mult32to64 (Z.land x 0xFFFFFFFF) (Z.shiftr x 32) = u64 (u32 x * u32 (Z.shiftr x 32)).
Proof. unfold XXH_mult32to64. change 0xFFFFFFFF with (2 ^ 32 - 1). by rewrite land_ones_wrap, wrap_wrap. Qed.

Lemma accumulate_scalar_lanes (d k : list Z) acc input p secret s :
  length acc = 8%nat → length d = 8%nat → length k = 8%nat →
  (∀ j o, o = p + 8 * Z.of_nat j → (j < 8)%nat → load_le 8 input o = d !! j) →
  (∀ j o, o = s + 8 * Z.of_nat j → (j < 8)%nat → load_le 8 secret o = k !! j) →
  XXH3_accumulate_512_scalar acc input p secret s = Some (lane_sums acc d k).
Proof.
  intros Ha Hd Hk Hin Hsec. destruct (eight acc Ha) as (a0 & a1 & a2 & a3 & a4 & a5 & a6 & a7 & ->).
  destruct (eight d Hd) as (d0 & d1 & d2 & d3 & d4 & d5 & d6 & d7 & ->).
  destruct (eight k Hk) as (k0 & k1 & k2 & k3 & k4 & k5 & k6 & k7 & ->).
  unfold XXH3_accumulate_512_scalar, XXH_ACC_NB, XXH_readLE64. cbn [for_loop].
  stripe_load Hin. stripe_load Hsec. cbn [mbind option_bind lookup list_lookup].
  rewrite !product_words. 
  unfold lane_add. eval_indices. cbn [alter list_alter lane_sums].
  unfold lane_sums. cbn [swap_pairs zip_with fst snd]. unfold lane_sum.
  autorewrite with elh_rw. apply (f_equal Some). repeat (apply (f_equal2 cons); [apply (f_equal (wrap 64)); lia|]). done.
Qed.

(** A register of the vector code computes the same lanes. *)
Lemma accumulate_vec_lanes a d k n :
  length d = length a → length k = length a → Forall (fits 64) d →
  length a = (2 * n)%nat → accumulate_vec a d k = lane_sums a d k.
Proof.
  revert a d k. induction n as [|n IH]; intros a d k Hd Hk Fd Hn.
  { apply nil_length_inv in Hn as ->. by destruct d, k. }
  destruct a as [|a [|a' al]]; [simpl in Hn; lia..|].
  destruct d as [|d [|d' dl]]; [done..|]. destruct k as [|k [|k' kl]]; [done..|].
  injection Hd as Hd. injection Hk as Hk. cbn [length] in Hn.
  inversion_clear Fd as [|?? Fd0 Fd1]. inversion_clear Fd1 as [|?? Fd2 Fd3].
  specialize (IH al dl kl Hd Hk Fd3 ltac:(lia)). revert IH.
  unfold accumulate_vec, mm_add_epi64, mm_mul_epu32, mm_xor, lane_sums. cbn [zip_with].
  rewrite shuffle_0301, shuffle_1032 by done. cbn [zip_with swap_pairs fst snd]. intros ->.
  unfold lane_sum. rewrite !u32_join. autorewrite with elh_rw.
  repeat (apply (f_equal2 cons); [apply (f_equal (wrap 64)); lia|]). done.
Qed.

Lemma swap_pairs_drop m : ∀ l, swap_pairs (drop (2 * m) l) = drop (2 * m) (swap_pairs l).
Proof.
  induction m as [|m IH]; intros l; [done|]. replace (2 * S m)%nat with (S (S (2 * m))) by lia.
  destruct l as [|x [|y l]]; [done..|]. apply IH.
Qed.

Lemma swap_pairs_take m : ∀ l, swap_pairs (take (2 * m) l) = take (2 * m) (swap_pairs l).
Proof.
  induction m as [|m IH]; intros l; [done|]. replace (2 * S m)%nat with (S (S (2 * m))) by lia.
  destruct l as [|x [|y l]]; [done..|]. cbn [take swap_pairs]. by rewrite IH.
Qed.

Lemma length_swap_pairs l : length (swap_pairs l) = length l.
Proof.
  cut (∀ l, length (swap_pairs l) = length l ∧ ∀ x, length (swap_pairs (x :: l)) = S (length l)); [intros H; apply H|].
  clear l. induction l as [|y l [IH1 IH2]]; [done|]. split; [apply IH2|]. intros x. cbn. by rewrite IH1.
Qed.

(** Registers of the words are registers of the lanes. *)
Lemma lane_sums_register o m a d k :
  lane_sums (take (2 * m) (drop (2 * o) a)) (take (2 * m) (drop (2 * o) d)) (take (2 * m) (drop (2 * o) k)) =
  take (2 * m) (drop (2 * o) (lane_sums a d k)).
Proof.
  unfold lane_sums. by rewrite swap_pairs_take, swap_pairs_drop, <-!zip_with_take, <-!zip_with_drop.
Qed.

(** A loop that computes the registers of [new] one after the other. *)
Lemma register_loop {A} lanes n (new : list A) body acc :
  length new = length acc → (n * lanes)%nat = length acc →
  (∀ i a, (i < n)%nat → drop (i * lanes) a = drop (i * lanes) acc →
     body (Z.of_nat i) a = write_at a (Z.of_nat (i * lanes)) (take lanes (drop (i * lanes) new))) →
  for_loop n 0 body acc = Some new.
Proof.
  intros Hnew Hn Hbody.
  destruct (for_loop_total (λ i a, ∃ j, i = Z.of_nat j ∧
     a = take (j * lanes) new ++ drop (j * lanes) acc) body n 0 acc) as (a & -> & (j & Hj & ->)).
  - by exists 0%nat.
  - intros i a Hi (j & -> & ->).
    assert (Hjl : (j * lanes + lanes ≤ length acc)%nat) by nia.
    assert (Htl : length (take (j * lanes) new) = (j * lanes)%nat) by (rewrite length_take; lia).
    rewrite Hbody; [|lia|by rewrite drop_app_length' by done].
    assert (Hrl : length (take lanes (drop (j * lanes) new)) = lanes) by (rewrite length_take, length_drop; lia).
    rewrite write_at_in_bounds by (rewrite ?Hrl, ?length_app, ?Htl, ?length_drop; lia).
    eexists. split; [done|]. exists (S j). split; [lia|]. rewrite Nat2Z.id, Hrl.
    rewrite take_app_length', drop_app_ge, drop_drop, Htl by (rewrite ?Htl; lia).
    rewrite app_assoc. f_equal; [|f_equal; lia].
    rewrite take_take_drop. f_equal. lia.
  - f_equal. replace j with n by lia. rewrite drop_ge, take_ge, app_nil_r by lia. done.
Qed.

(** ** Scrambling *)

Definition scramble_lanes (a k : list Z) : list Z :=
  zip_with (λ a k, u64 (Z.lxor (XXH_xorshift64 a 47) k * XXH_PRIME32_1)) a k.

(** The product of a word and a 32-bit constant out of two halves. *)
Lemma mul_halves x c :
  fits 64 x → u64 (u64 (u32 x * c) + u64 (Z.shiftl (u64 (u32 (Z.shiftr x 32) * c)) 32)) = u64 (x * c).
Proof.
  intros Hx. destruct (split32 x Hx) as (Heq & Hh & Hl). rewrite (wrap_small 32 (Z.shiftr x 32)) by done.
  rewrite !Z.shiftl_mul_pow2 by lia. autorewrite with elh_rw. f_equal. rewrite Heq at 3. ring.
Qed.

Lemma scramble_vec_lanes a k n :
  length k = length a → Forall (fits 64) a → Forall (fits 64) k → length a = (2 * n)%nat →
  scramble_vec (mm_set1_epi32 (2 * n) XXH_PRIME32_1) a k = scramble_lanes a k.
Proof.
  revert a k. induction n as [|n IH]; intros a k Hk Fa Fk Hn.
  { by apply nil_length_inv in Hn as ->. }
  destruct a as [|a [|a' al]]; [simpl in Hn; lia..|]. destruct k as [|k [|k' kl]]; [done..|].
  injection Hk as Hk. cbn [length] in Hn.
  inversion_clear Fa as [|?? Fa0 Fa1]. inversion_clear Fa1 as [|?? Fa2 Fa3].
  inversion_clear Fk as [|?? Fk0 Fk1]. inversion_clear Fk1 as [|?? Fk2 Fk3].
  specialize (IH al kl Hk Fa3 Fk3 ltac:(lia)). revert IH.
  replace (2 * S n)%nat with (S (S (2 * n))) by lia.
  unfold scramble_vec, mm_set1_epi32, mm_add_epi64, mm_slli_epi64, mm_srli_epi64, mm_mul_epu32, mm_xor, scramble_lanes.
  cbn [replicate fmap list_fmap zip_with]. rewrite shuffle_0301. cbn [zip_with fmap list_fmap]. intros ->.
  rewrite !u32_join. change (u32 XXH_PRIME32_1) with XXH_PRIME32_1. unfold XXH_xorshift64.
  rewrite !mul_halves by (repeat (apply fits_lxor; [lia| |]); done || (apply fits_shiftr; [lia|done])).
  done.
Qed.

Lemma scramble_scalar_lanes (k : list Z) acc secret s :
  length acc = 8%nat → length k = 8%nat →
  (∀ j o, o = s + 8 * Z.of_nat j → (j < 8)%nat → load_le 8 secret o = k !! j) →
  XXH3_scrambleAcc_scalar acc secret s = Some (scramble_lanes acc k).
Proof.
  intros Ha Hk Hsec. destruct (eight acc Ha) as (a0 & a1 & a2 & a3 & a4 & a5 & a6 & a7 & ->).
  destruct (eight k Hk) as (k0 & k1 & k2 & k3 & k4 & k5 & k6 & k7 & ->).
  unfold XXH3_scrambleAcc_scalar, XXH_ACC_NB, XXH_readLE64. cbn [for_loop].
  stripe_load Hsec. cbn [mbind option_bind lookup list_lookup].
  unfold arr_get. eval_indices. cbn. reflexivity.
Qed.

Lemma slice_register {A} (acc a : list A) lanes n i :
  (i < n)%nat → (n * lanes)%nat = length a → drop (i * lanes) a = drop (i * lanes) acc →
  slice a (Z.of_nat (i * lanes)) lanes = Some (take lanes (drop (i * lanes) acc)).
Proof.
  intros Hi Hn Hd. rewrite slice_in_bounds by nia. by rewrite Nat2Z.id, Hd.
Qed.

Section loops.
Context (m n : nat) (Hmn : (n * (2 * m))%nat = 8%nat).
Let lanes := (2 * m)%nat.

Lemma lanes_pos : (8 / lanes)%nat = n ∧ (0 < m)%nat.
Proof using Hmn.
  subst lanes. assert (0 < m)%nat by (destruct m; lia). split; [|done].
  rewrite <-Hmn. apply Nat.div_mul. lia.
Qed.

Lemma loadu_register q off w i :
  (∀ j o, o = off + 8 * Z.of_nat j → (j < 8)%nat → load_le 8 q o = w !! j) → length w = 8%nat →
  (i < n)%nat → loadu lanes q (off + 8 * (Z.of_nat lanes * Z.of_nat i)) = Some (take lanes (drop (i * lanes) w)).
Proof using Hmn.
  intros Hw Hwl Hi. apply (loadu_words _ _ off); [done..|lia|]. subst lanes. nia.
Qed.

Lemma accumulate_loop_lanes (d k : list Z) acc input p secret s :
  length acc = 8%nat → length d = 8%nat → length k = 8%nat → Forall (fits 64) d →
  (∀ j o, o = p + 8 * Z.of_nat j → (j < 8)%nat → load_le 8 input o = d !! j) →
  (∀ j o, o = s + 8 * Z.of_nat j → (j < 8)%nat → load_le 8 secret o = k !! j) →
  accumulate_512_loop lanes acc input p secret s = Some (lane_sums acc d k).
Proof using Hmn.
  intros Ha Hd Hk Fd Hin Hsec. destruct lanes_pos as [Hn Hm]. unfold accumulate_512_loop. rewrite Hn.
  apply (register_loop lanes).
  { unfold lane_sums. rewrite !length_zip_with, length_swap_pairs. lia. }
  { by rewrite Ha. }
  intros i a Hi Hdrop. rewrite !(loadu_register _ _ _ i) by done. cbn [mbind option_bind].
  replace (Z.of_nat lanes * Z.of_nat i) with (Z.of_nat (i * lanes)) by lia.
  assert (Hla : length a = 8%nat).
  { apply (f_equal length) in Hdrop. rewrite !length_drop in Hdrop. subst lanes. nia. }
  rewrite (slice_register acc a lanes n i) by (done || lia). cbn [mbind option_bind]. f_equal.
  replace (i * lanes)%nat with (2 * (i * m))%nat by (subst lanes; lia). subst lanes.
  rewrite <-lane_sums_register. apply (accumulate_vec_lanes _ _ _ m).
  - rewrite !length_take, !length_drop. lia.
  - rewrite !length_take, !length_drop. lia.
  - by apply Forall_take, Forall_drop.
  - rewrite length_take, length_drop. nia.
Qed.

(** *** Scrambling *)
Lemma length_scramble_lanes a k : length k = length a → length (scramble_lanes a k) = length a.
Proof. intros Hk. unfold scramble_lanes. rewrite length_zip_with. lia. Qed.

Lemma scrambleAcc_loop_lanes (k : list Z) acc secret s :
  lanes_wf acc → length k = 8%nat → Forall (fits 64) k →
  (∀ j o, o = s + 8 * Z.of_nat j → (j < 8)%nat → load_le 8 secret o = k !! j) →
  scrambleAcc_loop lanes acc secret s = Some (scramble_lanes acc k).
Proof using Hmn.
  intros [Ha Fa] Hk Fk Hsec. destruct lanes_pos as [Hn Hm]. unfold scrambleAcc_loop. rewrite Hn. cbv zeta.
  unfold XXH_ACC_NB in Ha. apply (register_loop lanes).
  { rewrite length_scramble_lanes; lia. }
  { by rewrite Ha. }
  intros i a Hi Hdrop. rewrite !(loadu_register _ _ _ i) by done.
  replace (Z.of_nat lanes * Z.of_nat i) with (Z.of_nat (i * lanes)) by lia.
  assert (Hla : length a = 8%nat).
  { apply (f_equal length) in Hdrop. rewrite !length_drop in Hdrop. subst lanes. nia. }
  rewrite (slice_register acc a lanes n i) by (done || lia). cbn [mbind option_bind]. f_equal.
  unfold scramble_lanes. rewrite zip_with_drop, zip_with_take. subst lanes.
  apply (scramble_vec_lanes _ _ m).
  - rewrite !length_take, !length_drop. lia.
  - by apply Forall_take, Forall_drop.
  - by apply Forall_take, Forall_drop.
  - rewrite length_take, length_drop. nia.
Qed.
End loops.

(** ** The secret *)

(** A loop that writes chunks of [w] bytes, one behind the other. *)
Lemma write_chunks {A} (w n : nat) (chunk : nat → list A) body (p : list A) :
  (∀ i, (i < n)%nat → length (chunk i) = w) → (n * w ≤ length p)%nat →
  (∀ i q, (i < n)%nat → length q = length p → body (Z.of_nat i) q = write_at q (Z.of_nat (i * w)) (chunk i)) →
  for_loop n 0 body p = Some (concat (chunk <$> seq 0 n) ++ drop (n * w) p).
Proof.
  intros Hc. revert body p. induction n as [|n IH]; intros body p Hp Hbody; [done|].
  rewrite for_loop_snoc, IH; [|intros; apply Hc; lia|lia|intros; apply Hbody; lia].
  assert (Hl : length (concat (chunk <$> seq 0 n)) = (n * w)%nat).
  { clear -Hc. induction n as [|n IH]; [done|]. rewrite seq_S, fmap_app, concat_app, length_app, IH by (intros; apply Hc; lia).
    cbn. rewrite app_nil_r, Hc by lia. lia. }
  cbn [mbind option_bind]. rewrite Z.add_0_l, Hbody; [|lia|rewrite length_app, Hl, length_drop; lia].
  rewrite write_at_in_bounds by (rewrite ?length_app, ?Hl, ?Hc, ?length_drop; lia).
  f_equal. rewrite Nat2Z.id, Hc by lia. rewrite take_app_length' by done.
  rewrite drop_app_ge, drop_drop, Hl by (rewrite ?Hl; lia). rewrite seq_S, fmap_app, concat_app. cbn.
  rewrite app_nil_r, <-app_assoc. do 3 f_equal. lia.
Qed.

Definition secret_lane (j : nat) : Z := default 0 (load_le 8 XXH3_kSecret (8 * Z.of_nat j)).

Lemma secret_lane_ok j o :
  (j < 24)%nat → o = 8 * Z.of_nat j → load_le 8 XXH3_kSecret o = Some (secret_lane j).
Proof.
  intros Hj ->. unfold secret_lane.
  destruct (load_le_in_bounds 8 XXH3_kSecret (8 * Z.of_nat j)) as (v & -> & _); [lia| |done].
  change (Z.of_nat (length XXH3_kSecret)) with 192. lia.
Qed.

(** The custom secret: the seed is added to the even words and subtracted from the odd ones. *)
Definition seeded_word (seed : Z) (j : nat) : bytes :=
  le_split 8 (if Nat.even j then u64 (secret_lane j + seed) else u64 (secret_lane j - seed)).

Definition seeded_secret (seed : Z) : bytes := concat (seeded_word seed <$> seq 0 24).

Lemma initCustomSecret_scalar_content customSecret seed :
  length customSecret = 192%nat → XXH3_initCustomSecret_scalar customSecret seed = Some (seeded_secret seed).
Proof.
  intros Hl. unfold XXH3_initCustomSecret_scalar.
  change (Z.to_nat (XXH_SECRET_DEFAULT_SIZE `div` 16)) with 12%nat.
  rewrite (write_chunks 16 12 (λ i, seeded_word seed (2 * i) ++ seeded_word seed (2 * i + 1))).
  - rewrite drop_ge, app_nil_r by lia. unfold seeded_secret. cbn [seq fmap list_fmap concat Nat.mul Nat.add].
    by rewrite <-!app_assoc.
  - intros i Hi. unfold seeded_word. by rewrite length_app, !length_le_split.
  - lia.
  - intros i q Hi Hq. unfold XXH_readLE64.
    rewrite (secret_lane_ok (2 * i) (16 * Z.of_nat i)), (secret_lane_ok (2 * i + 1) (16 * Z.of_nat i + 8)) by lia. cbn [mbind option_bind].
    unfold XXH_writeLE64, seeded_word. rewrite <-write_at_app by (rewrite ?length_le_split; lia).
    rewrite Nat.even_even, Nat.even_odd, length_le_split.
    replace (16 * Z.of_nat i) with (Z.of_nat (i * 16)) by lia. done.
Qed.

Lemma neg_i64_ok seed : fits 64 seed → seed ≠ 2 ^ 63 → neg_i64 seed = Some (u64 (- seed)).
Proof.
  intros Hs Hne. unfold neg_i64, to_i64, fits, wrap in *.
  assert (Hm : (seed + 2 ^ 63) `mod` 2 ^ 64 = if seed <? 2 ^ 63 then seed + 2 ^ 63 else seed - 2 ^ 63).
  { destruct (Z.ltb_spec seed (2 ^ 63)); [by apply Z.mod_small; lia|].
    symmetry. apply (Z.mod_unique _ _ 1); lia. }
  rewrite Hm. destruct (Z.ltb_spec seed (2 ^ 63)).
  - rewrite (proj2 (Z.eqb_neq _ _)) by lia. do 2 f_equal. lia.
  - rewrite (proj2 (Z.eqb_neq _ _)) by lia. f_equal.
    replace (- (seed - 2 ^ 63 - 2 ^ 63)) with (- seed + 1 * 2 ^ 64) by lia. apply Z_mod_plus_full.
Qed.

Lemma initCustomSecret_loop_content lanes n seeds customSecret seed :
  (n * lanes)%nat = 24%nat → (0 < lanes)%nat → length customSecret = 192%nat →
  length seeds = lanes →
  concat ((λ i, mm_add_epi64 (secret_lane <$> seq (i * lanes) lanes) seeds ≫= le_split 8) <$> seq 0 n)
    = seeded_secret seed →
  initCustomSecret_loop lanes seeds customSecret = Some (seeded_secret seed).
Proof.
  intros Hn Hl0 Hl Hseeds Hcontent. unfold initCustomSecret_loop.
  replace (24 / lanes)%nat with n by (rewrite <-Hn; symmetry; apply Nat.div_mul; lia).
  rewrite (write_chunks (8 * lanes) n (λ i, mm_add_epi64 (secret_lane <$> seq (i * lanes) lanes) seeds ≫= le_split 8)).
  - rewrite Hcontent, drop_ge, app_nil_r by lia. done.
  - intros i Hi. assert (Hb : ∀ l : list Z, length (l ≫= le_split 8) = (8 * length l)%nat).
    { intros l. induction l as [|x l IH]; [done|]. rewrite bind_cons, length_app, length_le_split, IH. cbn [length]. lia. }
    rewrite Hb. unfold mm_add_epi64. rewrite length_zip_with, length_fmap, length_seq, Hseeds. lia.
  - lia.
  - intros i q Hi Hq. unfold loadu.
    assert (mapM (λ j : nat, load_le 8 XXH3_kSecret (8 * Z.of_nat lanes * Z.of_nat i + 8 * Z.of_nat j)) (seq 0 lanes)
            = Some (secret_lane <$> seq (i * lanes) lanes)) as ->.
    { apply mapM_Some, Forall2_same_length_lookup_2; [by rewrite length_fmap, !length_seq|].
      intros j x y (-> & Hj)%lookup_seq (z & -> & (-> & _)%lookup_seq)%list_lookup_fmap_Some.
      apply secret_lane_ok; nia. }
    cbn [mbind option_bind]. f_equal. lia.
Qed.

Lemma vector_secret lanes n seeds customSecret seed :
  (n * lanes)%nat = 24%nat → length customSecret = 192%nat →
  (lanes = 2%nat ∧ seeds = [seed; u64 (- seed)] ∨
   lanes = 4%nat ∧ seeds = [seed; u64 (- seed); seed; u64 (- seed)] ∨
   lanes = 8%nat ∧ seeds = [seed; u64 (- seed); seed; u64 (- seed); seed; u64 (- seed); seed; u64 (- seed)]) →
  initCustomSecret_loop lanes seeds customSecret = Some (seeded_secret seed).
Proof.
  intros Hn Hl Hcase. apply (initCustomSecret_loop_content lanes n); [done|lia|done|by destruct Hcase as [[-> ->]|[[-> ->]|[-> ->]]]|].
  assert (Hw : ∀ j, le_split 8 (u64 (secret_lane j + u64 (- seed))) = le_split 8 (u64 (secret_lane j - seed))).
  { intros j. by rewrite wrap_add_r. }
  unfold seeded_secret, seeded_word.
  assert (Hn' : n = 12%nat ∨ n = 6%nat ∨ n = 3%nat) by lia.
  destruct Hcase as [[-> ->]|[[-> ->]|[-> ->]]]; destruct Hn' as [->|[->| ->]]; try lia;
    cbn [seq fmap list_fmap concat mm_add_epi64 zip_with mbind list_bind Nat.even Nat.mul Nat.add app];
    by rewrite !Hw, ?app_nil_r, <-!app_assoc.
Qed.

(** ** The targets obey the laws *)

(** What is left is to name the two loops a target runs. *)
Lemma vector_laws (V : XXH_VECTOR) m n :
  (n * (2 * m))%nat = 8%nat →
  (∀ acc input p secret s,
     @XXH3_accumulate_512 V acc input p secret s = accumulate_512_loop (2 * m) acc input p secret s) →
  (∀ acc secret s, @XXH3_scrambleAcc V acc secret s = scrambleAcc_loop (2 * m) acc secret s) →
  (∀ customSecret seed, length customSecret = 192%nat → fits 64 seed → seed ≠ 2 ^ 63 →
     @XXH3_initCustomSecret V customSecret seed = Some (seeded_secret seed)) →
  XXH_VectorLaws V.
Proof.
  intros Hmn Hacc Hscr Hinit. split.
  - intros acc input p secret s Hwf Hp Hpi Hs Hss. rewrite Hacc.
    destruct (stripe_words input p) as (d & Hd & Fd & Hin); [done..|].
    destruct (stripe_words secret s) as (k & Hk & _ & Hsec); [done..|].
    destruct Hwf as [Hla _]. unfold XXH_ACC_NB in Hla.
    by rewrite (accumulate_loop_lanes m n Hmn d k), (accumulate_scalar_lanes d k).
  - intros acc secret s Hwf Hs Hss. rewrite Hscr.
    destruct (stripe_words secret s) as (k & Hk & Fk & Hsec); [done..|].
    rewrite (scrambleAcc_loop_lanes m n Hmn k) by done. symmetry. apply scramble_scalar_lanes; [|done..].
    by destruct Hwf.
  - intros customSecret seed Hl Hseed Hne. unfold XXH_SECRET_DEFAULT_SIZE in Hl.
    rewrite Hinit, initCustomSecret_scalar_content by (done || lia). done.
Qed.

#[export] Instance XXH_SSE2_laws : XXH_VectorLaws XXH_SSE2.
Proof.
  apply (vector_laws _ 1 4); [done..|]. intros customSecret seed Hl Hs Hne.
  cbn. unfold XXH3_initCustomSecret_sse2. rewrite neg_i64_ok by done.
  apply (vector_secret 2 12); [done..|]. by left.
Qed.

#[export] Instance XXH_AVX2_laws : XXH_VectorLaws XXH_AVX2.
Proof.
  apply (vector_laws _ 2 2); [done..|]. intros customSecret seed Hl Hs Hne.
  cbn. unfold XXH3_initCustomSecret_avx2. rewrite neg_i64_ok by done.
  apply (vector_secret 4 6); [done..|]. by right; left.
Qed.

(** AVX-512 needs one register and no loop. *)
Lemma single_turn {A} (body : Z → A → option A) (f : A → option A) a :
  (∀ a, body 0 a = f a) → for_loop 1 0 body a = f a.
Proof. intros Hf. cbn [for_loop]. by rewrite Hf, bind_with_Some. Qed.

#[export] Instance XXH_AVX512_laws : XXH_VectorLaws XXH_AVX512.
Proof.
  apply (vector_laws _ 4 1); [done|..].
  - intros acc input p secret s. symmetry.
    apply (single_turn _ (λ a, XXH3_accumulate_512_avx512 a input p secret s)). intros a.
    cbv beta zeta. by rewrite !Z.mul_0_r, !Z.add_0_r.
  - intros acc secret s. symmetry.
    apply (single_turn _ (λ a, XXH3_scrambleAcc_avx512 a secret s)). intros a.
    cbv beta zeta. by rewrite !Z.mul_0_r, !Z.add_0_r.
  - intros customSecret seed Hl Hs Hne.
    cbn. unfold XXH3_initCustomSecret_avx512. rewrite neg_i64_ok by done.
    apply (vector_secret 8 3); [done..|]. by right; right.
Qed.

(** ** The entry points *)

Lemma length_seeded_secret seed : length (seeded_secret seed) = 192%nat.
Proof. unfold seeded_secret, seeded_word. cbn [seq fmap list_fmap concat]. rewrite !length_app, !length_le_split. done. Qed.

Section entry_points.
Context {V : XXH_VECTOR} {VL : XXH_VectorLaws V}.

Lemma vec_initSecret_content customSecret seed :
  length customSecret = 192%nat → fits 64 seed → seed ≠ 2 ^ 63 →
  XXH3_initCustomSecret customSecret seed = Some (seeded_secret seed).
Proof using VL.
  intros Hl Hs Hne. rewrite vec_initSecret by (done || (unfold XXH_SECRET_DEFAULT_SIZE; lia)).
  by apply initCustomSecret_scalar_content.
Qed.

Lemma withSecret_ok input secret :
  let len := Z.of_nat (length input) in
  XXH3_SECRET_SIZE_MIN ≤ Z.of_nat (length secret) →
  ∃ h, @XXH3_64bits_withSecret V input len secret = Some h ∧
       @XXH3_64bits_withSecret XXH_SCALAR input len secret = Some h ∧ fits 64 h.
Proof using VL.
  intros len Hsec. apply XXH3_64bits_internal_ok; [done|split; lia|]. intros Hlen.
  apply hashLong_64b_internal_ok; [done|fold len; lia].
Qed.

Lemma withSeed_ok input seed :
  let len := Z.of_nat (length input) in
  fits 64 seed → seed ≠ 2 ^ 63 →
  ∃ h, @XXH3_64bits_withSeed V input len seed = Some h ∧
       @XXH3_64bits_withSeed XXH_SCALAR input len seed = Some h ∧ fits 64 h.
Proof using VL.
  intros len Hs Hne. apply XXH3_64bits_internal_ok; [vm_compute; congruence|done|]. intros Hlen.
  unfold XXH3_hashLong_64b_withSeed, XXH3_hashLong_64b_withSeed_internal.
  destruct (seed =? 0).
  - apply hashLong_64b_internal_ok; [vm_compute; congruence|fold len; lia].
  - rewrite vec_initSecret_content by done. unfold XXH_SCALAR. cbn [XXH3_initCustomSecret].
    rewrite initCustomSecret_scalar_content by done. cbn [mbind option_bind].
    apply hashLong_64b_internal_ok; [|fold len; lia].
    rewrite length_seeded_secret. unfold XXH3_SECRET_SIZE_MIN. lia.
Qed.

(** The default secret is what [XXH3_64bits] and the seed 0 use. *)
Lemma withSecret_default input len : XXH3_64bits_withSecret input len XXH3_kSecret = XXH3_64bits input len.
Proof. done. Qed.

Lemma withSeed_zero input len : XXH3_64bits_withSeed input len 0 = XXH3_64bits input len.
Proof. done. Qed.
End entry_points.

(** C15: For every key, every secret of at least 136 bytes and every seed but 2^63, the vector code
    (SSE2, AVX2, AVX-512) returns a hash and it is the one of the scalar code. *)
Theorem xxh3_targets_agree V input secret seed :
  let len := Z.of_nat (length input) in
  V ∈ [XXH_SSE2; XXH_AVX2; XXH_AVX512] →
  XXH3_SECRET_SIZE_MIN ≤ Z.of_nat (length secret) → fits 64 seed → seed ≠ 2 ^ 63 →
  (∃ h, @XXH3_64bits V input len = Some h ∧ @XXH3_64bits XXH_SCALAR input len = Some h) ∧
  (∃ h, @XXH3_64bits_withSecret V input len secret = Some h ∧
        @XXH3_64bits_withSecret XXH_SCALAR input len secret = Some h) ∧
  (∃ h, @XXH3_64bits_withSeed V input len seed = Some h ∧
        @XXH3_64bits_withSeed XXH_SCALAR input len seed = Some h).
Proof.
  intros len HV Hsec Hs Hne.
  assert (XXH_VectorLaws V).
  { rewrite !elem_of_cons, elem_of_nil in HV. destruct HV as [->|[->|[->|[]]]]; apply _. }
  split_and!.
  - destruct (withSecret_ok input XXH3_kSecret) as (h & Hh & Hh' & _); [vm_compute; congruence|by exists h].
  - destruct (withSecret_ok input secret) as (h & Hh & Hh' & _); [done|by exists h].
  - destruct (withSeed_ok input seed) as (h & Hh & Hh' & _); [done..|by exists h].
Qed.

Lemma xxh3_targets_agree_witness :
  (∃ h, @XXH3_64bits XXH_AVX2 (XXH3_kSecret ++ XXH3_kSecret) 384 = Some h ∧
        @XXH3_64bits XXH_SCALAR (XXH3_kSecret ++ XXH3_kSecret) 384 = Some h) ∧
  (∃ h, @XXH3_64bits_withSecret XXH_AVX2 (XXH3_kSecret ++ XXH3_kSecret) 384 (drop 1 XXH3_kSecret) = Some h ∧
        @XXH3_64bits_withSecret XXH_SCALAR (XXH3_kSecret ++ XXH3_kSecret) 384 (drop 1 XXH3_kSecret) = Some h) ∧
  (∃ h, @XXH3_64bits_withSeed XXH_AVX2 (XXH3_kSecret ++ XXH3_kSecret) 384 7 = Some h ∧
        @XXH3_64bits_withSeed XXH_SCALAR (XXH3_kSecret ++ XXH3_kSecret) 384 7 = Some h).
Proof.
  apply (xxh3_targets_agree XXH_AVX2 (XXH3_kSecret ++ XXH3_kSecret) (drop 1 XXH3_kSecret) 7).
  - apply elem_of_cons. right. apply elem_of_cons. left. reflexivity.
  - vm_compute. congruence.
  - split; lia.
  - lia.
Defined.

(** With the seed 2^63 the vector code negates the least [int64_t], which overflows; the scalar
    code is defined. *)
Theorem vector_seed_overflow customSecret :
  XXH3_initCustomSecret_sse2 customSecret (2 ^ 63) = None ∧
  XXH3_initCustomSecret_avx2 customSecret (2 ^ 63) = None ∧
  XXH3_initCustomSecret_avx512 customSecret (2 ^ 63) = None ∧
  (length customSecret = 192%nat → ∃ s, XXH3_initCustomSecret_scalar customSecret (2 ^ 63) = Some s).
Proof.
  split_and!; [reflexivity..|]. intros Hl. rewrite initCustomSecret_scalar_content by done. eauto.
Qed.
