(* ===== verification/Xxh3Stream.v ===== *)
(** * The streaming interface of XXH3 (src/include/hash/orig_xhash.hh)

    A state collects the key in a buffer of 256 bytes and accumulates it four stripes at a
    time, always leaving at least one byte in the buffer; a digest finishes a copy of the
    accumulators. Over every sequence of resets, updates and digests the digests are the
    hashes of the bytes since the last reset. *)
From S2P Require Import Prelude Words Xxh3 Xxh3Vector.

(** ** The state and its operations *)

Inductive XXH_errorcode := XXH_OK | XXH_ERROR.

Definition XXH3_INTERNALBUFFER_SIZE : Z := 256.
Definition XXH3_INTERNALBUFFER_STRIPES : Z := XXH3_INTERNALBUFFER_SIZE `div` XXH_STRIPE_LEN.

(** [XXH3_state_s]; [extSecret] points to memory of the caller, or is null. *)
Record XXH3_state := XXH3_state_s {
  acc_ : list Z;
  customSecret : bytes;
  buffer : bytes;
  bufferedSize : Z;
  nbStripesSoFar : Z;
  totalLen : Z;
  nbStripesPerBlock : Z;
  secretLimit : Z;
  seed_ : Z;
  extSecret : option bytes;
}.

Definition set_buffer (st : XXH3_state) (buf : bytes) (size : Z) : XXH3_state :=
  XXH3_state_s (acc_ st) (customSecret st) buf size (nbStripesSoFar st) (totalLen st)
    (nbStripesPerBlock st) (secretLimit st) (seed_ st) (extSecret st).

Definition set_acc (st : XXH3_state) (acc : list Z) (soFar : Z) : XXH3_state :=
  XXH3_state_s acc (customSecret st) (buffer st) (bufferedSize st) soFar (totalLen st)
    (nbStripesPerBlock st) (secretLimit st) (seed_ st) (extSecret st).

Definition set_totalLen (st : XXH3_state) (len : Z) : XXH3_state :=
  XXH3_state_s (acc_ st) (customSecret st) (buffer st) (bufferedSize st) (nbStripesSoFar st) len
    (nbStripesPerBlock st) (secretLimit st) (seed_ st) (extSecret st).

Definition set_customSecret (st : XXH3_state) (secret : bytes) : XXH3_state :=
  XXH3_state_s (acc_ st) secret (buffer st) (bufferedSize st) (nbStripesSoFar st) (totalLen st)
    (nbStripesPerBlock st) (secretLimit st) (seed_ st) (extSecret st).

(** [XXH3_INITSTATE] *)
Definition XXH3_INITSTATE (st : XXH3_state) : XXH3_state :=
  XXH3_state_s (acc_ st) (customSecret st) (buffer st) (bufferedSize st) (nbStripesSoFar st) (totalLen st)
    (nbStripesPerBlock st) (secretLimit st) 0 (extSecret st).

(** The memory that the allocation returns, if it does. *)
Definition XXH3_createState (mem : option XXH3_state) : option XXH3_state :=
  match mem with
  | None => None
  | Some st => Some (XXH3_INITSTATE st)
  end.

Definition XXH3_copyState (dst_state src_state : XXH3_state) : XXH3_state := src_state.

Definition XXH3_reset_internal (st : XXH3_state) (seed : Z) (secret : option bytes) (secretSize : Z)
    : XXH3_state :=
  let limit := u64 (secretSize - XXH_STRIPE_LEN) in
  XXH3_state_s XXH3_INIT_ACC (customSecret st) (buffer st) 0 0 0
    (limit `div` XXH_SECRET_CONSUME_RATE) limit seed secret.

Definition XXH3_64bits_reset (statePtr : option XXH3_state) : XXH_errorcode * option XXH3_state :=
  match statePtr with
  | None => (XXH_ERROR, None)
  | Some st => (XXH_OK, Some (XXH3_reset_internal st 0 (Some XXH3_kSecret) XXH_SECRET_DEFAULT_SIZE))
  end.

Definition XXH3_64bits_reset_withSecret (statePtr : option XXH3_state) (secret : option bytes)
    (secretSize : Z) : XXH_errorcode * option XXH3_state :=
  match statePtr with
  | None => (XXH_ERROR, None)
  | Some st =>
      let st := XXH3_reset_internal st 0 secret secretSize in
      match secret with
      | None => (XXH_ERROR, Some st)
      | Some _ => (if secretSize <? XXH3_SECRET_SIZE_MIN then XXH_ERROR else XXH_OK, Some st)
      end
  end.

(** The stripes go to [acc], [nbStripesSoFar] of them since the last scramble. *)
Definition XXH3_consumeStripes (acc : list Z) (soFar perBlock : Z) (input : bytes) (p nbStripes : Z)
    (secret : bytes) (limit : Z) (f_acc512 : XXH3_f_accumulate_512) (f_scramble : XXH3_f_scrambleAcc)
    : option (list Z * Z) :=
  if u64 (perBlock - soFar) <=? nbStripes then
    let nbStripesToEndofBlock := u64 (perBlock - soFar) in
    let nbStripesAfterBlock := u64 (nbStripes - nbStripesToEndofBlock) in
    acc ← XXH3_accumulate acc input p secret (soFar * XXH_SECRET_CONSUME_RATE) nbStripesToEndofBlock f_acc512;
    acc ← f_scramble acc secret limit;
    acc ← XXH3_accumulate acc input (p + nbStripesToEndofBlock * XXH_STRIPE_LEN) secret 0
            nbStripesAfterBlock f_acc512;
    Some (acc, nbStripesAfterBlock)
  else
    acc ← XXH3_accumulate acc input p secret (soFar * XXH_SECRET_CONSUME_RATE) nbStripes f_acc512;
    Some (acc, soFar + nbStripes).

Definition state_secret (st : XXH3_state) : bytes :=
  match extSecret st with None => customSecret st | Some secret => secret end.

(** [do body while (cond)] *)
Definition do_while {S} (fuel : nat) (cond : S → bool) (body : S → option S) (s : S) : option S :=
  s ← body s; while fuel cond body s.

Section streaming.
Context `{V : XXH_VECTOR}.

Definition XXH3_64bits_reset_withSeed (statePtr : option XXH3_state) (seed : Z)
    : option (XXH_errorcode * option XXH3_state) :=
  match statePtr with
  | None => Some (XXH_ERROR, None)
  | Some st =>
      if seed =? 0 then Some (XXH3_64bits_reset statePtr)
      else
        st ← (if negb (seed =? seed_ st) then
                set_customSecret st <$> XXH3_initCustomSecret (customSecret st) seed
              else Some st);
        Some (XXH_OK, Some (XXH3_reset_internal st seed None XXH_SECRET_DEFAULT_SIZE))
  end.

(** Completes the buffer with the first bytes of the input and consumes it; the state and
    what of the input is used. *)
Definition fill_buffer (st : XXH3_state) (input : bytes) (secret : bytes) : option (XXH3_state * Z) :=
  if bufferedSize st =? 0 then Some (st, 0)
  else
    let loadSize := u64 (XXH3_INTERNALBUFFER_SIZE - bufferedSize st) in
    src ← slice input 0 (Z.to_nat loadSize);
    buf ← write_at (buffer st) (bufferedSize st) src;
    '(acc, soFar) ← XXH3_consumeStripes (acc_ st) (nbStripesSoFar st) (nbStripesPerBlock st)
       buf 0 XXH3_INTERNALBUFFER_STRIPES secret (secretLimit st) XXH3_accumulate_512 XXH3_scrambleAcc;
    Some (set_buffer (set_acc st acc soFar) buf 0, loadSize).

(** Consumes the input by whole buffers. *)
Definition consume_input (st : XXH3_state) (input : bytes) (p len : Z) (secret : bytes)
    : option (XXH3_state * Z) :=
  if p + XXH3_INTERNALBUFFER_SIZE <? len then
    let limit := len - XXH3_INTERNALBUFFER_SIZE in
    '(st, p) ← do_while (Z.to_nat (len `div` XXH3_INTERNALBUFFER_SIZE)) (λ '(_, p), p <? limit)
      (λ '(st, p),
         '(acc, soFar) ← XXH3_consumeStripes (acc_ st) (nbStripesSoFar st) (nbStripesPerBlock st)
            input p XXH3_INTERNALBUFFER_STRIPES secret (secretLimit st) XXH3_accumulate_512 XXH3_scrambleAcc;
         Some (set_acc st acc soFar, p + XXH3_INTERNALBUFFER_SIZE)) (st, p);
    src ← slice input (p - XXH_STRIPE_LEN) (Z.to_nat XXH_STRIPE_LEN);
    buf ← write_at (buffer st) (XXH3_INTERNALBUFFER_SIZE - XXH_STRIPE_LEN) src;
    Some (set_buffer st buf (bufferedSize st), p)
  else Some (st, p).

Definition XXH3_update (st : XXH3_state) (input : option bytes) (len : Z)
    : option (XXH_errorcode * XXH3_state) :=
  match input with
  | None => Some (XXH_ERROR, st)
  | Some input =>
      let secret := state_secret st in
      let st := set_totalLen st (u64 (totalLen st + len)) in
      if u64 (bufferedSize st + len) <=? XXH3_INTERNALBUFFER_SIZE then
        src ← slice input 0 (Z.to_nat len);
        buf ← write_at (buffer st) (bufferedSize st) src;
        Some (XXH_OK, set_buffer st buf (u32 (bufferedSize st + u32 len)))
      else
        '(st, p) ← fill_buffer st input secret;
        '(st, p) ← consume_input st input p len secret;
        src ← slice input p (Z.to_nat (len - p));
        buf ← write_at (buffer st) 0 src;
        Some (XXH_OK, set_buffer st buf (u32 (len - p)))
  end.

Definition XXH3_64bits_update (st : XXH3_state) (input : option bytes) (len : Z)
    : option (XXH_errorcode * XXH3_state) :=
  XXH3_update st input len.

(** On a copy of the accumulators. *)
Definition XXH3_digest_long (st : XXH3_state) (secret : bytes) : option (list Z) :=
  let acc := acc_ st in
  if XXH_STRIPE_LEN <=? bufferedSize st then
    let nbStripes := (bufferedSize st - 1) `div` XXH_STRIPE_LEN in
    '(acc, _) ← XXH3_consumeStripes acc (nbStripesSoFar st) (nbStripesPerBlock st)
       (buffer st) 0 nbStripes secret (secretLimit st) XXH3_accumulate_512 XXH3_scrambleAcc;
    XXH3_accumulate_512 acc (buffer st) (bufferedSize st - XXH_STRIPE_LEN)
      secret (secretLimit st - XXH_SECRET_LASTACC_START)
  else
    let catchupSize := XXH_STRIPE_LEN - bufferedSize st in
    old ← slice (buffer st) (XXH3_INTERNALBUFFER_SIZE - catchupSize) (Z.to_nat catchupSize);
    new ← slice (buffer st) 0 (Z.to_nat (bufferedSize st));
    XXH3_accumulate_512 acc (old ++ new) 0 secret (secretLimit st - XXH_SECRET_LASTACC_START).

Definition XXH3_64bits_digest (st : XXH3_state) : option Z :=
  let secret := state_secret st in
  if XXH3_MIDSIZE_MAX <? totalLen st then
    acc ← XXH3_digest_long st secret;
    XXH3_mergeAccs acc secret XXH_SECRET_MERGEACCS_START (u64 (totalLen st * XXH_PRIME64_1))
  else if negb (seed_ st =? 0) then XXH3_64bits_withSeed (buffer st) (totalLen st) (seed_ st)
  else XXH3_64bits_withSecret (buffer st) (totalLen st)
         (take (Z.to_nat (u64 (secretLimit st + XXH_STRIPE_LEN))) secret).

(** ** Sequences of operations *)

Inductive stream_op :=
  | OpReset
  | OpReset_withSeed (seed : Z)
  | OpReset_withSecret (secret : bytes)
  | OpUpdate (input : bytes)
  | OpDigest.

Inductive outcome := Code (c : XXH_errorcode) | Hash (h : Z).

Definition stream_step (st : XXH3_state) (o : stream_op) : option (XXH3_state * outcome) :=
  let reset r := match r with (c, Some st) => Some (st, Code c) | (_, None) => None end in
  match o with
  | OpReset => reset (XXH3_64bits_reset (Some st))
  | OpReset_withSeed seed => r ← XXH3_64bits_reset_withSeed (Some st) seed; reset r
  | OpReset_withSecret secret =>
      reset (XXH3_64bits_reset_withSecret (Some st) (Some secret) (Z.of_nat (length secret)))
  | OpUpdate input =>
      '(c, st) ← XXH3_64bits_update st (Some input) (Z.of_nat (length input)); Some (st, Code c)
  | OpDigest => h ← XXH3_64bits_digest st; Some (st, Hash h)
  end.

Fixpoint stream_run (st : XXH3_state) (ops : list stream_op) : option (list outcome) :=
  match ops with
  | [] => Some []
  | o :: ops => '(st, r) ← stream_step st o; rs ← stream_run st ops; Some (r :: rs)
  end.
End streaming.

(** *** The specification: the bytes since the last reset, hashed at once *)
Inductive stream_cfg := Seeded (seed : Z) | WithSecret (secret : bytes).

Definition one_shot (c : stream_cfg) (data : bytes) : option Z :=
  match c with
  | Seeded seed => @XXH3_64bits_withSeed XXH_SCALAR data (Z.of_nat (length data)) seed
  | WithSecret secret => @XXH3_64bits_withSecret XXH_SCALAR data (Z.of_nat (length data)) secret
  end.

Definition stream_spec_step (c : stream_cfg) (data : bytes) (o : stream_op)
    : option (stream_cfg * bytes * outcome) :=
  match o with
  | OpReset => Some (Seeded 0, [], Code XXH_OK)
  | OpReset_withSeed seed => Some (Seeded seed, [], Code XXH_OK)
  | OpReset_withSecret secret => Some (WithSecret secret, [], Code XXH_OK)
  | OpUpdate input => Some (c, data ++ input, Code XXH_OK)
  | OpDigest => h ← one_shot c data; Some (c, data, Hash h)
  end.

Fixpoint stream_spec_run (c : stream_cfg) (data : bytes) (ops : list stream_op) : option (list outcome) :=
  match ops with
  | [] => Some []
  | o :: ops => '(c, data, r) ← stream_spec_step c data o; rs ← stream_spec_run c data ops; Some (r :: rs)
  end.

(** Seeds are words, and not the one whose negation overflows in the vector code; secrets have
    at least 136 bytes. *)
Definition stream_op_ok (o : stream_op) : Prop :=
  match o with
  | OpReset_withSeed seed => fits 64 seed ∧ seed ≠ 2 ^ 63
  | OpReset_withSecret secret => XXH3_SECRET_SIZE_MIN ≤ Z.of_nat (length secret) < 2 ^ 62
  | _ => True
  end.

Definition op_bytes (o : stream_op) : Z :=
  match o with OpUpdate input => Z.of_nat (length input) | _ => 0 end.

Definition total_bytes (ops : list stream_op) : Z := foldr (λ o n, op_bytes o + n) 0 ops.

Definition is_reset (o : stream_op) : bool :=
  match o with OpUpdate _ | OpDigest => false | _ => true end.

(** The arrays of a state have their sizes; their contents do not matter. *)
Definition state_memory (st : XXH3_state) : Prop :=
  length (customSecret st) = 192%nat ∧ length (buffer st) = 256%nat.

(** ** Stripes

    What the one-shot loop and the streaming code both do: the stripe [k] of the key meets the
    secret at [8 * (k mod perBlock)], and the lanes are scrambled after the last stripe of a
    block. *)

(** The accumulation of a stripe depends on its 64 bytes only. *)
Lemma accumulate_local acc inp p inp' p' secret s l :
  slice inp p 64 = Some l → slice inp' p' 64 = Some l →
  XXH3_accumulate_512_scalar acc inp p secret s = XXH3_accumulate_512_scalar acc inp' p' secret s.
Proof.
  intros Hl Hl'. unfold XXH3_accumulate_512_scalar, XXH_readLE64, XXH_ACC_NB.
  apply for_loop_body_ext. intros i t Hi.
  by rewrite (load_le_slice 8 inp p 64 l), (load_le_slice 8 inp' p' 64 l) by (done || lia).
Qed.

Lemma slice_app_r {A} (x y : list A) o n :
  0 ≤ o → slice (x ++ y) (Z.of_nat (length x) + o) n = slice y o n.
Proof.
  intros Ho. unfold slice. rewrite length_app.
  rewrite !(proj2 (Z.leb_le 0 _)) by lia. cbn [andb].
  replace (Z.of_nat (length x) + o + Z.of_nat n <=? Z.of_nat (length x + length y))
    with (o + Z.of_nat n <=? Z.of_nat (length y)) by (apply eq_true_iff_eq; rewrite !Z.leb_le; lia).
  destruct (_ <=? _); [|done]. do 2 f_equal. rewrite drop_app_ge by lia. f_equal. lia.
Qed.

(** [n] stripes of [inp] from [p] are those of [data] from number [k0] on. *)
Definition same_stripes (inp : bytes) (p : Z) (data : bytes) (k0 n : Z) : Prop :=
  ∀ i, 0 ≤ i < n → ∃ l, slice inp (p + i * 64) 64 = Some l ∧ slice data (64 * (k0 + i)) 64 = Some l.

Lemma same_stripes_self data k0 n :
  0 ≤ k0 → 64 * (k0 + n) ≤ Z.of_nat (length data) → same_stripes data (64 * k0) data k0 n.
Proof.
  intros Hk Hn i Hi. replace (64 * k0 + i * 64) with (64 * (k0 + i)) by lia.
  eexists. rewrite slice_in_bounds by lia. done.
Qed.

Lemma same_stripes_shift inp p data k0 n m :
  0 ≤ m → same_stripes inp p data k0 (m + n) → same_stripes inp (p + m * 64) data (k0 + m) n.
Proof.
  intros Hm Hs i Hi. destruct (Hs (m + i)) as (l & Hl & Hl'); [lia|]. exists l.
  split; [rewrite <-Hl|rewrite <-Hl']; f_equal; lia.
Qed.

Lemma same_stripes_weaken inp p data k0 n n' :
  n ≤ n' → same_stripes inp p data k0 n' → same_stripes inp p data k0 n.
Proof. intros Hn Hs i Hi. apply Hs. lia. Qed.

Definition secret_limit (secret : bytes) : Z := Z.of_nat (length secret) - XXH_STRIPE_LEN.
Definition per_block (secret : bytes) : Z := secret_limit secret `div` XXH_SECRET_CONSUME_RATE.

Section stripes.
Context (secret : bytes) (Hsec : XXH3_SECRET_SIZE_MIN ≤ Z.of_nat (length secret)).
Abbreviation size := (Z.of_nat (length secret)).
Abbreviation limit := (secret_limit secret).
Abbreviation nb := (per_block secret).

Lemma nb_bounds : 9 ≤ nb ∧ 8 * nb + 64 ≤ size.
Proof using Hsec.
  unfold per_block, secret_limit, XXH3_SECRET_SIZE_MIN, XXH_STRIPE_LEN, XXH_SECRET_CONSUME_RATE in *. div_lia.
Qed.

Definition stripe_step (data : bytes) (k : Z) (acc : list Z) : option (list Z) :=
  acc ← XXH3_accumulate_512_scalar acc data (64 * k) secret (8 * (k `mod` nb));
  if (k + 1) `mod` nb =? 0 then XXH3_scrambleAcc_scalar acc secret limit else Some acc.

Definition stripes (data : bytes) (n : Z) : option (list Z) :=
  for_loop (Z.to_nat n) 0 (stripe_step data) XXH3_INIT_ACC.

Lemma stripe_step_ok data k acc :
  0 ≤ k → 64 * k + 64 ≤ Z.of_nat (length data) → lanes_wf acc →
  ∃ acc', stripe_step data k acc = Some acc' ∧ lanes_wf acc'.
Proof using Hsec.
  intros Hk Hd Hacc. pose proof nb_bounds as [Hnb Hsz]. unfold stripe_step.
  pose proof (Z.mod_pos_bound k nb ltac:(lia)).
  destruct (accumulate_scalar_ok acc data (64 * k) secret (8 * (k `mod` nb))) as (a & -> & Ha);
    [done|lia..|]. cbn [mbind option_bind].
  destruct (_ =? _); [|by eauto]. apply scramble_scalar_ok; [done|unfold secret_limit, XXH_STRIPE_LEN; lia..].
Qed.

Lemma stripes_ok data n k0 acc :
  0 ≤ k0 → 0 ≤ n → 64 * (k0 + n) ≤ Z.of_nat (length data) → lanes_wf acc →
  ∃ acc', for_loop (Z.to_nat n) k0 (stripe_step data) acc = Some acc' ∧ lanes_wf acc'.
Proof using Hsec.
  intros Hk Hn Hd Hacc. apply (for_loop_total (λ _, lanes_wf)); [done|].
  intros j a Hj Ha. apply stripe_step_ok; [lia..|done].
Qed.

(** The bytes that follow do not matter. *)
Lemma stripes_app data more n :
  64 * n ≤ Z.of_nat (length data) → stripes (data ++ more) n = stripes data n.
Proof.
  intros Hn. unfold stripes. apply for_loop_body_ext. intros j t Hj. unfold stripe_step.
  rewrite (accumulate_local t (data ++ more) (64 * j) data (64 * j) secret _ (take 64 (drop (Z.to_nat (64 * j)) data))); [done| |].
  - rewrite slice_prefix by lia. apply slice_in_bounds; lia.
  - apply slice_in_bounds; lia.
Qed.

Lemma mod_step k j : 0 ≤ k → 0 ≤ j → k `mod` nb + j < nb → (k + j) `mod` nb = k `mod` nb + j.
Proof using Hsec.
  intros Hk Hj Hlt. pose proof nb_bounds as [Hnb _]. pose proof (Z.mod_pos_bound k nb ltac:(lia)).
  rewrite <-Zplus_mod_idemp_l. apply Z.mod_small. lia.
Qed.

(** Stripes inside a block. *)
Lemma accumulate_in_block acc inp p data k0 n :
  0 ≤ k0 → 0 ≤ n → k0 `mod` nb + n < nb → same_stripes inp p data k0 n →
  XXH3_accumulate acc inp p secret (8 * (k0 `mod` nb)) n XXH3_accumulate_512_scalar =
  for_loop (Z.to_nat n) k0 (stripe_step data) acc.
Proof using Hsec.
  intros Hk Hn Hlt Hs. unfold XXH3_accumulate, XXH_STRIPE_LEN, XXH_SECRET_CONSUME_RATE.
  apply (for_loop_ext _ _ _ 0 k0). intros j t Hj.
  destruct (Hs j) as (l & Hl & Hl'); [lia|]. unfold stripe_step.
  rewrite (accumulate_local t inp (p + j * 64) data (64 * (k0 + j)) secret _ l) by done.
  rewrite (Z.add_comm j k0), (mod_step k0 j) by lia.
  replace (8 * (k0 `mod` nb) + j * 8) with (8 * (k0 `mod` nb + j)) by lia.
  rewrite <-(Z.add_assoc k0 j 1), (mod_step k0 (j + 1)) by lia.
  pose proof nb_bounds as [Hnb _]. pose proof (Z.mod_pos_bound k0 nb ltac:(lia)).
  rewrite (proj2 (Z.eqb_neq _ 0)) by lia. by rewrite bind_with_Some.
Qed.

(** Stripes up to the end of a block, and the scramble. *)
Lemma accumulate_to_end acc inp p data k0 n :
  0 ≤ k0 → 0 < n → k0 `mod` nb + n = nb → same_stripes inp p data k0 n →
  (acc ← XXH3_accumulate acc inp p secret (8 * (k0 `mod` nb)) n XXH3_accumulate_512_scalar;
   XXH3_scrambleAcc_scalar acc secret limit) =
  for_loop (Z.to_nat n) k0 (stripe_step data) acc.
Proof using Hsec.
  intros Hk Hn Heq Hs. unfold XXH3_accumulate.
  replace (Z.to_nat n) with (S (Z.to_nat (n - 1))) by lia. rewrite !for_loop_snoc.
  change (for_loop (Z.to_nat (n - 1)) 0 _ acc) with
    (XXH3_accumulate acc inp p secret (8 * (k0 `mod` nb)) (n - 1) XXH3_accumulate_512_scalar).
  rewrite (accumulate_in_block acc inp p data k0 (n - 1)) by (try (eapply same_stripes_weaken; [|done]); lia).
  destruct (for_loop (Z.to_nat (n - 1)) k0 _ acc) as [a|]; [|done]. cbn [mbind option_bind].
  unfold stripe_step, XXH_STRIPE_LEN, XXH_SECRET_CONSUME_RATE. rewrite !Z2Nat.id by lia. rewrite Z.add_0_l.
  destruct (Hs (n - 1)) as (l & Hl & Hl'); [lia|].
  rewrite (accumulate_local a inp (p + (n - 1) * 64) data (64 * (k0 + (n - 1))) secret _ l) by done.
  rewrite (mod_step k0 (n - 1)) by lia.
  replace (8 * (k0 `mod` nb) + (n - 1) * 8) with (8 * (k0 `mod` nb + (n - 1))) by lia.
  replace (k0 + (n - 1) + 1) with (k0 + n) by lia.
  replace ((k0 + n) `mod` nb) with 0; [done|].
  rewrite <-Zplus_mod_idemp_l, Heq. symmetry. apply Z_mod_same_full.
Qed.

(** ** The streaming loop and the one-shot loop *)
Section vector.
Context {V : XXH_VECTOR} {VL : XXH_VectorLaws V}.

Lemma vec_accumulate_eq acc inp p s n :
  lanes_wf acc → 0 ≤ n → 0 ≤ s → s + 8 * n + 56 ≤ size →
  (0 < n → 0 ≤ p ∧ p + 64 * n ≤ Z.of_nat (length inp)) →
  XXH3_accumulate acc inp p secret s n XXH3_accumulate_512 =
  XXH3_accumulate acc inp p secret s n XXH3_accumulate_512_scalar.
Proof using VL.
  intros Hacc Hn Hs Hss Hp. destruct (decide (n = 0)) as [->|]; [done|]. destruct Hp; [lia|].
  by destruct (vec_accumulate_ok acc inp p secret s n) as (a & -> & -> & _); [done|lia..|].
Qed.

Lemma consumeStripes_ok acc inp p data k0 n :
  lanes_wf acc → 0 ≤ k0 → 0 ≤ n ≤ nb → size < 2 ^ 63 → 0 ≤ p → p + 64 * n ≤ Z.of_nat (length inp) →
  64 * (k0 + n) ≤ Z.of_nat (length data) → same_stripes inp p data k0 n →
  ∃ acc', for_loop (Z.to_nat n) k0 (stripe_step data) acc = Some acc' ∧ lanes_wf acc' ∧
    XXH3_consumeStripes acc (k0 `mod` nb) nb inp p n secret limit XXH3_accumulate_512 XXH3_scrambleAcc
      = Some (acc', (k0 + n) `mod` nb).
Proof using Hsec VL.
  intros Hacc Hk Hn Hsz Hp Hpi Hd Hs. pose proof nb_bounds as [Hnb Hnbs].
  pose proof (Z.mod_pos_bound k0 nb ltac:(lia)) as Hm.
  unfold XXH3_consumeStripes, XXH_SECRET_CONSUME_RATE, XXH_STRIPE_LEN.
  set (e := nb - k0 `mod` nb). rewrite (wrap_small 64 e) by (subst e; split; lia).
  rewrite (Z.mul_comm _ 8). destruct (Z.leb_spec e n) as [Hle|Hlt].
  - rewrite (wrap_small 64 (n - e)) by (subst e; split; lia).
    destruct (stripes_ok data e k0 acc) as (a & Ha & Hwa); [lia..|done|].
    assert (He : (k0 + e) `mod` nb = 0).
    { rewrite <-Zplus_mod_idemp_l. subst e. replace (k0 `mod` nb + (nb - k0 `mod` nb)) with nb by lia. apply Z_mod_same_full. }
    assert (Hne : (k0 + n) `mod` nb = n - e).
    { replace (k0 + n) with ((k0 + e) + (n - e)) by lia. rewrite <-Zplus_mod_idemp_l, He. apply Z.mod_small. lia. }
    rewrite (vec_accumulate_eq acc) by (done || lia).
    pose proof (accumulate_to_end acc inp p data k0 e Hk ltac:(lia) ltac:(lia)
      (same_stripes_weaken _ _ _ _ _ _ Hle Hs)) as Hend.
    rewrite Ha in Hend.
    destruct (XXH3_accumulate acc inp p secret _ e _) as [b|] eqn:Hb; [|done]. cbn [mbind option_bind] in Hend |- *.
    assert (lanes_wf b) as Hwb.
    { destruct (vec_accumulate_ok (V := XXH_SCALAR) acc inp p secret (8 * (k0 `mod` nb)) e) as (b' & Hb' & _ & ?);
        [done|lia..|]. cbn in Hb'. congruence. }
    rewrite vec_scramble by (done || unfold secret_limit, XXH_STRIPE_LEN; lia).
    rewrite Hend. cbn [mbind option_bind].
    destruct (stripes_ok data (n - e) (k0 + e) a) as (a' & Ha' & Hwa'); [lia..|done|].
    rewrite vec_accumulate_eq by (done || lia).
    pose proof (accumulate_in_block a inp (p + e * 64) data (k0 + e) (n - e)) as Hin.
    rewrite He, Z.mul_0_r in Hin. rewrite Hin, Ha' by (try (apply same_stripes_shift; [lia|by replace (e + (n - e)) with n by lia]); lia).
    exists a'. split; [|by rewrite Hne].
    replace (Z.to_nat n) with (Z.to_nat e + Z.to_nat (n - e))%nat by lia.
    rewrite for_loop_app, Ha. cbn [mbind option_bind]. by rewrite Z2Nat.id by lia.
  - destruct (stripes_ok data n k0 acc) as (a & Ha & Hwa); [lia..|done|].
    rewrite vec_accumulate_eq by (done || lia).
    rewrite (accumulate_in_block acc inp p data k0 n), Ha by (done || lia). cbn [mbind option_bind].
    exists a. split_and!; [done..|]. by rewrite mod_step by lia.
Qed.
End vector.

(** The blocks of the one-shot loop. *)
Lemma blocks_stripes data b :
  0 ≤ b → 64 * nb * b ≤ Z.of_nat (length data) →
  for_loop (Z.to_nat b) 0
    (λ n acc, acc ← XXH3_accumulate acc data (n * (XXH_STRIPE_LEN * nb)) secret 0 nb XXH3_accumulate_512_scalar;
              XXH3_scrambleAcc_scalar acc secret limit) XXH3_INIT_ACC =
  stripes data (nb * b).
Proof using Hsec.
  intros Hb Hd. pose proof nb_bounds as [Hnb _]. unfold stripes.
  rewrite <-(Z2Nat.id b) in Hd |- * by done. rewrite Nat2Z.id. revert Hd. clear Hb.
  induction (Z.to_nat b) as [|m IH]; intros Hd; [by rewrite Z.mul_0_r|].
  rewrite for_loop_snoc, IH by lia.
  replace (Z.to_nat (nb * Z.of_nat (S m))) with (Z.to_nat (nb * Z.of_nat m) + Z.to_nat nb)%nat by nia.
  rewrite for_loop_app. destruct (for_loop (Z.to_nat (nb * Z.of_nat m)) 0 _ _) as [a|]; [|done].
  cbn [mbind option_bind]. rewrite !Z.add_0_l, Z2Nat.id by nia.
  assert (Hz : (nb * Z.of_nat m) `mod` nb = 0) by (rewrite Z.mul_comm; apply Z_mod_mult).
  pose proof (accumulate_to_end a data (64 * (nb * Z.of_nat m)) data (nb * Z.of_nat m) nb) as He.
  rewrite Hz, Z.mul_0_r in He. rewrite <-He; [|nia|lia|lia|apply same_stripes_self; nia].
  unfold XXH_STRIPE_LEN. by replace (Z.of_nat m * (64 * nb)) with (64 * (nb * Z.of_nat m)) by lia.
Qed.

(** The one-shot loop is the fold over all stripes but the last, and the last bytes. *)
Lemma hashLong_stripes data :
  let len := Z.of_nat (length data) in
  64 < len →
  XXH3_hashLong_internal_loop XXH3_INIT_ACC data len secret XXH3_accumulate_512_scalar XXH3_scrambleAcc_scalar =
  (acc ← stripes data ((len - 1) `div` 64);
   XXH3_accumulate_512_scalar acc data (len - 64) secret (limit - XXH_SECRET_LASTACC_START)).
Proof using Hsec.
  intros len Hlen. unfold XXH3_hashLong_internal_loop. cbv zeta.
  pose proof (block_counts len size Hsec Hlen) as (Hnb & Hnbs & Hb & Hbl & Hst & Hstl).
  fold (secret_limit secret) in Hnb, Hnbs, Hb, Hbl, Hst, Hstl |- *.
  fold (per_block secret) in Hnb, Hnbs, Hb, Hbl, Hst, Hstl |- *.
  set (b := (len - 1) `div` (XXH_STRIPE_LEN * nb)) in *.
  set (r := (len - 1 - XXH_STRIPE_LEN * nb * b) `div` XXH_STRIPE_LEN) in *.
  rewrite blocks_stripes by (fold len; lia).
  replace ((len - 1) `div` 64) with (nb * b + r) by (apply (Z.div_unique _ _ _ (len - 1 - 64 * (nb * b + r))); lia).
  unfold stripes. rewrite (Z2Nat.inj_add (nb * b) r) by nia. rewrite for_loop_app.
  destruct (for_loop (Z.to_nat (nb * b)) 0 _ _) as [a|]; [|done]. cbn [mbind option_bind].
  rewrite Z.add_0_l, Z2Nat.id by nia.
  pose proof (accumulate_in_block a data (64 * (nb * b)) data (nb * b) r) as Hin.
  rewrite (Z.mul_comm nb b), Z_mod_mult, Z.mul_0_r in Hin.
  rewrite (Z.mul_comm nb b), <-Hin; [|nia|lia|lia|apply same_stripes_self; fold len; nia].
  unfold XXH_STRIPE_LEN. by replace (b * (64 * nb)) with (64 * (b * nb)) by lia.
Qed.
End stripes.

(** ** Short keys: the first bytes of the buffer *)

Lemma XXH3_acc_mix_prefix x z i secret s seed acc :
  i + 16 ≤ Z.of_nat (length x) →
  XXH3_acc_mix (x ++ z) i secret s seed acc = XXH3_acc_mix x i secret s seed acc.
Proof.
  intros Hi. unfold XXH3_acc_mix, XXH3_mix16B, XXH_readLE64. by rewrite !load_le_prefix by lia.
Qed.

Lemma short_prefix x z secret seed f f' :
  let len := Z.of_nat (length x) in
  len ≤ 240 →
  XXH3_64bits_internal (x ++ z) len seed secret f = XXH3_64bits_internal x len seed secret f'.
Proof.
  intros len Hlen. unfold XXH3_64bits_internal, XXH3_MIDSIZE_MAX, XXH3_len_0to16_64b.
  destruct (Z.leb_spec len 16); [|destruct (Z.leb_spec len 128); [|destruct (Z.leb_spec len 240); [|lia]]].
  - destruct (Z.ltb_spec 8 len); [|destruct (Z.leb_spec 4 len); [|destruct (Z.eqb_spec len 0); [done|]]]; cbn [negb].
    + unfold XXH3_len_9to16_64b, XXH_readLE64. by rewrite !(load_le_prefix 8 x) by lia.
    + unfold XXH3_len_4to8_64b, XXH_readLE32. by rewrite !(load_le_prefix 4 x) by lia.
    + assert (Z.shiftr len 1 < len) by (rewrite Z.shiftr_div_pow2 by lia; div_lia).
      unfold XXH3_len_1to3_64b. by rewrite !(load_byte_prefix x) by lia.
  - unfold XXH3_len_17to128_64b. cbv zeta. case_bool; try lia;
      repeat first [done | apply XXH3_acc_mix_prefix; lia | apply option_bind_ext; [intros ?|]].
  - assert (8 ≤ len `div` 16 ∧ 16 * (len `div` 16) ≤ len) as [? ?] by div_lia.
    unfold XXH3_len_129to240_64b. cbv zeta.
    repeat first
      [ done
      | apply XXH3_acc_mix_prefix; lia
      | apply for_loop_body_ext; intros j t Hj; apply XXH3_acc_mix_prefix; lia
      | apply option_bind_ext; [intros ?|] ].
Qed.

(** ** The invariant *)

Definition cfg_seed (c : stream_cfg) : Z := match c with Seeded seed => seed | WithSecret _ => 0 end.

Definition cfg_secret (c : stream_cfg) : bytes :=
  match c with
  | Seeded seed => if seed =? 0 then XXH3_kSecret else seeded_secret seed
  | WithSecret secret => secret
  end.

Definition cfg_ok (c : stream_cfg) : Prop :=
  match c with
  | Seeded seed => fits 64 seed ∧ seed ≠ 2 ^ 63
  | WithSecret secret => XXH3_SECRET_SIZE_MIN ≤ Z.of_nat (length secret) < 2 ^ 62
  end.

Lemma cfg_secret_size c : cfg_ok c → XXH3_SECRET_SIZE_MIN ≤ Z.of_nat (length (cfg_secret c)) < 2 ^ 62.
Proof.
  unfold XXH3_SECRET_SIZE_MIN. destruct c as [seed|secret]; simpl; [|done]. intros _.
  destruct (seed =? 0); [by vm_compute|]. rewrite length_seeded_secret. lia.
Qed.

(** What a reset sets and the other operations keep. *)
Record configured (c : stream_cfg) (st : XXH3_state) : Prop := {
  cf_memory : length (customSecret st) = 192%nat;
  cf_buffer : length (buffer st) = 256%nat;
  cf_seed : seed_ st = cfg_seed c;
  cf_custom : seed_ st ≠ 0 → customSecret st = seeded_secret (seed_ st);
  cf_secret : state_secret st = cfg_secret c;
  cf_limit : secretLimit st = secret_limit (cfg_secret c);
  cf_block : nbStripesPerBlock st = per_block (cfg_secret c);
}.

(** The accumulators stand for [4 * m] stripes, the first [256 * m] bytes, [x]. *)
Record accumulated (c : stream_cfg) (st : XXH3_state) (x : bytes) (m : nat) : Prop := {
  ac_length : length x = (256 * m)%nat;
  ac_lanes : lanes_wf (acc_ st);
  ac_acc : stripes (cfg_secret c) x (4 * Z.of_nat m) = Some (acc_ st);
  ac_soFar : nbStripesSoFar st = (4 * Z.of_nat m) `mod` per_block (cfg_secret c);
}.

(** Of the last 64 of these bytes, those that [b] bytes at the front do not overwrite are still
    at the end of the buffer. *)
Definition tail_kept (st : XXH3_state) (x : bytes) (m b : nat) : Prop :=
  (0 < m)%nat → drop (192 `max` b) (buffer st) = drop (256 * m - 64 + (b - 192)) x.

Record streaming (c : stream_cfg) (st : XXH3_state) (data : bytes) : Prop := {
  sm_cfg : configured c st;
  sm_total : totalLen st = Z.of_nat (length data);
  sm_split : ∃ x y z m, data = x ++ y ∧ buffer st = y ++ z ∧ (length y ≤ 256)%nat ∧
    ((0 < m)%nat → (0 < length y)%nat) ∧ bufferedSize st = Z.of_nat (length y) ∧
    accumulated c st x m ∧ tail_kept st x m (length y);
}.

Lemma total_bytes_nonneg ops : 0 ≤ total_bytes ops.
Proof. induction ops as [|[] ops IH]; unfold total_bytes in *; cbn in *; lia. Qed.

Section ops.
Context {V : XXH_VECTOR} {VL : XXH_VectorLaws V}.

(** *** Resets *)
Lemma reset_internal_streaming c st seed secret :
  cfg_ok c → state_memory st → seed = cfg_seed c →
  (seed ≠ 0 → customSecret st = seeded_secret seed) →
  match secret with None => customSecret st | Some secret => secret end = cfg_secret c →
  streaming c (XXH3_reset_internal st seed secret (Z.of_nat (length (cfg_secret c)))) [].
Proof.
  intros Hc [Hm Hb] Hseed Hcustom Hsecret. pose proof (cfg_secret_size c Hc) as Hsz.
  unfold XXH3_SECRET_SIZE_MIN in Hsz.
  assert (Hlim : u64 (Z.of_nat (length (cfg_secret c)) - XXH_STRIPE_LEN) = secret_limit (cfg_secret c)).
  { apply wrap_small. unfold secret_limit, XXH_STRIPE_LEN. split; lia. }
  split; cbn.
  - split; cbn; try done. unfold per_block. by rewrite Hlim.
  - done.
  - exists [], [], (buffer st), 0%nat. split_and!; [done|done|cbn; lia|intros; lia|done| |intros ?; lia].
    split; cbn; try done. apply XXH3_INIT_ACC_wf.
Qed.

Lemma reset_ok st :
  state_memory st → ∃ st', XXH3_64bits_reset (Some st) = (XXH_OK, Some st') ∧ streaming (Seeded 0) st' [].
Proof.
  intros Hm. eexists. split; [done|]. apply (reset_internal_streaming (Seeded 0)); [|done..]. cbn. unfold fits. lia.
Qed.

Lemma reset_withSecret_ok st secret :
  state_memory st → cfg_ok (WithSecret secret) →
  ∃ st', XXH3_64bits_reset_withSecret (Some st) (Some secret) (Z.of_nat (length secret)) = (XXH_OK, Some st') ∧
         streaming (WithSecret secret) st' [].
Proof.
  intros Hm Hc. eexists. unfold XXH3_64bits_reset_withSecret. split.
  { rewrite (proj2 (Z.ltb_ge _ _)); [done|]. by destruct Hc. }
  by apply (reset_internal_streaming (WithSecret secret)).
Qed.

Lemma reset_withSeed_ok st seed :
  state_memory st → (seed_ st ≠ 0 → customSecret st = seeded_secret (seed_ st)) → cfg_ok (Seeded seed) →
  ∃ st', XXH3_64bits_reset_withSeed (Some st) seed = Some (XXH_OK, Some st') ∧ streaming (Seeded seed) st' [].
Proof using VL.
  intros [Hm Hb] Hcustom [Hs Hne]. unfold XXH3_64bits_reset_withSeed.
  destruct (Z.eqb_spec seed 0) as [->|Hnz].
  { destruct (reset_ok st) as (st' & -> & ?); [done|]. eauto. }
  assert (Hsz : XXH_SECRET_DEFAULT_SIZE = Z.of_nat (length (cfg_secret (Seeded seed)))).
  { simpl. by rewrite (proj2 (Z.eqb_neq _ _) Hnz), length_seeded_secret. }
  rewrite Hsz. destruct (Z.eqb_spec seed (seed_ st)) as [Heq|Hneq]; cbn [negb].
  - eexists. split; [done|]. apply (reset_internal_streaming (Seeded seed)); try done.
    + rewrite Heq. intros ?. by apply Hcustom.
    + simpl. rewrite (proj2 (Z.eqb_neq _ _) Hnz), Heq. apply Hcustom. by rewrite <-Heq.
  - rewrite vec_initSecret_content by done. cbn [fmap option_fmap option_map mbind option_bind].
    eexists. split; [done|]. apply (reset_internal_streaming (Seeded seed) _ seed None); try done.
    simpl. by rewrite (proj2 (Z.eqb_neq _ _) Hnz).
Qed.

Lemma streaming_memory c st data :
  streaming c st data → state_memory st ∧ (seed_ st ≠ 0 → customSecret st = seeded_secret (seed_ st)).
Proof. intros [[]]. by split. Qed.

(** *** Digests *)

Lemma one_shot_short c x :
  Z.of_nat (length x) ≤ 240 →
  one_shot c x = XXH3_64bits_internal x (Z.of_nat (length x)) (cfg_seed c)
    (match c with Seeded _ => XXH3_kSecret | WithSecret secret => secret end) (λ _ _ _ _, None).
Proof.
  intros Hx. rewrite <-(app_nil_r x) at 2.
  destruct c; symmetry; apply short_prefix; done.
Qed.

Lemma one_shot_long c data :
  cfg_ok c → 240 < Z.of_nat (length data) →
  one_shot c data = XXH3_hashLong_64b_internal data (Z.of_nat (length data)) (cfg_secret c)
    XXH3_accumulate_512_scalar XXH3_scrambleAcc_scalar.
Proof.
  intros Hc Hlen.
  assert (Hf : ∀ seed secret f, XXH3_64bits_internal data (Z.of_nat (length data)) seed secret f =
    f data (Z.of_nat (length data)) seed secret).
  { intros. unfold XXH3_64bits_internal, XXH3_MIDSIZE_MAX. by rewrite !(proj2 (Z.leb_gt _ _)) by lia. }
  destruct c as [seed|secret]; cbn [one_shot cfg_secret].
  - unfold XXH3_64bits_withSeed. rewrite Hf. unfold XXH3_hashLong_64b_withSeed, XXH3_hashLong_64b_withSeed_internal.
    destruct (seed =? 0); [done|]. cbn [XXH3_initCustomSecret XXH_SCALAR].
    by rewrite initCustomSecret_scalar_content by done.
  - unfold XXH3_64bits_withSecret. by rewrite Hf.
Qed.

(** The stripes of the buffer, after those that were consumed. *)
Lemma same_stripes_buffer x y z m n :
  length x = (256 * m)%nat → 64 * n ≤ Z.of_nat (length y) →
  same_stripes (y ++ z) 0 (x ++ y) (4 * Z.of_nat m) n.
Proof.
  intros Hx Hn i Hi. rewrite slice_prefix, slice_in_bounds by lia. eexists. split; [done|].
  replace (64 * (4 * Z.of_nat m + i)) with (Z.of_nat (length x) + i * 64) by lia.
  rewrite slice_app_r, slice_in_bounds by lia. do 2 f_equal.
Qed.

(** The stripes that are left and the last 64 bytes. *)
Definition finish (secret data : bytes) : option (list Z) :=
  let len := Z.of_nat (length data) in
  acc ← stripes secret data ((len - 1) `div` 64);
  XXH3_accumulate_512_scalar acc data (len - 64) secret (secret_limit secret - XXH_SECRET_LASTACC_START).

Lemma last_start secret : secret_limit secret - XXH_SECRET_LASTACC_START = Z.of_nat (length secret) - 71.
Proof. unfold secret_limit, XXH_STRIPE_LEN, XXH_SECRET_LASTACC_START. lia. Qed.

Lemma digest_long_buffered c st x y z m :
  cfg_ok c → configured c st → accumulated c st x m → buffer st = y ++ z →
  bufferedSize st = Z.of_nat (length y) → (64 ≤ length y ≤ 256)%nat →
  XXH3_digest_long st (cfg_secret c) = finish (cfg_secret c) (x ++ y).
Proof using VL.
  intros Hc [] [Hx Hwf Hacc Hfar] Hbuf Hsize Hy. pose proof (cfg_secret_size c Hc) as [Hsec Hsec'].
  pose proof (nb_bounds _ Hsec) as [Hnb Hnbs]. pose proof Hsec as Hsec0. unfold XXH3_SECRET_SIZE_MIN in Hsec0.
  unfold XXH3_digest_long, finish, XXH_STRIPE_LEN. rewrite cf_limit0, cf_block0, Hfar, Hsize, Hbuf, last_start, length_app.
  rewrite (proj2 (Z.leb_le _ _)) by lia. set (n := (Z.of_nat (length y) - 1) `div` 64).
  assert (0 ≤ n ≤ 3 ∧ 64 * n ≤ Z.of_nat (length y)) as [Hn Hny] by (subst n; div_lia).
  assert (Hk : (Z.of_nat (length x + length y) - 1) `div` 64 = 4 * Z.of_nat m + n).
  { subst n. rewrite Hx. replace (Z.of_nat (256 * m + length y) - 1)
      with ((Z.of_nat (length y) - 1) + (4 * Z.of_nat m) * 64) by lia. rewrite Z.div_add by lia. lia. }
  destruct (consumeStripes_ok (cfg_secret c) Hsec (acc_ st) (y ++ z) 0 (x ++ y) (4 * Z.of_nat m) n)
    as (a & Ha & Hwa & ->);
    [done|lia|lia|lia|lia|rewrite length_app; lia|rewrite length_app; lia|apply same_stripes_buffer; [done|lia]|].
  cbn [mbind option_bind]. rewrite Hk. unfold stripes.
  replace (Z.to_nat (4 * Z.of_nat m + n)) with (Z.to_nat (4 * Z.of_nat m) + Z.to_nat n)%nat by lia.
  rewrite for_loop_app. fold (stripes (cfg_secret c) (x ++ y) (4 * Z.of_nat m)).
  rewrite stripes_app, Hacc by lia. cbn [mbind option_bind]. rewrite Z.add_0_l, Z2Nat.id, Ha by lia.
  cbn [mbind option_bind]. rewrite vec_accumulate by (rewrite ?length_app; done || lia).
  apply (accumulate_local _ _ _ _ _ _ _ (take 64 (drop (Z.to_nat (Z.of_nat (length y) - 64)) y))).
  - rewrite slice_prefix by lia. apply slice_in_bounds; lia.
  - replace (Z.of_nat (length x + length y) - 64) with (Z.of_nat (length x) + (Z.of_nat (length y) - 64)) by lia.
    rewrite slice_app_r by lia. apply slice_in_bounds; lia.
Qed.

(** With less than a stripe in the buffer, the bytes before it are still at its end. *)
Lemma digest_long_catchup c st x y z m :
  cfg_ok c → configured c st → accumulated c st x m → tail_kept st x m (length y) → (0 < m)%nat →
  buffer st = y ++ z → bufferedSize st = Z.of_nat (length y) → (0 < length y < 64)%nat →
  XXH3_digest_long st (cfg_secret c) = finish (cfg_secret c) (x ++ y).
Proof using VL.
  intros Hc [] [Hx Hwf Hacc Hfar] Htail Hm Hbuf Hsize Hy. pose proof (cfg_secret_size c Hc) as [Hsec Hsec'].
  unfold XXH3_SECRET_SIZE_MIN in Hsec. specialize (Htail Hm).
  replace (192 `max` length y)%nat with 192%nat in Htail by lia.
  replace (length y - 192)%nat with 0%nat in Htail by lia. rewrite Nat.add_0_r in Htail.
  unfold XXH3_digest_long, finish, XXH_STRIPE_LEN. rewrite cf_limit0, Hsize, Hbuf, last_start, length_app.
  rewrite (proj2 (Z.leb_gt _ _)) by lia.
  assert (Hk : (Z.of_nat (length x + length y) - 1) `div` 64 = 4 * Z.of_nat m).
  { rewrite Hx. symmetry. apply (Z.div_unique _ _ _ (Z.of_nat (length y) - 1)); lia. }
  assert (Hlb : length (y ++ z) = 256%nat) by congruence.
  rewrite (slice_in_bounds (y ++ z) 0) by (rewrite ?Hlb; lia).
  rewrite (slice_in_bounds (y ++ z)) by (rewrite ?Hlb; unfold XXH3_INTERNALBUFFER_SIZE; lia). cbn [mbind option_bind].
  rewrite Hk, stripes_app, Hacc by lia. cbn [mbind option_bind].
  rewrite Nat2Z.id, (take_app_length' y z) by done.
  set (old := take _ _). assert (Hold : old = drop (256 * m - 64 + length y) x).
  { subst old. unfold XXH3_INTERNALBUFFER_SIZE.
    replace (Z.to_nat (256 - (64 - Z.of_nat (length y)))) with (192 + length y)%nat by lia.
    rewrite <-drop_drop, <-Hbuf, Htail, drop_drop. apply take_ge. rewrite length_drop. lia. }
  assert (Hlo : length old = (64 - length y)%nat) by (rewrite Hold, length_drop; lia).
  rewrite vec_accumulate by (rewrite ?length_app; done || lia).
  apply (accumulate_local _ _ _ _ _ _ _ (old ++ y)).
  - rewrite slice_in_bounds by (rewrite ?length_app; lia). f_equal. apply take_ge. rewrite length_app. cbn. lia.
  - rewrite slice_in_bounds by (rewrite ?length_app; lia). f_equal.
    rewrite drop_app_le by lia. rewrite take_ge by (rewrite length_app, length_drop; lia).
    rewrite Hold. do 2 f_equal. lia.
Qed.

Lemma digest_long_ok c st data :
  cfg_ok c → streaming c st data → 240 < Z.of_nat (length data) →
  XXH3_digest_long st (cfg_secret c) = finish (cfg_secret c) data.
Proof using VL.
  intros Hc [Hcf _ (x & y & z & m & -> & Hbuf & Hy & Hym & Hsize & Hac & Htail)] Hlen.
  destruct (decide (64 ≤ length y)%nat); [by apply (digest_long_buffered c st x y z m)|].
  assert (0 < m)%nat. { rewrite length_app, (ac_length _ _ _ _ Hac) in Hlen. lia. }
  apply (digest_long_catchup c st x y z m); try done. specialize (Hym ltac:(done)). lia.
Qed.

Lemma digest_ok c st data :
  cfg_ok c → streaming c st data →
  ∃ h, XXH3_64bits_digest st = Some h ∧ one_shot c data = Some h.
Proof using VL.
  intros Hc Hs. pose proof (cfg_secret_size c Hc) as [Hsec Hsec'].
  pose proof Hs as [[] Htotal (x & y & z & m & -> & Hbuf & Hy & Hym & Hsize & Hac & _)].
  assert (Htot : ∃ h, one_shot c (x ++ y) = Some h).
  { destruct c as [seed|secret].
    - destruct Hc. destruct (withSeed_ok (V := XXH_SCALAR) (x ++ y) seed) as (h & Hh & _); [done..|]. by exists h.
    - destruct (withSecret_ok (V := XXH_SCALAR) (x ++ y) secret) as (h & Hh & _); [done|]. by exists h. }
  destruct Htot as (h & Hh). exists h. split; [|done].
  unfold XXH3_64bits_digest, XXH3_MIDSIZE_MAX. rewrite cf_secret0, Htotal.
  destruct (Z.ltb_spec 240 (Z.of_nat (length (x ++ y)))) as [Hl|Hl].
  - rewrite (digest_long_ok c st (x ++ y)) by done. rewrite one_shot_long in Hh by done.
    unfold XXH3_hashLong_64b_internal in Hh. by rewrite hashLong_stripes in Hh by (done || lia).
  - assert (m = 0%nat) as ->. { destruct Hac as [Hx _ _ _]. rewrite length_app in Hl. lia. }
    destruct Hac as [Hx _ _ _]. apply nil_length_inv in Hx as ->. cbn [app] in *.
    rewrite one_shot_short in Hh by done. rewrite Hbuf, cf_seed0, <-Hh.
    assert (Htake : take (Z.to_nat (u64 (secretLimit st + XXH_STRIPE_LEN))) (cfg_secret c) = cfg_secret c).
    { apply take_ge. rewrite cf_limit0. unfold secret_limit, XXH_STRIPE_LEN. rewrite wrap_small by (split; lia). lia. }
    rewrite Htake. destruct c as [seed|secret]; cbn [cfg_seed]; [|by apply short_prefix].
    destruct (Z.eqb_spec seed 0) as [->|]; cbn [negb]; by apply short_prefix.
Qed.

(** *** Updates *)

(** Writing at the front of the buffer, or behind what it holds, leaves its end. *)
Lemma kept_write st st' x m b front :
  tail_kept st x m b → (b ≤ length front)%nat → buffer st' = front ++ drop (length front) (buffer st) →
  tail_kept st' x m (length front).
Proof.
  intros Htail Hb Hbuf Hm. specialize (Htail Hm). rewrite Hbuf, drop_app_ge, drop_drop by lia.
  apply (f_equal (drop (192 `max` length front - 192 `max` b))) in Htail. rewrite !drop_drop in Htail.
  replace (length front + (192 `max` length front - length front))%nat
    with (192 `max` b + (192 `max` length front - 192 `max` b))%nat by lia.
  rewrite Htail. f_equal. lia.
Qed.

Lemma configured_same c st st' :
  configured c st → customSecret st' = customSecret st → length (buffer st') = 256%nat → seed_ st' = seed_ st →
  extSecret st' = extSecret st → secretLimit st' = secretLimit st → nbStripesPerBlock st' = nbStripesPerBlock st →
  configured c st'.
Proof.
  intros [] Hc Hb Hs He Hl Hn. split; try congruence.
  - rewrite Hs, Hc. done.
  - unfold state_secret in *. by rewrite He, Hc.
Qed.

Lemma same_stripes_prefix inp p data more k n :
  0 ≤ k → 64 * (k + n) ≤ Z.of_nat (length data) →
  same_stripes inp p data k n → same_stripes inp p (data ++ more) k n.
Proof.
  intros Hk Hn Hs i Hi. destruct (Hs i Hi) as (l & Hl & Hl'). exists l. split; [done|].
  rewrite slice_prefix by lia. done.
Qed.

(** Four stripes more. *)
Lemma consume_four c st D m inp p :
  cfg_ok c → configured c st → accumulated c st (take (256 * m) D) m → (256 * S m ≤ length D)%nat →
  0 ≤ p → p + 256 ≤ Z.of_nat (length inp) → same_stripes inp p D (4 * Z.of_nat m) 4 →
  ∃ acc, XXH3_consumeStripes (acc_ st) (nbStripesSoFar st) (nbStripesPerBlock st) inp p
      XXH3_INTERNALBUFFER_STRIPES (cfg_secret c) (secretLimit st) XXH3_accumulate_512 XXH3_scrambleAcc =
      Some (acc, (4 * Z.of_nat (S m)) `mod` per_block (cfg_secret c)) ∧
    lanes_wf acc ∧ stripes (cfg_secret c) (take (256 * S m) D) (4 * Z.of_nat (S m)) = Some acc.
Proof using VL.
  intros Hc [] [Hx Hwf Hacc Hfar] HD Hp Hpi Hs. pose proof (cfg_secret_size c Hc) as [Hsec Hsec'].
  pose proof (nb_bounds _ Hsec) as [Hnb Hnbs]. rewrite cf_limit0, cf_block0, Hfar.
  change XXH3_INTERNALBUFFER_STRIPES with 4.
  destruct (consumeStripes_ok (cfg_secret c) Hsec (acc_ st) inp p D (4 * Z.of_nat m) 4)
    as (a & Ha & Hwa & ->); [done|lia..|done|].
  exists a. split; [do 3 f_equal; lia|]. split; [done|].
  rewrite <-(stripes_app _ _ (drop (256 * S m) D)), take_drop by (rewrite length_take; lia).
  rewrite <-(stripes_app _ _ (drop (256 * m) D)), take_drop in Hacc by (rewrite length_take; lia).
  unfold stripes in *. replace (Z.to_nat (4 * Z.of_nat (S m))) with (Z.to_nat (4 * Z.of_nat m) + Z.to_nat 4)%nat by lia.
  rewrite for_loop_app, Hacc. cbn [mbind option_bind]. rewrite <-Ha. f_equal. lia.
Qed.

(** Between the buffers: [p] bytes of the input are used, and all that is used is consumed. *)
Record consumed (c : stream_cfg) (st : XXH3_state) (data input : bytes) (p : Z) (m : nat) : Prop := {
  cs_cfg : configured c st;
  cs_total : totalLen st = Z.of_nat (length (data ++ input));
  cs_acc : accumulated c st (take (256 * m) (data ++ input)) m;
  cs_used : Z.of_nat (256 * m) = Z.of_nat (length data) + p;
  cs_left : 0 ≤ p < Z.of_nat (length input);
}.

Lemma fill_buffer_ok c st data input :
  cfg_ok c → streaming c st data → 256 < bufferedSize st + Z.of_nat (length input) →
  let st1 := set_totalLen st (Z.of_nat (length (data ++ input))) in
  ∃ st' p m, fill_buffer st1 input (cfg_secret c) = Some (st', p) ∧ consumed c st' data input p m ∧
    tail_kept st' (take (256 * m) (data ++ input)) m 0 ∧ (m = 0%nat → p = 0).
Proof using VL.
  intros Hc [Hcf Htot (x & y & z & m & -> & Hbuf & Hy & Hym & Hsize & Hac & Htail)] Hlong st1.
  assert (Hcf1 : configured c st1) by (apply (configured_same c st); try done; apply Hcf).
  pose proof (ac_length _ _ _ _ Hac) as Hx. unfold fill_buffer. cbn [st1 set_totalLen bufferedSize buffer]. rewrite Hsize in *.
  destruct (Z.eqb_spec (Z.of_nat (length y)) 0) as [Hz|Hnz].
  - assert (y = []) as -> by (apply nil_length_inv; lia). exists st1, 0, m. split; [done|].
    assert (Htk : take (256 * m) ((x ++ []) ++ input) = x) by (rewrite app_nil_r; by apply take_app_length').
    rewrite Htk. split_and!; [|done|done]. split; try done; rewrite ?Htk, ?app_nil_r; [by destruct Hac|rewrite Hx; lia|lia].
  - unfold XXH3_INTERNALBUFFER_SIZE. rewrite wrap_small by (split; lia).
    replace (Z.to_nat (256 - Z.of_nat (length y))) with (256 - length y)%nat by lia.
    rewrite slice_in_bounds by lia. rewrite drop_0. cbn [mbind option_bind].
    set (src := take _ input). assert (Hsrc : length src = (256 - length y)%nat) by (subst src; rewrite length_take; lia).
    assert (length (y ++ z) = 256%nat) as Hyz by (rewrite <-Hbuf; apply Hcf).
    rewrite Hbuf, write_at_in_bounds by (rewrite ?Hyz, ?Hsrc; lia). cbn [mbind option_bind].
    rewrite Nat2Z.id, take_app_length' by done.
    rewrite drop_ge by (rewrite Hyz; lia). rewrite app_nil_r.
    set (D := (x ++ y) ++ input).
    assert (HD : D = (x ++ (y ++ src)) ++ drop (256 - length y) input).
    { subst D src. by rewrite <-!app_assoc, take_drop. }
    assert (Hxm : take (256 * m) D = x) by (subst D; rewrite <-app_assoc; by apply take_app_length').
    assert (Hxm' : take (256 * S m) D = x ++ (y ++ src)).
    { rewrite HD. apply take_app_length'. rewrite !length_app. lia. }
    destruct (consume_four c st1 D m (y ++ src) 0) as (a & Ha & Hwa & Hsa);
      [done|done|rewrite Hxm; by destruct Hac|rewrite HD, !length_app; lia|lia|rewrite length_app; lia| |].
    { rewrite HD. apply same_stripes_prefix; [lia|rewrite !length_app; lia|].
      rewrite <-(app_nil_r (y ++ src)) at 1. apply same_stripes_buffer; [done|rewrite length_app; lia]. }
    cbn [acc_ nbStripesSoFar nbStripesPerBlock secretLimit st1 set_totalLen] in Ha |- *. rewrite Ha.
    cbn [mbind option_bind]. eexists _, _, (S m). split; [done|]. fold D. rewrite Hxm' in *. split_and!; [|intros _|lia].
    + split; [apply (configured_same c st); try done; cbn; rewrite length_app; lia|done| |rewrite length_app; lia|lia].
      fold D. rewrite Hxm'. by split; [rewrite !length_app; lia|..].
    + rewrite (drop_app_ge x) by lia. cbn [buffer set_buffer]. f_equal. lia.
Qed.

(** One turn of the loop over the input. *)
Lemma consume_turn c st data input p m :
  cfg_ok c → consumed c st data input p m → p + 256 < Z.of_nat (length input) →
  ∃ a k, XXH3_consumeStripes (acc_ st) (nbStripesSoFar st) (nbStripesPerBlock st) input p
      XXH3_INTERNALBUFFER_STRIPES (cfg_secret c) (secretLimit st) XXH3_accumulate_512 XXH3_scrambleAcc = Some (a, k) ∧
    consumed c (set_acc st a k) data input (p + 256) (S m).
Proof using VL.
  intros Hc [Hcf Htot Hac Hu Hl] Hp. pose proof (ac_length _ _ _ _ Hac) as Hx.
  destruct (consume_four c st (data ++ input) m input p) as (a & Ha & Hwa & Hsa);
    [done|done|done|rewrite length_app; lia|lia|lia| |].
  { intros i Hi. eexists. rewrite slice_in_bounds by lia. split; [done|].
    replace (64 * (4 * Z.of_nat m + i)) with (Z.of_nat (length data) + (p + i * 64)) by lia.
    rewrite slice_app_r by lia. apply slice_in_bounds; lia. }
  exists a. eexists. split; [done|]. split; [|done| |lia|lia].
  - apply (configured_same c st); try done. by destruct Hcf.
  - split; [rewrite length_take, length_app; lia|done..].
Qed.

Lemma consume_input_ok c st data input p m :
  let len := Z.of_nat (length input) in
  cfg_ok c → consumed c st data input p m → tail_kept st (take (256 * m) (data ++ input)) m 0 →
  ∃ st' p' m', consume_input st input p len (cfg_secret c) = Some (st', p') ∧
    consumed c st' data input p' m' ∧ tail_kept st' (take (256 * m') (data ++ input)) m' 0 ∧ len ≤ p' + 256.
Proof using VL.
  intros len Hc Hcs Hk. unfold consume_input, XXH3_INTERNALBUFFER_SIZE.
  destruct (Z.ltb_spec (p + 256) len) as [Hp|Hp]; [|by eexists _, _, m].
  match goal with |- context [do_while _ ?f ?g _] => set (cond := f); set (body := g) end.
  pose (I := λ s : XXH3_state * Z, ∃ m, 256 ≤ s.2 ∧ buffer s.1 = buffer st ∧ consumed c s.1 data input s.2 m).
  assert (Hturn : ∀ s m, consumed c s.1 data input s.2 m → buffer s.1 = buffer st → s.2 + 256 < len →
    ∃ s', body s = Some s' ∧ I s' ∧ s'.2 = s.2 + 256).
  { intros [t q] n Hn Hb Hq. destruct (consume_turn c t data input q n) as (a & k & Ha & Hc'); [done..|].
    subst body. cbn [fst snd] in *. cbv beta iota. rewrite Ha. cbn [mbind option_bind].
    eexists. split; [done|]. split; [|done]. exists (S n). split; [|done]. cbn. destruct Hn. lia. }
  unfold do_while. destruct (Hturn (st, p) m) as (s1 & Hs1 & HI1 & Hp1); [done..|]. rewrite Hs1. cbn [mbind option_bind].
  destruct (while_total I (λ s, Z.to_nat ((len - s.2) `div` 256)) cond body) with
    (fuel := Z.to_nat (len `div` 256)) (s := s1) as ([st2 p2] & -> & (m2 & Hp2 & Hb2 & Hc2) & Hcond).
  - intros [t q] (n & Hq & Hb & Hn) Hlt. subst cond. cbn in *. apply Z.ltb_lt in Hlt.
    destruct (Hturn (t, q) n) as (s' & Hs' & HI' & Hq'); [done..|cbn; lia|]. exists s'. split; [done|]. split; [done|].
    rewrite Hq'. cbn. div_lia.
  - done.
  - destruct HI1 as (n & Hn & _). cbn in Hp1. destruct Hcs. div_lia.
  - subst cond. cbn in *. apply Z.ltb_ge in Hcond. pose proof (cs_used _ _ _ _ _ _ Hc2) as Hu2.
    pose proof (cs_left _ _ _ _ _ _ Hc2) as Hl2. pose proof (cf_buffer _ _ (cs_cfg _ _ _ _ _ _ Hc2)) as Hb256.
    unfold XXH_STRIPE_LEN. rewrite slice_in_bounds by lia. cbn [mbind option_bind].
    set (src := take _ _). assert (Hsrc : length src = 64%nat) by (subst src; rewrite length_take, length_drop; lia).
    rewrite write_at_in_bounds by (rewrite ?Hsrc; lia). cbn [mbind option_bind].
    change (Z.to_nat (256 - 64)) with 192%nat. rewrite Hsrc, drop_ge, app_nil_r by lia.
    eexists _, _, m2. split; [done|]. split_and!; [|intros Hm2|lia].
    + destruct Hc2 as [Hcf2 Ht2 Ha2 _ _]. split; [|done|by destruct Ha2|done|done].
      apply (configured_same c st2); try done. cbn. rewrite length_app, length_take. lia.
    + cbn [buffer set_buffer Nat.max Nat.sub]. rewrite drop_app_length' by (rewrite length_take; lia).
      rewrite Nat.add_0_r, skipn_firstn_comm. subst src. f_equal; [lia|].
      rewrite drop_app_ge by lia. f_equal. lia.
Qed.

Lemma update_ok c st data input :
  cfg_ok c → streaming c st data → Z.of_nat (length data + length input) < 2 ^ 62 →
  ∃ st', XXH3_64bits_update st (Some input) (Z.of_nat (length input)) = Some (XXH_OK, st') ∧
         streaming c st' (data ++ input).
Proof using VL.
  intros Hc Hs Hlen. pose proof Hs as [Hcf Htot (x & y & z & m & Hd & Hbuf & Hy & Hym & Hsize & Hac & Hk)].
  unfold XXH3_64bits_update, XXH3_update. cbv zeta. rewrite (cf_secret _ _ Hcf), Htot.
  rewrite (wrap_small 64 (Z.of_nat (length data) + _)) by (split; lia).
  replace (Z.of_nat (length data) + Z.of_nat (length input)) with (Z.of_nat (length (data ++ input)))
    by (rewrite length_app; lia).
  set (st1 := set_totalLen st (Z.of_nat (length (data ++ input)))).
  change (bufferedSize st1) with (bufferedSize st). rewrite wrap_small by (split; lia).
  unfold XXH3_INTERNALBUFFER_SIZE. pose proof (cf_buffer _ _ Hcf) as Hb256.
  destruct (Z.leb_spec (bufferedSize st + Z.of_nat (length input)) 256) as [Hle|Hgt].
  - rewrite slice_in_bounds by lia. rewrite drop_0, take_ge by lia. cbn [mbind option_bind].
    change (buffer st1) with (buffer st). rewrite write_at_in_bounds by lia. cbn [mbind option_bind].
    eexists. split; [done|].
    replace (u32 (bufferedSize st + u32 (Z.of_nat (length input)))) with (Z.of_nat (length (y ++ input))).
    2:{ rewrite length_app, !wrap_small; rewrite ?wrap_small; unfold fits; lia. }
    assert (Hw : take (Z.to_nat (bufferedSize st)) (buffer st) ++ input ++
        drop (Z.to_nat (bufferedSize st) + length input) (buffer st) =
        (y ++ input) ++ drop (length (y ++ input)) (buffer st)).
    { rewrite Hsize, Nat2Z.id, Hbuf, take_app_length' by done. by rewrite <-app_assoc, length_app. }
    rewrite Hw. split; [|done|].
    + apply (configured_same c st); try done. cbn. rewrite length_app, length_drop, length_app. lia.
    + exists x, (y ++ input), (drop (length (y ++ input)) (buffer st)), m.
      split_and!; [by rewrite Hd, app_assoc|done|rewrite length_app; lia|rewrite length_app; lia|done|by destruct Hac|].
      eapply kept_write; [exact Hk|rewrite length_app; lia|done].
  - destruct (fill_buffer_ok c st data input Hc Hs Hgt) as (st2 & p & m2 & Hf & Hc2 & Hk2 & _).
    fold st1 in Hf. rewrite Hf. cbn [mbind option_bind].
    destruct (consume_input_ok c st2 data input p m2) as (st3 & p3 & m3 & -> & Hc3 & Hk3 & Hp3); [done..|].
    destruct Hc3 as [Hcf3 Ht3 Ha3 Hu3 Hl3]. pose proof (cf_buffer _ _ Hcf3) as Hb3. cbn [mbind option_bind].
    rewrite slice_in_bounds by lia. cbn [mbind option_bind].
    set (src := take _ _). assert (Hsrc : src = drop (Z.to_nat p3) input).
    { subst src. apply take_ge. rewrite length_drop. lia. }
    assert (Hls : length src = Z.to_nat (Z.of_nat (length input) - p3)) by (rewrite Hsrc, length_drop; lia).
    rewrite write_at_in_bounds by (rewrite ?Hls; lia). cbn [mbind option_bind]. change (Z.to_nat 0) with 0%nat.
    rewrite take_0. cbn [app Nat.add].
    replace (u32 (Z.of_nat (length input) - p3)) with (Z.of_nat (length src)) by (rewrite wrap_small; unfold fits; lia).
    eexists. split; [done|]. split; [|done|].
    + apply (configured_same c st3); try done. cbn. rewrite length_app, length_drop. lia.
    + exists (take (256 * m3) (data ++ input)), src, (drop (length src) (buffer st3)), m3.
      split_and!; [|done|lia|lia|done|by destruct Ha3|by eapply kept_write; [exact Hk3|lia|]].
      rewrite Hsrc. rewrite <-(take_drop (256 * m3) (data ++ input)) at 1. f_equal.
      rewrite drop_app_ge by lia. f_equal. lia.
Qed.
(** *** Runs *)
Lemma reset_step_ok st o c data :
  is_reset o = true → stream_op_ok o → state_memory st →
  (seed_ st ≠ 0 → customSecret st = seeded_secret (seed_ st)) →
  ∃ st' c', stream_step st o = Some (st', Code XXH_OK) ∧
    stream_spec_step c data o = Some (c', [], Code XXH_OK) ∧ cfg_ok c' ∧ streaming c' st' [].
Proof using VL.
  intros Ho Hok Hm Hcustom. destruct o as [|seed|secret| |]; try discriminate Ho; unfold stream_step, stream_spec_step.
  - destruct (reset_ok st Hm) as (st' & -> & Hs). exists st', (Seeded 0). split_and!; [done..| |done].
    cbn. unfold fits. lia.
  - destruct (reset_withSeed_ok st seed) as (st' & -> & Hs); [done..|]. by exists st', (Seeded seed).
  - destruct (reset_withSecret_ok st secret) as (st' & -> & Hs); [done..|]. by exists st', (WithSecret secret).
Qed.

Lemma stream_run_ok ops : ∀ c st data,
  cfg_ok c → streaming c st data → Forall stream_op_ok ops →
  Z.of_nat (length data) + total_bytes ops < 2 ^ 62 →
  ∃ out, stream_run st ops = Some out ∧ stream_spec_run c data ops = Some out.
Proof using VL.
  induction ops as [|o ops IH]; intros c st data Hc Hs Hops Hlen; [by exists []|].
  inversion_clear Hops as [|?? Ho Hops']. cbn [total_bytes foldr] in Hlen. fold (total_bytes ops) in Hlen.
  assert (0 ≤ total_bytes ops) by apply total_bytes_nonneg.
  assert (∃ st' c' data' r, stream_step st o = Some (st', r) ∧ stream_spec_step c data o = Some (c', data', r) ∧
    cfg_ok c' ∧ streaming c' st' data' ∧ Z.of_nat (length data') ≤ Z.of_nat (length data) + op_bytes o)
    as (st' & c' & data' & r & Hst & Hsp & Hc' & Hs' & Hl').
  { destruct (is_reset o) eqn:Hr.
    - destruct (streaming_memory c st data Hs) as [Hm Hcustom].
      destruct (reset_step_ok st o c data) as (st' & c' & ? & ? & ? & ?); [done..|].
      exists st', c', [], (Code XXH_OK). split_and!; try done. cbn. destruct o; cbn in *; lia.
    - destruct o as [| | |input|]; try discriminate Hr; unfold stream_step, stream_spec_step; cbn [op_bytes] in *.
      + destruct (update_ok c st data input) as (st' & -> & Hs'); [done|done|lia|].
        exists st', c, (data ++ input), (Code XXH_OK). rewrite length_app. split_and!; try done. lia.
      + destruct (digest_ok c st data) as (h & -> & ->); [done..|].
        exists st, c, data, (Hash h). split_and!; try done. lia. }
  destruct (IH c' st' data') as (out & Hrun & Hspec); [done..|lia|].
  exists (r :: out). cbn [stream_run stream_spec_run]. rewrite Hst, Hsp. cbn [mbind option_bind]. by rewrite Hrun, Hspec.
Qed.
End ops.

(** C7: Streaming is hashing at once. On a state from [XXH3_createState], whatever its memory
    holds, after any kind of reset, every sequence of resets, updates and digests succeeds, and
    each digest is what [XXH3_64bits_withSeed] or [XXH3_64bits_withSecret] computes of all the
    bytes since the last reset, however they were cut; on every target. Secrets have at least
    136 bytes, seeds are other than 2^63 and fewer than 2^62 bytes are hashed. *)
Theorem xxh3_stream_is_one_shot V mem o ops :
  V ∈ [XXH_SCALAR; XXH_SSE2; XXH_AVX2; XXH_AVX512] → state_memory mem →
  is_reset o = true → Forall stream_op_ok (o :: ops) → total_bytes ops < 2 ^ 62 →
  ∃ st out, XXH3_createState (Some mem) = Some st ∧
    @stream_run V st (o :: ops) = Some out ∧ stream_spec_run (Seeded 0) [] (o :: ops) = Some out.
Proof.
  intros HV Hm Hr Hops Hlen.
  assert (XXH_VectorLaws V) as VL.
  { rewrite !elem_of_cons, elem_of_nil in HV. destruct HV as [->|[->|[->|[->|[]]]]]; apply _. }
  inversion_clear Hops as [|?? Ho Hops']. eexists.
  destruct (reset_step_ok (XXH3_INITSTATE mem) o (Seeded 0) []) as (st' & c' & Hst & Hsp & Hc & Hs); [done..|].
  destruct (stream_run_ok ops c' st' []) as (out & Hrun & Hspec); [done..|].
  exists (Code XXH_OK :: out). split; [done|]. cbn [stream_run stream_spec_run]. rewrite Hst, Hsp. cbn [mbind option_bind].
  by rewrite Hrun, Hspec.
Qed.

(** Bytes hashed in pieces that straddle the buffer, twice, with a seed and a secret. *)
Definition demo_memory : XXH3_state :=
  XXH3_state_s [] (replicate 192 x01) (replicate 256 x02) 5 6 7 8 9 10 None.

Definition stream_demo_ops : list stream_op :=
  [ OpUpdate XXH3_kSecret; OpDigest; OpUpdate (XXH3_kSecret ++ XXH3_kSecret); OpDigest;
    OpReset_withSecret (drop 1 XXH3_kSecret); OpUpdate (take 30 XXH3_kSecret); OpDigest ].

Lemma xxh3_stream_is_one_shot_witness :
  ∃ st out, XXH3_createState (Some demo_memory) = Some st ∧
    @stream_run XXH_AVX2 st (OpReset_withSeed 77 :: stream_demo_ops) = Some out ∧
    stream_spec_run (Seeded 0) [] (OpReset_withSeed 77 :: stream_demo_ops) = Some out.
Proof.
  apply (xxh3_stream_is_one_shot XXH_AVX2 demo_memory (OpReset_withSeed 77) stream_demo_ops).
  - do 2 (apply elem_of_cons; right). apply elem_of_cons. left. reflexivity.
  - split; reflexivity.
  - reflexivity.
  - repeat constructor; vm_compute; congruence.
  - vm_compute. reflexivity.
Defined.

(** A null input and a null state are reported, and a short secret is. *)
Theorem stream_errors V st len seed secret size :
  @XXH3_64bits_update V st None len = Some (XXH_ERROR, st) ∧
  XXH3_64bits_reset None = (XXH_ERROR, None) ∧ @XXH3_64bits_reset_withSeed V None seed = Some (XXH_ERROR, None) ∧
  (XXH3_64bits_reset_withSecret (Some st) (Some secret) size).1 =
    (if size <? XXH3_SECRET_SIZE_MIN then XXH_ERROR else XXH_OK).
Proof. done. Qed.
