(* ===== verification/FloatRound.v ===== *)
(** * Bounds of the rounding of floating-point numbers

    How far a rounded number is from the exact one, for positive numbers that are
    neither subnormal nor too large, and from it the number of buckets that
    [tsl::robin_map] asks for: [size_t(std::ceil(float(n) / max_load_factor()))]. *)
From S2P Require Import Prelude Floats.

Lemma digits2_pos_unique p d : 0 < d → 2 ^ (d - 1) ≤ Zpos p < 2 ^ d → Zpos (digits2_pos p) = d.
Proof.
  intros Hd Hp. pose proof (digits2_pos_range p) as Hr.
  destruct (Z.lt_trichotomy (Zpos (digits2_pos p)) d) as [Hlt|[|Hgt]]; [|done|].
  - assert (2 ^ Zpos (digits2_pos p) ≤ 2 ^ (d - 1)) by (apply Z.pow_le_mono_r; lia). lia.
  - assert (2 ^ d ≤ 2 ^ (Zpos (digits2_pos p) - 1)) by (apply Z.pow_le_mono_r; lia). lia.
Qed.

Lemma shr_1_m r : 0 ≤ shr_m r → shr_m (shr_1 r) = shr_m r / 2.
Proof.
  destruct r as [m r s]. cbn [shr_m]. intros Hm. unfold shr_1.
  destruct m as [|[p|p|]|p]; cbn [shr_m]; [done| | |done|lia].
  - rewrite (Pos2Z.inj_xI p). apply (Z.div_unique _ _ _ 1); lia.
  - rewrite (Pos2Z.inj_xO p). apply (Z.div_unique _ _ _ 0); lia.
Qed.

Lemma iter_shr_1_m p : ∀ r, 0 ≤ shr_m r → shr_m (iter_pos shr_1 p r) = shr_m r / 2 ^ Zpos p.
Proof.
  assert (∀ a p, 0 ≤ a → 0 ≤ a / 2 ^ Zpos p) as Hpos by (intros; apply Z.div_pos; lia).
  induction p as [p IH|p IH|]; intros r Hr; cbn [iter_pos].
  - assert (0 ≤ shr_m (shr_1 r)) by (rewrite shr_1_m by exact Hr; apply Z.div_pos; lia).
    assert (0 ≤ shr_m (iter_pos shr_1 p (shr_1 r))) by (rewrite IH by done; auto).
    rewrite !IH, shr_1_m, !Z.div_div by (done || lia). f_equal.
    replace (Zpos p~1) with (1 + Zpos p + Zpos p) by lia. rewrite !Z.pow_add_r by lia. change (2 ^ 1) with 2. ring.
  - assert (0 ≤ shr_m (iter_pos shr_1 p r)) by (rewrite IH by done; auto).
    rewrite !IH, Z.div_div by (done || lia). f_equal.
    replace (Zpos p~0) with (Zpos p + Zpos p) by lia. rewrite Z.pow_add_r by lia. ring.
  - by apply shr_1_m.
Qed.

Lemma shr_m_div r e n : 0 ≤ shr_m r → 0 ≤ n → shr_m (shr r e n).1 = shr_m r / 2 ^ n ∧ (shr r e n).2 = e + n.
Proof.
  intros Hr Hn. destruct n as [|p|p]; cbn [shr fst snd]; [|by rewrite iter_shr_1_m|lia].
  rewrite Z.div_1_r. lia.
Qed.

Lemma shr_m_of_loc m l : shr_m (shr_record_of_loc m l) = m.
Proof. by destruct l as [|[]]. Qed.

Lemma round_nearest_even_near m l : m ≤ round_nearest_even m l ≤ m + 1.
Proof. destruct l as [|[]]; cbn; try destruct (Z.even m); lia. Qed.

Section round.
Context (prec emax : Z) (Hprec : 1 < prec).

Lemma fexp_normal d e : emin prec emax ≤ d + e - prec → fexp prec emax (d + e) - e = d - prec.
Proof using. intros Hn. unfold fexp. lia. Qed.

(** The last step of the rounding: a mantissa of the right length, or the power of two above. *)
Lemma renormalize m e :
  2 ^ (prec - 1) ≤ m ≤ 2 ^ prec → emin prec emax ≤ e → e + prec < emax →
  ∃ p e', shr_fexp prec emax m e loc_Exact = (Build_shr_record (Zpos p) false false, e') ∧
    Zpos (digits2_pos p) = prec ∧ e ≤ e' ≤ e + 1 ∧ Zpos p * 2 ^ (e' - e) = m.
Proof using Hprec.
  intros Hm He Hmax. assert (0 < 2 ^ (prec - 1)) by (apply Z.pow_pos_nonneg; lia).
  destruct m as [|p|p]; try lia. unfold shr_fexp. cbn [Zdigits2].
  assert (2 ^ prec = 2 * 2 ^ (prec - 1)) as Hp2 by (rewrite <-Z.pow_succ_r by lia; f_equal; lia).
  destruct (decide (Zpos p = 2 ^ prec)) as [Heq|Hne].
  - assert (Zpos (digits2_pos p) = prec + 1) as Hd.
    { apply digits2_pos_unique; [lia|]. replace (prec + 1 - 1) with prec by lia. rewrite Z.pow_add_r by lia. lia. }
    rewrite Hd, fexp_normal by lia. replace (prec + 1 - prec) with 1 by lia.
    destruct p as [p|p|]; [lia| |lia]. cbn [shr_record_of_loc shr iter_pos shr_1 orb].
    exists p, (e + 1). split; [done|]. split; [|split; [lia|]].
    + apply digits2_pos_unique; lia.
    + replace (e + 1 - e) with 1 by lia. lia.
  - assert (Zpos (digits2_pos p) = prec) as Hd by (apply digits2_pos_unique; lia).
    rewrite Hd, fexp_normal by lia. rewrite Z.sub_diag. cbn [shr shr_record_of_loc].
    exists p, e. split; [done|]. split; [done|]. split; [lia|]. rewrite Z.sub_diag. lia.
Qed.

(** A rounded number is within one unit of its last place. *)
Lemma binary_round_aux_near p e l :
  prec ≤ Zpos (digits2_pos p) → emin prec emax ≤ Zpos (digits2_pos p) + e - prec →
  Zpos (digits2_pos p) + e < emax →
  ∃ m e', binary_round_aux prec emax false (Zpos p) e l = S754_finite false m e' ∧
    Zpos (digits2_pos m) = prec ∧ e ≤ e' ∧ Z.abs (Zpos m * 2 ^ (e' - e) - Zpos p) * 2 ^ (prec - 1) ≤ Zpos p.
Proof using Hprec.
  intros Hd Hmin Hmax. set (n := Zpos (digits2_pos p) - prec). pose proof (digits2_pos_range p) as Hr.
  assert (0 < 2 ^ (prec - 1)) by (apply Z.pow_pos_nonneg; lia).
  assert (0 < 2 ^ n) by (apply Z.pow_pos_nonneg; lia).
  assert (2 ^ (Zpos (digits2_pos p) - 1) = 2 ^ n * 2 ^ (prec - 1)) as H1.
  { rewrite <-Z.pow_add_r by lia. f_equal. lia. }
  assert (2 ^ Zpos (digits2_pos p) = 2 ^ n * 2 ^ prec) as H2.
  { rewrite <-Z.pow_add_r by lia. f_equal. lia. }
  unfold binary_round_aux, shr_fexp at 1. cbn [Zdigits2]. rewrite fexp_normal by lia. fold n.
  pose proof (shr_m_div (shr_record_of_loc (Zpos p) l) e n) as Hs. rewrite shr_m_of_loc in Hs.
  destruct (Hs ltac:(lia) ltac:(lia)) as [Hs1 Hs2]. clear Hs. destruct (shr _ e n) as [r e1]. cbn [fst snd] in *. subst e1.
  pose proof (round_nearest_even_near (shr_m r) (loc_of_shr_record r)) as Hnear. rewrite Hs1 in *.
  pose proof (Z.div_mod (Zpos p) (2 ^ n) ltac:(lia)). pose proof (Z.mod_pos_bound (Zpos p) (2 ^ n) ltac:(lia)).
  assert (2 ^ (prec - 1) ≤ Zpos p / 2 ^ n < 2 ^ prec).
  { split; [apply Z.div_le_lower_bound|apply Z.div_lt_upper_bound]; lia. }
  set (z := round_nearest_even _ _) in *.
  destruct (renormalize z (e + n)) as (m & e' & -> & Hm & He' & Hv); [lia..|].
  cbn [shr_m]. rewrite (proj2 (Z.leb_le _ _)) by lia. exists m, e'. split; [done|]. split; [done|]. split; [lia|].
  assert (Zpos m * 2 ^ (e' - e) = z * 2 ^ n) as ->.
  { rewrite <-Hv, <-Z.mul_assoc, <-Z.pow_add_r by lia. do 2 f_equal. lia. }
  assert (Z.abs (z * 2 ^ n - Zpos p) ≤ 2 ^ n) by nia. nia.
Qed.

(** A mantissa of the right length is left alone. *)
Lemma binary_round_aux_exact p e :
  Zpos (digits2_pos p) = prec → emin prec emax ≤ e → e + prec < emax →
  binary_round_aux prec emax false (Zpos p) e loc_Exact = S754_finite false p e.
Proof using Hprec.
  intros Hd Hmin Hmax.
  assert (shr_fexp prec emax (Zpos p) e loc_Exact = (Build_shr_record (Zpos p) false false, e)) as Hs.
  { unfold shr_fexp. cbn [Zdigits2]. rewrite Hd, fexp_normal by lia. by rewrite Z.sub_diag. }
  unfold binary_round_aux. rewrite Hs. cbn [shr_m loc_of_shr_record round_nearest_even]. rewrite Hs.
  cbn [shr_m]. by rewrite (proj2 (Z.leb_le _ _)) by lia.
Qed.
End round.

(** ** [float] *)

(** An integer as a [float]: the exponent is at least -23, so that everything is compared at that scale. *)
Lemma f32_of_Z_near n :
  0 < n < 2 ^ 64 →
  ∃ m e, f32_of_Z n = S754_finite false m e ∧ Zpos (digits2_pos m) = 24 ∧ -23 ≤ e ∧
    Z.abs (Zpos m * 2 ^ (e + 23) - n * 2 ^ 23) ≤ n ∧ (n < 2 ^ 24 → e ≤ 0 ∧ Zpos m * 2 ^ (e + 23) = n * 2 ^ 23).
Proof.
  intros Hn. destruct n as [|p|p]; try lia. unfold f32_of_Z, binary_normalize, binary_round.
  pose proof (digits2_pos_range p) as Hr.
  assert (Zpos (digits2_pos p) ≤ 64) as Hd.
  { destruct (Z.le_gt_cases (Zpos (digits2_pos p)) 64); [done|].
    assert (2 ^ 64 ≤ 2 ^ (Zpos (digits2_pos p) - 1)) by (apply Z.pow_le_mono_r; lia). lia. }
  unfold fexp, emin. rewrite Z.max_l by lia. unfold shl_align.
  replace (Zpos (digits2_pos p) + 0 - 24 - 0) with (Zpos (digits2_pos p) - 24) by lia.
  destruct (Zpos (digits2_pos p) - 24) as [|d|d] eqn:Hs.
  - rewrite binary_round_aux_exact by (unfold emin; lia). exists p, 0.
    split; [done|]. split; [lia|]. split; [lia|]. change (0 + 23) with 23. split; [lia|done].
  - destruct (binary_round_aux_near 24 128 ltac:(lia) p 0 loc_Exact) as (m & e & -> & Hm & He & Hv);
      [unfold emin; lia..|].
    exists m, e. split; [done|]. split; [done|]. split; [lia|]. rewrite Z.sub_0_r in Hv.
    split; [rewrite Z.pow_add_r by lia; nia|].
    assert (2 ^ 24 ≤ 2 ^ (Zpos (digits2_pos p) - 1)) by (apply Z.pow_le_mono_r; lia). lia.
  - assert (Zpos (Pos.iter xO p d) = Zpos p * 2 ^ Zpos d) as Ep.
    { clear. induction d as [|d IH] using Pos.peano_ind; [cbn; lia|].
      rewrite Pos.iter_succ, Pos2Z.inj_succ, Z.pow_succ_r by lia. lia. }
    assert (Zpos (digits2_pos (Pos.iter xO p d)) = 24) as Hd24 by (rewrite digits2_pos_iter; lia).
    rewrite binary_round_aux_exact by (unfold emin; lia). do 2 eexists. split; [done|]. split; [done|].
    split; [lia|]. rewrite Ep. rewrite <-Z.mul_assoc, <-Z.pow_add_r by lia.
    replace (Zpos d + (Zpos (digits2_pos p) + 0 - 24 + 23)) with 23 by lia. split; lia.
Qed.

(** The rounding up of a [float]; the result is a small integer, hence exact. *)
Lemma f32_ceil_trunc m e :
  Zpos (digits2_pos m) = 24 → -23 ≤ e ≤ 38 →
  ∃ c, sf_to_unsigned 64 (f32_ceil (S754_finite false m e)) = Some c ∧
    Zpos m * 2 ^ (e + 23) ≤ c * 2 ^ 23 < Zpos m * 2 ^ (e + 23) + 2 ^ 23.
Proof.
  intros Hd He. pose proof (digits2_pos_range m) as Hr. rewrite Hd in Hr.
  unfold f32_ceil. destruct (Z.leb_spec 0 e) as [Hge|Hlt].
  - unfold sf_to_unsigned, sf_trunc. rewrite (proj2 (Z.leb_le 0 e)) by done. cbn [cond_Zopp mbind option_bind].
    assert (2 ^ e ≤ 2 ^ 38) by (apply Z.pow_le_mono_r; lia). assert (0 < 2 ^ e) by (apply Z.pow_pos_nonneg; lia).
    rewrite (proj2 (Z.leb_le _ _)), (proj2 (Z.ltb_lt _ _)) by nia. cbn [andb].
    eexists. split; [done|]. rewrite Z.pow_add_r by lia. lia.
  - assert (2 ^ 1 ≤ 2 ^ (- e)) by (apply Z.pow_le_mono_r; lia).
    cbn [cond_Zopp]. set (c := - (- Zpos m / 2 ^ (- e))).
    pose proof (Z.div_mod (- Zpos m) (2 ^ (- e)) ltac:(lia)) as Hdm.
    pose proof (Z.mod_pos_bound (- Zpos m) (2 ^ (- e)) ltac:(lia)).
    assert (2 ^ (- e) * c = Zpos m + (- Zpos m) `mod` 2 ^ (- e)) as Hc by lia.
    assert (0 < c < 2 ^ 24) as Hcb by nia.
    assert (2 ^ 23 = 2 ^ (e + 23) * 2 ^ (- e)) as E23 by (rewrite <-Z.pow_add_r by lia; f_equal; lia).
    assert (0 < 2 ^ (e + 23)) by (apply Z.pow_pos_nonneg; lia).
    exists c. split; [|rewrite E23; nia].
    fold (f32_of_Z c). destruct (f32_of_Z_near c ltac:(lia)) as (m' & e' & Hf & _ & He' & _ & Hx).
    rewrite Hf. destruct (Hx ltac:(lia)) as [He0 Hv]. unfold sf_to_unsigned, sf_trunc. cbn [cond_Zopp].
    assert ((if 0 <=? e' then Zpos m' * 2 ^ e' else Zpos m' / 2 ^ (- e')) = c) as ->.
    2: { cbn [mbind option_bind]. rewrite (proj2 (Z.leb_le _ _)), (proj2 (Z.ltb_lt _ _)) by lia. done. }
    destruct (Z.leb_spec 0 e'); [assert (e' = 0) as -> by lia; change (0 + 23) with 23 in Hv; lia|].
    assert (2 ^ 23 = 2 ^ (e' + 23) * 2 ^ (- e')) as E23' by (rewrite <-Z.pow_add_r by lia; f_equal; lia).
    assert (0 < 2 ^ (e' + 23)) by (apply Z.pow_pos_nonneg; lia).
    assert (Zpos m' = c * 2 ^ (- e')) as -> by nia. apply Z.div_mul. lia.
Qed.

(** A quotient of numbers of full length. *)
Lemma f32_div_near ma ea m e :
  Zpos (digits2_pos ma) = 24 → Zpos (digits2_pos m) = 24 → -23 ≤ ea ≤ 41 → -26 ≤ e ≤ -24 →
  ∃ q mr er, f32_div (S754_finite false ma ea) (S754_finite false m e) = S754_finite false mr er ∧
    Zpos (digits2_pos mr) = 24 ∧ ea - e - 24 ≤ er ∧ 2 ^ 23 ≤ q ∧ q * Zpos m ≤ Zpos ma * 2 ^ 24 < (q + 1) * Zpos m ∧
    Z.abs (Zpos mr * 2 ^ (er - (ea - e - 24)) - q) * 2 ^ 23 ≤ q.
Proof.
  intros Hma Hm Hea He. pose proof (digits2_pos_range ma) as Hra. pose proof (digits2_pos_range m) as Hr.
  rewrite Hma in Hra. rewrite Hm in Hr. change (24 - 1) with 23 in *.
  unfold f32_div, SFdiv, SFdiv_core_binary. cbn [Zdigits2]. rewrite Hma, Hm.
  assert (Z.min (fexp 24 128 (24 + ea - (24 + e))) (ea - e) = ea - e - 24) as -> by (unfold fexp, emin; lia).
  replace (ea - e - (ea - e - 24)) with 24 by lia. cbv iota. rewrite Z.shiftl_mul_pow2 by lia.
  pose proof (Z_div_mod (Zpos ma * 2 ^ 24) (Zpos m) ltac:(lia)) as Hdm.
  destruct (Z.div_eucl _ _) as [q r]. destruct Hdm as [Hq Hrr].
  assert (2 ^ 23 ≤ q < 2 ^ 25) as Hqb by nia.
  destruct q as [|q|q]; try lia. cbn [xorb].
  assert (24 ≤ Zpos (digits2_pos q) ≤ 25) as Hdq.
  { destruct (Z.lt_ge_cases (Zpos q) (2 ^ 24)).
    - rewrite (digits2_pos_unique q 24); lia.
    - rewrite (digits2_pos_unique q 25); lia. }
  destruct (binary_round_aux_near 24 128 ltac:(lia) q (ea - e - 24) (new_location (Zpos m) r))
    as (mr & er & -> & Hd & Hle & Hv); [unfold emin; lia..|].
  exists (Zpos q), mr, er. split; [done|]. split; [done|]. split; [done|]. split; [lia|]. split; [lia|exact Hv].
Qed.

(** [size_t(std::ceil(float(n) / f))] for a factor between 0.2 and 0.95: more than [n] unless
    [n] is 0, and not much more than [5 * n]. *)
Lemma ceil_quotient_bounds n m e :
  0 < n ≤ 2 ^ 34 → Zpos (digits2_pos m) = 24 → -26 ≤ e ≤ -24 →
  2 ^ (- e) ≤ 5 * Zpos m → Zpos m * 2 ^ 24 ≤ 15938355 * 2 ^ (- e) →
  ∃ c, sf_to_unsigned 64 (f32_ceil (f32_div (f32_of_Z n) (S754_finite false m e))) = Some c ∧ n < c ≤ 8 * n.
Proof.
  intros Hn Hm He Hlow Hup. destruct (f32_of_Z_near n ltac:(lia)) as (ma & ea & -> & Hma & Hea & HA & _).
  pose proof (digits2_pos_range ma) as Hra. rewrite Hma in Hra.
  assert (ea ≤ 12) as Hea2.
  { destruct (Z.le_gt_cases ea 12); [done|]. assert (2 ^ 36 ≤ 2 ^ (ea + 23)) by (apply Z.pow_le_mono_r; lia). nia. }
  destruct (f32_div_near ma ea m e) as (q & mr & er & -> & Hmr & Her & Hq & Hqm & HR); [done|done|lia|done|].
  set (A := Zpos ma * 2 ^ (ea + 23)) in *.
  assert (0 < 2 ^ (ea - e - 1)) as Hs by (apply Z.pow_pos_nonneg; lia).
  set (s := 2 ^ (ea - e - 1)) in *. set (R := Zpos mr * 2 ^ (er + 23)).
  assert (R = Zpos mr * 2 ^ (er - (ea - e - 24)) * s) as ER.
  { unfold R, s. rewrite <-Z.mul_assoc, <-Z.pow_add_r by lia. do 2 f_equal. lia. }
  assert (Zpos ma * 2 ^ 24 * s = A * 2 ^ (- e)) as EA.
  { unfold A, s. rewrite <-!Z.mul_assoc, <-!Z.pow_add_r by lia. do 2 f_equal. lia. }
  set (Q := q * s). set (d := Zpos m) in *. set (w := 2 ^ (- e)) in *.
  assert (0 < w) by (apply Z.pow_pos_nonneg; lia).
  assert (Q * d ≤ A * w) as HQ1.
  { rewrite <-EA. unfold Q. replace (q * s * d) with (q * d * s) by ring. apply Z.mul_le_mono_nonneg_r; lia. }
  assert (A * w * 2 ^ 23 < Q * (2 ^ 23 + 1) * d) as HQ2.
  { assert (A * w < (Q + s) * d).
    { rewrite <-EA. unfold Q. replace ((q * s + s) * d) with ((q + 1) * d * s) by ring. apply Z.mul_lt_mono_pos_r; lia. }
    assert (2 ^ 23 * s ≤ q * s) by (apply Z.mul_le_mono_nonneg_r; lia).
    assert (s * 2 ^ 23 * d ≤ Q * d) by (apply Z.mul_le_mono_nonneg_r; unfold Q; lia). lia. }
  assert (Z.abs (R - Q) * 2 ^ 23 ≤ Q) as HQ3 .
  { rewrite ER. unfold Q. rewrite <-Z.mul_sub_distr_r, Z.abs_mul, (Z.abs_eq s) by lia.
    rewrite <-Z.mul_assoc, (Z.mul_comm s), Z.mul_assoc. apply Z.mul_le_mono_nonneg_r; lia. }
  assert (0 < Q) by (apply Z.mul_pos_pos; lia).
  assert (Q ≤ 5 * A) as Hup5.
  { assert (A * w ≤ A * (5 * d)) by (apply Z.mul_le_mono_nonneg_l; unfold A; lia).
    apply (Z.mul_le_mono_pos_r _ _ d); lia. }
  assert (A * 2 ^ 47 < Q * ((2 ^ 23 + 1) * 15938355)) as Hlow5.
  { assert (Q * (2 ^ 23 + 1) * (d * 2 ^ 24) ≤ Q * (2 ^ 23 + 1) * (15938355 * w)) by (apply Z.mul_le_mono_nonneg_l; lia).
    apply (Z.mul_lt_mono_pos_r w); lia. }
  destruct (f32_ceil_trunc mr er Hmr) as (c & -> & Hc).
  - split; [lia|]. destruct (Z.le_gt_cases er 38); [done|].
    assert (2 ^ 62 ≤ 2 ^ (er + 23)) by (apply Z.pow_le_mono_r; lia). unfold R in *. nia.
  - fold R in Hc. exists c. split; [done|]. lia.
Qed.

(** Multiplying by a power of two only changes the exponent. *)
Lemma scale_exact m e k :
  digits2_pos m = 24%positive → -80 ≤ e ≤ -24 → 0 ≤ k ≤ 63 →
  f32_mul (S754_finite false 8388608 (k - 23)) (S754_finite false m e) = S754_finite false m (k + e).
Proof.
  intros Hd He Hk. unfold f32_mul, SFmul, binary_round_aux. cbn [xorb].
  change (8388608 * m)%positive with (m~0~0~0~0~0~0~0~0~0~0~0~0~0~0~0~0~0~0~0~0~0~0~0)%positive.
  unfold shr_fexp. cbn [shr_record_of_loc].
  assert (Zdigits2 (Zpos m~0~0~0~0~0~0~0~0~0~0~0~0~0~0~0~0~0~0~0~0~0~0~0) = 47) as ->
    by (cbn [Zdigits2 digits2_pos]; rewrite Hd; reflexivity).
  unfold fexp at 1, emin at 1. rewrite Z.max_l by lia.
  replace (47 + (k - 23 + e) - 24 - (k - 23 + e)) with 23 by lia.
  cbn [shr Pos.iter iter_pos shr_1 shr_m shr_r shr_s loc_of_shr_record orb round_nearest_even].
  assert (Zdigits2 (Zpos m) = 24) as -> by (cbn [Zdigits2]; by rewrite Hd).
  unfold fexp, emin. rewrite Z.max_l by lia.
  replace (24 + (k - 23 + e + 23) - 24 - (k - 23 + e + 23)) with 0 by lia. cbn [shr shr_m].
  rewrite (proj2 (Z.leb_le _ _)) by lia. f_equal. lia.
Qed.

Lemma f32_of_pow2 k : 0 ≤ k ≤ 63 → f32_of_Z (2 ^ k) = S754_finite false 8388608 (k - 23).
Proof.
  intros Hk. replace k with (Z.of_nat (Z.to_nat k)) by lia. assert (Z.to_nat k < 64)%nat as Hi by lia.
  revert Hi. generalize (Z.to_nat k). clear k Hk. intros i Hi.
  do 64 (destruct i as [|i]; [vm_compute; reflexivity|]). lia.
Qed.


(** [size_t(x * f)] for a power of two [x]: the product is exact. *)
Lemma scaled_pow2 m e k :
  Zpos (digits2_pos m) = 24 → -80 ≤ e ≤ -24 → 0 ≤ k ≤ 63 →
  sf_to_unsigned 64 (f32_mul (f32_of_Z (2 ^ k)) (S754_finite false m e)) = Some (Zpos m * 2 ^ k / 2 ^ (- e)).
Proof.
  intros Hd He Hk. pose proof (digits2_pos_range m) as Hr. rewrite Hd in Hr.
  assert (2 ^ 24 ≤ 2 ^ (- e)) by (apply Z.pow_le_mono_r; lia). assert (2 ^ k ≤ 2 ^ 63) by (apply Z.pow_le_mono_r; lia).
  assert (0 ≤ Zpos m * 2 ^ k / 2 ^ (- e) < 2 ^ 64) as Hb.
  { split; [apply Z.div_pos; lia|]. apply Z.div_lt_upper_bound; nia. }
  rewrite f32_of_pow2, scale_exact by (done || lia). unfold sf_to_unsigned, sf_trunc. cbn [cond_Zopp mbind option_bind].
  assert ((if 0 <=? k + e then Zpos m * 2 ^ (k + e) else Zpos m / 2 ^ (- (k + e))) = Zpos m * 2 ^ k / 2 ^ (- e)) as ->.
  2: by rewrite (proj2 (Z.leb_le _ _)), (proj2 (Z.ltb_lt _ _)) by lia.
  destruct (Z.leb_spec 0 (k + e)) as [Hge|Hlt].
  - assert (2 ^ k = 2 ^ (k + e) * 2 ^ (- e)) as -> by (rewrite <-Z.pow_add_r by lia; f_equal; lia).
    by rewrite Z.mul_assoc, Z.div_mul by lia.
  - assert (2 ^ (- e) = 2 ^ (- (k + e)) * 2 ^ k) as -> by (rewrite <-Z.pow_add_r by lia; f_equal; lia).
    by rewrite Z.div_mul_cancel_r by lia.
Qed.
