(* ===== verification/BitArray.v ===== *)
(** * Arrays of bits stored in words

    The bit arrays of the Bloom filters: [w]-bit words, a position [q] being bit
    [q mod w] of word [q / w]; the loops that set and look up a sequence of
    positions. *)
From S2P Require Import Prelude Words.

(** [a[i] = v] *)
Definition arr_set (a : list Z) (i v : Z) : option (list Z) :=
  if (0 <=? i) && (i <? Z.of_nat (length a)) then Some (<[Z.to_nat i := v]> a) else None.

Definition arr_bit (w : Z) (a : list Z) (q : Z) : bool :=
  match arr_get a (q / w) with Some v => Z.testbit v (q `mod` w) | None => false end.

(** A filter's array: [n] words that fit their width. *)
Definition words_ok (w : Z) (n : Z) (a : list Z) : Prop :=
  Z.of_nat (length a) = n ∧ Forall (fits w) a.

Lemma arr_get_ok w n a i : words_ok w n a → 0 ≤ i < n → ∃ v, arr_get a i = Some v ∧ fits w v.
Proof.
  intros [Hlen Hall] Hi. destruct (arr_get_in_bounds a i) as [v Hv]; [lia|].
  exists v. split; [done|]. apply arr_get_Some in Hv as [_ Hv]. by eapply Forall_lookup_1 in Hall.
Qed.

Lemma arr_get_set a a' i v j :
  arr_set a i v = Some a' → arr_get a' j = if j =? i then Some v else arr_get a j.
Proof.
  unfold arr_set. destruct ((0 <=? i) && _) eqn:Hi; [|done]. intros [= <-].
  apply andb_true_iff in Hi as [Hi1%Z.leb_le Hi2%Z.ltb_lt].
  unfold arr_get. destruct (Z.eqb_spec j i) as [->|Hne].
  - rewrite (proj2 (Z.leb_le _ _)) by lia. apply list_lookup_insert_eq. lia.
  - destruct (Z.leb_spec 0 j); [|done]. apply list_lookup_insert_ne. lia.
Qed.

(** [a[i] |= m] sets the bits of [m] in word [i] and leaves the others. *)
Lemma arr_or_spec w n a i v m :
  0 < w → words_ok w n a → 0 ≤ i < n → arr_get a i = Some v → fits w m →
  ∃ a', arr_set a i (Z.lor v m) = Some a' ∧ words_ok w n a' ∧
    ∀ q, arr_bit w a' q = arr_bit w a q || ((q / w =? i) && Z.testbit m (q `mod` w)).
Proof.
  intros Hw Ha Hi Hv Hm.
  destruct (arr_get_ok w n a i Ha Hi) as (v' & Hv' & Hf). rewrite Hv in Hv'. injection Hv' as <-.
  destruct Ha as [Hlen Hall].
  assert (arr_set a i (Z.lor v m) = Some (<[Z.to_nat i := Z.lor v m]> a)) as Hset.
  { unfold arr_set. rewrite (proj2 (Z.leb_le _ _)), (proj2 (Z.ltb_lt _ _)) by lia. done. }
  exists (<[Z.to_nat i := Z.lor v m]> a). split; [done|]. split.
  - split; [by rewrite length_insert|]. apply Forall_insert; [done|]. by apply fits_lor; [lia|..].
  - intros q. unfold arr_bit. rewrite (arr_get_set _ _ _ _ _ Hset).
    destruct (Z.eqb_spec (q / w) i) as [Heq|Hne]; simpl; [|by rewrite orb_false_r].
    by rewrite Heq, Hv, Z.lor_spec.
Qed.

(** ** Single bits of a byte array *)

(** [1 << (position & 7)], as an [unsigned int] *)
Definition bit_mask (position : Z) : Z := u32 (Z.shiftl 1 (Z.land position 7)).

Lemma bit_mask_pow position : 0 ≤ position → bit_mask position = 2 ^ (position `mod` 8).
Proof.
  intros Hp. unfold bit_mask. change 7 with (Z.ones 3). rewrite Z.land_ones by lia.
  change (2 ^ 3) with 8. assert (0 ≤ position `mod` 8 < 8) by (apply Z.mod_pos_bound; lia).
  rewrite Z.shiftl_1_l. apply wrap_small. split; [lia|]. apply Z.pow_lt_mono_r; lia.
Qed.

Lemma land_pow2_testbit v k : 0 ≤ k → negb (Z.land v (2 ^ k) =? 0) = Z.testbit v k.
Proof.
  intros Hk. destruct (Z.testbit v k) eqn:Hb.
  - apply negb_true_iff, Z.eqb_neq. intros H0.
    apply (f_equal (λ z, Z.testbit z k)) in H0.
    rewrite Z.land_spec, Hb, Z.pow2_bits_true, Z.bits_0 in H0 by lia. done.
  - apply negb_false_iff, Z.eqb_eq, Z.bits_inj'. intros j Hj.
    rewrite Z.land_spec, Z.bits_0, Z.pow2_bits_eqb by lia.
    destruct (Z.eqb_spec k j) as [<-|]; [by rewrite Hb|by rewrite andb_false_r].
Qed.

Definition set_bit (bytes : list Z) (byte position : Z) : option (list Z) :=
  b ← arr_get bytes byte; arr_set bytes byte (u8 (Z.lor b (bit_mask position))).

Definition test_bit (bytes : list Z) (byte position : Z) : option bool :=
  b ← arr_get bytes byte; Some (negb (Z.land b (bit_mask position) =? 0)).

Section bits.
Context (n : Z) (bytes : list Z) (Hok : words_ok 8 n bytes).
Context (byte position : Z) (Hbyte : 0 ≤ byte < n) (Hpos : 0 ≤ position).

(** The position, counted from the start of the array. *)
Let q := 8 * byte + position `mod` 8.

Lemma set_bit_spec :
  ∃ bytes', set_bit bytes byte position = Some bytes' ∧ words_ok 8 n bytes' ∧
    ∀ p, arr_bit 8 bytes' p = arr_bit 8 bytes p || bool_decide (p = q).
Proof using Hok Hbyte Hpos.
  unfold set_bit. destruct (arr_get_ok 8 n bytes byte Hok Hbyte) as (b & Hb & Hf).
  rewrite Hb. cbn [mbind option_bind]. rewrite bit_mask_pow by done.
  assert (0 ≤ position `mod` 8 < 8) as Hmod by (apply Z.mod_pos_bound; lia).
  assert (fits 8 (2 ^ (position `mod` 8))) as Hm.
  { split; [lia|]. apply Z.pow_lt_mono_r; lia. }
  rewrite (wrap_small 8) by (apply fits_lor; [lia|done..]).
  destruct (arr_or_spec 8 n bytes byte b _ ltac:(lia) Hok Hbyte Hb Hm) as (bs & Hset & Hok' & Hbits).
  exists bs. split; [done|]. split; [done|]. intros p. rewrite Hbits. f_equal.
  rewrite Z.pow2_bits_eqb by lia. subst q.
  destruct (Z.eqb_spec (p / 8) byte), (Z.eqb_spec (position `mod` 8) (p `mod` 8)); simpl; symmetry;
    first [apply bool_decide_eq_true_2 | apply bool_decide_eq_false_2]; div_lia.
Qed.

Lemma test_bit_spec : test_bit bytes byte position = Some (arr_bit 8 bytes q).
Proof using Hok Hbyte Hpos.
  unfold test_bit. destruct (arr_get_ok 8 n bytes byte Hok Hbyte) as (b & Hb & Hf).
  rewrite Hb. cbn [mbind option_bind]. rewrite bit_mask_pow, land_pow2_testbit by div_lia.
  f_equal. unfold arr_bit. subst q.
  replace ((8 * byte + position `mod` 8) / 8) with byte by div_lia.
  replace ((8 * byte + position `mod` 8) `mod` 8) with (position `mod` 8) by div_lia.
  by rewrite Hb.
Qed.
End bits.

(** ** Loops over positions *)

(** [for (i = first; ...; i++) set the bit at pos(i)] *)
Lemma for_set_bits n byte position (q : Z → Z) k : ∀ i bytes,
  words_ok 8 n bytes →
  (∀ j, i ≤ j < i + Z.of_nat k → 0 ≤ byte j < n ∧ 0 ≤ position j ∧ q j = 8 * byte j + position j `mod` 8) →
  ∃ bytes', for_loop k i (λ j bs, set_bit bs (byte j) (position j)) bytes = Some bytes' ∧
    words_ok 8 n bytes' ∧
    ∀ p, arr_bit 8 bytes' p = arr_bit 8 bytes p || bool_decide (p ∈ q <$> seqZ i (Z.of_nat k)).
Proof.
  induction k as [|k IH]; intros i bytes Hok Hpos.
  - exists bytes. split_and!; try done. intros p.
    by rewrite bool_decide_eq_false_2, orb_false_r by apply not_elem_of_nil.
  - destruct (Hpos i) as (Hb & Hp & Hq); [lia|]. cbn [for_loop].
    destruct (set_bit_spec n bytes Hok (byte i) (position i) Hb Hp) as (bs & -> & Hok1 & Hb1).
    cbn [mbind option_bind]. destruct (IH (i + 1) bs Hok1) as (bs' & -> & Hok2 & Hb2).
    { intros j Hj. apply Hpos. lia. }
    exists bs'. split; [done|]. split; [done|]. intros p. rewrite Hb2, Hb1, <-orb_assoc. f_equal.
    rewrite (seqZ_cons i) by lia. replace (Z.pred (Z.of_nat (S k))) with (Z.of_nat k) by lia.
    rewrite fmap_cons, <-bool_decide_or. apply bool_decide_ext.
    rewrite elem_of_cons, Hq. unfold Z.succ. done.
Qed.

(** [while (ret == true && i < hi) { ret = p(i); i += 1; }], on any state that holds
    [ret] and [i]. *)
Lemma while_test_bits {S} (body : S → option S) (ret : S → bool) (idx : S → Z)
    (inv : S → Prop) (p : Z → bool) hi :
  (∀ s, inv s → ret s = true → idx s < hi →
    ∃ s', body s = Some s' ∧ inv s' ∧ idx s' = idx s + 1 ∧ ret s' = p (idx s)) →
  ∀ fuel s, inv s → hi - idx s ≤ Z.of_nat fuel →
    ∃ s', while fuel (λ s, ret s && (idx s <? hi)) body s = Some s' ∧
      ret s' = ret s && forallb p (seqZ (idx s) (hi - idx s)).
Proof.
  intros Hbody fuel. induction fuel as [|fuel IH]; intros s Hinv Hfuel; cbn [while].
  - rewrite (proj2 (Z.ltb_ge _ _)), andb_false_r by lia. exists s. split; [done|].
    replace (seqZ (idx s) (hi - idx s)) with (@nil Z); [by rewrite andb_true_r|].
    symmetry. apply seqZ_nil. lia.
  - destruct (ret s) eqn:Hr; cbn [andb]; [|by exists s].
    destruct (Z.ltb_spec (idx s) hi).
    + destruct (Hbody s Hinv Hr) as (s1 & -> & Hinv1 & Hi & Hr1); [done|]. cbn [mbind option_bind].
      destruct (IH s1 Hinv1) as (s' & -> & Hr'); [lia|]. exists s'. split; [done|].
      rewrite Hr', Hr1, Hi, (seqZ_cons (idx s)) by lia. cbn [forallb]. f_equal. f_equal.
      f_equal; lia.
    + exists s. split; [done|]. rewrite seqZ_nil by lia. by rewrite Hr.
Qed.

Lemma words_ok_zeros w n : 0 ≤ n → 0 ≤ w → words_ok w n (replicate (Z.to_nat n) 0).
Proof.
  intros Hn Hw. split; [rewrite length_replicate; lia|].
  apply Forall_replicate. split; [lia|]. apply Z.pow_pos_nonneg; lia.
Qed.

Lemma arr_bit_zeros w n q : arr_bit w (replicate n 0) q = false.
Proof.
  unfold arr_bit, arr_get. destruct (0 <=? q / w); [|done].
  destruct (_ !! _) as [v|] eqn:Hv; [|done].
  apply lookup_replicate in Hv as [-> _]. apply Z.bits_0.
Qed.

Lemma forallb_fmap {A B} (p : B → bool) (g : A → B) l :
  forallb p (g <$> l) = forallb (λ x, p (g x)) l.
Proof. induction l as [|x l IH]; [done|]. rewrite fmap_cons. cbn [forallb]. by rewrite IH. Qed.
