(* ===== verification/BitFilter.v ===== *)
(** * What the Bloom filters promise

    The filters of the repository keep an array of bits; inserting an element sets
    the bits at the element's positions, testing it looks them up. [BitFilter] is
    that contract, as an interface between the filters
    (src/include/self_reg_bloom.hh, self_block_bloom.hh, register_blocked_bloom.hh,
    src/libbloom.cpp) and their clients (src/benchmark_filters.cpp): everything in
    the section below is proved from the three laws alone. *)
From S2P Require Import Prelude.

Class BitFilter (F V : Type) := {
  bf_add : F → V → option F;
  bf_test : F → V → option bool;
  (** the invariant of the constructed filter *)
  bf_ok : F → Prop;
  (** the bit array, as a set of positions *)
  bf_bits : F → Z → bool;
  (** where an element's bits are; [None] when the code has no defined answer *)
  bf_positions : F → V → option (list Z)
}.

Class BitFilterLaws (F V : Type) `{BitFilter F V} : Prop := {
  bf_add_spec f x ps : bf_ok f → bf_positions f x = Some ps →
    ∃ f', bf_add f x = Some f' ∧ bf_ok f' ∧
          (∀ y, bf_positions f' y = bf_positions f y) ∧
          (∀ q, bf_bits f' q = bf_bits f q || bool_decide (q ∈ ps));
  bf_add_undef f x : bf_ok f → bf_positions f x = None → bf_add f x = None;
  bf_test_spec f x ps : bf_ok f → bf_positions f x = Some ps →
    bf_test f x = Some (forallb (bf_bits f) ps)
}.

(** [for (x : xs) filter.addValue(x);] *)
Fixpoint insert_all {F V} (add : F → V → option F) (f : F) (xs : list V) : option F :=
  match xs with
  | [] => Some f
  | x :: xs => f' ← add f x; insert_all add f' xs
  end.

(** Whether bit [q] is a bit of one of the elements. *)
Definition bit_of_some {V} (positions : V → option (list Z)) (xs : list V) (q : Z) : bool :=
  existsb (λ y, match positions y with Some qs => bool_decide (q ∈ qs) | None => false end) xs.

(** [for (x : xs) result += filter.testValue(x);] *)
Fixpoint count_present {F V} (test : F → V → option bool) (f : F) (xs : list V) : option Z :=
  match xs with
  | [] => Some 0
  | x :: xs => b ← test f x; n ← count_present test f xs; Some (Z.b2z b + n)
  end.

Section theory.
Context {F V : Type} `{L : BitFilterLaws F V}.
Implicit Types (f : F) (x y : V) (xs : list V).

(** The positions of a list of elements, all defined. *)
Definition positions_all f xs : option (list (list Z)) := mapM (bf_positions f) xs.

(** Two filters with the same positions and the same bits cannot be told apart. *)
Definition bf_equiv f g : Prop :=
  (∀ y, bf_positions f y = bf_positions g y) ∧ ∀ q, bf_bits f q = bf_bits g q.

#[export] Instance bf_equiv_equivalence : Equivalence bf_equiv.
Proof.
  split.
  - by intros f.
  - intros f g [H1 H2]. by split.
  - intros f g h [H1 H2] [H3 H4]. split; intros; [by rewrite H1|by rewrite H2].
Qed.

Lemma bf_test_equiv f g x :
  bf_ok f → bf_ok g → bf_equiv f g → is_Some (bf_positions f x) → bf_test f x = bf_test g x.
Proof.
  intros Hf Hg [Hp Hb] [ps Hps].
  rewrite (bf_test_spec f x ps), (bf_test_spec g x ps) by (done || by rewrite <-Hp).
  f_equal. induction ps as [|p ps IH] in |- *; simpl; [done|]. by rewrite Hb, IH.
Qed.

(** After a sequence of insertions the bits are the old ones and the positions of
    the elements inserted. *)
Lemma bf_add_all_spec xs : ∀ f pss,
  bf_ok f → positions_all f xs = Some pss →
  ∃ f', insert_all bf_add f xs = Some f' ∧ bf_ok f' ∧
        (∀ y, bf_positions f' y = bf_positions f y) ∧
        (∀ q, bf_bits f' q = bf_bits f q || bool_decide (q ∈ concat pss)).
Proof using L.
  induction xs as [|x xs IH]; intros f pss Hf Hpss; simpl in *.
  - injection Hpss as <-. exists f. split_and!; try done. intros q.
    by rewrite bool_decide_eq_false_2, orb_false_r by apply not_elem_of_nil.
  - unfold positions_all in Hpss. simpl in Hpss.
    apply bind_Some in Hpss as (ps & Hps & Hpss). apply bind_Some in Hpss as (pss' & Hpss & [= <-]).
    destruct (bf_add_spec f x ps Hf Hps) as (f1 & -> & Hf1 & Hp1 & Hb1). simpl.
    destruct (IH f1 pss' Hf1) as (f' & -> & Hf' & Hp' & Hb').
    { unfold positions_all. rewrite <-Hpss. apply mapM_ext. exact Hp1. }
    exists f'. split_and!; [done|done|intros y; by rewrite Hp', Hp1|].
    intros q. rewrite Hb', Hb1, <-orb_assoc. f_equal. simpl.
    rewrite <-bool_decide_or. apply bool_decide_ext. by rewrite elem_of_app.
Qed.

Lemma positions_all_elem xs : ∀ f pss x,
  positions_all f xs = Some pss → x ∈ xs →
  ∃ ps, bf_positions f x = Some ps ∧ ∀ q, q ∈ ps → q ∈ concat pss.
Proof.
  induction xs as [|y xs IH]; intros f pss x Hpss Hx; [by apply elem_of_nil in Hx|].
  unfold positions_all in Hpss. simpl in Hpss.
  apply bind_Some in Hpss as (ps & Hps & Hpss). apply bind_Some in Hpss as (pss' & Hpss & [= <-]).
  apply elem_of_cons in Hx as [->|Hx].
  - exists ps. split; [done|]. intros q Hq. simpl. apply elem_of_app. by left.
  - destruct (IH f pss' x Hpss Hx) as (ps' & ? & Hq). exists ps'. split; [done|].
    intros q ?. simpl. apply elem_of_app. auto.
Qed.

Lemma forallb_true_iff (p : Z → bool) l : forallb p l = true ↔ ∀ q, q ∈ l → p q = true.
Proof. rewrite forallb_forall. by setoid_rewrite list_elem_of_In. Qed.

(** An element's test after insertions: exactly when each of its positions was set
    before or belongs to an inserted element. *)
Lemma bf_test_after_adds f xs f' x ps :
  bf_ok f → is_Some (positions_all f xs) → insert_all bf_add f xs = Some f' →
  bf_positions f x = Some ps →
  bf_test f' x = Some (forallb (λ q, bf_bits f q || bit_of_some (bf_positions f) xs q) ps).
Proof using L.
  intros Hf [pss Hpss] Hadd Hps.
  destruct (bf_add_all_spec xs f pss Hf Hpss) as (g & Hg & Hok & Hp & Hb).
  rewrite Hadd in Hg. injection Hg as <-.
  rewrite (bf_test_spec f' x ps Hok) by (by rewrite Hp). f_equal.
  induction ps as [|q ps' IH] in |- *; [done|]. simpl. rewrite IH, Hb. f_equal. f_equal.
  clear - Hpss. revert pss Hpss. induction xs as [|y xs IH]; intros pss Hpss; simpl.
  - injection Hpss as <-. by apply bool_decide_eq_false_2, not_elem_of_nil.
  - unfold positions_all in Hpss. simpl in Hpss.
    apply bind_Some in Hpss as (qs & -> & Hpss). apply bind_Some in Hpss as (pss' & Hpss & [= <-]).
    rewrite <-(IH _ Hpss). simpl. rewrite <-bool_decide_or. apply bool_decide_ext.
    by rewrite elem_of_app.
Qed.

(** No false negatives. *)
Lemma bf_no_false_negatives f xs :
  bf_ok f → is_Some (positions_all f xs) →
  ∃ f', insert_all bf_add f xs = Some f' ∧ bf_ok f' ∧ ∀ x, x ∈ xs → bf_test f' x = Some true.
Proof using L.
  intros Hf [pss Hpss].
  destruct (bf_add_all_spec xs f pss Hf Hpss) as (f' & Hadd & Hok & Hp & Hb).
  exists f'. split; [done|]. split; [done|]. intros x Hx.
  destruct (positions_all_elem xs f pss x Hpss Hx) as (ps & Hps & Hq).
  rewrite (bf_test_spec f' x ps Hok) by (by rewrite Hp). f_equal.
  apply forallb_true_iff. intros q Hin. rewrite Hb.
  rewrite (bool_decide_eq_true_2 (q ∈ concat pss)) by auto. by rewrite orb_true_r.
Qed.

(** An empty filter: the insertions alone determine every answer. *)
Lemma bf_exact f xs :
  bf_ok f → (∀ q, bf_bits f q = false) → is_Some (positions_all f xs) →
  ∃ f', insert_all bf_add f xs = Some f' ∧
    (∀ x, x ∈ xs → bf_test f' x = Some true) ∧
    (∀ x ps, bf_positions f x = Some ps →
      bf_test f' x = Some (forallb (bit_of_some (bf_positions f) xs) ps)).
Proof using L.
  intros Hf Hempty Hpos.
  destruct (bf_no_false_negatives f xs Hf Hpos) as (f' & Hadd & _ & Htest).
  exists f'. split; [done|]. split; [done|]. intros x ps Hps.
  rewrite (bf_test_after_adds f xs f' x ps Hf Hpos Hadd Hps). f_equal.
  induction ps as [|q ps IH] in |- *; [done|]. cbn [forallb]. by rewrite Hempty, IH.
Qed.

Lemma positions_all_total f xs :
  Forall (λ x, is_Some (bf_positions f x)) xs → is_Some (positions_all f xs).
Proof using. intros Hall. apply mapM_is_Some. exact Hall. Qed.

(** The check [result == data.size()] of the benchmark client. *)
Lemma bf_count_all f xs :
  bf_ok f → is_Some (positions_all f xs) →
  ∃ f', insert_all bf_add f xs = Some f' ∧ count_present bf_test f' xs = Some (Z.of_nat (length xs)).
Proof using L.
  intros Hf Hpos. destruct (bf_no_false_negatives f xs Hf Hpos) as (f' & Hadd & _ & Htest).
  exists f'. split; [done|]. clear - Htest. induction xs as [|x xs IH]; [done|].
  cbn [count_present]. rewrite Htest by apply list_elem_of_here. simpl.
  rewrite IH by (intros y Hy; by apply Htest, list_elem_of_further). simpl. f_equal. lia.
Qed.

(** The order of the insertions does not matter. *)
Lemma bf_add_all_perm f xs ys :
  xs ≡ₚ ys → bf_ok f → is_Some (positions_all f xs) →
  ∃ g h, insert_all bf_add f xs = Some g ∧ insert_all bf_add f ys = Some h ∧ bf_equiv g h.
Proof using L.
  intros Hperm Hf [pss Hpss].
  assert (∃ pss', positions_all f ys = Some pss' ∧ concat pss ≡ₚ concat pss') as (pss' & Hpss' & Hc).
  { unfold positions_all in *. clear Hf. revert pss Hpss.
    induction Hperm as [|x xs ys _ IH|x y xs|xs ys zs _ IH1 _ IH2]; intros pss Hpss; simpl in *.
    - eauto.
    - apply bind_Some in Hpss as (ps & -> & Hpss). apply bind_Some in Hpss as (pss1 & Hpss & [= <-]).
      destruct (IH _ Hpss) as (pss' & -> & Hc). simpl. eexists. split; [done|]. simpl. by rewrite Hc.
    - apply bind_Some in Hpss as (ps & -> & Hpss). apply bind_Some in Hpss as (pss1 & Hpss & [= <-]).
      apply bind_Some in Hpss as (qs & -> & Hpss). apply bind_Some in Hpss as (pss2 & -> & [= <-]).
      simpl. eexists. split; [done|]. simpl. rewrite !app_assoc. by rewrite (Permutation_app_comm ps qs).
    - destruct (IH1 _ Hpss) as (pss1 & H1 & Hc1). destruct (IH2 _ H1) as (pss2 & H2 & Hc2).
      exists pss2. split; [done|]. by rewrite Hc1. }
  destruct (bf_add_all_spec xs f pss Hf Hpss) as (g & Hg & _ & Hpg & Hbg).
  destruct (bf_add_all_spec ys f pss' Hf Hpss') as (h & Hh & _ & Hph & Hbh).
  exists g, h. split; [done|]. split; [done|]. split.
  - intros y. by rewrite Hpg, Hph.
  - intros q. rewrite Hbg, Hbh. f_equal. apply bool_decide_ext. by rewrite Hc.
Qed.
End theory.
