(* ===== verification/SelfBloom.v ===== *)
(** * The register-free Bloom filter (src/include/self_reg_bloom.hh)

    [selfBloom<ValueType, Hash>] for any hash function, with its constructor,
    [addValue] and [testValue]. *)
From S2P Require Import Prelude Words Floats BitArray BitFilter.

(** [(uint32_t)(((uint64_t)hash * n) >> 32)] *)
Definition mult_reduce (hash n : Z) : Z := u32 (Z.shiftr (u64 (u32 hash * u32 n)) 32).

Record selfBloom := SelfBloom {
  sizeInBits : Z;
  sb_bytes : list Z;
  numElementsExpected : Z;
  fprAtExpectedElements : spec_float;
  numHashes : Z
}.

(** [selfBloomUtils::generateNumBits] *)
Definition generateNumBits (bitsPerElement : spec_float) (numElementsExpected : Z) : option Z :=
  sizeInBits ← sf_to_i32 (f64_mul (f64_of_Z numElementsExpected) bitsPerElement);
  Some (u64 sizeInBits).

(** ** The constructor *)
Section constructor.
(** libm *)
Context (log : spec_float → spec_float) (pow : spec_float → spec_float → spec_float).

Definition calculateFPR (size_in_bytes numElementsExpected : Z) : spec_float :=
  let ln2 := log (f64_of_Z 2) in
  let bitsPerElement :=
    f64_div (f64_mul (f64_of_Z size_in_bytes) (f64_of_Z 8)) (f64_of_Z numElementsExpected) in
  pow (f64_lit 5 1) (f64_mul bitsPerElement ln2).

(** The [assert] is the guard of the last line. *)
Definition selfBloom_ctor (size_in_bits num_elements : Z) : option selfBloom :=
  let addByte := if negb (size_in_bits `mod` 8 =? 0) then 1 else 0 in
  let sizeInBytes := u64 (size_in_bits / 8 + addByte) in
  let bytes := replicate (Z.to_nat sizeInBytes) 0 in
  let sizeInBits := u64 (8 * sizeInBytes) in
  let fpr := calculateFPR sizeInBytes num_elements in
  numHashes ← sf_to_unsigned 32 (sf_max (f64_of_Z 1)
    (f64_div (f64_mul (log (f64_of_Z 2)) (f64_mul (f64_of_Z sizeInBytes) (f64_of_Z 8)))
             (f64_of_Z num_elements)));
  if 1 <=? numHashes then Some (SelfBloom sizeInBits bytes num_elements fpr numHashes) else None.
End constructor.

(** ** Insertion and lookup *)
Section operations.
Context {V : Type} (hash : V → option Z).

Definition setBit (bytes : list Z) (position : Z) : option (list Z) :=
  set_bit bytes (Z.shiftr position 3) position.

Definition testBit (bytes : list Z) (position : Z) : option bool :=
  test_bit bytes (Z.shiftr position 3) position.

(** [hash1 + i * hash2] on [uint32_t] *)
Definition double_hash (hash1 hash2 i : Z) : Z := u32 (hash1 + u32 (i * hash2)).

Definition addValue (f : selfBloom) (x : V) : option selfBloom :=
  hash_full ← hash x;
  let hash1 := u32 hash_full in
  let hash2 := u32 (Z.shiftr hash_full 32) in
  let position1 := mult_reduce hash1 (sizeInBits f) in
  bytes ← setBit (sb_bytes f) position1;
  bytes ← for_loop (Z.to_nat (numHashes f - 1)) 1
    (λ i bytes, setBit bytes (mult_reduce (double_hash hash1 hash2 i) (sizeInBits f))) bytes;
  Some (SelfBloom (sizeInBits f) bytes (numElementsExpected f) (fprAtExpectedElements f) (numHashes f)).

(** One turn of the loop on [(returnVal, i)]. *)
Definition testValue_body (f : selfBloom) (hash1 hash2 : Z) (s : bool * Z) : option (bool * Z) :=
  let '(_, i) := s in
  r ← testBit (sb_bytes f) (mult_reduce (double_hash hash1 hash2 i) (sizeInBits f));
  Some (r, u32 (i + 1)).

Definition testValue (f : selfBloom) (x : V) : option bool :=
  hash_full ← hash x;
  let hash1 := u32 hash_full in
  let hash2 := u32 (Z.shiftr hash_full 32) in
  let position1 := mult_reduce hash1 (sizeInBits f) in
  returnVal ← testBit (sb_bytes f) position1;
  s ← while (Z.to_nat (numHashes f)) (λ s, s.1 && (s.2 <? numHashes f))
        (testValue_body f hash1 hash2) (returnVal, 1);
  Some s.1.

(** ** Positions *)

(** The bits of an element. *)
Definition sb_positions (f : selfBloom) (x : V) : option (list Z) :=
  hash_full ← hash x;
  let hash1 := u32 hash_full in
  let hash2 := u32 (Z.shiftr hash_full 32) in
  Some ((λ i, mult_reduce (double_hash hash1 hash2 i) (sizeInBits f)) <$> seqZ 0 (numHashes f)).

(** A filter the constructor returns: not empty, at least one hash function. *)
Definition sb_ok (f : selfBloom) : Prop :=
  words_ok 8 (sizeInBits f / 8) (sb_bytes f) ∧ sizeInBits f `mod` 8 = 0 ∧
  0 < sizeInBits f ∧ 1 ≤ numHashes f < 2 ^ 32.

#[export] Instance selfBloom_filter : BitFilter selfBloom V := {
  bf_add := addValue;
  bf_test := testValue;
  bf_ok := sb_ok;
  bf_bits f := arr_bit 8 (sb_bytes f);
  bf_positions := sb_positions
}.

Lemma mult_reduce_bound h n : 0 ≤ mult_reduce h n ∧ (mult_reduce h n < u32 n ∨ mult_reduce h n = 0).
Proof using.
  unfold mult_reduce. assert (fits 32 (u32 h)) as [H1 H2] by (apply fits_wrap; lia).
  assert (fits 32 (u32 n)) as [H3 H4] by (apply fits_wrap; lia).
  rewrite (wrap_small 64) by (split; nia). rewrite Z.shiftr_div_pow2 by lia.
  assert (0 ≤ u32 h * u32 n / 2 ^ 32) by (apply Z.div_pos; lia).
  assert (u32 n = 0 ∨ u32 h * u32 n / 2 ^ 32 < u32 n) as [->|Hlt].
  { destruct (decide (u32 n = 0)); [by left|right]. apply Z.div_lt_upper_bound; nia. }
  - rewrite Z.mul_0_r. vm_compute. split; [done|by right].
  - rewrite wrap_small by (split; lia). split; [done|by left].
Qed.

Lemma mult_reduce_in_range h n : 0 < n → n `mod` 8 = 0 →
  0 ≤ mult_reduce h n < n ∧ 0 ≤ Z.shiftr (mult_reduce h n) 3 < n / 8.
Proof using.
  intros Hn H8. rewrite Z.shiftr_div_pow2 by lia. change (2 ^ 3) with 8.
  destruct (mult_reduce_bound h n) as [H0 Hlt].
  assert (u32 n ≤ n) by (apply Z.mod_le; lia).
  assert (mult_reduce h n < n) by lia. split; [lia|]. div_lia.
Qed.

Lemma byte_and_bit position : 0 ≤ position → 8 * Z.shiftr position 3 + position `mod` 8 = position.
Proof using. intros. rewrite Z.shiftr_div_pow2 by lia. change (2 ^ 3) with 8. div_lia. Qed.

Lemma double_hash_0 hash1 hash2 : fits 32 hash1 → double_hash hash1 hash2 0 = hash1.
Proof using. intros H. unfold double_hash. rewrite wrap_add_r, Z.mul_0_l, Z.add_0_r. by apply wrap_small. Qed.

(** The positions are the one set first, then those of the loop. *)
Lemma sb_positions_split f x h :
  hash x = Some h → 1 ≤ numHashes f →
  sb_positions f x = Some (mult_reduce (u32 h) (sizeInBits f) ::
    ((λ i, mult_reduce (double_hash (u32 h) (u32 (Z.shiftr h 32)) i) (sizeInBits f))
      <$> seqZ 1 (numHashes f - 1))).
Proof using.
  intros Hh Hn. unfold sb_positions. rewrite Hh. cbn [mbind option_bind].
  rewrite seqZ_cons by lia. rewrite fmap_cons, double_hash_0 by (apply fits_wrap; lia).
  done.
Qed.

Lemma sb_add_spec f x ps :
  sb_ok f → sb_positions f x = Some ps →
  ∃ f', addValue f x = Some f' ∧ sb_ok f' ∧ (∀ y, sb_positions f' y = sb_positions f y) ∧
    ∀ q, arr_bit 8 (sb_bytes f') q = arr_bit 8 (sb_bytes f) q || bool_decide (q ∈ ps).
Proof using.
  intros (Hok & H8 & Hn & Hk) Hps. unfold addValue.
  destruct (hash x) as [h|] eqn:Hh; [|by unfold sb_positions in Hps; rewrite Hh in Hps].
  rewrite (sb_positions_split f x h Hh) in Hps by lia. injection Hps as <-.
  cbn [mbind option_bind]. unfold setBit.
  destruct (mult_reduce_in_range (u32 h) (sizeInBits f)) as [Hp1 Hb1]; [done..|].
  destruct (set_bit_spec _ _ Hok _ (mult_reduce (u32 h) (sizeInBits f)) Hb1) as (bs & -> & Hok1 & Hbits1); [lia|].
  cbn [mbind option_bind]. rewrite byte_and_bit in Hbits1 by lia.
  destruct (for_set_bits (sizeInBits f / 8)
    (λ i, Z.shiftr (mult_reduce (double_hash (u32 h) (u32 (Z.shiftr h 32)) i) (sizeInBits f)) 3)
    (λ i, mult_reduce (double_hash (u32 h) (u32 (Z.shiftr h 32)) i) (sizeInBits f))
    (λ i, mult_reduce (double_hash (u32 h) (u32 (Z.shiftr h 32)) i) (sizeInBits f))
    (Z.to_nat (numHashes f - 1)) 1 bs Hok1) as (bs' & -> & Hok2 & Hbits2).
  { intros j Hj. destruct (mult_reduce_in_range (double_hash (u32 h) (u32 (Z.shiftr h 32)) j) (sizeInBits f))
      as [Hp Hb]; [done..|]. split; [lia|]. split; [lia|]. by rewrite byte_and_bit by lia. }
  cbn [mbind option_bind]. eexists. split; [done|]. split; [exact (conj Hok2 (conj H8 (conj Hn Hk)))|]. split; [done|].
  intros q. cbn [sb_bytes]. rewrite Hbits2, Hbits1, <-orb_assoc. f_equal.
  rewrite Z2Nat.id by lia. rewrite <-bool_decide_or. apply bool_decide_ext. by rewrite elem_of_cons.
Qed.

Lemma sb_test_spec f x ps :
  sb_ok f → sb_positions f x = Some ps →
  testValue f x = Some (forallb (arr_bit 8 (sb_bytes f)) ps).
Proof using.
  intros (Hok & H8 & Hn & Hk) Hps. unfold testValue.
  destruct (hash x) as [h|] eqn:Hh; [|by unfold sb_positions in Hps; rewrite Hh in Hps].
  rewrite (sb_positions_split f x h Hh) in Hps by lia. injection Hps as <-.
  cbn [mbind option_bind]. set (h1 := u32 h). set (h2 := u32 (Z.shiftr h 32)).
  assert (∀ d, testBit (sb_bytes f) (mult_reduce d (sizeInBits f))
            = Some (arr_bit 8 (sb_bytes f) (mult_reduce d (sizeInBits f)))) as Htest.
  { intros d. destruct (mult_reduce_in_range d (sizeInBits f)) as [Hp Hb]; [done..|].
    unfold testBit. rewrite (test_bit_spec _ _ Hok _ _ Hb) by lia. by rewrite byte_and_bit by lia. }
  rewrite Htest. cbn [mbind option_bind].
  destruct (while_test_bits (testValue_body f h1 h2) fst snd (λ s, 1 ≤ s.2)
    (λ i, arr_bit 8 (sb_bytes f) (mult_reduce (double_hash h1 h2 i) (sizeInBits f))) (numHashes f))
    with (fuel := Z.to_nat (numHashes f))
         (s := (arr_bit 8 (sb_bytes f) (mult_reduce h1 (sizeInBits f)), 1)) as ([r i] & -> & Hr).
  - intros [r i] Hi _ Hlt. cbn [fst snd] in *. unfold testValue_body. rewrite Htest.
    cbn [mbind option_bind]. rewrite (wrap_small 32) by (split; lia).
    eexists. split; [done|]. cbn [fst snd]. split; [lia|done].
  - done.
  - cbn [snd]. lia.
  - cbn [mbind option_bind fst snd] in *. rewrite Hr. cbn [forallb].
    by rewrite forallb_fmap.
Qed.

#[export] Instance selfBloom_laws : BitFilterLaws selfBloom V.
Proof using.
  split; simpl.
  - apply sb_add_spec.
  - intros f x _ Hps. unfold sb_positions, addValue in *. by destruct (hash x).
  - apply sb_test_spec.
Qed.
End operations.

(** ** The constructor establishes the invariant *)
Section constructed.
Context (log : spec_float → spec_float) (pow : spec_float → spec_float → spec_float).

Lemma selfBloom_ctor_ok size_in_bits num_elements f :
  0 < size_in_bits < 2 ^ 64 - 7 → selfBloom_ctor log pow size_in_bits num_elements = Some f →
  sb_ok f ∧ (∀ q, arr_bit 8 (sb_bytes f) q = false) ∧
  size_in_bits ≤ sizeInBits f < size_in_bits + 8.
Proof using.
  intros Hs. unfold selfBloom_ctor. set (n := u64 (size_in_bits / 8 + _)).
  assert (n = (size_in_bits + 7) / 8) as Hn.
  { subst n. destruct (Z.eqb_spec (size_in_bits `mod` 8) 0); cbn [negb];
      rewrite wrap_small by (split; div_lia); div_lia. }
  clearbody n. intros (k & Hk & Hf)%bind_Some.
  destruct (1 <=? k) eqn:Hk1; [|done]. apply Z.leb_le in Hk1. injection Hf as <-.
  apply sf_to_unsigned_fits in Hk as [_ Hk].
  rewrite (wrap_small 64 (8 * n)) by (split; div_lia). cbn [sb_bytes sizeInBits].
  split; [|split; [intros q; apply arr_bit_zeros|div_lia]].
  unfold sb_ok. cbn [sizeInBits sb_bytes numHashes].
  replace (8 * n / 8) with n by div_lia. split; [apply words_ok_zeros; div_lia|].
  split; [div_lia|]. split; [div_lia|lia].
Qed.

(** ** Properties *)

(** C4: A constructed filter to which any sequence of elements has been added
    answers every query exactly: present when, and only when, each bit of the
    queried element is a bit of some inserted element; in particular it has no
    false negatives. Neither operation leaves the array. *)
Theorem selfBloom_exact {V} (hash : V → option Z) size_in_bits num_elements f (xs : list V) :
  0 < size_in_bits < 2 ^ 64 - 7 →
  selfBloom_ctor log pow size_in_bits num_elements = Some f →
  Forall (λ x, is_Some (hash x)) xs →
  ∃ f', insert_all (addValue hash) f xs = Some f' ∧
    (∀ x, x ∈ xs → testValue hash f' x = Some true) ∧
    (∀ x ps, sb_positions hash f x = Some ps →
      testValue hash f' x = Some (forallb (bit_of_some (sb_positions hash f) xs) ps)).
Proof using.
  intros Hs Hctor Hall.
  destruct (selfBloom_ctor_ok size_in_bits num_elements f Hs Hctor) as (Hok & Hempty & _).
  apply (bf_exact (H := selfBloom_filter hash) f xs Hok Hempty), positions_all_total.
  eapply Forall_impl; [exact Hall|]. intros x [h Hh]. destruct Hok as (_ & _ & _ & ? & _).
  cbn [bf_positions selfBloom_filter]. rewrite (sb_positions_split hash f x h Hh) by done. done.
Qed.

(** When the hash of every element has an empty upper half, as [CRC32Hash_s]
    has on keys of eight bytes or more, all the hash functions of the filter
    coincide: each element owns a single bit, whatever [numHashes]. *)
Theorem selfBloom_degenerate {V} (hash : V → option Z) f x h :
  1 ≤ numHashes f → hash x = Some h → fits 32 h →
  sb_positions hash f x
    = Some (replicate (Z.to_nat (numHashes f)) (mult_reduce h (sizeInBits f))).
Proof using.
  intros Hn Hh Hf. unfold sb_positions. rewrite Hh. cbn [mbind option_bind].
  rewrite (wrap_small 32 h) by done. rewrite Z.shiftr_div_pow2, Z.div_small by (done || lia).
  rewrite (wrap_small 32 0) by (split; lia). f_equal.
  unfold double_hash. rewrite <-(length_seqZ 0 (numHashes f)).
  induction (seqZ 0 (numHashes f)) as [|i l IH]; [done|].
  rewrite fmap_cons, IH, Z.mul_0_r, (wrap_small 32 0), Z.add_0_r, (wrap_small 32 h)
    by (done || split; lia). done.
Qed.
End constructed.

(** A filter of 64 bits for four integers, each its own hash. *)
Lemma selfBloom_exact_witness :
  ∃ f f', selfBloom_ctor libm_one libm_half 64 4 = Some f ∧
    insert_all (addValue Some) f [5; 2 ^ 40 + 9] = Some f' ∧
    testValue Some f' 5 = Some true.
Proof.
  eexists.
  match goal with |- ∃ f', _ = Some ?f ∧ _ =>
    destruct (selfBloom_exact libm_one libm_half (V := Z) Some 64 4 f [5; 2 ^ 40 + 9]) as (f' & Ha & Ht & _)
  end.
  - lia.
  - vm_compute. reflexivity.
  - repeat constructor; by eexists.
  - exists f'. split; [vm_compute; reflexivity|]. split; [exact Ha|]. apply Ht, list_elem_of_here.
Defined.

Lemma selfBloom_degenerate_witness :
  sb_positions Some (SelfBloom 64 (replicate 8 0) 4 (f64_of_Z 0) 3) 77
  = Some (replicate 3 (mult_reduce 77 64)).
Proof. apply (selfBloom_degenerate Some (SelfBloom 64 (replicate 8 0) 4 (f64_of_Z 0) 3) 77 77); [cbn; lia|done|split; lia]. Defined.
