(* ===== verification/BlockBloom.v ===== *)
(** * The blocked Bloom filter (src/include/self_block_bloom.hh)

    [selfBlockBloom512]: a key's bits all lie in one 64-byte block. The file also
    holds the false-positive model both blocked filters choose [numHashes] with. *)
From S2P Require Import Prelude Words Floats BitArray BitFilter SelfBloom.

(** ** The false-positive model *)
Section fpr.
(** libm *)
Context (log exp lgamma : spec_float → spec_float) (pow : spec_float → spec_float → spec_float).

Definition poisson_pmf (numHashes lambda : spec_float) : spec_float :=
  exp (f64_sub (f64_sub (f64_mul numHashes (log lambda)) (lgamma (f64_add numHashes (f64_of_Z 1)))) lambda).

Definition fpr_standard (numHashes numElementsExpected bitsPerElement : spec_float) : spec_float :=
  let probabilityBitNotSet :=
    pow (f64_sub (f64_of_Z 1) (f64_div (f64_of_Z 1) (f64_mul numElementsExpected bitsPerElement)))
        (f64_mul numHashes numElementsExpected) in
  pow (f64_sub (f64_of_Z 1) probabilityBitNotSet) numHashes.

(** One turn of the [while (true)] loop on [(fpr, i, stop)]. *)
Definition fpr_body (block : Z) (threshold meanPerBlock : spec_float) (k : Z)
    (s : spec_float * Z * bool) : option (spec_float * Z * bool) :=
  let '(fpr, i, _) := s in
  let fprStandard := fpr_standard (f64_of_Z k) (f64_of_Z i) (f64_div (f64_of_Z block) (f64_of_Z i)) in
  let iPMF := poisson_pmf (f64_of_Z i) meanPerBlock in
  let fpr := f64_add fpr (f64_mul fprStandard iPMF) in
  if SFltb iPMF threshold && (150 <? i) then Some (fpr, i, true)
  else Some (fpr, u32 (i + 1), false).

Definition fpr_loop (block : Z) (fuel : nat) (bitsPerElement : spec_float) (k : Z) : option spec_float :=
  let threshold := pow (f64_of_Z 10) (f64_of_Z (-12)) in
  let meanPerBlock := f64_div (f64_of_Z block) bitsPerElement in
  s ← while fuel (λ s, negb s.2) (fpr_body block threshold meanPerBlock k) (f64_of_Z 0, 0, false);
  Some s.1.1.

Definition calculateFPRGivenK := fpr_loop 512.

(** The loop can stop at [i]. *)
Definition tail_below (block : Z) (bitsPerElement : spec_float) (i : Z) : Prop :=
  150 < i < 2 ^ 32 ∧
  SFltb (poisson_pmf (f64_of_Z i) (f64_div (f64_of_Z block) bitsPerElement))
    (pow (f64_of_Z 10) (f64_of_Z (-12))) = true.

Lemma fpr_loop_enough block bits k i0 fuel :
  tail_below block bits i0 → (Z.to_nat i0 < fuel)%nat → is_Some (fpr_loop block fuel bits k).
Proof using.
  intros [Hi0 Hsmall] Hfuel. unfold fpr_loop.
  destruct (while_total (λ s : spec_float * Z * bool, s.2 = true ∨ 0 ≤ s.1.2 ≤ i0)
    (λ s, if s.2 then 0%nat else S (Z.to_nat (i0 - s.1.2)))
    (λ s, negb s.2) (fpr_body block (pow (f64_of_Z 10) (f64_of_Z (-12)))
      (f64_div (f64_of_Z block) bits) k)) with (fuel := fuel) (s := (f64_of_Z 0, 0, false))
    as (s & Hs & _).
  - intros [[fpr i] stop] Hi Hst. cbn [fst snd negb] in *. destruct stop; [done|].
    destruct Hi as [|Hi]; [done|]. unfold fpr_body.
    match goal with |- context [if ?b then _ else _] => destruct b eqn:Hb end.
    + eexists. split; [done|]. cbn [fst snd]. split; [by left|lia].
    + assert (i ≠ i0).
      { intros ->. rewrite Hsmall, (proj2 (Z.ltb_lt _ _)) in Hb by lia. done. }
      eexists. split; [done|]. cbn [fst snd]. rewrite wrap_small by (split; lia). split; [right; lia|lia].
  - right. cbn. lia.
  - cbn. lia.
  - rewrite Hs. cbn. eauto.
Qed.

(** C33: The summation of the false-positive rate terminates exactly when the Poisson
    weight of some [i] above 150 is under the threshold: nothing else ends the
    [while (true)]. *)
Theorem fpr_loop_terminates block bits k :
  (∃ fuel, is_Some (fpr_loop block fuel bits k)) ↔ ∃ i, tail_below block bits i.
Proof using.
  split; [|intros [i Hi]; exists (S (Z.to_nat i)); apply (fpr_loop_enough _ _ _ i); [done|lia]].
  intros [fuel [fpr Hrun]]. unfold fpr_loop in Hrun. apply bind_Some in Hrun as (s & Hs & _).
  apply (while_inv (λ s, 0 ≤ s.1.2 < 2 ^ 32 ∧ (s.2 = true → ∃ i, tail_below block bits i))) in Hs
    as [[_ Hs] Hstop]; [apply Hs; by apply negb_false_iff| |].
  - clear. intros [[fpr i] stop] s' [Hi _] Hc. unfold fpr_body. cbn [fst snd] in *.
    match goal with |- context [if ?b then _ else _] => destruct b eqn:Hb end; intros [= <-]; cbn [fst snd].
    + split; [lia|]. intros _. apply andb_true_iff in Hb as [Hb H150%Z.ltb_lt].
      exists i. split; [lia|done].
    + split; [|done]. apply (fits_wrap 32 (i + 1)). lia.
  - cbn. split; [lia|done].
Qed.

(** One turn of the loop over the numbers of hash functions, on
    [(fprAtExpectedElements, this->numHashes)]; the member is not initialised. *)
Definition pick_body (calc : Z → option spec_float) (numHashes : Z)
    (s : spec_float * option Z) : option (spec_float * option Z) :=
  tempFPR ← calc numHashes;
  if SFltb tempFPR s.1 then Some (tempFPR, Some numHashes) else Some s.

(** The loop keeps a smallest rate, below 1; when it keeps none, no rate is. *)
Definition picked (calc : Z → option spec_float) (n : Z) (s : spec_float * option Z) : Prop :=
  match s.2 with
  | None => s.1 = f64_of_Z 1 ∧ ∀ j t, 1 ≤ j ≤ n → calc j = Some t → SFltb t (f64_of_Z 1) = false
  | Some k => 1 ≤ k ≤ n ∧ calc k = Some s.1 ∧ SFltb s.1 (f64_of_Z 1) = true ∧
      ∀ j t, 1 ≤ j ≤ n → calc j = Some t → SFltb t s.1 = false
  end.

Lemma pick_best calc n s :
  for_loop n 1 (pick_body calc) (f64_of_Z 1, None) = Some s → picked calc (Z.of_nat n) s.
Proof using.
  intros Hrun. replace (Z.of_nat n) with (1 + Z.of_nat n - 1) by lia.
  revert Hrun. apply (for_loop_ind (λ i s, picked calc (i - 1) s)).
  { split; [done|]. intros; lia. }
  intros i [fpr [k|]] s' Hi Hinv; unfold pick_body, picked in *; cbn [fst snd] in *;
    intros (t & Ht & Hs)%bind_Some; destruct (SFltb t fpr) eqn:Hlt; injection Hs as <-; cbn [fst snd].
  - destruct Hinv as (Hk & Hck & Hk1 & Hall). split; [lia|]. split; [done|].
    split; [by apply (SFltb_trans _ _ _ Hlt)|]. intros j u Hj Hu.
    destruct (decide (j = i)) as [->|]; [rewrite Ht in Hu; injection Hu as <-; apply SFltb_irrefl|].
    destruct (SFltb u t) eqn:Hut; [|done]. specialize (Hall j u ltac:(lia) Hu).
    by rewrite (SFltb_trans _ _ _ Hut Hlt) in Hall.
  - destruct Hinv as (Hk & Hck & Hk1 & Hall). split; [lia|]. split; [done|]. split; [done|].
    intros j u Hj Hu. destruct (decide (j = i)) as [->|]; [congruence|]. apply (Hall j); [lia|done].
  - destruct Hinv as [-> Hall]. split; [lia|]. split; [done|]. split; [done|].
    intros j u Hj Hu.
    destruct (decide (j = i)) as [->|]; [rewrite Ht in Hu; injection Hu as <-; apply SFltb_irrefl|].
    destruct (SFltb u t) eqn:Hut; [|done]. specialize (Hall j u ltac:(lia) Hu).
    by rewrite (SFltb_trans _ _ _ Hut Hlt) in Hall.
  - destruct Hinv as [-> Hall]. split; [done|]. intros j u Hj Hu.
    destruct (decide (j = i)) as [->|]; [congruence|]. apply (Hall j); [lia|done].
Qed.
End fpr.

(** ** The filter *)

Record selfBlockBloom512 := SelfBlockBloom512 {
  bb_sizeInBits : Z;
  bb_bytes : list Z;
  bb_numElementsExpected : Z;
  bb_fprAtExpectedElements : spec_float;
  bb_numHashes : Z;
  bb_numBlocks : Z
}.

Definition mult_reduce_block (hash n : Z) : Z := u32 (Z.shiftr (u64 (u32 hash * u32 n)) 32).

(** [(sizeInBits + (512 - (sizeInBits % 512))) / 8] *)
Definition block_bytes (sizeInBits : Z) : Z := u64 (sizeInBits + (512 - sizeInBits `mod` 512)) / 8.

Section constructor.
Context (log exp lgamma : spec_float → spec_float) (pow : spec_float → spec_float → spec_float).

(** [fuel] bounds the turns of the loop that sums the rates. *)
Definition selfBlockBloom512_ctor (fuel : nat) (sizeInBits numElementsExpected : Z)
    : option selfBlockBloom512 :=
  let sizeInBytes := block_bytes sizeInBits in
  let bytes := replicate (Z.to_nat sizeInBytes) 0 in
  let sizeInBits := u64 (8 * sizeInBytes) in
  '(fpr, numHashes) ← for_loop 4 1
    (pick_body (λ k,
      if numElementsExpected =? 0 then None
      else calculateFPRGivenK log exp lgamma pow fuel
        (f64_of_Z (sizeInBits / numElementsExpected)) k))
    (f64_of_Z 1, None);
  numHashes ← numHashes;
  if 1 <=? numHashes then
    let numBlocks := u32 (sizeInBits / 512) in
    if sizeInBits / 512 =? sizeInBytes / 64
    then Some (SelfBlockBloom512 sizeInBits bytes numElementsExpected fpr numHashes numBlocks)
    else None
  else None.

Definition getFPRatMaxCapacity (f : selfBlockBloom512) : spec_float := bb_fprAtExpectedElements f.
End constructor.

Section operations.
Context {V : Type} (hash : V → option Z).

Definition bb_setBit (bytes : list Z) (blockOffset positionInBlock : Z) : option (list Z) :=
  set_bit bytes (Z.shiftr positionInBlock 3 + blockOffset) positionInBlock.

Definition bb_testBit (bytes : list Z) (blockOffset positionInBlock : Z) : option bool :=
  test_bit bytes (Z.shiftr positionInBlock 3 + blockOffset) positionInBlock.

Definition bb_addValue (f : selfBlockBloom512) (x : V) : option selfBlockBloom512 :=
  hash_full ← hash x;
  let hash1 := u32 hash_full in
  let hash2 := u32 (Z.shiftr hash_full 32) in
  let blockOffset := u32 (64 * mult_reduce_block hash1 (bb_numBlocks f)) in
  bytes ← for_loop (Z.to_nat (bb_numHashes f)) 1
    (λ i bytes,
      let double_hash := u32 (hash1 + u32 (i * hash2)) in
      let positionInBlock := Z.land double_hash 511 in
      bb_setBit bytes blockOffset positionInBlock) (bb_bytes f);
  Some (SelfBlockBloom512 (bb_sizeInBits f) bytes (bb_numElementsExpected f)
    (bb_fprAtExpectedElements f) (bb_numHashes f) (bb_numBlocks f)).

(** One turn of the loop on [(returnVal, i, double_hash)]. *)
Definition bb_test_body (f : selfBlockBloom512) (hash2 blockOffset : Z) (s : bool * Z * Z)
    : option (bool * Z * Z) :=
  let '(_, i, double_hash) := s in
  let double_hash := u32 (double_hash + hash2) in
  let positionInBlock := Z.land double_hash (512 - 1) in
  returnVal ← bb_testBit (bb_bytes f) blockOffset positionInBlock;
  Some (returnVal, u32 (i + 1), double_hash).

Definition bb_testValue (f : selfBlockBloom512) (x : V) : option bool :=
  hash_full ← hash x;
  let hash1 := u32 hash_full in
  let hash2 := u32 (Z.shiftr hash_full 32) in
  let blockOffset := u32 (64 * mult_reduce_block hash1 (bb_numBlocks f)) in
  s ← while (Z.to_nat (bb_numHashes f)) (λ s, s.1.1 && (s.1.2 <=? bb_numHashes f))
        (bb_test_body f hash2 blockOffset) (true, 1, hash1);
  Some s.1.1.

(** ** Positions *)

Definition bb_offset (f : selfBlockBloom512) (h : Z) : Z :=
  u32 (64 * mult_reduce_block (u32 h) (bb_numBlocks f)).

Definition bb_position (f : selfBlockBloom512) (h i : Z) : Z :=
  8 * bb_offset f h + Z.land (u32 (u32 h + u32 (i * u32 (Z.shiftr h 32)))) 511.

Definition bb_positions (f : selfBlockBloom512) (x : V) : option (list Z) :=
  h ← hash x; Some (bb_position f h <$> seqZ 1 (bb_numHashes f)).

(** A filter the constructor returns: at least one block, 1 to 4 hash functions. *)
Definition bb_ok (f : selfBlockBloom512) : Prop :=
  words_ok 8 (bb_sizeInBits f / 8) (bb_bytes f) ∧ 0 < bb_sizeInBits f ∧
  bb_sizeInBits f `mod` 512 = 0 ∧ bb_numBlocks f = u32 (bb_sizeInBits f / 512) ∧
  1 ≤ bb_numHashes f ≤ 4.

#[export] Instance selfBlockBloom512_filter : BitFilter selfBlockBloom512 V := {
  bf_add := bb_addValue;
  bf_test := bb_testValue;
  bf_ok := bb_ok;
  bf_bits f := arr_bit 8 (bb_bytes f);
  bf_positions := bb_positions
}.

(** Every bit of an element lies in one 64-byte block of the array. *)
Lemma bb_block_in_range f h :
  bb_ok f →
  bb_offset f h `mod` 64 = 0 ∧ 0 ≤ bb_offset f h ∧ bb_offset f h + 64 ≤ bb_sizeInBits f / 8.
Proof using.
  intros (_ & Hpos & H512 & Hn & _). unfold bb_offset.
  destruct (mult_reduce_bound (u32 h) (bb_numBlocks f)) as [H0 H1].
  change mult_reduce with mult_reduce_block in *. set (m := mult_reduce_block _ _) in *.
  assert (fits 32 (u32 (64 * m))) as [H2 H3] by (apply fits_wrap; lia).
  assert (u32 (64 * m) ≤ 64 * m) by (apply Z.mod_le; lia).
  assert (u32 (bb_numBlocks f) ≤ bb_sizeInBits f / 512).
  { rewrite Hn, wrap_wrap. apply Z.mod_le; div_lia. }
  unfold wrap in *. change (2 ^ 32) with 4294967296 in *.
  split; [div_lia|]. split; [done|]. div_lia.
Qed.

Lemma land_511 z : Z.land z 511 = z `mod` 512.
Proof using. change 511 with (Z.ones 9). by rewrite Z.land_ones by lia. Qed.

(** The byte of a position in a block and the bit inside the array. *)
Lemma bb_position_byte f d h :
  bb_ok f →
  0 ≤ Z.shiftr (Z.land d 511) 3 + bb_offset f h < bb_sizeInBits f / 8 ∧ 0 ≤ Z.land d 511 ∧
  8 * bb_offset f h + Z.land d 511
    = 8 * (Z.shiftr (Z.land d 511) 3 + bb_offset f h) + Z.land d 511 `mod` 8.
Proof using.
  intros Hok. destruct (bb_block_in_range f h Hok) as (_ & H0 & H1).
  rewrite land_511, Z.shiftr_div_pow2 by lia. change (2 ^ 3) with 8.
  pose proof (Z.mod_pos_bound d 512 ltac:(lia)). generalize dependent (d `mod` 512). intros p Hp.
  split; [div_lia|]. split; [lia|div_lia].
Qed.

Lemma bb_add_spec f x ps :
  bb_ok f → bb_positions f x = Some ps →
  ∃ f', bb_addValue f x = Some f' ∧ bb_ok f' ∧ (∀ y, bb_positions f' y = bb_positions f y) ∧
    ∀ q, arr_bit 8 (bb_bytes f') q = arr_bit 8 (bb_bytes f) q || bool_decide (q ∈ ps).
Proof using.
  intros Hok Hps. pose proof Hok as (Hw & Hn & H512 & Hb & Hk).
  unfold bb_positions in Hps. destruct (hash x) as [h|] eqn:Hh; [|done].
  injection Hps as <-. unfold bb_addValue. rewrite Hh. cbn [mbind option_bind].
  fold (bb_offset f h). unfold bb_setBit.
  destruct (for_set_bits (bb_sizeInBits f / 8)
    (λ i, Z.shiftr (Z.land (u32 (u32 h + u32 (i * u32 (Z.shiftr h 32)))) 511) 3 + bb_offset f h)
    (λ i, Z.land (u32 (u32 h + u32 (i * u32 (Z.shiftr h 32)))) 511)
    (bb_position f h) (Z.to_nat (bb_numHashes f)) 1 (bb_bytes f) Hw) as (bs & Hloop & Hw' & Hbits).
  { intros j _. apply (bb_position_byte f _ h Hok). }
  cbv zeta. rewrite Hloop. cbn [mbind option_bind]. eexists. split; [done|].
  split; [exact (conj Hw' (conj Hn (conj H512 (conj Hb Hk))))|]. split; [done|].
  intros q. cbn [bb_bytes]. rewrite Hbits. by rewrite Z2Nat.id by lia.
Qed.

Lemma bb_test_spec f x ps :
  bb_ok f → bb_positions f x = Some ps →
  bb_testValue f x = Some (forallb (arr_bit 8 (bb_bytes f)) ps).
Proof using.
  intros Hok Hps. pose proof Hok as (Hw & Hn & H512 & Hb & Hk).
  unfold bb_positions in Hps. destruct (hash x) as [h|] eqn:Hh; [|done].
  injection Hps as <-. unfold bb_testValue. rewrite Hh. cbn [mbind option_bind].
  fold (bb_offset f h). set (h2 := u32 (Z.shiftr h 32)).
  rewrite (while_cond_ext _ (λ s, s.1.1 && (s.1.2 <? bb_numHashes f + 1)))
    by (intros s; by rewrite leb_ltb_succ).
  destruct (while_test_bits (bb_test_body f h2 (bb_offset f h)) (λ s, s.1.1) (λ s, s.1.2)
    (λ s, 1 ≤ s.1.2 ∧ s.2 = u32 (u32 h + u32 ((s.1.2 - 1) * h2)))
    (λ i, arr_bit 8 (bb_bytes f) (bb_position f h i)) (bb_numHashes f + 1))
    with (fuel := Z.to_nat (bb_numHashes f)) (s := (true, 1, u32 h)) as ([[r i] d] & -> & Hr).
  - intros [[r i] d] [Hi Hd] _ Hlt. cbn [fst snd] in *. unfold bb_test_body, bb_testBit.
    assert (u32 (d + h2) = u32 (u32 h + u32 (i * h2))) as ->.
    { subst d. rewrite wrap_add_l, (wrap_add_r 32 _ (i * h2)), <-(wrap_add_r 32 _ (i * h2)).
      replace (u32 h + u32 ((i - 1) * h2) + h2) with (u32 h + h2 + u32 ((i - 1) * h2)) by lia.
      rewrite !wrap_add_r. f_equal. ring. }
    destruct (bb_position_byte f (u32 (u32 h + u32 (i * h2))) h Hok) as (Hbyte & Hp & Hq).
    change (512 - 1) with 511. rewrite (test_bit_spec _ _ Hw _ _ Hbyte Hp), <-Hq.
    cbn [mbind option_bind]. rewrite (wrap_small 32 (i + 1)) by (split; lia).
    eexists. split; [done|]. cbn [fst snd]. split; [split; [lia|]|done].
    by replace (i + 1 - 1) with i by lia.
  - cbn [fst snd]. split; [lia|]. by rewrite Z.mul_0_l, Z.add_0_r, wrap_wrap.
  - cbn [fst snd]. lia.
  - cbn [mbind option_bind fst snd] in *. rewrite Hr. rewrite forallb_fmap.
    by replace (bb_numHashes f + 1 - 1) with (bb_numHashes f) by lia.
Qed.

#[export] Instance selfBlockBloom512_laws : BitFilterLaws selfBlockBloom512 V.
Proof using.
  split; simpl.
  - apply bb_add_spec.
  - intros f x _ Hps. unfold bb_positions, bb_addValue in *. by destruct (hash x).
  - apply bb_test_spec.
Qed.
End operations.

(** ** The constructor *)

(** The array always gets one more block than the whole blocks asked for. *)
Lemma block_bytes_eq n : 0 ≤ n < 2 ^ 64 - 512 → block_bytes n = 64 * (n / 512 + 1).
Proof. intros Hn. unfold block_bytes. rewrite wrap_small by (split; div_lia). div_lia. Qed.

Section constructed.
Context (log exp lgamma : spec_float → spec_float) (pow : spec_float → spec_float → spec_float).

(** The rate of [k] hash functions, as the constructor computes it. *)
Definition bb_rate (fuel : nat) (sizeInBits numElementsExpected k : Z) : option spec_float :=
  if numElementsExpected =? 0 then None
  else calculateFPRGivenK log exp lgamma pow fuel (f64_of_Z (sizeInBits / numElementsExpected)) k.

Lemma selfBlockBloom512_ctor_inv fuel n num_elements f :
  0 ≤ n < 2 ^ 64 - 512 →
  selfBlockBloom512_ctor log exp lgamma pow fuel n num_elements = Some f →
  bb_ok f ∧ (∀ q, arr_bit 8 (bb_bytes f) q = false) ∧ bb_sizeInBits f = 512 * (n / 512 + 1) ∧
  picked (bb_rate fuel (bb_sizeInBits f) num_elements) 4
    (bb_fprAtExpectedElements f, Some (bb_numHashes f)).
Proof using.
  intros Hn. unfold selfBlockBloom512_ctor. rewrite block_bytes_eq by done.
  rewrite (wrap_small 64) by (split; div_lia).
  intros ([fpr nh] & Hloop & Hf)%bind_Some. apply bind_Some in Hf as (k & Hnh & Hf).
  cbn in Hnh. subst nh. destruct (1 <=? k) eqn:Hk1; [|done].
  case_match; [|done]. injection Hf as <-.
  pose proof (pick_best _ _ _ Hloop) as Hpick. pose proof Hpick as (Hk & _).
  cbn [bb_bytes bb_sizeInBits bb_fprAtExpectedElements bb_numHashes].
  split; [|split; [intros q; apply arr_bit_zeros|split; [lia|]]].
  - unfold bb_ok. cbn [bb_bytes bb_sizeInBits bb_numHashes bb_numBlocks].
    replace (8 * (64 * (n / 512 + 1)) / 8) with (64 * (n / 512 + 1)) by div_lia.
    split; [apply words_ok_zeros; div_lia|]. split; [div_lia|]. split; [div_lia|]. split; [done|lia].
  - exact Hpick.
Qed.

(** Where the sums end and some rate is below 1, the loop over [numHashes] picks one. *)
Lemma pick_total calc n :
  (∀ k, 1 ≤ k ≤ Z.of_nat n → is_Some (calc k)) →
  ∃ s, for_loop n 1 (pick_body calc) (f64_of_Z 1, None) = Some s.
Proof using.
  intros Hcalc. destruct (for_loop_total (λ _ _, True) (pick_body calc) n 1 (f64_of_Z 1, None) I)
    as (s & Hs & _); [|by eauto].
  intros k s Hk _. unfold pick_body. destruct (Hcalc k ltac:(lia)) as [r ->]. cbn [mbind option_bind].
  destruct (SFltb r s.1); eauto.
Qed.

(** The constructor of the blocked filter returns a filter exactly when one of
    the four estimated rates is below 1; with none, [numHashes] is read without
    having been set. *)
Theorem selfBlockBloom512_ctor_returns fuel n num_elements i0 :
  0 ≤ n < 2 ^ 38 → num_elements ≠ 0 →
  let sizeInBits := 512 * (n / 512 + 1) in
  tail_below log exp lgamma pow 512 (f64_of_Z (sizeInBits / num_elements)) i0 →
  (Z.to_nat i0 < fuel)%nat →
  is_Some (selfBlockBloom512_ctor log exp lgamma pow fuel n num_elements) ↔
  ∃ k r, 1 ≤ k ≤ 4 ∧ bb_rate fuel sizeInBits num_elements k = Some r ∧ SFltb r (f64_of_Z 1) = true.
Proof using.
  intros Hn Hne sizeInBits Htail Hfuel. unfold selfBlockBloom512_ctor.
  rewrite block_bytes_eq by lia. rewrite (wrap_small 64) by (split; div_lia).
  replace (8 * (64 * (n / 512 + 1))) with sizeInBits by (unfold sizeInBits; lia).
  destruct (pick_total (bb_rate fuel sizeInBits num_elements) 4) as ([fpr nh] & Hs).
  { intros k _. unfold bb_rate. rewrite (proj2 (Z.eqb_neq _ _)) by done.
    by apply (fpr_loop_enough _ _ _ _ _ _ _ i0). }
  pose proof (pick_best _ _ _ Hs) as Hpick. unfold bb_rate in Hs at 1. rewrite Hs.
  cbn [mbind option_bind]. destruct nh as [k|]; cbn [mbind option_bind].
  - destruct Hpick as (Hk & Hrate & Hlt & _). cbn [fst snd] in *.
    rewrite (proj2 (Z.leb_le _ _)) by lia.
    rewrite (proj2 (Z.eqb_eq _ _)) by (unfold sizeInBits; div_lia).
    split; [intros _; by exists k, fpr|eauto].
  - destruct Hpick as [_ Hnone]. split; [by intros []|].
    intros (k & r & Hk & Hr & Hlt). specialize (Hnone k r Hk Hr). congruence.
Qed.

(** C32: The constructor of the blocked filter takes the number of hash functions
    between 1 and 4 whose estimated false-positive rate is smallest, and records
    that rate, which is below 1. *)
Theorem selfBlockBloom512_best_rate fuel n num_elements f :
  0 ≤ n < 2 ^ 64 - 512 →
  selfBlockBloom512_ctor log exp lgamma pow fuel n num_elements = Some f →
  let rate := bb_rate fuel (bb_sizeInBits f) num_elements in
  1 ≤ bb_numHashes f ≤ 4 ∧ rate (bb_numHashes f) = Some (bb_fprAtExpectedElements f) ∧
  SFltb (bb_fprAtExpectedElements f) (f64_of_Z 1) = true ∧
  ∀ k r, 1 ≤ k ≤ 4 → rate k = Some r → SFltb r (bb_fprAtExpectedElements f) = false.
Proof using.
  intros Hn Hctor.
  destruct (selfBlockBloom512_ctor_inv fuel n num_elements f Hn Hctor) as (_ & _ & _ & Hpick).
  exact Hpick.
Qed.

(** C31: The blocked filter answers every query exactly by the bits of the inserted
    elements, with no false negative, and never leaves its array. *)
Theorem selfBlockBloom512_exact {V} (hash : V → option Z) fuel n num_elements f (xs : list V) :
  0 ≤ n < 2 ^ 64 - 512 →
  selfBlockBloom512_ctor log exp lgamma pow fuel n num_elements = Some f →
  Forall (λ x, is_Some (hash x)) xs →
  ∃ f', insert_all (bb_addValue hash) f xs = Some f' ∧
    (∀ x, x ∈ xs → bb_testValue hash f' x = Some true) ∧
    (∀ x ps, bb_positions hash f x = Some ps →
      bb_testValue hash f' x = Some (forallb (bit_of_some (bb_positions hash f) xs) ps)).
Proof using.
  intros Hn Hctor Hall.
  destruct (selfBlockBloom512_ctor_inv fuel n num_elements f Hn Hctor) as (Hok & Hempty & _).
  apply (bf_exact (H := selfBlockBloom512_filter hash) f xs Hok Hempty), positions_all_total.
  eapply Forall_impl; [exact Hall|]. intros x [h Hh].
  cbn [bf_positions selfBlockBloom512_filter]. unfold bb_positions. by rewrite Hh.
Qed.
End constructed.

(** C34: All the bits of an element lie in the same 512-bit block, which is inside the
    array; and, [blockOffset] being 32 bits wide, in its first 4 GiB, however large
    the filter. *)
Theorem selfBlockBloom512_one_block {V} (hash : V → option Z) f x ps :
  bb_ok f → bb_positions hash f x = Some ps →
  ∃ b, 0 ≤ b < bb_sizeInBits f / 512 ∧ b < 2 ^ 26 ∧ ∀ q, q ∈ ps → q / 512 = b.
Proof.
  intros Hok Hps. unfold bb_positions in Hps. destruct (hash x) as [h|]; [|done]. injection Hps as <-.
  destruct (bb_block_in_range f h Hok) as (H64 & H0 & H1). pose proof Hok as (_ & _ & H512 & _).
  assert (bb_offset f h < 2 ^ 32) by apply (fits_wrap 32 _ ltac:(lia)).
  exists (bb_offset f h / 64). split; [div_lia|]. split; [div_lia|].
  intros q (i & -> & _)%list_elem_of_fmap. unfold bb_position. rewrite land_511.
  pose proof (Z.mod_pos_bound (u32 (u32 h + u32 (i * u32 (Z.shiftr h 32)))) 512 ltac:(lia)) as Hm.
  generalize dependent (u32 (u32 h + u32 (i * u32 (Z.shiftr h 32))) `mod` 512). intros m Hm. div_lia.
Qed.

(** ** Instances

    A filter for one element in 1024 bits, with functions for which every Poisson
    weight is 0. *)
Definition demo_block : option selfBlockBloom512 :=
  selfBlockBloom512_ctor libm_one libm_zero libm_one libm_half 200 1000 1.

Lemma selfBlockBloom512_best_rate_witness :
  ∃ f, demo_block = Some f ∧ 1 ≤ bb_numHashes f ≤ 4 ∧
    SFltb (bb_fprAtExpectedElements f) (f64_of_Z 1) = true.
Proof.
  eexists.
  match goal with |- _ = Some ?f ∧ _ =>
    destruct (selfBlockBloom512_best_rate libm_one libm_zero libm_one libm_half 200 1000 1 f)
      as (Hk & _ & Hr & _)
  end.
  - lia.
  - vm_compute. reflexivity.
  - split; [vm_compute; reflexivity|]. split; [exact Hk|exact Hr].
Defined.

Lemma selfBlockBloom512_exact_witness :
  ∃ f f', demo_block = Some f ∧ insert_all (bb_addValue Some) f [5; 2 ^ 40 + 9] = Some f' ∧
    bb_testValue Some f' 5 = Some true.
Proof.
  eexists.
  match goal with |- ∃ f', _ = Some ?f ∧ _ =>
    destruct (selfBlockBloom512_exact libm_one libm_zero libm_one libm_half (V := Z) Some 200 1000 1 f [5; 2 ^ 40 + 9])
      as (f' & Ha & Ht & _)
  end.
  - lia.
  - vm_compute. reflexivity.
  - repeat constructor; by eexists.
  - exists f'. split; [vm_compute; reflexivity|]. split; [exact Ha|]. apply Ht, list_elem_of_here.
Defined.

Lemma selfBlockBloom512_ctor_returns_witness : is_Some demo_block.
Proof.
  apply (selfBlockBloom512_ctor_returns libm_one libm_zero libm_one libm_half 200 1000 1 151).
  - lia.
  - lia.
  - split; [lia|vm_compute; reflexivity].
  - vm_compute; lia.
  - exists 1. eexists. split; [lia|]. split; [vm_compute; reflexivity|vm_compute; reflexivity].
Defined.

Lemma selfBlockBloom512_one_block_witness :
  ∃ f ps b, demo_block = Some f ∧ bb_positions Some f (2 ^ 40 + 9) = Some ps ∧
    0 ≤ b < 2 ∧ ∀ q, q ∈ ps → q / 512 = b.
Proof.
  eexists.
  match goal with |- ∃ ps b, _ = Some ?f ∧ _ =>
    destruct (selfBlockBloom512_one_block (V := Z) Some f (2 ^ 40 + 9)
      (default [] (bb_positions Some f (2 ^ 40 + 9)))) as (b & Hb & _ & Hq)
  end.
  - apply (selfBlockBloom512_ctor_inv libm_one libm_zero libm_one libm_half 200 1000 1); [lia|].
    vm_compute. reflexivity.
  - vm_compute. reflexivity.
  - eexists. exists b. split; [vm_compute; reflexivity|]. split; [vm_compute; reflexivity|].
    split; [exact Hb|exact Hq].
Defined.
