(* ===== verification/RegisterBloom.v ===== *)
(** * The register-blocked Bloom filter (src/include/register_blocked_bloom.hh)

    [selfBlockBloom64]: a key's bits all lie in one 64-bit word, tested with one
    mask. The mask is built from [1 << positionInBlock] on [int], which has no
    defined value for positions 32 to 63. *)
From S2P Require Import Prelude Words Floats BitArray BitFilter SelfBloom BlockBloom.

Section fpr64.
Context (log exp lgamma : spec_float → spec_float) (pow : spec_float → spec_float → spec_float).
Definition calculateFPRGivenK64 := fpr_loop log exp lgamma pow 64.
End fpr64.

Record selfBlockBloom64 := SelfBlockBloom64 {
  rb_sizeInBits : Z;
  rb_words : list Z;
  rb_numElementsExpected : Z;
  rb_fprAtExpectedElements : spec_float;
  rb_numHashes : Z;
  rb_numBlocks : Z
}.

Section constructor.
Context (log exp lgamma : spec_float → spec_float) (pow : spec_float → spec_float → spec_float).

Definition rb_rate (fuel : nat) (sizeInBits numElementsExpected k : Z) : option spec_float :=
  if numElementsExpected =? 0 then None
  else calculateFPRGivenK64 log exp lgamma pow fuel (f64_of_Z (sizeInBits / numElementsExpected)) k.

Definition selfBlockBloom64_ctor (fuel : nat) (sizeInBits numElementsExpected : Z)
    : option selfBlockBloom64 :=
  let sizeInBytes := block_bytes sizeInBits in
  let words := replicate (Z.to_nat (sizeInBytes / 8)) 0 in
  let sizeInBits := u64 (8 * sizeInBytes) in
  '(fpr, numHashes) ← for_loop 2 1
    (pick_body (rb_rate fuel sizeInBits numElementsExpected)) (f64_of_Z 1, None);
  numHashes ← numHashes;
  if 1 <=? numHashes then
    let numBlocks := u32 (sizeInBits / 64) in
    if sizeInBits / 64 =? sizeInBytes / 8
    then Some (SelfBlockBloom64 sizeInBits words numElementsExpected fpr numHashes numBlocks)
    else None
  else None.
End constructor.

(** [1 << n] on [int], converted to [uint64_t] *)
Definition shl1_int (n : Z) : option Z :=
  if (0 <=? n) && (n <? 32) then Some (u64 (to_i32 (Z.shiftl 1 n))) else None.

(** One turn of the loops that build [testWord], on [(hash2, testWord)]. *)
Definition mask_body (s : Z * Z) : option (Z * Z) :=
  let '(hash2, testWord) := s in
  let positionInBlock := Z.land hash2 63 in
  b ← shl1_int positionInBlock;
  Some (Z.shiftr hash2 6, Z.lor testWord b).

Section operations.
Context {V : Type} (hash : V → option Z).

Definition rb_addValue (f : selfBlockBloom64) (x : V) : option selfBlockBloom64 :=
  hash_full ← hash x;
  let hash1 := u32 hash_full in
  let hash2 := u32 (Z.shiftr hash_full 32) in
  let wordNum := mult_reduce_block hash1 (rb_numBlocks f) in
  '(_, testWord) ← for_loop (Z.to_nat (rb_numHashes f)) 1 (λ _, mask_body) (hash2, 0);
  w ← arr_get (rb_words f) wordNum;
  words ← arr_set (rb_words f) wordNum (Z.lor w testWord);
  Some (SelfBlockBloom64 (rb_sizeInBits f) words (rb_numElementsExpected f)
    (rb_fprAtExpectedElements f) (rb_numHashes f) (rb_numBlocks f)).

Definition rb_testValue (f : selfBlockBloom64) (x : V) : option bool :=
  hash_full ← hash x;
  let hash1 := u32 hash_full in
  let hash2 := u32 (Z.shiftr hash_full 32) in
  let wordNum := mult_reduce_block hash1 (rb_numBlocks f) in
  '(hash2, testWord) ← for_loop (Z.to_nat (rb_numHashes f - 1)) 1 (λ _, mask_body) (hash2, 0);
  let positionInBlock := Z.land hash2 63 in
  b ← shl1_int positionInBlock;
  let testWord := Z.lor testWord b in
  w ← arr_get (rb_words f) wordNum;
  Some (Z.land testWord w =? testWord).

(** ** Positions *)

(** The mask both operations build. *)
Definition rb_mask (n : Z) (h : Z) : option Z :=
  s ← for_loop (Z.to_nat n) 1 (λ _, mask_body) (u32 (Z.shiftr h 32), 0); Some s.2.

Definition rb_positions (f : selfBlockBloom64) (x : V) : option (list Z) :=
  h ← hash x;
  m ← rb_mask (rb_numHashes f) h;
  Some ((λ j, 64 * mult_reduce_block (u32 h) (rb_numBlocks f) + j)
          <$> filter (λ j, Z.testbit m j = true) (seqZ 0 64)).

Definition rb_ok (f : selfBlockBloom64) : Prop :=
  words_ok 64 (rb_sizeInBits f / 64) (rb_words f) ∧ 64 ≤ rb_sizeInBits f ∧
  rb_numBlocks f = u32 (rb_sizeInBits f / 64) ∧ 1 ≤ rb_numHashes f ≤ 2.

#[export] Instance selfBlockBloom64_filter : BitFilter selfBlockBloom64 V := {
  bf_add := rb_addValue;
  bf_test := rb_testValue;
  bf_ok := rb_ok;
  bf_bits f := arr_bit 64 (rb_words f);
  bf_positions := rb_positions
}.

Lemma shl1_int_fits n b : shl1_int n = Some b → fits 64 b.
Proof using. unfold shl1_int. case_match; [|done]. intros [= <-]. apply fits_wrap. lia. Qed.

Lemma mask_loop_fits n s s' :
  fits 64 s.2 → for_loop n 1 (λ _, mask_body) s = Some s' → fits 64 s'.2.
Proof using.
  intros Hs. apply (for_loop_ind (λ _ s, fits 64 s.2)); [done|].
  intros j [h tw] t _ Hf. unfold mask_body. intros (b & Hb & [= <-])%bind_Some. cbn [snd] in *.
  apply fits_lor; [lia|done|by eapply shl1_int_fits].
Qed.

Lemma rb_mask_fits n h m : rb_mask n h = Some m → fits 64 m.
Proof using.
  unfold rb_mask. intros (s & Hs & [= <-])%bind_Some.
  refine (mask_loop_fits _ _ _ _ Hs). by vm_compute.
Qed.

Lemma rb_word_in_range f h : rb_ok f →
  0 ≤ mult_reduce_block (u32 h) (rb_numBlocks f) < rb_sizeInBits f / 64.
Proof using.
  intros (_ & Hpos & Hn & _).
  destruct (mult_reduce_bound (u32 h) (rb_numBlocks f)) as [H0 H1].
  change mult_reduce with mult_reduce_block in *. set (m := mult_reduce_block _ _) in *.
  assert (u32 (rb_numBlocks f) ≤ rb_sizeInBits f / 64).
  { rewrite Hn, wrap_wrap. apply Z.mod_le; div_lia. }
  split; [done|]. div_lia.
Qed.

(** A position belongs to the element when its word and its bit do. *)
Lemma rb_positions_elem m k q :
  fits 64 m →
  q ∈ (λ j, 64 * k + j) <$> filter (λ j, Z.testbit m j = true) (seqZ 0 64) ↔
  q / 64 = k ∧ Z.testbit m (q `mod` 64) = true.
Proof using.
  intros _. rewrite list_elem_of_fmap. split.
  - intros (j & -> & [Hb Hj]%list_elem_of_filter). apply elem_of_seqZ in Hj.
    replace ((64 * k + j) / 64) with k by div_lia.
    by replace ((64 * k + j) `mod` 64) with j by div_lia.
  - intros [<- Hb]. exists (q `mod` 64). split; [div_lia|]. apply list_elem_of_filter.
    split; [done|]. apply elem_of_seqZ. div_lia.
Qed.

Lemma rb_add_spec f x ps :
  rb_ok f → rb_positions f x = Some ps →
  ∃ f', rb_addValue f x = Some f' ∧ rb_ok f' ∧ (∀ y, rb_positions f' y = rb_positions f y) ∧
    ∀ q, arr_bit 64 (rb_words f') q = arr_bit 64 (rb_words f) q || bool_decide (q ∈ ps).
Proof using.
  intros Hok Hps. pose proof Hok as (Hw & Hn & Hb & Hk). unfold rb_positions in Hps.
  destruct (hash x) as [h|] eqn:Hh; [|done]. cbn [mbind option_bind] in Hps.
  apply bind_Some in Hps as (m & Hm & [= <-]). pose proof (rb_mask_fits _ _ _ Hm) as Hmf.
  unfold rb_mask in Hm. apply bind_Some in Hm as ([h2 tw] & Hloop & [= Hm]). cbn [snd] in Hm. subst tw.
  unfold rb_addValue. rewrite Hh. cbn [mbind option_bind]. rewrite Hloop. cbn [mbind option_bind].
  pose proof (rb_word_in_range f h Hok) as Hr.
  destruct (arr_get_ok _ _ _ _ Hw Hr) as (w & Hget & Hf). rewrite Hget. cbn [mbind option_bind].
  destruct (arr_or_spec 64 _ _ _ w m ltac:(lia) Hw Hr Hget Hmf) as (ws & -> & Hw' & Hbits).
  cbn [mbind option_bind]. eexists. split; [done|].
  split; [exact (conj Hw' (conj Hn (conj Hb Hk)))|]. split; [done|].
  intros q. cbn [rb_words]. rewrite Hbits. f_equal.
  destruct (_ && _) eqn:Hand; symmetry;
    [apply bool_decide_eq_true_2|apply bool_decide_eq_false_2]; rewrite rb_positions_elem by done.
  - by apply andb_true_iff in Hand as [?%Z.eqb_eq ?].
  - intros [Hq Ht]. by rewrite (proj2 (Z.eqb_eq _ _) Hq), Ht in Hand.
Qed.

(** [testValue] leaves the loop one turn early and does that turn by hand. *)
Lemma rb_test_mask f x h :
  hash x = Some h → 1 ≤ rb_numHashes f →
  rb_testValue f x =
    m ← rb_mask (rb_numHashes f) h;
    w ← arr_get (rb_words f) (mult_reduce_block (u32 h) (rb_numBlocks f));
    Some (Z.land m w =? m).
Proof using.
  intros Hh Hk. unfold rb_testValue, rb_mask. rewrite Hh. cbn [mbind option_bind].
  replace (Z.to_nat (rb_numHashes f)) with (S (Z.to_nat (rb_numHashes f - 1))) by lia.
  rewrite for_loop_snoc. destruct (for_loop _ _ _ _) as [[h2 tw]|]; [|done].
  cbn [mbind option_bind]. unfold mask_body. destruct (shl1_int _); done.
Qed.

Lemma rb_test_spec f x ps :
  rb_ok f → rb_positions f x = Some ps →
  rb_testValue f x = Some (forallb (arr_bit 64 (rb_words f)) ps).
Proof using.
  intros Hok Hps. pose proof Hok as (Hw & Hn & Hb & Hk). unfold rb_positions in Hps.
  destruct (hash x) as [h|] eqn:Hh; [|done]. cbn [mbind option_bind] in Hps.
  apply bind_Some in Hps as (m & Hm & [= <-]). pose proof (rb_mask_fits _ _ _ Hm) as Hmf.
  rewrite (rb_test_mask f x h Hh) by lia. rewrite Hm. cbn [mbind option_bind].
  destruct (arr_get_ok _ _ _ _ Hw (rb_word_in_range f h Hok)) as (w & Hget & Hf).
  rewrite Hget. cbn [mbind option_bind]. f_equal. apply eq_true_iff_eq.
  rewrite Z.eqb_eq, forallb_forall. setoid_rewrite <-list_elem_of_In.
  assert (∀ q, q / 64 = mult_reduce_block (u32 h) (rb_numBlocks f) →
    arr_bit 64 (rb_words f) q = Z.testbit w (q `mod` 64)) as Hbit.
  { intros q Hq. unfold arr_bit. by rewrite Hq, Hget. }
  split.
  - intros Hland q [Hq Hbq]%(rb_positions_elem _ _ _ Hmf). rewrite Hbit by done.
    rewrite <-Hland, Z.land_spec in Hbq. by apply andb_true_iff in Hbq as [_ ?].
  - intros Hall. apply Z.bits_inj'. intros j Hj. rewrite Z.land_spec.
    destruct (Z.testbit m j) eqn:Hmj; [|done]. simpl.
    assert (j < 64).
    { destruct (Z.lt_ge_cases j 64) as [|Hge]; [done|].
      apply (fits_testbit 64 m) in Hmf as [_ Hhigh]; [|lia]. by rewrite Hhigh in Hmj. }
    specialize (Hall (64 * mult_reduce_block (u32 h) (rb_numBlocks f) + j)).
    rewrite (rb_positions_elem _ _ _ Hmf), Hbit in Hall by div_lia.
    replace ((64 * mult_reduce_block (u32 h) (rb_numBlocks f) + j) `mod` 64) with j in Hall by div_lia.
    apply Hall. split; [div_lia|done].
Qed.

#[export] Instance selfBlockBloom64_laws : BitFilterLaws selfBlockBloom64 V.
Proof using.
  split; simpl.
  - apply rb_add_spec.
  - intros f x _ Hps. unfold rb_positions, rb_mask, rb_addValue in *.
    destruct (hash x); [|done]. cbn [mbind option_bind] in *.
    destruct (for_loop _ _ _ _) as [[h2 tw]|]; [|done]. discriminate Hps.
  - apply rb_test_spec.
Qed.
End operations.

(** ** Definedness and properties *)

(** The [i]-th 6-bit group of the upper half of the hash. *)
Definition rb_group (h i : Z) : Z := Z.land (Z.shiftr (u32 (Z.shiftr h 32)) (6 * i)) 63.

Lemma land_63 z : 0 ≤ Z.land z 63 < 64.
Proof. change 63 with (Z.ones 6). rewrite Z.land_ones by lia. apply Z.mod_pos_bound. lia. Qed.

Lemma shl1_int_defined n : is_Some (shl1_int n) ↔ 0 ≤ n < 32.
Proof.
  unfold shl1_int. destruct ((0 <=? n) && _) eqn:H.
  - apply andb_true_iff in H as [?%Z.leb_le ?%Z.ltb_lt]. split; [done|by eexists].
  - split; [by intros []|]. intros [?%Z.leb_le ?%Z.ltb_lt].
    rewrite andb_false_iff in H. destruct H; congruence.
Qed.

Lemma mask_loop_defined n : ∀ i h tw,
  0 ≤ i → is_Some (for_loop n 1 (λ _, mask_body) (Z.shiftr h (6 * i), tw)) ↔
  ∀ j, i ≤ j < i + Z.of_nat n → Z.land (Z.shiftr h (6 * j)) 63 < 32.
Proof.
  generalize 1 as z. induction n as [|n IH]; intros z i h tw Hi.
  - split; [intros _ j; lia|by eexists].
  - cbn [for_loop]. unfold mask_body at 2.
    destruct (shl1_int (Z.land (Z.shiftr h (6 * i)) 63)) as [b|] eqn:Hb; cbn [mbind option_bind].
    + rewrite Z.shiftr_shiftr by lia. replace (6 * i + 6) with (6 * (i + 1)) by lia.
      rewrite IH by lia.
      assert (0 ≤ Z.land (Z.shiftr h (6 * i)) 63 < 32) by (apply shl1_int_defined; eauto).
      split; intros Hall j Hj; [destruct (decide (j = i)) as [->|]; [lia|]|]; apply Hall; lia.
    + split; [by intros []|]. intros Hall. exfalso.
      assert (is_Some (shl1_int (Z.land (Z.shiftr h (6 * i)) 63))) as [? ?]; [|congruence].
      apply shl1_int_defined. pose proof (land_63 (Z.shiftr h (6 * i))). split; [lia|]. apply Hall. lia.
Qed.

(** Insertion into the register-blocked filter is defined exactly when each 6-bit
    group it takes from the upper half of the hash is below 32: on the other half of
    the values the shift of the [int] 1 is undefined. *)
Theorem selfBlockBloom64_add_defined {V} (hash : V → option Z) f x h :
  rb_ok f → hash x = Some h →
  is_Some (rb_addValue hash f x) ↔ ∀ i, 0 ≤ i < rb_numHashes f → rb_group h i < 32.
Proof.
  intros Hok Hh. pose proof Hok as (_ & _ & _ & Hk).
  assert (is_Some (rb_addValue hash f x) ↔ is_Some (rb_mask (rb_numHashes f) h)) as ->.
  { destruct (rb_mask (rb_numHashes f) h) as [m|] eqn:Hm.
    - destruct (rb_positions hash f x) as [ps|] eqn:Hps;
        unfold rb_positions in Hps; rewrite Hh in Hps; cbn [mbind option_bind] in Hps;
        rewrite Hm in Hps; [|done].
      destruct (rb_add_spec hash f x ps Hok) as (f' & -> & _); [|split; by eexists].
      unfold rb_positions. rewrite Hh. cbn [mbind option_bind]. by rewrite Hm.
    - assert (rb_addValue hash f x = None) as ->; [|done]. unfold rb_addValue. rewrite Hh.
      unfold rb_mask in Hm. cbn [mbind option_bind].
      by destruct (for_loop _ _ _ _) as [[h2 tw]|]. }
  unfold rb_mask, rb_group.
  pose proof (mask_loop_defined (Z.to_nat (rb_numHashes f)) 0 (u32 (Z.shiftr h 32)) 0 ltac:(lia)) as Hd.
  rewrite Z.shiftr_0_r, Z2Nat.id in Hd by lia. rewrite <-Hd.
  destruct (for_loop _ _ _ _) as [s|]; [split; by eexists|]. cbn [mbind option_bind]. by rewrite Z.add_0_l in Hd.
Qed.

Lemma selfBlockBloom64_ctor_ok log exp lgamma pow fuel n num_elements f :
  0 ≤ n < 2 ^ 64 - 512 →
  selfBlockBloom64_ctor log exp lgamma pow fuel n num_elements = Some f →
  rb_ok f ∧ ∀ q, arr_bit 64 (rb_words f) q = false.
Proof.
  intros Hn. unfold selfBlockBloom64_ctor. rewrite block_bytes_eq by done.
  rewrite (wrap_small 64) by (split; div_lia).
  intros ([fpr nh] & Hloop & Hf)%bind_Some. apply bind_Some in Hf as (k & Hnh & Hf).
  cbn in Hnh. subst nh. case_match; [|done]. case_match; [|done]. injection Hf as <-.
  pose proof (pick_best _ _ _ Hloop) as (Hk & _).
  split; [|intros q; apply arr_bit_zeros].
  unfold rb_ok. cbn [rb_words rb_sizeInBits rb_numHashes rb_numBlocks].
  replace (8 * (64 * (n / 512 + 1)) / 64) with (64 * (n / 512 + 1) / 8) by div_lia.
  split; [apply words_ok_zeros; div_lia|]. split; [div_lia|]. split; [done|lia].
Qed.

(** C35: Where the shifts are defined, the register-blocked filter answers every query
    exactly by the bits of the inserted elements, with no false negative: the test,
    which builds its mask with one turn less of the loop and a copy of the turn,
    looks at the bits the insertion sets. *)
Theorem selfBlockBloom64_exact {V} (hash : V → option Z) log exp lgamma pow fuel n num_elements f (xs : list V) :
  0 ≤ n < 2 ^ 64 - 512 →
  selfBlockBloom64_ctor log exp lgamma pow fuel n num_elements = Some f →
  Forall (λ x, is_Some (rb_positions hash f x)) xs →
  ∃ f', insert_all (rb_addValue hash) f xs = Some f' ∧
    (∀ x, x ∈ xs → rb_testValue hash f' x = Some true) ∧
    (∀ x ps, rb_positions hash f x = Some ps →
      rb_testValue hash f' x = Some (forallb (bit_of_some (rb_positions hash f) xs) ps)).
Proof.
  intros Hn Hctor Hall.
  destruct (selfBlockBloom64_ctor_ok log exp lgamma pow fuel n num_elements f Hn Hctor) as (Hok & Hempty).
  by apply (bf_exact (H := selfBlockBloom64_filter hash) f xs Hok Hempty), positions_all_total.
Qed.

(** ** Instances *)

Definition demo_register : option selfBlockBloom64 :=
  selfBlockBloom64_ctor libm_one libm_zero libm_one libm_half 200 1000 1.

Lemma selfBlockBloom64_exact_witness :
  ∃ f f', demo_register = Some f ∧ insert_all (rb_addValue Some) f [5; 9 * 2 ^ 32 + 1] = Some f' ∧
    rb_testValue Some f' 5 = Some true.
Proof.
  eexists.
  match goal with |- ∃ f', _ = Some ?f ∧ _ =>
    destruct (selfBlockBloom64_exact (V := Z) Some libm_one libm_zero libm_one libm_half 200 1000 1 f
      [5; 9 * 2 ^ 32 + 1]) as (f' & Ha & Ht & _)
  end.
  - lia.
  - vm_compute. reflexivity.
  - repeat constructor; eexists; vm_compute; reflexivity.
  - exists f'. split; [vm_compute; reflexivity|]. split; [exact Ha|]. apply Ht, list_elem_of_here.
Defined.

(** A hash whose upper half starts with the group 40. *)
Lemma selfBlockBloom64_add_defined_witness :
  ∃ f, demo_register = Some f ∧ rb_addValue Some f (40 * 2 ^ 32) = None.
Proof.
  eexists.
  match goal with |- _ = Some ?f ∧ _ =>
    destruct (selfBlockBloom64_add_defined (V := Z) Some f (40 * 2 ^ 32) (40 * 2 ^ 32)) as [Hd _]
  end.
  - apply (selfBlockBloom64_ctor_ok libm_one libm_zero libm_one libm_half 200 1000 1); [lia|].
    vm_compute. reflexivity.
  - reflexivity.
  - split; [vm_compute; reflexivity|]. apply eq_None_not_Some. intros Hs.
    specialize (Hd Hs 0 ltac:(cbn; lia)). vm_compute in Hd. discriminate.
Defined.
