(* ===== verification/LocArrays.v ===== *)
(** * Location arrays of the sub-key hash functors

    Every functor [hash_*_<n>loc_s] and [hash_*_<n>loc_fixed_s] under
    src/include/hash/*_customs.hh turns [n] word indices into byte offsets in its
    constructor; the non-fixed ones also cache the end of the last word. *)
From S2P Require Import Prelude Words.

(** [(unsigned int)8 * locs[i]] *)
Definition ctor_loc (l : Z) : Z := u32 (8 * u32 l).

(** [(unsigned int)(locs[n-1] * 8) + 8], the product being an [int]. *)
Definition ctor_end (l : Z) : option Z := m ← chk_i32 (l * 8); Some (u32 (u32 m + 8)).

(** [for (int i = 0; i < n; i++) locations[i] = (unsigned int)8 * locs[i];] *)
Definition ctor_fixed (n : nat) (locs : list Z) : option (list Z) :=
  for_loop n 0 (λ i a, l ← arr_get locs i; Some (a ++ [ctor_loc l])) [].

Definition ctor_endpoint (n : nat) (locs : list Z) : option (list Z) :=
  a ← ctor_fixed n locs;
  l ← arr_get locs (Z.of_nat n - 1);
  e ← ctor_end l;
  Some (a ++ [e]).

(** The location vectors the constructors are meant for: at least [n] indices,
    in increasing order, whose byte offsets fit an [int]. *)
Definition locs_wf (n : nat) (locs : list Z) : Prop :=
  (n ≤ length locs)%nat ∧ Sorted Z.lt (take n locs) ∧
  Forall (λ l, 0 ≤ l ∧ 8 * l + 8 < 2 ^ 31) (take n locs).

Lemma sorted_lt_dec (l : list Z) : {Sorted Z.lt l} + {¬ Sorted Z.lt l}.
Proof.
  induction l as [|a l IH]; [left; constructor|].
  destruct IH as [IH|IH]; [|right; intros H%Sorted_inv; tauto].
  destruct l as [|b l]; [left; repeat constructor|].
  destruct (decide (a < b)); [left; constructor; [done|by constructor]|].
  right. intros [_ H%HdRel_inv]%Sorted_inv. done.
Defined.

#[export] Instance locs_wf_decision n locs : Decision (locs_wf n locs).
Proof. unfold locs_wf. pose proof (sorted_lt_dec (take n locs)) as d. unfold Decision in *. 
  apply and_dec; [apply _|]. apply and_dec; [exact d|apply _]. Defined.

(** Whether a key reaches [slack] bytes past the end of each of the first [n]
    words: 0 when the words only have to be inside the key. *)
Definition locs_fit (slack : Z) (n : nat) (locs : list Z) (key : bytes) : Prop :=
  Forall (λ l, 8 * l + 8 + slack ≤ Z.of_nat (length key)) (take n locs).

(** Two keys that agree on their length and on the words at the first [n] indices. *)
Definition same_words (n : nat) (locs : list Z) (x y : bytes) : Prop :=
  length x = length y ∧ Forall (λ l, slice x (8 * l) 8 = slice y (8 * l) 8) (take n locs).

#[export] Instance locs_fit_decision slack n locs key : Decision (locs_fit slack n locs key).
Proof. unfold locs_fit. apply _. Defined.

#[export] Instance same_words_decision n locs x y : Decision (same_words n locs x y).
Proof. unfold same_words. apply _. Defined.

(** ** Functors and what the containers may expect of them

    A functor is the number of words it is built for, its constructor and its
    [operator()]. *)
Record functor := Functor {
  f_words : nat;
  f_ctor : list Z → option (list Z);
  f_call : list Z → bytes → option Z
}.

Definition functor_run (f : functor) (locs : list Z) (key : bytes) : option Z :=
  a ← f_ctor f locs; f_call f a key.

(** [SubKeySafe f fixed]: on a well-formed location vector the functor returns a
    64-bit value without reading outside the key; a [fixed] functor is only asked
    about keys that contain the chosen words. *)
Class SubKeySafe (f : functor) (fixed : bool) : Prop :=
  sub_key_safe : ∀ locs key,
    locs_wf (f_words f) locs → fits 64 (Z.of_nat (length key)) →
    (fixed = true → locs_fit 0 (f_words f) locs key) →
    ∃ h, functor_run f locs key = Some h ∧ fits 64 h.

(** [SubKeyLocal f slack]: on keys that reach [slack] bytes past the chosen words,
    the hash depends on nothing but the length and those words. *)
Class SubKeyLocal (f : functor) (slack : Z) : Prop :=
  sub_key_local : ∀ locs x y,
    locs_wf (f_words f) locs → locs_fit slack (f_words f) locs x →
    same_words (f_words f) locs x y →
    functor_run f locs x = functor_run f locs y.

Lemma ctor_loc_small l : 0 ≤ l → 8 * l + 8 < 2 ^ 31 → ctor_loc l = 8 * l.
Proof.
  intros H1 H2. unfold ctor_loc.
  rewrite (wrap_small 32 l) by (split; lia). apply wrap_small. split; lia.
Qed.

Lemma ctor_end_small l : 0 ≤ l → 8 * l + 8 < 2 ^ 31 → ctor_end l = Some (8 * l + 8).
Proof.
  intros H1 H2. unfold ctor_end, chk_i32.
  rewrite (proj2 (Z.leb_le _ _)) by lia. rewrite (proj2 (Z.ltb_lt _ _)) by lia. cbn.
  rewrite (wrap_small 32 (l * 8)) by (split; lia).
  rewrite wrap_small by (split; lia). f_equal. lia.
Qed.

(** Opens a well-formed location vector of a concrete length: the constructors
    and the array reads then compute. *)
Ltac open_locs H :=
  let Hlen := fresh "Hlen" in let Hs := fresh "Hsorted" in let Hf := fresh "Hlocs" in
  destruct H as (Hlen & Hs & Hf);
  repeat lazymatch goal with
  | H : (S _ ≤ length ?l)%nat |- _ =>
      is_var l; destruct l as [|? l]; [simpl in H; lia|simpl in H; apply le_S_n in H]
  end;
  cbn [take] in *; rewrite ?take_0 in *;
  repeat lazymatch goal with
  | H : Forall _ (_ :: _) |- _ => apply Forall_cons in H as [? H]
  | H : Sorted _ (_ :: _) |- _ => apply Sorted_inv in H as [H ?]
  | H : HdRel _ _ (_ :: _) |- _ => apply HdRel_inv in H
  | H : _ ∧ _ |- _ => destruct H
  end.

(** The constructors on vectors that are long enough. *)
Lemma ctor_fixed_eq n locs :
  (n ≤ length locs)%nat → ctor_fixed n locs = Some (ctor_loc <$> take n locs).
Proof.
  unfold ctor_fixed. induction n as [|n IH]; intros Hn; [done|].
  rewrite for_loop_snoc, IH by lia. cbn [mbind option_bind]. rewrite Z.add_0_l.
  destruct (lookup_lt_is_Some_2 locs n) as [l Hl]; [lia|].
  unfold arr_get. rewrite (proj2 (Z.leb_le _ _)) by lia. rewrite Nat2Z.id, Hl.
  cbn [mbind option_bind]. by rewrite (take_S_r _ _ _ Hl), fmap_app.
Qed.

Lemma ctor_endpoint_eq n locs l :
  locs !! n = Some l → 0 ≤ l → 8 * l + 8 < 2 ^ 31 →
  ctor_endpoint (S n) locs = Some ((ctor_loc <$> take (S n) locs) ++ [8 * l + 8]).
Proof.
  intros Hl H1 H2. unfold ctor_endpoint. rewrite ctor_fixed_eq by (apply lookup_lt_Some in Hl; lia).
  cbn [mbind option_bind]. unfold arr_get. rewrite (proj2 (Z.leb_le _ _)) by lia.
  replace (Z.to_nat (Z.of_nat (S n) - 1)) with n by lia. rewrite Hl.
  cbn [mbind option_bind]. by rewrite ctor_end_small.
Qed.

(** Reads of an opened array at a small constant index. *)
Lemma arr_get_at l i : 0 ≤ i → arr_get l i = l !! Z.to_nat i.
Proof. intros. unfold arr_get. by rewrite (proj2 (Z.leb_le _ _)) by lia. Qed.

(** Reduces the constructor on an opened vector to the byte offsets, and the
    reads of the resulting array. *)
Ltac run_ctor :=
  first [rewrite ctor_fixed_eq by (simpl; lia) | erewrite ctor_endpoint_eq by (done || lia)];
  cbn [take]; rewrite ?take_0; cbn [fmap list_fmap app mbind option_bind];
  rewrite ?ctor_loc_small by lia.

Ltac run_arr :=
  repeat (rewrite arr_get_at by lia;
    match goal with |- context [?l !! Z.to_nat ?i] =>
      let r := eval vm_compute in (Z.to_nat i) in change (Z.to_nat i) with r end;
    cbn [lookup list_lookup mbind option_bind]).

(** Opens the hypotheses [locs_fit] and [same_words] on an opened vector. *)
Ltac open_forall H :=
  cbn [take] in H; rewrite ?take_0 in H;
  repeat match type of H with
  | Forall _ (_ :: _) => apply Forall_cons in H as [? H]
  end.

(** The start of the proof that a functor meets one of the two interfaces. *)
Ltac start_safe :=
  let locs := fresh "locs" in let key := fresh "key" in
  let Hwf := fresh "Hwf" in let Hlen := fresh "Hlen64" in let Hfit := fresh "Hfit" in
  match goal with |- SubKeySafe ?f _ => unfold f end;
  intros locs key Hwf Hlen Hfit; cbn [f_words] in *;
  try (specialize (Hfit eq_refl); unfold locs_fit in Hfit);
  unfold functor_run; cbn [f_ctor f_call];
  open_locs Hwf;
  try open_forall Hfit.

Ltac start_local :=
  let locs := fresh "locs" in let x := fresh "x" in let y := fresh "y" in
  let Hwf := fresh "Hwf" in let Hfit := fresh "Hfit" in let Hs := fresh "Hsame" in
  let Hleneq := fresh "Hleneq" in
  match goal with |- SubKeyLocal ?f _ => unfold f end;
  intros locs x y Hwf Hfit [Hleneq Hs]; cbn [f_words] in *; unfold locs_fit in Hfit;
  unfold functor_run; cbn [f_ctor f_call];
  open_locs Hwf; open_forall Hfit; open_forall Hs.

(** A load of [m] bytes inside a slice that two keys share. *)
Lemma load_le_slice_eq x y off n k m :
  slice x off n = slice y off n → length x = length y →
  0 ≤ k → k + Z.of_nat m ≤ Z.of_nat n → 0 ≤ off → off + Z.of_nat n ≤ Z.of_nat (length x) →
  load_le m x (off + k) = load_le m y (off + k).
Proof.
  intros Hs Hlen Hk Hkm Ho Hon. unfold load_le. f_equal.
  rewrite !slice_in_bounds in Hs by lia. injection Hs as Hs.
  rewrite !slice_in_bounds by lia. f_equal.
  replace (Z.to_nat (off + k)) with (Z.to_nat off + Z.to_nat k)%nat by lia.
  rewrite <-!drop_drop. revert Hs. generalize (drop (Z.to_nat off) x) (drop (Z.to_nat off) y).
  intros a b Hab. apply (f_equal (drop (Z.to_nat k))) in Hab.
  rewrite !skipn_firstn_comm in Hab. apply (f_equal (take m)) in Hab.
  rewrite !take_take in Hab. by replace (m `min` (n - Z.to_nat k))%nat with m in Hab by lia.
Qed.

(** Turns the shared slices of an opened [same_words] into equal loads of the
    words and of their halves. *)
Ltac share_words :=
  repeat lazymatch goal with
  | H : slice ?x ?o 8 = slice ?y ?o 8, Hl : length ?x = length ?y |- _ =>
      pose proof (load_le_slice_eq x y o 8 0 4 H Hl ltac:(lia) ltac:(lia) ltac:(lia) ltac:(lia));
      pose proof (load_le_slice_eq x y o 8 4 4 H Hl ltac:(lia) ltac:(lia) ltac:(lia) ltac:(lia));
      apply (f_equal (fmap le_combine)) in H; fold (load_le 8 x o) (load_le 8 y o) in H
  end;
  rewrite ?Z.add_0_r in *.

(** Rewrites the reads of one key with those of the other; when the length is
    tested, the test holds because the key contains the words. *)
Ltac shared_reads rd :=
  unfold rd;
  repeat match goal with
  | Hl : length ?x = length ?y |- context [Z.of_nat (length ?x)] => rewrite Hl
  | H : load_le ?n ?x ?o = load_le ?n ?y ?o |- context [load_le ?n ?x ?o] => rewrite H
  end;
  first
    [ reflexivity
    | match goal with |- context [if ?b then _ else _] =>
        destruct b eqn:Hb; [reflexivity|apply Z.leb_gt in Hb; lia] end ].
