(* ===== verification/WyhashCustoms.v ===== *)
(** * Entropy-learned wyhash (src/include/hash/wyhash_customs.hh)

    [wyhash_<n>loc_fixed] hashes the words at [n] chosen offsets; [wyhash_<n>loc]
    first compares the length with the cached end of the last word and falls back
    to the full [wyhash]. The functors of the file hold the offset array. *)
From S2P Require Import Prelude Words Wyhash LocArrays.

Definition wyhash_1loc_fixed (key : bytes) (len : Z) (locations : list Z)
    (seed : Z) (secret : secret_t) : option Z :=
  l0 ← arr_get locations 0;
  a ← _wyr4 key l0; b ← _wyr4 key (l0 + 4);
  Some (_wymix (Z.lxor (sec1 secret) len) (_wymix (Z.lxor a (sec1 secret)) (Z.lxor b seed))).

Definition wyhash_1loc (key : bytes) (len : Z) (locations : list Z)
    (seed : Z) (secret : secret_t) : option Z :=
  e ← arr_get locations 1;
  if e <=? len then wyhash_1loc_fixed key len locations 0 _wyp
  else wyhash key len seed secret.

Definition wyhash_2loc_fixed (key : bytes) (len : Z) (locations : list Z)
    (seed : Z) (secret : secret_t) : option Z :=
  let seed := Z.lxor seed (sec0 secret) in
  l0 ← arr_get locations 0; l1 ← arr_get locations 1;
  a ← _wyr8 key l0; b ← _wyr8 key l1;
  Some (_wymix (Z.lxor (sec1 secret) len) (_wymix (Z.lxor a (sec1 secret)) (Z.lxor b seed))).

Definition wyhash_2loc (key : bytes) (len : Z) (locations : list Z)
    (seed : Z) (secret : secret_t) : option Z :=
  e ← arr_get locations 2;
  if e <=? len then wyhash_2loc_fixed key len locations 0 _wyp
  else wyhash key len seed secret.

Definition wyhash_3loc_fixed (key : bytes) (len : Z) (locations : list Z)
    (seed : Z) (secret : secret_t) : option Z :=
  let seed := Z.lxor seed (sec0 secret) in
  l0 ← arr_get locations 0; l1 ← arr_get locations 1; l2 ← arr_get locations 2;
  a ← _wyr8 key l0; b ← _wyr8 key l1; c ← _wyr8 key l2;
  Some (_wymix (_wymix (Z.lxor (sec1 secret) len) c)
               (_wymix (Z.lxor a (sec1 secret)) (Z.lxor b seed))).

Definition wyhash_3loc (key : bytes) (len : Z) (locations : list Z)
    (seed : Z) (secret : secret_t) : option Z :=
  e ← arr_get locations 3;
  if e <=? len then wyhash_3loc_fixed key len locations 0 _wyp
  else wyhash key len seed secret.

Definition wyhash_4loc_fixed (key : bytes) (len : Z) (locations : list Z)
    (seed : Z) (secret : secret_t) : option Z :=
  let seed := Z.lxor seed (sec0 secret) in
  let see1 := seed in
  l0 ← arr_get locations 0; l1 ← arr_get locations 1;
  l2 ← arr_get locations 2; l3 ← arr_get locations 3;
  a ← _wyr8 key l0; b ← _wyr8 key l1; c ← _wyr8 key l2; d ← _wyr8 key l3;
  let seed := _wymix a b in
  let see1 := _wymix (Z.lxor c (sec2 secret)) (Z.lxor d see1) in
  let seed := Z.lxor seed see1 in
  Some (_wymix (Z.lxor (sec1 secret) len) seed).

Definition wyhash_4loc (key : bytes) (len : Z) (locations : list Z)
    (seed : Z) (secret : secret_t) : option Z :=
  e ← arr_get locations 4;
  if e <=? len then wyhash_4loc_fixed key len locations 0 _wyp
  else wyhash key len seed secret.

(** ** The functors

    Each constructor returns the array [locations]; [operator()] passes the bytes
    and the length of the string. *)

Definition hash_wyhash_1loc_fixed_s (locs : list Z) : option (list Z) := ctor_fixed 1 locs.
Definition hash_wyhash_1loc_fixed_call (locations : list Z) (str : bytes) : option Z :=
  wyhash_1loc_fixed str (Z.of_nat (length str)) locations 0 _wyp.
Definition hash_wyhash_1loc_s (locs : list Z) : option (list Z) := ctor_endpoint 1 locs.
Definition hash_wyhash_1loc_call (locations : list Z) (str : bytes) : option Z :=
  wyhash_1loc str (Z.of_nat (length str)) locations 0 _wyp.

Definition hash_wyhash_2loc_fixed_s (locs : list Z) : option (list Z) := ctor_fixed 2 locs.
Definition hash_wyhash_2loc_fixed_call (locations : list Z) (str : bytes) : option Z :=
  wyhash_2loc_fixed str (Z.of_nat (length str)) locations 0 _wyp.
Definition hash_wyhash_2loc_s (locs : list Z) : option (list Z) := ctor_endpoint 2 locs.
Definition hash_wyhash_2loc_call (locations : list Z) (str : bytes) : option Z :=
  wyhash_2loc str (Z.of_nat (length str)) locations 0 _wyp.

Definition hash_wyhash_3loc_fixed_s (locs : list Z) : option (list Z) := ctor_fixed 3 locs.
Definition hash_wyhash_3loc_fixed_call (locations : list Z) (str : bytes) : option Z :=
  wyhash_3loc_fixed str (Z.of_nat (length str)) locations 0 _wyp.
Definition hash_wyhash_3loc_s (locs : list Z) : option (list Z) := ctor_endpoint 3 locs.
Definition hash_wyhash_3loc_call (locations : list Z) (str : bytes) : option Z :=
  wyhash_3loc str (Z.of_nat (length str)) locations 0 _wyp.

Definition hash_wyhash_4loc_fixed_s (locs : list Z) : option (list Z) := ctor_fixed 4 locs.
Definition hash_wyhash_4loc_fixed_call (locations : list Z) (str : bytes) : option Z :=
  wyhash_4loc_fixed str (Z.of_nat (length str)) locations 0 _wyp.
Definition hash_wyhash_4loc_s (locs : list Z) : option (list Z) := ctor_endpoint 4 locs.
Definition hash_wyhash_4loc_call (locations : list Z) (str : bytes) : option Z :=
  wyhash_4loc str (Z.of_nat (length str)) locations 0 _wyp.

(** ** The functors meet the sub-key interfaces *)

Definition wyhash_1loc_fixed_f := Functor 1 hash_wyhash_1loc_fixed_s hash_wyhash_1loc_fixed_call.
Definition wyhash_1loc_f := Functor 1 hash_wyhash_1loc_s hash_wyhash_1loc_call.
Definition wyhash_2loc_fixed_f := Functor 2 hash_wyhash_2loc_fixed_s hash_wyhash_2loc_fixed_call.
Definition wyhash_2loc_f := Functor 2 hash_wyhash_2loc_s hash_wyhash_2loc_call.
Definition wyhash_3loc_fixed_f := Functor 3 hash_wyhash_3loc_fixed_s hash_wyhash_3loc_fixed_call.
Definition wyhash_3loc_f := Functor 3 hash_wyhash_3loc_s hash_wyhash_3loc_call.
Definition wyhash_4loc_fixed_f := Functor 4 hash_wyhash_4loc_fixed_s hash_wyhash_4loc_fixed_call.
Definition wyhash_4loc_f := Functor 4 hash_wyhash_4loc_s hash_wyhash_4loc_call.

Lemma _wyp_wf : secret_wf _wyp.
Proof. by vm_compute. Qed.

(** The reads of a functor whose bounds [lia] can see, then the mixing. *)
Ltac wy_reads :=
  cbv zeta;
  repeat (lazymatch goal with
  | |- context [_wyr8 ?p ?off ≫= _] => let v := fresh "v" in read8 off v
  | |- context [_wyr4 ?p ?off ≫= _] => let v := fresh "v" in read4 off v
  end);
  eexists; (split; [done|]);
  destruct _wyp_wf as (? & ? & ? & ?); assert (fits 64 0) by (split; lia); solve_wy.

Ltac wy_unfold :=
  unfold hash_wyhash_1loc_fixed_s, hash_wyhash_1loc_s, hash_wyhash_1loc_fixed_call, hash_wyhash_1loc_call,
    hash_wyhash_2loc_fixed_s, hash_wyhash_2loc_s, hash_wyhash_2loc_fixed_call, hash_wyhash_2loc_call,
    hash_wyhash_3loc_fixed_s, hash_wyhash_3loc_s, hash_wyhash_3loc_fixed_call, hash_wyhash_3loc_call,
    hash_wyhash_4loc_fixed_s, hash_wyhash_4loc_s, hash_wyhash_4loc_fixed_call, hash_wyhash_4loc_call;
  run_ctor;
  unfold wyhash_1loc, wyhash_2loc, wyhash_3loc, wyhash_4loc,
    wyhash_1loc_fixed, wyhash_2loc_fixed, wyhash_3loc_fixed, wyhash_4loc_fixed;
  run_arr.

Ltac wy_safe :=
  start_safe; wy_unfold;
  lazymatch goal with
  | |- context [if ?b then _ else _] =>
      destruct b eqn:Hb;
      [apply Z.leb_le in Hb; wy_reads
      |apply wyhash_total; [apply _wyp_wf|split; lia|done]]
  | |- _ => wy_reads
  end.

#[export] Instance wyhash_1loc_fixed_safe : SubKeySafe wyhash_1loc_fixed_f true.
Proof. wy_safe. Qed.
#[export] Instance wyhash_1loc_safe : SubKeySafe wyhash_1loc_f false.
Proof. wy_safe. Qed.
#[export] Instance wyhash_2loc_fixed_safe : SubKeySafe wyhash_2loc_fixed_f true.
Proof. wy_safe. Qed.
#[export] Instance wyhash_2loc_safe : SubKeySafe wyhash_2loc_f false.
Proof. wy_safe. Qed.
#[export] Instance wyhash_3loc_fixed_safe : SubKeySafe wyhash_3loc_fixed_f true.
Proof. wy_safe. Qed.
#[export] Instance wyhash_3loc_safe : SubKeySafe wyhash_3loc_f false.
Proof. wy_safe. Qed.
#[export] Instance wyhash_4loc_fixed_safe : SubKeySafe wyhash_4loc_fixed_f true.
Proof. wy_safe. Qed.
#[export] Instance wyhash_4loc_safe : SubKeySafe wyhash_4loc_f false.
Proof. wy_safe. Qed.

(** Both keys are read at the same shared words. *)
Ltac wy_local :=
  start_local; wy_unfold; cbv zeta; share_words; unfold _wyr4; shared_reads _wyr8.

#[export] Instance wyhash_1loc_fixed_local : SubKeyLocal wyhash_1loc_fixed_f 0.
Proof. wy_local. Qed.
#[export] Instance wyhash_1loc_local : SubKeyLocal wyhash_1loc_f 0.
Proof. wy_local. Qed.
#[export] Instance wyhash_2loc_fixed_local : SubKeyLocal wyhash_2loc_fixed_f 0.
Proof. wy_local. Qed.
#[export] Instance wyhash_2loc_local : SubKeyLocal wyhash_2loc_f 0.
Proof. wy_local. Qed.
#[export] Instance wyhash_3loc_fixed_local : SubKeyLocal wyhash_3loc_fixed_f 0.
Proof. wy_local. Qed.
#[export] Instance wyhash_3loc_local : SubKeyLocal wyhash_3loc_f 0.
Proof. wy_local. Qed.
#[export] Instance wyhash_4loc_fixed_local : SubKeyLocal wyhash_4loc_fixed_f 0.
Proof. wy_local. Qed.
#[export] Instance wyhash_4loc_local : SubKeyLocal wyhash_4loc_f 0.
Proof. wy_local. Qed.
