(* ===== verification/XxhCustoms.v ===== *)
(** * Entropy-learned XXH3 (src/include/hash/xxhash_customs.hh)

    [XXH3_<n>loc_fixed] mixes words at the chosen offsets with the XXH3 secret;
    [XXH3_<n>loc] falls back to the full [XXH3_64bits] unless the key is strictly
    longer than the cached end of the last word. *)
From S2P Require Import Prelude Words Xxh3 LocArrays.
From Stdlib Require Import Strings.String.

Definition XXH3_1loc_fixed (input : bytes) (len : Z) (locations : list Z) (secret : bytes) : option Z :=
  s8 ← XXH_readLE64 secret 8; s16 ← XXH_readLE64 secret 16;
  let bitflip := Z.lxor s8 s16 in
  l0 ← arr_get locations 0;
  input64 ← XXH_readLE64 input l0;
  let keyed := Z.lxor input64 bitflip in
  Some (XXH3_avalanche (u64 (keyed + len))).

Definition XXH3_1loc (input : bytes) (len : Z) (locations : list Z) : option Z :=
  e ← arr_get locations 1;
  if e <? len then XXH3_1loc_fixed input len locations XXH3_kSecret
  else XXH3_64bits input len.

Definition XXH3_2loc_fixed (input : bytes) (len : Z) (locations : list Z) (secret : bytes) : option Z :=
  s24 ← XXH_readLE64 secret 24; s32 ← XXH_readLE64 secret 32;
  s40 ← XXH_readLE64 secret 40; s48 ← XXH_readLE64 secret 48;
  let bitflip1 := Z.lxor s24 s32 in
  let bitflip2 := Z.lxor s40 s48 in
  l0 ← arr_get locations 0; l1 ← arr_get locations 1;
  lo ← XXH_readLE64 input l0; hi ← XXH_readLE64 input l1;
  let input_lo := Z.lxor lo bitflip1 in
  let input_hi := Z.lxor hi bitflip2 in
  let acc := u64 (len + XXH_swap64 input_lo + input_hi + XXH3_mul128_fold64 input_lo input_hi) in
  Some (XXH3_avalanche acc).

Definition XXH3_2loc (input : bytes) (len : Z) (locations : list Z) : option Z :=
  e ← arr_get locations 2;
  if e <? len then XXH3_2loc_fixed input len locations XXH3_kSecret
  else XXH3_64bits input len.

Definition XXH3_3loc_fixed (input : bytes) (len : Z) (locations : list Z) (secret : bytes) : option Z :=
  let acc := u64 (len * XXH_PRIME64_1) in
  l0 ← arr_get locations 0; l1 ← arr_get locations 1;
  acc ← XXH3_acc_mix input l0 secret 0 0 acc;
  XXH3_acc_mix input l1 secret 16 0 acc.

Definition XXH3_3loc (input : bytes) (len : Z) (locations : list Z) : option Z :=
  e ← arr_get locations 3;
  if e <? len then XXH3_3loc_fixed input len locations XXH3_kSecret
  else XXH3_64bits input len.

Definition XXH3_4loc_fixed (input : bytes) (len : Z) (locations : list Z) (secret : bytes) : option Z :=
  let acc := u64 (len * XXH_PRIME64_1) in
  l0 ← arr_get locations 0; l2 ← arr_get locations 2;
  acc ← XXH3_acc_mix input l0 secret 0 0 acc;
  XXH3_acc_mix input l2 secret 16 0 acc.

Definition XXH3_4loc (input : bytes) (len : Z) (locations : list Z) : option Z :=
  e ← arr_get locations 4;
  if e <? len then XXH3_4loc_fixed input len locations XXH3_kSecret
  else XXH3_64bits input len.

(** ** The functors *)

Definition hash_XXH3_1loc_fixed_s (locs : list Z) : option (list Z) := ctor_fixed 1 locs.
Definition hash_XXH3_1loc_fixed_call (locations : list Z) (str : bytes) : option Z :=
  XXH3_1loc_fixed str (Z.of_nat (List.length str)) locations XXH3_kSecret.
Definition hash_XXH3_1loc_s (locs : list Z) : option (list Z) := ctor_endpoint 1 locs.
Definition hash_XXH3_1loc_call (locations : list Z) (str : bytes) : option Z :=
  XXH3_1loc str (Z.of_nat (List.length str)) locations.

Definition hash_XXH3_2loc_fixed_s (locs : list Z) : option (list Z) := ctor_fixed 2 locs.
Definition hash_XXH3_2loc_fixed_call (locations : list Z) (str : bytes) : option Z :=
  XXH3_2loc_fixed str (Z.of_nat (List.length str)) locations XXH3_kSecret.
Definition hash_XXH3_2loc_s (locs : list Z) : option (list Z) := ctor_endpoint 2 locs.
Definition hash_XXH3_2loc_call (locations : list Z) (str : bytes) : option Z :=
  XXH3_2loc str (Z.of_nat (List.length str)) locations.

Definition hash_XXH3_3loc_fixed_s (locs : list Z) : option (list Z) := ctor_fixed 3 locs.
Definition hash_XXH3_3loc_fixed_call (locations : list Z) (str : bytes) : option Z :=
  XXH3_3loc_fixed str (Z.of_nat (List.length str)) locations XXH3_kSecret.
Definition hash_XXH3_3loc_s (locs : list Z) : option (list Z) := ctor_endpoint 3 locs.
Definition hash_XXH3_3loc_call (locations : list Z) (str : bytes) : option Z :=
  XXH3_3loc str (Z.of_nat (List.length str)) locations.

Definition hash_XXH3_4loc_fixed_s (locs : list Z) : option (list Z) := ctor_fixed 4 locs.
Definition hash_XXH3_4loc_fixed_call (locations : list Z) (str : bytes) : option Z :=
  XXH3_4loc_fixed str (Z.of_nat (List.length str)) locations XXH3_kSecret.
Definition hash_XXH3_4loc_s (locs : list Z) : option (list Z) := ctor_endpoint 4 locs.
Definition hash_XXH3_4loc_call (locations : list Z) (str : bytes) : option Z :=
  XXH3_4loc str (Z.of_nat (List.length str)) locations.

Definition XXH3_1loc_fixed_f := Functor 1 hash_XXH3_1loc_fixed_s hash_XXH3_1loc_fixed_call.
Definition XXH3_1loc_f := Functor 1 hash_XXH3_1loc_s hash_XXH3_1loc_call.
Definition XXH3_2loc_fixed_f := Functor 2 hash_XXH3_2loc_fixed_s hash_XXH3_2loc_fixed_call.
Definition XXH3_2loc_f := Functor 2 hash_XXH3_2loc_s hash_XXH3_2loc_call.
Definition XXH3_3loc_fixed_f := Functor 3 hash_XXH3_3loc_fixed_s hash_XXH3_3loc_fixed_call.
Definition XXH3_3loc_f := Functor 3 hash_XXH3_3loc_s hash_XXH3_3loc_call.
Definition XXH3_4loc_fixed_f := Functor 4 hash_XXH3_4loc_fixed_s hash_XXH3_4loc_fixed_call.
Definition XXH3_4loc_f := Functor 4 hash_XXH3_4loc_s hash_XXH3_4loc_call.

(** ** The functors meet the safety interface *)

Lemma XXH3_kSecret_length : Z.of_nat (List.length XXH3_kSecret) = 192.
Proof. reflexivity. Qed.

Ltac xxh_unfold :=
  unfold hash_XXH3_1loc_fixed_s, hash_XXH3_1loc_s, hash_XXH3_2loc_fixed_s, hash_XXH3_2loc_s, hash_XXH3_3loc_fixed_s, hash_XXH3_3loc_s, hash_XXH3_4loc_fixed_s, hash_XXH3_4loc_s, hash_XXH3_1loc_fixed_call, hash_XXH3_1loc_call, hash_XXH3_2loc_fixed_call, hash_XXH3_2loc_call, hash_XXH3_3loc_fixed_call, hash_XXH3_3loc_call, hash_XXH3_4loc_fixed_call, hash_XXH3_4loc_call;
  run_ctor;
  unfold XXH3_1loc, XXH3_2loc, XXH3_3loc, XXH3_4loc,
    XXH3_1loc_fixed, XXH3_2loc_fixed, XXH3_3loc_fixed, XXH3_4loc_fixed;
  cbv zeta.

(** The reads of a functor in any order: of the array, of the secret, of the key. *)
Ltac xxh_body :=
  pose proof XXH3_kSecret_length;
  unfold XXH3_acc_mix, XXH3_mix16B;
  repeat progress (run_arr; xxh_reads);
  eexists; (split; [done|]); first [apply XXH3_avalanche_fits | apply fits_wrap; lia].

Ltac xxh_safe :=
  start_safe; xxh_unfold; run_arr;
  lazymatch goal with
  | |- context [if ?b then _ else _] =>
      destruct b eqn:Hb; [apply Z.ltb_lt in Hb; xxh_body|apply XXH3_64bits_total]
  | |- _ => xxh_body
  end.

#[export] Instance XXH3_1loc_fixed_safe : SubKeySafe XXH3_1loc_fixed_f true.
Proof. xxh_safe. Qed.
#[export] Instance XXH3_1loc_safe : SubKeySafe XXH3_1loc_f false.
Proof. xxh_safe. Qed.
#[export] Instance XXH3_2loc_fixed_safe : SubKeySafe XXH3_2loc_fixed_f true.
Proof. xxh_safe. Qed.
#[export] Instance XXH3_2loc_safe : SubKeySafe XXH3_2loc_f false.
Proof. xxh_safe. Qed.
#[export] Instance XXH3_3loc_fixed_safe : SubKeySafe XXH3_3loc_fixed_f true.
Proof. xxh_safe. Qed.
#[export] Instance XXH3_3loc_safe : SubKeySafe XXH3_3loc_f false.
Proof. xxh_safe. Qed.
#[export] Instance XXH3_4loc_fixed_safe : SubKeySafe XXH3_4loc_fixed_f true.
Proof. xxh_safe. Qed.
#[export] Instance XXH3_4loc_safe : SubKeySafe XXH3_4loc_f false.
Proof. xxh_safe. Qed.

(** ** Locality: one and two words *)

Ltac xxh_local :=
  start_local; xxh_unfold;
  repeat lazymatch goal with
  | H : slice ?x ?o 8 = slice ?y ?o 8 |- _ =>
      apply (f_equal (fmap le_combine)) in H;
      change (XXH_readLE64 x o = XXH_readLE64 y o) in H
  end;
  run_arr;
  repeat match goal with
  | Hl : List.length ?x = List.length ?y |- context [Z.of_nat (List.length ?x)] => rewrite Hl
  | H : XXH_readLE64 ?x ?o = XXH_readLE64 ?y ?o |- context [XXH_readLE64 ?x ?o] => rewrite H
  end;
  run_arr;
  repeat match goal with
  | H : XXH_readLE64 ?x ?o = XXH_readLE64 ?y ?o |- context [XXH_readLE64 ?x ?o] => rewrite H
  end;
  first
    [ reflexivity
    | match goal with |- context [if ?b then _ else _] =>
        destruct b eqn:Hb; [reflexivity|apply Z.ltb_ge in Hb; lia] end ].

#[export] Instance XXH3_1loc_fixed_local : SubKeyLocal XXH3_1loc_fixed_f 0.
Proof. xxh_local. Qed.
#[export] Instance XXH3_1loc_local : SubKeyLocal XXH3_1loc_f 1.
Proof. xxh_local. Qed.
#[export] Instance XXH3_2loc_fixed_local : SubKeyLocal XXH3_2loc_fixed_f 0.
Proof. xxh_local. Qed.
#[export] Instance XXH3_2loc_local : SubKeyLocal XXH3_2loc_f 1.
Proof. xxh_local. Qed.

(** ** Three and four words: what the hash really reads

    [XXH3_3loc] reads 16 bytes at the first two locations and never uses
    [locations[2]] except to guard the read; [XXH3_4loc] reads 16 bytes at the
    first and the third. *)

(** Agreement of two keys on the 16-byte windows at two word indices. *)
Definition same_windows (la lb : Z) (x y : bytes) : Prop :=
  List.length x = List.length y ∧
  slice x (8 * la) 16 = slice y (8 * la) 16 ∧ slice x (8 * lb) 16 = slice y (8 * lb) 16.

Lemma XXH3_mix16B_window x y o secret s seed :
  slice x o 16 = slice y o 16 → List.length x = List.length y →
  0 ≤ o → o + 16 ≤ Z.of_nat (List.length x) →
  XXH3_mix16B x o secret s seed = XXH3_mix16B y o secret s seed.
Proof.
  intros Hs Hl Ho Hb. unfold XXH3_mix16B, XXH_readLE64.
  pose proof (load_le_slice_eq x y o 16 0 8 Hs Hl ltac:(lia) ltac:(lia) ltac:(lia) ltac:(lia)) as H0.
  pose proof (load_le_slice_eq x y o 16 8 8 Hs Hl ltac:(lia) ltac:(lia) ltac:(lia) ltac:(lia)) as H8.
  rewrite Z.add_0_r in H0. by rewrite H0, H8.
Qed.

(** Proves that two keys with the same windows at the two mixed offsets hash alike. *)
Ltac xxh_windows Hwf Hfit :=
  unfold locs_fit in Hfit; unfold functor_run; cbn [f_ctor f_call];
  open_locs Hwf; open_forall Hfit; xxh_unfold; run_arr; unfold XXH3_acc_mix;
  repeat match goal with
  | Hl : List.length ?x = List.length ?y |- context [Z.of_nat (List.length ?x)] => rewrite Hl
  | H : slice ?x ?o 16 = slice ?y ?o 16, Hl : List.length ?x = List.length ?y
      |- context [XXH3_mix16B ?x ?o ?q ?i ?sd] =>
      rewrite (XXH3_mix16B_window x y o q i sd H Hl) by lia
  | H : slice ?x ?o 16 = slice ?y ?o 16, Hl : List.length ?x = List.length ?y
      |- context [mbind _ (mbind _ ?o)] => destruct o; cbn [mbind option_bind]; [|done]
  | |- context [if ?b then _ else _] =>
      destruct b eqn:?; [|match goal with H : (_ <? _) = false |- _ => apply Z.ltb_ge in H; lia end]
  end.

(** The third location of [XXH3_3loc], and the second and the fourth of [XXH3_4loc],
    do not reach the hash: what does is two windows of 16 bytes. *)
Theorem XXH3_34loc_reads l0 l1 l2 l3 x y :
  (locs_wf 3 [l0; l1; l2] → locs_fit 1 3 [l0; l1; l2] x → same_windows l0 l1 x y →
   functor_run XXH3_3loc_f [l0; l1; l2] x = functor_run XXH3_3loc_f [l0; l1; l2] y) ∧
  (locs_wf 4 [l0; l1; l2; l3] → locs_fit 1 4 [l0; l1; l2; l3] x → same_windows l0 l2 x y →
   functor_run XXH3_4loc_f [l0; l1; l2; l3] x = functor_run XXH3_4loc_f [l0; l1; l2; l3] y).
Proof.
  split.
  - intros Hwf Hfit (Hl & H0 & H1). unfold XXH3_3loc_f. xxh_windows Hwf Hfit; done.
  - intros Hwf Hfit (Hl & H0 & H1). unfold XXH3_4loc_f. xxh_windows Hwf Hfit; done.
Qed.

Definition demo_key (w1 w4 : string) : bytes :=
  list_byte_of_string ("aaaaaaaa" ++ w1 ++ "ccccccccdddddddd" ++ w4 ++ "f")%string.

Lemma not_local_from (f : functor) slack locs x y :
  locs_wf (f_words f) locs → locs_fit slack (f_words f) locs x → same_words (f_words f) locs x y →
  functor_run f locs x ≠ functor_run f locs y → ¬ SubKeyLocal f slack.
Proof. intros H1 H2 H3 Hne Hloc. apply Hne. by apply Hloc. Qed.

(** C27: The three- and four-word xxh3 functors are not functions of the chosen words:
    two keys with the same length and the same words at the chosen locations have
    different hashes. *)
Theorem XXH3_34loc_not_local : ¬ SubKeyLocal XXH3_3loc_f 1 ∧ ¬ SubKeyLocal XXH3_4loc_f 1.
Proof.
  split.
  - apply (not_local_from _ _ [0; 2; 4]
      (demo_key "bbbbbbbb" "eeeeeeee") (demo_key "BBBBBBBB" "eeeeeeee")); vm_decide.
  - apply (not_local_from _ _ [0; 2; 3; 4]
      (demo_key "bbbbbbbb" "eeeeeeee") (demo_key "BBBBBBBB" "eeeeeeee")); vm_decide.
Qed.
