(* ===== verification/Crc32Hash.v ===== *)
(** * The CRC-based full-key hash (src/include/hash/crc32_hash.hh)

    The SSE4.2 instruction behind [_mm_crc32_u64] is not code of the repository:
    the class [Crc32] carries it with the two documented facts the proofs use.
    [crc32c] is a software CRC-32C that instantiates the class. *)
From S2P Require Import Prelude Words.

Class Crc32 := {
  _mm_crc32_u64 : Z → Z → Z;
  (** the result is a CRC-32, zero-extended to 64 bits *)
  crc32_u64_fits : ∀ c v, fits 32 (_mm_crc32_u64 c v);
  (** the running CRC is taken from bits 31:0 of the first operand *)
  crc32_u64_low : ∀ c v, _mm_crc32_u64 (u32 c) v = _mm_crc32_u64 c v
}.

#[export] Hint Resolve crc32_u64_fits : elh.

Section crc32_hash.
Context `{C : Crc32}.

Definition Hash128to64 (x1 x2 : Z) : Z :=
  let kMul := 0x9ddfea08eb382d69 in
  let a := u64 (Z.lxor x1 x2 * kMul) in
  let a := Z.lxor a (Z.shiftr a 47) in
  let b := u64 (Z.lxor x2 a * kMul) in
  let b := Z.lxor b (Z.shiftr b 47) in
  u64 (b * kMul).

Definition hashLen16 (u v : Z) : Z := Hash128to64 u v.
Definition shiftMix (val : Z) : Z := Z.lxor val (Z.shiftr val 47).

(** A shift by 64 or more is undefined. *)
Definition rotateByAtLeast1 (val shift : Z) : option Z :=
  if (0 <? shift) && (shift <? 64)
  then Some (Z.lor (Z.shiftr val shift) (u64 (Z.shiftl val (64 - shift)))) else None.

Definition k2 : Z := 0x9ae16a3b2f90404f.
Definition k3 : Z := 0xc949d7c7509e6557.

Definition hashLessThan8 (data : bytes) (size : Z) : option Z :=
  if 4 <=? size then
    a ← load_le 4 data 0;
    b ← load_le 4 data (size - 4);
    Some (hashLen16 (u64 (size + u64 (Z.shiftl a 3))) b)
  else if 0 <? size then
    a ← load_byte data 0;
    b ← load_byte data (Z.shiftr size 1);
    c ← load_byte data (size - 1);
    let y := u32 (a + u32 (Z.shiftl b 8)) in
    let z := u32 (size + u32 (Z.shiftl c 2)) in
    Some (u64 (shiftMix (Z.lxor (u64 (y * k2)) (u64 (z * k3))) * k2))
  else Some k2.

Definition hashLessThan16 (data : bytes) (size : Z) : option Z :=
  if 8 <? size then
    a ← load_le 8 data 0;
    b ← load_le 8 data (size - 8);
    r ← rotateByAtLeast1 (u64 (b + size)) size;
    Some (Z.lxor (hashLen16 a r) b)
  else hashLessThan8 data size.

(** One turn of the loop: the position and the running CRC. *)
Definition crcHash_body (data : bytes) (s : Z * Z) : option (Z * Z) :=
  let '(pos, res) := s in
  word ← load_le 8 data pos;
  Some (pos + 8, _mm_crc32_u64 res word).

Definition crcHash (data : bytes) (size : Z) : option Z :=
  if size =? 0 then Some 0
  else if size <? 8 then hashLessThan8 data size
  else
    s ← crcHash_body data (0, 2 ^ 64 - 1);
    '(pos, res) ← while (Z.to_nat size) (λ s, s.1 + 8 <? size) (crcHash_body data) s;
    word ← load_le 8 data (size - 8);
    Some (_mm_crc32_u64 res word).

Definition CRC32Hash_s (x : bytes) : option Z := crcHash x (Z.of_nat (length x)).

(** ** Reads, termination and range *)

Ltac load_in n off v :=
  match goal with |- context [load_le n ?p ?o ≫= _] =>
    unify o off;
    destruct (load_le_in_bounds n p o ltac:(lia) ltac:(lia)) as (v & -> & ?)
  end; cbn [mbind option_bind].

Lemma hashLessThan8_ok data :
  Z.of_nat (length data) < 8 →
  ∃ h, hashLessThan8 data (Z.of_nat (length data)) = Some h ∧ fits 64 h.
Proof using.
  intros Hlen. unfold hashLessThan8. case_bool.
  - load_in 4%nat 0 a. load_in 4%nat (Z.of_nat (length data) - 4) b.
    eexists. split; [done|apply fits_wrap; lia].
  - assert (0 ≤ Z.shiftr (Z.of_nat (length data)) 1 < Z.of_nat (length data)).
    { rewrite Z.shiftr_div_pow2 by lia. split; [apply Z.div_pos; lia|].
      apply Z.div_lt_upper_bound; lia. }
    destruct (load_byte_in_bounds data 0) as (a & -> & _); [lia|].
    destruct (load_byte_in_bounds data (Z.shiftr (Z.of_nat (length data)) 1)) as (b & -> & _); [lia|].
    destruct (load_byte_in_bounds data (Z.of_nat (length data) - 1)) as (c & -> & _); [lia|].
    eexists. split; [done|apply fits_wrap; lia].
  - eexists. split; [done|split; vm_compute; congruence].
Qed.

(** The loop visits every whole word before the last 8 bytes. *)
Lemma crcHash_long_ok data :
  let size := Z.of_nat (length data) in
  8 ≤ size → ∃ h, crcHash data size = Some h ∧ fits 32 h.
Proof using.
  intros size Hlen. unfold crcHash.
  rewrite (proj2 (Z.eqb_neq _ _)), (proj2 (Z.ltb_ge _ _)) by lia.
  unfold crcHash_body at 2. cbn [mbind option_bind]. load_in 8%nat 0 w. set (s0 := (_, _)).
  set (inv := λ s : Z * Z, 0 ≤ s.1 ≤ size + 8).
  destruct (while_total inv (λ s, Z.to_nat (size + 8 - s.1)) (λ s, s.1 + 8 <? size)
    (crcHash_body data)) with (fuel := Z.to_nat size) (s := s0) as ([pos res] & -> & _ & _).
  - intros [pos res] [Hp _] Hlt%Z.ltb_lt. cbn [fst] in *. unfold crcHash_body.
    load_in 8%nat pos w'. eexists. split; [done|]. unfold inv; cbn [fst]. lia.
  - unfold inv, s0; cbn [fst]. lia.
  - unfold s0; cbn [fst]. lia.
  - cbn [mbind option_bind]. load_in 8%nat (size - 8) w'. eauto with elh.
Qed.

Lemma CRC32Hash_ok x : ∃ h, CRC32Hash_s x = Some h ∧ fits 64 h.
Proof using.
  unfold CRC32Hash_s. destruct (Z.lt_ge_cases (Z.of_nat (length x)) 8) as [Hlt|Hge].
  - unfold crcHash. case_bool; [|by apply hashLessThan8_ok|lia].
    eexists. split; [done|split; lia].
  - destruct (crcHash_long_ok x Hge) as (h & Hh & Hf). exists h. split; [done|].
    by apply (fits_weaken 32).
Qed.
End crc32_hash.

(** ** A software CRC-32C *)

Fixpoint crc32c_shift (n : nat) (r : Z) : Z :=
  match n with
  | O => r
  | S n => crc32c_shift n (if Z.odd r then Z.lxor (Z.shiftr r 1) 0x82F63B78 else Z.shiftr r 1)
  end.

Definition crc32c_u64 (c v : Z) : Z := u32 (crc32c_shift 64 (Z.lxor (u32 c) (u64 v))).

Lemma crc32c_u64_fits c v : fits 32 (crc32c_u64 c v).
Proof. apply fits_wrap. lia. Qed.

Lemma crc32c_u64_low c v : crc32c_u64 (u32 c) v = crc32c_u64 c v.
Proof. unfold crc32c_u64. by rewrite wrap_wrap. Qed.

#[export] Instance crc32c : Crc32 :=
  Build_Crc32 crc32c_u64 crc32c_u64_fits crc32c_u64_low.

(** The check value of CRC-32C over [123456781234...]: one 8-byte word. *)
Example crc32c_check : Z.lxor (crc32c_u64 (2 ^ 32 - 1) 0x3837363534333231) (2 ^ 32 - 1) = 0x6087809A.
Proof. vm_compute. reflexivity. Qed.
