(* ===== verification/CrcWyhashCustoms.v ===== *)
(** * Entropy-learned CRC hashing (src/include/hash/crc_wyhash_customs.hh)

    The words at the chosen offsets are fed to the CRC instruction; keys shorter
    than the cached end of the last word go to [crcHash]. *)
From S2P Require Import Prelude Words Wyhash LocArrays Crc32Hash.

Section crc_customs.
Context `{C : Crc32}.

Definition crc32_wyhash_1loc_fixed (key : bytes) (len : Z) (locations : list Z)
    (seed : Z) : option Z :=
  let res := u64 (seed + len) in
  l0 ← arr_get locations 0;
  a ← _wyr8 key l0;
  Some (_mm_crc32_u64 res a).

Definition crc32_wyhash_1loc (key : bytes) (len : Z) (locations : list Z)
    (seed : Z) : option Z :=
  e ← arr_get locations 1;
  if e <=? len then crc32_wyhash_1loc_fixed key len locations seed
  else crcHash key len.

Definition crc32_wyhash_2loc_fixed (key : bytes) (len : Z) (locations : list Z)
    (seed : Z) : option Z :=
  let res := u64 (seed + len) in
  l0 ← arr_get locations 0;
  a ← _wyr8 key l0;
  let res := _mm_crc32_u64 res a in
  l1 ← arr_get locations 1;
  b ← _wyr8 key l1;
  Some (_mm_crc32_u64 res b).

(** From here on the [seed] of the caller is not passed on. *)
Definition crc32_wyhash_2loc (key : bytes) (len : Z) (locations : list Z)
    (seed : Z) : option Z :=
  e ← arr_get locations 2;
  if e <=? len then crc32_wyhash_2loc_fixed key len locations 0
  else crcHash key len.

Definition crc32_wyhash_3loc_fixed (key : bytes) (len : Z) (locations : list Z)
    (seed : Z) : option Z :=
  l0 ← arr_get locations 0; l1 ← arr_get locations 1; l2 ← arr_get locations 2;
  a ← _wyr8 key l0;
  let term1 := _mm_crc32_u64 (u64 (seed + len)) a in
  b ← _wyr8 key l1;
  c ← _wyr8 key l2;
  let term2 := _mm_crc32_u64 b (u64 (c + term1)) in
  Some term2.

Definition crc32_wyhash_3loc (key : bytes) (len : Z) (locations : list Z)
    (seed : Z) : option Z :=
  e ← arr_get locations 3;
  if e <=? len then crc32_wyhash_3loc_fixed key len locations 0
  else crcHash key len.

Definition crc32_wyhash_4loc_fixed (key : bytes) (len : Z) (locations : list Z)
    (seed : Z) : option Z :=
  l0 ← arr_get locations 0; l1 ← arr_get locations 1;
  l2 ← arr_get locations 2; l3 ← arr_get locations 3;
  b ← _wyr8 key l1;
  a ← _wyr8 key l0;
  let res := _mm_crc32_u64 b a in
  c ← _wyr8 key l2;
  let res1 := _mm_crc32_u64 (u64 (seed + len)) c in
  let res := Z.lxor res res1 in
  d ← _wyr8 key l3;
  Some (_mm_crc32_u64 d res).

Definition crc32_wyhash_4loc (key : bytes) (len : Z) (locations : list Z)
    (seed : Z) : option Z :=
  e ← arr_get locations 4;
  if e <=? len then crc32_wyhash_4loc_fixed key len locations 0
  else crcHash key len.

Definition crc32_wyhash_hardcode (key : bytes) (len : Z) : option Z :=
  if 56 <? len then
    let res := len in
    a ← _wyr8 key 40;
    let res := _mm_crc32_u64 res a in
    b ← _wyr8 key 48;
    Some (_mm_crc32_u64 res b)
  else wyhash key len 0 _wyp.

Definition hash_wyhash_hardcode (str : bytes) : option Z :=
  crc32_wyhash_hardcode str (Z.of_nat (length str)).

(** ** The functors *)

Definition hash_crc32wyhash_1loc_fixed_s (locs : list Z) : option (list Z) :=
  ctor_fixed 1 locs.
Definition hash_crc32wyhash_1loc_fixed_call (locations : list Z) (str : bytes) : option Z :=
  crc32_wyhash_1loc_fixed str (Z.of_nat (length str)) locations 0.
Definition hash_crc32wyhash_1loc_s (locs : list Z) : option (list Z) :=
  ctor_endpoint 1 locs.
Definition hash_crc32wyhash_1loc_call (locations : list Z) (str : bytes) : option Z :=
  crc32_wyhash_1loc str (Z.of_nat (length str)) locations 0.

Definition hash_crc32wyhash_2loc_fixed_s (locs : list Z) : option (list Z) :=
  ctor_fixed 2 locs.
Definition hash_crc32wyhash_2loc_fixed_call (locations : list Z) (str : bytes) : option Z :=
  crc32_wyhash_2loc_fixed str (Z.of_nat (length str)) locations 0.
Definition hash_crc32wyhash_2loc_s (locs : list Z) : option (list Z) :=
  ctor_endpoint 2 locs.
Definition hash_crc32wyhash_2loc_call (locations : list Z) (str : bytes) : option Z :=
  crc32_wyhash_2loc str (Z.of_nat (length str)) locations 0.

Definition hash_crc32wyhash_3loc_fixed_s (locs : list Z) : option (list Z) :=
  ctor_fixed 3 locs.
Definition hash_crc32wyhash_3loc_fixed_call (locations : list Z) (str : bytes) : option Z :=
  crc32_wyhash_3loc_fixed str (Z.of_nat (length str)) locations 0.
Definition hash_crc32wyhash_3loc_s (locs : list Z) : option (list Z) :=
  ctor_endpoint 3 locs.
Definition hash_crc32wyhash_3loc_call (locations : list Z) (str : bytes) : option Z :=
  crc32_wyhash_3loc str (Z.of_nat (length str)) locations 0.

Definition hash_crc32wyhash_4loc_fixed_s (locs : list Z) : option (list Z) :=
  ctor_fixed 4 locs.
Definition hash_crc32wyhash_4loc_fixed_call (locations : list Z) (str : bytes) : option Z :=
  crc32_wyhash_4loc_fixed str (Z.of_nat (length str)) locations 0.
Definition hash_crc32wyhash_4loc_s (locs : list Z) : option (list Z) :=
  ctor_endpoint 4 locs.
Definition hash_crc32wyhash_4loc_call (locations : list Z) (str : bytes) : option Z :=
  crc32_wyhash_4loc str (Z.of_nat (length str)) locations 0.

Definition crc32_1loc_fixed_f :=
  Functor 1 hash_crc32wyhash_1loc_fixed_s hash_crc32wyhash_1loc_fixed_call.
Definition crc32_1loc_f :=
  Functor 1 hash_crc32wyhash_1loc_s hash_crc32wyhash_1loc_call.
Definition crc32_2loc_fixed_f :=
  Functor 2 hash_crc32wyhash_2loc_fixed_s hash_crc32wyhash_2loc_fixed_call.
Definition crc32_2loc_f :=
  Functor 2 hash_crc32wyhash_2loc_s hash_crc32wyhash_2loc_call.
Definition crc32_3loc_fixed_f :=
  Functor 3 hash_crc32wyhash_3loc_fixed_s hash_crc32wyhash_3loc_fixed_call.
Definition crc32_3loc_f :=
  Functor 3 hash_crc32wyhash_3loc_s hash_crc32wyhash_3loc_call.
Definition crc32_4loc_fixed_f :=
  Functor 4 hash_crc32wyhash_4loc_fixed_s hash_crc32wyhash_4loc_fixed_call.
Definition crc32_4loc_f :=
  Functor 4 hash_crc32wyhash_4loc_s hash_crc32wyhash_4loc_call.

Ltac crc_unfold :=
  unfold hash_crc32wyhash_1loc_fixed_s, hash_crc32wyhash_1loc_fixed_call,
    hash_crc32wyhash_1loc_s, hash_crc32wyhash_1loc_call,
    hash_crc32wyhash_2loc_fixed_s, hash_crc32wyhash_2loc_fixed_call,
    hash_crc32wyhash_2loc_s, hash_crc32wyhash_2loc_call,
    hash_crc32wyhash_3loc_fixed_s, hash_crc32wyhash_3loc_fixed_call,
    hash_crc32wyhash_3loc_s, hash_crc32wyhash_3loc_call,
    hash_crc32wyhash_4loc_fixed_s, hash_crc32wyhash_4loc_fixed_call,
    hash_crc32wyhash_4loc_s, hash_crc32wyhash_4loc_call;
  run_ctor;
  unfold crc32_wyhash_1loc, crc32_wyhash_2loc, crc32_wyhash_3loc, crc32_wyhash_4loc,
    crc32_wyhash_1loc_fixed, crc32_wyhash_2loc_fixed, crc32_wyhash_3loc_fixed,
    crc32_wyhash_4loc_fixed;
  run_arr.

(** Whatever the number of words, the last step is the CRC instruction. *)
Ltac crc_reads :=
  cbv zeta;
  repeat (lazymatch goal with
  | |- context [_wyr8 ?p ?off ≫= _] => let v := fresh "v" in read8 off v
  end);
  eexists; (split; [done|]); apply (fits_weaken 32); [lia|]; apply crc32_u64_fits.

Ltac crc_safe :=
  start_safe; crc_unfold;
  lazymatch goal with
  | |- context [if ?b then _ else _] =>
      destruct b eqn:Hb; [apply Z.leb_le in Hb; crc_reads|apply CRC32Hash_ok]
  | |- _ => crc_reads
  end.

#[export] Instance crc32_1loc_fixed_safe : SubKeySafe crc32_1loc_fixed_f true.
Proof using. crc_safe. Qed.
#[export] Instance crc32_1loc_safe : SubKeySafe crc32_1loc_f false.
Proof using. crc_safe. Qed.
#[export] Instance crc32_2loc_fixed_safe : SubKeySafe crc32_2loc_fixed_f true.
Proof using. crc_safe. Qed.
#[export] Instance crc32_2loc_safe : SubKeySafe crc32_2loc_f false.
Proof using. crc_safe. Qed.
#[export] Instance crc32_3loc_fixed_safe : SubKeySafe crc32_3loc_fixed_f true.
Proof using. crc_safe. Qed.
#[export] Instance crc32_3loc_safe : SubKeySafe crc32_3loc_f false.
Proof using. crc_safe. Qed.
#[export] Instance crc32_4loc_fixed_safe : SubKeySafe crc32_4loc_fixed_f true.
Proof using. crc_safe. Qed.
#[export] Instance crc32_4loc_safe : SubKeySafe crc32_4loc_f false.
Proof using. crc_safe. Qed.

Ltac crc_local :=
  start_local; crc_unfold; cbv zeta; share_words; shared_reads _wyr8.

#[export] Instance crc32_1loc_fixed_local : SubKeyLocal crc32_1loc_fixed_f 0.
Proof using. crc_local. Qed.
#[export] Instance crc32_1loc_local : SubKeyLocal crc32_1loc_f 0.
Proof using. crc_local. Qed.
#[export] Instance crc32_2loc_fixed_local : SubKeyLocal crc32_2loc_fixed_f 0.
Proof using. crc_local. Qed.
#[export] Instance crc32_2loc_local : SubKeyLocal crc32_2loc_f 0.
Proof using. crc_local. Qed.
#[export] Instance crc32_3loc_fixed_local : SubKeyLocal crc32_3loc_fixed_f 0.
Proof using. crc_local. Qed.
#[export] Instance crc32_3loc_local : SubKeyLocal crc32_3loc_f 0.
Proof using. crc_local. Qed.
#[export] Instance crc32_4loc_fixed_local : SubKeyLocal crc32_4loc_fixed_f 0.
Proof using. crc_local. Qed.
#[export] Instance crc32_4loc_local : SubKeyLocal crc32_4loc_f 0.
Proof using. crc_local. Qed.

(** ** What the CRC instruction drops

    The first operand of the instruction only counts modulo [2^32], so a word of
    the key that is passed there loses its upper four bytes. *)

Lemma crc32_low_eq p q off v w x :
  load_le 8 p off = Some v → load_le 8 q off = Some w →
  load_le 4 p off = load_le 4 q off → _mm_crc32_u64 v x = _mm_crc32_u64 w x.
Proof using.
  intros Hv Hw Heq.
  rewrite (load_le_low 4 8 p off v), (load_le_low 4 8 q off w) in Heq by (done || lia).
  injection Heq as Heq. change (8 * Z.of_nat 4) with 32 in Heq.
  by rewrite <-(crc32_u64_low v), Heq, crc32_u64_low.
Qed.

(** The three- and four-word hashes ignore the upper half of the word at the
    second offset, and the four-word hash that of the word at the fourth: keys
    that differ only there collide. *)
Theorem crc32_upper_halves_ignored x y l0 l1 l2 rest len seed :
  length x = length y →
  Forall (λ l, 0 ≤ l ∧ l + 8 ≤ Z.of_nat (length x)) [l0; l1; l2] →
  load_le 8 x l0 = load_le 8 y l0 →
  load_le 4 x l1 = load_le 4 y l1 →
  load_le 8 x l2 = load_le 8 y l2 →
  crc32_wyhash_3loc_fixed x len (l0 :: l1 :: l2 :: rest) seed
    = crc32_wyhash_3loc_fixed y len (l0 :: l1 :: l2 :: rest) seed
  ∧ ∀ l3, 0 ≤ l3 ∧ l3 + 8 ≤ Z.of_nat (length x) →
      load_le 4 x l3 = load_le 4 y l3 →
      crc32_wyhash_4loc_fixed x len [l0; l1; l2; l3] seed
        = crc32_wyhash_4loc_fixed y len [l0; l1; l2; l3] seed.
Proof using.
  intros Hlen Hin E0 E1 E2. open_forall Hin.
  destruct (load_le_in_bounds 8 x l1) as (b & Hb & _),
    (load_le_in_bounds 8 y l1) as (b' & Hb' & _); [lia..|].
  unfold crc32_wyhash_3loc_fixed, crc32_wyhash_4loc_fixed, _wyr8.
  split; [|intros l3 H3 E3]; run_arr; rewrite E0, E2, Hb, Hb'; cbn [mbind option_bind];
    destruct (load_le 8 y l0) as [a|], (load_le 8 y l2) as [c|]; cbn [mbind option_bind];
    try done; rewrite (crc32_low_eq _ _ _ _ _ _ Hb Hb' E1); [done|].
  destruct (load_le_in_bounds 8 x l3) as (d & Hd & _),
    (load_le_in_bounds 8 y l3) as (d' & Hd' & _); [lia..|].
  rewrite Hd, Hd'. cbn [mbind option_bind].
  by rewrite (crc32_low_eq _ _ _ _ _ _ Hd Hd' E3).
Qed.
End crc_customs.

Lemma crc32_upper_halves_ignored_witness :
  let x := replicate 32 x00 in
  let y := replicate 12 x00 ++ replicate 4 x01 ++ replicate 12 x00 ++ replicate 4 x02 in
  crc32_wyhash_4loc_fixed x 32 [0; 8; 16; 24] 7 = crc32_wyhash_4loc_fixed y 32 [0; 8; 16; 24] 7.
Proof.
  intros x y.
  assert (Forall (λ l, 0 ≤ l ∧ l + 8 ≤ Z.of_nat (length x)) [0; 8; 16]) by vm_decide.
  apply (crc32_upper_halves_ignored (C := crc32c) x y 0 8 16 [24] 32 7);
    [vm_compute; reflexivity|done|vm_compute; reflexivity..|vm_decide|vm_compute; reflexivity].
Defined.
