(* ===== verification/EntropyEstimators.v ===== *)
(** * Choosing the words to hash (src/include/entropyEstimation/entropy_estimators.hh)

    The estimator measures, for a choice of chunk positions, how often two strings of
    a sample agree on those chunks and on their length, and greedily extends the
    choice with the position of largest Renyi entropy. A string's memory is its
    bytes and the terminating NUL: nothing else can be read through [data()]. *)
From stdpp Require Import sorting.
From S2P Require Import Prelude Words Floats LocArrays WyhashCustoms.

(** ** Decimal numerals: [std::to_string] *)

Definition digit (d : Z) : byte :=
  match Strings.Byte.of_N (Z.to_N (48 + d)) with Some b => b | None => x30 end.

Fixpoint to_string_fuel (fuel : nat) (n : Z) : bytes :=
  match fuel with
  | O => [digit n]
  | S fuel => if n <? 10 then [digit n] else to_string_fuel fuel (n / 10) ++ [digit (n `mod` 10)]
  end.

Definition to_string (n : Z) : bytes := to_string_fuel (Z.to_nat (Z.log2 n)) n.

(** ** Falling powers and the Renyi entropy *)

Definition fallingPower_body (x : Z) (s : Z * Z) : option (Z * Z) :=
  let '(i, returnVal) := s in Some (u32 (i + 1), u64 (returnVal * u64 (x - i))).

Definition fallingPower (x power : Z) : option Z :=
  if power =? 0 then Some 1
  else
    s ← while (Z.to_nat power) (λ s, s.1 <? power) (fallingPower_body x) (1, x);
    Some s.2.

(** [unordered_map<string, int>], as its nodes in the order of their creation *)
Abbreviation freq_map := (list (bytes * Z)).

(** [m[key]++] *)
Fixpoint freq_incr (m : freq_map) (key : bytes) : option freq_map :=
  match m with
  | [] => Some [(key, 1)]
  | (k, c) :: m =>
      if bool_decide (k = key) then c ← chk_i32 (c + 1); Some ((k, c) :: m)
      else m ← freq_incr m key; Some ((k, c) :: m)
  end.

Section estimators.
(** libm, and the order in which the hash table enumerates its nodes *)
Context (log2 : spec_float → spec_float) (iter : freq_map → freq_map).

Definition renyi_step (numItems : Z) (renyiEntropySummand : spec_float) (key_val : bytes * Z)
    : option spec_float :=
  a ← fallingPower (u64 key_val.2) 2;
  b ← fallingPower (u64 numItems) 2;
  let falling_power := f64_div (f64_of_Z a) (f64_of_Z b) in
  Some (f64_add renyiEntropySummand falling_power).

Fixpoint renyi_sum (numItems : Z) (acc : spec_float) (l : freq_map) : option spec_float :=
  match l with
  | [] => Some acc
  | kv :: l => acc ← renyi_step numItems acc kv; renyi_sum numItems acc l
  end.

Definition evaluateRenyiEntropy (stringComboAndFrequencyMap : freq_map) (numItems : Z)
    : option spec_float :=
  renyiEntropySummand ← renyi_sum numItems (f64_of_Z 0) (iter stringComboAndFrequencyMap);
  Some (f64_mul (f64_of_Z (-1)) (log2 renyiEntropySummand)).

(** [hash_data[k] = chunk], for chunks of the length of [c] *)
Definition overwrite (s : bytes) (off : nat) (c : bytes) : bytes :=
  take off s ++ c ++ drop (off + length c) s.

Section chunks.
(** [sizeof(entropy_chunk_t)] *)
Context (w : nat).

(** [hash_data[k] = x_data[p]] *)
Definition copy_chunk (inputString : bytes) (p k : Z) (hash_string : bytes) : option bytes :=
  c ← slice (inputString ++ [x00]) (Z.of_nat w * p) w;
  Some (overwrite hash_string (Z.to_nat (Z.of_nat w * k)) c).

Definition x_size (inputString : bytes) : Z := u32 (Z.of_nat (length inputString) / Z.of_nat w).

(** The loop of [formPartialStringDefaultToFull] on [(k, hash_string, early return)]. *)
Definition default_full_body (inputString : bytes) (positions : list Z)
    (s : Z * bytes * option bytes) : option (Z * bytes * option bytes) :=
  let '(k, hash_string, _) := s in
  p ← arr_get positions k;
  if p <? to_i32 (x_size inputString) then
    hash_string ← copy_chunk inputString p k hash_string;
    Some (u32 (k + 1), hash_string, None)
  else Some (k, hash_string, Some inputString).

Definition formPartialStringDefaultToFull (inputString : bytes) (positions : list Z) : option bytes :=
  let hash_string := replicate (length positions * w) x00 in
  '(_, hash_string, ret) ← while (length positions)
    (λ s, match s.2 with Some _ => false | None => s.1.1 <? Z.of_nat (length positions) end)
    (default_full_body inputString positions) (0, hash_string, None);
  match ret with
  | Some r => Some r
  | None => Some (hash_string ++ to_string (Z.of_nat (length inputString)))
  end.

Definition partial_body (inputString : bytes) (positions : list Z) (k : Z) (hash_string : bytes)
    : option bytes :=
  p ← arr_get positions k;
  if p <=? to_i32 (x_size inputString) then copy_chunk inputString p k hash_string
  else Some hash_string.

Definition formPartialString (inputString : bytes) (positions : list Z) : option bytes :=
  let hash_string := replicate (length positions * w) x00 in
  hash_string ← for_loop (length positions) 0 (partial_body inputString positions) hash_string;
  Some (hash_string ++ to_string (Z.of_nat (length inputString))).

(** The loop that counts the partial strings of a sample. *)
Fixpoint count_partial (vec : list bytes) (positions : list Z) (m : freq_map) : option freq_map :=
  match vec with
  | [] => Some m
  | x :: vec => s ← formPartialString x positions; m ← freq_incr m s; count_partial vec positions m
  end.

Definition evaluateEntropy (testVec : list bytes) (positions : list Z) : option spec_float :=
  m ← count_partial testVec positions [];
  evaluateRenyiEntropy m (to_i32 (Z.of_nat (length testVec))).

(** One turn of the loop over positions on [(bestEntropy, bestPosition)]. *)
Definition choose_body (inputVec : list bytes) (currentPositions : list Z) (i : Z)
    (s : spec_float * Z) : option (spec_float * Z) :=
  let posUsed := existsb (λ p, p =? to_i32 i) currentPositions in
  if posUsed then Some s
  else
    let testPositions := currentPositions ++ [to_i32 i] in
    positionRenyiEntropy ← evaluateEntropy inputVec testPositions;
    if SFltb s.1 positionRenyiEntropy then Some (positionRenyiEntropy, to_i32 i) else Some s.

Definition chooseBestPositionRenyi (maxLengthString : Z) (inputVec : list bytes)
    (currentPositions : list Z) : option (Z * spec_float) :=
  if Z.of_nat (length currentPositions) =? maxLengthString then None
  else
    '(bestEntropy, bestPosition) ← for_loop (Z.to_nat (maxLengthString / Z.of_nat w)) 0
      (choose_body inputVec currentPositions) (f64_of_Z 0, -1);
    Some (bestPosition, bestEntropy).
End chunks.

Definition evaluateDatasetFixedLength (inputVec : list bytes) : bool :=
  match inputVec with
  | [] => false
  | x0 :: _ => forallb (λ x, Nat.eqb (length x) (length x0)) inputVec
  end.

Definition getQuantileLength (inputVec : list bytes) (quantile : spec_float) : option Z :=
  let lengths := (λ s : bytes, to_i32 (Z.of_nat (length s))) <$> inputVec in
  let lengths := merge_sort Z.le lengths in
  posInVec ← sf_to_unsigned 32 (f64_mul quantile (f64_of_Z (Z.of_nat (length lengths))));
  l ← arr_get lengths posInVec;
  Some (u32 l).

(** The state the selectors return through their reference parameters. *)
Record selection := Selection {
  returnPositions : list Z;
  entropies : list spec_float;
  fixedLength : bool;
  entropy : spec_float
}.

(** One turn on [(selection, left the loop)]. *)
Definition stopK_body (w : nat) (maxLengthString : Z) (inputVec validationVec : list bytes) (_ : Z)
    (s : selection * bool) : option (selection * bool) :=
  let '(sel, stop) := s in
  if stop then Some s
  else if Z.of_nat (length (returnPositions sel)) =? maxLengthString / Z.of_nat w then Some (sel, true)
  else
    next ← chooseBestPositionRenyi w maxLengthString inputVec (returnPositions sel);
    let positions := returnPositions sel ++ [next.1] in
    entropy ← (if bool_decide (validationVec = inputVec) then Some next.2
               else evaluateEntropy w validationVec positions);
    Some (Selection positions (entropies sel ++ [entropy]) (fixedLength sel) entropy, false).

Definition greedyRenyiSelectorStopK (w : nat) (maxLengthString : Z) (inputVec validationVec : list bytes)
    (positions : list Z) (ents : list spec_float) (numPositions : Z) : option selection :=
  _ ← getQuantileLength inputVec (f64_lit 1 1);
  let fixedLength := evaluateDatasetFixedLength inputVec in
  if u64 (u64 numPositions + Z.of_nat (length positions)) <? maxLengthString then
    s ← for_loop (Z.to_nat numPositions) 0 (stopK_body w maxLengthString inputVec validationVec)
          (Selection positions ents fixedLength (f64_of_Z 0), false);
    Some s.1
  else None.

(** The overload without a validation set. *)
Definition greedyRenyiSelectorStopK' (w : nat) (maxLengthString : Z) (inputVec : list bytes)
    (positions : list Z) (ents : list spec_float) (numPositions : Z) : option selection :=
  greedyRenyiSelectorStopK w maxLengthString inputVec inputVec positions ents numPositions.

Definition stopEntropy_body (w : nat) (maxLengthString : Z) (inputVec : list bytes)
    (s : selection * bool) : option (selection * bool) :=
  let '(sel, _) := s in
  if Z.of_nat (length (returnPositions sel)) =? maxLengthString then Some (sel, true)
  else
    next ← chooseBestPositionRenyi w maxLengthString inputVec (returnPositions sel);
    Some (Selection (returnPositions sel ++ [next.1]) (entropies sel) (fixedLength sel) next.2, false).

(** [while (entropy < desiredEntropy)], which [break]s leave, and the state before it. *)
Definition stopEntropy_cond (desiredEntropy : spec_float) (s : selection * bool) : bool :=
  negb s.2 && SFltb (entropy s.1) desiredEntropy.
Definition stopEntropy_start (inputVec : list bytes) (positions : list Z) : selection * bool :=
  (Selection positions [] (evaluateDatasetFixedLength inputVec) (f64_of_Z 0), false).

Definition greedyRenyiSelectorStopEntropy (w : nat) (maxLengthString : Z) (inputVec : list bytes)
    (positions : list Z) (desiredEntropy : spec_float) : option selection :=
  s ← while (Z.to_nat (maxLengthString + 1)) (stopEntropy_cond desiredEntropy)
        (stopEntropy_body w maxLengthString inputVec) (stopEntropy_start inputVec positions);
  Some s.1.
End estimators.

(** ** [to_string] can be read back *)

Definition digits_value (l : bytes) : Z := foldl (λ a b, 10 * a + (byteZ b - 48)) 0 l.

Lemma digit_value d : 0 ≤ d < 10 → byteZ (digit d) - 48 = d.
Proof.
  intros Hd. assert (d = 0 ∨ d = 1 ∨ d = 2 ∨ d = 3 ∨ d = 4 ∨ d = 5 ∨ d = 6 ∨ d = 7 ∨ d = 8 ∨ d = 9)
    as H by lia.
  repeat destruct H as [->|H]; subst; reflexivity.
Qed.

(** Induction on the numeral [to_string] produces. *)
Lemma to_string_ind (P : Z → bytes → Prop) :
  (∀ d, 0 ≤ d < 10 → P d [digit d]) →
  (∀ n l, 10 ≤ n → P (n / 10) l → P n (l ++ [digit (n `mod` 10)])) →
  ∀ n, 0 ≤ n → P n (to_string n).
Proof.
  intros Hdigit Hstep.
  assert (∀ fuel n, 0 ≤ n → Z.log2 n ≤ Z.of_nat fuel → P n (to_string_fuel fuel n)) as H.
  { induction fuel as [|fuel IH]; intros n Hn Hlog; simpl.
    - apply Hdigit. destruct (decide (n = 0)); [lia|].
      assert (n < 2 ^ 1) by (apply Z.log2_lt_pow2; lia). lia.
    - case_bool; [apply Hdigit; lia|]. apply Hstep; [lia|]. apply IH; [div_lia|].
      assert (Z.log2 (n / 10) ≤ Z.log2 (n / 2)) by (apply Z.log2_le_mono; div_lia).
      assert (Z.log2 (n / 2) = Z.log2 n - 1); [|lia].
      change 2 with (2 ^ 1) at 1. rewrite <-Z.shiftr_div_pow2 by lia.
      rewrite Z.log2_shiftr by lia. apply Z.max_r.
      assert (Z.log2 2 ≤ Z.log2 n) by (apply Z.log2_le_mono; lia). change (Z.log2 2) with 1 in *. lia. }
  intros n Hn. apply H; [done|]. pose proof (Z.log2_nonneg n). lia.
Qed.

Lemma to_string_value n : 0 ≤ n → digits_value (to_string n) = n.
Proof.
  apply (to_string_ind (λ n l, digits_value l = n)).
  - intros d Hd. unfold digits_value. cbn [foldl]. rewrite digit_value; lia.
  - clear. intros n l Hn Hl. unfold digits_value in *. rewrite foldl_app, Hl. cbn [foldl].
    rewrite digit_value by (apply Z.mod_pos_bound; lia). div_lia.
Qed.

Lemma to_string_inj n m : 0 ≤ n → 0 ≤ m → to_string n = to_string m → n = m.
Proof. intros Hn Hm Heq. by rewrite <-(to_string_value n Hn), Heq, to_string_value. Qed.

(** ** Falling powers *)

(** [x (x - 1) ... (x - p + 1)] *)
Fixpoint falling (x : Z) (p : nat) : Z :=
  match p with O => 1 | S p => falling x p * (x - Z.of_nat p) end.

Lemma fallingPower_loop x power : ∀ k fuel i acc,
  (k ≤ fuel)%nat → power = Z.of_nat (i + k) → power < 2 ^ 32 → acc = u64 (falling x i) →
  while fuel (λ s, s.1 <? power) (fallingPower_body x) (Z.of_nat i, acc)
    = Some (power, u64 (falling x (i + k))).
Proof.
  induction k as [|k IH]; intros fuel i acc Hfuel Hp H32 ->.
  - replace (i + 0)%nat with i in * by lia. subst power.
    destruct fuel; cbn [while fst]; by rewrite (proj2 (Z.ltb_ge _ _)) by lia.
  - destruct fuel as [|fuel]; [lia|]. cbn [while fst]. rewrite (proj2 (Z.ltb_lt _ _)) by lia.
    cbn [fallingPower_body mbind option_bind]. rewrite (wrap_small 32) by (split; lia).
    replace (Z.of_nat i + 1) with (Z.of_nat (S i)) by lia.
    rewrite (IH fuel (S i)); [by replace (S i + k)%nat with (i + S k)%nat by lia|lia|lia|done|].
    cbn [falling]. by rewrite wrap_mul_l, wrap_mul_r.
Qed.

(** [fallingPower] terminates and is the falling factorial modulo [2^64], for
    every exponent its 32-bit counter can reach. *)
Theorem fallingPower_falling x p :
  fits 64 x → Z.of_nat p < 2 ^ 32 → fallingPower x (Z.of_nat p) = Some (u64 (falling x p)).
Proof.
  intros Hx Hp. unfold fallingPower. destruct p as [|p]; [done|].
  rewrite (proj2 (Z.eqb_neq _ _)) by lia.
  pose proof (fallingPower_loop x (Z.of_nat (S p)) p (Z.to_nat (Z.of_nat (S p))) 1 x) as H.
  change (Z.of_nat 1) with 1 in H. rewrite H; [done|lia..|].
  cbn [falling]. rewrite Z.sub_0_r, Z.mul_1_l. by rewrite wrap_small.
Qed.

Lemma fallingPower_2 x : fits 64 x → fallingPower x 2 = Some (u64 (x * (x - 1))).
Proof.
  intros Hx. unfold fallingPower. cbn [Z.eqb]. change (Z.to_nat 2) with 2%nat.
  pose proof (fallingPower_loop x 2 1 2 1 x) as H. change (Z.of_nat 1) with 1 in H.
  rewrite H; [|lia..|cbn [falling]; rewrite Z.sub_0_r, Z.mul_1_l; by rewrite wrap_small].
  cbn [mbind option_bind snd falling Nat.add]. do 2 f_equal. lia.
Qed.

(** ** Frequencies and collisions *)

Definition freq_of (m : freq_map) (key : bytes) : Z :=
  match list_find (λ kv : bytes * Z, kv.1 = key) m with Some (_, kv) => kv.2 | None => 0 end.

Lemma freq_of_cons k c m key : freq_of ((k, c) :: m) key = if bool_decide (k = key) then c else freq_of m key.
Proof.
  unfold freq_of. cbn [list_find fst]. destruct (decide (k = key)) as [->|Hne].
  - by rewrite bool_decide_eq_true_2.
  - rewrite bool_decide_eq_false_2 by done. by destruct (list_find _ m) as [[? ?]|].
Qed.

(** Ordered pairs of distinct occurrences of equal strings. *)
Fixpoint colliding_pairs (l : list bytes) : Z :=
  match l with
  | [] => 0
  | s :: l => colliding_pairs l + 2 * Z.of_nat (length (filter (λ t, t = s) l))
  end.

Definition sum_pairs (m : freq_map) : Z := foldr (λ kv acc, kv.2 * (kv.2 - 1) + acc) 0 m.

Lemma freq_incr_spec m key m' :
  freq_incr m key = Some m' →
  (∀ k, freq_of m' k = freq_of m k + Z.b2z (bool_decide (k = key))) ∧
  sum_pairs m' = sum_pairs m + 2 * freq_of m key.
Proof.
  revert m'. induction m as [|[k c] m IH]; intros m' Hm; cbn [freq_incr] in Hm.
  - injection Hm as <-. split; [|done]. intros k. rewrite freq_of_cons.
    destruct (bool_decide_reflect (key = k)), (bool_decide_reflect (k = key)); congruence || done.
  - destruct (bool_decide_reflect (k = key)) as [->|Hne].
    + unfold chk_i32 in Hm. case_match; [|done]. injection Hm as <-.
      rewrite (freq_of_cons key c m key), bool_decide_eq_true_2 by done. split; [|simpl; lia].
      intros k. rewrite !freq_of_cons.
      destruct (bool_decide_reflect (key = k)), (bool_decide_reflect (k = key)); simpl; congruence || lia.
    + apply bind_Some in Hm as (m1 & Hm1 & [= <-]). destruct (IH _ Hm1) as [IH1 IH2].
      rewrite (freq_of_cons k c m key), bool_decide_eq_false_2 by done. split; [|simpl; lia].
      intros k'. rewrite !freq_of_cons, IH1.
      destruct (bool_decide_reflect (k = k')) as [->|]; [|done].
      rewrite bool_decide_eq_false_2 by done. simpl. lia.
Qed.

Lemma count_partial_spec w vec positions : ∀ m m' ss,
  mapM (λ x, formPartialString w x positions) vec = Some ss →
  count_partial w vec positions m = Some m' →
  (∀ k, freq_of m' k = freq_of m k + Z.of_nat (length (filter (λ t, t = k) ss))) ∧
  sum_pairs m' = sum_pairs m + colliding_pairs ss + 2 * foldr (λ s acc, freq_of m s + acc) 0 ss.
Proof.
  induction vec as [|x vec IH]; intros m m' ss Hss Hrun; cbn [count_partial] in Hrun.
  - injection Hss as <-. injection Hrun as <-. split; [intros; simpl; lia|simpl; lia].
  - cbn [mapM] in Hss. apply bind_Some in Hss as (s & Hs & Hss).
    apply bind_Some in Hss as (ss' & Hss & [= <-]). rewrite Hs in Hrun. cbn [mbind option_bind] in Hrun.
    apply bind_Some in Hrun as (m1 & Hm1 & Hrun).
    destruct (IH m1 m' ss' Hss Hrun) as [IH1 IH2]. destruct (freq_incr_spec m s m1 Hm1) as [H1 H2].
    split.
    + intros k. rewrite IH1, H1, filter_cons.
      destruct (bool_decide_reflect (k = s)) as [->|]; destruct (decide _); simpl; congruence || lia.
    + rewrite IH2, H2. cbn [colliding_pairs foldr].
      assert (foldr (λ s acc, freq_of m1 s + acc) 0 ss'
        = foldr (λ s acc, freq_of m s + acc) 0 ss' + Z.of_nat (length (filter (λ t, t = s) ss'))) as ->; [|lia].
      clear - H1. induction ss' as [|t ss IH]; [done|]. cbn [foldr]. rewrite IH, H1, filter_cons.
      destruct (bool_decide_reflect (t = s)); destruct (decide _); simpl; congruence || lia.
Qed.

(** Counting cannot overflow on a sample an [int] can measure. *)
Definition freq_le (m : freq_map) (n : Z) : Prop := Forall (λ kv : bytes * Z, 0 ≤ kv.2 ≤ n) m.

Lemma freq_incr_total m key n :
  freq_le m n → 0 ≤ n → n + 1 < 2 ^ 31 → ∃ m', freq_incr m key = Some m' ∧ freq_le m' (n + 1).
Proof.
  unfold freq_le. induction m as [|[k c] m IH]; intros Hm H0 Hn; cbn [freq_incr].
  - eexists. split; [done|]. repeat constructor; cbn; lia.
  - apply Forall_cons in Hm as [Hc Hm]. cbn [snd] in Hc. destruct (bool_decide (k = key)).
    + unfold chk_i32. rewrite (proj2 (Z.leb_le _ _)), (proj2 (Z.ltb_lt _ _)) by lia. cbn.
      eexists. split; [done|]. constructor; [cbn; lia|]. eapply Forall_impl; [done|]. cbn. lia.
    + destruct (IH Hm H0 Hn) as (m' & -> & Hm'). cbn. eexists. split; [done|].
      constructor; [cbn; lia|done].
Qed.

Lemma count_partial_total w vec positions : ∀ m n ss,
  mapM (λ x, formPartialString w x positions) vec = Some ss →
  freq_le m n → 0 ≤ n → n + Z.of_nat (length vec) < 2 ^ 31 →
  is_Some (count_partial w vec positions m).
Proof.
  induction vec as [|x vec IH]; intros m n ss Hss Hm H0 Hn; [by eexists|]. cbn [length] in Hn.
  cbn [mapM] in Hss. apply bind_Some in Hss as (s & Hs & Hss). apply bind_Some in Hss as (ss' & Hss & _).
  cbn [count_partial]. rewrite Hs. cbn [mbind option_bind].
  destruct (freq_incr_total m s n Hm H0) as (m1 & -> & Hm1); [lia|]. cbn [mbind option_bind].
  eapply (IH m1 (n + 1)); [done|done|lia|lia].
Qed.

(** C22: What the estimator sums: on a sample whose partial strings are defined the
    counting completes, and over its frequency map the falling squares of the
    frequencies add up to the number of ordered pairs of sample strings whose
    partial strings are equal. *)
Theorem freq_map_counts_pairs w vec positions ss :
  mapM (λ x, formPartialString w x positions) vec = Some ss → Z.of_nat (length vec) < 2 ^ 31 →
  ∃ m, count_partial w vec positions [] = Some m ∧
    sum_pairs m = colliding_pairs ss ∧
    ∀ k, freq_of m k = Z.of_nat (length (filter (λ t, t = k) ss)).
Proof.
  intros Hss Hlen. destruct (count_partial_total w vec positions [] 0 ss Hss) as [m Hrun];
    [constructor|done|lia|].
  exists m. split; [done|]. destruct (count_partial_spec w vec positions [] m ss Hss Hrun) as [H1 H2].
  split; [|intros k; by rewrite H1]. rewrite H2. cbn [sum_pairs foldr].
  assert (foldr (λ s acc, freq_of [] s + acc) 0 ss = 0) as ->; [|lia].
  clear. induction ss as [|s ss IH]; [done|]. cbn [foldr]. by rewrite IH.
Qed.

(** ** Partial strings as concatenations of chunks *)

Lemma overwrite_app pre z c rest :
  length z = length c → overwrite (pre ++ z ++ rest) (length pre) c = pre ++ c ++ rest.
Proof.
  intros Hz. unfold overwrite. rewrite take_app_length. f_equal. f_equal.
  rewrite <-Hz, app_assoc, <-length_app. apply drop_app_length.
Qed.

Section partial.
Context (w : nat) (Hw : (0 < w)%nat).

(** The chunk the loop leaves at a position: the zeros when it is past the end. *)
Definition chunk_at (x : bytes) (p : Z) : option bytes :=
  if p <=? to_i32 (x_size w x) then slice (x ++ [x00]) (Z.of_nat w * p) w
  else Some (replicate w x00).

Lemma chunk_at_length x p c : chunk_at x p = Some c → length c = w.
Proof using.
  unfold chunk_at. case_match; intros H1.
  - by apply slice_Some in H1 as (_ & _ & ?).
  - injection H1 as <-. apply length_replicate.
Qed.

Lemma partial_loop x : ∀ rest pre hs,
  length hs = (length pre * w)%nat →
  for_loop (length rest) (Z.of_nat (length pre)) (partial_body w x (pre ++ rest))
    (hs ++ replicate (length rest * w) x00)
  = cs ← mapM (chunk_at x) rest; Some (hs ++ concat cs).
Proof using.
  clear Hw. induction rest as [|p rest IH]; intros pre hs Hhs; [done|].
  cbn [length for_loop mapM]. unfold partial_body at 2.
  rewrite (arr_get_lookup _ _ p) by (lia || (rewrite Nat2Z.id; rewrite lookup_app_r by done; by rewrite Nat.sub_diag)).
  cbn [mbind option_bind Nat.mul]. rewrite replicate_add.
  assert (∀ c, length c = w →
    for_loop (length rest) (Z.of_nat (length pre) + 1) (partial_body w x (pre ++ p :: rest))
      (hs ++ c ++ replicate (length rest * w) x00)
    = cs ← mapM (chunk_at x) rest; Some (hs ++ c ++ concat cs)) as Hstep.
  { intros c Hc. specialize (IH (pre ++ [p]) (hs ++ c)).
    rewrite <-!app_assoc, !length_app in IH. cbn [length app] in IH.
    replace (Z.of_nat (length pre + 1)) with (Z.of_nat (length pre) + 1) in IH by lia.
    rewrite IH by (rewrite Hhs, Hc; lia).
    destruct (mapM _ _); cbn [mbind option_bind]; [by rewrite <-app_assoc|done]. }
  unfold chunk_at at 2. destruct (p <=? to_i32 (x_size w x)).
  - unfold copy_chunk. destruct (slice _ _ _) as [c|] eqn:Hc; cbn [mbind option_bind]; [|done].
    apply slice_Some in Hc as (_ & _ & Hc).
    replace (Z.to_nat (Z.of_nat w * Z.of_nat (length pre))) with (length hs) by (rewrite Hhs; lia).
    rewrite overwrite_app by (by rewrite length_replicate). rewrite Hstep by done.
    destruct (mapM _ _); done.
  - cbn [mbind option_bind]. rewrite Hstep by apply length_replicate. destruct (mapM _ _); done.
Qed.

Lemma formPartialString_eq x positions :
  formPartialString w x positions
  = cs ← mapM (chunk_at x) positions; Some (concat cs ++ to_string (Z.of_nat (length x))).
Proof using.
  unfold formPartialString. pose proof (partial_loop x positions [] [] eq_refl) as H.
  cbn [app length] in H. change (Z.of_nat 0) with 0 in H. rewrite H.
  by destruct (mapM _ _).
Qed.

Lemma x_size_eq x : Z.of_nat (length x) < 2 ^ 31 →
  to_i32 (x_size w x) = Z.of_nat (length x) / Z.of_nat w.
Proof using Hw.
  intros Hx. assert (0 ≤ Z.of_nat (length x) / Z.of_nat w ≤ Z.of_nat (length x)) as [H0 H1].
  { split; [apply Z.div_pos; lia|]. apply Z.div_le_upper_bound; nia. }
  unfold x_size, to_i32. rewrite (wrap_small 32 (_ / _)), wrap_small by (split; lia). lia.
Qed.

Lemma formPartialString_is_Some x positions :
  Z.of_nat (length x) < 2 ^ 31 →
  is_Some (formPartialString w x positions) ↔
  Forall (λ p, Z.of_nat (length x) / Z.of_nat w < p ∨
               0 ≤ p ∧ Z.of_nat w * (p + 1) ≤ Z.of_nat (length x) + 1) positions.
Proof using Hw.
  intros Hx. rewrite formPartialString_eq.
  assert (is_Some (cs ← mapM (chunk_at x) positions; Some (concat cs ++ to_string (Z.of_nat (length x))))
    ↔ is_Some (mapM (chunk_at x) positions)) as ->.
  { destruct (mapM _ _) as [cs|]; cbn [mbind option_bind];
      [split; intros _; eexists; reflexivity|split; intros [? [=]]]. }
  rewrite mapM_is_Some. apply Forall_iff. intros p.
  unfold compose, chunk_at. rewrite (x_size_eq x Hx).
  destruct (Z.leb_spec p (Z.of_nat (length x) / Z.of_nat w)) as [Hle|Hgt]; cbv match.
  - assert (is_Some (slice (x ++ [x00]) (Z.of_nat w * p) w)
      ↔ 0 ≤ Z.of_nat w * p ∧ Z.of_nat w * p + Z.of_nat w ≤ Z.of_nat (length x) + 1) as ->.
    { split.
      - intros [c Hc]. apply slice_Some in Hc as (? & Hc & _). rewrite length_app in Hc. simpl in Hc. lia.
      - intros [H1 H2]. rewrite slice_in_bounds; [by eexists|done|]. rewrite length_app. simpl. lia. }
    split.
    + intros [H1 H2]. right. split; nia.
    + intros [?|[H1 H2]]; [lia|nia].
  - split; [by left|eexists; reflexivity].
Qed.

(** [formPartialString] has a defined result exactly when each position is past
    the whole chunks of the string by more than one, or names a chunk inside the
    string and its terminator: the test [<=] lets it read the chunk that starts
    after the last whole one, and any negative position. *)
Theorem formPartialString_defined x positions :
  Z.of_nat (length x) < 2 ^ 31 →
  is_Some (formPartialString w x positions) ↔
  Forall (λ p, Z.of_nat (length x) / Z.of_nat w < p ∨
               0 ≤ p ∧ Z.of_nat w * (p + 1) ≤ Z.of_nat (length x) + 1) positions.
Proof using Hw. apply formPartialString_is_Some. Qed.

(** Reading a chunk that lies inside the string. *)
Lemma chunk_at_inside x p :
  0 ≤ p → Z.of_nat w * (p + 1) ≤ Z.of_nat (length x) → Z.of_nat (length x) < 2 ^ 31 →
  chunk_at x p = slice x (Z.of_nat w * p) w.
Proof using Hw.
  intros Hp Hin Hx. unfold chunk_at. rewrite x_size_eq by done.
  rewrite (proj2 (Z.leb_le _ _)) by (apply Z.div_le_lower_bound; lia).
  rewrite !slice_in_bounds by (rewrite ?length_app; simpl; lia). f_equal.
  rewrite drop_app_le by lia. rewrite take_app_le; [done|]. rewrite length_drop. lia.
Qed.

Lemma concat_inj (cs cs' : list bytes) :
  Forall (λ c, length c = w) cs → Forall (λ c, length c = w) cs' → length cs = length cs' →
  ∀ t t', concat cs ++ t = concat cs' ++ t' → cs = cs' ∧ t = t'.
Proof using.
  clear Hw. revert cs'. induction cs as [|c cs IH]; intros [|c' cs'] Hcs Hcs' Hlen t t' Heq; try done.
  apply Forall_cons in Hcs as [Hc Hcs], Hcs' as [Hc' Hcs']. simpl in Heq.
  rewrite <-!app_assoc in Heq. apply app_inj_1 in Heq as [-> Heq]; [|congruence].
  destruct (IH cs' Hcs Hcs' ltac:(simpl in Hlen; lia) t t' Heq) as [-> ->]. done.
Qed.

Lemma mapM_chunks x positions cs :
  mapM (chunk_at x) positions = Some cs →
  length cs = length positions ∧ Forall (λ c, length c = w) cs.
Proof using.
  intros Hcs. split; [symmetry; eapply length_mapM; exact Hcs|].
  apply mapM_Some in Hcs. induction Hcs; constructor; eauto using chunk_at_length.
Qed.

(** Equal partial strings: equal lengths, equal chunks at every position. *)
Lemma formPartialString_inj x y positions s :
  formPartialString w x positions = Some s → formPartialString w y positions = Some s →
  length x = length y ∧ Forall (λ p, chunk_at x p = chunk_at y p) positions.
Proof using.
  clear Hw. rewrite !formPartialString_eq. intros (cs & Hcs & [= <-])%bind_Some (cs' & Hcs' & [= Heq])%bind_Some.
  destruct (mapM_chunks _ _ _ Hcs) as [Hl Hf], (mapM_chunks _ _ _ Hcs') as [Hl' Hf'].
  destruct (concat_inj cs' cs Hf' Hf ltac:(lia) _ _ Heq) as [-> Ht].
  apply to_string_inj in Ht; [|lia..]. split; [lia|].
  apply mapM_Some in Hcs, Hcs'. clear - Hcs Hcs'. revert Hcs'.
  induction Hcs; intros Hcs'; inversion Hcs'; subst; constructor; [congruence|auto].
Qed.
End partial.

(** C3: The reason the estimate bounds the collisions of the hash: two keys that
    contain the chosen 8-byte words and that the estimator does not tell apart have
    the same hash under every functor that only reads those words. *)
Theorem partial_collision_is_hash_collision f slack `{!SubKeyLocal f slack} locs x y s :
  0 ≤ slack → locs_wf (f_words f) locs →
  locs_fit slack (f_words f) locs x → Z.of_nat (length x) < 2 ^ 31 →
  formPartialString 8 x (take (f_words f) locs) = Some s →
  formPartialString 8 y (take (f_words f) locs) = Some s →
  functor_run f locs x = functor_run f locs y.
Proof.
  intros Hslack Hwf Hfit Hx Hsx Hsy.
  destruct (formPartialString_inj 8 x y _ s Hsx Hsy) as [Hlen Hchunks].
  apply (sub_key_local (f := f) (slack := slack)); [done|done|]. split; [done|].
  destruct Hwf as (_ & _ & Hlocs). unfold locs_fit in Hfit.
  rewrite !Forall_forall in *. intros l Hl.
  destruct (Hlocs l Hl) as [H0 H1]. specialize (Hfit l Hl). specialize (Hchunks l Hl).
  rewrite !(chunk_at_inside 8) in Hchunks by (lia || rewrite <-?Hlen; lia). done.
Qed.

(** ** The greedy choice *)

Section greedy.
Context (log2 : spec_float → spec_float) (iter : freq_map → freq_map).
Context (w : nat).

(** The positions the loop may still choose. *)
Definition unused (maxLengthString : Z) (current : list Z) (i : Z) : Prop :=
  0 ≤ i < maxLengthString / Z.of_nat w ∧ i ∉ current.

Definition best_choice (vec : list bytes) (n : Z) (current : list Z) (s : spec_float * Z) : Prop :=
  let entropy_at i := evaluateEntropy log2 iter w vec (current ++ [i]) in
  (∀ i, 0 ≤ i < n → i ∉ current → ∃ e, entropy_at i = Some e ∧ SFltb s.1 e = false) ∧
  (s = (f64_of_Z 0, (-1)%Z) ∨
   (0 ≤ s.2 < n ∧ (s.2 ∉ current) ∧ entropy_at s.2 = Some s.1 ∧ SFltb (f64_of_Z 0) s.1 = true)).

Lemma existsb_position current i :
  existsb (λ p, p =? i) current = true ↔ i ∈ current.
Proof using.
  rewrite existsb_exists. split.
  - intros (p & Hp & ->%Z.eqb_eq). by apply list_elem_of_In.
  - intros Hi. exists i. split; [by apply list_elem_of_In|]. apply Z.eqb_refl.
Qed.

Lemma choose_loop vec current n s :
  Z.of_nat n ≤ 2 ^ 31 →
  for_loop n 0 (choose_body log2 iter w vec current) (f64_of_Z 0, -1) = Some s →
  best_choice vec (Z.of_nat n) current s.
Proof using.
  intros Hn Hrun. change (Z.of_nat n) with (0 + Z.of_nat n).
  revert Hrun. apply (for_loop_ind (λ i s, best_choice vec i current s)).
  { split; [intros; lia|by left]. }
  intros i [be bp] s' Hi [Hall Hbest]. unfold choose_body. rewrite to_i32_small by lia. cbn [fst snd].
  destruct (existsb _ _) eqn:Hused.
  { apply existsb_position in Hused. intros [= <-]. split.
    - intros j Hj Hnj. apply Hall; [|done]. destruct (decide (j = i)) as [->|]; [done|lia].
    - destruct Hbest as [?|(? & ?)]; [by left|right; cbn [fst snd] in *; split; [lia|done]]. }
  assert (i ∉ current) as Hni.
  { intros Hin%existsb_position. congruence. }
  intros (e & He & Hs)%bind_Some. cbn [fst snd] in *. destruct (SFltb be e) eqn:Hlt; injection Hs as <-.
  - split; cbn [fst snd].
    + intros j Hj Hnj. destruct (decide (j = i)) as [->|]; [exists e; by rewrite SFltb_irrefl|].
      destruct (Hall j ltac:(lia) Hnj) as (e' & He' & Hlt'). exists e'. split; [done|].
      cbn [fst] in Hlt'. destruct (SFltb e e') eqn:Hee; [|done].
      by rewrite (SFltb_trans _ _ _ Hlt Hee) in Hlt'.
    + right. split; [lia|]. split; [done|]. split; [done|].
      destruct Hbest as [[= -> ->]|(_ & _ & _ & Hb)]; [done|]. by apply (SFltb_trans _ be).
  - split; cbn [fst snd].
    + intros j Hj Hnj. destruct (decide (j = i)) as [->|]; [by exists e|]. apply Hall; [lia|done].
    + destruct Hbest as [?|(? & ?)]; [by left|right; cbn [fst snd] in *; split; [lia|done]].
Qed.

Lemma chooseBestPositionRenyi_ok maxLengthString vec current p e :
  0 ≤ maxLengthString < 2 ^ 31 →
  chooseBestPositionRenyi log2 iter w maxLengthString vec current = Some (p, e) →
  (p = -1 ∧ e = f64_of_Z 0 ∨
   unused maxLengthString current p ∧
   evaluateEntropy log2 iter w vec (current ++ [p]) = Some e ∧ SFltb (f64_of_Z 0) e = true) ∧
  ∀ i, unused maxLengthString current i →
    ∃ e', evaluateEntropy log2 iter w vec (current ++ [i]) = Some e' ∧ SFltb e e' = false.
Proof using.
  intros Hm. unfold chooseBestPositionRenyi. case_match; [done|].
  intros ([be bp] & Hloop & [= <- <-])%bind_Some.
  assert (0 ≤ maxLengthString / Z.of_nat w ≤ maxLengthString) as [H0 H1].
  { destruct w as [|w']; [rewrite Z.div_0_r; lia|].
    split; [apply Z.div_pos; lia|apply Z.div_le_upper_bound; nia]. }
  apply choose_loop in Hloop as [Hall Hbest]; [|lia]. rewrite Z2Nat.id in * by lia.
  cbn [fst snd] in *. split.
  - destruct Hbest as [[= -> ->]|(? & ? & ? & ?)]; [by left|right]. by split.
  - intros i [Hi Hni]. destruct (Hall i Hi Hni) as (e' & ? & ?). eauto.
Qed.

(** ** Where the choice is defined *)

(** A sample whose strings all have the words of the first [maxLengthString] bytes. *)
Definition sample_ok (maxLengthString : Z) (vec : list bytes) : Prop :=
  Z.of_nat (length vec) < 2 ^ 31 ∧
  Forall (λ x : bytes, maxLengthString ≤ Z.of_nat (length x) < 2 ^ 31) vec.

Lemma renyi_sum_total numItems l : ∀ acc, is_Some (renyi_sum numItems acc l).
Proof using.
  induction l as [|kv l IH]; intros acc; [by eexists|]. cbn [renyi_sum]. unfold renyi_step.
  rewrite !fallingPower_2 by (apply fits_wrap; lia). cbn [mbind option_bind]. apply IH.
Qed.

Lemma evaluateEntropy_total maxLengthString vec positions :
  (0 < w)%nat → sample_ok maxLengthString vec →
  Forall (λ p, 0 ≤ p < maxLengthString / Z.of_nat w) positions →
  is_Some (evaluateEntropy log2 iter w vec positions).
Proof using.
  intros Hw [Hlen Hvec] Hpos. unfold evaluateEntropy.
  assert (is_Some (mapM (λ x, formPartialString w x positions) vec)) as [ss Hss].
  { apply mapM_is_Some. eapply Forall_impl; [exact Hvec|]. intros x [Hx1 Hx2].
    apply formPartialString_is_Some; [done|done|]. eapply Forall_impl; [exact Hpos|].
    intros p [Hp1 Hp2]. right. split; [lia|].
    pose proof (Z.mul_div_le maxLengthString (Z.of_nat w) ltac:(lia)). nia. }
  destruct (count_partial_total w vec positions [] 0 ss Hss) as [m ->]; [constructor|done|lia|].
  cbn [mbind option_bind]. unfold evaluateRenyiEntropy.
  destruct (renyi_sum_total (to_i32 (Z.of_nat (length vec))) (iter m) (f64_of_Z 0)) as [e ->].
  by eexists.
Qed.

Lemma chooseBestPositionRenyi_total maxLengthString vec current :
  (0 < w)%nat → 0 ≤ maxLengthString < 2 ^ 31 → Z.of_nat (length current) ≠ maxLengthString →
  sample_ok maxLengthString vec → Forall (λ p, 0 ≤ p < maxLengthString / Z.of_nat w) current →
  ∃ p e, chooseBestPositionRenyi log2 iter w maxLengthString vec current = Some (p, e).
Proof using.
  intros Hw Hm Hne Hvec Hcur. unfold chooseBestPositionRenyi. rewrite (proj2 (Z.eqb_neq _ _)) by done.
  assert (0 ≤ maxLengthString / Z.of_nat w ≤ maxLengthString) as Hd.
  { split; [apply Z.div_pos; lia|apply Z.div_le_upper_bound; nia]. }
  destruct (for_loop_total (λ _ _, True) (choose_body log2 iter w vec current)
    (Z.to_nat (maxLengthString / Z.of_nat w)) 0 (f64_of_Z 0, -1) I) as ([e p] & -> & _); [|by eauto].
  intros i s Hi _. unfold choose_body. rewrite to_i32_small by lia. destruct (existsb _ _); [by eauto|].
  destruct (evaluateEntropy_total maxLengthString vec (current ++ [i])) as [e ->]; [done..| |].
  - apply Forall_app. split; [done|]. repeat constructor; lia.
  - cbn [mbind option_bind]. destruct (SFltb s.1 e); eauto.
Qed.

(** C21: On a sample whose strings are long enough, [chooseBestPositionRenyi] completes.
    It returns the unused position whose addition gives the largest entropy on the
    sample, no other unused position giving a larger one; and it returns -1 with
    entropy 0 only when none gives a positive one. *)
Theorem chooseBestPositionRenyi_best maxLengthString vec current :
  (0 < w)%nat → 0 ≤ maxLengthString < 2 ^ 31 → Z.of_nat (length current) ≠ maxLengthString →
  sample_ok maxLengthString vec → Forall (λ p, 0 ≤ p < maxLengthString / Z.of_nat w) current →
  ∃ p e, chooseBestPositionRenyi log2 iter w maxLengthString vec current = Some (p, e) ∧
    (p = -1 ∧ e = f64_of_Z 0 ∨
     unused maxLengthString current p ∧
     evaluateEntropy log2 iter w vec (current ++ [p]) = Some e ∧ SFltb (f64_of_Z 0) e = true) ∧
    ∀ i, unused maxLengthString current i →
      ∃ e', evaluateEntropy log2 iter w vec (current ++ [i]) = Some e' ∧ SFltb e e' = false.
Proof using.
  intros Hw Hm Hne Hvec Hcur.
  destruct (chooseBestPositionRenyi_total maxLengthString vec current Hw Hm Hne Hvec Hcur) as (p & e & Hrun).
  exists p, e. split; [done|]. by apply chooseBestPositionRenyi_ok.
Qed.

(** Once -1 is among the positions, as it is after a call that found no
    position of positive entropy, the next call that has a position to try has no
    defined result: [formPartialString] reads the chunk before the string. *)
Theorem chooseBestPositionRenyi_after_minus_one maxLengthString x vec current i :
  (0 < w)%nat → 0 ≤ maxLengthString < 2 ^ 31 → Z.of_nat (length x) < 2 ^ 31 →
  -1 ∈ current → unused maxLengthString current i →
  chooseBestPositionRenyi log2 iter w maxLengthString (x :: vec) current = None.
Proof using.
  intros Hw Hm Hx Hin [Hi Hni]. unfold chooseBestPositionRenyi. case_match; [done|].
  assert (maxLengthString / Z.of_nat w ≤ maxLengthString) by (apply Z.div_le_upper_bound; nia).
  rewrite (for_loop_None _ _ 0 _ i); [done|lia|]. intros s. unfold choose_body.
  rewrite to_i32_small by lia.
  destruct (existsb _ _) eqn:Hused; [by apply existsb_position in Hused|].
  unfold evaluateEntropy. cbn [count_partial].
  assert (formPartialString w x (current ++ [i]) = None) as ->; [|done].
  apply eq_None_not_Some. rewrite formPartialString_is_Some by done. intros Hall.
  apply Forall_app in Hall as [Hall _]. rewrite Forall_forall in Hall.
  specialize (Hall _ Hin). assert (0 ≤ Z.of_nat (length x) / Z.of_nat w) by (apply Z.div_pos; lia). lia.
Qed.

(** What a selector has appended to the positions it was given. *)
Definition extends (maxLengthString : Z) (positions new : list Z) : Prop :=
  ∀ k p, new !! k = Some p →
    p = -1 ∨ (0 ≤ p < maxLengthString / Z.of_nat w ∧ p ∉ positions ++ take k new).

Lemma extends_snoc maxLengthString positions new p :
  extends maxLengthString positions new →
  p = -1 ∨ unused maxLengthString (positions ++ new) p →
  extends maxLengthString positions (new ++ [p]).
Proof using.
  intros Hext Hp k q Hk. apply lookup_app_Some in Hk as [Hk|[Hlen Hk]].
  - pose proof (lookup_lt_Some _ _ _ Hk). rewrite take_app_le by lia. by apply Hext.
  - apply list_lookup_singleton_Some in Hk as [Hk <-].
    rewrite take_app_ge by lia. replace (k - length new)%nat with 0%nat by lia.
    rewrite take_0, app_nil_r. done.
Qed.

(** As many distinct words as there are. *)
Lemma extends_all maxLengthString positions new :
  extends maxLengthString positions new → NoDup positions →
  Forall (λ p, 0 ≤ p < maxLengthString / Z.of_nat w) positions → -1 ∉ new →
  Z.of_nat (length positions + length new) = maxLengthString / Z.of_nat w →
  ∀ p, 0 ≤ p < maxLengthString / Z.of_nat w → p ∈ positions ++ new.
Proof using.
  intros Hext Hnd Hall Hno Hlen.
  assert (∀ k p, new !! k = Some p → 0 ≤ p < maxLengthString / Z.of_nat w ∧ p ∉ positions ++ take k new) as Hnew.
  { intros k p Hk. destruct (Hext k p Hk) as [->|]; [|done]. by apply list_elem_of_lookup_2 in Hk. }
  assert (NoDup (positions ++ new)) as Hndn.
  { apply NoDup_app. split; [done|]. split.
    - intros p Hp [k Hk]%list_elem_of_lookup_1. destruct (Hnew k p Hk) as [_ Hn]. apply Hn, elem_of_app. by left.
    - apply NoDup_alt. intros i j p Hi Hj. destruct (lt_eq_lt_dec i j) as [[Hlt|]|Hlt]; [|done|]; exfalso.
      + destruct (Hnew j p Hj) as [_ Hn]. apply Hn, elem_of_app. right.
        apply (list_elem_of_lookup_2 _ i). by rewrite lookup_take_lt.
      + destruct (Hnew i p Hi) as [_ Hn]. apply Hn, elem_of_app. right.
        apply (list_elem_of_lookup_2 _ j). by rewrite lookup_take_lt. }
  intros p Hp. set (all := seqZ 0 (maxLengthString / Z.of_nat w)).
  assert (positions ++ new ⊆+ all) as Hsub.
  { apply NoDup_submseteq; [done|]. intros q Hq. apply elem_of_seqZ. rewrite Z.add_0_l. apply elem_of_app in Hq as [Hq|Hq].
    - by apply (proj1 (Forall_forall _ _) Hall).
    - apply list_elem_of_lookup_1 in Hq as [k Hk]. by apply (Hnew k q). }
  apply submseteq_length_Permutation in Hsub as ->; [|unfold all; rewrite length_seqZ, length_app; lia].
  apply elem_of_seqZ. lia.
Qed.

Lemma stopK_shape maxLengthString vec validation positions ents numPositions sel :
  0 ≤ maxLengthString < 2 ^ 31 →
  greedyRenyiSelectorStopK log2 iter w maxLengthString vec validation positions ents numPositions = Some sel →
  ∃ new newEnts,
    returnPositions sel = positions ++ new ∧ entropies sel = ents ++ newEnts ∧
    length new = length newEnts ∧ Z.of_nat (length new) ≤ Z.max 0 numPositions ∧
    extends maxLengthString positions new ∧
    (Z.of_nat (length new) < numPositions →
      Z.of_nat (length positions + length new) = maxLengthString / Z.of_nat w) ∧
    fixedLength sel = evaluateDatasetFixedLength vec.
Proof using.
  intros Hm. unfold greedyRenyiSelectorStopK. intros (q & _ & H)%bind_Some.
  case_match; [|done]. apply bind_Some in H as ([sel' stop] & Hloop & [= <-]).
  set (inv := λ (i : Z) (s : selection * bool), ∃ new newEnts,
    returnPositions s.1 = positions ++ new ∧ entropies s.1 = ents ++ newEnts ∧
    length new = length newEnts ∧ extends maxLengthString positions new ∧
    fixedLength s.1 = evaluateDatasetFixedLength vec ∧ Z.of_nat (length new) ≤ i ∧
    if s.2 then Z.of_nat (length positions + length new) = maxLengthString / Z.of_nat w
    else Z.of_nat (length new) = i).
  assert (inv (0 + Z.of_nat (Z.to_nat numPositions)) (sel', stop))
    as (new & newEnts & Hp & He & Hl & Hext & Hfix & Hle & Hstop).
  { revert Hloop. apply (for_loop_ind inv).
    - exists [], []. rewrite !app_nil_r. split_and!; done.
    - intros i [s st] s' Hi (new & newEnts & Hp & He & Hl & Hext & Hfix & Hle & Hst).
      unfold stopK_body. cbn [fst snd] in *. destruct st.
      { intros [= <-]. exists new, newEnts. cbn [fst snd]. split_and!; try done. lia. }
      destruct (_ =? _) eqn:Hfull.
      { intros [= <-]. apply Z.eqb_eq in Hfull. exists new, newEnts. cbn [fst snd].
        rewrite Hp, length_app in Hfull. split_and!; try done; lia. }
      intros ([p e] & Hnext & Hs)%bind_Some. apply bind_Some in Hs as (en & _ & [= <-]).
      exists (new ++ [p]), (newEnts ++ [en]). cbn [fst snd returnPositions entropies fixedLength].
      rewrite Hp, He, !app_assoc, !length_app. cbn [length].
      split_and!; try done; try lia. apply extends_snoc; [done|].
      rewrite Hp in Hnext. apply chooseBestPositionRenyi_ok in Hnext as [[[-> _]|[? _]] _]; auto. }
  exists new, newEnts. cbn [fst snd] in *. split_and!; try done; [lia|].
  intros Hlt. destruct stop; [done|lia].
Qed.

(** C23: [greedyRenyiSelectorStopK] appends at most [numPositions] positions, each -1
    or a word index below [maxLengthString / sizeof(T)] that was not chosen
    before, and records one entropy for each. It stops early only when there are as many
    positions, the entries of -1 included, as words; when none is -1, every word has then been
    chosen. *)
Theorem greedyRenyiSelectorStopK_shape maxLengthString vec validation positions ents numPositions sel :
  0 ≤ maxLengthString < 2 ^ 31 →
  greedyRenyiSelectorStopK log2 iter w maxLengthString vec validation positions ents numPositions = Some sel →
  ∃ new newEnts,
    returnPositions sel = positions ++ new ∧ entropies sel = ents ++ newEnts ∧
    length new = length newEnts ∧ Z.of_nat (length new) ≤ Z.max 0 numPositions ∧
    extends maxLengthString positions new ∧
    (Z.of_nat (length new) < numPositions →
      Z.of_nat (length positions + length new) = maxLengthString / Z.of_nat w ∧
      (NoDup positions → Forall (λ p, 0 ≤ p < maxLengthString / Z.of_nat w) positions → -1 ∉ new →
       ∀ p, 0 ≤ p < maxLengthString / Z.of_nat w → p ∈ positions ++ new)) ∧
    fixedLength sel = evaluateDatasetFixedLength vec.
Proof using.
  intros Hm Hsel.
  destruct (stopK_shape _ _ _ _ _ _ _ Hm Hsel) as (new & newEnts & Hp & He & Hl & Hle & Hext & Hend & Hfix).
  exists new, newEnts. do 5 (split; [done|]). split; [|done]. intros Hlt. specialize (Hend Hlt). split; [done|].
  intros Hnd Hall Hno. by apply extends_all.
Qed.

(** The loop of [greedyRenyiSelectorStopEntropy]. *)
Section stopEntropy.
Context (maxLengthString : Z) (vec : list bytes) (positions : list Z) (desired : spec_float).

Abbreviation stopEntropy_turn := (stopEntropy_body log2 iter w maxLengthString vec).
Abbreviation goes_on := (stopEntropy_cond desired).
Abbreviation start := (stopEntropy_start vec positions).
Abbreviation stopEntropy_turns n := (turns n goes_on stopEntropy_turn start).

(** The positions are at most [maxLengthString], and those that were added are words or -1. *)
Definition stopEntropy_inv (s : selection * bool) : Prop :=
  Z.of_nat (length (returnPositions s.1)) ≤ maxLengthString ∧
  (s.2 = true → Z.of_nat (length (returnPositions s.1)) = maxLengthString) ∧
  (Forall (λ p, 0 ≤ p < maxLengthString / Z.of_nat w) positions →
   Forall (λ p, p = -1 ∨ 0 ≤ p < maxLengthString / Z.of_nat w) (returnPositions s.1)).

Definition stopEntropy_measure (s : selection * bool) : nat :=
  if s.2 then 0%nat else S (Z.to_nat (maxLengthString - Z.of_nat (length (returnPositions s.1)))).

Lemma stopEntropy_step s s' :
  0 ≤ maxLengthString < 2 ^ 31 → stopEntropy_inv s → goes_on s = true → stopEntropy_turn s = Some s' →
  stopEntropy_inv s' ∧ (stopEntropy_measure s' < stopEntropy_measure s)%nat.
Proof using.
  destruct s as [s st]. intros Hmax (Hle & Hst & Hpos) [Hc%negb_true_iff _]%andb_true_iff.
  unfold stopEntropy_body, stopEntropy_measure, stopEntropy_inv. cbn [fst snd] in *. subst st.
  destruct (Z.eqb_spec (Z.of_nat (length (returnPositions s))) maxLengthString).
  - intros [= <-]. cbn [fst snd]. split; [by split|lia].
  - intros ([p e] & Hnext & [= <-])%bind_Some. cbn [fst snd returnPositions]. rewrite length_app. cbn [length].
    split; [split; [lia|split; [done|]]|lia]. intros Hall. apply Forall_app. split; [by apply Hpos|].
    apply Forall_singleton. apply chooseBestPositionRenyi_ok in Hnext as [[[-> _]|[[? _] _]] _]; auto.
Qed.

Lemma stopEntropy_start_inv : Z.of_nat (length positions) ≤ maxLengthString → stopEntropy_inv start.
Proof using.
  intros Hpos. split; [done|split; [done|]]. cbn [stopEntropy_start fst returnPositions].
  intros Hall. eapply Forall_impl; [exact Hall|]. auto.
Qed.

(** C26: The loop of [greedyRenyiSelectorStopEntropy] terminates. From at most [maxLengthString]
    positions it makes no more turns than there is room for positions, and one. So it either
    returns, with the entropy it was asked for or [maxLengthString] positions, or comes to a turn
    that has no defined result; on a sample that the estimator can read, that only happens
    once -1, the sign that no word was left with a positive entropy, is among the positions. *)
Theorem greedyRenyiSelectorStopEntropy_terminates :
  Z.of_nat (length positions) ≤ maxLengthString < 2 ^ 31 →
  (∀ n s, stopEntropy_turns n = Some s → Z.of_nat n ≤ maxLengthString - Z.of_nat (length positions) + 1) ∧
  ((∃ sel, greedyRenyiSelectorStopEntropy log2 iter w maxLengthString vec positions desired = Some sel ∧
      (SFltb (entropy sel) desired = false ∨ Z.of_nat (length (returnPositions sel)) = maxLengthString)) ∨
   (∃ n s, stopEntropy_turns n = Some s ∧ goes_on s = true ∧ stopEntropy_turn s = None ∧
      greedyRenyiSelectorStopEntropy log2 iter w maxLengthString vec positions desired = None)) ∧
  ((0 < w)%nat → sample_ok maxLengthString vec → Forall (λ p, 0 ≤ p < maxLengthString / Z.of_nat w) positions →
   ∀ n s, stopEntropy_turns n = Some s → goes_on s = true → stopEntropy_turn s = None →
     -1 ∈ returnPositions s.1).
Proof using.
  intros Hpos. pose proof (stopEntropy_start_inv ltac:(lia)) as Hinv.
  pose proof (λ s s' Hi, stopEntropy_step s s' ltac:(lia) Hi) as Hstep.
  pose proof (λ n s, turns_bound stopEntropy_inv stopEntropy_measure _ _ Hstep n start s Hinv) as Hturns.
  assert (stopEntropy_measure start = S (Z.to_nat (maxLengthString - Z.of_nat (length positions)))) as Hm0 by done.
  split; [|split].
  - intros n s Hs. destruct (Hturns n s Hs). lia.
  - unfold greedyRenyiSelectorStopEntropy.
    destruct (while_ends_or_fails stopEntropy_inv stopEntropy_measure goes_on stopEntropy_turn Hstep)
      with (fuel := Z.to_nat (maxLengthString + 1)) (s := start)
      as [([s b] & -> & (_ & Hfull & _) & Hend)|(n & s & Hn & Hc & Hb & ->)]; [|done|lia|left|right; by exists n, s].
    + intros [s []] _; [done|]. unfold stopEntropy_measure. cbn [snd]. lia.
    + exists s. split; [done|]. apply andb_false_iff in Hend as [Hb%negb_false_iff|Hc]; [right; auto|by left].
  - intros Hw Hvec Hall n s Hs Hc Hb. destruct (Hturns n s Hs) as [(Hle & _ & Hp) _]. specialize (Hp Hall).
    apply dec_stable. intros Hno. destruct s as [s b]. unfold stopEntropy_body in Hb. cbn [fst] in *.
    destruct (Z.eqb_spec (Z.of_nat (length (returnPositions s))) maxLengthString); [done|].
    destruct (chooseBestPositionRenyi_total maxLengthString vec (returnPositions s)) as (p & e & Hrun); try done; [lia| |].
    + apply Forall_forall. intros p Hin. destruct (proj1 (Forall_forall _ _) Hp p Hin) as [->|]; done.
    + by rewrite Hrun in Hb.
Qed.
End stopEntropy.
End greedy.

(** The loop from position [k]: the chunks copied so far, then zeros. *)
Lemma default_loop w x all : (0 < w)%nat → Z.of_nat (length x) < 2 ^ 31 → Z.of_nat (length all) < 2 ^ 32 →
  ∀ rest pre hs fuel, all = pre ++ rest →
  (length rest ≤ fuel)%nat → length hs = (length pre * w)%nat → Forall (λ p, 0 ≤ p) rest →
  let run := while fuel
    (λ s, match s.2 with Some _ => false | None => s.1.1 <? Z.of_nat (length all) end)
    (default_full_body w x all)
    (Z.of_nat (length pre), hs ++ replicate (length rest * w) x00, None) in
  if forallb (λ p, p <? Z.of_nat (length x) / Z.of_nat w) rest
  then ∃ k cs, mapM (λ p, slice x (Z.of_nat w * p) w) rest = Some cs ∧ run = Some (k, hs ++ concat cs, None)
  else ∃ k h, run = Some (k, h, Some x).
Proof.
  intros Hw Hx Hall. induction rest as [|p rest IH]; intros pre hs fuel Heq Hfuel Hhs Hpos run.
  - exists (Z.of_nat (length pre)), []. split; [done|]. subst run. cbn [length Nat.mul replicate concat].
    rewrite Heq, app_nil_r. destruct fuel; cbn [while fst snd]; by rewrite Z.ltb_irrefl.
  - apply Forall_cons in Hpos as [Hp Hpos]. destruct fuel as [|fuel]; [simpl in Hfuel; lia|].
    assert (Z.of_nat (length pre) < Z.of_nat (length all)) as Hlt
      by (subst all; rewrite length_app; simpl; lia).
    subst run. cbn [while fst snd]. rewrite (proj2 (Z.ltb_lt _ _) Hlt).
    unfold default_full_body at 2 4. rewrite (arr_get_lookup _ _ p) by
      (lia || (rewrite Nat2Z.id, Heq; rewrite lookup_app_r by done; by rewrite Nat.sub_diag)).
    cbn [mbind option_bind]. rewrite (x_size_eq w Hw x Hx). cbn [forallb].
    destruct (Z.ltb_spec p (Z.of_nat (length x) / Z.of_nat w)) as [Hin|Hout]; cbn [andb].
    2: { exists (Z.of_nat (length pre)), (hs ++ replicate (length (p :: rest) * w) x00).
         cbn [mbind option_bind]. by destruct fuel. }
    assert (Z.of_nat w * (p + 1) ≤ Z.of_nat (length x)) as Hread.
    { pose proof (Z.mul_div_le (Z.of_nat (length x)) (Z.of_nat w) ltac:(lia)). nia. }
    unfold copy_chunk. destruct (slice x (Z.of_nat w * p) w) as [c|] eqn:Hc.
    2: { rewrite slice_in_bounds in Hc by nia. done. }
    assert (slice (x ++ [x00]) (Z.of_nat w * p) w = Some c) as ->.
    { rewrite <-Hc, !slice_in_bounds by (rewrite ?length_app; simpl; nia). f_equal.
      rewrite drop_app_le by nia. rewrite take_app_le; [done|]. rewrite length_drop. nia. }
    apply slice_Some in Hc as Hcl. destruct Hcl as (_ & _ & Hcl).
    cbn [mbind option_bind length Nat.mul]. rewrite replicate_add.
    replace (Z.to_nat (Z.of_nat w * Z.of_nat (length pre))) with (length hs) by (rewrite Hhs; lia).
    rewrite overwrite_app by (by rewrite length_replicate).
    rewrite (wrap_small 32) by (split; lia).
    specialize (IH (pre ++ [p]) (hs ++ c) fuel). rewrite <-!app_assoc, !length_app in IH.
    cbn [length app] in IH.
    replace (Z.of_nat (length pre + 1)) with (Z.of_nat (length pre) + 1) in IH by lia.
    specialize (IH Heq ltac:(simpl in Hfuel; lia) ltac:(rewrite Hhs, Hcl; lia) Hpos). cbv zeta in IH.
    destruct (forallb _ rest); [|done]. destruct IH as (k & cs & Hcs & Hrun).
    exists k, (c :: cs). cbn [mapM]. rewrite Hc. cbn [mbind option_bind]. rewrite Hcs.
    split; [done|]. rewrite Hrun. cbn [concat]. by rewrite <-app_assoc.
Qed.

(** [formPartialStringDefaultToFull], on positions that are not negative, returns
    the whole string as soon as one position is past its whole chunks, and otherwise
    the chosen chunks and the length; it never reads outside the string. *)
Theorem formPartialStringDefaultToFull_spec w x positions :
  (0 < w)%nat → Z.of_nat (length x) < 2 ^ 31 → Z.of_nat (length positions) < 2 ^ 32 →
  Forall (λ p, 0 ≤ p) positions →
  if forallb (λ p, p <? Z.of_nat (length x) / Z.of_nat w) positions
  then ∃ cs, mapM (λ p, slice x (Z.of_nat w * p) w) positions = Some cs ∧
       formPartialStringDefaultToFull w x positions
         = Some (concat cs ++ to_string (Z.of_nat (length x)))
  else formPartialStringDefaultToFull w x positions = Some x.
Proof.
  intros Hw Hx Hp Hpos.
  pose proof (default_loop w x positions Hw Hx Hp positions [] [] (length positions) eq_refl
    (Nat.le_refl _) eq_refl Hpos) as Hloop. cbv zeta in Hloop. cbn [length app] in Hloop.
  change (Z.of_nat 0) with 0 in Hloop. unfold formPartialStringDefaultToFull.
  destruct (forallb _ _).
  - destruct Hloop as (k & cs & Hcs & ->). exists cs. split; [done|]. done.
  - by destruct Hloop as (k & h & ->).
Qed.

(** [evaluateDatasetFixedLength] is true exactly on the non-empty samples whose
    strings all have one length. *)
Theorem evaluateDatasetFixedLength_spec vec :
  evaluateDatasetFixedLength vec = true ↔
  vec ≠ [] ∧ ∃ n, Forall (λ x : bytes, length x = n) vec.
Proof.
  destruct vec as [|x vec]; [split; [done|tauto]|]. unfold evaluateDatasetFixedLength.
  rewrite forallb_forall. setoid_rewrite <-list_elem_of_In. split.
  - intros Hall. split; [done|]. exists (length x). apply Forall_forall. intros y Hy.
    by apply Nat.eqb_eq, Hall.
  - intros [_ [n Hall]] y Hy. rewrite Forall_forall in Hall.
    apply Nat.eqb_eq. rewrite (Hall y Hy), (Hall x); [done|apply list_elem_of_here].
Qed.

(** ** Instances: a sample of three strings of four bytes, single-byte chunks. *)

Definition demo_sample : list bytes := [[x61; x62; x63; x64]; [x61; x65; x63; x64]; [x61; x62; x66; x64]].

Lemma demo_sample_ok : sample_ok 4 demo_sample.
Proof. split; [cbn; lia|]. repeat constructor; cbn; lia. Qed.

Lemma fallingPower_falling_witness : fallingPower 10 3 = Some 720.
Proof. apply (fallingPower_falling 10 3); [split; lia|lia]. Defined.

Lemma freq_map_counts_pairs_witness :
  ∃ m, count_partial 1 demo_sample [1] [] = Some m ∧ sum_pairs m = 2.
Proof.
  destruct (freq_map_counts_pairs 1 demo_sample [1]
    (default [] (mapM (λ x, formPartialString 1 x [1]) demo_sample))) as (m & Hm & Hsum & _).
  - vm_compute. reflexivity.
  - cbn. lia.
  - exists m. split; [exact Hm|]. rewrite Hsum. vm_compute. reflexivity.
Defined.

(** A position that reads past the terminator. *)
Lemma formPartialString_defined_witness : formPartialString 8 [x61; x62; x63] [0] = None.
Proof.
  apply eq_None_not_Some. intros Hs.
  pose proof (proj1 (formPartialString_defined 8 ltac:(lia) [x61; x62; x63] [0] ltac:(cbn; lia)) Hs) as Hall.
  apply Forall_cons in Hall as [[H1|[_ H2]] _]; [vm_compute in H1; discriminate|vm_compute in H2; by apply H2].
Defined.

Lemma partial_collision_is_hash_collision_witness :
  functor_run WyhashCustoms.wyhash_2loc_f [0; 2] (replicate 24 x61)
  = functor_run WyhashCustoms.wyhash_2loc_f [0; 2] (replicate 10 x61 ++ [x62] ++ replicate 13 x61).
Proof.
  eapply (partial_collision_is_hash_collision WyhashCustoms.wyhash_2loc_f 0 [0; 2]
    (replicate 24 x61) (replicate 10 x61 ++ [x62] ++ replicate 13 x61)).
  - lia.
  - vm_decide.
  - vm_decide.
  - cbn. lia.
  - vm_compute. reflexivity.
  - vm_compute. reflexivity.
Defined.

Lemma chooseBestPositionRenyi_best_witness :
  ∃ p e, chooseBestPositionRenyi libm_minus_two id 1 4 demo_sample [0] = Some (p, e) ∧
    (p = -1 ∨ 0 ≤ p < 4).
Proof.
  destruct (chooseBestPositionRenyi_best libm_minus_two id 1 4 demo_sample [0]) as (p & e & Hrun & Hbest & _).
  - lia.
  - lia.
  - cbn. lia.
  - apply demo_sample_ok.
  - repeat constructor; cbn; lia.
  - exists p, e. split; [exact Hrun|].
    destruct Hbest as [[-> _]|[[Hp _] _]]; [by left|]. right. exact Hp.
Defined.

Lemma chooseBestPositionRenyi_after_minus_one_witness :
  chooseBestPositionRenyi libm_minus_two id 1 4 demo_sample [-1] = None.
Proof.
  apply (chooseBestPositionRenyi_after_minus_one libm_minus_two id 1 4 [x61; x62; x63; x64] _ [-1] 2).
  - lia.
  - lia.
  - cbn. lia.
  - apply list_elem_of_here.
  - split; [vm_compute; split; [congruence|reflexivity]|vm_decide].
Defined.

Lemma greedyRenyiSelectorStopK_shape_witness :
  ∃ sel new, greedyRenyiSelectorStopK libm_minus_two id 1 4 demo_sample demo_sample [] [] 2 = Some sel ∧
    returnPositions sel = new ∧ Z.of_nat (length new) ≤ 2 ∧ extends 1 4 [] new.
Proof.
  eexists.
  match goal with |- ∃ new, _ = Some ?sel ∧ _ =>
    destruct (greedyRenyiSelectorStopK_shape libm_minus_two id 1 4 demo_sample demo_sample [] [] 2 sel)
      as (new & ents & Hp & _ & _ & Hl & Hext & _)
  end.
  - lia.
  - vm_compute. reflexivity.
  - exists new. split; [vm_compute; reflexivity|]. split; [exact Hp|]. split; [exact Hl|exact Hext].
Defined.

Lemma greedyRenyiSelectorStopEntropy_terminates_witness :
  ∃ sel, greedyRenyiSelectorStopEntropy libm_minus_two id 1 4 demo_sample [] (f64_of_Z 1) = Some sel ∧
    (SFltb (entropy sel) (f64_of_Z 1) = false ∨ Z.of_nat (length (returnPositions sel)) = 4).
Proof.
  destruct (greedyRenyiSelectorStopEntropy_terminates libm_minus_two id 1 4 demo_sample [] (f64_of_Z 1))
    as (_ & [Hend|(n & s & _ & _ & _ & Hnone)] & _).
  - cbn. lia.
  - exact Hend.
  - exfalso. vm_compute in Hnone. discriminate.
Defined.

Lemma formPartialStringDefaultToFull_spec_witness :
  formPartialStringDefaultToFull 2 [x61; x62; x63] [1] = Some [x61; x62; x63].
Proof.
  pose proof (formPartialStringDefaultToFull_spec 2 [x61; x62; x63] [1]) as H. cbn [forallb] in H.
  apply H; [lia|cbn; lia|cbn; lia|by repeat constructor].
Defined.
