(* ===== verification/EntropyOld.v ===== *)
(** * The older entropy estimator (src/include/entropyEstimation/entropy_estimators_old.hh)

    A copy of the estimator that nothing includes. It differs from the one of EntropyEstimators
    in one function: the selector of [k] positions does not read the quantile of the lengths, and stops
    at [maxLengthString] positions instead of when every chunk is chosen. *)
From S2P Require Import Prelude Words Floats EntropyEstimators.

Section old.
(** libm, and the order in which the map is walked *)
Context (log2 : spec_float → spec_float) (iter : freq_map → freq_map).

(** One turn on [(selection, left the loop)]. *)
Definition old_stopK_body (w : nat) (maxLengthString : Z) (inputVec validationVec : list bytes) (_ : Z)
    (s : selection * bool) : option (selection * bool) :=
  let '(sel, stop) := s in
  if stop then Some s
  else if Z.of_nat (length (returnPositions sel)) =? maxLengthString then Some (sel, true)
  else
    next ← chooseBestPositionRenyi log2 iter w maxLengthString inputVec (returnPositions sel);
    let positions := returnPositions sel ++ [next.1] in
    entropy ← (if bool_decide (validationVec = inputVec) then Some next.2
               else evaluateEntropy log2 iter w validationVec positions);
    Some (Selection positions (entropies sel ++ [entropy]) (fixedLength sel) entropy, false).

Definition old_greedyRenyiSelectorStopK (w : nat) (maxLengthString : Z) (inputVec validationVec : list bytes)
    (positions : list Z) (ents : list spec_float) (numPositions : Z) : option selection :=
  let fixedLength := evaluateDatasetFixedLength inputVec in
  if u64 (u64 numPositions + Z.of_nat (length positions)) <? maxLengthString then
    s ← for_loop (Z.to_nat numPositions) 0 (old_stopK_body w maxLengthString inputVec validationVec)
          (Selection positions ents fixedLength (f64_of_Z 0), false);
    Some s.1
  else None.

(** ** Agreement *)

(** While fewer positions than chunks are chosen the two loops take the same turns. *)
Lemma stopK_loops_agree w maxLengthString vec validation n : ∀ i sel,
  (0 < w)%nat → 0 ≤ maxLengthString →
  Z.of_nat (length (returnPositions sel) + n) ≤ maxLengthString / Z.of_nat w →
  for_loop n i (old_stopK_body w maxLengthString vec validation) (sel, false)
  = for_loop n i (stopK_body log2 iter w maxLengthString vec validation) (sel, false).
Proof using.
  intros i sel Hw Hm. revert i sel. induction n as [|n IH]; intros i sel Hn; [done|]. cbn [for_loop].
  assert (maxLengthString / Z.of_nat w ≤ maxLengthString) by (apply Z.div_le_upper_bound; nia).
  unfold old_stopK_body at 2, stopK_body at 2. rewrite !(proj2 (Z.eqb_neq _ _)) by lia.
  destruct (chooseBestPositionRenyi _ _ _ _ _ _) as [[p e]|]; [|done]. cbn [mbind option_bind fst snd].
  destruct (if bool_decide _ then _ else _) as [en|]; [|done]. cbn [mbind option_bind].
  apply IH. cbn [returnPositions]. rewrite length_app. cbn [length]. lia.
Qed.

(** The older selector and the current one return the same selection, or are both undefined,
    as long as no more positions are asked for than there are chunks in the longest key and the
    sample has a quantile of its lengths. *)
Theorem old_selector_agrees w maxLengthString vec validation positions ents numPositions :
  (0 < w)%nat → 0 ≤ maxLengthString → 0 ≤ numPositions →
  numPositions + Z.of_nat (length positions) ≤ maxLengthString / Z.of_nat w →
  is_Some (getQuantileLength vec (f64_lit 1 1)) →
  old_greedyRenyiSelectorStopK w maxLengthString vec validation positions ents numPositions
  = greedyRenyiSelectorStopK log2 iter w maxLengthString vec validation positions ents numPositions.
Proof using.
  intros Hw Hm H0 Hn [q Hq]. unfold old_greedyRenyiSelectorStopK, greedyRenyiSelectorStopK. rewrite Hq.
  cbn [mbind option_bind]. destruct (_ <? _); [|done].
  by rewrite stopK_loops_agree by (done || (cbn [returnPositions]; lia)).
Qed.
End old.

(** With every chunk chosen the older one goes on: it appends -1, where the current one stops. *)
Example old_selector_overruns :
  returnPositions <$> greedyRenyiSelectorStopK libm_minus_two id 8 9 [replicate 8 x61; replicate 8 x62]
      [replicate 8 x61; replicate 8 x62] [] [] 2 = Some [0] ∧
  returnPositions <$> old_greedyRenyiSelectorStopK libm_minus_two id 8 9 [replicate 8 x61; replicate 8 x62]
      [replicate 8 x61; replicate 8 x62] [] [] 2 = Some [0; -1].
Proof. split; vm_compute; reflexivity. Qed.

Lemma old_selector_agrees_witness :
  old_greedyRenyiSelectorStopK libm_minus_two id 1 4 demo_sample demo_sample [] [] 2
  = greedyRenyiSelectorStopK libm_minus_two id 1 4 demo_sample demo_sample [] [] 2.
Proof.
  apply (old_selector_agrees libm_minus_two id 1 4 demo_sample demo_sample [] [] 2); try lia.
  - vm_compute. discriminate.
  - eexists. vm_compute. reflexivity.
Defined.
