(* ===== verification/Storage.v ===== *)
(** * Reading, splitting and writing data sets (src/storage.cpp, the list functions of
      src/entropyEstimatorMain.cpp)

    A file is the bytes it contains. *)
From stdpp Require Import sorting.
From S2P Require Import Prelude Words Floats EntropyEstimators.

(** ** Splitting a data set *)

(** [static_cast<unsigned>(fraction * (float) n)] *)
Definition fraction_of (fraction : spec_float) (n : Z) : option Z :=
  sf_to_unsigned 32 (f32_mul fraction (f32_of_Z n)).

(** The loop that deals the elements out to [(subset, remaining)]. *)
Definition deal_body {A} (data : list A) (nitems : Z) (i : Z) (s : list A * list A)
    : option (list A * list A) :=
  x ← data !! Z.to_nat i;
  if i <? nitems then Some (s.1 ++ [x], s.2) else Some (s.1, s.2 ++ [x]).

(** [remaining.reserve(data.size() - nitems)] throws when the difference wraps. *)
Definition get_subset_static {A} (data : list A) (fraction : spec_float) : option (list A * list A) :=
  if SFleb fraction (f32_of_Z 1) && SFleb (f32_of_Z 0) fraction then
    nitems ← fraction_of fraction (Z.of_nat (length data));
    if Z.of_nat (length data) <? nitems then None
    else for_loop (length data) 0 (deal_body data nitems) ([], [])
  else None.

Section random.
(** the Mersenne twister, [uniform_int_distribution<T>(lo, hi)] and [std::shuffle] *)
Context {R : Type} (draw : R → Z → Z → Z * R) (shuffle : ∀ A : Type, R → list A → list A * R).

(** Also returns the shuffled data, which the caller sees. *)
Definition get_subset {A} (rng : R) (data : list A) (fraction : spec_float)
    : option ((list A * list A) * (list A * R)) :=
  if SFleb fraction (f32_of_Z 1) && SFleb (f32_of_Z 0) fraction then
    nitems ← fraction_of fraction (Z.of_nat (length data));
    let '(data, rng) := shuffle A rng data in
    if Z.of_nat (length data) <? nitems then None
    else r ← for_loop (length data) 0 (deal_body data nitems) ([], []); Some (r, (data, rng))
  else None.

Definition random_locations_body (max : Z) (i : Z) (s : list Z * R) : option (list Z * R) :=
  let '(l, rng) := draw s.2 0 (max - 1) in Some (s.1 ++ [l], rng).

Definition random_locations (nlocs max : Z) (rng : R) : option (list Z * R) :=
  '(locations, rng) ← for_loop (Z.to_nat nlocs) 0 (random_locations_body max) ([], rng);
  Some (merge_sort Z.le locations, rng).
End random.

(** ** Text files *)

(** [getline] until the end of the file; a last line without newline counts when it
    is not empty. *)
Fixpoint split_lines (cur : bytes) (file : bytes) : list bytes :=
  match file with
  | [] => match cur with [] => [] | _ => [rev cur] end
  | b :: file => if bool_decide (b = x0a) then rev cur :: split_lines [] file else split_lines (b :: cur) file
  end.

(** [lines.push_back(line); i++; if (i >= 210000000) break;] *)
Fixpoint read_loop (i : Z) (lines : list bytes) : list bytes :=
  match lines with
  | [] => []
  | line :: lines => line :: (if 210000000 <=? i + 1 then [] else read_loop (i + 1) lines)
  end.

Definition read_lines (file : bytes) : list bytes := read_loop 0 (split_lines [] file).

(** [std::stoi]: blanks, a sign, digits; no digits, or a value outside [int], throws. *)
Definition is_space (b : byte) : bool :=
  let z := byteZ b in (z =? 32) || ((9 <=? z) && (z <=? 13)).
Definition is_digit (b : byte) : bool :=
  let z := byteZ b in (48 <=? z) && (z <=? 57).

Fixpoint skip_spaces (l : bytes) : bytes :=
  match l with [] => [] | b :: l' => if is_space b then skip_spaces l' else l end.

Fixpoint take_digits (l : bytes) : bytes :=
  match l with [] => [] | b :: l' => if is_digit b then b :: take_digits l' else [] end.

Definition stoi_digits (neg : bool) (l : bytes) : option Z :=
  match take_digits l with
  | [] => None
  | ds => chk_i32 (if neg then - digits_value ds else digits_value ds)
  end.

Definition stoi (l : bytes) : option Z :=
  match skip_spaces l with
  | [] => None
  | b :: l' =>
      if byteZ b =? 45 then stoi_digits true l'
      else if byteZ b =? 43 then stoi_digits false l' else stoi_digits false (b :: l')
  end.

Definition read_locations (file : bytes) : option (list Z) := mapM stoi (read_lines file).

(** [outfile << l] on an [int] *)
Definition show_int (z : Z) : bytes := if z <? 0 then x2d :: to_string (- z) else to_string z.

Definition write_locations (locs : list Z) : bytes :=
  concat ((λ l, show_int l ++ [x0a]) <$> locs).

(** ** Lists of strings *)

(** The loop of [makeUniqueSet] on [(outputVec, setOfElements)]. *)
Fixpoint makeUniqueSet_loop (inputVec outputVec setOfElements : list bytes) : list bytes :=
  match inputVec with
  | [] => outputVec
  | x :: inputVec =>
      if bool_decide (x ∈ setOfElements) then makeUniqueSet_loop inputVec outputVec setOfElements
      else makeUniqueSet_loop inputVec (outputVec ++ [x]) (x :: setOfElements)
  end.

Definition makeUniqueSet (inputVec outputVec : list bytes) : list bytes :=
  makeUniqueSet_loop inputVec outputVec [].

Definition maxStringLength (inputVec : list bytes) : Z :=
  foldl (λ m x, Z.max m (to_i32 (Z.of_nat (length x)))) 0 inputVec.

(** ** Splitting: properties *)

Lemma deal_loop {A} (data : list A) nitems : 0 ≤ nitems →
  for_loop (length data) 0 (deal_body data nitems) ([], [])
    = Some (take (Z.to_nat nitems) data, drop (Z.to_nat nitems) data).
Proof.
  intros Hn.
  assert (∀ rest pre, data = pre ++ rest →
    for_loop (length rest) (Z.of_nat (length pre)) (deal_body data nitems)
      (take (Z.to_nat nitems) pre, drop (Z.to_nat nitems) pre)
    = Some (take (Z.to_nat nitems) data, drop (Z.to_nat nitems) data)) as H.
  { induction rest as [|x rest IH]; intros pre Heq.
    - rewrite app_nil_r in Heq. by subst.
    - cbn [length for_loop]. unfold deal_body at 2.
      rewrite Nat2Z.id. rewrite Heq at 1. rewrite lookup_app_r, Nat.sub_diag by done.
      cbn [lookup list_lookup mbind option_bind fst snd].
      specialize (IH (pre ++ [x])). rewrite <-app_assoc, length_app in IH. specialize (IH Heq).
      replace (Z.of_nat (length pre + length [x])) with (Z.of_nat (length pre) + 1) in IH by (simpl; lia).
      destruct (Z.ltb_spec (Z.of_nat (length pre)) nitems); cbn [mbind option_bind]; rewrite <-IH; f_equal.
      + rewrite !take_ge, !drop_ge by (rewrite ?length_app; simpl; lia). done.
      + rewrite take_app_le, drop_app_le by lia. done. }
  specialize (H data [] eq_refl). by rewrite take_nil, drop_nil in H.
Qed.

(** [get_subset_static] splits the data in place: the two parts are the first
    [nitems] elements and the others; it throws when rounding makes [nitems] exceed
    the size. *)
Theorem get_subset_static_split {A} (data : list A) fraction n :
  SFleb fraction (f32_of_Z 1) = true → SFleb (f32_of_Z 0) fraction = true →
  fraction_of fraction (Z.of_nat (length data)) = Some n →
  if Z.of_nat (length data) <? n then get_subset_static data fraction = None
  else ∃ subset remaining, get_subset_static data fraction = Some (subset, remaining) ∧
    subset ++ remaining = data ∧ Z.of_nat (length subset) = n.
Proof.
  intros H1 H2 Hn. unfold get_subset_static. rewrite H1, H2, Hn. cbn [andb mbind option_bind].
  apply sf_to_unsigned_fits in Hn as [Hn0 _].
  destruct (Z.ltb_spec (Z.of_nat (length data)) n); [done|].
  rewrite deal_loop by done. eexists _, _. split; [done|].
  split; [apply take_drop|]. rewrite length_take. lia.
Qed.

(** On 2^24 + 3 strings the fraction 1.0 rounds up: [nitems] is one more than the
    number of strings. *)
Theorem fraction_rounds_up :
  fraction_of (f32_of_Z 1) (2 ^ 24 + 3) = Some (2 ^ 24 + 4).
Proof. vm_compute. reflexivity. Qed.

Section random_spec.
Context {R : Type} (draw : R → Z → Z → Z * R) (shuffle : ∀ A : Type, R → list A → list A * R).
Context (shuffle_perm : ∀ A rng (l : list A), (shuffle A rng l).1 ≡ₚ l).
Context (draw_range : ∀ rng lo hi, lo ≤ hi → lo ≤ (draw rng lo hi).1 ≤ hi).

(** [get_subset] partitions the data: together the two parts are a permutation of
    the input. *)
Theorem get_subset_partition {A} rng (data : list A) fraction subset remaining st :
  get_subset shuffle rng data fraction = Some ((subset, remaining), st) →
  subset ++ remaining ≡ₚ data ∧ subset ++ remaining = st.1 ∧
  fraction_of fraction (Z.of_nat (length data)) = Some (Z.of_nat (length subset)).
Proof using shuffle_perm.
  unfold get_subset. case_match; [|done]. intros (n & Hn & Hrun)%bind_Some.
  pose proof (shuffle_perm A rng data) as Hperm. destruct (shuffle A rng data) as [data' rng'].
  cbn [fst] in Hperm. destruct (Z.ltb_spec (Z.of_nat (length data')) n); [done|].
  pose proof (sf_to_unsigned_fits _ _ _ Hn) as [Hn0 _].
  rewrite deal_loop in Hrun by done. cbn [mbind option_bind] in Hrun. injection Hrun as <- <- <-.
  rewrite take_drop. split; [done|]. split; [done|]. rewrite Hn, length_take. f_equal. lia.
Qed.

(** [random_locations] returns [nlocs] increasing offsets below [max]. *)
Theorem random_locations_sorted nlocs max rng :
  0 ≤ nlocs → 0 < max →
  ∃ locs rng', random_locations draw nlocs max rng = Some (locs, rng') ∧
    Z.of_nat (length locs) = nlocs ∧ Sorted Z.le locs ∧ Forall (λ l, 0 ≤ l < max) locs.
Proof using draw_range.
  intros Hn Hm. unfold random_locations.
  destruct (for_loop_total (λ i (s : list Z * R), Z.of_nat (length s.1) = i ∧ Forall (λ l, 0 ≤ l < max) s.1)
    (random_locations_body draw max) (Z.to_nat nlocs) 0 ([], rng)) as ([l r] & -> & Hlen & Hall).
  - by split.
  - intros j s Hj [Hlen Hall]. unfold random_locations_body.
    pose proof (draw_range s.2 0 (max - 1) ltac:(lia)) as Hd. destruct (draw s.2 0 (max - 1)) as [d r].
    eexists. split; [done|]. cbn [fst snd] in *. rewrite length_app. simpl. split; [lia|].
    apply Forall_app. split; [done|]. repeat constructor; lia.
  - cbn [mbind option_bind fst snd] in *. eexists _, _. split; [done|].
    pose proof (merge_sort_Permutation Z.le l) as Hp. split; [rewrite (Permutation_length Hp); lia|].
    split; [apply Sorted_merge_sort; intros ??; lia|]. by rewrite Hp.
Qed.
End random_spec.

(** ** Text files: writing and reading back *)

Lemma byteZ_digit d : 0 ≤ d < 10 → byteZ (digit d) = 48 + d.
Proof. intros Hd. pose proof (digit_value d Hd). lia. Qed.

Lemma is_digit_digit d : 0 ≤ d < 10 → is_digit (digit d) = true.
Proof.
  intros Hd. unfold is_digit. rewrite byteZ_digit by done.
  rewrite (proj2 (Z.leb_le _ _)), (proj2 (Z.leb_le _ _)) by lia. done.
Qed.

Lemma to_string_digits n :
  0 ≤ n → Forall (λ b, is_digit b = true) (to_string n) ∧ to_string n ≠ [].
Proof.
  apply (to_string_ind (λ _ l, Forall (λ b, is_digit b = true) l ∧ l ≠ [])).
  - intros d Hd. split; [|done]. repeat constructor. by apply is_digit_digit.
  - clear. intros n l _ [Hl _]. split; [|by destruct l]. apply Forall_app. split; [done|].
    repeat constructor. apply is_digit_digit, Z.mod_pos_bound. lia.
Qed.

Lemma take_digits_all l : Forall (λ b, is_digit b = true) l → take_digits l = l.
Proof. induction 1 as [|b l Hb _ IH]; simpl; [done|]. by rewrite Hb, IH. Qed.

Lemma stoi_digits_to_string (neg : bool) n z :
  0 ≤ n → z = (if neg then - n else n) → - 2 ^ 31 ≤ z < 2 ^ 31 →
  stoi_digits neg (to_string n) = Some z.
Proof.
  intros Hn Hz Hr. unfold stoi_digits. destruct (to_string_digits n Hn) as [Hd Hne].
  rewrite take_digits_all by done. pose proof (to_string_value n Hn) as Hv.
  destruct (to_string n) as [|b l]; [done|]. rewrite Hv, <-Hz. unfold chk_i32.
  rewrite (proj2 (Z.leb_le _ _)), (proj2 (Z.ltb_lt _ _)) by lia. done.
Qed.

Lemma stoi_show_int z : - 2 ^ 31 ≤ z < 2 ^ 31 → stoi (show_int z) = Some z.
Proof.
  intros Hz. unfold show_int, stoi. destruct (Z.ltb_spec z 0).
  - cbn. apply stoi_digits_to_string; lia.
  - destruct (to_string_digits z) as [Hd Hne]; [done|].
    pose proof (stoi_digits_to_string false z z ltac:(lia) eq_refl Hz) as Hst.
    destruct (to_string z) as [|b l] eqn:Hs; [done|].
    apply Forall_cons in Hd as [Hb _]. unfold is_digit in Hb.
    apply andb_true_iff in Hb as [Hb1%Z.leb_le Hb2%Z.leb_le].
    cbn [skip_spaces]. unfold is_space.
    rewrite (proj2 (Z.eqb_neq (byteZ b) 32)), (proj2 (Z.leb_gt (byteZ b) 13)), andb_false_r by lia.
    cbn [orb]. rewrite (proj2 (Z.eqb_neq (byteZ b) 45)), (proj2 (Z.eqb_neq (byteZ b) 43)) by lia.
    done.
Qed.

(** No line contains the newline that ends it. *)
Lemma show_int_no_newline z : Forall (λ b, b ≠ x0a) (show_int z).
Proof.
  assert (∀ n, 0 ≤ n → Forall (λ b, b ≠ x0a) (to_string n)) as H.
  { intros n Hn. destruct (to_string_digits n Hn) as [Hd _].
    eapply Forall_impl; [exact Hd|]. by intros b Hb ->. }
  unfold show_int. case_bool; [constructor; [done|]|]; apply H; lia.
Qed.

Lemma split_lines_line line rest cur :
  Forall (λ b, b ≠ x0a) line →
  split_lines cur (line ++ x0a :: rest) = (rev cur ++ line) :: split_lines [] rest.
Proof.
  intros Hl. revert cur. induction Hl as [|b line Hb _ IH]; intros cur; cbn [app split_lines].
  - rewrite bool_decide_eq_true_2 by done. by rewrite app_nil_r.
  - rewrite bool_decide_eq_false_2 by done. rewrite IH. simpl. by rewrite <-app_assoc.
Qed.

(** Up to the limit every line is read. *)
Lemma read_loop_all lines : ∀ i, i + Z.of_nat (length lines) ≤ 210000000 → read_loop i lines = lines.
Proof.
  induction lines as [|l lines IH]; intros i Hi; cbn [read_loop]; [done|]. cbn [length] in Hi.
  destruct (Z.leb_spec 210000000 (i + 1)) as [Hle|_]; [|by rewrite IH by lia].
  by destruct lines; [|cbn [length] in Hi; lia].
Qed.

(** Reading back a file of locations: [read_locations] returns exactly the vector
    [write_locations] wrote, negative locations included, up to the limit on the
    number of lines. *)
Theorem locations_roundtrip locs :
  Forall (λ l, - 2 ^ 31 ≤ l < 2 ^ 31) locs → Z.of_nat (length locs) ≤ 210000000 →
  read_locations (write_locations locs) = Some locs.
Proof.
  intros Hr Hlen. unfold read_locations, read_lines.
  assert (split_lines [] (write_locations locs) = show_int <$> locs) as ->.
  { clear. unfold write_locations. induction locs as [|l locs IH]; [done|].
    rewrite !fmap_cons. cbn [concat]. rewrite <-app_assoc. cbn [app].
    rewrite split_lines_line by apply show_int_no_newline. by rewrite IH. }
  rewrite read_loop_all by (rewrite length_fmap; lia). clear Hlen.
  induction Hr as [|l locs Hl _ IH]; [done|].
  rewrite fmap_cons. cbn [mapM]. rewrite stoi_show_int by done. cbn [mbind option_bind].
  by rewrite IH.
Qed.

Lemma locations_roundtrip_witness :
  read_locations (write_locations [5; 0; -1; 12]) = Some [5; 0; -1; 12].
Proof. apply locations_roundtrip; [vm_decide|simpl; lia]. Defined.

(** ** Unique sets and lengths *)

Lemma makeUniqueSet_loop_spec input : ∀ output seen,
  ∃ new, makeUniqueSet_loop input output seen = output ++ new ∧ NoDup new ∧ new `sublist_of` input ∧
    ∀ x, x ∈ new ↔ x ∈ input ∧ x ∉ seen.
Proof.
  induction input as [|x input IH]; intros output seen; cbn [makeUniqueSet_loop].
  - exists []. rewrite app_nil_r. split; [done|]. split; [constructor|]. split; [constructor|].
    intros x. split; [by intros ?%elem_of_nil|by intros [?%elem_of_nil _]].
  - destruct (bool_decide_reflect (x ∈ seen)) as [Hin|Hnin].
    + destruct (IH output seen) as (new & -> & Hnd & Hsub & Hel). exists new.
      split; [done|]. split; [done|]. split; [by constructor|]. intros y. rewrite Hel, elem_of_cons.
      split; [tauto|]. intros [[->|] ?]; tauto.
    + destruct (IH (output ++ [x]) (x :: seen)) as (new & -> & Hnd & Hsub & Hel). exists (x :: new).
      rewrite <-app_assoc. split; [done|]. split; [constructor; [|done]|split; [by constructor|]].
      * rewrite Hel, elem_of_cons. tauto.
      * intros y. rewrite !elem_of_cons, Hel, elem_of_cons.
        destruct (decide (y = x)) as [->|]; tauto.
Qed.

(** [makeUniqueSet] appends each distinct string of the input exactly once, as a
    subsequence of the input. *)
Theorem makeUniqueSet_unique input output :
  ∃ new, makeUniqueSet input output = output ++ new ∧ NoDup new ∧ new `sublist_of` input ∧
    ∀ x, x ∈ new ↔ x ∈ input.
Proof.
  destruct (makeUniqueSet_loop_spec input output []) as (new & Heq & Hnd & Hsub & Hel).
  exists new. split; [done|]. split; [done|]. split; [done|]. intros x. rewrite Hel.
  split; [tauto|]. intros ?. split; [done|apply not_elem_of_nil].
Qed.

(** ** Instances: a generator that always draws the lower bound, a shuffle that does
    nothing. *)
Definition draw_low (rng : unit) (lo _ : Z) : Z * unit := (lo, tt).
Definition shuffle_id (A : Type) (rng : unit) (l : list A) : list A * unit := (l, tt).

Lemma get_subset_static_split_witness :
  ∃ subset remaining, get_subset_static [1; 2; 3; 4] (f32_of_f64 (f64_lit 5 1)) = Some (subset, remaining) ∧
    subset ++ remaining = [1; 2; 3; 4] ∧ Z.of_nat (length subset) = 2.
Proof.
  apply (get_subset_static_split [1; 2; 3; 4] (f32_of_f64 (f64_lit 5 1)) 2); vm_compute; reflexivity.
Defined.

Lemma get_subset_partition_witness :
  ∃ subset remaining st,
    get_subset shuffle_id tt [1; 2; 3; 4] (f32_of_f64 (f64_lit 5 1)) = Some ((subset, remaining), st) ∧
    subset ++ remaining ≡ₚ [1; 2; 3; 4].
Proof.
  do 3 eexists. split; [vm_compute; reflexivity|].
  eapply (get_subset_partition shuffle_id (λ _ _ _, reflexivity _) tt [1; 2; 3; 4] (f32_of_f64 (f64_lit 5 1))).
  vm_compute. reflexivity.
Defined.

Lemma random_locations_sorted_witness :
  ∃ locs rng', random_locations draw_low 3 100 tt = Some (locs, rng') ∧
    Z.of_nat (length locs) = 3 ∧ Sorted Z.le locs ∧ Forall (λ l, 0 ≤ l < 100) locs.
Proof.
  apply (random_locations_sorted draw_low); [|lia|lia].
  intros rng lo hi Hle. cbn. lia.
Defined.
