(* ===== verification/EntropyFiles.v ===== *)
(** * Data sets and entropies in files (src/storage.cpp, src/entropyEstimatorMain.cpp)

    A data set is a file of lines. In a file of entropies the first line says whether the keys have one length, the others hold a location and
    the entropy up to it. The decimal notation of a [double] is the library's:
    [DoubleText], with what the program relies on as [DoubleTextLaws]. *)
From stdpp Require Import sorting.
From S2P Require Import Prelude Words Floats EntropyEstimators Storage.

(** ** Data sets *)

Definition write_dataset (inputVec : list bytes) : bytes := concat ((λ x, x ++ [x0a]) <$> inputVec).

(** The functions of entropyEstimatorMain.cpp: no limit on the number of lines, and the first
    [nlocs] locations in order. *)
Definition main_read_lines (file : bytes) : list bytes := split_lines [] file.

Definition main_read_locations (nlocs : Z) (file : bytes) : option (list Z) :=
  locations ← mapM stoi (take (Z.to_nat nlocs) (main_read_lines file)); Some (merge_sort Z.le locations).

Lemma split_write_dataset data : Forall (Forall (λ b, b ≠ x0a)) data → split_lines [] (write_dataset data) = data.
Proof.
  induction 1 as [|x data Hx _ IH]; [done|]. unfold write_dataset in *. rewrite fmap_cons. cbn [concat].
  rewrite <-app_assoc. cbn [app]. rewrite split_lines_line by done. by rewrite IH.
Qed.

(** A data set of strings without newlines is read back as it was written. *)
Theorem dataset_roundtrip data :
  Forall (Forall (λ b, b ≠ x0a)) data → Z.of_nat (length data) ≤ 210000000 →
  read_lines (write_dataset data) = data ∧ main_read_lines (write_dataset data) = data.
Proof.
  intros Hd Hl. unfold read_lines, main_read_lines. rewrite split_write_dataset by done. split; [|done].
  apply read_loop_all. lia.
Qed.

(** ** Entropies *)

Class DoubleText := {
  (** [outfile << d] *)
  show_double : spec_float → bytes;
  (** [std::stod], which throws when it finds no number *)
  stod : bytes → option spec_float
}.

Class DoubleTextLaws `{DoubleText} := {
  (** what is left of a [double] with the digits [<<] writes *)
  dt_round : spec_float → spec_float;
  dt_plain d : Forall (λ b, b ≠ x0a ∧ b ≠ x2c) (show_double d);
  dt_read d : stod (x20 :: show_double d) = Some (dt_round d)
}.

(** [::tolower] *)
Definition tolower (b : byte) : byte :=
  let z := byteZ b in
  if (65 <=? z) && (z <=? 90) then default b (Strings.Byte.of_N (Z.to_N (z + 32))) else b.

Definition true_text : bytes := [x74; x72; x75; x65].
Definition false_text : bytes := [x66; x61; x6c; x73; x65].

(** [is >> std::boolalpha >> b]: false on anything but the word; nothing is stored in
    the uninitialised [b] when the line is blank. *)
Definition to_bool (str : bytes) : option bool :=
  match skip_spaces (tolower <$> str) with
  | [] => None
  | l => Some (bool_decide (take 4 l = true_text))
  end.

(** [std::getline(line_stream, segment, ',')]: the segment, and what is left of the stream
    unless its end was reached. *)
Fixpoint cut_comma (l : bytes) : bytes * option bytes :=
  match l with
  | [] => ([], None)
  | b :: l => if bool_decide (b = x2c) then ([], Some l) else let r := cut_comma l in (b :: r.1, r.2)
  end.

(** The second [getline] leaves [segment] as it was when the stream is at its end. *)
Definition second_segment (r : bytes * option bytes) : bytes :=
  match r.2 with Some rest => (cut_comma rest).1 | None => r.1 end.

Section files.
Context `{DoubleText}.

(** The results of the benchmarks are appended to a file. *)
Definition add_to_file (file : bytes) (val : spec_float) : bytes := file ++ show_double val ++ [x0a].

Definition read_entropy_line (l : bytes) : option (Z * spec_float) :=
  let r := cut_comma l in
  i ← stoi r.1; d ← stod (second_segment r); Some (i, d).

Definition read_entropies (file : bytes) : option (list Z * list spec_float * bool) :=
  match read_lines file with
  | [] => None
  | l :: lines =>
      fixedLengthData ← to_bool l;
      r ← mapM read_entropy_line lines;
      Some (r.*1, r.*2, fixedLengthData)
  end.

Definition write_entropy_line (le : Z * spec_float) : bytes := show_int le.1 ++ [x2c; x20] ++ show_double le.2 ++ [x0a].

Definition write_entropies (entropies : list spec_float) (locs : list Z) (fixed : bool) : option bytes :=
  if bool_decide (length locs = length entropies) then
    Some ((if fixed then true_text else false_text) ++ x0a :: concat (write_entropy_line <$> zip locs entropies))
  else None.
End files.

(** ** Round trip *)

Lemma cut_comma_plain l r : Forall (λ b, b ≠ x2c) l → cut_comma (l ++ x2c :: r) = (l, Some r).
Proof.
  induction 1 as [|b l Hb _ IH]; [done|]. cbn [cut_comma app]. rewrite bool_decide_eq_false_2 by done. by rewrite IH.
Qed.

Lemma cut_comma_all l : Forall (λ b, b ≠ x2c) l → cut_comma l = (l, None).
Proof.
  induction 1 as [|b l Hb _ IH]; [done|]. cbn [cut_comma]. rewrite bool_decide_eq_false_2 by done. by rewrite IH.
Qed.

Lemma show_int_no_comma z : Forall (λ b, b ≠ x2c) (show_int z).
Proof.
  assert (∀ n, 0 ≤ n → Forall (λ b, b ≠ x2c) (to_string n)) as H.
  { intros n Hn. destruct (to_string_digits n Hn) as [Hd _].
    eapply Forall_impl; [exact Hd|]. by intros b Hb ->. }
  unfold show_int. case_bool; [constructor; [done|]|]; apply H; lia.
Qed.

Section roundtrip.
Context `{L : DoubleTextLaws}.

Lemma read_write_line l e :
  - 2 ^ 31 ≤ l < 2 ^ 31 → read_entropy_line (show_int l ++ [x2c; x20] ++ show_double e) = Some (l, dt_round e).
Proof using.
  intros Hl. unfold read_entropy_line. cbn [app].
  rewrite cut_comma_plain by apply show_int_no_comma. cbn [fst snd].
  rewrite stoi_show_int by done. cbn [mbind option_bind]. unfold second_segment. cbn [fst snd].
  rewrite cut_comma_all.
  - cbn [fst]. by rewrite dt_read.
  - constructor; [done|]. eapply Forall_impl; [apply (dt_plain e)|]. by intros b [_ ?].
Qed.

Lemma write_lines les :
  split_lines [] (concat (write_entropy_line <$> les)) = (λ le, show_int le.1 ++ [x2c; x20] ++ show_double le.2) <$> les.
Proof using L.
  induction les as [|[l e] les IH]; [done|]. rewrite !fmap_cons. cbn [concat]. rewrite <-IH. cbn [fst snd].
  replace (write_entropy_line (l, e)) with ((show_int l ++ [x2c; x20] ++ show_double e) ++ [x0a])
    by (unfold write_entropy_line; by rewrite <-!app_assoc).
  rewrite <-(app_assoc _ [x0a]). cbn [app]. rewrite split_lines_line; [done|].
  apply Forall_app. split; [apply show_int_no_newline|].
  constructor; [done|]. constructor; [done|]. eapply Forall_impl; [apply (dt_plain e)|]. by intros b [? _].
Qed.

Lemma entropies_read entropies locs fixed :
  length locs = length entropies → Forall (λ l, - 2 ^ 31 ≤ l < 2 ^ 31) locs →
  Z.of_nat (length locs) < 210000000 →
  ∃ file, write_entropies entropies locs fixed = Some file ∧
    read_entropies file = Some (locs, dt_round <$> entropies, fixed).
Proof using L.
  intros Hlen Hr Hl. unfold write_entropies. rewrite bool_decide_eq_true_2 by done. eexists. split; [done|].
  unfold read_entropies, read_lines. rewrite split_lines_line by (destruct fixed; vm_decide). cbn [rev app].
  rewrite write_lines. rewrite read_loop_all.
  2: { cbn [length]. rewrite length_fmap, length_zip. lia. }
  assert (to_bool (if fixed then true_text else false_text) = Some fixed) as -> by by destruct fixed.
  cbn [mbind option_bind]. clear Hl.
  assert (mapM read_entropy_line ((λ le, show_int le.1 ++ [x2c; x20] ++ show_double le.2) <$> zip locs entropies)
    = Some (zip locs (dt_round <$> entropies))) as ->.
  { revert entropies Hlen. induction Hr as [|l locs Hl _ IH]; intros [|e entropies] Hlen; try done.
    cbn [zip zip_with]. rewrite fmap_cons. cbn [mapM fst snd]. rewrite read_write_line by done. cbn [mbind option_bind].
    rewrite IH by (cbn in Hlen; lia). done. }
  cbn [mbind option_bind]. rewrite fst_zip, snd_zip by (rewrite length_fmap; lia). done.
Qed.
(** Reading back a file of entropies: [read_entropies] returns the locations, the flag, and
    every entropy as rounded by its decimal notation, up to the limit on the number of lines. *)
Theorem entropies_roundtrip entropies locs fixed :
  length locs = length entropies → Forall (λ l, - 2 ^ 31 ≤ l < 2 ^ 31) locs →
  Z.of_nat (length locs) < 210000000 →
  ∃ file, write_entropies entropies locs fixed = Some file ∧
    read_entropies file = Some (locs, dt_round <$> entropies, fixed).
Proof using L. by apply entropies_read. Qed.
End roundtrip.

(** ** Instance: a notation that only writes the integer part *)
#[local] Instance demo_double_text : DoubleText := {
  show_double d := show_int (default 0 (sf_to_i32 d));
  stod l := f64_of_Z <$> stoi l
}.

#[local, refine] Instance demo_double_text_laws : DoubleTextLaws := {
  dt_round d := f64_of_Z (default 0 (sf_to_i32 d))
}.
Proof.
  - intros d. apply Forall_and. split; [apply show_int_no_newline|apply show_int_no_comma].
  - intros d. cbn [stod show_double demo_double_text].
    change (stoi (x20 :: show_int (default 0 (sf_to_i32 d)))) with (stoi (show_int (default 0 (sf_to_i32 d)))).
    rewrite stoi_show_int; [done|]. destruct (sf_to_i32 d) as [z|] eqn:Hd; [|cbn; lia].
    unfold sf_to_i32 in Hd. apply bind_Some in Hd as (t & _ & Hd). unfold chk_i32 in Hd.
    destruct (_ && _) eqn:Ht; [|done]. injection Hd as <-. apply andb_true_iff in Ht as [?%Z.leb_le ?%Z.ltb_lt]. cbn [default from_option id]. lia.
Defined.

Lemma entropies_roundtrip_witness :
  ∃ file, write_entropies [f64_lit 25 1; f64_of_Z 7] [3; -1] true = Some file ∧
    read_entropies file = Some ([3; -1], [f64_of_Z 2; f64_of_Z 7], true).
Proof.
  destruct (entropies_roundtrip [f64_lit 25 1; f64_of_Z 7] [3; -1] true) as (file & Hw & Hr);
    [reflexivity|vm_decide|cbn; lia|].
  exists file. split; [exact Hw|]. rewrite Hr. vm_compute. reflexivity.
Defined.

(** A line without a comma: the location is read again as the entropy. *)
Example entropy_line_without_comma : read_entropy_line [x35] = Some (5, f64_of_Z 5).
Proof. vm_compute. reflexivity. Qed.
