(* ===== verification/Timings.v ===== *)
(** * What a benchmark records (src/include/benchmarks.hh, TimeCounter.hh, src/benchmarker.cpp)

    The clients measure the time they spend between two reads of the clock in one of three
    variables, one per kind of client; [benchmark] runs a client and adds one of the three to
    the table of timings, under the class and the name of the run. The clock is outside the
    model: a client is a function on the state that may set the variables. The stopwatch of
    TimeCounter.hh takes the readings of the clock as arguments. *)
From stdpp Require Import strings gmap.
From S2P Require Import Prelude Words Floats EntropyFiles.

Abbreviation timing_table := (gmap string (gmap string spec_float)).

Record run_state := RunState {
  timings : timing_table;
  total_time_without_dummy_hashing : spec_float;
  total_time_without_dummy_hashing_filter : spec_float;
  total_time_without_dummy_hashing_partition : spec_float;
  (** the files of the results directory, by name *)
  result_files : gmap string bytes
}.

Definition set_timings (t : timing_table) (st : run_state) : run_state :=
  RunState t (total_time_without_dummy_hashing st) (total_time_without_dummy_hashing_filter st)
    (total_time_without_dummy_hashing_partition st) (result_files st).
Definition set_result_files (f : gmap string bytes) (st : run_state) : run_state :=
  RunState (timings st) (total_time_without_dummy_hashing st) (total_time_without_dummy_hashing_filter st)
    (total_time_without_dummy_hashing_partition st) f.

(** [timings[metric_class][name]]: 0 when it was not there *)
Definition timing (t : timing_table) (metric_class name : string) : spec_float :=
  default (f64_of_Z 0) (default ∅ (t !! metric_class) !! name).

(** [timings[metric_class][name] += t] *)
Definition add_timing (metric_class name : string) (t : spec_float) (m : timing_table) : timing_table :=
  <[metric_class := <[name := f64_add (timing m metric_class name) t]> (default ∅ (m !! metric_class))]> m.

Definition inner_loop_reuse : Z := 1.

(** [char fname[100]; sprintf(fname, "%s/%s.txt", ...)]: the name and its NUL must fit. *)
Definition result_fname (results_directory name : string) : option string :=
  let fname := (results_directory +:+ "/" +:+ name +:+ ".txt")%string in
  if Z.of_nat (String.length fname) <? 100 then Some fname else None.

Section benchmark.
Context `{DoubleText} (results_directory : option string).

(** [if (results_directory) { ...; add_to_file(fname, result); }] *)
Definition write_result (name : string) (result : spec_float) (st : run_state) : option run_state :=
  match results_directory with
  | None => Some st
  | Some dir =>
      fname ← result_fname dir name;
      Some (set_result_files (<[fname := add_to_file (default [] (result_files st !! fname)) result]> (result_files st)) st)
  end.

(** The time that [benchmark] adds for a class of metrics. *)
Definition time_of_class (metric_class : string) (st : run_state) : spec_float :=
  if bool_decide (metric_class ∈ ["filter_latency"; "filter_throughput"; "hash_func"]%string)
  then f64_div (total_time_without_dummy_hashing_filter st) (f64_of_Z inner_loop_reuse)
  else total_time_without_dummy_hashing st.

(** [verify] prints the result, and stores it for the caller. *)
Definition benchmark (name metric_class : string) (func : run_state → option (Z * run_state)) (st : run_state)
    : option (Z * run_state) :=
  '(result, st) ← func st;
  let st := set_timings (add_timing metric_class name (time_of_class metric_class st) (timings st)) st in
  st ← write_result name (f64_of_Z result) st;
  Some (result, st).

(** The multi-threaded one adds nothing outside the classes of filters and hash functions. *)
Definition benchmark_mt (name metric_class : string) (func : run_state → option (Z * run_state)) (st : run_state)
    : option (Z * run_state) :=
  '(res, st) ← func st;
  let t := if bool_decide (metric_class ∈ ["filter"; "hash_func"]%string)
           then f64_div (total_time_without_dummy_hashing_filter st) (f64_of_Z inner_loop_reuse) else f64_of_Z 0 in
  let st := set_timings (add_timing metric_class name t (timings st)) st in
  st ← write_result name (f64_of_Z res) st;
  Some (res, st).
End benchmark.

(** [timings[c] = std::unordered_map<std::string, double>();] for some classes *)
Definition clear_classes (classes : list string) (t : timing_table) : timing_table := foldl (λ t c, <[c := ∅]> t) t classes.

(** The rates and the timings of the benchmarks asked for are emptied. *)
Definition initialize_args (requested : string → bool) (st : timing_table * timing_table) : timing_table * timing_table :=
  let clear (group : string) (classes t : list string) := if requested group then classes ++ t else t in
  (clear_classes (clear "filter_benchmarks" ["filter_throughput"; "filter_latency"] [])%string st.1,
   clear_classes
     (clear "filter_benchmarks" ["filter_throughput"; "filter_latency"]
       (clear "hash_benchmarks" ["hash_func"]
         (clear "table_benchmarks" ["hash_table_throughput"; "hash_table_latency"; "hash_table_build"]
           (clear "table_benchmarks_mt" ["hash_table_throughput_mt"]
             (clear "partition_benchmarks" ["partition"] [])))))%string st.2).

(** ** [TimeCounter] (src/include/TimeCounter.hh)

    A stopwatch in seconds; the readings of [clock()] (ticks) and of the steady clock
    (nanoseconds) are arguments. *)
Record TimeCounter := MkTimeCounter { startCounter : spec_float; cost : spec_float; start_nano : Z }.

Definition CLOCKS_PER_SEC : Z := 1000000.

(** The constructors; what they leave uninitialised is what the memory holds. *)
Definition tc_default (mem : TimeCounter) : TimeCounter :=
  MkTimeCounter (startCounter mem) (f64_of_Z 0) (start_nano mem).
Definition tc_init (mem : TimeCounter) (init : spec_float) (clock : Z) : TimeCounter :=
  MkTimeCounter (f64_of_Z clock) init (start_nano mem).

Definition tc_start (clock : Z) (c : TimeCounter) : TimeCounter :=
  MkTimeCounter (f64_of_Z clock) (cost c) (start_nano c).
Definition tc_stop (clock : Z) (c : TimeCounter) : TimeCounter :=
  MkTimeCounter (startCounter c)
    (f64_div (f64_sub (f64_of_Z clock) (startCounter c)) (f64_of_Z CLOCKS_PER_SEC)) (start_nano c).

Definition tc_tic (now : Z) (c : TimeCounter) : TimeCounter :=
  MkTimeCounter (startCounter c) (cost c) now.
(** What [toc] prints. *)
Definition tc_toc (now : Z) (c : TimeCounter) : spec_float :=
  f64_div (f64_of_Z (now - start_nano c)) (f64_of_Z 1000000000).

Definition tc_plus (mem c o : TimeCounter) (clock : Z) : TimeCounter :=
  tc_init mem (f64_add (cost c) (cost o)) clock.
Definition tc_add (c o : TimeCounter) : TimeCounter :=
  MkTimeCounter (startCounter c) (f64_add (cost c) (cost o)) (start_nano c).
Definition tc_ltb (c o : TimeCounter) : bool := SFltb (f64_add (cost c) (f64_lit 1 9)) (cost o).

(** A second interval replaces the first: time spent in pieces is only kept by adding counters. *)
Lemma tc_second_interval a b c d t :
  tc_stop d (tc_start c (tc_stop b (tc_start a t))) = tc_stop d (tc_start c t).
Proof. done. Qed.

(** Two counters that differ by less than a nanosecond are not ordered, either way. *)
Example tc_tolerance :
  let half := MkTimeCounter (f64_of_Z 0) (f64_lit 5 1) 0 in
  let more := MkTimeCounter (f64_of_Z 0) (f64_lit 5000000005 10) 0 in
  tc_ltb half more = false ∧ tc_ltb more half = false ∧ SFltb (cost half) (cost more) = true ∧
  tc_ltb half (tc_stop 1500000 (tc_start 0 half)) = true.
Proof. vm_compute. done. Qed.

(** ** Which measurement is recorded *)

Lemma timing_add_eq t c n d : timing (add_timing c n d t) c n = f64_add (timing t c n) d.
Proof.
  unfold timing at 1, add_timing. rewrite lookup_insert_eq. cbn [default from_option id].
  by rewrite lookup_insert_eq.
Qed.

Lemma timing_add_ne t c n d c' n' : c ≠ c' ∨ n ≠ n' → timing (add_timing c n d t) c' n' = timing t c' n'.
Proof.
  intros Hne. unfold add_timing. generalize (f64_add (timing t c n) d) as e. intros e. unfold timing. destruct (decide (c = c')) as [<-|Hc].
  - rewrite lookup_insert_eq. cbn [default from_option id].
    destruct Hne as [|Hn]; [done|]. by rewrite lookup_insert_ne.
  - by rewrite lookup_insert_ne.
Qed.

Section recorded.
Context `{DoubleText} (results_directory : option string).

Lemma write_result_same name r st st' :
  write_result results_directory name r st = Some st' →
  timings st' = timings st ∧
  total_time_without_dummy_hashing st' = total_time_without_dummy_hashing st ∧
  total_time_without_dummy_hashing_filter st' = total_time_without_dummy_hashing_filter st ∧
  total_time_without_dummy_hashing_partition st' = total_time_without_dummy_hashing_partition st.
Proof using.
  unfold write_result. destruct results_directory as [dir|]; [|by intros [= <-]].
  by intros (fname & _ & [= <-])%bind_Some.
Qed.

(** What [benchmark] leaves, for a client that leaves [st1]. *)
Lemma benchmark_spec name metric_class func st r st1 :
  func st = Some (r, st1) → (∀ dir, results_directory = Some dir → is_Some (result_fname dir name)) →
  ∃ st', benchmark results_directory name metric_class func st = Some (r, st') ∧
    timings st' = add_timing metric_class name (time_of_class metric_class st1) (timings st1) ∧
    total_time_without_dummy_hashing st' = total_time_without_dummy_hashing st1 ∧
    total_time_without_dummy_hashing_filter st' = total_time_without_dummy_hashing_filter st1 ∧
    total_time_without_dummy_hashing_partition st' = total_time_without_dummy_hashing_partition st1.
Proof using.
  intros Hf Hdir. unfold benchmark. rewrite Hf. cbn [mbind option_bind].
  assert (is_Some (write_result results_directory name (f64_of_Z r)
    (set_timings (add_timing metric_class name (time_of_class metric_class st1) (timings st1)) st1))) as [st' Hw].
  { unfold write_result. destruct results_directory as [dir|]; [|by eexists].
    destruct (Hdir dir eq_refl) as [fname ->]. by eexists. }
  rewrite Hw. exists st'. split; [done|]. apply write_result_same in Hw as (-> & -> & -> & ->). done.
Qed.

(** The time that a partitioning run measures is not the one that is recorded: whatever the
    client measures in its own variable, [benchmark] adds what the hash-table clients
    measured last, so two runs that differ in their measurements alone record the same
    time. *)
Theorem partition_time_ignored name func func' st r st1 t :
  func st = Some (r, st1) →
  func' st = Some (r, RunState (timings st1) (total_time_without_dummy_hashing st1)
    (total_time_without_dummy_hashing_filter st1) t (result_files st1)) →
  (∀ dir, results_directory = Some dir → is_Some (result_fname dir name)) →
  ∃ st' st'', benchmark results_directory name "partition" func st = Some (r, st') ∧
    benchmark results_directory name "partition" func' st = Some (r, st'') ∧
    timings st' = timings st'' ∧
    timing (timings st') "partition" name
    = f64_add (timing (timings st1) "partition" name) (total_time_without_dummy_hashing st1).
Proof using.
  intros Hf Hf' Hdir.
  destruct (benchmark_spec name "partition" func st _ _ Hf Hdir) as (st' & -> & Ht & _).
  destruct (benchmark_spec name "partition" func' st _ _ Hf' Hdir) as (st'' & -> & Ht' & _).
  exists st', st''. split; [done|]. split; [done|]. rewrite Ht, Ht'. split; [done|]. by rewrite timing_add_eq.
Qed.

(** With a results directory the file name is written to 100 characters: a run whose name
    does not fit has no defined behaviour, after it was timed. *)
Theorem long_results_directory_undefined name metric_class func st dir :
  results_directory = Some dir → 95 ≤ Z.of_nat (String.length dir) + Z.of_nat (String.length name) →
  benchmark results_directory name metric_class func st = None.
Proof using.
  intros Hdir Hlen. unfold benchmark. destruct (func st) as [[r st1]|]; [|done]. cbn [mbind option_bind].
  unfold write_result. rewrite Hdir. unfold result_fname.
  assert (∀ a b : string, String.length (a +:+ b) = (String.length a + String.length b)%nat) as Happ.
  { intros a. induction a as [|c a IH]; intros b; [done|]. exact (f_equal S (IH b)). }
  rewrite !Happ. cbn [String.length]. by rewrite (proj2 (Z.ltb_ge _ _)) by lia.
Qed.
End recorded.

(** ** Instances *)
Definition demo_state (t : spec_float) : run_state := RunState ∅ (f64_of_Z 3) (f64_of_Z 0) t ∅.

(** Nanoseconds measured: 5 in one run and 6 in the other; 3 recorded in both. *)
Lemma partition_time_ignored_witness :
  ∃ st' st'', benchmark (H := demo_double_text) None "partition-xxh3" "partition"
      (λ _, Some (7, demo_state (f64_of_Z 5))) (demo_state (f64_of_Z 0)) = Some (7, st') ∧
    benchmark (H := demo_double_text) None "partition-xxh3" "partition"
      (λ _, Some (7, demo_state (f64_of_Z 6))) (demo_state (f64_of_Z 0)) = Some (7, st'') ∧
    timings st' = timings st'' ∧ timing (timings st') "partition" "partition-xxh3" = f64_of_Z 3.
Proof.
  destruct (partition_time_ignored (H := demo_double_text) None "partition-xxh3"
    (λ _, Some (7, demo_state (f64_of_Z 5))) (λ _, Some (7, demo_state (f64_of_Z 6)))
    (demo_state (f64_of_Z 0)) 7 (demo_state (f64_of_Z 5)) (f64_of_Z 6)) as (st' & st'' & H1 & H2 & H3 & H4).
  - reflexivity.
  - reflexivity.
  - discriminate.
  - exists st', st''. split; [exact H1|]. split; [exact H2|]. split; [exact H3|].
    rewrite H4. vm_compute. reflexivity.
Defined.

Lemma long_results_directory_undefined_witness :
  benchmark (H := demo_double_text)
    (Some "/home/user/experiments/entropy_learned_hashing/results/2021-08-30/google_urls/all_tables"%string)
    "swiss_wyhash_sub8_throughput" "hash_table_throughput" (λ st, Some (0, st)) (demo_state (f64_of_Z 0)) = None.
Proof.
  eapply (long_results_directory_undefined (H := demo_double_text)); [reflexivity|]. vm_compute. discriminate.
Defined.
