(* ===== verification/Workload.v ===== *)
(** * Probe generation (src/workload_generator.cpp)

    The generators append to an array of probes; the static ones walk the keys in
    order, the others draw from a random generator. *)
From S2P Require Import Prelude Words Floats Storage.

(** ** Static probes *)

(** [probe_array.push_back(keys[i % size])], [size] an [int] that [%] converts to
    [unsigned] *)
Definition probe_static_body {A} (keys : list A) (i : Z) (probe_array : list A) : option (list A) :=
  let size := u32 (to_i32 (Z.of_nat (length keys))) in
  if size =? 0 then None
  else k ← keys !! Z.to_nat (i `mod` size); Some (probe_array ++ [k]).

Definition generate_unsuccessful_probes_static {A} (uninserted_keys : list A) (nprobes : Z)
    (probe_array : list A) : option (list A) :=
  for_loop (Z.to_nat nprobes) 0 (probe_static_body uninserted_keys) probe_array.

Definition generate_successful_probes_static {A} (inserted_keys : list A) (nprobes : Z)
    (probe_array : list A) : option (list A) :=
  for_loop (Z.to_nat nprobes) 0 (probe_static_body inserted_keys) probe_array.

(** [(successful, unsuccessful)]: the difference of two [unsigned] values wraps. *)
Definition probe_split (fraction_successful : spec_float) (nprobes : Z) : option (Z * Z) :=
  successful ← fraction_of fraction_successful nprobes;
  Some (successful, u32 (nprobes - successful)).

(** The count is returned as an [int]. *)
Definition generate_probes_with_unselected_keys_as_false_static {A} (inserted_keys uninserted_keys : list A)
    (fraction_successful : spec_float) (nprobes : Z) : option (list A * Z) :=
  '(successful, unsuccessful) ← probe_split fraction_successful nprobes;
  probes ← generate_successful_probes_static inserted_keys successful [];
  probes ← generate_unsuccessful_probes_static uninserted_keys unsuccessful probes;
  Some (probes, to_i32 unsuccessful).

(** ** Random probes *)
Section random.
Context {R : Type} (draw : R → Z → Z → Z * R) (shuffle : ∀ A : Type, R → list A → list A * R).

(** One turn on [(probes, generator)]; the bounds are [uint32_t], the index an [int]. *)
Definition probe_body {A} (keys : list A) (_ : Z) (s : list A * R) : option (list A * R) :=
  let '(idx, rng) := draw s.2 0 (u32 (Z.of_nat (length keys) - 1)) in
  let idx := to_i32 idx in
  if idx <? 0 then None else k ← keys !! Z.to_nat idx; Some (s.1 ++ [k], rng).

Definition generate_successful_probes {A} (rng : R) (inserted_keys : list A) (nprobes : Z)
    (probe_array : list A) : option (list A * R) :=
  for_loop (Z.to_nat nprobes) 0 (probe_body inserted_keys) (probe_array, rng).

Definition generate_unsuccessful_probes {A} (rng : R) (uninserted_keys : list A) (nprobes : Z)
    (probe_array : list A) : option (list A * R) :=
  for_loop (Z.to_nat nprobes) 0 (probe_body uninserted_keys) (probe_array, rng).

(** [s[j] = uni(rng)], the byte of the value drawn *)
Definition random_char_body (lo hi : Z) (j : Z) (s : list Z * R) : option (list Z * R) :=
  let '(c, rng) := draw s.2 lo hi in
  buf ← (if (0 <=? j) && (j <? Z.of_nat (length s.1)) then Some (<[Z.to_nat j := u8 c]> s.1) else None);
  Some (buf, rng).

(** [std::string str(s)]: up to the first NUL of the buffer *)
Fixpoint c_string (buf : list Z) : option bytes :=
  match buf with
  | [] => None
  | c :: buf =>
      if c =? 0 then Some []
      else b ← Strings.Byte.of_N (Z.to_N c); l ← c_string buf; Some (b :: l)
  end.

(** One random string in the buffer that is reused for all of them. *)
Definition random_string_body (str_size : Z) (_ : Z) (s : list bytes * list Z * R)
    : option (list bytes * list Z * R) :=
  let '(keys, buf, rng) := s in
  '(buf, rng) ← for_loop (Z.to_nat str_size) 0 (random_char_body 1 255) (buf, rng);
  buf ← (if str_size <? Z.of_nat (length buf) then Some (<[Z.to_nat str_size := 0]> buf) else None);
  str ← c_string buf;
  Some (keys ++ [str], buf, rng).

(** [malloc(str_size + 1)] holds arbitrary bytes. *)
Definition uniform_random_strings (rng : R) (garbage : list Z) (num_strings str_size : Z)
    : option (list bytes * R) :=
  '(keys, _, rng) ← for_loop (Z.to_nat num_strings) 0 (random_string_body str_size)
    ([], take (Z.to_nat (str_size + 1)) garbage, rng);
  Some (keys, rng).

Definition generate_random_unsuccessful_probes (rng : R) (garbage : list Z) (str_size nprobes : Z)
    (probe_array : list bytes) : option (list bytes * R) :=
  '(probes, _, rng) ← for_loop (Z.to_nat nprobes) 0 (random_string_body str_size)
    (probe_array, take (Z.to_nat (str_size + 1)) garbage, rng);
  Some (probes, rng).

Definition generate_probes_with_unselected_keys_as_false {A} (rng : R)
    (inserted_keys uninserted_keys : list A) (fraction_successful : spec_float) (nprobes : Z)
    : option (list A * Z * R) :=
  '(successful, unsuccessful) ← probe_split fraction_successful nprobes;
  '(probes, rng) ← generate_successful_probes rng inserted_keys successful [];
  '(probes, rng) ← generate_unsuccessful_probes rng uninserted_keys unsuccessful probes;
  let '(probes, rng) := shuffle A rng probes in
  Some (probes, to_i32 unsuccessful, rng).

Definition generate_probes_with_random_false (rng : R) (garbage : list Z) (keys : list bytes)
    (fraction_successful : spec_float) (nprobes str_size : Z) : option (list bytes * Z * R) :=
  '(successful, unsuccessful) ← probe_split fraction_successful nprobes;
  '(probes, rng) ← generate_successful_probes rng keys successful [];
  '(probes, rng) ← generate_random_unsuccessful_probes rng garbage str_size unsuccessful probes;
  let '(probes, rng) := shuffle bytes rng probes in
  Some (probes, to_i32 unsuccessful, rng).
End random.

(** ** Static probes: properties *)

(** [n] probes walk the keys cyclically. *)
Definition cyclic {A} (keys : list A) (n : nat) (probes : list A) : Prop :=
  length probes = n ∧ ∀ k, (k < n)%nat → probes !! k = keys !! (k `mod` length keys)%nat.

Lemma probes_static_cyclic {A} (keys : list A) n acc :
  (0 < length keys)%nat → Z.of_nat (length keys) < 2 ^ 31 →
  ∃ ps, for_loop n 0 (probe_static_body keys) acc = Some (acc ++ ps) ∧ cyclic keys n ps.
Proof.
  intros H0 H31.
  destruct (for_loop_total (λ i s, ∃ ps, s = acc ++ ps ∧ 0 ≤ i ∧ cyclic keys (Z.to_nat i) ps)
    (probe_static_body keys) n 0 acc) as (s & Hs & ps & -> & _ & Hcyc).
  - exists []. rewrite app_nil_r. split; [done|]. split; [done|]. split; [done|]. intros k; lia.
  - intros j s Hj (ps & -> & Hj0 & Hlen & Hcyc). unfold probe_static_body.
    assert (u32 (to_i32 (Z.of_nat (length keys))) = Z.of_nat (length keys)) as ->.
    { unfold to_i32. rewrite (wrap_small 32 (_ + _)) by (split; lia).
      rewrite Z.add_simpl_r. apply wrap_small. split; lia. }
    rewrite (proj2 (Z.eqb_neq _ _)) by lia.
    assert (Z.to_nat (j `mod` Z.of_nat (length keys)) = (Z.to_nat j `mod` length keys)%nat) as ->.
    { rewrite <-(Z2Nat.id j) at 1 by lia. rewrite <-Nat2Z.inj_mod. lia. }
    destruct (lookup_lt_is_Some_2 keys (Z.to_nat j `mod` length keys)) as [x Hx].
    { apply Nat.mod_upper_bound. lia. }
    rewrite Hx. cbn [mbind option_bind]. eexists. split; [done|].
    exists (ps ++ [x]). rewrite app_assoc. split; [done|]. split; [lia|].
    replace (Z.to_nat (j + 1)) with (S (Z.to_nat j)) by lia.
    split; [rewrite length_app; simpl; lia|]. intros k Hk.
    destruct (decide (k = Z.to_nat j)) as [->|].
    + rewrite lookup_app_r by lia. by rewrite Hlen, Nat.sub_diag, Hx.
    + rewrite lookup_app_l by lia. apply Hcyc. lia.
  - exists ps. split; [done|]. by rewrite Z.add_0_l, Nat2Z.id in Hcyc.
Qed.

(** The static generator returns exactly [nprobes] probes when the rounded share
    does not exceed them: first the inserted keys, walked cyclically, then the
    others; the count it returns is the number of unsuccessful ones. *)
Theorem static_probes_spec {A} (inserted uninserted : list A) fraction nprobes s :
  (0 < length inserted)%nat → (0 < length uninserted)%nat →
  Z.of_nat (length inserted) < 2 ^ 31 → Z.of_nat (length uninserted) < 2 ^ 31 →
  fraction_of fraction nprobes = Some s → s ≤ nprobes < 2 ^ 31 →
  ∃ hits misses,
    generate_probes_with_unselected_keys_as_false_static inserted uninserted fraction nprobes
      = Some (hits ++ misses, nprobes - s) ∧
    cyclic inserted (Z.to_nat s) hits ∧ cyclic uninserted (Z.to_nat (nprobes - s)) misses.
Proof.
  intros Hi Hu Hi31 Hu31 Hs Hn.
  unfold generate_probes_with_unselected_keys_as_false_static, probe_split. rewrite Hs.
  cbn [mbind option_bind]. pose proof (sf_to_unsigned_fits _ _ _ Hs) as [Hs0 _].
  rewrite (wrap_small 32 (nprobes - s)) by (split; lia).
  unfold generate_successful_probes_static, generate_unsuccessful_probes_static.
  destruct (probes_static_cyclic inserted (Z.to_nat s) []) as (hits & -> & Hhits); [done..|].
  cbn [mbind option_bind app].
  destruct (probes_static_cyclic uninserted (Z.to_nat (nprobes - s)) hits) as (misses & -> & Hmiss); [done..|].
  cbn [mbind option_bind]. exists hits, misses. split; [|done]. do 2 f_equal.
  unfold to_i32. rewrite wrap_small by (split; lia). lia.
Qed.

Lemma static_probes_spec_witness :
  ∃ hits misses,
    generate_probes_with_unselected_keys_as_false_static [1; 2] [3; 4; 5] (f32_of_f64 (f64_lit 5 1)) 10
      = Some (hits ++ misses, 10 - 5) ∧
    cyclic [1; 2] 5 hits ∧ cyclic [3; 4; 5] 5 misses.
Proof.
  apply (static_probes_spec [1; 2] [3; 4; 5] (f32_of_f64 (f64_lit 5 1)) 10 5);
    [simpl; lia..|vm_compute; reflexivity|lia].
Defined.

(** Asked for 2^24 + 3 probes, all successful, the generators plan one probe too many
    and 2^32 - 1 unsuccessful ones. *)
Theorem probe_split_wraps :
  probe_split (f32_of_Z 1) (2 ^ 24 + 3) = Some (2 ^ 24 + 4, 2 ^ 32 - 1).
Proof. vm_compute. reflexivity. Qed.

(** ** Random probes: properties *)
Section random_spec.
Context {R : Type} (draw : R → Z → Z → Z * R) (shuffle : ∀ A : Type, R → list A → list A * R).
Context (shuffle_perm : ∀ A rng (l : list A), (shuffle A rng l).1 ≡ₚ l).
Context (draw_range : ∀ rng lo hi, lo ≤ hi → lo ≤ (draw rng lo hi).1 ≤ hi).

Lemma probes_from_keys {A} (keys : list A) n acc rng :
  0 < Z.of_nat (length keys) < 2 ^ 31 →
  ∃ ps rng', for_loop n 0 (probe_body draw keys) (acc, rng) = Some (acc ++ ps, rng') ∧
    length ps = n ∧ Forall (λ p, p ∈ keys) ps.
Proof using draw_range.
  intros Hk.
  destruct (for_loop_total (λ i (s : list A * R),
      ∃ ps, s.1 = acc ++ ps ∧ Z.of_nat (length ps) = i ∧ Forall (λ p, p ∈ keys) ps)
    (probe_body draw keys) n 0 (acc, rng)) as ([s r] & -> & ps & Hs & Hlen & Hall).
  - exists []. rewrite app_nil_r. by repeat constructor.
  - intros j [s r] Hj (ps & Hs & Hlen & Hall). cbn [fst snd] in *. unfold probe_body.
    rewrite wrap_small by (split; lia). cbn [fst snd].
    pose proof (draw_range r 0 (Z.of_nat (length keys) - 1) ltac:(lia)) as Hd.
    destruct (draw r 0 (Z.of_nat (length keys) - 1)) as [d r']. cbn [fst] in Hd.
    assert (to_i32 d = d) as -> by (unfold to_i32; rewrite wrap_small by (split; lia); lia).
    rewrite (proj2 (Z.ltb_ge _ _)) by lia.
    destruct (lookup_lt_is_Some_2 keys (Z.to_nat d)) as [x Hx]; [lia|]. rewrite Hx.
    cbn [mbind option_bind]. eexists. split; [done|]. cbn [fst]. exists (ps ++ [x]).
    rewrite Hs, app_assoc, length_app. split; [done|]. split; [simpl; lia|].
    apply Forall_app. split; [done|]. repeat constructor. by eapply list_elem_of_lookup_2.
  - cbn [fst] in *. subst s. exists ps, r. split; [done|]. split; [lia|done].
Qed.

Lemma random_probes_ok {A} rng (inserted uninserted : list A) fraction nprobes s :
  0 < Z.of_nat (length inserted) < 2 ^ 31 → 0 < Z.of_nat (length uninserted) < 2 ^ 31 →
  fraction_of fraction nprobes = Some s → s ≤ nprobes < 2 ^ 31 →
  ∃ probes rng' hits misses,
    generate_probes_with_unselected_keys_as_false draw shuffle rng inserted uninserted fraction nprobes
      = Some (probes, nprobes - s, rng') ∧
    probes ≡ₚ hits ++ misses ∧ Z.of_nat (length hits) = s ∧
    Z.of_nat (length misses) = nprobes - s ∧
    Forall (λ p, p ∈ inserted) hits ∧ Forall (λ p, p ∈ uninserted) misses.
Proof using shuffle_perm draw_range.
  intros Hi Hu Hs Hn. pose proof (sf_to_unsigned_fits _ _ _ Hs) as [Hs0 _].
  unfold generate_probes_with_unselected_keys_as_false, probe_split. rewrite Hs.
  cbn [mbind option_bind]. rewrite (wrap_small 32 (nprobes - s)) by (split; lia).
  unfold generate_successful_probes, generate_unsuccessful_probes.
  destruct (probes_from_keys inserted (Z.to_nat s) [] rng Hi) as (hits & r1 & -> & Hl1 & Hf1).
  cbn [mbind option_bind app].
  destruct (probes_from_keys uninserted (Z.to_nat (nprobes - s)) hits r1 Hu) as (misses & r2 & -> & Hl2 & Hf2).
  cbn [mbind option_bind]. pose proof (shuffle_perm A r2 (hits ++ misses)) as Hp.
  destruct (shuffle A r2 (hits ++ misses)) as [probes r3]. cbn [fst] in Hp.
  exists probes, r3, hits, misses. split; [|split; [done|split; [lia|split; [lia|done]]]].
  do 3 f_equal. unfold to_i32. rewrite wrap_small by (split; lia). lia.
Qed.

(** The random generator returns [nprobes] probes in some order, the share that
    is meant to succeed drawn from the inserted keys and the others, counted by the
    result, from the uninserted ones. *)
Theorem random_probes_spec {A} rng (inserted uninserted : list A) fraction nprobes s :
  0 < Z.of_nat (length inserted) < 2 ^ 31 → 0 < Z.of_nat (length uninserted) < 2 ^ 31 →
  fraction_of fraction nprobes = Some s → s ≤ nprobes < 2 ^ 31 →
  ∃ probes rng' hits misses,
    generate_probes_with_unselected_keys_as_false draw shuffle rng inserted uninserted fraction nprobes
      = Some (probes, nprobes - s, rng') ∧
    probes ≡ₚ hits ++ misses ∧ Z.of_nat (length hits) = s ∧
    Z.of_nat (length misses) = nprobes - s ∧
    Forall (λ p, p ∈ inserted) hits ∧ Forall (λ p, p ∈ uninserted) misses.
Proof using shuffle_perm draw_range. by apply random_probes_ok. Qed.
End random_spec.

Lemma random_probes_spec_witness :
  ∃ probes rng' hits misses,
    generate_probes_with_unselected_keys_as_false draw_low shuffle_id tt [1; 2] [3; 4; 5]
      (f32_of_f64 (f64_lit 5 1)) 10 = Some (probes, 10 - 5, rng') ∧
    probes ≡ₚ hits ++ misses ∧ Z.of_nat (length hits) = 5 ∧ Z.of_nat (length misses) = 10 - 5 ∧
    Forall (λ p, p ∈ [1; 2]) hits ∧ Forall (λ p, p ∈ [3; 4; 5]) misses.
Proof.
  apply (random_probes_spec draw_low shuffle_id (λ _ _ _, reflexivity _)).
  - intros rng lo hi Hle. cbn. lia.
  - cbn. lia.
  - cbn. lia.
  - vm_compute. reflexivity.
  - lia.
Defined.
