(* ===== verification/DataGen.v ===== *)
(** * Synthetic data (src/dataGenerators/workload_generator.cpp)

    Random strings without a NUL, and files of strings that end in one. The engine that
    draws bytes is outside: a state and a function to the next byte. *)
From S2P Require Import Prelude Words.

(** ** Random strings *)
Section random.
(** [std::independent_bits_engine<std::default_random_engine, CHAR_BIT, uint8_t>] *)
Context {R : Type} (bytes_randomizer : R → byte * R).

(** [while (byte_to_write == 0) byte_to_write = bytes_randomizer();] *)
Definition draw_nonzero (fuel : nat) (rng : R) : option (byte * R) :=
  while fuel (λ s, bool_decide (s.1 = x00)) (λ s, Some (bytes_randomizer s.2)) (x00, rng).

(** [inputVec.back()[j] = byte_to_write;] *)
Definition string_body (fuel : nat) (j : Z) (s : bytes * R) : option (bytes * R) :=
  '(b, rng) ← draw_nonzero fuel s.2;
  if j <? Z.of_nat (length s.1) then Some (<[Z.to_nat j := b]> s.1, rng) else None.

(** [push_back(string()); back().resize(lengthStrings);] and the loop over its bytes *)
Definition generate_body (fuel : nat) (lengthStrings : Z) (_ : Z) (s : list bytes * R) : option (list bytes * R) :=
  '(str, rng) ← for_loop (Z.to_nat lengthStrings) 0 (string_body fuel) (replicate (Z.to_nat lengthStrings) x00, s.2);
  Some (s.1 ++ [str], rng).

Definition generateRandomStrings (fuel : nat) (rng : R) (numStrings lengthStrings : Z) (inputVec : list bytes)
    : option (list bytes * R) :=
  for_loop (Z.to_nat numStrings) 0 (generate_body fuel lengthStrings) (inputVec, rng).
End random.

(** ** Files *)

(** The bytes that [c_str()] shows. *)
Fixpoint until_nul (s : bytes) : bytes :=
  match s with
  | [] => []
  | b :: s => if bool_decide (b = x00) then [] else b :: until_nul s
  end.

(** [myfile << x.c_str() << '\0'], after what the file held when [append] is set *)
Definition writeStringBinaryFile (file : bytes) (inputVec : list bytes) (append : bool) : bytes :=
  (if append then file else []) ++ concat ((λ x, until_nul x ++ [x00]) <$> inputVec).

(** [if (s.length() != 0) inputVec.push_back(s);] *)
Definition push_nonempty (s : bytes) (inputVec : list bytes) : list bytes :=
  if (length s =? 0)%nat then inputVec else inputVec ++ [s].

(** [while (!myfile.eof()) { std::getline(myfile, s, '\0'); ... }]: [s] is what was read of the line. *)
Fixpoint read_nul_lines (s : bytes) (file : bytes) (inputVec : list bytes) : list bytes :=
  match file with
  | [] => push_nonempty s inputVec
  | b :: file =>
      if bool_decide (b = x00) then read_nul_lines [] file (push_nonempty s inputVec)
      else read_nul_lines (s ++ [b]) file inputVec
  end.

Definition readStringBinaryFile (file : bytes) (inputVec : list bytes) : list bytes := read_nul_lines [] file inputVec.

(** ** What is read back *)

Lemma read_nul_line l : ∀ s rest inputVec,
  Forall (λ b, b ≠ x00) l →
  read_nul_lines s (l ++ x00 :: rest) inputVec = read_nul_lines [] rest (push_nonempty (s ++ l) inputVec).
Proof.
  induction l as [|b l IH]; intros s rest inputVec Hl; cbn [read_nul_lines app]; [by rewrite app_nil_r|].
  apply Forall_cons in Hl as [Hb Hl]. rewrite bool_decide_eq_false_2 by done. rewrite IH by done. by rewrite <-app_assoc.
Qed.

Lemma until_nul_free s : Forall (λ b, b ≠ x00) (until_nul s).
Proof.
  induction s as [|b s IH]; cbn [until_nul]; [constructor|]. case_bool_decide; [constructor|]. by constructor.
Qed.

Lemma until_nul_id s : Forall (λ b, b ≠ x00) s → until_nul s = s.
Proof. induction 1 as [|b s Hb _ IH]; cbn [until_nul]; [done|]. rewrite bool_decide_eq_false_2 by done. by rewrite IH. Qed.

Lemma read_written l : ∀ inputVec,
  readStringBinaryFile (writeStringBinaryFile [] l false) inputVec
  = inputVec ++ filter (λ s, s ≠ []) (until_nul <$> l).
Proof.
  unfold readStringBinaryFile, writeStringBinaryFile. cbn [app].
  induction l as [|x l IH]; intros inputVec; [by rewrite app_nil_r|]. rewrite !fmap_cons. cbn [concat].
  rewrite <-app_assoc. cbn [app]. rewrite read_nul_line by apply until_nul_free. rewrite IH. cbn [app].
  unfold push_nonempty. destruct (until_nul x) as [|b s]; cbn [length Nat.eqb].
  - by rewrite filter_cons_False by (intros H; by apply H).
  - rewrite filter_cons_True by done. by rewrite <-app_assoc.
Qed.

Section generated.
Context {R : Type} (bytes_randomizer : R → byte * R).
Local Abbreviation nth_state n rng := (Nat.iter n (λ rng, (bytes_randomizer rng).2) rng).

Lemma draw_nonzero_ok fuel : ∀ rng,
  (∃ n, (n < fuel)%nat ∧ (bytes_randomizer (nth_state n rng)).1 ≠ x00) →
  ∃ b rng', draw_nonzero bytes_randomizer fuel rng = Some (b, rng') ∧ b ≠ x00.
Proof using.
  induction fuel as [|fuel IH]; intros rng (n & Hn & Hb); [lia|].
  unfold draw_nonzero. cbn [while fst snd]. rewrite bool_decide_eq_true_2 by done. cbn [mbind option_bind].
  destruct (decide ((bytes_randomizer rng).1 = x00)) as [H0|H0].
  - destruct n as [|n]; [done|]. rewrite Nat.iter_succ_r in Hb.
    destruct (IH (bytes_randomizer rng).2) as (b & rng' & Hd & Hb'); [exists n; split; [lia|done]|].
    exists b, rng'. split; [|done]. rewrite <-Hd. unfold draw_nonzero. rewrite <-H0.
    by destruct (bytes_randomizer rng).
  - destruct (bytes_randomizer rng) as [b rng']. cbn [fst] in H0. exists b, rng'. split; [|done].
    destruct fuel; cbn [while fst snd]; by rewrite bool_decide_eq_false_2.
Qed.

(** From every state a byte that is not NUL comes within [fuel] draws. *)
Context (fuel : nat) (Hfair : ∀ rng, ∃ n, (n < fuel)%nat ∧ (bytes_randomizer (nth_state n rng)).1 ≠ x00).

Lemma random_string_ok n rng :
  ∃ str rng', for_loop n 0 (string_body bytes_randomizer fuel) (replicate n x00, rng) = Some (str, rng') ∧
    length str = n ∧ Forall (λ b, b ≠ x00) str.
Proof using Hfair.
  destruct (for_loop_total (λ i (s : bytes * R), 0 ≤ i ∧ length s.1 = n ∧ Forall (λ b, b ≠ x00) (take (Z.to_nat i) s.1))
    (string_body bytes_randomizer fuel) n 0 (replicate n x00, rng)) as ([str rng'] & Hrun & _ & Hl & Hf).
  - split; [done|]. split; [apply length_replicate|]. cbn. constructor.
  - intros i [s r] Hi (Hi0 & Hl & Hf). cbn [fst] in *. unfold string_body. cbn [fst snd].
    destruct (draw_nonzero_ok fuel r (Hfair r)) as (b & r' & -> & Hb). cbn [mbind option_bind].
    rewrite (proj2 (Z.ltb_lt _ _)) by lia. eexists. split; [done|]. cbn [fst]. split; [lia|].
    split; [by rewrite length_insert|]. replace (Z.to_nat (i + 1)) with (S (Z.to_nat i)) by lia.
    rewrite (take_S_r _ _ b) by (apply list_lookup_insert_eq; lia).
    rewrite take_insert_ge by lia. apply Forall_app. split; [done|by constructor].
  - exists str, rng'. split; [done|]. cbn [fst] in *. split; [done|]. rewrite Z.add_0_l, Nat2Z.id, take_ge in Hf by lia. done.
Qed.

Lemma random_strings_ok rng numStrings lengthStrings inputVec :
  ∃ new rng', generateRandomStrings bytes_randomizer fuel rng numStrings lengthStrings inputVec
      = Some (inputVec ++ new, rng') ∧ length new = Z.to_nat numStrings ∧
    Forall (λ s : bytes, length s = Z.to_nat lengthStrings ∧ Forall (λ b, b ≠ x00) s) new.
Proof using Hfair.
  destruct (for_loop_total (λ i (s : list bytes * R), ∃ new, s.1 = inputVec ++ new ∧ Z.of_nat (length new) = i ∧
      Forall (λ s : bytes, length s = Z.to_nat lengthStrings ∧ Forall (λ b, b ≠ x00) s) new)
    (generate_body bytes_randomizer fuel lengthStrings) (Z.to_nat numStrings) 0 (inputVec, rng))
    as ([v rng'] & Hrun & new & Hv & Hl & Hf).
  - exists []. by rewrite app_nil_r.
  - intros i [v r] Hi (new & Hv & Hl & Hf). cbn [fst] in Hv. subst v. unfold generate_body. cbn [fst snd].
    destruct (random_string_ok (Z.to_nat lengthStrings) r) as (str & r' & -> & Hls & Hfs). cbn [mbind option_bind].
    eexists. split; [done|]. exists (new ++ [str]). cbn [fst]. rewrite app_assoc. split; [done|].
    split; [rewrite length_app; cbn [length]; lia|]. apply Forall_app. split; [done|by repeat constructor].
  - cbn [fst] in Hv. subst v. exists new, rng'. split; [done|]. split; [lia|done].
Qed.

(** C40: The synthetic data: with an engine that always comes to a byte other than 0 within [fuel]
    draws, [generateRandomStrings] ends, with [numStrings] new strings of [lengthStrings]
    bytes without a NUL, and the file [writeStringBinaryFile] makes of them is read back as it
    was by [readStringBinaryFile] when the length is not 0. *)
Theorem random_strings_reload rng numStrings lengthStrings inputVec :
  0 < lengthStrings →
  ∃ new rng', generateRandomStrings bytes_randomizer fuel rng numStrings lengthStrings []
      = Some (new, rng') ∧ length new = Z.to_nat numStrings ∧
    Forall (λ s : bytes, Z.of_nat (length s) = lengthStrings) new ∧
    readStringBinaryFile (writeStringBinaryFile [] new false) inputVec = inputVec ++ new.
Proof using Hfair.
  intros H0. destruct (random_strings_ok rng numStrings lengthStrings []) as (new & rng' & Hrun & Hl & Hf).
  exists new, rng'. split; [done|]. split; [done|]. split.
  - eapply Forall_impl; [exact Hf|]. intros s [Hs _]. cbv beta. lia.
  - rewrite read_written. f_equal. clear Hrun Hl.
    induction Hf as [|s l [Hs Hfs] _ IH]; [done|]. rewrite fmap_cons, until_nul_id by done.
    rewrite filter_cons_True by (intros ->; cbn in Hs; lia). by rewrite IH.
Qed.
End generated.

(** In general an empty string is lost, and a string is cut at its first NUL; appending adds the
    strings to those that are read. *)
Example binary_file_lossy :
  readStringBinaryFile (writeStringBinaryFile [] [[x61]; []; [x62; x00; x63]] false) [] = [[x61]; [x62]] ∧
  readStringBinaryFile (writeStringBinaryFile (writeStringBinaryFile [] [[x61]] false) [[x62]] true) [] = [[x61]; [x62]].
Proof. split; reflexivity. Qed.

(** An engine that alternates 0 and a letter. *)
Definition demo_engine (rng : bool) : byte * bool := (if rng then x61 else x00, negb rng).

Lemma random_strings_reload_witness :
  ∃ new rng', generateRandomStrings demo_engine 2 false 3 2 [] = Some (new, rng') ∧
    readStringBinaryFile (writeStringBinaryFile [] new false) [] = new.
Proof.
  destruct (random_strings_reload demo_engine 2) with (rng := false) (numStrings := 3) (lengthStrings := 2)
    (inputVec := @nil bytes) as (new & rng' & Hrun & _ & _ & Hread).
  - intros [|]; [exists 0%nat|exists 1%nat]; (split; [lia|discriminate]).
  - lia.
  - exists new, rng'. split; [exact Hrun|exact Hread].
Defined.
