(* ===== verification/SmallHashes.v ===== *)
(** * The small hash functions (src/include/hash.hh, src/include/murmurhash2.h,
      src/include/hash/mmh_var.hh, src/include/hash/o1hash.hh)

    MurmurHash2 in its two copies, the sub-key MurmurHash2 variants, the sdbm hash
    and its sub-key variant, and o1hash. [char] is signed, as on the x86 targets
    of the build files. *)
From S2P Require Import Prelude Words Wyhash Xxh3.

(** ** Wrappers of hash.hh around the full-key hashes *)

Definition hash_xxh64 (str : bytes) : option Z := XXH3_64bits str (Z.of_nat (length str)).
Definition hash_xxh64_s (str : bytes) : option Z := hash_xxh64 str.
Definition hash_wyhash_s (str : bytes) : option Z := wyhash_default str (Z.of_nat (length str)).

(** ** MurmurHash2 *)

Definition mmh2_m : Z := 0x5bd1e995.

(** [k *= m; k ^= k >> r; k *= m;] on an [unsigned int]. *)
Definition mmh2_mix_k (k : Z) : Z :=
  let k := u32 (k * mmh2_m) in
  let k := Z.lxor k (Z.shiftr k 24) in
  u32 (k * mmh2_m).

(** One turn of the loop on [(h, data, len)]. *)
Definition mmh2_body (p : bytes) (s : Z * Z * Z) : option (Z * Z * Z) :=
  let '(h, data, len) := s in
  k ← load_le 4 p data;
  let k := mmh2_mix_k k in
  let h := u32 (h * mmh2_m) in
  let h := Z.lxor h k in
  Some (h, data + 4, len - 4).

(** The [switch] on the bytes that remain, each case falling through. *)
Definition mmh2_case1 (p : bytes) (data h : Z) : option Z :=
  b ← load_byte p data; Some (u32 (Z.lxor h b * mmh2_m)).
Definition mmh2_case2 (p : bytes) (data h : Z) : option Z :=
  b ← load_byte p (data + 1); mmh2_case1 p data (Z.lxor h (Z.shiftl b 8)).
Definition mmh2_case3 (p : bytes) (data h : Z) : option Z :=
  b ← load_byte p (data + 2); mmh2_case2 p data (Z.lxor h (Z.shiftl b 16)).
Definition mmh2_switch (p : bytes) (data len h : Z) : option Z :=
  if len =? 3 then mmh2_case3 p data h
  else if len =? 2 then mmh2_case2 p data h
  else if len =? 1 then mmh2_case1 p data h
  else Some h.

Definition mmh2_final (h : Z) : Z :=
  let h := Z.lxor h (Z.shiftr h 13) in
  let h := u32 (h * mmh2_m) in
  Z.lxor h (Z.shiftr h 15).

(** [len] is an [int]. *)
Definition orig_murmurhash2 (key : bytes) (len seed : Z) : option Z :=
  let h := Z.lxor seed (u32 len) in
  '(h, data, len) ← while (Z.to_nat len) (λ s, 4 <=? s.2) (mmh2_body key) (h, 0, len);
  h ← mmh2_switch key data len h;
  Some (mmh2_final h).

Definition hash_mmh2_s (str : bytes) : option Z :=
  let seed := 0 in
  let len := to_i32 (Z.of_nat (length str)) in
  let h := u32 (Z.lxor seed len) in
  '(h, data, len) ← while (Z.to_nat len) (λ s, 4 <=? s.2) (mmh2_body str) (h, 0, len);
  h ← mmh2_switch str data len h;
  Some (mmh2_final h).

(** ** Sub-key MurmurHash2 *)

(** The body of both loops: [k] is 32 bits wide, [h] and [m] 64. *)
Definition sub4_step (str : bytes) (h loc : Z) : option Z :=
  k ← load_le 4 str (4 * loc);
  let k := mmh2_mix_k k in
  let h := u64 (h * mmh2_m) in
  Some (Z.lxor h k).

(** [h = step(h, data[loc]); i++; loc = locations[i];] *)
Definition sub4_body (str : bytes) (locations : list Z) (s : Z * Z * Z) : option (Z * Z * Z) :=
  let '(h, i, loc) := s in
  h ← sub4_step str h loc;
  let i := i + 1 in
  l ← arr_get locations i;
  Some (h, i, u32 l).

Definition hash_sub4_mmh2 (str : bytes) (locations : list Z) (nlocs : Z) : option Z :=
  let h := Z.of_nat (length str) in
  let len := Z.of_nat (length str) / 4 in
  l ← arr_get locations 0;
  '(h, _, _) ← while (Z.to_nat nlocs) (λ s, (s.2 <? len) && (s.1.2 <? nlocs))
    (sub4_body str locations) (h, 0, u32 l);
  Some h.

(** [nlocs] is unsigned here. *)
Definition hash_sub4_mmh2_cust (str : bytes) (locations : list Z) (nlocs : Z) : option Z :=
  let h := Z.of_nat (length str) in
  let len := Z.of_nat (length str) / 4 in
  l ← arr_get locations 0;
  last ← arr_get locations (u32 (nlocs - 1));
  if u32 last <? len then
    for_loop (Z.to_nat nlocs) 0
      (λ i h, l ← arr_get locations i; sub4_step str h (u32 l)) h
  else
    '(h, _, _) ← while (Z.to_nat nlocs) (λ s, (s.2 <? len) && (s.1.2 <? u32 (nlocs - 1)))
      (sub4_body str locations) (h, 0, u32 l);
    Some h.

(** The functor holds the array of locations and its length. *)
Definition hash_sub4_mmh2_s (locs : list Z) (kbytes : Z) (str : bytes) : option Z :=
  hash_sub4_mmh2_cust str locs (u32 kbytes).

(** ** sdbm *)

(** [str[i]] as a signed [char]; the terminating NUL can be read. *)
Definition char_at (str : bytes) (i : Z) : option Z :=
  if i =? Z.of_nat (length str) then Some 0
  else b ← load_byte str i; Some (if b <? 128 then b else b - 256).

Definition sdbm_step (c hash : Z) : Z :=
  u64 (u64 (c + u64 (Z.shiftl hash 6) + u64 (Z.shiftl hash 16)) - hash).

Definition hash_sdbm_s (str : bytes) : option Z :=
  for_loop (length str) 0 (λ i hash, c ← char_at str i; Some (sdbm_step c hash)) 0.

(** One turn of the loop over the [k] locations. *)
Definition sub1_body (str : bytes) (locations : list Z) (i hash : Z) : option Z :=
  l ← arr_get locations i;
  if l <? to_i32 (Z.of_nat (length str)) then
    c ← char_at str (u64 l);
    let hash := sdbm_step c hash in
    Some (u64 (hash + c))
  else Some hash.

Definition hash_sub1_sdbm (str : bytes) (locations : list Z) (k : Z) : option Z :=
  for_loop (Z.to_nat k) 0 (sub1_body str locations) (Z.of_nat (length str)).

Definition hash_sub1_sdbm_s (locs : list Z) (kbytes : Z) (str : bytes) : option Z :=
  hash_sub1_sdbm str locs kbytes.

(** ** o1hash *)

Definition _o1r4 (p : bytes) (off : Z) : option Z := load_le 4 p off.

Definition o1hash (key : bytes) (len : Z) : option Z :=
  if 4 <=? len then
    first ← _o1r4 key 0;
    middle ← _o1r4 key (Z.shiftr len 1 - 2);
    last ← _o1r4 key (len - 4);
    Some (u64 (u32 (first + last) * middle))
  else if negb (len =? 0) then
    a ← load_byte key 0;
    b ← load_byte key (Z.shiftr len 1);
    c ← load_byte key (len - 1);
    let tail := Z.lor (Z.lor (u32 (Z.shiftl a 16)) (u32 (Z.shiftl b 8))) c in
    Some (u64 (tail * 0xa0761d6478bd642f))
  else Some 0.

(** ** MurmurHash2: reads, termination and range *)

Lemma mmh2_mix_k_fits k : fits 32 (mmh2_mix_k k).
Proof. unfold mmh2_mix_k. solve_fits. Qed.

(** The invariant of the loop: [h] is a 32-bit value and [data + len] is the end
    of the key. *)
Lemma mmh2_loop_ok p h :
  fits 32 h →
  ∃ h' data len,
    while (length p) (λ s, 4 <=? s.2) (mmh2_body p) (h, 0, Z.of_nat (length p))
      = Some (h', data, len) ∧
    fits 32 h' ∧ 0 ≤ data ∧ 0 ≤ len < 4 ∧ data + len = Z.of_nat (length p).
Proof.
  intros Hh.
  set (inv := λ s : Z * Z * Z,
    fits 32 s.1.1 ∧ 0 ≤ s.1.2 ∧ 0 ≤ s.2 ∧ s.1.2 + s.2 = Z.of_nat (length p)).
  destruct (while_total inv (λ s, Z.to_nat s.2) (λ s, 4 <=? s.2) (mmh2_body p))
    with (fuel := length p) (s := (h, 0, Z.of_nat (length p)))
    as ([[h' data] len] & -> & (Hf & Hd & Hl & Hend) & Hc).
  - intros [[h1 data] len] (Hf & Hd & Hl & Hend) Hc%Z.leb_le. cbn [fst snd] in *.
    unfold mmh2_body.
    destruct (load_le_in_bounds 4 p data) as (k & -> & _); [lia..|]. cbn [mbind option_bind].
    eexists. split; [done|]. unfold inv; cbn [fst snd]. split; [|lia].
    pose proof (mmh2_mix_k_fits k). split; [|lia]. solve_fits.
  - unfold inv; cbn [fst snd]. auto with lia.
  - cbn [snd]. lia.
  - cbn [fst snd] in *. apply Z.leb_gt in Hc. exists h', data, len. auto with lia.
Qed.

Lemma mmh2_switch_ok p data len h :
  fits 32 h → 0 ≤ data → 0 ≤ len → data + len = Z.of_nat (length p) →
  ∃ h', mmh2_switch p data len h = Some h' ∧ fits 32 h'.
Proof.
  intros Hf Hd Hl Hend. unfold mmh2_switch, mmh2_case3, mmh2_case2, mmh2_case1.
  case_bool; subst;
    repeat match goal with |- context [load_byte p ?o] =>
      let b := fresh "b" in destruct (load_byte_in_bounds p o) as (b & -> & _); [lia|];
      cbn [mbind option_bind] end;
    eexists; (split; [done|]); first [done|apply fits_wrap; lia].
Qed.

Lemma orig_murmurhash2_ok p seed :
  fits 32 seed → ∃ h, orig_murmurhash2 p (Z.of_nat (length p)) seed = Some h ∧ fits 32 h.
Proof.
  intros Hs. unfold orig_murmurhash2. rewrite Nat2Z.id.
  destruct (mmh2_loop_ok p (Z.lxor seed (u32 (Z.of_nat (length p))))) as (h & d & l & -> & Hf & Hd & Hl & Hend).
  { solve_fits. }
  cbn [mbind option_bind].
  destruct (mmh2_switch_ok p d l h) as (h' & -> & Hf'); [done|lia..|].
  eexists. split; [done|]. unfold mmh2_final. solve_fits.
Qed.

Lemma mmh2_copies_ok str :
  Z.of_nat (length str) < 2 ^ 31 →
  ∃ h, hash_mmh2_s str = Some h ∧
       orig_murmurhash2 str (Z.of_nat (length str)) 0 = Some h ∧ fits 32 h.
Proof.
  intros Hlen.
  assert (hash_mmh2_s str = orig_murmurhash2 str (Z.of_nat (length str)) 0) as Heq.
  { unfold hash_mmh2_s, orig_murmurhash2, to_i32. rewrite (wrap_small 32 (_ + _)) by (split; lia).
    rewrite Z.add_simpl_r, !Z.lxor_0_l. done. }
  rewrite Heq. destruct (orig_murmurhash2_ok str 0) as (h & -> & Hf); [split; lia|by exists h].
Qed.

(** On every string an [int] can measure, both copies of MurmurHash2 compute
    the same 32-bit value (seed 0), without reading outside the string. *)
Theorem mmh2_copies_agree str :
  Z.of_nat (length str) < 2 ^ 31 →
  ∃ h, hash_mmh2_s str = Some h ∧
       orig_murmurhash2 str (Z.of_nat (length str)) 0 = Some h ∧ fits 32 h.
Proof. apply mmh2_copies_ok. Qed.

Lemma mmh2_copies_agree_witness :
  let str := [x61; x62; x63; x64; x65; x66; x67] in
  ∃ h, hash_mmh2_s str = Some h ∧ orig_murmurhash2 str 7 0 = Some h ∧ fits 32 h.
Proof. intros str. apply (mmh2_copies_agree str). vm_compute. reflexivity. Defined.

(** ** Sub-key MurmurHash2: the two loops

    Both are a fold of [sub4_step] over the longest prefix of the locations whose
    words are inside the string. *)

Fixpoint sub4_spec (str : bytes) (locs : list Z) (h : Z) : option Z :=
  match locs with
  | [] => Some h
  | l :: locs =>
      if l <? Z.of_nat (length str) / 4
      then h ← sub4_step str h l; sub4_spec str locs h else Some h
  end.

Lemma sub4_step_total str h l :
  0 ≤ l < Z.of_nat (length str) / 4 → ∃ h', sub4_step str h l = Some h'.
Proof.
  intros Hl. unfold sub4_step.
  destruct (load_le_in_bounds 4 str (4 * l)) as (k & -> & _).
  - lia.
  - pose proof (Z.mul_div_le (Z.of_nat (length str)) 4). lia.
  - eauto.
Qed.

(** The [while] loop from position [i]: [n] locations may still be consumed, and
    one more entry of the array is read. *)
Lemma sub4_while_spec str locations bound :
  let len := Z.of_nat (length str) / 4 in
  ∀ n fuel h i l,
    (n ≤ fuel)%nat → bound = i + Z.of_nat n → 0 ≤ i →
    Forall (λ l, 0 ≤ l < 2 ^ 31) locations →
    (S (Z.to_nat i + n) ≤ length locations)%nat →
    locations !! Z.to_nat i = Some l →
    ∃ i' l', (s ← while fuel (λ s, (s.2 <? len) && (s.1.2 <? bound))
        (sub4_body str locations) (h, i, l); Some s) =
      (h' ← sub4_spec str (take n (drop (Z.to_nat i) locations)) h; Some (h', i', l')).
Proof.
  intros len. induction n as [|n IH]; intros fuel h i l Hfuel Hb Hi Hlocs Hlen Hl.
  - exists i, l. rewrite take_0. simpl sub4_spec. destruct fuel; cbn [while fst snd];
      rewrite (proj2 (Z.ltb_ge i bound)), andb_false_r by lia; done.
  - rewrite (drop_S _ _ _ Hl). cbn [firstn]. simpl sub4_spec. fold len.
    destruct fuel as [|fuel]; [lia|]. cbn [while fst snd].
    rewrite (proj2 (Z.ltb_lt i bound)), andb_true_r by lia.
    destruct (l <? len) eqn:Hlt; [|by exists i, l].
    apply Z.ltb_lt in Hlt.
    assert (0 ≤ l < 2 ^ 31) as Hl31 by (eapply Forall_lookup_1 in Hlocs; eauto).
    destruct (sub4_step_total str h l) as [h1 Hh1]; [subst len; lia|].
    unfold sub4_body at 2. rewrite Hh1. cbn [mbind option_bind].
    destruct (lookup_lt_is_Some_2 locations (Z.to_nat (i + 1))) as [l1 Hl1]; [lia|].
    rewrite (arr_get_lookup _ (i + 1) l1 ltac:(lia) Hl1).
    cbn [mbind option_bind].
    assert (0 ≤ l1 < 2 ^ 31) by (eapply Forall_lookup_1 in Hlocs; eauto).
    rewrite (wrap_small 32 l1) by (split; lia).
    replace (S (Z.to_nat i)) with (Z.to_nat (i + 1)) by lia.
    apply IH; [lia..|done|lia|done].
Qed.

Lemma sub4_for_spec str locations :
  ∀ n i h,
    0 ≤ i → (Z.to_nat i + n ≤ length locations)%nat →
    Forall (λ l, 0 ≤ l < 2 ^ 31 ∧ l < Z.of_nat (length str) / 4) (take n (drop (Z.to_nat i) locations)) →
    for_loop n i (λ i h, l ← arr_get locations i; sub4_step str h (u32 l)) h
      = sub4_spec str (take n (drop (Z.to_nat i) locations)) h.
Proof.
  induction n as [|n IH]; intros i h Hi Hlen Hall; [done|].
  destruct (lookup_lt_is_Some_2 locations (Z.to_nat i)) as [l Hl]; [lia|].
  rewrite (drop_S _ _ _ Hl) in *. cbn [firstn] in *.
  apply Forall_cons in Hall as [[Hl31 Hlt] Hall]. cbn [for_loop]. simpl sub4_spec.
  rewrite (arr_get_lookup _ _ _ Hi Hl).
  cbn [mbind option_bind]. rewrite (wrap_small 32 l) by (split; lia).
  rewrite (proj2 (Z.ltb_lt _ _)) by lia.
  destruct (sub4_step str h l) as [h1|]; cbn [mbind option_bind]; [|done].
  replace (S (Z.to_nat i)) with (Z.to_nat (i + 1)) in * by lia. apply IH; [lia|lia|done].
Qed.

Lemma sub4_spec_total str locs :
  Forall (λ l, 0 ≤ l < 2 ^ 31) locs → ∀ h, is_Some (sub4_spec str locs h).
Proof.
  induction 1 as [|x l Hx _ IH]; intros h; simpl; [by eauto|]. case_bool; [|eauto].
  destruct (sub4_step_total str h x) as [h' ->]; [lia|]. simpl. auto.
Qed.

(** A last location outside the string is never consumed. *)
Lemma sub4_spec_snoc str locs l h :
  Z.of_nat (length str) / 4 ≤ l → sub4_spec str (locs ++ [l]) h = sub4_spec str locs h.
Proof.
  intros Hl. revert h. induction locs as [|l' locs IH]; intros h; simpl.
  - by rewrite (proj2 (Z.ltb_ge _ _)).
  - destruct (l' <? _); [|done]. destruct (sub4_step str h l'); simpl; auto.
Qed.

Lemma sorted_le_last (l : list Z) x y :
  StronglySorted Z.lt (l ++ [x]) → y ∈ l → y < x.
Proof.
  induction l as [|a l IH]; simpl; intros Hs Hy; [by apply elem_of_nil in Hy|].
  apply StronglySorted_inv in Hs as [Hs Ha]. apply elem_of_cons in Hy as [->|Hy]; [|auto].
  rewrite Forall_forall in Ha. apply Ha. apply elem_of_app. right. by apply list_elem_of_singleton.
Qed.

(** The vectors the two functions are meant for: [nlocs] increasing offsets. *)
Definition sub4_wf (locations : list Z) (nlocs : nat) : Prop :=
  (0 < nlocs ≤ length locations)%nat ∧ Z.of_nat nlocs < 2 ^ 31 ∧
  StronglySorted Z.lt (take nlocs locations) ∧ Forall (λ l, 0 ≤ l < 2 ^ 31) locations.

Lemma hash_sub4_mmh2_cust_spec str locations nlocs :
  sub4_wf locations nlocs →
  hash_sub4_mmh2_cust str locations (Z.of_nat nlocs)
    = sub4_spec str (take nlocs locations) (Z.of_nat (length str)).
Proof.
  intros (Hn & Hn31 & Hs & Hall). unfold hash_sub4_mmh2_cust.
  destruct (lookup_lt_is_Some_2 locations 0) as [l0 Hl0]; [lia|].
  destruct (lookup_lt_is_Some_2 locations (nlocs - 1)) as [x Hx]; [lia|].
  assert (take nlocs locations = take (nlocs - 1) locations ++ [x]) as Hsnoc.
  { replace nlocs with (S (nlocs - 1)) at 1 by lia. by apply take_S_r. }
  assert (0 ≤ l0 < 2 ^ 31 ∧ 0 ≤ x < 2 ^ 31) as [H0 H1] by (split; eapply Forall_lookup_1 in Hall; eauto).
  rewrite (wrap_small 32 (Z.of_nat nlocs - 1)) by (split; lia).
  rewrite (arr_get_lookup _ 0 l0 ltac:(lia) Hl0).
  rewrite (arr_get_lookup _ (Z.of_nat nlocs - 1) x)
    by (lia || by replace (Z.to_nat (Z.of_nat nlocs - 1)) with (nlocs - 1)%nat by lia).
  cbn [mbind option_bind].
  rewrite (wrap_small 32 x), (wrap_small 32 l0), Nat2Z.id by (split; lia).
  destruct (x <? _) eqn:Hlt.
  - apply Z.ltb_lt in Hlt. rewrite (sub4_for_spec str locations nlocs 0) by
      (first [lia | apply Forall_forall; intros y Hy; change (Z.to_nat 0) with 0%nat in Hy;
        rewrite drop_0 in Hy; split;
        [apply elem_of_take in Hy as (j & Hj & _); eapply Forall_lookup_1 in Hall; eauto
        |rewrite Hsnoc in Hy, Hs; apply elem_of_app in Hy as [Hy|Hy%list_elem_of_singleton];
         [pose proof (sorted_le_last _ _ _ Hs Hy); lia|lia]]]).
    by rewrite drop_0.
  - apply Z.ltb_ge in Hlt. rewrite Hsnoc, sub4_spec_snoc by done.
    destruct (sub4_while_spec str locations (Z.of_nat nlocs - 1) (nlocs - 1) nlocs
      (Z.of_nat (length str)) 0 l0) as (i' & l' & Hw); [lia|lia|lia|done|lia|done|].
    cbv zeta in Hw. change (Z.to_nat 0) with 0%nat in Hw. rewrite drop_0 in Hw.
    destruct (while _ _ _ _) as [[[h i] l]|], (sub4_spec _ _ _); simpl in *; congruence.
Qed.

Lemma hash_sub4_mmh2_spec str locations nlocs :
  sub4_wf locations nlocs → (nlocs < length locations)%nat →
  hash_sub4_mmh2 str locations (Z.of_nat nlocs)
    = sub4_spec str (take nlocs locations) (Z.of_nat (length str)).
Proof.
  intros (Hn & Hn31 & Hs & Hall) Hlong. unfold hash_sub4_mmh2.
  destruct (lookup_lt_is_Some_2 locations 0) as [l0 Hl0]; [lia|].
  assert (0 ≤ l0 < 2 ^ 31) by (eapply Forall_lookup_1 in Hall; eauto).
  rewrite (arr_get_lookup _ 0 l0 ltac:(lia) Hl0). cbn [mbind option_bind].
  rewrite (wrap_small 32 l0), Nat2Z.id by (split; lia).
  destruct (sub4_while_spec str locations (Z.of_nat nlocs) nlocs nlocs
    (Z.of_nat (length str)) 0 l0) as (i' & l' & Hw); [lia|lia|lia|done|lia|done|].
  cbv zeta in Hw. change (Z.to_nat 0) with 0%nat in Hw. rewrite drop_0 in Hw.
  destruct (while _ _ _ _) as [[[h i] l]|], (sub4_spec _ _ _); simpl in *; congruence.
Qed.

(** With increasing locations and one more readable entry after them, the
    unrolled [hash_sub4_mmh2_cust] and the simple loop [hash_sub4_mmh2] return the
    same hash, the fold of the mixing step over the locations inside the string. *)
Theorem hash_sub4_mmh2_cust_equiv str locations nlocs :
  sub4_wf locations nlocs → (nlocs < length locations)%nat →
  hash_sub4_mmh2_cust str locations (Z.of_nat nlocs) = hash_sub4_mmh2 str locations (Z.of_nat nlocs)
  ∧ ∃ h, hash_sub4_mmh2 str locations (Z.of_nat nlocs) = Some h.
Proof.
  intros Hwf Hlong. rewrite hash_sub4_mmh2_cust_spec, hash_sub4_mmh2_spec by done.
  split; [done|]. destruct Hwf as (_ & _ & _ & Hall).
  by apply sub4_spec_total, Forall_take.
Qed.

Lemma hash_sub4_mmh2_cust_equiv_witness :
  hash_sub4_mmh2_cust [x61; x62; x63; x64; x65; x66; x67; x68] [0; 1; 4; 7] 3
    = hash_sub4_mmh2 [x61; x62; x63; x64; x65; x66; x67; x68] [0; 1; 4; 7] 3.
Proof.
  apply (hash_sub4_mmh2_cust_equiv _ [0; 1; 4; 7] 3); [|simpl; lia].
  split; [simpl; lia|]. split; [lia|]. split; [|vm_decide].
  apply Sorted_StronglySorted; [intros ?; lia|]. simpl. repeat constructor; lia.
Defined.

(** Without the extra entry the loop reads past the end of the array. *)
Lemma sub4_while_overrun str locations :
  let len := Z.of_nat (length str) / 4 in
  Forall (λ l, 0 ≤ l < 2 ^ 31 ∧ l < len) locations →
  ∀ fuel h i l, 0 ≤ i → locations !! Z.to_nat i = Some l →
    while fuel (λ s, (s.2 <? len) && (s.1.2 <? Z.of_nat (length locations)))
      (sub4_body str locations) (h, i, l) = None.
Proof.
  intros len Hall fuel. induction fuel as [|fuel IH]; intros h i l Hi Hl;
    pose proof (lookup_lt_Some _ _ _ Hl);
    pose proof (Forall_lookup_1 _ _ _ _ Hall Hl) as [? ?]; cbn [while fst snd];
    rewrite (proj2 (Z.ltb_lt _ _)), (proj2 (Z.ltb_lt _ _)) by lia; cbn [andb]; [done|].
  unfold sub4_body at 2. destruct (sub4_step str h l) as [h'|]; cbn [mbind option_bind]; [|done].
  destruct (arr_get locations (i + 1)) as [l'|] eqn:Hl'; cbn [mbind option_bind]; [|done].
  apply arr_get_Some in Hl' as [? Hl'].
  pose proof (Forall_lookup_1 _ _ _ _ Hall Hl') as [? ?].
  rewrite (wrap_small 32 l') by (split; lia). apply IH; [lia|done].
Qed.

Lemma hash_sub4_mmh2_reads_past str locations :
  (0 < length locations)%nat → Forall (λ l, 0 ≤ l < 2 ^ 31 ∧ l < Z.of_nat (length str) / 4) locations →
  hash_sub4_mmh2 str locations (Z.of_nat (length locations)) = None.
Proof.
  intros Hn Hall. unfold hash_sub4_mmh2. destruct (lookup_lt_is_Some_2 locations 0) as [l0 Hl0]; [lia|].
  pose proof (Forall_lookup_1 _ _ _ _ Hall Hl0) as [? ?].
  rewrite (arr_get_lookup _ 0 l0 ltac:(lia) Hl0). cbn [mbind option_bind].
  rewrite (wrap_small 32 l0) by (split; lia).
  by rewrite sub4_while_overrun.
Qed.

(** [hash_sub4_mmh2] given exactly its [nlocs] locations, all inside the
    string, reads [locations[nlocs]]: the call has no defined result, while one
    more entry, whatever its value, gives it one. *)
Theorem hash_sub4_mmh2_overrun str locations extra :
  let nlocs := length locations in
  sub4_wf locations nlocs → 0 ≤ extra < 2 ^ 31 →
  Forall (λ l, l < Z.of_nat (length str) / 4) locations →
  hash_sub4_mmh2 str locations (Z.of_nat nlocs) = None ∧
  is_Some (hash_sub4_mmh2 str (locations ++ [extra]) (Z.of_nat nlocs)).
Proof.
  intros nlocs (Hn & Hn31 & Hs & Hall) Hextra Hin. split.
  - apply hash_sub4_mmh2_reads_past; [lia|]. apply Forall_and. done.
  - assert (sub4_wf (locations ++ [extra]) nlocs) as Hwf.
    { split; [rewrite length_app; subst nlocs; lia|]. split; [done|].
      subst nlocs. rewrite take_app_length. rewrite firstn_all in Hs.
      split; [done|]. apply Forall_app. auto. }
    rewrite hash_sub4_mmh2_spec by (done || (rewrite length_app; simpl; lia)).
    apply sub4_spec_total, Forall_take. apply Hwf.
Qed.

Lemma hash_sub4_mmh2_overrun_witness :
  hash_sub4_mmh2 [x61; x62; x63; x64; x65; x66; x67; x68] [0; 1] 2 = None ∧
  is_Some (hash_sub4_mmh2 [x61; x62; x63; x64; x65; x66; x67; x68] ([0; 1] ++ [9]) 2).
Proof.
  apply (hash_sub4_mmh2_overrun _ [0; 1] 9); [|lia|vm_decide].
  split; [simpl; lia|]. split; [simpl; lia|]. split; [|vm_decide].
  apply Sorted_StronglySorted; [intros ?; lia|]. simpl. repeat constructor; lia.
Defined.

(** ** sdbm is the evaluation of a polynomial at 65599 *)

Definition schar (b : byte) : Z := if byteZ b <? 128 then byteZ b else byteZ b - 256.

Lemma char_at_lookup str i b :
  str !! Z.to_nat i = Some b → 0 ≤ i → char_at str i = Some (schar b).
Proof.
  intros Hb Hi. pose proof (lookup_lt_Some _ _ _ Hb). unfold char_at, load_byte.
  rewrite (proj2 (Z.eqb_neq _ _)), (proj2 (Z.leb_le _ _)), Hb by lia. done.
Qed.

Lemma sdbm_step_mul c h : sdbm_step c h = u64 (c + 65599 * h).
Proof.
  unfold sdbm_step. rewrite !Z.shiftl_mul_pow2 by lia.
  unfold wrap. rewrite Zminus_mod_idemp_l, !(Z.mod_eq (h * _)) by lia.
  rewrite <-(Z_mod_plus_full (c + 65599 * h) (- (h * 2 ^ 6 / 2 ^ 64) - h * 2 ^ 16 / 2 ^ 64)).
  f_equal. ring.
Qed.

Lemma hash_sdbm_s_eq str :
  hash_sdbm_s str = Some (u64 (foldl (λ acc b, acc * 65599 + schar b) 0 str)).
Proof.
  unfold hash_sdbm_s.
  assert (∀ done rest acc,
    for_loop (length rest) (Z.of_nat (length done))
      (λ i hash, c ← char_at (done ++ rest) i; Some (sdbm_step c hash)) (u64 acc)
    = Some (u64 (foldl (λ acc b, acc * 65599 + schar b) acc rest))) as Hgen.
  { intros pre rest. revert pre. induction rest as [|b rest IH]; intros pre acc; [done|].
    cbn [length for_loop foldl].
    rewrite (char_at_lookup _ _ b) by
      (lia || (rewrite Nat2Z.id; rewrite lookup_app_r by done; by rewrite Nat.sub_diag)).
    cbn [mbind option_bind]. rewrite sdbm_step_mul, <-wrap_add_r, wrap_mul_r, wrap_add_r.
    specialize (IH (pre ++ [b]) (acc * 65599 + schar b)).
    rewrite <-app_assoc, length_app in IH. cbn [length app] in IH.
    rewrite <-IH. f_equal; [lia|f_equal; lia]. }
  apply (Hgen [] str 0).
Qed.

(** [hash_sdbm_s] is, modulo [2^64], the polynomial with the characters of the
    string as coefficients, at 65599. *)
Theorem hash_sdbm_polynomial str :
  hash_sdbm_s str = Some (u64 (foldl (λ acc b, acc * 65599 + schar b) 0 str)).
Proof. apply hash_sdbm_s_eq. Qed.

(** ** o1hash *)

Lemma shiftr1_half n : 0 ≤ n → Z.shiftr n 1 = n / 2.
Proof. intros. by rewrite Z.shiftr_div_pow2 by lia. Qed.

(** [o1hash] is defined on every key and is a function of the length and of the
    first, middle and last four bytes alone. *)
Theorem o1hash_samples x y :
  let n := Z.of_nat (length x) in
  length x = length y →
  slice x 0 (Z.to_nat (n `min` 4)) = slice y 0 (Z.to_nat (n `min` 4)) →
  (4 ≤ n → slice x (n / 2 - 2) 4 = slice y (n / 2 - 2) 4 ∧ slice x (n - 4) 4 = slice y (n - 4) 4) →
  ∃ h, o1hash x n = Some h ∧ o1hash y n = Some h ∧ fits 64 h.
Proof.
  intros n Hlen Hfirst Hrest. unfold o1hash, _o1r4. rewrite shiftr1_half by lia. case_bool.
  - destruct Hrest as [Hmid Hlast]; [lia|]. rewrite Z.min_r in Hfirst by lia.
    change (Z.to_nat 4) with 4%nat in Hfirst.
    apply (f_equal (fmap le_combine)) in Hfirst, Hmid, Hlast.
    unfold load_le. rewrite <-Hfirst, <-Hmid, <-Hlast. fold (load_le 4 x).
    assert (2 ≤ n / 2 ∧ n / 2 + 2 ≤ n) by div_lia.
    destruct (load_le_in_bounds 4 x 0) as (a & Ha & _), (load_le_in_bounds 4 x (n / 2 - 2)) as (b & Hb & _),
      (load_le_in_bounds 4 x (n - 4)) as (c & Hc & _); [lia..|].
    unfold load_le in Ha, Hb, Hc. rewrite Ha, Hb, Hc. cbn [mbind option_bind].
    eexists. split; [done|]. split; [done|]. apply fits_wrap; lia.
  - rewrite Z.min_l, !slice_in_bounds in Hfirst by lia.
    subst n. rewrite Nat2Z.id in Hfirst. change (Z.to_nat 0) with 0%nat in Hfirst.
    rewrite !drop_0, firstn_all, Hlen, firstn_all in Hfirst. injection Hfirst as <-.
    destruct (load_byte_in_bounds x 0) as (a & -> & _); [lia|]. cbn [mbind option_bind].
    destruct (load_byte_in_bounds x (Z.of_nat (length x) / 2)) as (b & -> & _); [div_lia|].
    cbn [mbind option_bind].
    destruct (load_byte_in_bounds x (Z.of_nat (length x) - 1)) as (c & -> & _); [lia|].
    cbn [mbind option_bind].
    eexists. split; [done|]. split; [done|]. apply fits_wrap; lia.
  - exists 0. split; [done|]. split; [done|]. split; lia.
Qed.

Lemma o1hash_samples_witness :
  ∃ h, o1hash (replicate 4 x61 ++ [x01] ++ replicate 4 x62 ++ [x02; x03] ++ replicate 4 x63) 15 = Some h ∧
       o1hash (replicate 4 x61 ++ [x05] ++ replicate 4 x62 ++ [x06; x07] ++ replicate 4 x63) 15 = Some h ∧ fits 64 h.
Proof.
  apply (o1hash_samples (replicate 4 x61 ++ [x01] ++ replicate 4 x62 ++ [x02; x03] ++ replicate 4 x63)
    (replicate 4 x61 ++ [x05] ++ replicate 4 x62 ++ [x06; x07] ++ replicate 4 x63));
    [vm_compute; reflexivity..|]. intros _. split; vm_compute; reflexivity.
Defined.
