(* ===== verification/LibBloom.v ===== *)
(** * The libbloom filter (src/libbloom.cpp, src/include/libbloom.h)

    [struct bloom] and its interface: initialisation, the shared
    [bloom_check_add], reset and release, with the return codes of the header. *)
From S2P Require Import Prelude Words Floats BitArray BitFilter SmallHashes.

Record bloom := Bloom {
  b_entries : Z;
  b_error : spec_float;
  b_bits : Z;
  b_bytes : Z;
  b_hashes : Z;
  b_bpe : spec_float;
  b_bf : list Z;
  b_ready : Z
}.

Definition b_with_bf (f : bloom) (bf : list Z) : bloom :=
  Bloom (b_entries f) (b_error f) (b_bits f) (b_bytes f) (b_hashes f) (b_bpe f) bf (b_ready f).
Definition b_with_ready (f : bloom) (ready : Z) : bloom :=
  Bloom (b_entries f) (b_error f) (b_bits f) (b_bytes f) (b_hashes f) (b_bpe f) (b_bf f) ready.

(** Returns the old value of the bit and the buffer. *)
Definition test_bit_set_bit (buf : list Z) (x : Z) (set_bit : bool) : option (Z * list Z) :=
  let byte := Z.shiftr x 3 in
  c ← arr_get buf byte;
  let mask := u32 (Z.shiftl 1 (x `mod` 8)) in
  if negb (Z.land c mask =? 0) then Some (1, buf)
  else if set_bit then buf ← arr_set buf byte (u8 (Z.lor c mask)); Some (0, buf)
  else Some (0, buf).

(** One turn of the loop on [(i, hits, bf, ret)]; [ret] is the early return. The
    [int] [bits] is converted to [unsigned] by [%], and must not be 0. *)
Definition check_add_body (f : bloom) (a b : Z) (add : bool) (s : Z * Z * list Z * option Z)
    : option (Z * Z * list Z * option Z) :=
  let '(i, hits, bf, _) := s in
  if u32 (b_bits f) =? 0 then None else
  let x := u32 (a + u32 (i * b)) `mod` u32 (b_bits f) in
  '(hit, bf) ← test_bit_set_bit bf x add;
  if negb (hit =? 0) then Some (u32 (i + 1), u32 (hits + 1), bf, None)
  else if negb add then Some (i, hits, bf, Some 0)
  else Some (u32 (i + 1), hits, bf, None).

Definition check_add_cond (f : bloom) (s : Z * Z * list Z * option Z) : bool :=
  let '(i, _, _, ret) := s in
  match ret with Some _ => false | None => i <? b_hashes f end.

Definition bloom_check_add (f : bloom) (buffer : bytes) (len : Z) (add : bool) : option (bloom * Z) :=
  if b_ready f =? 0 then Some (f, -1)
  else
    a ← orig_murmurhash2 buffer len 0x9747b28c;
    b ← orig_murmurhash2 buffer len a;
    '(_, hits, bf, ret) ← while (Z.to_nat (b_hashes f)) (check_add_cond f)
      (check_add_body f a b add) (0, 0, b_bf f, None);
    match ret with
    | Some r => Some (b_with_bf f bf, r)
    | None => if hits =? b_hashes f then Some (b_with_bf f bf, 1) else Some (b_with_bf f bf, 0)
    end.

Definition bloom_check (f : bloom) (buffer : bytes) (len : Z) := bloom_check_add f buffer len false.
Definition bloom_add (f : bloom) (buffer : bytes) (len : Z) := bloom_check_add f buffer len true.

(** [calloc] fails on the sizes a negative [int] turns into. *)
Definition bloom_init (log : spec_float → spec_float) (f : bloom) (entries : Z) (error : spec_float)
    : option (bloom * Z) :=
  let f := b_with_ready f 0 in
  if (entries <? 1000) || SFeqb error (f64_of_Z 0) then Some (f, 1)
  else
    let num := log error in
    let denom := f64_lit 480453013918201 15 in
    let bpe := SFopp (f64_div num denom) in
    let dentries := f64_of_Z entries in
    bits ← sf_to_i32 (f64_mul dentries bpe);
    let bytes := if negb (Z.rem bits 8 =? 0) then Z.quot bits 8 + 1 else Z.quot bits 8 in
    hashes ← sf_to_i32 (f64_ceil (f64_mul (f64_lit 693147180559945 15) bpe));
    if bytes <? 0 then
      Some (Bloom entries error bits bytes (u32 hashes) bpe [] 0, 1)
    else
      Some (Bloom entries error bits bytes (u32 hashes) bpe (replicate (Z.to_nat bytes) 0) 1, 0).

Definition bloom_free (f : bloom) : bloom :=
  let f := if negb (b_ready f =? 0) then b_with_bf f [] else f in
  b_with_ready f 0.

(** The [memset] is commented out in the source. *)
Definition bloom_reset (f : bloom) : bloom * Z :=
  if b_ready f =? 0 then (f, 1) else (f, 0).

(** ** Positions *)

Definition lb_position (f : bloom) (a b i : Z) : Z := u32 (a + u32 (i * b)) `mod` u32 (b_bits f).

Definition lb_positions (f : bloom) (x : bytes) : option (list Z) :=
  a ← orig_murmurhash2 x (Z.of_nat (length x)) 0x9747b28c;
  b ← orig_murmurhash2 x (Z.of_nat (length x)) a;
  Some (lb_position f a b <$> seqZ 0 (b_hashes f)).

(** A filter [bloom_init] made ready, with a non-empty array. *)
Definition lb_ok (f : bloom) : Prop :=
  b_ready f = 1 ∧ words_ok 8 (b_bytes f) (b_bf f) ∧ 0 < b_bits f ≤ 8 * b_bytes f ∧
  b_bits f < 2 ^ 31 ∧ 0 ≤ b_hashes f < 2 ^ 32.

#[export] Instance libbloom_filter : BitFilter bloom bytes := {
  bf_add f x := r ← bloom_add f x (Z.of_nat (length x)); Some r.1;
  bf_test f x := r ← bloom_check f x (Z.of_nat (length x)); Some (r.2 =? 1);
  bf_ok := lb_ok;
  bf_bits f := arr_bit 8 (b_bf f);
  bf_positions := lb_positions
}.

(** [test_bit_set_bit] in terms of the bit operations of the other filters. *)
Lemma test_bit_set_bit_spec n buf x add :
  words_ok 8 n buf → 0 ≤ x < 8 * n →
  ∃ buf', test_bit_set_bit buf x add = Some (Z.b2z (arr_bit 8 buf x), buf') ∧ words_ok 8 n buf' ∧
    (add = false → buf' = buf) ∧ (arr_bit 8 buf x = true → buf' = buf) ∧
    (add = true → ∀ q, arr_bit 8 buf' q = arr_bit 8 buf q || bool_decide (q = x)).
Proof.
  intros Hok Hx. assert (0 ≤ Z.shiftr x 3 < n) as Hb.
  { rewrite Z.shiftr_div_pow2 by lia. change (2 ^ 3) with 8. div_lia. }
  assert (8 * Z.shiftr x 3 + x `mod` 8 = x) as Hx8.
  { rewrite Z.shiftr_div_pow2 by lia. change (2 ^ 3) with 8. div_lia. }
  assert (u32 (Z.shiftl 1 (x `mod` 8)) = bit_mask x) as Hmask.
  { unfold bit_mask. change 7 with (Z.ones 3). by rewrite Z.land_ones by lia. }
  pose proof (test_bit_spec n buf Hok (Z.shiftr x 3) x Hb ltac:(lia)) as Ht.
  destruct (set_bit_spec n buf Hok (Z.shiftr x 3) x Hb ltac:(lia)) as (bs & Hs & Hok' & Hbits).
  rewrite Hx8 in Ht, Hbits. unfold test_bit in Ht. unfold set_bit in Hs.
  unfold test_bit_set_bit. rewrite Hmask.
  destruct (arr_get buf (Z.shiftr x 3)) as [c|]; [|done]. cbn [mbind option_bind] in *.
  injection Ht as ->. destruct (arr_bit 8 buf x) eqn:Hbx.
  - exists buf. split; [done|]. split; [done|]. split; [done|]. split; [done|].
    intros _ q. destruct (bool_decide_reflect (q = x)) as [->|]; [by rewrite Hbx|by rewrite orb_false_r].
  - destruct add.
    + rewrite Hs. exists bs. by split_and!.
    + exists buf. by split_and!.
Qed.

Section loop.
Context (f : bloom) (Hok : lb_ok f) (a b : Z).

Lemma lb_position_range i : 0 ≤ lb_position f a b i < 8 * b_bytes f.
Proof using Hok.
  destruct Hok as (_ & _ & Hb & H31 & _). unfold lb_position.
  rewrite (wrap_small 32 (b_bits f)) by (split; lia).
  pose proof (Z.mod_pos_bound (u32 (a + u32 (i * b))) (b_bits f) ltac:(lia)). lia.
Qed.

(** From turn [i], [k] turns before the end: whether the loop counts every turn as
    a hit tells whether every bit was set when it started. *)
Lemma check_add_loop add : ∀ k fuel i hits bf,
  (k ≤ fuel)%nat → words_ok 8 (b_bytes f) bf → 0 ≤ hits ≤ i → b_hashes f = i + Z.of_nat k →
  ∃ i' hits' bf' ret,
    while fuel (check_add_cond f) (check_add_body f a b add) (i, hits, bf, None)
      = Some (i', hits', bf', ret) ∧
    words_ok 8 (b_bytes f) bf' ∧
    (add = false → bf' = bf) ∧
    (add = true → ∀ q, arr_bit 8 bf' q
      = arr_bit 8 bf q || bool_decide (q ∈ lb_position f a b <$> seqZ i (Z.of_nat k))) ∧
    if forallb (arr_bit 8 bf) (lb_position f a b <$> seqZ i (Z.of_nat k))
    then ret = None ∧ hits' = hits + Z.of_nat k
    else ret = Some 0 ∨ (ret = None ∧ hits' < hits + Z.of_nat k).
Proof using Hok.
  pose proof Hok as (_ & _ & Hb & H31 & Hh).
  induction k as [|k IH]; intros fuel i hits bf Hfuel Hbf Hhits Hk.
  - exists i, hits, bf, None. cbn [check_add_cond].
    split; [destruct fuel; cbn [while check_add_cond]; by rewrite (proj2 (Z.ltb_ge _ _)) by lia|].
    split; [done|]. split; [done|]. split; [|split; [done|lia]].
    intros _ q. by rewrite bool_decide_eq_false_2, orb_false_r by apply not_elem_of_nil.
  - destruct fuel as [|fuel]; [lia|]. cbn [while check_add_cond].
    rewrite (proj2 (Z.ltb_lt _ _)) by lia. unfold check_add_body at 2.
    rewrite (wrap_small 32 (b_bits f)) by (split; lia). rewrite (proj2 (Z.eqb_neq _ _)) by lia.
    destruct (test_bit_set_bit_spec (b_bytes f) bf (lb_position f a b i) add Hbf
      (lb_position_range i)) as (bf1 & Htest & Hbf1 & Hadd0 & Hset & Hadd1).
    unfold lb_position in Htest at 1. rewrite (wrap_small 32 (b_bits f)) in Htest by (split; lia).
    rewrite Htest. cbn [mbind option_bind].
    rewrite (seqZ_cons i) by lia. replace (Z.pred (Z.of_nat (S k))) with (Z.of_nat k) by lia.
    change (Z.succ i) with (i + 1). rewrite fmap_cons. cbn [forallb].
    rewrite !(wrap_small 32 (_ + 1)) by (split; lia).
    destruct (arr_bit 8 bf (lb_position f a b i)) eqn:Hbit; cbn [Z.b2z Z.eqb negb andb mbind option_bind].
    + specialize (Hset eq_refl). subst bf1.
      destruct (IH fuel (i + 1) (hits + 1) bf) as (i' & h' & bf' & ret & -> & H1 & H2 & H3 & H4); [lia|done|lia..|].
      exists i', h', bf', ret. split; [done|]. split; [done|]. split; [done|]. split.
      * intros Ha q. rewrite H3 by done. destruct (arr_bit 8 bf q) eqn:Hq; [done|]. simpl.
        apply bool_decide_ext. rewrite elem_of_cons. split; [by right|].
        intros [->|?]; [congruence|done].
      * destruct (forallb _ _); [destruct H4; split; [done|lia]|].
        destruct H4 as [?|[? ?]]; [by left|right; split; [done|lia]].
    + destruct add; cbn [negb mbind option_bind].
      * destruct (IH fuel (i + 1) hits bf1) as (i' & h' & bf' & ret & -> & H1 & H2 & H3 & H4); [lia|done|lia..|].
        exists i', h', bf', ret. split; [done|]. split; [done|]. split; [done|]. split.
        { intros _ q. rewrite H3, Hadd1, <-orb_assoc by done. f_equal.
          rewrite <-bool_decide_or. apply bool_decide_ext. by rewrite elem_of_cons. }
        destruct (forallb _ _); [destruct H4; right; split; [done|lia]|].
        destruct H4 as [?|[? ?]]; [by left|right; split; [done|lia]].
      * rewrite (Hadd0 eq_refl). exists i, hits, bf, (Some 0).
        split; [by destruct fuel|]. split; [done|]. split; [done|]. split; [done|by left].
Qed.
End loop.

(** Both entry points: the return code says whether all bits were set before. *)
Lemma bloom_check_add_spec f x add ps :
  lb_ok f → lb_positions f x = Some ps →
  ∃ bf, bloom_check_add f x (Z.of_nat (length x)) add
      = Some (b_with_bf f bf, Z.b2z (forallb (arr_bit 8 (b_bf f)) ps)) ∧
    words_ok 8 (b_bytes f) bf ∧ (add = false → bf = b_bf f) ∧
    (add = true → ∀ q, arr_bit 8 bf q = arr_bit 8 (b_bf f) q || bool_decide (q ∈ ps)).
Proof.
  intros Hok Hps. unfold lb_positions in Hps.
  apply bind_Some in Hps as (a & Ha & Hps). apply bind_Some in Hps as (b & Hb & [= <-]).
  pose proof Hok as (Hr & Hw & _ & _ & Hh). unfold bloom_check_add.
  rewrite Hr, Ha. cbn [Z.eqb mbind option_bind]. rewrite Hb. cbn [mbind option_bind].
  destruct (check_add_loop f Hok a b add (Z.to_nat (b_hashes f)) (Z.to_nat (b_hashes f)) 0 0 (b_bf f))
    as (i' & h' & bf' & ret & -> & H1 & H2 & H3 & H4); [lia|done|lia..|].
  rewrite Z2Nat.id in H3, H4 by lia. cbn [mbind option_bind]. exists bf'.
  split; [|by split_and!].
  destruct (forallb _ _); cbn [Z.b2z].
  - destruct H4 as [-> ->]. by rewrite (proj2 (Z.eqb_eq _ _)) by lia.
  - destruct H4 as [->|[-> Hlt]]; [done|]. by rewrite (proj2 (Z.eqb_neq _ _)) by lia.
Qed.

#[export] Instance libbloom_laws : BitFilterLaws bloom bytes.
Proof.
  split; simpl.
  - intros f x ps Hok Hps. destruct (bloom_check_add_spec f x true ps Hok Hps) as (bf & Hrun & Hw & _ & Hbits).
    unfold bloom_add. rewrite Hrun. cbn [mbind option_bind fst].
    destruct Hok as (Hr & _ & Hrest). eexists. split; [done|]. split; [exact (conj Hr (conj Hw Hrest))|].
    split; [done|]. by apply Hbits.
  - intros f x (Hr & _) Hps. unfold bloom_add, bloom_check_add. rewrite Hr. cbn [Z.eqb].
    unfold lb_positions in Hps. destruct (orig_murmurhash2 _ _ _) as [a|]; [|done].
    cbn [mbind option_bind] in *. by destruct (orig_murmurhash2 _ _ _).
  - intros f x ps Hok Hps. destruct (bloom_check_add_spec f x false ps Hok Hps) as (bf & Hrun & _).
    unfold bloom_check. rewrite Hrun. cbn [mbind option_bind snd]. by destruct (forallb _ _).
Qed.

(** ** Properties *)

(** [bloom_init] that reports success on a positive number of bits makes an empty
    filter ready; one that reports failure leaves it not ready. *)
Lemma bloom_init_ok log f entries error f' r :
  bloom_init log f entries error = Some (f', r) →
  (r = 1 ∧ b_ready f' = 0) ∨
  (r = 0 ∧ b_ready f' = 1 ∧ (0 < b_bits f' → lb_ok f') ∧ ∀ q, arr_bit 8 (b_bf f') q = false).
Proof.
  unfold bloom_init. destruct (_ || _); [intros [= <- <-]; by left|].
  generalize (SFopp (f64_div (log error) (f64_lit 480453013918201 15))) (f64_lit 693147180559945 15).
  intros bpe ln2.
  intros (bits & Hbits & H)%bind_Some. apply bind_Some in H as (hashes & Hhashes & H).
  set (bytes := if negb _ then _ else _) in H.
  assert (∀ x z, sf_to_i32 x = Some z → - 2 ^ 31 ≤ z < 2 ^ 31) as Hi32.
  { intros x z. unfold sf_to_i32. intros (t & _ & Ht)%bind_Some. unfold chk_i32 in Ht.
    destruct (_ && _) eqn:Hand in Ht; [|done]. injection Ht as <-.
    apply andb_true_iff in Hand as [?%Z.leb_le ?%Z.ltb_lt]. done. }
  apply Hi32 in Hbits. destruct (bytes <? 0) eqn:Hneg; injection H as <- <-; [by left|].
  apply Z.ltb_ge in Hneg. right. split; [done|]. split; [done|].
  split; [|intros q; apply arr_bit_zeros]. cbn [b_bits]. intros Hpos.
  split; [done|]. cbn [b_bits b_bytes b_bf b_hashes].
  split; [by apply words_ok_zeros|]. split; [|split; [lia|apply fits_wrap; lia]].
  subst bytes. rewrite Z.rem_mod_nonneg, Z.quot_div_nonneg in * by lia.
  destruct (Z.eqb_spec (bits `mod` 8) 0); cbn [negb]; div_lia.
Qed.

(** The return code of [bloom_add] is the answer [bloom_check] gave before: 1
    exactly when every bit of the element was set already, although the loop counts
    hits while it sets bits and an element may own a bit twice. Afterwards
    [bloom_check] answers 1. *)
Theorem bloom_add_return_code f x ps :
  lb_ok f → lb_positions f x = Some ps →
  ∃ f' r, bloom_add f x (Z.of_nat (length x)) = Some (f', r) ∧
    bloom_check f x (Z.of_nat (length x)) = Some (f, r) ∧
    (r = 1 ↔ ∀ q, q ∈ ps → arr_bit 8 (b_bf f) q = true) ∧
    bloom_check f' x (Z.of_nat (length x)) = Some (f', 1).
Proof.
  intros Hok Hps.
  destruct (bloom_check_add_spec f x true ps Hok Hps) as (bf & Hadd & Hw & _ & Hbits).
  destruct (bloom_check_add_spec f x false ps Hok Hps) as (bf0 & Hcheck & _ & Hsame & _).
  rewrite Hsame in Hcheck by done. unfold bloom_add, bloom_check.
  eexists _, _. split; [exact Hadd|]. split; [rewrite Hcheck; by destruct f|]. split.
  - rewrite <-forallb_true_iff. by destruct (forallb _ _).
  - assert (lb_ok (b_with_bf f bf)) as Hok' by (destruct Hok as (Hr & _ & Hrest); exact (conj Hr (conj Hw Hrest))).
    destruct (bloom_check_add_spec (b_with_bf f bf) x false ps Hok' Hps) as (bf1 & -> & _ & Hsame1 & _).
    rewrite Hsame1 by done. cbn [b_bf b_with_bf].
    assert (forallb (arr_bit 8 bf) ps = true) as ->; [|done].
    apply forallb_true_iff. intros q Hq. rewrite Hbits by done.
    rewrite bool_decide_eq_true_2 by done. by rewrite orb_true_r.
Qed.

Lemma lb_positions_total f x : is_Some (lb_positions f x).
Proof.
  unfold lb_positions.
  destruct (orig_murmurhash2_ok x 0x9747b28c) as (a & -> & Ha); [split; lia|]. cbn [mbind option_bind].
  destruct (orig_murmurhash2_ok x a) as (b & -> & Hb); [done|]. by eexists.
Qed.

Lemma lb_check f x b :
  lb_ok f → bf_test f x = Some b → bloom_check f x (Z.of_nat (length x)) = Some (f, Z.b2z b).
Proof.
  intros Hok. destruct (lb_positions_total f x) as [ps Hps].
  destruct (bloom_check_add_spec f x false ps Hok Hps) as (bf0 & Hcheck & _ & Hsame & _).
  rewrite Hsame in Hcheck by done. simpl. unfold bloom_check. rewrite Hcheck.
  cbn [mbind option_bind snd]. destruct (forallb _ _); intros [= <-]; by destruct f.
Qed.

(** C30: After [bloom_init] succeeds on a positive number of bits, the filter answers
    every query exactly by the bits of the elements added: 1 for each of them, and
    otherwise 1 exactly when all bits of the key are among theirs. *)
Theorem libbloom_exact log f0 entries error f xs :
  bloom_init log f0 entries error = Some (f, 0) → 0 < b_bits f →
  ∃ f', insert_all (λ f x, r ← bloom_add f x (Z.of_nat (length x)); Some r.1) f xs = Some f' ∧
    (∀ x, x ∈ xs → bloom_check f' x (Z.of_nat (length x)) = Some (f', 1)) ∧
    (∀ x ps, lb_positions f x = Some ps →
      bloom_check f' x (Z.of_nat (length x))
        = Some (f', Z.b2z (forallb (bit_of_some (lb_positions f) xs) ps))).
Proof.
  intros Hinit Hbits.
  destruct (bloom_init_ok _ _ _ _ _ _ Hinit) as [[? _]|(_ & _ & Hok & Hempty)]; [done|].
  specialize (Hok Hbits).
  assert (is_Some (positions_all f xs)) as Hpos.
  { apply positions_all_total, Forall_forall. intros x _. apply lb_positions_total. }
  destruct (bf_exact (H := libbloom_filter) f xs Hok Hempty Hpos) as (f' & Hadd & Hin & Hex).
  destruct (bf_no_false_negatives (H := libbloom_filter) f xs Hok Hpos) as (f'' & Hadd' & Hok' & _).
  rewrite Hadd in Hadd'. injection Hadd' as <-. exists f'. split; [done|].
  split; [intros x Hx; by apply (lb_check f' x true Hok'), Hin|].
  intros x ps Hps. by apply (lb_check f' x _ Hok'), Hex.
Qed.

(** [bloom_reset] reports success on a ready filter and erases nothing: every key
    added before it is still reported present. *)
Theorem bloom_reset_keeps f x ps :
  lb_ok f → lb_positions f x = Some ps →
  ∃ f1 r, bloom_add f x (Z.of_nat (length x)) = Some (f1, r) ∧
    (bloom_reset f1).2 = 0 ∧
    bloom_check (bloom_reset f1).1 x (Z.of_nat (length x)) = Some (f1, 1).
Proof.
  intros Hok Hps.
  destruct (bf_no_false_negatives (H := libbloom_filter) f [x] Hok) as (f1 & Hadd & Hok1 & Htest).
  { apply positions_all_total. repeat constructor. by exists ps. }
  simpl in Hadd. destruct (bloom_add f x (Z.of_nat (length x))) as [[f2 r]|]; [|done].
  cbn in Hadd. injection Hadd as <-. exists f2, r. split; [done|].
  destruct Hok1 as (Hr & Hrest). unfold bloom_reset. rewrite Hr. cbn [Z.eqb fst snd].
  split; [done|]. apply (lb_check f2 x true (conj Hr Hrest)), Htest, list_elem_of_here.
Qed.

(** ** Instances: a filter for 1000 keys, with 1 in the place of [log]. *)

Definition demo_libbloom : bloom := Bloom 1000 (f64_lit 1 2) 16 2 3 (f64_of_Z 1) [0; 0] 1.

Lemma demo_libbloom_ok : lb_ok demo_libbloom.
Proof. split; [done|]. split; [apply (words_ok_zeros 8 2); lia|]. cbn. lia. Qed.

Lemma bloom_add_return_code_witness :
  ∃ f' r, bloom_add demo_libbloom [x61; x62] 2 = Some (f', r) ∧ bloom_check f' [x61; x62] 2 = Some (f', 1).
Proof.
  destruct (bloom_add_return_code demo_libbloom [x61; x62]
    (default [] (lb_positions demo_libbloom [x61; x62]))) as (f' & r & H1 & _ & _ & H2).
  - apply demo_libbloom_ok.
  - vm_compute. reflexivity.
  - exists f', r. split; [exact H1|exact H2].
Defined.

Lemma bloom_reset_keeps_witness :
  ∃ f1 r, bloom_add demo_libbloom [x61] 1 = Some (f1, r) ∧
    bloom_check (bloom_reset f1).1 [x61] 1 = Some (f1, 1).
Proof.
  destruct (bloom_reset_keeps demo_libbloom [x61]
    (default [] (lb_positions demo_libbloom [x61]))) as (f1 & r & H1 & _ & H2).
  - apply demo_libbloom_ok.
  - vm_compute. reflexivity.
  - exists f1, r. split; [exact H1|exact H2].
Defined.

(** [log error] is -1: ten bits for every seven keys. *)
Lemma libbloom_exact_witness :
  ∃ f f', bloom_init (λ _, f64_of_Z (-1)) demo_libbloom 1000 (f64_lit 1 2) = Some (f, 0) ∧
    insert_all (λ f x, r ← bloom_add f x (Z.of_nat (length x)); Some r.1) f [[x61]; [x62]] = Some f' ∧
    bloom_check f' [x61] 1 = Some (f', 1).
Proof.
  eexists.
  match goal with |- ∃ f', _ = Some (?f, 0) ∧ _ =>
    destruct (libbloom_exact (λ _, f64_of_Z (-1)) demo_libbloom 1000 (f64_lit 1 2) f [[x61]; [x62]])
      as (f' & Ha & Hc & _)
  end.
  - vm_compute. reflexivity.
  - vm_compute. reflexivity.
  - exists f'. split; [vm_compute; reflexivity|]. split; [exact Ha|]. apply (Hc [x61]), list_elem_of_here.
Defined.
