(* ===== verification/HashFns.v ===== *)
(** * The hash functors the benchmarks instantiate

    One name per functor type of src/include/hash.hh and the [*_customs.hh] headers,
    what each computes, and the contract of the sub-key functors as one statement. *)
From S2P Require Import Prelude Words Wyhash Xxh3 LocArrays WyhashCustoms XxhCustoms.
From S2P Require Import Crc32Hash CrcWyhashCustoms SmallHashes.

Inductive sub8_family := Fxxh3 | Fwyhash | Fcrc32wyhash.

#[export] Instance sub8_family_eq_dec : EqDecision sub8_family.
Proof. solve_decision. Defined.

(** [Hsub8 family n fixed] is [hash_<family>_<n>loc_s] or [hash_<family>_<n>loc_fixed_s]. *)
Inductive hash_fn :=
  | Hdefault
  | Hstandard
  | Hxxh64
  | Hwyhash
  | Hcrc32
  | Hmmh2
  | Hsdbm
  | Hsub8 (family : sub8_family) (n : Z) (fixed : bool)
  | Hsub4_mmh2
  | Hsub1_sdbm
  | Hwyhash_hardcode.

#[export] Instance hash_fn_eq_dec : EqDecision hash_fn.
Proof. solve_decision. Defined.

Section interp.
Context `{C : Crc32}.
(** [std::hash<std::string>] and the default hash of the table library *)
Context (std_hash default_hash : bytes → Z).

Definition hash_standard_s (str : bytes) : option Z := Some (u64 (std_hash str)).

Definition sub8_functor (family : sub8_family) (n : Z) (fixed : bool) : option functor :=
  match family, n, fixed with
  | Fxxh3, 1, true => Some XXH3_1loc_fixed_f
  | Fxxh3, 2, true => Some XXH3_2loc_fixed_f
  | Fxxh3, 3, true => Some XXH3_3loc_fixed_f
  | Fxxh3, 4, true => Some XXH3_4loc_fixed_f
  | Fxxh3, 1, false => Some XXH3_1loc_f
  | Fxxh3, 2, false => Some XXH3_2loc_f
  | Fxxh3, 3, false => Some XXH3_3loc_f
  | Fxxh3, 4, false => Some XXH3_4loc_f
  | Fwyhash, 1, true => Some wyhash_1loc_fixed_f
  | Fwyhash, 2, true => Some wyhash_2loc_fixed_f
  | Fwyhash, 3, true => Some wyhash_3loc_fixed_f
  | Fwyhash, 4, true => Some wyhash_4loc_fixed_f
  | Fwyhash, 1, false => Some wyhash_1loc_f
  | Fwyhash, 2, false => Some wyhash_2loc_f
  | Fwyhash, 3, false => Some wyhash_3loc_f
  | Fwyhash, 4, false => Some wyhash_4loc_f
  | Fcrc32wyhash, 1, true => Some crc32_1loc_fixed_f
  | Fcrc32wyhash, 2, true => Some crc32_2loc_fixed_f
  | Fcrc32wyhash, 3, true => Some crc32_3loc_fixed_f
  | Fcrc32wyhash, 4, true => Some crc32_4loc_fixed_f
  | Fcrc32wyhash, 1, false => Some crc32_1loc_f
  | Fcrc32wyhash, 2, false => Some crc32_2loc_f
  | Fcrc32wyhash, 3, false => Some crc32_3loc_f
  | Fcrc32wyhash, 4, false => Some crc32_4loc_f
  | _, _, _ => None
  end.

(** The hash of a key by a functor built from [hash_locations]. *)
Definition run_hash (fn : hash_fn) (hash_locations : list Z) (key : bytes) : option Z :=
  match fn with
  | Hdefault => Some (u64 (default_hash key))
  | Hstandard => hash_standard_s key
  | Hxxh64 => hash_xxh64_s key
  | Hwyhash => hash_wyhash_s key
  | Hcrc32 => CRC32Hash_s key
  | Hmmh2 => hash_mmh2_s key
  | Hsdbm => hash_sdbm_s key
  | Hsub8 family n fixed => f ← sub8_functor family n fixed; functor_run f hash_locations key
  | Hsub4_mmh2 => hash_sub4_mmh2_s hash_locations (Z.of_nat (length hash_locations)) key
  | Hsub1_sdbm => hash_sub1_sdbm_s hash_locations (Z.of_nat (length hash_locations)) key
  | Hwyhash_hardcode => hash_wyhash_hardcode key
  end.

Lemma between_1_4 n : 1 ≤ n ≤ 4 → n = 1 ∨ n = 2 ∨ n = 3 ∨ n = 4.
Proof using. lia. Qed.

Lemma sub8_functor_total family n fixed :
  1 ≤ n ≤ 4 →
  ∃ f, sub8_functor family n fixed = Some f ∧ Z.of_nat (f_words f) = n ∧ SubKeySafe f fixed.
Proof using.
  intros Hn. destruct (between_1_4 n Hn) as [->|[->|[->| ->]]], family, fixed;
    (eexists; split; [reflexivity|split; [reflexivity|apply _]]).
Qed.

(** C1: Every sub-key functor of the three families, for one to four words, fixed or
    not, is memory-safe: on a vector of increasing word indices whose byte offsets
    fit an [int] it returns a 64-bit hash of any key without reading outside it; the
    fixed functors need the key to contain the chosen words. *)
Theorem sub8_functors_safe family n fixed locs key :
  1 ≤ n ≤ 4 → locs_wf (Z.to_nat n) locs → fits 64 (Z.of_nat (length key)) →
  (fixed = true → locs_fit 0 (Z.to_nat n) locs key) →
  ∃ h, run_hash (Hsub8 family n fixed) locs key = Some h ∧ fits 64 h.
Proof using.
  intros Hn Hwf Hkey Hfit. cbn [run_hash].
  destruct (sub8_functor_total family n fixed Hn) as (f & -> & Hw & Hsafe). cbn [mbind option_bind].
  apply (sub_key_safe (f := f) (fixed := fixed)); [|done|].
  - by replace (f_words f) with (Z.to_nat n) by lia.
  - by replace (f_words f) with (Z.to_nat n) by lia.
Qed.

(** The families and sizes whose hash really is a function of the chosen words. *)
Definition sub8_local (family : sub8_family) (n : Z) : bool :=
  match family with Fxxh3 => n <=? 2 | _ => true end.

Definition sub8_slack (family : sub8_family) (fixed : bool) : Z :=
  match family with Fxxh3 => if fixed then 0 else 1 | _ => 0 end.

Lemma sub8_functor_local family n fixed :
  1 ≤ n ≤ 4 → sub8_local family n = true →
  ∃ f, sub8_functor family n fixed = Some f ∧ Z.of_nat (f_words f) = n ∧
    SubKeyLocal f (sub8_slack family fixed).
Proof using.
  intros Hn Hl. destruct (between_1_4 n Hn) as [->|[->|[->| ->]]], family, fixed; try done;
    (eexists; split; [reflexivity|split; [reflexivity|apply _]]).
Qed.

(** C2: The sub-key property: on keys that contain the chosen words (and, for the
    xxh3 functors that test [len >], one byte more), two keys of the same length
    with the same chosen words have the same hash. It holds of every functor but
    the three- and four-word xxh3 ones. *)
Theorem sub8_functors_local family n (fixed : bool) locs x y :
  1 ≤ n ≤ 4 → sub8_local family n = true →
  locs_wf (Z.to_nat n) locs →
  locs_fit (sub8_slack family fixed) (Z.to_nat n) locs x →
  same_words (Z.to_nat n) locs x y →
  run_hash (Hsub8 family n fixed) locs x = run_hash (Hsub8 family n fixed) locs y.
Proof using.
  intros Hn Hl Hwf Hfit Hsame. cbn [run_hash].
  destruct (sub8_functor_local family n fixed Hn Hl) as (f & -> & Hw & Hlocal). cbn [mbind option_bind].
  apply (sub_key_local (f := f) (slack := sub8_slack family fixed));
    by replace (f_words f) with (Z.to_nat n) by lia.
Qed.

Lemma full_key_hash_defined fn key :
  fits 64 (Z.of_nat (length key)) → fn ∈ [Hdefault; Hstandard; Hxxh64; Hwyhash; Hcrc32] →
  ∃ h, run_hash fn [] key = Some h ∧ ∀ locs, run_hash fn locs key = Some h.
Proof using.
  intros Hkey Hfn. rewrite !elem_of_cons in Hfn.
  destruct Hfn as [->|[->|[->|[->|[->|Hfn]]]]]; [..|by apply elem_of_nil in Hfn]; cbn [run_hash].
  - eauto.
  - unfold hash_standard_s. eauto.
  - destruct (XXH3_64bits_total key) as (h & Hh & _).
    unfold hash_xxh64_s, hash_xxh64. rewrite Hh. eauto.
  - destruct (wyhash_total key 0 _wyp) as (h & Hh & _); [apply _wyp_wf|split; lia|done|].
    unfold hash_wyhash_s, wyhash_default. rewrite Hh. eauto.
  - destruct (CRC32Hash_ok key) as (h & Hh & _). rewrite Hh. eauto.
Qed.

(** C28: The full-key hashes are memory-safe: [wyhash], [XXH3_64bits], [CRC32Hash],
    MurmurHash2 and sdbm return a 64-bit value for every key below 2^31 bytes, without reading outside
    it or their tables. *)
Theorem full_key_hashes_safe fn locs key :
  Z.of_nat (length key) < 2 ^ 31 → fn ∈ [Hxxh64; Hwyhash; Hcrc32; Hmmh2; Hsdbm] →
  ∃ h, run_hash fn locs key = Some h ∧ fits 64 h.
Proof using.
  intros Hkey Hfn. assert (fits 64 (Z.of_nat (length key))) as Hlen by (split; lia).
  rewrite !elem_of_cons in Hfn.
  destruct Hfn as [->|[->|[->|[->|[->|Hfn]]]]]; [..|by apply elem_of_nil in Hfn]; cbn [run_hash].
  - apply XXH3_64bits_total.
  - apply wyhash_total; [apply _wyp_wf|split; lia|done].
  - apply CRC32Hash_ok.
  - destruct (mmh2_copies_ok key Hkey) as (h & Hh & _ & Hf). exists h. split; [done|].
    by apply (fits_weaken 32).
  - rewrite hash_sdbm_s_eq. eexists. split; [done|]. apply fits_wrap. lia.
Qed.
End interp.

(** A location vector for the first four words of a key. *)
Lemma sub8_functors_safe_witness :
  ∃ h, run_hash (C := crc32c) (λ _, 0) (λ _, 0) (Hsub8 Fxxh3 3 false) [0; 2; 5] (replicate 20 x61) = Some h
       ∧ fits 64 h.
Proof.
  apply (sub8_functors_safe (C := crc32c) (λ _, 0) (λ _, 0) Fxxh3 3 false [0; 2; 5] (replicate 20 x61));
    [lia|vm_decide|vm_decide|done].
Defined.

Lemma sub8_functors_local_witness :
  run_hash (C := crc32c) (λ _, 0) (λ _, 0) (Hsub8 Fwyhash 2 false) [0; 2] (replicate 24 x61)
  = run_hash (C := crc32c) (λ _, 0) (λ _, 0) (Hsub8 Fwyhash 2 false) [0; 2]
      (replicate 10 x61 ++ [x62] ++ replicate 13 x61).
Proof.
  apply (sub8_functors_local (C := crc32c) (λ _, 0) (λ _, 0) Fwyhash 2 false [0; 2] (replicate 24 x61)
    (replicate 10 x61 ++ [x62] ++ replicate 13 x61)); [lia|done|vm_decide|vm_decide|vm_decide].
Defined.

Lemma full_key_hashes_safe_witness :
  ∃ h, run_hash (C := crc32c) (λ _, 0) (λ _, 0) Hmmh2 [] (replicate 13 x61) = Some h ∧ fits 64 h.
Proof.
  apply (full_key_hashes_safe (C := crc32c) (λ _, 0) (λ _, 0) Hmmh2 [] (replicate 13 x61));
    [cbn; lia|vm_decide].
Defined.
