(* ===== verification/BenchSelect.v ===== *)
(** * Which hash function each benchmark runs (src/benchmark_filters.cpp,
      src/benchmark_tables.cpp, src/benchmark_tables_mt.cpp,
      src/benchmark_partitions.cpp)

    Every benchmark first derives, from the entropies measured for each chunk size,
    how many locations it needs, then runs one client per requested hash function.
    Here a benchmark is the list of its runs: label, functor and locations. *)
From stdpp Require Import strings gmap sorting.
From S2P Require Import Prelude Words Floats LocArrays Crc32Hash EntropyEstimators HashFns.

Record bench_run := BenchRun {
  run_label : string;
  run_fn : hash_fn;
  run_locations : list Z
}.

(** What the benchmarks read: the sample entropies and locations per chunk size, the
    requested hash functions, the shape of the data. *)
Record bench_env := BenchEnv {
  entropies_of : gmap Z (list spec_float);
  locations_of : gmap Z (list Z);
  hashfuncs : string → bool;
  dataIsFixedLength : bool;
  data_size : Z;
  added_fpr : spec_float
}.

Section select.
(** libm *)
Context (log2 : spec_float → spec_float).

(** ** Numbers of locations *)

(** [for (i = 0; ...) if (entropies[i] > needed_entropy) { n = i + 1; break; }] *)
Fixpoint first_above (i : Z) (ents : list spec_float) (needed_entropy : spec_float) : option Z :=
  match ents with
  | [] => None
  | e :: ents => if SFltb needed_entropy e then Some (i + 1) else first_above (i + 1) ents needed_entropy
  end.

(** The value for one chunk size. [init] is the value before the search, [cap] what
    more than four 8-byte locations become. *)
Definition num_locations (init : Z) (cap : Z) (chunk : Z) (ents : list spec_float)
    (needed_entropy : spec_float) : Z :=
  let n := default init (first_above 0 ents needed_entropy) in
  if (chunk =? 8) && (4 <? n) then cap else n.

(** [iter.second.size() - 1] as an [int] *)
Definition size_minus_1 (ents : list spec_float) : Z := to_i32 (u64 (Z.of_nat (length ents) - 1)).

(** [numLocationsForChunkSize[chunk]], 0 for a chunk size that is not in the map. *)
Definition numLocationsForChunkSize (use_size : bool) (cap : Z) (env : bench_env)
    (needed_entropy : spec_float) (chunk : Z) : Z :=
  match entropies_of env !! chunk with
  | Some ents => num_locations (if use_size then size_minus_1 ents else 0) cap chunk ents needed_entropy
  | None => 0
  end.

(** [std::vector<int> hash_locations(&locations[chunk][0], &locations[chunk][n]);
    std::sort(...)]: both addresses must be inside the vector or at its end (the library's
    [operator[]] adds the index to the pointer to the elements and checks nothing). *)
Definition hash_locations (env : bench_env) (chunk n : Z) : option (list Z) :=
  let locs := default [] (locations_of env !! chunk) in
  if (0 <=? n) && (n <=? Z.of_nat (length locs))
  then Some (merge_sort Z.le (take (Z.to_nat n) locs)) else None.

(** ** Entropy thresholds *)

Definition needed_self (env : bench_env) : spec_float :=
  f64_sub (f64_sub (log2 (f64_of_Z (data_size env))) (log2 (added_fpr env))) (f64_of_Z 1).
Definition needed_block (env : bench_env) : spec_float :=
  f64_sub (log2 (f64_of_Z (data_size env))) (log2 (added_fpr env)).
Definition needed_std (env : bench_env) : spec_float :=
  f64_add (log2 (f64_of_Z (data_size env))) (f64_lit 15 1).
Definition needed_swiss (env : bench_env) : spec_float :=
  f64_add (f64_sub (log2 (f64_of_Z 5)) (f64_of_Z 1)) (log2 (f64_of_Z (data_size env))).
Definition needed_partition (numPartitions : Z) : spec_float :=
  f64_add (log2 (f64_of_Z 1000)) (log2 (f64_of_Z numPartitions)).

(** ** The branches on the number of 8-byte locations *)

(** With a functor of its own for every other number. *)
Definition branch_default (family : sub8_family) (fallback : bool → hash_fn) (fixed : bool) (n : Z) : hash_fn :=
  if n =? 1 then Hsub8 family 1 fixed
  else if n =? 2 then Hsub8 family 2 fixed
  else if n =? 3 then Hsub8 family 3 fixed
  else if n =? 4 then Hsub8 family 4 fixed
  else fallback fixed.

(** Every other number taken as four. *)
Definition branch_four (family : sub8_family) (fixed : bool) (n : Z) : hash_fn :=
  if n =? 1 then Hsub8 family 1 fixed
  else if n =? 2 then Hsub8 family 2 fixed
  else if n =? 3 then Hsub8 family 3 fixed
  else Hsub8 family 4 fixed.

(** [if (hashfuncs[name]) { ... }], then the rest of the function. *)
Definition when (env : bench_env) (name : string) (r : option bench_run)
    (rest : option (list bench_run)) : option (list bench_run) :=
  if hashfuncs env name then r ← r; rest ← rest; Some (r :: rest) else rest.

Definition full (label : string) (fn : hash_fn) : option bench_run := Some (BenchRun label fn []).

Definition sub8 (label : string) (env : bench_env) (n : Z) (branch : bool → Z → hash_fn)
    : option bench_run :=
  hl ← hash_locations env 8 n; Some (BenchRun label (branch (dataIsFixedLength env) n) hl).

Definition sub_other (label : string) (env : bench_env) (chunk n : Z) (fn : hash_fn) : option bench_run :=
  hl ← hash_locations env chunk n; Some (BenchRun label fn hl).

(** ** The benchmarks *)

Definition bench_selfbloom (env : bench_env) : option (list bench_run) :=
  let n := numLocationsForChunkSize true 5 env (needed_self env) in
  when env "standard" (full "selfbloom-std" Hstandard) $
  when env "wyhash" (full "selfbloom-wyhash" Hwyhash) $
  when env "xxh3" (full "selfbloom-xxh32" Hxxh64) $
  when env "crc32" (full "selfbloom-crc32" Hcrc32) $
  when env "xxh3_sub8"
    (sub8 "selfbloom-xxh32_sub8" env (n 8) (branch_default Fxxh3 (λ _, Hxxh64))) $
  when env "wyhash_sub8"
    (sub8 "selfbloom-wyhash_sub8" env (n 8) (branch_default Fwyhash (λ _, Hwyhash))) $
  when env "crc_wyhash_sub8"
    (sub8 "selfbloom-crc_wyhash_sub8" env (n 8) (branch_four Fcrc32wyhash)) $
  when env "mmh2_sub4" (sub_other "selfbloom-sub4_mmh2" env 4 (n 4) Hsub4_mmh2) $
  (* the locations of 4-byte chunks with the number chosen for 1-byte ones *)
  when env "sdbm_sub1" (sub_other "selfbloom-sub1_sbdm" env 4 (n 1) Hsub1_sdbm) $
  Some [].

Definition bench_blockbloom (env : bench_env) : option (list bench_run) :=
  let n := numLocationsForChunkSize false 4 env (needed_block env) in
  when env "standard" (full "blockbloom-std" Hstandard) $
  when env "sub4_mmh2" (sub_other "blockbloom-sub4_mmh2" env 4 (n 4) Hsub4_mmh2) $
  when env "sub1_sdbm" (sub_other "blockbloom-sub1_sbdm" env 1 (n 1) Hsub1_sdbm) $
  when env "wyhash" (full "blockbloom-wyhash" Hwyhash) $
  when env "xxh3" (full "blockbloom-xxh32" Hxxh64) $
  when env "xxh3_sub8" (sub8 "blockbloom-xxh32_sub8" env (n 8) (branch_four Fxxh3)) $
  when env "wyhash_sub8" (sub8 "blockbloom-wyhash_sub8" env (n 8) (branch_four Fwyhash)) $
  Some [].

Definition bench_register_block_bloom (env : bench_env) : option (list bench_run) :=
  let n := numLocationsForChunkSize true 5 env (needed_block env) in
  when env "standard" (full "registerbloom-std" Hstandard) $
  when env "sub4_mmh2" (sub_other "registerbloom-sub4_mmh2" env 4 (n 4) Hsub4_mmh2) $
  when env "sub1_sdbm" (sub_other "registerbloom-sub1_sbdm" env 1 (n 1) Hsub1_sdbm) $
  when env "wyhash" (full "registerbloom-wyhash" Hwyhash) $
  when env "xxh3" (full "registerbloom-xxh32" Hxxh64) $
  when env "xxh3_sub8"
    (sub8 "registerbloom-xxh32_sub8" env (n 8) (branch_default Fxxh3 (λ _, Hxxh64))) $
  when env "wyhash_sub8"
    (sub8 "registerbloom-wyhash_sub8" env (n 8) (branch_default Fwyhash (λ _, Hwyhash))) $
  Some [].

(** The two-word functor over the 4-byte locations. *)
Definition bench_robin_table (env : bench_env) : option (list bench_run) :=
  when env "standard" (full "robin_standard" Hstandard) $
  when env "xxh3" (full "robin_xxh3" Hxxh64) $
  when env "xxh3_sub8" (sub_other "robin_xxh3_sub82locSub8" env 4 4 (Hsub8 Fxxh3 2 false)) $
  when env "mmh2_sub4" (sub_other "robin_mmh2_sub4" env 4 4 Hsub4_mmh2) $
  Some [].

Definition bench_std_table (env : bench_env) : option (list bench_run) :=
  let n := numLocationsForChunkSize true 4 env (needed_std env) in
  when env "standard" (full "std_standard" Hstandard) $
  when env "crc32" (full "std_crc32" Hcrc32) $
  when env "mmh2" (full "std_mmh2" Hmmh2) $
  when env "sdbm" (full "std_sdbm" Hsdbm) $
  when env "xxh3" (full "std_xxh3" Hxxh64) $
  when env "wyhash" (full "std_wyhash" Hwyhash) $
  when env "xxh3_sub8" (sub8 "std_xxh3_sub8" env (n 8) (branch_four Fxxh3)) $
  when env "wyhash_sub8" (sub8 "std_wyhash_sub8" env (n 8) (branch_four Fwyhash)) $
  when env "crc_wyhash_sub8" (sub8 "std_crc_wyhash_sub8" env (n 8) (branch_four Fcrc32wyhash)) $
  when env "mmh2_sub4" (sub_other "std_mm2_sub4" env 4 4 Hsub4_mmh2) $
  Some [].

Definition bench_google_table (env : bench_env) : option (list bench_run) :=
  when env "standard" (full "google_standard" Hstandard) $ Some [].

Definition bench_swiss_table (env : bench_env) : option (list bench_run) :=
  let n := numLocationsForChunkSize true 4 env (needed_swiss env) in
  when env "default" (full "swiss_default" Hdefault) $
  when env "standard" (full "swiss_standard" Hstandard) $
  when env "crc32" (full "swiss_crc32" Hcrc32) $
  when env "mmh2" (full "swiss_mmh2" Hmmh2) $
  when env "sdbm" (full "swiss_sdbm" Hsdbm) $
  when env "xxh3" (full "swiss_xxh3" Hxxh64) $
  when env "wyhash" (full "swiss_wyhash" Hwyhash) $
  when env "xxh3_sub8" (sub8 "swiss_xxh3_sub8" env (n 8) (branch_four Fxxh3)) $
  when env "wyhash_sub8" (sub8 "swiss_wyhash_sub8" env (n 8) (branch_four Fwyhash)) $
  when env "crc_wyhash_sub8" (sub8 "swiss_crc_wyhash_sub8" env (n 8) (branch_four Fcrc32wyhash)) $
  when env "wyhash_sub8_hardcode" (full "swiss_wyhash_sub8_hardcode" Hwyhash_hardcode) $
  when env "mmh2_sub4" (sub_other "swiss_mm2_sub4" env 4 (n 4) Hsub4_mmh2) $
  when env "sdbm_sub1" (sub_other "swiss_sdbm_sub1" env 1 (n 1) Hsub1_sdbm) $
  Some [].

(** The multi-threaded variant makes the same choices. *)
Definition bench_swiss_table_mt (env : bench_env) : option (list bench_run) :=
  let n := numLocationsForChunkSize true 4 env (needed_swiss env) in
  when env "default" (full "swiss_default" Hdefault) $
  when env "standard" (full "swiss_standard" Hstandard) $
  when env "crc32" (full "swiss_crc32" Hcrc32) $
  when env "mmh2" (full "swiss_mmh2" Hmmh2) $
  when env "sdbm" (full "swiss_sdbm" Hsdbm) $
  when env "xxh3" (full "swiss_xxh3" Hxxh64) $
  when env "wyhash" (full "swiss_wyhash" Hwyhash) $
  when env "xxh3_sub8" (sub8 "swiss_xxh3_sub8" env (n 8) (branch_four Fxxh3)) $
  when env "wyhash_sub8" (sub8 "swiss_wyhash_sub8" env (n 8) (branch_four Fwyhash)) $
  when env "crc_wyhash_sub8" (sub8 "swiss_crc_wyhash_sub8" env (n 8) (branch_four Fcrc32wyhash)) $
  when env "wyhash_sub8_hardcode" (full "swiss_wyhash_sub8_hardcode" Hwyhash_hardcode) $
  when env "mmh2_sub4" (sub_other "swiss_mm2_sub4" env 4 (n 4) Hsub4_mmh2) $
  when env "sdbm_sub1" (sub_other "swiss_sdbm_sub1" env 1 (n 1) Hsub1_sdbm) $
  Some [].

(** The fallback of the CRC family is wyhash for data of fixed length. *)
Definition bench_partitioners (env : bench_env) (numPartitions : Z) : option (list bench_run) :=
  let n := numLocationsForChunkSize true 5 env (needed_partition numPartitions) in
  when env "standard" (full "partition-std" Hstandard) $
  when env "wyhash" (full "partition-wyhash" Hwyhash) $
  when env "xxh3" (full "partition-xxh3" Hxxh64) $
  when env "crc32" (full "partition-crc32" Hcrc32) $
  when env "xxh3_sub8"
    (sub8 "partition-xxh3_sub8" env (n 8) (branch_default Fxxh3 (λ _, Hxxh64))) $
  when env "wyhash_sub8"
    (sub8 "partition-wyhash_sub8" env (n 8) (branch_default Fwyhash (λ _, Hwyhash))) $
  when env "crc_wyhash_sub8"
    (sub8 "partition-crc_sub8" env (n 8)
      (branch_default Fcrc32wyhash (λ fixed, if fixed then Hwyhash else Hcrc32))) $
  Some [].
End select.

(** ** The number of locations *)

Lemma first_above_Some i ents needed n :
  first_above i ents needed = Some n →
  ∃ k e, n = i + Z.of_nat k + 1 ∧ ents !! k = Some e ∧ SFltb needed e = true ∧
    ∀ j e', (j < k)%nat → ents !! j = Some e' → SFltb needed e' = false.
Proof.
  revert i. induction ents as [|e ents IH]; intros i H; simpl in H; [done|].
  destruct (SFltb needed e) eqn:He.
  - injection H as <-. exists 0%nat, e. split; [lia|]. split; [done|]. split; [done|]. intros; lia.
  - destruct (IH (i + 1) H) as (k & e' & -> & Hk & Hn & Hall). exists (S k), e'.
    split; [lia|]. split; [done|]. split; [done|]. intros [|j] e'' Hj He''; [|apply (Hall j); [lia|done]].
    simpl in He''. congruence.
Qed.

Lemma first_above_None i ents needed :
  first_above i ents needed = None ↔ Forall (λ e, SFltb needed e = false) ents.
Proof.
  revert i. induction ents as [|e ents IH]; intros i; simpl; [split; [constructor|done]|].
  rewrite Forall_cons. destruct (SFltb needed e); [split; [done|intros [? _]; discriminate]|]. rewrite IH. tauto.
Qed.

(** The number of 8-byte locations is the least one whose measured entropy exceeds
    what the benchmark needs, when four or fewer suffice; when more are needed it is
    the value that selects the fallback, and when no prefix suffices the value the
    search started from. *)
Theorem num_locations_least init cap ents needed :
  let n := num_locations init cap 8 ents needed in
  (∃ k e, (k < 4)%nat ∧ n = Z.of_nat k + 1 ∧ ents !! k = Some e ∧ SFltb needed e = true ∧
     ∀ j e', (j < k)%nat → ents !! j = Some e' → SFltb needed e' = false) ∨
  (n = cap ∧ ∀ j e', (j < 4)%nat → ents !! j = Some e' → SFltb needed e' = false) ∨
  (n = init ∧ Forall (λ e, SFltb needed e = false) ents).
Proof.
  unfold num_locations. change (8 =? 8) with true. rewrite andb_true_l.
  destruct (first_above 0 ents needed) as [m|] eqn:Hm; cbn [default from_option id].
  - apply first_above_Some in Hm as (k & e & -> & Hk & He & Hall).
    destruct (Z.ltb_spec 4 (0 + Z.of_nat k + 1)); cbn [andb].
    + right; left. split; [done|]. intros j e' Hj. apply Hall. lia.
    + left. exists k, e. split; [lia|]. split; [simpl; lia|]. done.
  - apply first_above_None in Hm. destruct (Z.ltb_spec 4 init); [|by right; right].
    right; left. split; [done|]. intros j e' _ He'. by eapply Forall_lookup_1 in Hm.
Qed.

(** ** The runs *)

Lemma when_elem env name r rest runs x :
  when env name r rest = Some runs → x ∈ runs →
  r = Some x ∨ ∃ rest', rest = Some rest' ∧ x ∈ rest'.
Proof.
  unfold when. destruct (hashfuncs env name); [|eauto].
  intros (y & -> & H)%bind_Some. apply bind_Some in H as (l & -> & [= <-]).
  intros [->|Hx]%elem_of_cons; eauto.
Qed.

(** The 8-byte locations of the environment: distinct word indices. *)
Definition locations_ok (env : bench_env) : Prop :=
  let locs := default [] (locations_of env !! 8) in
  NoDup locs ∧ Forall (λ l, 0 ≤ l ∧ 8 * l + 8 < 2 ^ 31) locs.

(** A key the benchmark may hash: data declared of fixed length reaches every word. *)
Definition key_ok (env : bench_env) (key : bytes) : Prop :=
  fits 64 (Z.of_nat (length key)) ∧
  (dataIsFixedLength env = true →
   Forall (λ l, 8 * l + 8 ≤ Z.of_nat (length key)) (default [] (locations_of env !! 8))).

Lemma sorted_nodup_lt (l : list Z) : Sorted Z.le l → NoDup l → Sorted Z.lt l.
Proof.
  induction 1 as [|x l Hs IH Hhd]; intros Hnd; [constructor|].
  apply NoDup_cons in Hnd as [Hx Hnd]. constructor; [auto|].
  destruct Hhd as [|y l Hle]; constructor. 
  assert (x ≠ y) by (intros ->; apply Hx, list_elem_of_here). lia.
Qed.

Lemma sorted_take (k : nat) (l : list Z) : Sorted Z.lt l → Sorted Z.lt (take k l).
Proof.
  intros Hs. revert k. induction Hs as [|x l Hs IH Hhd]; intros [|k]; simpl; try constructor; [auto|].
  destruct Hhd; destruct k; simpl; by constructor.
Qed.

(** The sorted prefix of the locations is fit for any functor that uses no more of
    them than it holds. *)
Lemma hash_locations_wf env n hl (k : nat) :
  locations_ok env → hash_locations env 8 n = Some hl → Z.of_nat k ≤ n →
  locs_wf k hl ∧ ∀ key, key_ok env key → dataIsFixedLength env = true → locs_fit 0 k hl key.
Proof.
  intros [Hnd Hall]. unfold hash_locations. set (locs := default [] _) in *.
  destruct ((0 <=? n) && _) eqn:Hn; [|done]. apply andb_true_iff in Hn as [Hn0%Z.leb_le Hn%Z.leb_le].
  intros [= <-] Hk. set (p := take (Z.to_nat n) locs).
  pose proof (merge_sort_Permutation Z.le p) as Hperm.
  assert (NoDup p) as Hndp.
  { rewrite <-(take_drop (Z.to_nat n) locs) in Hnd. by apply NoDup_app in Hnd as [? _]. }
  assert (∀ x, x ∈ merge_sort Z.le p → x ∈ locs) as Hin.
  { intros x. rewrite Hperm. intros Hx. apply elem_of_take in Hx as (j & Hx & _).
    by eapply list_elem_of_lookup_2. }
  rewrite Forall_forall in Hall.
  split; [split; [|split]|].
  - rewrite (Permutation_length Hperm). subst p. rewrite length_take. lia.
  - apply sorted_take, sorted_nodup_lt; [apply Sorted_merge_sort; intros ??; lia|by rewrite Hperm].
  - apply Forall_forall. intros x Hx. apply Hall, Hin.
    apply elem_of_take in Hx as (j & Hx & _). by eapply list_elem_of_lookup_2.
  - intros key [_ Hfix] Hf. specialize (Hfix Hf). rewrite Forall_forall in Hfix.
    apply Forall_forall. intros x Hx. apply elem_of_take in Hx as (j & Hx & _).
    assert (x ∈ locs) as Hxl by (apply Hin; by eapply list_elem_of_lookup_2).
    specialize (Hfix x Hxl). cbv beta in Hfix. lia.
Qed.

Section runs.
Context `{C : Crc32} (std_hash default_hash : bytes → Z).

(** A run whose hash is defined on every key of the data. *)
Definition run_defined (env : bench_env) (r : bench_run) : Prop :=
  ∀ key, key_ok env key → ∃ h, run_hash std_hash default_hash (run_fn r) (run_locations r) key = Some h.

Lemma full_defined env label fn r :
  fn ∈ [Hdefault; Hstandard; Hxxh64; Hwyhash; Hcrc32] → full label fn = Some r → run_defined env r.
Proof using.
  intros Hfn [= <-] key [Hkey _]. cbn [run_fn run_locations].
  destruct (full_key_hash_defined std_hash default_hash fn key Hkey Hfn) as (h & Hh & _). eauto.
Qed.

Lemma sub8_hash_defined env family n hl (k : Z) key :
  locations_ok env → key_ok env key → hash_locations env 8 n = Some hl → 1 ≤ k ≤ 4 → k ≤ n →
  ∃ h, run_hash std_hash default_hash (Hsub8 family k (dataIsFixedLength env)) hl key = Some h.
Proof using.
  intros Hok Hkey Hhl Hk Hkn. cbn [run_hash].
  destruct (sub8_functor_total family k (dataIsFixedLength env) Hk) as (f & -> & Hw & Hsafe).
  cbn [mbind option_bind].
  destruct (hash_locations_wf env n hl (f_words f) Hok Hhl) as [Hwf Hfit]; [lia|].
  destruct (sub_key_safe (f := f) (fixed := dataIsFixedLength env) hl key Hwf) as (h & Hh & _); eauto.
  apply Hkey.
Qed.

Lemma sub8_default_defined env label family fallback n r :
  locations_ok env → (∀ b, fallback b ∈ [Hdefault; Hstandard; Hxxh64; Hwyhash; Hcrc32]) →
  sub8 label env n (branch_default family fallback) = Some r → run_defined env r.
Proof using.
  intros Hok Hfb. unfold sub8. intros (hl & Hhl & [= <-])%bind_Some key Hkey. cbn [run_fn run_locations].
  unfold branch_default.
  repeat (match goal with |- context [n =? ?c] => destruct (Z.eqb_spec n c) as [->|] end;
    [eapply sub8_hash_defined; [done..|lia|lia]|]).
  destruct Hkey as [Hkey _].
  destruct (full_key_hash_defined std_hash default_hash _ key Hkey (Hfb (dataIsFixedLength env)))
    as (h & _ & Hh). eauto.
Qed.

Lemma sub8_four_defined env label family n r :
  locations_ok env → 1 ≤ n →
  sub8 label env n (branch_four family) = Some r → run_defined env r.
Proof using.
  intros Hok Hn. unfold sub8. intros (hl & Hhl & [= <-])%bind_Some key Hkey. cbn [run_fn run_locations].
  unfold branch_four.
  repeat (match goal with |- context [n =? ?c] => destruct (Z.eqb_spec n c) as [->|] end;
    [eapply sub8_hash_defined; [done..|lia|lia]|]).
  eapply sub8_hash_defined; [done..|lia|lia].
Qed.

(** One step through the chain of [when]s. *)
Lemma when_defined env name run rest (P : bench_run → Prop) :
  (∀ r, hashfuncs env name = true → run = Some r → P r) →
  (∀ runs r, rest = Some runs → r ∈ runs → P r) →
  ∀ runs r, when env name run rest = Some runs → r ∈ runs → P r.
Proof using.
  intros H1 H2 runs r. unfold when. destruct (hashfuncs env name) eqn:Hn; [|apply H2].
  intros (y & Hy & H)%bind_Some. apply bind_Some in H as (l & Hl & [= <-]).
  intros [->|Hx]%elem_of_cons; eauto.
Qed.

Lemma when_rest env name run rest runs :
  when env name run rest = Some runs → ∃ rest', rest = Some rest' ∧ ∀ x, x ∈ rest' → x ∈ runs.
Proof using.
  unfold when. destruct (hashfuncs env name); [|eauto].
  intros (y & _ & H)%bind_Some. apply bind_Some in H as (l & Hl & [= <-]).
  exists l. split; [done|]. intros x. apply list_elem_of_further.
Qed.

Lemma when_head env name run rest runs :
  hashfuncs env name = true → when env name run rest = Some runs → ∃ r, run = Some r ∧ r ∈ runs.
Proof using.
  unfold when. intros ->. intros (y & Hy & H)%bind_Some. apply bind_Some in H as (l & _ & [= <-]).
  exists y. split; [done|]. apply list_elem_of_here.
Qed.

Context (log2 : spec_float → spec_float).

(** The functors of the other chunk sizes are left to their own theorems. *)
Definition sub8_or_full (fn : hash_fn) : bool :=
  negb (bool_decide (fn = Hsub4_mmh2 ∨ fn = Hsub1_sdbm)).

Lemma selfbloom_run_defined env runs r :
  locations_ok env →
  (hashfuncs env "crc_wyhash_sub8" = true →
   1 ≤ numLocationsForChunkSize true 5 env (needed_self log2 env) 8) →
  bench_selfbloom log2 env = Some runs → r ∈ runs → sub8_or_full (run_fn r) = true →
  run_defined env r.
Proof using.
  intros Hok Hcrc. unfold bench_selfbloom. revert runs r.
  repeat (refine (when_defined _ _ _ _ (λ r, sub8_or_full (run_fn r) = true → run_defined env r) _ _);
    [intros r Hname Hr Hf|]).
  1-4: by eapply full_defined; [|exact Hr]; set_solver.
  1-2: by eapply sub8_default_defined; [..|exact Hr]; [done|set_solver].
  - by eapply sub8_four_defined; [..|exact Hr]; [done|apply Hcrc].
  - unfold sub_other in Hr. by apply bind_Some in Hr as (hl & _ & [= <-]).
  - unfold sub_other in Hr. by apply bind_Some in Hr as (hl & _ & [= <-]).
  - intros runs r [= <-] Hr. by apply elem_of_nil in Hr.
Qed.

(** Whatever entropies were measured, every run of the Bloom-filter benchmark with
    a full-key or an 8-byte functor hashes every key of the data: the functor chosen
    never reads a location that the sorted prefix of the locations lacks, nor a word
    outside the key. The CRC family, which has no fallback, needs at least one
    location. *)
Theorem bench_selfbloom_runs_defined env runs r :
  locations_ok env →
  (hashfuncs env "crc_wyhash_sub8" = true →
   1 ≤ numLocationsForChunkSize true 5 env (needed_self log2 env) 8) →
  bench_selfbloom log2 env = Some runs → r ∈ runs → sub8_or_full (run_fn r) = true →
  run_defined env r.
Proof using. apply selfbloom_run_defined. Qed.

(** The block-filter benchmark starts the search from no location and takes every
    number but one, two and three as four: when no prefix of the 8-byte locations has
    enough entropy, its xxh3 run builds the four-word functor from an empty vector,
    which reads outside it. *)
Theorem bench_blockbloom_no_location env ents runs :
  entropies_of env !! 8 = Some ents →
  Forall (λ e, SFltb (needed_block log2 env) e = false) ents →
  hashfuncs env "xxh3_sub8" = true → bench_blockbloom log2 env = Some runs →
  ∃ r, r ∈ runs ∧ run_label r = "blockbloom-xxh32_sub8" ∧ run_locations r = [] ∧
    ∀ key, run_hash std_hash default_hash (run_fn r) (run_locations r) key = None.
Proof using.
  intros Hents Hnone Hname. unfold bench_blockbloom.
  assert (numLocationsForChunkSize false 4 env (needed_block log2 env) 8 = 0) as Hn.
  { unfold numLocationsForChunkSize. rewrite Hents. unfold num_locations.
    by rewrite (proj2 (first_above_None 0 ents _) Hnone). }
  rewrite Hn. intros H. do 5 (apply when_rest in H as (? & H & Hsub); revert Hsub).
  apply when_head in H as (r & Hr & Hin); [|done]. intros.
  unfold sub8, hash_locations in Hr. rewrite (proj2 (Z.leb_le 0 (Z.of_nat _))) in Hr by lia. injection Hr as <-.
  eexists. split; [eauto 10|]. split; [done|]. split; [done|].
  intros key. by destruct (dataIsFixedLength env).
Qed.
End runs.

(** ** Instances *)

(** A benchmark that asks for one functor: no prefix of the locations reaches the
    entropy 0 the block filters then need. *)
Definition demo_env (name : string) (ents : list spec_float) : bench_env :=
  BenchEnv {[ 8 := ents ]} {[ 8 := [1; 0] ]} (String.eqb name) true 1 (f64_of_Z 1).

Lemma bench_blockbloom_no_location_witness :
  ∃ runs r, bench_blockbloom libm_one (demo_env "xxh3_sub8" [f64_of_Z 0]) = Some runs ∧ r ∈ runs ∧
    run_hash (C := crc32c) (λ _, 0) (λ _, 0) (run_fn r) (run_locations r) [x61] = None.
Proof.
  eexists.
  match goal with |- ∃ r, _ = Some ?runs ∧ _ =>
    destruct (bench_blockbloom_no_location (C := crc32c) (λ _, 0) (λ _, 0) libm_one
      (demo_env "xxh3_sub8" [f64_of_Z 0]) [f64_of_Z 0] runs) as (r & Hr & _ & _ & Hnone)
  end.
  - reflexivity.
  - repeat constructor.
  - reflexivity.
  - vm_compute. reflexivity.
  - exists r. split; [vm_compute; reflexivity|]. split; [exact Hr|]. apply Hnone.
Defined.

Lemma bench_selfbloom_runs_defined_witness :
  ∃ runs r h, bench_selfbloom libm_one (demo_env "wyhash_sub8" [f64_of_Z 0; f64_of_Z 5]) = Some runs ∧ r ∈ runs ∧
    run_hash (C := crc32c) (λ _, 0) (λ _, 0) (run_fn r) (run_locations r) (replicate 16 x61) = Some h.
Proof.
  do 2 eexists.
  match goal with |- ∃ h, _ = Some ?runs ∧ ?r ∈ _ ∧ _ =>
    destruct (bench_selfbloom_runs_defined (C := crc32c) (λ _, 0) (λ _, 0) libm_one
      (demo_env "wyhash_sub8" [f64_of_Z 0; f64_of_Z 5]) runs r) with (key := replicate 16 x61) as [h Hh]
  end.
  - split; [vm_decide|repeat constructor; cbn; lia].
  - intros Hname. vm_compute in Hname. discriminate.
  - vm_compute. reflexivity.
  - apply list_elem_of_here.
  - reflexivity.
  - split; [unfold fits; cbn; lia|]. intros _. repeat constructor; cbn; lia.
  - exists h. split; [vm_compute; reflexivity|]. split; [apply list_elem_of_here|exact Hh].
Defined.
