(* ===== verification/BlockedLoop.v ===== *)
(** * The timed loops of the benchmarks

    The clients of src/benchmark_filters.cpp, benchmark_tables.cpp and
    benchmark_partitions.cpp walk over the probes in blocks of [step_size]: each block
    is first hashed once to bring it into the cache, then processed between two reads
    of the clock. The body of the inner loop may move its index forward. *)
From S2P Require Import Prelude Words.

Definition step_size : Z := 100.

(** [p[j]] *)
Definition vec_get {V} (p : list V) (j : Z) : option V := if 0 <=? j then p !! Z.to_nat j else None.

(** [for (unsigned j = i*step_size; j < (i+1)*step_size; j++) body]: the body gets the
    index and the state, and returns the state and the index it leaves. *)
Definition inner_loop {S} (i : Z) (body : Z → S → option (S * Z)) (s : S) : option S :=
  st ← while (Z.to_nat step_size) (λ st, st.2 <? u64 (u32 (i + 1) * step_size))
         (λ st, r ← body st.2 st.1; Some (r.1, u32 (r.2 + 1)))
         (s, u32 (u64 (i * step_size)));
  Some st.1.

(** [for (unsigned i = i0; i < p.size()/step_size; i++) { dummy hashing; body }] on the
    state and the sum of the dummy hashes. *)
Definition timed_from {V S} (i0 : Z) (dummy_hash : V → option Z) (p : list V)
    (body : Z → S → option (S * Z)) (s : S) (dummy : Z) : option (S * Z) :=
  for_loop (Z.to_nat (Z.of_nat (length p) / step_size - i0)) i0
    (λ i sd,
      d ← inner_loop i (λ j d, x ← vec_get p j; h ← dummy_hash x; Some (u64 (d + h), j)) sd.2;
      s ← inner_loop i body sd.1;
      Some (s, d))
    (s, dummy).

Definition timed_loop {V S} (dummy_hash : V → option Z) (p : list V)
    (body : Z → S → option (S * Z)) (s : S) (dummy : Z) : option (S * Z) :=
  timed_from 0 dummy_hash p body s dummy.

(** ** What the loops compute

    [g] is the effect of an element on the state and the number of elements it makes
    the loop skip. *)
Section spec.
Context {V S : Type} (g : V → S → S * nat).

Fixpoint skip_fold (l : list V) (k : nat) (s : S) : S :=
  match l with
  | [] => s
  | x :: l =>
      match k with
      | Datatypes.S k => skip_fold l k s
      | O => skip_fold l (g x s).2 (g x s).1
      end
  end.

(** The number of elements still to be skipped at the end. *)
Fixpoint skip_rest (l : list V) (k : nat) (s : S) : nat :=
  match l with
  | [] => k
  | x :: l =>
      match k with
      | Datatypes.S k => skip_rest l k s
      | O => skip_rest l (g x s).2 (g x s).1
      end
  end.

Fixpoint blocks_fold (m : nat) (p : list V) (s : S) : S :=
  match m with
  | O => s
  | Datatypes.S m => blocks_fold m (drop (Z.to_nat step_size) p) (skip_fold (take (Z.to_nat step_size) p) 0 s)
  end.

Lemma skip_fold_app l l' s :
  (∀ x s, (g x s).2 = 0%nat) → skip_fold (l ++ l') 0 s = skip_fold l' 0 (skip_fold l 0 s).
Proof using. intros Hg. revert s. induction l as [|x l IH]; intros s; simpl; [done|]. by rewrite Hg, IH. Qed.

(** Without skips the blocks are a prefix of the elements. *)
Lemma blocks_fold_prefix m p s :
  (∀ x s, (g x s).2 = 0%nat) → blocks_fold m p s = skip_fold (take (Z.to_nat step_size * m) p) 0 s.
Proof using.
  intros Hg. revert p s. induction m as [|m IH]; intros p s; cbn [blocks_fold].
  { by rewrite Nat.mul_0_r, take_0. }
  rewrite IH, <-skip_fold_app by done. f_equal.
  rewrite take_take_drop. f_equal. lia.
Qed.

Section inner.
Context (p : list V) (body : Z → S → option (S * Z)) (K : nat).
Context (Hbody : ∀ j x s, p !! j = Some x →
  body (Z.of_nat j) s = Some ((g x s).1, Z.of_nat (j + (g x s).2)) ∧ ((g x s).2 ≤ K)%nat).

(** Up to index [e], when [k] elements from [j] are still to be skipped. *)
Lemma inner_while (n : nat) : ∀ fuel e j k s,
  (j + n = e)%nat → (e ≤ length p)%nat → (k ≤ K)%nat → Z.of_nat (e + K) < 2 ^ 32 → (n ≤ fuel)%nat →
  while fuel (λ st, st.2 <? Z.of_nat e) (λ st, r ← body st.2 st.1; Some (r.1, u32 (r.2 + 1)))
    (s, Z.of_nat (j + k))
  = Some (skip_fold (take n (drop j p)) k s, Z.of_nat (e + skip_rest (take n (drop j p)) k s)).
Proof using Hbody.
  induction n as [|n IH]; intros fuel e j k s He Hp Hk Hmax Hf.
  - rewrite take_0. cbn [skip_fold skip_rest].
    destruct fuel; cbn [while snd]; rewrite (proj2 (Z.ltb_ge _ _)) by lia; do 3 f_equal; lia.
  - destruct (lookup_lt_is_Some_2 p j) as [x Hx]; [lia|].
    rewrite (drop_S _ _ _ Hx). cbn [take]. destruct k as [|k]; cbn [skip_fold skip_rest].
    + destruct fuel as [|fuel]; [lia|]. rewrite Nat.add_0_r. cbn [while fst snd].
      rewrite (proj2 (Z.ltb_lt _ _)) by lia.
      destruct (Hbody j x s Hx) as [-> HK]. cbn [mbind option_bind fst snd].
      rewrite wrap_small by (split; lia).
      replace (Z.of_nat (j + (g x s).2) + 1) with (Z.of_nat (Datatypes.S j + (g x s).2)) by lia.
      apply IH; lia.
    + replace (j + Datatypes.S k)%nat with (Datatypes.S j + k)%nat by lia. apply IH; lia.
Qed.

Lemma inner_loop_spec (i : nat) s :
  (Z.to_nat step_size * (i + 1) ≤ length p)%nat → Z.of_nat (length p + K) < 2 ^ 32 →
  inner_loop (Z.of_nat i) body s
    = Some (skip_fold (take (Z.to_nat step_size) (drop (Z.to_nat step_size * i) p)) 0 s).
Proof using Hbody.
  change (Z.to_nat step_size) with 100%nat. unfold inner_loop, step_size. intros Hi Hp.
  rewrite (wrap_small 32 (Z.of_nat i + 1)), (wrap_small 64), (wrap_small 64) by (split; lia).
  rewrite wrap_small by (split; lia).
  replace ((Z.of_nat i + 1) * 100) with (Z.of_nat (100 * (i + 1))) by lia.
  replace (Z.of_nat i * 100) with (Z.of_nat (100 * i + 0)) by lia.
  by rewrite (inner_while 100) by lia.
Qed.
End inner.
End spec.

Section timed.
Context {V S : Type} (g : V → S → S * nat) (K : nat).
Context (p : list V) (body : Z → S → option (S * Z)).
Context (Hbody : ∀ j x s, p !! j = Some x →
  body (Z.of_nat j) s = Some ((g x s).1, Z.of_nat (j + (g x s).2)) ∧ ((g x s).2 ≤ K)%nat).
Context (dummy_hash : V → option Z) (Hdummy : ∀ x, x ∈ p → is_Some (dummy_hash x)).

(** One turn of the dummy hashing loop. *)
Definition dummy_step (x : V) (d : Z) : Z * nat := (u64 (d + default 0 (dummy_hash x)), 0%nat).

Lemma dummy_body j x d :
  p !! j = Some x →
  (x ← vec_get p (Z.of_nat j); h ← dummy_hash x; Some (u64 (d + h), Z.of_nat j))
  = Some ((dummy_step x d).1, Z.of_nat (j + (dummy_step x d).2)) ∧ ((dummy_step x d).2 ≤ 0)%nat.
Proof using Hdummy.
  intros Hx. unfold vec_get. rewrite (proj2 (Z.leb_le _ _)) by lia. rewrite Nat2Z.id, Hx. unfold dummy_step.
  cbn [mbind option_bind fst snd]. destruct (Hdummy x) as [h ->]; [by eapply list_elem_of_lookup_2|].
  cbn [mbind option_bind default from_option id]. by rewrite Nat.add_0_r.
Qed.

Lemma for_blocks m : ∀ i s dummy,
  (Z.to_nat step_size * (i + m) ≤ length p)%nat → Z.of_nat (length p + K) < 2 ^ 32 →
  ∃ d, for_loop m (Z.of_nat i)
    (λ i sd,
      d ← inner_loop i (λ j d, x ← vec_get p j; h ← dummy_hash x; Some (u64 (d + h), j)) sd.2;
      s ← inner_loop i body sd.1;
      Some (s, d)) (s, dummy)
    = Some (blocks_fold g m (drop (Z.to_nat step_size * i) p) s, d).
Proof using Hbody Hdummy.
  change (Z.to_nat step_size) with 100%nat.
  induction m as [|m IH]; intros i s dummy Hi Hp; [by exists dummy|]. cbn [for_loop blocks_fold].
  erewrite (inner_loop_spec dummy_step p _ 0);
    change (Z.to_nat step_size) with 100%nat; [|apply dummy_body|lia|lia].
  cbn [mbind option_bind fst snd].
  rewrite (inner_loop_spec g p body K Hbody); change (Z.to_nat step_size) with 100%nat; [|lia|lia].
  cbn [mbind option_bind]. replace (Z.of_nat i + 1) with (Z.of_nat (i + 1)) by lia.
  edestruct (IH (i + 1)%nat) as [d ->]; [lia|lia|].
  exists d. do 3 f_equal. rewrite drop_drop. f_equal. lia.
Qed.

(** The loop ends on every vector of fewer than 2^32 elements, and processes exactly
    the whole blocks. *)
Lemma timed_loop_spec s dummy :
  Z.of_nat (length p + K) < 2 ^ 32 →
  ∃ d, timed_loop dummy_hash p body s dummy
       = Some (blocks_fold g (length p / Z.to_nat step_size) p s, d).
Proof using Hbody Hdummy.
  intros Hp. unfold timed_loop, timed_from. rewrite Z.sub_0_r.
  replace (Z.to_nat (Z.of_nat (length p) / step_size)) with (length p / Z.to_nat step_size)%nat
    by (change step_size with 100; change 100 with (Z.of_nat 100); by rewrite <-Nat2Z.inj_div, !Nat2Z.id).
  destruct (for_blocks (length p / Z.to_nat step_size) 0 s dummy) as [d Hd]; [|done|].
  - change (Z.to_nat step_size) with 100%nat. rewrite Nat.add_0_l. apply Nat.Div0.mul_div_le.
  - rewrite Nat.mul_0_r, drop_0 in Hd. by exists d.
Qed.
End timed.
