(* ===== verification/BenchHashes.v ===== *)
(** * The hash-function microbenchmark (src/benchmark_hashes.cpp)

    [bench_hashes] sums the hashes of the probes, in blocks of 1000, once per hash function
    requested, each run inside [benchmark] of Timings. The vectors of locations are
    prepared here and not by the constructors of the functors. *)
From stdpp Require Import strings gmap sorting.
From S2P Require Import Prelude Words Wyhash Xxh3 Floats LocArrays WyhashCustoms XxhCustoms Crc32Hash CrcWyhashCustoms EntropyFiles Timings SmallHashes HashFns BlockedLoop.

(** ** The loop *)

(** [s += hash(benchdat[(1000 * i) + k])]: [s] is an [int64_t], the hash unsigned *)
Definition sum_body (hash : bytes → option Z) (benchdat : list bytes) (i k s : Z) : option Z :=
  x ← vec_get benchdat (u32 (u32 (1000 * i) + k)); h ← hash x; Some (to_i64 (s + h)).

(** One block of 1000, [inner_loop_reuse] times. *)
Definition block_body (hash : bytes → option Z) (benchdat : list bytes) (i s : Z) : option Z :=
  for_loop (Z.to_nat inner_loop_reuse) 0 (λ _ s, for_loop 1000 0 (sum_body hash benchdat i) s) s.

(** [i] is an [unsigned]: the loop is the one of the code below 2^32 blocks. *)
Definition sum_hashes (hash : bytes → option Z) (benchdat : list bytes) : option Z :=
  for_loop (Z.to_nat (Z.of_nat (length benchdat) / 1000)) 0 (block_body hash benchdat) 0.

(** ** The vectors of locations *)

(** Two 8-byte locations as [unsigned] values, sorted, scaled to bytes, and the end of the last. *)
Definition sub8_locations (locs : list Z) : option (list Z) :=
  if 2 <=? Z.of_nat (length locs) then
    let l := (λ x, u32 (x * 8)) <$> merge_sort Z.le ((λ x, u32 x) <$> take 2 locs) in
    e ← last l; Some (l ++ [u32 (e + 8)])
  else None.

(** Four 4-byte locations, sorted. *)
Definition sub4_locations (locs : list Z) : option (list Z) :=
  if 4 <=? Z.of_nat (length locs) then Some (merge_sort Z.le (take 4 locs)) else None.

Section bench.
(** The CRC-32C instruction, [std::hash<std::string>], and the notation of doubles *)
Context `{C : Crc32} (std_hash : bytes → Z) `{D : DoubleText} (results_directory : option string).

(** Flag, name of the run, and hash of a key; no hash when a location is missing. *)
Record hash_case := HashCase { hc_flag : string; hc_name : string; hc_hash : option (bytes → option Z) }.

Definition hash_cases (locations : gmap Z (list Z)) : list hash_case :=
  let loc chunk := default [] (locations !! chunk) in
  let len (x : bytes) := Z.of_nat (length x) in
  [ HashCase "standard" "hash_standard" (Some (hash_standard_s std_hash));
    HashCase "xxh3" "hash_xxh3" (Some hash_xxh64);
    HashCase "wyhash" "wyhash" (Some (λ x, wyhash_default x (len x)));
    HashCase "xxh3_sub8" "hash_xxh3_sub8"
      (l ← sub8_locations (loc 8); Some (λ x, XXH3_2loc x (len x) l));
    HashCase "wyhash_sub8" "wyhash_sub8"
      (l ← sub8_locations (loc 8); Some (λ x, wyhash_2loc x (len x) l 0 _wyp));
    HashCase "wyhash_sub8_hardcode" "wyhash_sub8_hardcode" (Some (λ x, crc32_wyhash_hardcode x (len x)));
    HashCase "mmh2_sub4" "hash_mmh2_sub4"
      (l ← sub4_locations (loc 4); Some (λ x, hash_sub4_mmh2 x l 4)) ]%string.

(** [if (hashfuncs[flag]) { ...; benchmark(name, "hash_func", ...); }]; the sums that are
    printed, and the state. *)
Definition run_case (hashfuncs : string → bool) (benchdat : list bytes) (c : hash_case)
    (r : list (string * Z) * run_state) : option (list (string * Z) * run_state) :=
  if hashfuncs (hc_flag c) then
    hash ← hc_hash c;
    '(s, st) ← benchmark results_directory (hc_name c) "hash_func"
      (λ st, s ← sum_hashes hash benchdat; Some (s, st)) r.2;
    Some (r.1 ++ [(hc_name c, s)], st)
  else Some r.

Fixpoint run_cases (hashfuncs : string → bool) (benchdat : list bytes) (cs : list hash_case)
    (r : list (string * Z) * run_state) : option (list (string * Z) * run_state) :=
  match cs with
  | [] => Some r
  | c :: cs => r ← run_case hashfuncs benchdat c r; run_cases hashfuncs benchdat cs r
  end.

(** [hash_probes] is true: the data is not used. *)
Definition bench_hashes (hashfuncs : string → bool) (locations : gmap Z (list Z)) (data probes : list bytes)
    (st : run_state) : option (list (string * Z) * run_state) :=
  run_cases hashfuncs probes (hash_cases locations) ([], st).
End bench.

(** ** The sums *)

Definition hash_sum (hash : bytes → option Z) (l : list bytes) : Z := foldr (λ x s, default 0 (hash x) + s) 0 l.

Lemma hash_sum_app hash l l' : hash_sum hash (l ++ l') = hash_sum hash l + hash_sum hash l'.
Proof. unfold hash_sum. induction l as [|x l IH]; cbn [foldr app]; [done|]. rewrite IH. lia. Qed.

Lemma hash_sum_ext hash hash' l : (∀ x, x ∈ l → hash x = hash' x) → hash_sum hash l = hash_sum hash' l.
Proof.
  unfold hash_sum. induction l as [|x l IH]; intros Heq; cbn [foldr]; [done|].
  rewrite IH by (intros; apply Heq; by right). by rewrite (Heq x) by by left.
Qed.

(** The probes hashed: whole blocks of 1000. *)
Definition whole_blocks (l : list bytes) : list bytes := take (1000 * (length l / 1000)) l.

Section sums.
Context (hash : bytes → option Z) (p : list bytes).
Context (Hp : Z.of_nat (length p) < 2 ^ 32) (Hhash : ∀ x, x ∈ p → is_Some (hash x)).

Lemma sum_block n : ∀ i k s,
  (1000 * i + k + n ≤ length p)%nat →
  for_loop n (Z.of_nat k) (sum_body hash p (Z.of_nat i)) (to_i64 s)
  = Some (to_i64 (s + hash_sum hash (take n (drop (1000 * i + k) p)))).
Proof using Hp Hhash.
  induction n as [|n IH]; intros i k s Hn; cbn [for_loop]; [by rewrite take_0, Z.add_0_r|].
  destruct (lookup_lt_is_Some_2 p (1000 * i + k)) as [x Hx]; [lia|].
  destruct (Hhash x) as [h Hh]; [by eapply list_elem_of_lookup_2|].
  assert (sum_body hash p (Z.of_nat i) (Z.of_nat k) (to_i64 s) = Some (to_i64 (s + h))) as ->.
  { unfold sum_body, vec_get. rewrite !wrap_small by (rewrite ?wrap_small by (split; lia); split; lia).
    rewrite (proj2 (Z.leb_le _ _)) by lia.
    replace (Z.to_nat (1000 * Z.of_nat i + Z.of_nat k)) with (1000 * i + k)%nat by lia.
    rewrite Hx. cbn [mbind option_bind]. rewrite Hh. cbn [mbind option_bind]. by rewrite to_i64_add_l. }
  cbn [mbind option_bind].
  replace (Z.of_nat k + 1) with (Z.of_nat (S k)) by lia. rewrite IH by lia.
  rewrite (drop_S _ _ _ Hx). cbn [take hash_sum foldr]. rewrite Hh. cbn [default from_option id].
  replace (1000 * i + S k)%nat with (S (1000 * i + k)) by lia. do 2 f_equal. unfold hash_sum. lia.
Qed.

Lemma block_ok i s :
  (1000 * (i + 1) ≤ length p)%nat →
  block_body hash p (Z.of_nat i) (to_i64 s) = Some (to_i64 (s + hash_sum hash (take 1000 (drop (1000 * i) p)))).
Proof using Hp Hhash.
  intros Hi. unfold block_body. change (Z.to_nat inner_loop_reuse) with 1%nat.
  pose proof (sum_block 1000 i 0 s ltac:(lia)) as H. rewrite Nat.add_0_r in H. change (Z.of_nat 0) with 0 in H.
  transitivity (for_loop 1000 0 (sum_body hash p (Z.of_nat i)) (to_i64 s) ≫= Some); [done|]. by rewrite H.
Qed.

Lemma sum_blocks m : ∀ i s,
  (1000 * (i + m) ≤ length p)%nat →
  for_loop m (Z.of_nat i) (block_body hash p) (to_i64 s)
  = Some (to_i64 (s + hash_sum hash (take (1000 * m) (drop (1000 * i) p)))).
Proof using Hp Hhash.
  induction m as [|m IH]; intros i s Hm; cbn [for_loop].
  { by rewrite Nat.mul_0_r, take_0, Z.add_0_r. }
  rewrite block_ok by lia. cbn [mbind option_bind].
  replace (Z.of_nat i + 1) with (Z.of_nat (S i)) by lia. rewrite IH by lia. do 2 f_equal.
  replace (1000 * S m)%nat with (1000 + 1000 * m)%nat by lia.
  replace (1000 * S i)%nat with (1000 * i + 1000)%nat by lia.
  rewrite <-drop_drop, <-take_take_drop, hash_sum_app. lia.
Qed.

Lemma sum_hashes_ok : sum_hashes hash p = Some (to_i64 (hash_sum hash (whole_blocks p))).
Proof using Hp Hhash.
  unfold sum_hashes.
  replace (Z.to_nat (Z.of_nat (length p) / 1000)) with (length p / 1000)%nat
    by (change 1000 with (Z.of_nat 1000); by rewrite <-Nat2Z.inj_div, Nat2Z.id).
  pose proof (sum_blocks (length p / 1000) 0 0) as H. rewrite Nat.mul_0_r, drop_0 in H.
  apply H. rewrite Nat.add_0_l. apply Nat.Div0.mul_div_le.
Qed.
End sums.

(** ** The locations *)

Lemma merge_sort_two a b : merge_sort Z.le [a; b] = if decide (a ≤ b) then [a; b] else [b; a].
Proof. unfold merge_sort. cbn. case_decide; done. Qed.

(** The first two locations are distinct words whose offsets fit. *)
Definition two_words (locs : list Z) : Prop :=
  ∃ a b rest, locs = a :: b :: rest ∧ a ≠ b ∧ 0 ≤ a ∧ 8 * a + 8 < 2 ^ 31 ∧ 0 ≤ b ∧ 8 * b + 8 < 2 ^ 31.

(** On them the benchmark prepares the vector that the functors' constructors do. *)
Lemma sub8_locations_ctor locs :
  two_words locs →
  locs_wf 2 (merge_sort Z.le (take 2 locs)) ∧ sub8_locations locs = ctor_endpoint 2 (merge_sort Z.le (take 2 locs)).
Proof.
  intros (a & b & rest & -> & Hab & Ha & Ha' & Hb & Hb'). cbn [take]. rewrite take_0. split.
  - rewrite merge_sort_two. split; [by case_decide|]. case_decide; cbn [take];
      (split; [repeat constructor; lia|repeat constructor; lia]).
  - unfold sub8_locations. rewrite (proj2 (Z.leb_le _ _)) by (cbn [length]; lia). cbn [take]. rewrite take_0.
    cbn [fmap list_fmap]. rewrite !wrap_small by (split; lia). rewrite merge_sort_two.
    case_decide; (erewrite ctor_endpoint_eq; [|reflexivity|lia|lia]);
      cbn [fmap list_fmap last mbind option_bind take app]; rewrite !ctor_loc_small by lia;
      rewrite !(wrap_small 32 (_ * 8)) by (split; lia); rewrite wrap_small by (split; lia);
      by rewrite !(Z.mul_comm 8).
Qed.

Section cases.
Context `{C : Crc32} (std_hash default_hash : bytes → Z) `{D : DoubleText} (results_directory : option string).
Context (hashfuncs : string → bool).

(** The same runs by the functors of the other benchmarks, without mmh2_sub4. *)
Definition functor_cases : list (string * string * hash_fn) :=
  [ ("standard", "hash_standard", Hstandard); ("xxh3", "hash_xxh3", Hxxh64); ("wyhash", "wyhash", Hwyhash);
    ("xxh3_sub8", "hash_xxh3_sub8", Hsub8 Fxxh3 2 false); ("wyhash_sub8", "wyhash_sub8", Hsub8 Fwyhash 2 false);
    ("wyhash_sub8_hardcode", "wyhash_sub8_hardcode", Hwyhash_hardcode) ]%string.

(** The hash of the functor, built from the first two locations. *)
Definition functor_hash (locs8 : list Z) (fn : hash_fn) : bytes → option Z :=
  run_hash std_hash default_hash fn (merge_sort Z.le (take 2 locs8)).

(** A case of the microbenchmark and the functor that it agrees with when it is requested. *)
Definition case_agrees (locs8 : list Z) (c : hash_case) (f : string * string * hash_fn) : Prop :=
  hc_flag c = f.1.1 ∧ hc_name c = f.1.2 ∧
  (hashfuncs (hc_flag c) = true →
   ∃ hash, hc_hash c = Some hash ∧ ∀ x, fits 64 (Z.of_nat (length x)) →
     hash x = functor_hash locs8 f.2 x ∧ is_Some (functor_hash locs8 f.2 x)).

Lemma hardcode_defined x : fits 64 (Z.of_nat (length x)) → is_Some (hash_wyhash_hardcode x).
Proof using.
  intros Hx. unfold hash_wyhash_hardcode, crc32_wyhash_hardcode, _wyr8. destruct (56 <? _) eqn:Hl.
  - apply Z.ltb_lt in Hl. destruct (load_le_in_bounds 8 x 40) as (a & -> & _); [lia..|].
    destruct (load_le_in_bounds 8 x 48) as (b & -> & _); [lia..|]. by eexists.
  - destruct (wyhash_total x 0 _wyp) as (h & -> & _); [apply _wyp_wf|split; lia|done|by eexists].
Qed.

(** A functor on the vector that the benchmark prepares. *)
Lemma sub8_case (f : functor) (S : SubKeySafe f false) locs8 :
  f_words f = 2%nat → f_ctor f = ctor_endpoint 2 → two_words locs8 →
  ∃ hash, (l ← sub8_locations locs8; Some (f_call f l)) = Some hash ∧ ∀ x, fits 64 (Z.of_nat (length x)) →
    hash x = functor_run f (merge_sort Z.le (take 2 locs8)) x ∧
    is_Some (functor_run f (merge_sort Z.le (take 2 locs8)) x).
Proof using.
  intros Hw Hc H8. destruct (sub8_locations_ctor _ H8) as [Hwf ->].
  rewrite <-Hw in Hwf at 1. destruct (sub_key_safe (f := f) (fixed := false) _ [] Hwf) as (h & Hh & _); [split; simpl; lia|done|].
  unfold functor_run in *. rewrite Hc in Hh. apply bind_Some in Hh as (a & Ha & _). rewrite Ha.
  eexists. split; [reflexivity|]. intros x Hx. rewrite Hc, Ha. split; [done|].
  destruct (sub_key_safe (f := f) (fixed := false) _ x Hwf Hx ltac:(done)) as (h' & Hh' & _).
  unfold functor_run in Hh'. rewrite Hc, Ha in Hh'. by exists h'.
Qed.

Lemma cases_agree locations :
  (hashfuncs "xxh3_sub8" || hashfuncs "wyhash_sub8" = true → two_words (default [] (locations !! 8))) →
  Forall2 (case_agrees (default [] (locations !! 8))) (take 6 (hash_cases std_hash locations)) functor_cases.
Proof using.
  intros H8. unfold hash_cases, functor_cases, functor_hash. cbn [take].
  repeat (apply Forall2_cons; split;
    [split; [exact eq_refl|split; [exact eq_refl|cbn [hc_flag hc_hash fst snd]; intros Hreq]]|]);
    [..|by apply Forall2_nil].
  - eexists. split; [exact eq_refl|]. intros x _. split; [done|]. by eexists.
  - eexists. split; [exact eq_refl|]. intros x _. split; [done|].
    destruct (XXH3_64bits_total x) as (h & Hh & _). exists h. exact Hh.
  - eexists. split; [exact eq_refl|]. intros x Hx. split; [done|].
    destruct (wyhash_total x 0 _wyp) as (h & Hh & _); [apply _wyp_wf|split; lia|done|]. exists h. exact Hh.
  - apply (sub8_case XXH3_2loc_f _ _); [done|done|by apply H8; rewrite Hreq].
  - apply (sub8_case wyhash_2loc_f _ _); [done|done|by apply H8; rewrite Hreq, orb_true_r].
  - eexists. split; [exact eq_refl|]. intros x Hx. split; [done|]. by apply hardcode_defined.
Qed.

(** ** The runs *)

(** What the run of a functor prints. *)
Definition functor_sum (locs8 : list Z) (probes : list bytes) (f : string * string * hash_fn) : string * Z :=
  (f.1.2, to_i64 (hash_sum (functor_hash locs8 f.2) (whole_blocks probes))).

Lemma run_cases_ok locs8 probes cs fs :
  Z.of_nat (length probes) < 2 ^ 32 → Forall (λ x : bytes, fits 64 (Z.of_nat (length x))) probes →
  Forall2 (case_agrees locs8) cs fs →
  (∀ dir f, results_directory = Some dir → f ∈ fs → is_Some (result_fname dir f.1.2)) →
  ∀ r, ∃ st', run_cases results_directory hashfuncs probes cs r
    = Some (r.1 ++ (functor_sum locs8 probes <$> filter (λ f, hashfuncs f.1.1 = true) fs), st').
Proof using.
  intros Hn Hp. induction 1 as [|c f cs fs Hc _ IH]; intros Hdir r; cbn [run_cases].
  { destruct r as [sums st]. rewrite filter_nil, fmap_nil, app_nil_r. by eexists. }
  destruct Hc as (Hflag & Hname & Hhash). unfold run_case. rewrite filter_cons, Hflag in *.
  destruct (hashfuncs f.1.1) eqn:Hreq; cbn [decide].
  - destruct (Hhash eq_refl) as (hash & -> & Hag). cbn [mbind option_bind].
    assert (sum_hashes hash probes = Some (functor_sum locs8 probes f).2) as Hsum.
    { rewrite Forall_forall in Hp. rewrite sum_hashes_ok; [|done|].
      - cbn [functor_sum snd]. do 2 f_equal. apply hash_sum_ext. intros x (i & Hx & _)%elem_of_take.
        destruct (Hag x) as [Heq _]; [|exact Heq]. by eapply Hp, list_elem_of_lookup_2.
      - intros x Hx. destruct (Hag x (Hp x Hx)) as [-> ?]. done. }
    destruct (benchmark_spec results_directory (hc_name c) "hash_func" (λ st, s ← sum_hashes hash probes; Some (s, st)) r.2
      (functor_sum locs8 probes f).2 r.2) as (st' & -> & _).
    { by rewrite Hsum. }
    { intros dir Hd. rewrite Hname. apply Hdir; [done|by left]. }
    cbn [mbind option_bind]. destruct (IH ltac:(intros; apply Hdir; [done|by right]) (r.1 ++ [(hc_name c, (functor_sum locs8 probes f).2)], st')) as (st'' & ->).
    exists st''. cbn [fst]. rewrite <-app_assoc, Hname. done.
  - cbn [mbind option_bind]. apply IH. intros; apply Hdir; [done|by right].
Qed.

Lemma run_cases_app probes cs cs' r :
  run_cases results_directory hashfuncs probes (cs ++ cs') r
  = run_cases results_directory hashfuncs probes cs r ≫= run_cases results_directory hashfuncs probes cs'.
Proof using.
  revert r. induction cs as [|c cs IH]; intros r; cbn [run_cases app]; [done|].
  destruct (run_case results_directory hashfuncs probes c r) as [r'|]; [|done]. apply IH.
Qed.

(** Every function but mmh2_sub4. *)
Lemma hash_cases_split locations :
  hash_cases std_hash locations = take 6 (hash_cases std_hash locations)
    ++ [HashCase "mmh2_sub4" "hash_mmh2_sub4"
         (l ← sub4_locations (default [] (locations !! 4)); Some (λ x, hash_sub4_mmh2 x l 4))].
Proof using. reflexivity. Qed.

(** C20: The microbenchmark of the hash functions: on fewer than 2^32 probes, every function that is
    requested, [mmh2_sub4] apart, completes, and prints the sum of the hashes of the probes
    of the whole blocks of 1000, as a signed 64-bit integer; the sub-key functions are those
    of the functors that the other benchmarks build from the two first 8-byte locations, which are only
    needed, in range and distinct, when such a function is requested. If the results are written to
    files, their names must fit the buffer of 100 characters. *)
Theorem bench_hashes_sums locations data probes st :
  hashfuncs "mmh2_sub4" = false →
  (hashfuncs "xxh3_sub8" || hashfuncs "wyhash_sub8" = true → two_words (default [] (locations !! 8))) →
  Z.of_nat (length probes) < 2 ^ 32 → Forall (λ x : bytes, fits 64 (Z.of_nat (length x))) probes →
  (∀ dir f, results_directory = Some dir → f ∈ functor_cases → is_Some (result_fname dir f.1.2)) →
  ∃ st', bench_hashes std_hash results_directory hashfuncs locations data probes st
    = Some (functor_sum (default [] (locations !! 8)) probes <$> filter (λ f, hashfuncs f.1.1 = true) functor_cases, st').
Proof using.
  intros Hm H8 Hn Hp Hdir. unfold bench_hashes. rewrite hash_cases_split, run_cases_app.
  destruct (run_cases_ok _ probes _ _ Hn Hp (cases_agree locations H8) Hdir ([], st)) as (st' & ->).
  exists st'. cbn [mbind option_bind run_cases]. unfold run_case. cbn [hc_flag]. by rewrite Hm.
Qed.

(** ** The times *)

Lemma run_case_timings probes c r r' :
  run_case results_directory hashfuncs probes c r = Some r' →
  total_time_without_dummy_hashing_filter r'.2 = total_time_without_dummy_hashing_filter r.2 ∧
  timings r'.2 = if hashfuncs (hc_flag c) then
    add_timing "hash_func" (hc_name c)
      (f64_div (total_time_without_dummy_hashing_filter r.2) (f64_of_Z inner_loop_reuse)) (timings r.2)
    else timings r.2.
Proof using.
  unfold run_case. destruct (hashfuncs (hc_flag c)); [|by intros [= <-]].
  intros (hash & _ & ([s st] & Hb & [= <-])%bind_Some)%bind_Some. unfold benchmark in Hb.
  apply bind_Some in Hb as ([s' st1] & Hf & (st2 & Hw & [= <- <-])%bind_Some).
  apply bind_Some in Hf as (s'' & _ & [= <- <-]). cbn [snd]. apply write_result_same in Hw as (-> & _ & -> & _). done.
Qed.

Lemma run_cases_timings probes cs : ∀ r r',
  NoDup (hc_name <$> cs) → run_cases results_directory hashfuncs probes cs r = Some r' →
  (∀ n, n ∉ hc_name <$> cs → timing (timings r'.2) "hash_func" n = timing (timings r.2) "hash_func" n) ∧
  ∀ c, c ∈ cs → hashfuncs (hc_flag c) = true → timing (timings r'.2) "hash_func" (hc_name c)
    = f64_add (timing (timings r.2) "hash_func" (hc_name c))
        (f64_div (total_time_without_dummy_hashing_filter r.2) (f64_of_Z inner_loop_reuse)).
Proof using.
  induction cs as [|c cs IH]; intros r r' Hnd Hrun; cbn [run_cases] in Hrun.
  { injection Hrun as <-. split; [done|]. by intros c ?%not_elem_of_nil. }
  rewrite fmap_cons in Hnd |- *. apply NoDup_cons in Hnd as [Hc Hnd].
  apply bind_Some in Hrun as (r1 & H1 & Hrun). apply run_case_timings in H1 as [Hf Ht].
  destruct (IH r1 r' Hnd Hrun) as [Hother Hin].
  assert (∀ n, n ≠ hc_name c → timing (timings r1.2) "hash_func" n = timing (timings r.2) "hash_func" n) as Hne.
  { intros n Hn. rewrite Ht. destruct (hashfuncs (hc_flag c)); [|done]. apply timing_add_ne. right. congruence. }
  split.
  - intros n [Hn Hn']%not_elem_of_cons. rewrite Hother by done. by apply Hne.
  - intros c' [->|Hc']%elem_of_cons Hreq.
    + rewrite Hother by done. rewrite Ht, Hreq. apply timing_add_eq.
    + rewrite Hin, Hf by done. f_equal. apply Hne. intros Heq. apply Hc. rewrite <-Heq.
      by apply list_elem_of_fmap_2.
Qed.

(** The microbenchmark measures nothing: whenever it completes, the time recorded for each
    function requested is what was there plus the time that the filter benchmarks measured
    last, whatever the function, the data and the probes are; no filter benchmark run, it is zero. *)
Theorem hash_func_time_unmeasured locations data probes st sums st' :
  bench_hashes std_hash results_directory hashfuncs locations data probes st = Some (sums, st') →
  ∀ c, c ∈ hash_cases std_hash locations → hashfuncs (hc_flag c) = true →
    timing (timings st') "hash_func" (hc_name c)
    = f64_add (timing (timings st) "hash_func" (hc_name c))
        (f64_div (total_time_without_dummy_hashing_filter st) (f64_of_Z inner_loop_reuse)).
Proof using.
  intros Hrun. apply run_cases_timings in Hrun as [_ H]; [exact H|]. apply (bool_decide_unpack _). vm_compute. exact I.
Qed.

(** ** mmh2_sub4 *)

Lemma sum_hashes_undefined hash p x :
  Z.of_nat (length p) < 2 ^ 32 → x ∈ whole_blocks p → hash x = None → sum_hashes hash p = None.
Proof using.
  intros Hn (j & Hj & Hjm)%elem_of_take Hx. pose proof (lookup_lt_Some _ _ _ Hj) as Hlt.
  unfold sum_hashes.
  replace (Z.to_nat (Z.of_nat (length p) / 1000)) with (length p / 1000)%nat
    by (change 1000 with (Z.of_nat 1000); by rewrite <-Nat2Z.inj_div, Nat2Z.id).
  pose proof (Nat.div_mod j 1000 ltac:(lia)) as Hdm. pose proof (Nat.mod_upper_bound j 1000 ltac:(lia)) as Hub.
  assert (j / 1000 < length p / 1000)%nat by (apply (Nat.Div0.div_lt_upper_bound j 1000); lia).
  apply (for_loop_None _ _ _ _ (Z.of_nat (j / 1000))); [lia|]. intros s. unfold block_body.
  apply (for_loop_None _ _ _ _ 0); [change (Z.to_nat inner_loop_reuse) with 1%nat; lia|]. intros s'.
  apply (for_loop_None _ _ _ _ (Z.of_nat (j mod 1000))); [lia|]. intros s''. unfold sum_body, vec_get.
  rewrite !wrap_small by (rewrite ?wrap_small by (split; lia); split; lia).
  rewrite (proj2 (Z.leb_le _ _)) by lia.
  replace (Z.to_nat (1000 * Z.of_nat (j / 1000) + Z.of_nat (j mod 1000))) with j by lia.
  rewrite Hj. cbn [mbind option_bind]. by rewrite Hx.
Qed.

Lemma sub4_undefined locs x :
  (4 ≤ length locs)%nat → Forall (λ l, 0 ≤ l < 2 ^ 31 ∧ l < Z.of_nat (length x) / 4) (take 4 locs) →
  ∃ l, sub4_locations locs = Some l ∧ hash_sub4_mmh2 x l 4 = None.
Proof using.
  intros Hlen Hall. unfold sub4_locations. rewrite (proj2 (Z.leb_le _ _)) by lia. eexists. split; [done|].
  pose proof (merge_sort_Permutation Z.le (take 4 locs)) as Hp. rewrite <-Hp in Hall.
  pose proof (Permutation_length Hp) as Hl. rewrite length_take in Hl.
  assert (4 = Z.of_nat (length (merge_sort Z.le (take 4 locs)))) as -> by lia.
  apply hash_sub4_mmh2_reads_past; [lia|done].
Qed.

(** Requesting [mmh2_sub4]: the function is given an array of exactly four locations and reads
    the fifth after the last word, so one probe of the whole blocks that reaches all four words
    leaves the benchmark without a defined behaviour. *)
Theorem bench_hashes_mmh2_undefined locations data probes st x :
  hashfuncs "mmh2_sub4" = true → 4 ≤ Z.of_nat (length (default [] (locations !! 4))) →
  Z.of_nat (length probes) < 2 ^ 32 → x ∈ whole_blocks probes →
  Forall (λ l, 0 ≤ l < 2 ^ 31 ∧ l < Z.of_nat (length x) / 4) (take 4 (default [] (locations !! 4))) →
  bench_hashes std_hash results_directory hashfuncs locations data probes st = None.
Proof using.
  intros Hm H4 Hn Hx Hall. unfold bench_hashes. rewrite hash_cases_split, run_cases_app.
  destruct (run_cases _ _ _ (take 6 _) _) as [r|]; [|done]. cbn [mbind option_bind run_cases]. unfold run_case.
  cbn [hc_flag hc_hash]. rewrite Hm. assert (4 ≤ length (default [] (locations !! 4%Z)))%nat as H4' by lia.
  destruct (sub4_undefined _ x H4' Hall) as (l & -> & Hh). cbn [mbind option_bind].
  unfold benchmark. by rewrite (sum_hashes_undefined _ probes x Hn Hx Hh).
Qed.
End cases.

(** ** Instances *)
Definition demo_probes : list bytes := replicate 1000 (replicate 16 x61) ++ [[x62]].
Definition demo_locations : gmap Z (list Z) := {[ 8 := [1; 0]; 4 := [3; 0; 2; 1] ]}.
Definition demo_bench (hashfuncs : string → bool) :=
  bench_hashes (D := demo_double_text) (λ _, 5) None hashfuncs demo_locations [] demo_probes
    (demo_state (f64_of_Z 0)).

(** The standard hash is 5 for every key: a thousand keys are summed, the last is not. *)
Lemma bench_hashes_sums_witness :
  ∃ st', demo_bench (λ f, String.eqb f "standard") = Some ([("hash_standard"%string, 5000)], st').
Proof.
  destruct (bench_hashes_sums (D := demo_double_text) (λ _, 5) (λ _, 0) None
    (λ f, String.eqb f "standard") demo_locations [] demo_probes (demo_state (f64_of_Z 0))) as (st' & H).
  - reflexivity.
  - discriminate.
  - vm_compute. reflexivity.
  - vm_decide.
  - discriminate.
  - exists st'. unfold demo_bench. rewrite H. vm_compute. reflexivity.
Defined.

Lemma hash_func_time_unmeasured_witness :
  ∃ sums st', bench_hashes (D := demo_double_text) (λ _, 5) None (λ f, String.eqb f "wyhash_sub8") demo_locations []
      [replicate 16 x61] (demo_state (f64_of_Z 0)) = Some (sums, st') ∧
    timing (timings st') "hash_func" "wyhash_sub8" = f64_of_Z 0.
Proof.
  destruct (bench_hashes _ _ _ _ _ _ _) as [[sums st']|] eqn:Hrun; [|vm_compute in Hrun; discriminate].
  exists sums, st'. split; [reflexivity|].
  assert (∀ c, c ∈ hash_cases (λ _, 5) demo_locations → String.eqb (hc_flag c) "wyhash_sub8" = true →
    timing (timings st') "hash_func" (hc_name c) = f64_of_Z 0) as H.
  { intros c Hc Hreq. rewrite (hash_func_time_unmeasured (D := demo_double_text) (λ _, 5) None
      (λ f, String.eqb f "wyhash_sub8") demo_locations [] [replicate 16 x61] (demo_state (f64_of_Z 0)) sums st' Hrun c Hc Hreq).
    unfold timing. cbn [timings demo_state]. rewrite lookup_empty. vm_compute. reflexivity. }
  unfold hash_cases in H.
  refine (H (HashCase "wyhash_sub8" "wyhash_sub8" _) _ eq_refl). do 4 right. left.
Defined.

Lemma bench_hashes_mmh2_undefined_witness :
  demo_bench (λ f, String.eqb f "mmh2_sub4") = None.
Proof.
  apply (bench_hashes_mmh2_undefined (D := demo_double_text) (λ _, 5) None
    (λ f, String.eqb f "mmh2_sub4") demo_locations [] demo_probes (demo_state (f64_of_Z 0)) (replicate 16 x61)).
  - reflexivity.
  - vm_compute. discriminate.
  - vm_compute. reflexivity.
  - left.
  - vm_decide.
Defined.

(** A location of -1 becomes 4294967295 and sorts last: its end wraps to 0, so every key passes the
    test of its length, and the word is read far outside. *)
Example minus_one_location :
  sub8_locations [-1; 0] = Some [0; 2 ^ 32 - 8; 0] ∧
  XXH3_2loc (replicate 16 x61) 16 [0; 2 ^ 32 - 8; 0] = None.
Proof. split; vm_compute; reflexivity. Qed.
