(* ===== verification/FiniteMaps.v ===== *)
(** * What insertions do to the finite map a table stands for

    Insertions that keep an entry the map has, one or a range of them, as [insert] and
    [try_emplace] of the hash tables promise. *)
From stdpp Require Import gmap.
From S2P Require Import Prelude.

Section finite_maps.
Context {K V : Type} `{Countable K}.
Implicit Type g : gmap K V.

(** What an insertion that keeps the old value does to the map. *)
Definition put_new g (kv : K * V) : gmap K V := if g !! kv.1 is Some _ then g else <[kv.1 := kv.2]> g.

Definition put_all g (l : list (K * V)) : gmap K V := foldl put_new g l.

Lemma insert_dom_subseteq g k v (X : gset K) : dom g ⊆ X → k ∈ X → dom (<[k := v]> g) ⊆ X.
Proof. intros Hg Hk. rewrite dom_insert_L. apply union_least; [by apply singleton_subseteq_l|done]. Qed.

Lemma delete_dom_subseteq g k (X : gset K) : dom g ⊆ X → dom (delete k g) ⊆ X.
Proof. intros Hg. rewrite dom_delete_L. etrans; [apply subseteq_difference_l|]; done. Qed.

Lemma put_new_dom g kv (X : gset K) : dom g ⊆ X → kv.1 ∈ X → dom (put_new g kv) ⊆ X.
Proof. intros Hg Hk. unfold put_new. destruct (g !! kv.1); [done|]. by apply insert_dom_subseteq. Qed.

Lemma put_all_dom l (X : gset K) : ∀ g, dom g ⊆ X → Forall (λ kv, kv.1 ∈ X) l → dom (put_all g l) ⊆ X.
Proof.
  induction l as [|kv l IH]; intros g Hg Hl; [done|]. apply Forall_cons in Hl as [Hk Hl].
  apply IH; [by apply put_new_dom|done].
Qed.

Lemma map_size_delete_plus g k v : g !! k = Some v → Z.of_nat (size g) = Z.of_nat (size (delete k g)) + 1.
Proof.
  intros Hg. rewrite map_size_delete_Some by (by eexists).
  assert (size g ≠ 0%nat); [|lia]. intros Hz%map_size_empty_inv. subst g. by rewrite lookup_empty in Hg.
Qed.

(** Sizes are bounded by a set of keys. *)
Lemma size_dom_bound g (X : gset K) : dom g ⊆ X → Z.of_nat (size g) ≤ Z.of_nat (size X).
Proof. intros Hg. pose proof (subseteq_size _ _ Hg) as Hle. rewrite size_dom in Hle. lia. Qed.

Lemma list_to_set_size (l : list K) : (size (list_to_set (C := gset K) l) ≤ length l)%nat.
Proof.
  induction l as [|k l IH]; cbn [list_to_set length]; [by rewrite size_empty|].
  rewrite size_union_alt, size_singleton. assert (size (list_to_set (C := gset K) l ∖ {[k]}) ≤ size (list_to_set (C := gset K) l))%nat by (apply subseteq_size; set_solver). lia.
Qed.

Lemma put_new_size g kv : Z.of_nat (size (put_new g kv)) ≤ Z.of_nat (size g) + 1.
Proof. unfold put_new. destruct (g !! kv.1) eqn:Hg; [lia|]. rewrite map_size_insert_None by done. lia. Qed.

Lemma put_new_lookup g kv : put_new g kv !! kv.1 = Some (default kv.2 (g !! kv.1)).
Proof. unfold put_new. destruct (g !! kv.1) eqn:Hg; [by rewrite Hg|]. by rewrite lookup_insert_eq. Qed.
End finite_maps.
