(* ===== verification/RobinGrowth.v ===== *)
(** * Growth policies of the robin-hood table (src/tsl/robin_growth_policy.h)

    A policy chooses the number of buckets and maps a hash to a bucket. The table only
    uses it through [GrowthPolicy]; [GrowthPolicyLaws] is what the table's invariant
    needs of it, and the power-of-two policy, the one [tsl::robin_map] has by default,
    discharges it. *)
From S2P Require Import Prelude Words Floats.

Class GrowthPolicy (G : Type) := {
  (** the constructor: the policy and what it leaves in [min_bucket_count_in_out];
      [None] when it throws [std::length_error] *)
  gp_new : Z → option (G * Z);
  gp_bucket_for_hash : G → Z → option Z;
  gp_next_bucket_count : G → option Z;
  gp_max_bucket_count : Z;
  gp_clear : G → G;
  (** [is_power_of_two_policy], and the member [m_mask] such a policy has *)
  gp_is_power_of_two : bool;
  gp_mask : G → Z
}.

(** ** [power_of_two_growth_policy<GrowthFactor>] *)

Definition is_power_of_two (value : Z) : bool :=
  negb (value =? 0) && (Z.land value (u64 (value - 1)) =? 0).

(** [for (i = 1; i < 64; i *= 2) value |= value >> i;] *)
Definition smear_body (s : Z * Z) : option (Z * Z) :=
  let '(value, i) := s in Some (Z.lor value (Z.shiftr value i), u64 (i * 2)).

Definition round_up_to_power_of_two (value : Z) : option Z :=
  if is_power_of_two value then Some value
  else if value =? 0 then Some 1
  else
    s ← while 6 (λ s, s.2 <? 64) smear_body (u64 (value - 1), 1);
    Some (u64 (s.1 + 1)).

Record power_of_two_growth_policy := PowerOfTwo { m_mask : Z }.

Definition pow2_max_bucket_count : Z := u64 ((2 ^ 64 - 1) / 2 + 1).

Definition pow2_new (min_bucket_count_in_out : Z) : option (power_of_two_growth_policy * Z) :=
  if pow2_max_bucket_count <? min_bucket_count_in_out then None
  else if 0 <? min_bucket_count_in_out then
    n ← round_up_to_power_of_two min_bucket_count_in_out;
    Some (PowerOfTwo (u64 (n - 1)), n)
  else Some (PowerOfTwo 0, min_bucket_count_in_out).

Definition pow2_bucket_for_hash (p : power_of_two_growth_policy) (hash : Z) : Z :=
  Z.land hash (m_mask p).

Definition pow2_next_bucket_count (GrowthFactor : Z) (p : power_of_two_growth_policy) : option Z :=
  if pow2_max_bucket_count / GrowthFactor <? u64 (m_mask p + 1) then None
  else Some (u64 (u64 (m_mask p + 1) * GrowthFactor)).

Definition pow2_clear (p : power_of_two_growth_policy) : power_of_two_growth_policy := PowerOfTwo 0.

(** [tsl::rh::power_of_two_growth_policy<2>], the default of [tsl::robin_map] *)
#[export] Instance pow2_policy : GrowthPolicy power_of_two_growth_policy := {
  gp_new := pow2_new;
  gp_bucket_for_hash p h := Some (pow2_bucket_for_hash p h);
  gp_next_bucket_count := pow2_next_bucket_count 2;
  gp_max_bucket_count := pow2_max_bucket_count;
  gp_clear := pow2_clear;
  gp_is_power_of_two := true;
  gp_mask := m_mask
}.

(** ** [prime_growth_policy] *)

Definition PRIMES : list Z :=
  [1; 5; 17; 29; 37; 53; 67; 79; 97; 131; 193; 257; 389; 521; 769; 1031;
   1543; 2053; 3079; 6151; 12289; 24593; 49157;
   98317; 196613; 393241; 786433; 1572869; 3145739; 6291469; 12582917;
   25165843; 50331653; 100663319; 201326611; 402653189; 805306457; 1610612741;
   3221225473; 4294967291;
   6442450939; 12884901893; 25769803751; 51539607551; 103079215111; 206158430209;
   412316860441; 824633720831; 1649267441651; 3298534883309; 6597069766657].

Record prime_growth_policy := Prime { m_iprime : nat }.

(** [std::lower_bound] on the sorted array: the first prime that is not smaller. *)
Definition lower_bound (value : Z) (l : list Z) : option (nat * Z) :=
  list_find (λ p, value ≤ p) l.

Definition prime_new (min_bucket_count_in_out : Z) : option (prime_growth_policy * Z) :=
  '(i, p) ← lower_bound min_bucket_count_in_out PRIMES;
  Some (Prime i, if 0 <? min_bucket_count_in_out then p else 0).

(** [MOD_PRIME[m_iprime](hash)] *)
Definition prime_bucket_for_hash (g : prime_growth_policy) (hash : Z) : option Z :=
  p ← PRIMES !! m_iprime g; Some (hash `mod` p).

Definition prime_next_bucket_count (g : prime_growth_policy) : option Z := PRIMES !! S (m_iprime g).

Definition prime_max_bucket_count : Z := default 0 (last PRIMES).

Definition prime_clear (g : prime_growth_policy) : prime_growth_policy := Prime 0.

#[export] Instance prime_policy : GrowthPolicy prime_growth_policy := {
  gp_new := prime_new;
  gp_bucket_for_hash := prime_bucket_for_hash;
  gp_next_bucket_count := prime_next_bucket_count;
  gp_max_bucket_count := prime_max_bucket_count;
  gp_clear := prime_clear;
  gp_is_power_of_two := false;
  gp_mask _ := 0
}.

(** ** [mod_growth_policy<std::ratio<3, 2>>] *)

Record mod_growth_policy := ModPolicy { m_mod : Z }.

(** [1.0 * GrowthFactor::num / GrowthFactor::den] *)
Definition REHASH_SIZE_MULTIPLICATION_FACTOR : spec_float := f64_div (f64_mul (f64_of_Z 1) (f64_of_Z 3)) (f64_of_Z 2).

(** Converting the [double] to [size_t] is defined, but for a constant that is evaluated here. *)
Definition mod_max_bucket_count : Z :=
  default 0 (sf_to_unsigned 64 (f64_div (f64_of_Z (2 ^ 64 - 1)) REHASH_SIZE_MULTIPLICATION_FACTOR)).

Definition mod_new (min_bucket_count_in_out : Z) : option (mod_growth_policy * Z) :=
  if mod_max_bucket_count <? min_bucket_count_in_out then None
  else Some (ModPolicy (if 0 <? min_bucket_count_in_out then min_bucket_count_in_out else 1), min_bucket_count_in_out).

Definition mod_bucket_for_hash (p : mod_growth_policy) (hash : Z) : Z := hash `mod` m_mod p.

(** [std::isnormal] *)
Definition f64_isnormal (x : spec_float) : bool :=
  match x with S754_finite _ m e => (-1074 <? e) || (2 ^ 52 <=? Zpos m) | _ => false end.

Definition mod_next_bucket_count (p : mod_growth_policy) : option Z :=
  if m_mod p =? mod_max_bucket_count then None
  else
    let next_bucket_count := f64_ceil (f64_mul (f64_of_Z (m_mod p)) REHASH_SIZE_MULTIPLICATION_FACTOR) in
    if negb (f64_isnormal next_bucket_count) then None
    else if SFltb (f64_of_Z mod_max_bucket_count) next_bucket_count then Some mod_max_bucket_count
    else sf_to_unsigned 64 next_bucket_count.

Definition mod_clear (p : mod_growth_policy) : mod_growth_policy := ModPolicy 1.

#[export] Instance mod_policy : GrowthPolicy mod_growth_policy := {
  gp_new := mod_new;
  gp_bucket_for_hash p h := Some (mod_bucket_for_hash p h);
  gp_next_bucket_count := mod_next_bucket_count;
  gp_max_bucket_count := mod_max_bucket_count;
  gp_clear := mod_clear;
  gp_is_power_of_two := false;
  gp_mask _ := 0
}.

(** The limit is two thirds of [2^64], as a [double]; small tables grow by a half, rounded up. *)
Example mod_limits :
  mod_max_bucket_count = 12297829382473033728 ∧ mod_next_bucket_count (ModPolicy 7) = Some 11 ∧
  mod_next_bucket_count (ModPolicy 1) = Some 2.
Proof. vm_compute. auto. Qed.

Lemma mod_bucket_range n p h : mod_new n = Some (p, n) → 0 ≤ n → 0 ≤ mod_bucket_for_hash p h < Z.max 1 n.
Proof.
  unfold mod_new. intros Hn Hn0. destruct (_ <? n); [done|]. injection Hn as <-. unfold mod_bucket_for_hash.
  cbn [m_mod]. destruct (Z.ltb_spec 0 n); [rewrite Z.max_r by lia; by apply Z.mod_pos_bound|].
  rewrite Z.max_l by lia. by apply Z.mod_pos_bound.
Qed.

(** ** What the table relies on

    [gp_ok g n]: the policy [g] is one for [n] buckets. *)
Class GrowthPolicyLaws (G : Type) `{GrowthPolicy G} := {
  gp_ok : G → Z → Prop;
  gp_max_bound : 0 ≤ gp_max_bucket_count (G := G) < 2 ^ 64;
  gp_ok_range g n : gp_ok g n → 0 ≤ n ≤ gp_max_bucket_count (G := G);
  gp_new_ok n : 0 ≤ n ≤ gp_max_bucket_count (G := G) →
    ∃ g n', gp_new n = Some (g, n') ∧ gp_ok g n' ∧ n ≤ n' ≤ 4 * n;
  gp_bucket_ok g n h : gp_ok g n → fits 64 h →
    ∃ b, gp_bucket_for_hash g h = Some b ∧ 0 ≤ b < Z.max 1 n;
  gp_next_ok g n c : gp_ok g n → gp_next_bucket_count g = Some c → Z.max 1 n < c ≤ gp_max_bucket_count (G := G);
  gp_next_total g n : gp_ok g n → n ≤ 2 ^ 40 →
    ∃ c, gp_next_bucket_count g = Some c ∧ c ≤ 5 * Z.max 1 n;
  gp_clear_ok g : gp_ok (gp_clear g) 0;
  (** [next_bucket] with the mask goes around the array *)
  gp_mask_ok g n i : gp_is_power_of_two (G := G) = true → gp_ok g n → 0 ≤ i < n →
    Z.land (u64 (i + 1)) (gp_mask g) = if i + 1 =? n then 0 else i + 1;
  (** the lower half of a hash is enough for up to 2^32 buckets *)
  gp_trunc_ok g n h : gp_is_power_of_two (G := G) = true → gp_ok g n → 0 < n ≤ 2 ^ 32 →
    gp_bucket_for_hash g (u32 h) = gp_bucket_for_hash g h
}.

(** ** Rounding up to a power of two *)

(** The top [w] bits below bit [L] are set. *)
Definition top_set (L w v : Z) : Prop :=
  0 ≤ v < 2 ^ (L + 1) ∧ ∀ i, L - w < i ≤ L → 0 ≤ i → Z.testbit v i = true.

Lemma top_set_smear L w v : 0 ≤ L → 0 < w → top_set L w v → top_set L (2 * w) (Z.lor v (Z.shiftr v w)).
Proof.
  intros HL Hw [Hv Htop]. split.
  - apply (fits_lor (L + 1)); [lia|done|]. apply fits_shiftr; [lia|done].
  - intros i Hi Hi0. rewrite Z.lor_spec, Z.shiftr_spec by done.
    destruct (decide (L - w < i)); [rewrite Htop by lia; done|].
    rewrite (Htop (i + w)) by lia. apply orb_true_r.
Qed.

Lemma top_set_full L w v : 0 ≤ L < w → top_set L w v → v = 2 ^ (L + 1) - 1.
Proof.
  intros HL [Hv Htop]. apply (fits_testbit (L + 1)) in Hv as [Hv0 Hhigh]; [|lia].
  rewrite Z.sub_1_r, <-Z.ones_equiv. apply Z.bits_inj'. intros i Hi.
  destruct (decide (i ≤ L)).
  - rewrite Z.ones_spec_low by lia. apply Htop; lia.
  - rewrite Z.ones_spec_high by lia. apply Hhigh. lia.
Qed.

Lemma is_power_of_two_spec v : 0 < v < 2 ^ 64 → is_power_of_two v = true → v = 2 ^ Z.log2 v.
Proof.
  intros Hv. unfold is_power_of_two. rewrite wrap_small by (split; lia).
  intros [_ Hland%Z.eqb_eq]%andb_true_iff.
  pose proof (Z.log2_spec v ltac:(lia)) as [Hlo Hhi].
  destruct (decide (v = 2 ^ Z.log2 v)) as [|Hne]; [done|].
  assert (Z.testbit (Z.land v (v - 1)) (Z.log2 v) = true) as Hbit; [|by rewrite Hland, Z.bits_0 in Hbit].
  rewrite Z.land_spec, Z.bit_log2 by lia.
  replace (Z.log2 v) with (Z.log2 (v - 1)); [apply Z.bit_log2; pose proof (Z.log2_nonneg v); lia|].
  apply Z.log2_unique; [apply Z.log2_nonneg|]. lia.
Qed.

Lemma smear_spec v :
  0 < v < 2 ^ 64 → ∃ i, while 6 (λ s, s.2 <? 64) smear_body (v, 1) = Some (2 ^ (Z.log2 v + 1) - 1, i).
Proof.
  intros Hv. pose proof (Z.log2_nonneg v). pose proof (Z.log2_spec v ltac:(lia)) as [Hlo Hhi].
  assert (Z.log2 v < 64) by (apply Z.log2_lt_pow2; lia).
  assert (top_set (Z.log2 v) 1 v) as H1.
  { split; [rewrite Z.add_1_r; lia|]. intros i Hi _. replace i with (Z.log2 v) by lia. apply Z.bit_log2. lia. }
  apply top_set_smear in H1; [|lia..]. do 5 (apply top_set_smear in H1; [|lia..]).
  exists 64. cbn [while smear_body fst snd mbind option_bind].
  change (1 <? 64) with true. cbv iota. change (u64 (1 * 2)) with 2.
  change (2 <? 64) with true. cbv iota. change (u64 (2 * 2)) with 4.
  change (4 <? 64) with true. cbv iota. change (u64 (4 * 2)) with 8.
  change (8 <? 64) with true. cbv iota. change (u64 (8 * 2)) with 16.
  change (16 <? 64) with true. cbv iota. change (u64 (16 * 2)) with 32.
  change (32 <? 64) with true. cbv iota. change (u64 (32 * 2)) with 64.
  do 2 f_equal. eapply top_set_full; [|exact H1]. lia.
Qed.

(** Rounding up returns the least power of two that is not smaller. *)
Lemma round_up_spec value :
  0 < value ≤ 2 ^ 63 →
  ∃ k, 0 ≤ k ≤ 63 ∧ round_up_to_power_of_two value = Some (2 ^ k) ∧ value ≤ 2 ^ k ∧
    ∀ j, 0 ≤ j → value ≤ 2 ^ j → k ≤ j.
Proof.
  intros Hv. unfold round_up_to_power_of_two. pose proof (Z.log2_nonneg value).
  pose proof (Z.log2_spec value ltac:(lia)) as [Hlo Hhi].
  destruct (is_power_of_two value) eqn:Hp.
  { apply is_power_of_two_spec in Hp; [|lia]. exists (Z.log2 value). rewrite <-Hp.
    assert (Z.log2 value < 64) by (apply Z.log2_lt_pow2; lia).
    split; [|split; [done|]]; [lia|]. split; [lia|]. intros j Hj Hle.
    rewrite Hp in Hle. by apply Z.pow_le_mono_r_iff in Hle. }
  rewrite (proj2 (Z.eqb_neq value 0)) by lia.
  assert (1 < value) by (destruct (decide (value = 1)) as [->|]; [done|lia]).
  rewrite wrap_small by (split; lia). destruct (smear_spec (value - 1) ltac:(lia)) as [i ->].
  cbn [mbind option_bind fst]. pose proof (Z.log2_nonneg (value - 1)).
  pose proof (Z.log2_spec (value - 1) ltac:(lia)) as [Hlo' Hhi'].
  assert (Z.log2 (value - 1) < 63) by (apply Z.log2_lt_pow2; lia).
  exists (Z.log2 (value - 1) + 1). split; [lia|]. rewrite Z.sub_add. split; [|split].
  - f_equal. apply wrap_small. split; [lia|]. apply Z.pow_lt_mono_r; lia.
  - rewrite Z.add_1_r. lia.
  - intros j Hj Hle. destruct (Z.le_gt_cases (Z.log2 (value - 1) + 1) j) as [|Hgt]; [done|].
    assert (2 ^ j ≤ 2 ^ Z.log2 (value - 1)) by (apply Z.pow_le_mono_r; lia). lia.
Qed.

(** [round_up_to_power_of_two] terminates, after six rounds at most, with the least power of
    two that is not smaller, for every count the policy accepts. *)
Theorem round_up_to_power_of_two_least value :
  0 < value ≤ 2 ^ 63 →
  ∃ k, 0 ≤ k ≤ 63 ∧ round_up_to_power_of_two value = Some (2 ^ k) ∧ value ≤ 2 ^ k ∧
    ∀ j, 0 ≤ j → value ≤ 2 ^ j → k ≤ j.
Proof. apply round_up_spec. Qed.

Lemma round_up_to_power_of_two_least_witness : ∃ k, round_up_to_power_of_two 1000 = Some (2 ^ k) ∧ 1000 ≤ 2 ^ k.
Proof.
  destruct (round_up_to_power_of_two_least 1000) as (k & _ & Hk & Hle & _); [lia|]. exists k. split; [exact Hk|exact Hle].
Defined.

(** ** The power-of-two policy keeps its promises *)

Definition pow2_ok (p : power_of_two_growth_policy) (n : Z) : Prop :=
  (n = 0 ∧ m_mask p = 0) ∨ ∃ k, 0 ≤ k ≤ 63 ∧ n = 2 ^ k ∧ m_mask p = 2 ^ k - 1.

Lemma pow2_mask_wrap k h : 0 ≤ k → Z.land h (2 ^ k - 1) = h `mod` 2 ^ k.
Proof. apply land_ones_wrap. Qed.

#[export] Instance pow2_policy_laws : GrowthPolicyLaws power_of_two_growth_policy.
Proof.
  refine {| gp_ok := pow2_ok |}; cbn [gp_max_bucket_count gp_new gp_bucket_for_hash gp_next_bucket_count
    gp_clear gp_is_power_of_two gp_mask pow2_policy]; change pow2_max_bucket_count with (2 ^ 63).
  - lia.
  - intros g n [[-> _]|(k & Hk & -> & _)]; [lia|]. split; [lia|]. apply Z.pow_le_mono_r; lia.
  - intros n Hn. unfold pow2_new. change pow2_max_bucket_count with (2 ^ 63).
    rewrite (proj2 (Z.ltb_ge _ _)) by lia. destruct (Z.ltb_spec 0 n).
    + destruct (round_up_spec n ltac:(lia)) as (k & Hk & -> & Hle & Hleast). cbn [mbind option_bind].
      pose proof (Z.log2_spec n ltac:(lia)) as [Hlo Hhi]. pose proof (Z.log2_nonneg n).
      assert (k ≤ Z.log2 n + 1) as Hkl by (apply Hleast; [lia|rewrite Z.add_1_r; lia]).
      assert (2 ^ k ≤ 2 * 2 ^ Z.log2 n).
      { rewrite <-Z.pow_succ_r by done. apply Z.pow_le_mono_r; lia. }
      do 2 eexists. split; [done|]. split; [right|lia].
      exists k. split; [done|]. split; [done|]. cbn [m_mask]. apply wrap_small.
      assert (2 ^ k ≤ 2 ^ 63) by (apply Z.pow_le_mono_r; lia). split; lia.
    + exists (PowerOfTwo 0), n. split; [done|]. replace n with 0 by lia. split; [by left|lia].
  - intros g n h Hg Hh. eexists. split; [done|]. unfold pow2_bucket_for_hash.
    destruct Hg as [[-> ->]|(k & Hk & -> & ->)]; [rewrite Z.land_0_r; lia|].
    rewrite pow2_mask_wrap by lia. pose proof (Z.mod_pos_bound h (2 ^ k) ltac:(lia)). lia.
  - intros g n c Hg. unfold pow2_next_bucket_count. change (pow2_max_bucket_count / 2) with (2 ^ 62).
    destruct (Z.ltb_spec (2 ^ 62) (u64 (m_mask g + 1))) as [|Hle]; [done|]. intros [= <-].
    destruct Hg as [[-> ->]|(k & Hk & -> & Hm)]; [change (u64 (u64 (0 + 1) * 2)) with 2; lia|].
    rewrite Hm in *.
    assert (2 ^ k ≤ 2 ^ 63) by (apply Z.pow_le_mono_r; lia).
    rewrite Z.sub_add, (wrap_small 64 (2 ^ k)) in Hle by (split; lia).
    rewrite Z.sub_add, (wrap_small 64 (2 ^ k)) by (split; lia).
    rewrite wrap_small by (split; lia). lia.
  - intros g n Hg Hn. unfold pow2_next_bucket_count. change (pow2_max_bucket_count / 2) with (2 ^ 62).
    destruct Hg as [[-> ->]|(k & Hk & -> & Hm)]; [exists 2; done|].
    rewrite Hm, Z.sub_add, (wrap_small 64 (2 ^ k)) by (split; lia).
    rewrite (proj2 (Z.ltb_ge _ _)) by lia. rewrite wrap_small by (split; lia).
    eexists. split; [done|]. lia.
  - intros g. by left.
  - intros g n i _ [[-> _]|(k & Hk & -> & ->)] Hi; [lia|].
    assert (2 ^ k ≤ 2 ^ 63) by (apply Z.pow_le_mono_r; lia).
    rewrite wrap_small by (split; lia). rewrite pow2_mask_wrap by lia.
    destruct (Z.eqb_spec (i + 1) (2 ^ k)) as [->|]; [apply Z_mod_same_full|apply Z.mod_small; lia].
  - intros g n h _ [[-> _]|(k & Hk & -> & Hm)] Hn; [lia|]. unfold pow2_bucket_for_hash. rewrite Hm.
    rewrite !pow2_mask_wrap by lia. f_equal. assert (k ≤ 32) by (destruct (Z.le_gt_cases k 32); [done|]; assert (2 ^ 33 ≤ 2 ^ k) by (apply Z.pow_le_mono_r; lia); lia).
    unfold wrap. apply Z.mod_mod_divide.
    exists (2 ^ (32 - k)). rewrite <-Z.pow_add_r by lia. f_equal. lia.
Defined.

(** ** The prime policy *)

Lemma PRIMES_sorted i j p q : PRIMES !! i = Some p → PRIMES !! j = Some q → (i < j)%nat → p < q.
Proof.
  assert (StronglySorted Z.lt PRIMES) as Hs.
  { apply Sorted_StronglySorted; [intros x y z; lia|]. unfold PRIMES. repeat constructor. }
  revert i j. induction Hs as [|x l Hs IH Hall]; intros [|i] [|j] Hi Hj Hij; try done || lia.
  - injection Hi as <-. by apply (Forall_lookup_1 _ _ _ _ Hall Hj).
  - apply (IH i j); [done..|lia].
Qed.

(** The constructor takes the least prime of the table that is not smaller. *)
Lemma prime_new_spec n g n' :
  0 < n → prime_new n = Some (g, n') →
  PRIMES !! m_iprime g = Some n' ∧ n ≤ n' ∧ ∀ p, p ∈ PRIMES → n ≤ p → n' ≤ p.
Proof.
  intros Hn. unfold prime_new, lower_bound. intros ([i p] & Hi & [= <- <-])%bind_Some.
  apply list_find_Some in Hi as (Hi & Hle & Hleast). rewrite (proj2 (Z.ltb_lt 0 n) Hn). cbn [m_iprime].
  split; [done|]. split; [done|]. intros q [j Hj]%list_elem_of_lookup Hq.
  destruct (Nat.lt_trichotomy j i) as [Hlt|[->|Hgt]]; [by destruct (Hleast j q Hj Hlt)|rewrite Hi in Hj; injection Hj as <-; lia|].
  by apply Z.lt_le_incl, (PRIMES_sorted i j).
Qed.

(** A prime policy for a positive number of buckets stays inside it and grows. *)
Lemma prime_bucket_range g n h :
  PRIMES !! m_iprime g = Some n → ∃ b, prime_bucket_for_hash g h = Some b ∧ 0 ≤ b < n.
Proof.
  intros Hn. unfold prime_bucket_for_hash. rewrite Hn. cbn [mbind option_bind]. eexists. split; [done|].
  apply Z.mod_pos_bound. assert (Forall (λ p, 0 < p) PRIMES) as Hall by vm_decide.
  by eapply Forall_lookup_1 in Hall.
Qed.

Lemma prime_next_larger g n c :
  PRIMES !! m_iprime g = Some n → prime_next_bucket_count g = Some c → n < c.
Proof.
  intros Hn Hc. eapply PRIMES_sorted; [exact Hn|exact Hc|lia].
Qed.
