(* ===== verification/RobinTable.v ===== *)
(** * The robin-hood hash table (src/tsl/robin_hash.h): data and operations

    [tsl::robin_map] is one array of buckets; a bucket holds an entry, its distance
    from the bucket its hash selects (-1 when it is empty), and the lower half of the
    hash. The distance is an [int16_t]: [i16] wraps it. Reading the entry of an empty
    bucket, or a bucket outside the array, is [None], as are the exceptions. *)
From S2P Require Import Prelude Words Floats RobinGrowth.

(** A conversion to [std::int_least16_t]. *)
Definition i16 (z : Z) : Z := wrap 16 (z + 2 ^ 15) - 2 ^ 15.

(** [bucket_hash()] among the initialisers of the constructors makes [m_hash] 0 (it stays 0
    when [StoreHash] is false and the member does not exist); [m_value] is raw storage, [None]
    when it holds no entry. *)
Record bucket_entry {K V : Type} := Bucket {
  m_dist_from_ideal_bucket : Z;
  m_hash : Z;
  m_last_bucket : bool;
  m_value : option (K * V)
}.
Arguments bucket_entry : clear implicits.
Arguments Bucket {K V}.

Record robin_hash {K V G : Type} := RobinHash {
  m_policy : G;
  m_buckets_data : list (bucket_entry K V);
  m_bucket_count : Z;
  m_nb_elements : Z;
  m_load_threshold : Z;
  m_min_load_factor : spec_float;
  m_max_load_factor : spec_float;
  m_grow_on_next_insert : bool;
  m_try_shrink_on_next_insert : bool
}.
Arguments robin_hash : clear implicits.
Arguments RobinHash {K V G}.

Definition DIST_FROM_IDEAL_BUCKET_LIMIT : Z := 4096.
Definition EMPTY_MARKER : Z := -1.

Definition DEFAULT_MAX_LOAD_FACTOR := f32_lit 5 1.
Definition MINIMUM_MAX_LOAD_FACTOR := f32_lit 2 1.
Definition MAXIMUM_MAX_LOAD_FACTOR := f32_lit 95 2.
Definition DEFAULT_MIN_LOAD_FACTOR := f32_of_Z 0.
Definition MINIMUM_MIN_LOAD_FACTOR := f32_of_Z 0.
Definition MAXIMUM_MIN_LOAD_FACTOR := f32_lit 15 2.

Section table.
Context {K V G : Type} `{EqDecision K} `{GrowthPolicy G}.

(** The template arguments: the hash functor, [StoreHash], whether the bucket has room
    for the hash anyway (the [sizeof] test and the key type), and the limit
    [std::vector::max_size()]. *)
Context (hash_key : K → option Z) (StoreHash entry_has_room : bool) (vector_max_size : Z).

Abbreviation bucket := (bucket_entry K V).
Abbreviation table := (robin_hash K V G).

Definition STORE_HASH : bool := StoreHash || (entry_has_room && gp_is_power_of_two (G := G)).
Definition USE_STORED_HASH_ON_LOOKUP : bool := StoreHash.

(** ** A bucket *)

Definition empty_bucket (last : bool) : bucket := Bucket EMPTY_MARKER 0 last None.

Definition bucket_empty (b : bucket) : bool := m_dist_from_ideal_bucket b =? EMPTY_MARKER.

Definition bucket_hash_equal (b : bucket) (hash : Z) : bool :=
  if STORE_HASH then m_hash b =? u32 hash else true.

Definition truncated_hash (b : bucket) : Z := if STORE_HASH then m_hash b else 0.

Definition bucket_clear (b : bucket) : bucket :=
  if bucket_empty b then b else Bucket EMPTY_MARKER (m_hash b) (m_last_bucket b) None.

Definition set_value_of_empty_bucket (b : bucket) (dist hash : Z) (value : K * V) : bucket :=
  Bucket dist (if STORE_HASH then u32 hash else m_hash b) (m_last_bucket b) (Some value).

(** The bucket, and what the three references hold afterwards. *)
Definition swap_with_value_in_bucket (b : bucket) (dist hash : Z) (value : K * V)
    : option (bucket * (Z * Z * (K * V))) :=
  v ← m_value b;
  let tmp_hash := if STORE_HASH then truncated_hash b else hash in
  Some (Bucket dist (if STORE_HASH then u32 hash else m_hash b) (m_last_bucket b) (Some value),
        (m_dist_from_ideal_bucket b, tmp_hash, v)).

(** ** The array *)

(** [m_buckets]: the vector, or the static empty bucket. *)
Definition m_buckets (t : table) : list bucket :=
  match m_buckets_data t with [] => [empty_bucket true] | l => l end.

Definition bucket_at (t : table) (i : Z) : option bucket :=
  if 0 <=? i then m_buckets t !! Z.to_nat i else None.

Definition set_data (t : table) (l : list bucket) : table :=
  RobinHash (m_policy t) l (m_bucket_count t) (m_nb_elements t) (m_load_threshold t)
    (m_min_load_factor t) (m_max_load_factor t) (m_grow_on_next_insert t) (m_try_shrink_on_next_insert t).

Definition set_bucket (t : table) (i : Z) (b : bucket) : option table :=
  if (0 <=? i) && (i <? Z.of_nat (length (m_buckets_data t)))
  then Some (set_data t (<[Z.to_nat i := b]> (m_buckets_data t))) else None.

Definition set_nb_elements (t : table) (n : Z) : table :=
  RobinHash (m_policy t) (m_buckets_data t) (m_bucket_count t) n (m_load_threshold t)
    (m_min_load_factor t) (m_max_load_factor t) (m_grow_on_next_insert t) (m_try_shrink_on_next_insert t).

Definition set_grow (t : table) (b : bool) : table :=
  RobinHash (m_policy t) (m_buckets_data t) (m_bucket_count t) (m_nb_elements t) (m_load_threshold t)
    (m_min_load_factor t) (m_max_load_factor t) b (m_try_shrink_on_next_insert t).

Definition set_shrink (t : table) (b : bool) : table :=
  RobinHash (m_policy t) (m_buckets_data t) (m_bucket_count t) (m_nb_elements t) (m_load_threshold t)
    (m_min_load_factor t) (m_max_load_factor t) (m_grow_on_next_insert t) b.

Definition bucket_for_hash (t : table) (hash : Z) : option Z := gp_bucket_for_hash (m_policy t) hash.

Definition next_bucket (t : table) (index : Z) : Z :=
  if gp_is_power_of_two (G := G) then Z.land (u64 (index + 1)) (gp_mask (m_policy t))
  else let index := u64 (index + 1) in if negb (index =? m_bucket_count t) then index else 0.

Definition max_bucket_count : Z := Z.min (gp_max_bucket_count (G := G)) vector_max_size.

Definition load_factor (t : table) : spec_float :=
  if m_bucket_count t =? 0 then f32_of_Z 0
  else f32_div (f32_of_Z (m_nb_elements t)) (f32_of_Z (m_bucket_count t)).

(** ** Construction *)

Definition load_threshold (bucket_count : Z) (factor : spec_float) : option Z :=
  sf_to_unsigned 64 (f32_mul (f32_of_Z bucket_count) factor).

Definition max_load_factor (t : table) (ml : spec_float) : option table :=
  let f := sf_clamp ml MINIMUM_MAX_LOAD_FACTOR MAXIMUM_MAX_LOAD_FACTOR in
  threshold ← load_threshold (m_bucket_count t) f;
  Some (RobinHash (m_policy t) (m_buckets_data t) (m_bucket_count t) (m_nb_elements t) threshold
    (m_min_load_factor t) f (m_grow_on_next_insert t) (m_try_shrink_on_next_insert t)).

Definition min_load_factor (t : table) (ml : spec_float) : table :=
  RobinHash (m_policy t) (m_buckets_data t) (m_bucket_count t) (m_nb_elements t) (m_load_threshold t)
    (sf_clamp ml MINIMUM_MIN_LOAD_FACTOR MAXIMUM_MIN_LOAD_FACTOR) (m_max_load_factor t)
    (m_grow_on_next_insert t) (m_try_shrink_on_next_insert t).

(** [n] default buckets, the last one marked. *)
Definition new_buckets (n : Z) : list bucket :=
  match Z.to_nat n with
  | O => []
  | S n => replicate n (empty_bucket false) ++ [empty_bucket true]
  end.

Definition robin_new (bucket_count : Z) (min_lf max_lf : spec_float) : option table :=
  '(g, bucket_count) ← gp_new bucket_count;
  if max_bucket_count <? bucket_count then None
  else
    let t := RobinHash g (new_buckets bucket_count) bucket_count 0 0 min_lf max_lf false false in
    max_load_factor (min_load_factor t min_lf) max_lf.

(** ** Lookup *)

(** [(!USE_STORED_HASH_ON_LOOKUP || b.bucket_hash_equal(hash)) && compare_keys(...)] *)
Definition bucket_matches (b : bucket) (key : K) (hash : Z) : option bool :=
  if negb USE_STORED_HASH_ON_LOOKUP || bucket_hash_equal b hash then v ← m_value b; Some (bool_decide (v.1 = key)) else Some false.

(** The probe loop of [find_impl] and [insert_impl]: whether it stopped at the key, the
    bucket and the distance it stopped at. *)
Fixpoint probe (fuel : nat) (t : table) (key : K) (hash ibucket dist : Z) : option (bool * Z * Z) :=
  b ← bucket_at t ibucket;
  if dist <=? m_dist_from_ideal_bucket b then
    match fuel with
    | O => None
    | S fuel =>
        m ← bucket_matches b key hash;
        if m : bool then Some (true, ibucket, dist)
        else probe fuel t key hash (next_bucket t ibucket) (i16 (dist + 1))
    end
  else Some (false, ibucket, dist).

Definition loop_fuel (t : table) : nat := S (length (m_buckets_data t)).

(** The bucket of the key, [None] inside for [end()]. *)
Definition find_impl (t : table) (key : K) (hash : Z) : option (option Z) :=
  ibucket ← bucket_for_hash t hash;
  '(found, i, _) ← probe (loop_fuel t) t key hash ibucket 0;
  Some (if found : bool then Some i else None).

Definition find (t : table) (key : K) : option (option Z) := hash ← hash_key key; find_impl t key hash.

(** [it->second] for what [find] returned *)
Definition find_value (t : table) (key : K) : option (option V) :=
  r ← find t key;
  match r with
  | None => Some None
  | Some i => b ← bucket_at t i; v ← m_value b; Some (Some v.2)
  end.

Definition count (t : table) (key : K) : option Z :=
  r ← find t key; Some (if r is Some _ then 1 else 0).

Definition contains (t : table) (key : K) : option bool := n ← count t key; Some (negb (n =? 0)).

(** [at] throws when the key is not there. *)
Definition at_ (t : table) (key : K) : option V := r ← find_value t key; r.

(** ** [find_guaranteed]: it compares the stored hashes, and the keys only when more than
    one bucket matches *)

Definition max_matches : nat := 8.

(** The [int]s in [hash_matches], or [None] inside for the fallback to [find_impl]. *)
Fixpoint collect_matches (fuel : nat) (t : table) (hash ibucket dist : Z) (hash_matches : list Z)
    : option (option (list Z)) :=
  b ← bucket_at t ibucket;
  if dist <=? m_dist_from_ideal_bucket b then
    match fuel with
    | O => None
    | S fuel =>
        if bucket_hash_equal b hash then
          if (max_matches - 1 <=? length hash_matches)%nat then Some None
          else collect_matches fuel t hash (next_bucket t ibucket) (i16 (dist + 1))
                 (hash_matches ++ [to_i32 ibucket])
        else collect_matches fuel t hash (next_bucket t ibucket) (i16 (dist + 1)) hash_matches
    end
  else Some (Some hash_matches).

Fixpoint first_equal (t : table) (key : K) (hash_matches : list Z) : option (option Z) :=
  match hash_matches with
  | [] => Some None
  | i :: hash_matches =>
      b ← bucket_at t i; v ← m_value b;
      if decide (v.1 = key) then Some (Some i) else first_equal t key hash_matches
  end.

Definition find_guaranteed_impl (t : table) (key : K) (hash : Z) : option (option Z) :=
  if negb USE_STORED_HASH_ON_LOOKUP then None  (* the assert *)
  else
    ibucket ← bucket_for_hash t hash;
    ms ← collect_matches (loop_fuel t) t hash ibucket 0 [];
    match ms with
    | None => find_impl t key hash
    | Some [i] => Some (Some i)
    | Some ms => first_equal t key ms
    end.

Definition find_guaranteed (t : table) (key : K) : option (option Z) :=
  hash ← hash_key key; find_guaranteed_impl t key hash.

(** ** Rehashing *)

Fixpoint insert_value_on_rehash (fuel : nat) (t : table) (ibucket dist hash : Z) (value : K * V)
    : option table :=
  match fuel with
  | O => None
  | S fuel =>
      b ← bucket_at t ibucket;
      if m_dist_from_ideal_bucket b <? dist then
        if bucket_empty b then set_bucket t ibucket (set_value_of_empty_bucket b dist hash value)
        else
          '(b, (dist, hash, value)) ← swap_with_value_in_bucket b dist hash value;
          t ← set_bucket t ibucket b;
          insert_value_on_rehash fuel t (next_bucket t ibucket) (i16 (dist + 1)) hash value
      else insert_value_on_rehash fuel t (next_bucket t ibucket) (i16 (dist + 1)) hash value
  end.

(** [sizeof(std::size_t)] is not that of the stored hash. *)
Definition USE_STORED_HASH_ON_REHASH (bucket_count : Z) : bool :=
  STORE_HASH && gp_is_power_of_two (G := G) && (u64 (bucket_count - 1) <=? 2 ^ 32 - 1).

Fixpoint rehash_buckets (use_stored_hash : bool) (l : list bucket) (new_table : table) : option table :=
  match l with
  | [] => Some new_table
  | b :: l =>
      if bucket_empty b then rehash_buckets use_stored_hash l new_table
      else
        v ← m_value b;
        hash ← (if use_stored_hash then Some (truncated_hash b) else hash_key v.1);
        i ← bucket_for_hash new_table hash;
        new_table ← insert_value_on_rehash (loop_fuel new_table) new_table i 0 (u32 hash) v;
        rehash_buckets use_stored_hash l new_table
  end.

Definition rehash_impl (t : table) (count : Z) : option table :=
  new_table ← robin_new count (m_min_load_factor t) (m_max_load_factor t);
  new_table ← rehash_buckets (USE_STORED_HASH_ON_REHASH (m_bucket_count new_table)) (m_buckets_data t) new_table;
  Some (set_nb_elements new_table (m_nb_elements t)).

Definition rehash (t : table) (count : Z) : option table :=
  n ← sf_to_unsigned 64 (f32_ceil (f32_div (f32_of_Z (m_nb_elements t)) (m_max_load_factor t)));
  rehash_impl t (Z.max count n).

Definition reserve (t : table) (count : Z) : option table :=
  n ← sf_to_unsigned 64 (f32_ceil (f32_div (f32_of_Z count) (m_max_load_factor t)));
  rehash t n.

Definition rehash_on_extreme_load (t : table) : option (table * bool) :=
  if m_grow_on_next_insert t || (m_load_threshold t <=? m_nb_elements t) then
    n ← gp_next_bucket_count (m_policy t);
    t ← rehash_impl t n;
    Some (set_grow t false, true)
  else if m_try_shrink_on_next_insert t then
    let t := set_shrink t false in
    if negb (SFeqb (m_min_load_factor t) (f32_of_Z 0)) && SFltb (load_factor t) (m_min_load_factor t)
    then t ← reserve t (u64 (m_nb_elements t + 1)); Some (t, true)
    else Some (t, false)
  else Some (t, false).

(** ** Insertion *)

(** The loop that finds the place again after a rehash. *)
Fixpoint probe_place (fuel : nat) (t : table) (ibucket dist : Z) : option (Z * Z) :=
  b ← bucket_at t ibucket;
  if dist <=? m_dist_from_ideal_bucket b then
    match fuel with
    | O => None
    | S fuel => probe_place fuel t (next_bucket t ibucket) (i16 (dist + 1))
    end
  else Some (ibucket, dist).

(** The loop of [insert_value_impl] that carries a value to an empty bucket. *)
Fixpoint displace (fuel : nat) (t : table) (ibucket dist hash : Z) (value : K * V) : option table :=
  b ← bucket_at t ibucket;
  if negb (bucket_empty b) then
    match fuel with
    | O => None
    | S fuel =>
        if m_dist_from_ideal_bucket b <? dist then
          let t := if DIST_FROM_IDEAL_BUCKET_LIMIT <=? dist then set_grow t true else t in
          '(b, (dist, hash, value)) ← swap_with_value_in_bucket b dist hash value;
          t ← set_bucket t ibucket b;
          displace fuel t (next_bucket t ibucket) (i16 (dist + 1)) hash value
        else displace fuel t (next_bucket t ibucket) (i16 (dist + 1)) hash value
    end
  else set_bucket t ibucket (set_value_of_empty_bucket b dist hash value).

Definition insert_value_impl (t : table) (ibucket dist hash : Z) (value : K * V) : option table :=
  b ← bucket_at t ibucket;
  '(b, (dist, hash, value)) ← swap_with_value_in_bucket b dist hash value;
  t ← set_bucket t ibucket b;
  displace (loop_fuel t) t (next_bucket t ibucket) (i16 (dist + 1)) hash value.

(** The table, the bucket of the key and whether it was inserted. *)
Definition insert_impl (t : table) (key : K) (value : K * V) : option (table * (Z * bool)) :=
  hash ← hash_key key;
  ibucket ← bucket_for_hash t hash;
  '(found, ibucket, dist) ← probe (loop_fuel t) t key hash ibucket 0;
  if found : bool then Some (t, (ibucket, false))
  else
    '(t, rehashed) ← rehash_on_extreme_load t;
    '(ibucket, dist) ← (if rehashed : bool
                        then i ← bucket_for_hash t hash; probe_place (loop_fuel t) t i 0
                        else Some (ibucket, dist));
    b ← bucket_at t ibucket;
    t ← (if bucket_empty b
         then set_bucket t ibucket (set_value_of_empty_bucket b dist (u32 hash) value)
         else insert_value_impl t ibucket dist (u32 hash) value);
    Some (set_nb_elements t (u64 (m_nb_elements t + 1)), (ibucket, true)).

Definition try_emplace (t : table) (key : K) (obj : V) : option (table * (Z * bool)) :=
  insert_impl t key (key, obj).

(** [it.value() = obj] *)
Definition assign_value (t : table) (i : Z) (obj : V) : option table :=
  b ← bucket_at t i;
  v ← m_value b;
  set_bucket t i (Bucket (m_dist_from_ideal_bucket b) (m_hash b) (m_last_bucket b) (Some (v.1, obj))).

Definition insert_or_assign (t : table) (key : K) (obj : V) : option (table * (Z * bool)) :=
  '(t, (i, inserted)) ← try_emplace t key obj;
  t ← (if negb inserted then assign_value t i obj else Some t);
  Some (t, (i, inserted)).

(** [map[key] = obj]; [dflt] is [T()]. *)
Definition subscript_assign (dflt : V) (t : table) (key : K) (obj : V) : option table :=
  '(t, (i, _)) ← try_emplace t key dflt;
  assign_value t i obj.

(** ** Erasure *)

(** The backward shift. *)
Fixpoint shift_back (fuel : nat) (t : table) (previous_ibucket ibucket : Z) : option table :=
  b ← bucket_at t ibucket;
  if 0 <? m_dist_from_ideal_bucket b then
    match fuel with
    | O => None
    | S fuel =>
        p ← bucket_at t previous_ibucket;
        v ← m_value b;
        t ← set_bucket t previous_ibucket
              (set_value_of_empty_bucket p (i16 (m_dist_from_ideal_bucket b - 1)) (truncated_hash b) v);
        t ← set_bucket t ibucket (bucket_clear b);
        shift_back fuel t ibucket (next_bucket t ibucket)
    end
  else Some t.

Definition erase_from_bucket (t : table) (pos : Z) : option table :=
  b ← bucket_at t pos;
  t ← set_bucket t pos (bucket_clear b);
  let t := set_nb_elements t (u64 (m_nb_elements t - 1)) in
  shift_back (loop_fuel t) t pos (next_bucket t pos).

(** The table and the number of entries erased. *)
Definition erase (t : table) (key : K) : option (table * Z) :=
  r ← find t key;
  match r with
  | Some i => t ← erase_from_bucket t i; Some (set_shrink t true, 1)
  | None => Some (t, 0)
  end.

Definition clear_and_shrink (t : table) : table :=
  RobinHash (gp_clear (m_policy t)) [] 0 0 0 (m_min_load_factor t) (m_max_load_factor t) false false.

Definition clear (t : table) : table :=
  if SFltb (f32_of_Z 0) (m_min_load_factor t) then clear_and_shrink t
  else set_grow (set_nb_elements (set_data t (bucket_clear <$> m_buckets_data t)) 0) false.

(** ** Iteration *)

Fixpoint begin_from (l : list bucket) (i : Z) : Z :=
  match l with
  | [] => i
  | b :: l => if bucket_empty b then begin_from l (i + 1) else i
  end.

Definition begin (t : table) : Z := begin_from (m_buckets_data t) 0.

(** [++it] *)
Fixpoint iter_next (fuel : nat) (t : table) (i : Z) : option Z :=
  match fuel with
  | O => None
  | S fuel =>
      b ← bucket_at t i;
      if m_last_bucket b then Some (i + 1)
      else
        b' ← bucket_at t (i + 1);
        if bucket_empty b' then iter_next fuel t (i + 1) else Some (i + 1)
  end.

(** [for (it = begin(); it != end(); ++it)]: the values seen, in order. *)
Fixpoint iterate (fuel : nat) (t : table) (i : Z) : option (list (K * V)) :=
  if i =? m_bucket_count t then Some []
  else
    match fuel with
    | O => None
    | S fuel =>
        b ← bucket_at t i; v ← m_value b;
        i ← iter_next (loop_fuel t) t i;
        l ← iterate fuel t i;
        Some (v :: l)
    end.

(** ** Erasing through iterators: the table and the iterator returned *)

(** [erase(iterator pos)] *)
Definition erase_at (t : table) (pos : Z) : option (table * Z) :=
  t ← erase_from_bucket t pos;
  b ← bucket_at t pos;
  pos ← (if bucket_empty b then iter_next (loop_fuel t) t pos else Some pos);
  Some (set_shrink t true, pos).

(** The loop of [erase(first, last)] that clears the buckets of the range. *)
Definition clear_range (t : table) (first last : Z) : option table :=
  for_loop (Z.to_nat (last - first)) first
    (λ i t, b ← bucket_at t i;
      if bucket_empty b then Some t
      else t ← set_bucket t i (bucket_clear b); Some (set_nb_elements t (u64 (m_nb_elements t - 1)))) t.

(** The bucket a value at [ito_move] moves to. *)
Definition closer_bucket (icloser ito_move dist : Z) : Z := ito_move - Z.min (ito_move - icloser) (u64 dist).

(** The shift of the values after the range. *)
Fixpoint shift_range (fuel : nat) (t : table) (icloser_bucket ito_move_closer_value : Z) : option table :=
  if ito_move_closer_value <? m_bucket_count t then
    b ← bucket_at t ito_move_closer_value;
    if 0 <? m_dist_from_ideal_bucket b then
      match fuel with
      | O => None
      | S fuel =>
          let d := m_dist_from_ideal_bucket b in
          let icloser_bucket := closer_bucket icloser_bucket ito_move_closer_value d in
          c ← bucket_at t icloser_bucket;
          v ← m_value b;
          t ← set_bucket t icloser_bucket
                (set_value_of_empty_bucket c (i16 (u64 (d - (ito_move_closer_value - icloser_bucket)))) (truncated_hash b) v);
          t ← set_bucket t ito_move_closer_value (bucket_clear b);
          shift_range fuel t (icloser_bucket + 1) (ito_move_closer_value + 1)
      end
    else Some t
  else Some t.

(** [erase(const_iterator first, const_iterator last)], with [first <= last] *)
Definition erase_range (t : table) (first last : Z) : option (table * Z) :=
  if last <? first then None
  else if first =? last then Some (t, first)
  else
    t ← clear_range t first last;
    if last =? m_bucket_count t then Some (set_shrink t true, m_bucket_count t)
    else
      b ← bucket_at t last;
      let ireturn_bucket := closer_bucket first last (m_dist_from_ideal_bucket b) in
      t ← shift_range (loop_fuel t) t first last;
      Some (set_shrink t true, ireturn_bucket).
End table.

(** ** Trying it: two colliding keys, an erasure, [find_guaranteed] on an absent key *)
Definition demo_find (keys : list Z) (k : Z) : option (option Z) :=
  t ← robin_new (K := Z) (V := Z) (G := power_of_two_growth_policy) (2 ^ 60) 4 DEFAULT_MIN_LOAD_FACTOR DEFAULT_MAX_LOAD_FACTOR;
  t ← foldr (λ k t, t ← t; subscript_assign (λ k, Some (k / 2)) true true (2 ^ 60) 0 t k (k + 100)) (Some t) keys;
  find_value (λ k, Some (k / 2)) true true t k.

Example demo_find_present : demo_find [4; 5; 9; 8; 12] 5 = Some (Some 105).
Proof. vm_compute. reflexivity. Qed.

Example demo_find_absent : demo_find [4; 5; 9; 8; 12] 13 = Some None.
Proof. vm_compute. reflexivity. Qed.
