(* ===== verification/RobinInv.v ===== *)
(** * The invariant of the robin-hood table

    Positions are integers taken modulo the number of buckets. An array is well formed
    when every entry is as far from the bucket its hash selects as it says, distances
    grow by at most one from a bucket to the next, and keys are distinct. The lemmas
    say what the loops of RobinTable.v do on such an array. *)
From stdpp Require Import gmap.
From S2P Require Import Prelude Words Floats RobinGrowth RobinTable.

Lemma i16_small z : - 2 ^ 15 ≤ z < 2 ^ 15 → i16 z = z.
Proof. intros Hz. unfold i16. rewrite wrap_small by (split; lia). lia. Qed.

Section invariant.
Context {K V G : Type} `{Countable K} `{L : GrowthPolicyLaws G}.
Context (hash_key : K → option Z) (StoreHash entry_has_room : bool).

Abbreviation bucket := (bucket_entry K V).
Abbreviation table := (robin_hash K V G).
Abbreviation STORE := (STORE_HASH (G := G) StoreHash entry_has_room).

(** ** Positions *)

Definition size_of (t : table) : Z := Z.of_nat (length (m_buckets_data t)).

Definition bk (t : table) (j : Z) : bucket :=
  default (empty_bucket false) (m_buckets_data t !! Z.to_nat (j `mod` size_of t)).

(** The distance stored at a position. *)
Definition ds (t : table) (j : Z) : Z := m_dist_from_ideal_bucket (bk t j).

Definition put (t : table) (j : Z) (b : bucket) : table :=
  set_data t (<[Z.to_nat (j `mod` size_of t) := b]> (m_buckets_data t)).

Definition entries (t : table) : list (K * V) := omap m_value (m_buckets_data t).
Definition keys (t : table) : list K := (entries t).*1.

(** What a hash selects, as a position. *)
Definition home (g : G) (k : K) (p : Z) : Prop :=
  ∃ h, hash_key k = Some h ∧ fits 64 h ∧ gp_bucket_for_hash g h = Some p.

(** The entry [k] with the stored hash [hc] may be [d] after its ideal bucket at [j]. *)
Definition entry_ok (t : table) (j d : Z) (hc : Z) (k : K) : Prop :=
  ∃ h, hash_key k = Some h ∧ fits 64 h ∧ (STORE = true → hc = u32 h) ∧
    gp_bucket_for_hash (m_policy t) h = Some ((j - d) `mod` size_of t).

Definition bucket_ok (t : table) (j : Z) (b : bucket) : Prop :=
  match m_value b with
  | None => m_dist_from_ideal_bucket b = -1
  | Some (k, _) => 0 ≤ m_dist_from_ideal_bucket b ∧
      entry_ok t j (m_dist_from_ideal_bucket b) (m_hash b) k
  end.

Record array_ok (t : table) : Prop := ArrayOk {
  ao_pos : 0 < size_of t;
  ao_count : m_bucket_count t = size_of t;
  ao_policy : gp_ok (m_policy t) (size_of t);
  ao_bucket : ∀ j, bucket_ok t j (bk t j);
  ao_order : ∀ j, ds t (j + 1) ≤ ds t j + 1;
  ao_nodup : NoDup (keys t);
  ao_last : ∀ j, m_last_bucket (bk t j) = (j `mod` size_of t =? size_of t - 1)
}.

Definition hole (t : table) : Prop := ∃ e, ds t e = -1.

Lemma mod_eq_near a b n : 0 < n → a `mod` n = b `mod` n → - n < a - b < n → a = b.
Proof.
  intros Hn Hab Hd. pose proof (Z.div_mod a n ltac:(lia)). pose proof (Z.div_mod b n ltac:(lia)).
  destruct (Z.lt_trichotomy (a / n) (b / n)) as [|[|]]; nia.
Qed.

Lemma size_put t j b : size_of (put t j b) = size_of t.
Proof. unfold size_of, put. cbn [set_data m_buckets_data]. by rewrite length_insert. Qed.

Lemma policy_put t j b : m_policy (put t j b) = m_policy t.
Proof. done. Qed.

Lemma bk_mod t j : bk t (j `mod` size_of t) = bk t j.
Proof. unfold bk. by rewrite Zmod_mod. Qed.

Lemma bk_mod_eq t i j : i `mod` size_of t = j `mod` size_of t → bk t i = bk t j.
Proof. unfold bk. by intros ->. Qed.

Lemma bk_lookup t j : 0 < size_of t → m_buckets_data t !! Z.to_nat (j `mod` size_of t) = Some (bk t j).
Proof.
  intros Hn. unfold bk. pose proof (Z.mod_pos_bound j (size_of t) Hn).
  destruct (lookup_lt_is_Some_2 (m_buckets_data t) (Z.to_nat (j `mod` size_of t))) as [b Hb];
    [unfold size_of in *; lia|]. by rewrite Hb.
Qed.

Lemma bk_put t j b x :
  0 < size_of t →
  bk (put t j b) x = if decide (x `mod` size_of t = j `mod` size_of t) then b else bk t x.
Proof.
  intros Hn. unfold bk. rewrite size_put. unfold put. cbn [set_data m_buckets_data].
  pose proof (Z.mod_pos_bound j (size_of t) Hn). pose proof (Z.mod_pos_bound x (size_of t) Hn).
  case_decide as Hx.
  - rewrite Hx, list_lookup_insert_eq; [done|]. unfold size_of in *. lia.
  - rewrite list_lookup_insert_ne; [done|]. lia.
Qed.

Lemma bk_put_far t j b y :
  0 < size_of t → - size_of t < y - j < size_of t ∧ y ≠ j → bk (put t j b) y = bk t y.
Proof. intros Hn Hy. rewrite bk_put by done. rewrite decide_False; [done|]. intros Heq%mod_eq_near; lia. Qed.

Lemma bucket_at_ok t j : 0 < size_of t → bucket_at t (j `mod` size_of t) = Some (bk t j).
Proof.
  intros Hn. pose proof (Z.mod_pos_bound j (size_of t) Hn). unfold bucket_at.
  rewrite (proj2 (Z.leb_le _ _)) by lia. rewrite <-bk_lookup by done.
  unfold m_buckets. destruct (m_buckets_data t) eqn:Hl; [|done].
  unfold size_of in Hn. rewrite Hl in Hn. cbn in Hn. lia.
Qed.

Lemma set_bucket_ok t j b : 0 < size_of t → set_bucket t (j `mod` size_of t) b = Some (put t j b).
Proof.
  intros Hn. pose proof (Z.mod_pos_bound j (size_of t) Hn). unfold set_bucket.
  rewrite (proj2 (Z.leb_le _ _)), (proj2 (Z.ltb_lt _ _)) by (unfold size_of in *; lia). done.
Qed.

Lemma next_bucket_mod t j :
  0 < size_of t → m_bucket_count t = size_of t → gp_ok (m_policy t) (size_of t) →
  next_bucket t (j `mod` size_of t) = (j + 1) `mod` size_of t.
Proof using L.
  intros Hn Hc Hg. pose proof (Z.mod_pos_bound j (size_of t) Hn).
  pose proof (gp_ok_range _ _ Hg). pose proof gp_max_bound.
  rewrite <-Zplus_mod_idemp_l. unfold next_bucket. destruct (gp_is_power_of_two (G := G)) eqn:Hp.
  - rewrite (gp_mask_ok (m_policy t) (size_of t)) by done.
    destruct (Z.eqb_spec (j `mod` size_of t + 1) (size_of t)) as [->|];
      [by rewrite Z_mod_same_full|symmetry; apply Z.mod_small; lia].
  - rewrite wrap_small by (split; lia). rewrite Hc.
    destruct (Z.eqb_spec (j `mod` size_of t + 1) (size_of t)) as [->|]; cbn [negb];
      [by rewrite Z_mod_same_full|symmetry; apply Z.mod_small; lia].
Qed.

Lemma next_bucket_ok t j : array_ok t → next_bucket t (j `mod` size_of t) = (j + 1) `mod` size_of t.
Proof using L. intros [Hn Hc Hg _ _ _ _]. by apply next_bucket_mod. Qed.

(** ** Distances *)

Lemma ds_lower t j : array_ok t → -1 ≤ ds t j.
Proof using.
  intros Hok. pose proof (ao_bucket t Hok j) as Hb. unfold bucket_ok, ds in *.
  destruct (m_value (bk t j)) as [[k v]|]; lia.
Qed.

Lemma ds_empty t j : array_ok t → m_value (bk t j) = None ↔ ds t j = -1.
Proof using.
  intros Hok. pose proof (ao_bucket t Hok j) as Hb. unfold bucket_ok, ds in *.
  destruct (m_value (bk t j)) as [[k v]|]; split; try done; lia.
Qed.

Lemma empty_iff t j : bucket_empty (bk t j) = (ds t j =? -1).
Proof using. done. Qed.

(** A run of entries: everything between an entry and its ideal bucket is occupied. *)
Lemma run t j x : array_ok t → 0 ≤ x ≤ ds t j → ds t j - x ≤ ds t (j - x).
Proof using.
  intros Hok [Hx0 Hx]. revert Hx. pattern x. apply natlike_ind; [|clear x Hx0|done].
  - intros _. by rewrite !Z.sub_0_r.
  - intros x Hx0 IH Hx. specialize (IH ltac:(lia)). pose proof (ao_order t Hok (j - Z.succ x)) as Ho.
    replace (j - Z.succ x + 1) with (j - x) in Ho by lia. lia.
Qed.

(** A hole within [n] positions of any position. *)
Lemma hole_after t j : 0 < size_of t → hole t → ∃ e, j ≤ e < j + size_of t ∧ ds t e = -1.
Proof using.
  intros Hn [e He]. exists (j + (e - j) `mod` size_of t).
  pose proof (Z.mod_pos_bound (e - j) (size_of t) Hn). split; [lia|].
  rewrite <-He. unfold ds. f_equal. apply bk_mod_eq. rewrite Zplus_mod_idemp_r. f_equal. lia.
Qed.

Lemma hole_before t j :
  0 < size_of t → hole t → ds t j ≠ -1 → ∃ e, j - size_of t < e < j ∧ ds t e = -1.
Proof using.
  intros Hn Hh Hj. destruct (hole_after t (j - size_of t) Hn Hh) as (e & He & Hd).
  destruct (decide (e = j - size_of t)) as [->|]; [|exists e; split; [lia|done]].
  exfalso. apply Hj. rewrite <-Hd. unfold ds. f_equal. apply bk_mod_eq.
  symmetry. replace (j - size_of t) with (j + (-1) * size_of t) by lia. apply Z_mod_plus_full.
Qed.

Lemma ds_bound t j : array_ok t → hole t → ds t j ≤ size_of t - 2.
Proof using.
  intros Hok Hh. pose proof (ao_pos t Hok) as Hn. pose proof (ds_lower t j Hok).
  destruct (decide (ds t j = -1)) as [->|Hne]; [lia|].
  destruct (hole_before t j Hn Hh Hne) as (e & He & Hd).
  destruct (Z.le_gt_cases (ds t j) (size_of t - 2)) as [|Hgt]; [done|].
  pose proof (run t j (j - e) Hok ltac:(lia)) as Hrun. replace (j - (j - e)) with e in Hrun by lia. lia.
Qed.

(** ** Entries *)

Lemma entries_put t j b :
  0 < size_of t →
  entries (put t j b) ++ option_list (m_value (bk t j)) ≡ₚ entries t ++ option_list (m_value b).
Proof using.
  intros Hn. pose proof (bk_lookup t j Hn) as Hb. unfold entries, put. cbn [set_data m_buckets_data].
  set (i := Z.to_nat (j `mod` size_of t)) in *. pose proof (lookup_lt_Some _ _ _ Hb) as Hi.
  rewrite (insert_take_drop _ _ _ Hi). rewrite <-(take_drop_middle _ _ _ Hb) at 3.
  rewrite !omap_app. cbn [omap list_omap].
  set (x := omap m_value (take i _)). set (y := omap m_value (drop (S i) _)).
  destruct (m_value b) as [v|], (m_value (bk t j)) as [v'|]; cbn [option_list]; solve_Permutation.
Qed.

Lemma entries_elem t k v : (k, v) ∈ entries t ↔ ∃ j, 0 ≤ j < size_of t ∧ m_value (bk t j) = Some (k, v).
Proof using.
  unfold entries. rewrite list_elem_of_omap. split.
  - intros (b & [i Hi]%list_elem_of_lookup & Hb). pose proof (lookup_lt_Some _ _ _ Hi).
    exists (Z.of_nat i). unfold size_of, bk. split; [lia|].
    by rewrite Z.mod_small, Nat2Z.id, Hi by (unfold size_of; lia).
  - intros (j & Hj & Hb). exists (bk t j). split; [|done]. pose proof (bk_lookup t j ltac:(lia)) as Hl.
    by eapply list_elem_of_lookup_2.
Qed.

(** Distinct keys: a key is in one bucket. *)
Lemma nodup_omap (l : list bucket) i j b b' k v v' :
  NoDup (omap m_value l).*1 → l !! i = Some b → l !! j = Some b' →
  m_value b = Some (k, v) → m_value b' = Some (k, v') → i = j.
Proof using.
  assert (∀ (l : list bucket) i b k v, l !! i = Some b → m_value b = Some (k, v) →
    k ∈ (omap m_value l).*1) as Hin.
  { intros l0 i0 b0 k0 v0 Hi Hv. apply list_elem_of_fmap. exists (k0, v0). split; [done|].
    apply list_elem_of_omap. exists b0. split; [by eapply list_elem_of_lookup_2|done]. }
  revert i j. induction l as [|b0 l IH]; intros i j Hnd Hi Hj Hb Hb'; [done|]. cbn [omap list_omap] in Hnd.
  destruct i as [|i], j as [|j]; [done|..].
  - cbn in Hi. injection Hi as ->. rewrite Hb in Hnd. apply NoDup_cons in Hnd as [Hnd _].
    destruct Hnd. by eapply Hin.
  - cbn in Hj. injection Hj as ->. rewrite Hb' in Hnd. apply NoDup_cons in Hnd as [Hnd _].
    destruct Hnd. by eapply Hin.
  - f_equal. apply IH; try done. by destruct (m_value b0); [apply NoDup_cons in Hnd as [_ ?]|].
Qed.

Lemma key_position t i j k v v' :
  array_ok t → m_value (bk t i) = Some (k, v) → m_value (bk t j) = Some (k, v') →
  i `mod` size_of t = j `mod` size_of t.
Proof using.
  intros Hok Hi Hj. pose proof (ao_pos t Hok) as Hn.
  pose proof (Z.mod_pos_bound i (size_of t) Hn). pose proof (Z.mod_pos_bound j (size_of t) Hn).
  apply Z2Nat.inj; [lia..|]. by eapply (nodup_omap (m_buckets_data t)); [apply ao_nodup|apply bk_lookup..| |].
Qed.

Lemma not_in_keys t k : k ∉ keys t → ∀ j v, 0 < size_of t → m_value (bk t j) ≠ Some (k, v).
Proof using.
  intros Hk j v Hn Hj. apply Hk. unfold keys. apply list_elem_of_fmap. exists (k, v). split; [done|].
  apply entries_elem. exists (j `mod` size_of t). split; [by apply Z.mod_pos_bound|]. by rewrite bk_mod.
Qed.
(** ** Carrying an entry to its place

    The state of the insertion loops: at position [j] they hold the entry [kv], which
    would be [d] from its ideal bucket, with the hash [hc] to store. *)
Record carried (t : table) (j d hc : Z) (kv : K * V) : Prop := Carried {
  ca_dist : 0 ≤ d ≤ ds t (j - 1) + 1;
  ca_entry : entry_ok t j d hc kv.1;
  ca_fresh : kv.1 ∉ keys t
}.

Abbreviation set_value := (set_value_of_empty_bucket (G := G) StoreHash entry_has_room).

Lemma keys_put t j b :
  0 < size_of t →
  keys (put t j b) ++ (option_list (m_value (bk t j))).*1 ≡ₚ keys t ++ (option_list (m_value b)).*1.
Proof using.
  intros Hn. unfold keys. rewrite <-!fmap_app. apply fmap_Permutation, entries_put. done.
Qed.

Lemma entry_ok_mod t i j d hc k : i `mod` size_of t = j `mod` size_of t → entry_ok t j d hc k → entry_ok t i d hc k.
Proof using.
  intros Hij (h & Hk & Hh & Hs & Hb). exists h. split; [done|]. split; [done|]. split; [done|].
  rewrite Hb. f_equal. rewrite <-(Zminus_mod_idemp_l i), <-(Zminus_mod_idemp_l j). by rewrite Hij.
Qed.

(** Storing the entry where it is further than what is stored keeps the array well formed. *)
Lemma put_carried t j d hc kv :
  array_ok t → carried t j d hc kv → ds t j < d → array_ok (put t j (set_value (bk t j) d hc kv)).
Proof using.
  intros Hok [Hd He Hf] Hlt. pose proof (ao_pos t Hok) as Hn.
  assert (Hds : ∀ x, ds (put t j (set_value (bk t j) d hc kv)) x
    = if decide (x `mod` size_of t = j `mod` size_of t) then d else ds t x).
  { intros x. unfold ds. rewrite bk_put by done. by case_decide. }
  assert (Hper : ∀ x y, x `mod` size_of t = y `mod` size_of t → ds t x = ds t y).
  { intros x y Hxy. unfold ds. f_equal. by apply bk_mod_eq. }
  split; rewrite ?size_put; [done|apply Hok|apply Hok| | | |].
  - intros x. rewrite bk_put by done. case_decide as Hx.
    + unfold bucket_ok. cbn [set_value_of_empty_bucket m_value m_dist_from_ideal_bucket m_hash].
      destruct kv as [k v]. cbn [fst] in *. split; [lia|].
      apply (entry_ok_mod _ x j) in He; [|done]. destruct He as (h & Hk & Hh & Hs & Hb).
      exists h. split; [done|]. split; [done|]. split; [|by rewrite size_put].
      intros Hst. rewrite Hst, (Hs Hst). apply wrap_wrap.
    + pose proof (ao_bucket t Hok x) as Hb. unfold bucket_ok, entry_ok in *. rewrite size_put. exact Hb.
  - intros x. rewrite !Hds. destruct (decide (x `mod` size_of t = j `mod` size_of t)) as [Hx|Hx],
      (decide ((x + 1) `mod` size_of t = j `mod` size_of t)) as [Hx'|Hx'].
    + lia.
    + pose proof (ao_order t Hok x) as Ho. rewrite (Hper x j) in Ho by done. lia.
    + rewrite (Hper x (j - 1)); [lia|]. rewrite <-(Zminus_mod_idemp_l j), <-Hx', Zminus_mod_idemp_l.
      f_equal. lia.
    + apply Hok.
  - pose proof (keys_put t j (set_value (bk t j) d hc kv) Hn) as Hp. cbn [m_value set_value_of_empty_bucket option_list fmap list_fmap] in Hp.
    assert (NoDup (keys t ++ [kv.1])) as Hnd.
    { apply NoDup_app. split; [apply Hok|]. split; [|apply NoDup_singleton].
      intros x Hx ->%list_elem_of_singleton. done. }
    rewrite <-Hp in Hnd. by apply NoDup_app in Hnd as [? _].
  - intros x. rewrite bk_put by done. case_decide as Hx; [|apply Hok]. cbn. rewrite Hx. apply Hok.
Qed.

(** The hash the loops carry on. *)
Definition swap_hash (b : bucket) (hc : Z) : Z := if STORE then m_hash b else hc.

(** The displaced entry is carried on to the next position. *)
Lemma carry_swap t j d hc kv kv' :
  array_ok t → carried t j d hc kv → ds t j < d → m_value (bk t j) = Some kv' →
  carried (put t j (set_value (bk t j) d hc kv)) (j + 1) (ds t j + 1)
    (swap_hash (bk t j) hc) kv'.
Proof using.
  intros Hok [Hd He Hf] Hlt Hv. pose proof (ao_pos t Hok) as Hn. pose proof (ds_lower t j Hok).
  pose proof (ao_bucket t Hok j) as Hb. unfold bucket_ok in Hb. rewrite Hv in Hb. destruct kv' as [k' v'].
  destruct Hb as [Hd' (h & Hk & Hh & Hs & Hb)]. change (m_dist_from_ideal_bucket (bk t j)) with (ds t j) in *.
  split.
  - replace (j + 1 - 1) with j by lia. unfold ds at 3. rewrite bk_put by done. rewrite decide_True by done.
    cbn. lia.
  - exists h. split; [done|]. split; [done|]. rewrite size_put, policy_put. split; [|rewrite Hb; do 2 f_equal; lia].
    intros Hst. unfold swap_hash. rewrite Hst, Hs by done. done.
  - pose proof (keys_put t j (set_value (bk t j) d hc kv) Hn) as Hp. rewrite Hv in Hp.
    cbn [m_value set_value_of_empty_bucket option_list fmap list_fmap] in Hp. cbn [fst] in Hp |- *.
    assert (NoDup (keys t ++ [kv.1])) as Hnd.
    { apply NoDup_app. split; [apply Hok|]. split; [|apply NoDup_singleton].
      intros x Hx ->%list_elem_of_singleton. done. }
    rewrite <-Hp in Hnd. apply NoDup_app in Hnd as (_ & Hnd & _). intros Hin.
    apply (Hnd _ Hin). by apply list_elem_of_singleton.
Qed.

Lemma carry_skip t j d hc kv : carried t j d hc kv → d ≤ ds t j → carried t (j + 1) (d + 1) hc kv.
Proof using.
  intros [Hd He Hf] Hle. split; [replace (j + 1 - 1) with j by lia; lia| |done].
  destruct He as (h & ? & ? & ? & Hb). exists h. split; [done|]. split; [done|]. split; [done|].
  rewrite Hb. do 2 f_equal. lia.
Qed.

Lemma entries_put_cons t j b kv :
  0 < size_of t → m_value b = Some kv →
  entries (put t j b) ++ option_list (m_value (bk t j)) ≡ₚ kv :: entries t.
Proof using.
  intros Hn Hb. rewrite entries_put, Hb by done. cbn. by rewrite Permutation_app_comm.
Qed.
(** ** The loops that carry *)

(** The way from [j] to the hole [e]: no distance on it is larger than [B]. *)
Record way (t : table) (j e d B : Z) : Prop := Way {
  way_range : j ≤ e < j + size_of t;
  way_hole : ds t e = -1;
  way_short : ∀ x, j ≤ x < e → ds t x ≤ B;
  way_dist : d ≤ B + 1
}.

Lemma way_occupied t j e d B v : array_ok t → way t j e d B → m_value (bk t j) = Some v → j < e.
Proof using.
  intros Hok [Hr Hh _ _] Hv. destruct (decide (j = e)) as [->|]; [|lia].
  apply (ds_empty t e Hok) in Hh. congruence.
Qed.

Lemma way_swap t j e d hc kv B :
  array_ok t → way t j e d B → j < e →
  way (put t j (set_value (bk t j) d hc kv)) (j + 1) e (ds t j + 1) B.
Proof using.
  intros Hok [Hr Hh Hs Hd] Hje. pose proof (ao_pos t Hok) as Hn.
  assert (Hds : ∀ x, j < x ≤ e → ds (put t j (set_value (bk t j) d hc kv)) x = ds t x).
  { intros x Hx. unfold ds. rewrite bk_put by done. rewrite decide_False; [done|].
    intros Heq%mod_eq_near; lia. }
  specialize (Hs j ltac:(lia)) as Hj.
  split; rewrite ?size_put; [lia|by rewrite Hds by lia| |lia].
  intros x Hx. rewrite Hds by lia. apply Hs. lia.
Qed.

Lemma way_skip t j e d B : way t j e d B → d ≤ ds t j → j < e → way t (j + 1) e (d + 1) B.
Proof using.
  intros [Hr Hh Hs Hd] Hle Hje. specialize (Hs j ltac:(lia)) as Hj.
  split; [lia|done| |lia]. intros x Hx. apply Hs. lia.
Qed.

(** What the loops leave: the same table with the entry in its array. *)
Definition inserted (t : table) (kv : K * V) (t' : table) : Prop :=
  ∃ l, t' = set_data t l ∧ size_of t' = size_of t ∧ array_ok t' ∧ entries t' ≡ₚ kv :: entries t.

Lemma inserted_place t j d hc kv :
  array_ok t → carried t j d hc kv → m_value (bk t j) = None →
  inserted t kv (put t j (set_value (bk t j) d hc kv)).
Proof using.
  intros Hok Hc Hv. pose proof (ao_pos t Hok) as Hn. eexists. split; [done|]. split; [apply size_put|].
  split.
  - apply put_carried; [done..|]. apply (ds_empty t j Hok) in Hv. destruct Hc. lia.
  - rewrite <-(entries_put_cons t j (set_value (bk t j) d hc kv) kv Hn eq_refl), Hv.
    cbn [option_list]. by rewrite app_nil_r.
Qed.

Lemma inserted_swap t j d hc kv kv' t' :
  array_ok t → m_value (bk t j) = Some kv' →
  inserted (put t j (set_value (bk t j) d hc kv)) kv' t' → inserted t kv t'.
Proof using.
  intros Hok Hv (l & -> & Hs & Hok' & Hp). pose proof (ao_pos t Hok) as Hn.
  exists l. split; [done|]. rewrite Hs, size_put. split; [done|]. split; [done|].
  rewrite Hp, <-(entries_put_cons t j (set_value (bk t j) d hc kv) kv Hn eq_refl), Hv.
  cbn [option_list]. by rewrite Permutation_app_comm.
Qed.

Lemma swap_value (t : table) j d hc kv kv' :
  array_ok t → m_value (bk t j) = Some kv' →
  swap_with_value_in_bucket (G := G) StoreHash entry_has_room (bk t j) d hc kv
  = Some (set_value (bk t j) d hc kv, (ds t j, swap_hash (bk t j) hc, kv')).
Proof using.
  intros Hok Hv. unfold swap_with_value_in_bucket, set_value_of_empty_bucket, swap_hash, truncated_hash.
  rewrite Hv. cbn [mbind option_bind]. by destruct STORE.
Qed.

Lemma insert_on_rehash_ok fuel : ∀ t j e d hc kv B,
  array_ok t → carried t j d hc kv → way t j e d B → B ≤ 2 ^ 15 - 2 → (Z.to_nat (e - j) < fuel)%nat →
  ∃ t', insert_value_on_rehash StoreHash entry_has_room fuel t (j `mod` size_of t) d hc kv = Some t'
    ∧ inserted t kv t'.
Proof using L.
  induction fuel as [|fuel IH]; intros t j e d hc kv B Hok Hc Hw HB Hf; [lia|].
  pose proof (ao_pos t Hok) as Hn. cbn [insert_value_on_rehash].
  rewrite bucket_at_ok by done. cbn [mbind option_bind]. fold (ds t j). rewrite empty_iff.
  destruct (m_value (bk t j)) as [kv'|] eqn:Hv.
  - assert (ds t j ≠ -1) as Hne by (intros Hd%(ds_empty t j Hok); congruence).
    pose proof (way_occupied _ _ _ _ _ _ Hok Hw Hv) as Hje. pose proof (way_short _ _ _ _ _ Hw j ltac:(lia)).
    pose proof (ds_lower t j Hok). pose proof (ca_dist _ _ _ _ _ Hc). pose proof (way_dist _ _ _ _ _ Hw).
    destruct (Z.ltb_spec (ds t j) d).
    + rewrite (proj2 (Z.eqb_neq _ _)) by done. rewrite (swap_value t j _ _ _ kv') by done.
      cbn [mbind option_bind]. rewrite set_bucket_ok by done. cbn [mbind option_bind].
      rewrite i16_small by lia.
      destruct (IH (put t j (set_value (bk t j) d hc kv)) (j + 1) e (ds t j + 1)
        (swap_hash (bk t j) hc) kv' B)
        as (t' & Ht' & Hi); [by apply put_carried|by apply carry_swap|by apply way_swap|done|lia|].
      rewrite size_put in Ht'. rewrite <-(next_bucket_ok t j Hok) in Ht'.
      exists t'. split; [exact Ht'|]. by eapply inserted_swap.
    + rewrite next_bucket_ok by done. rewrite i16_small by lia.
      apply (IH t (j + 1) e (d + 1) hc kv B); [done|by apply carry_skip|by apply way_skip|done|lia].
  - pose proof (proj1 (ds_empty t j Hok) Hv) as Hd. rewrite Hd. pose proof (ca_dist _ _ _ _ _ Hc).
    rewrite (proj2 (Z.ltb_lt (-1) d)) by lia. cbn [Z.eqb Pos.eqb]. rewrite set_bucket_ok by done.
    eexists. split; [done|]. by apply inserted_place.
Qed.

(** Two entries with the same hash are never exchanged. *)
Lemma no_swap t j d hc kv kv' :
  array_ok t → hole t → carried t j d hc kv → m_value (bk t j) = Some kv' →
  hash_key kv.1 = hash_key kv'.1 → d ≤ ds t j.
Proof using.
  intros Hok Hh [Hd (h & Hk & _ & _ & Hb) _] Hv Heq. pose proof (ao_pos t Hok) as Hn.
  pose proof (ds_bound t (j - 1) Hok Hh). pose proof (ds_lower t j Hok).
  pose proof (ao_bucket t Hok j) as Hj. unfold bucket_ok in Hj. rewrite Hv in Hj. destruct kv' as [k' v'].
  destruct Hj as (Hd0 & h' & Hk' & _ & _ & Hb'). change (m_dist_from_ideal_bucket (bk t j)) with (ds t j) in *.
  cbn [fst] in *. rewrite Hk, Hk' in Heq. injection Heq as <-. rewrite Hb in Hb'. injection Hb' as Hb'.
  destruct (Z.le_gt_cases d (ds t j)) as [|Hgt]; [done|].
  apply mod_eq_near in Hb'; lia.
Qed.

(** No entry is exchanged at a distance of 4096 or more. *)
Definition calm (t : table) (kv : K * V) (B : Z) : Prop :=
  B < DIST_FROM_IDEAL_BUCKET_LIMIT - 1 ∨ ∀ k, k ∈ keys t → hash_key k = hash_key kv.1.

Lemma displace_ok fuel : ∀ t j e d hc kv B,
  array_ok t → carried t j d hc kv → way t j e d B → B ≤ 2 ^ 15 - 2 → calm t kv B →
  (Z.to_nat (e - j) ≤ fuel)%nat →
  ∃ t', displace StoreHash entry_has_room fuel t (j `mod` size_of t) d hc kv = Some t' ∧ inserted t kv t' ∧
    ∀ y, e - size_of t < y < j → bk t' y = bk t y.
Proof using L.
  induction fuel as [|fuel IH]; intros t j e d hc kv B Hok Hc Hw HB Hcalm Hf;
    pose proof (ao_pos t Hok) as Hn; cbn [displace]; rewrite bucket_at_ok by done;
    cbn [mbind option_bind]; fold (ds t j); rewrite empty_iff;
    (destruct (m_value (bk t j)) as [kv'|] eqn:Hv;
     [|rewrite (proj1 (ds_empty t j Hok) Hv); cbn [Z.eqb Pos.eqb negb]; rewrite set_bucket_ok by done;
       eexists; split; [done|]; split; [by apply inserted_place|];
       intros y Hy; apply bk_put_far; [done|]; pose proof (way_range _ _ _ _ _ Hw); lia]);
    pose proof (way_occupied _ _ _ _ _ _ Hok Hw Hv) as Hje; [lia|].
  assert (ds t j ≠ -1) as Hne by (intros Hd%(ds_empty t j Hok); congruence).
  pose proof (way_short _ _ _ _ _ Hw j ltac:(lia)). pose proof (ds_lower t j Hok).
  pose proof (ca_dist _ _ _ _ _ Hc). pose proof (way_dist _ _ _ _ _ Hw).
  rewrite (proj2 (Z.eqb_neq _ _)) by done. cbn [negb].
  destruct (Z.ltb_spec (ds t j) d) as [Hlt|Hge].
  - assert (B < DIST_FROM_IDEAL_BUCKET_LIMIT - 1) as Hsmall.
    { destruct Hcalm as [|Hsame]; [done|].
      assert (d ≤ ds t j); [|lia]. eapply no_swap; [done|exists e; apply Hw|done|done|].
      symmetry. apply Hsame. destruct kv' as [k' v']. unfold keys. apply list_elem_of_fmap.
      exists (k', v'). split; [done|]. apply entries_elem. exists (j `mod` size_of t).
      split; [by apply Z.mod_pos_bound|]. by rewrite bk_mod. }
    unfold DIST_FROM_IDEAL_BUCKET_LIMIT in *. rewrite (proj2 (Z.leb_gt 4096 d)) by lia.
    rewrite (swap_value t j _ _ _ kv') by done. cbn [mbind option_bind]. rewrite set_bucket_ok by done.
    cbn [mbind option_bind]. rewrite i16_small by lia.
    destruct (IH (put t j (set_value (bk t j) d hc kv)) (j + 1) e (ds t j + 1)
      (swap_hash (bk t j) hc) kv' B)
      as (t' & Ht' & Hi & Hy); [by apply put_carried|by apply carry_swap|by apply way_swap|done|by left|lia|].
    rewrite size_put in Ht'. rewrite <-(next_bucket_ok t j Hok) in Ht'.
    exists t'. split; [exact Ht'|]. split; [by eapply inserted_swap|].
    intros y Hye. rewrite Hy by (rewrite size_put; lia). apply bk_put_far; [done|].
    pose proof (way_range _ _ _ _ _ Hw). lia.
  - rewrite next_bucket_ok by done. rewrite i16_small by lia.
    destruct (IH t (j + 1) e (d + 1) hc kv B) as (t' & Ht' & Hi & Hy);
      [done|by apply carry_skip|by apply way_skip|done|done|lia|].
    exists t'. split; [done|]. split; [done|]. intros y Hye. apply Hy. lia.
Qed.
End invariant.
