(* ===== verification/RobinProbe.v ===== *)
(** * The loops of the robin-hood table that look for a key, and the backward shift

    The probe stops at the key's bucket, or where the key would be; the distances are
    bounded by how the hashes of the keys are spread; erasing an entry keeps the array
    well formed. *)
From stdpp Require Import gmap.
From S2P Require Import Prelude Words Floats RobinGrowth RobinTable RobinInv.

(** Choosing an element for each index. *)
Lemma list_choice {A} (m : nat) (P : nat → A → Prop) :
  (∀ i, (i < m)%nat → ∃ a, P i a) → ∃ l, length l = m ∧ ∀ i a, l !! i = Some a → P i a.
Proof.
  induction m as [|m IH]; intros HP; [exists []; split; [done|]; intros i a Hi; done|].
  destruct IH as (l & Hl & Hall); [intros i Hi; apply HP; lia|]. destruct (HP m ltac:(lia)) as [a Ha].
  exists (l ++ [a]). rewrite length_app, Hl. split; [cbn; lia|]. intros i b Hi.
  apply lookup_snoc_Some in Hi as [[_ Hi]|[-> <-]]; [by apply Hall|by rewrite Hl].
Qed.

Section probe.
Context {K V G : Type} `{Countable K} `{L : GrowthPolicyLaws G}.
Context (hash_key : K → option Z) (StoreHash entry_has_room : bool).

Abbreviation bucket := (bucket_entry K V).
Abbreviation table := (robin_hash K V G).
Abbreviation STORE := (STORE_HASH (G := G) StoreHash entry_has_room).
Abbreviation array_ok := (array_ok (V := V) (G := G) hash_key StoreHash entry_has_room).
Abbreviation entry_ok := (entry_ok (V := V) (G := G) hash_key StoreHash entry_has_room).
Abbreviation carried := (carried (V := V) (G := G) hash_key StoreHash entry_has_room).

(** ** Comparing *)

Lemma matches_ok (t : table) j kv k h :
  array_ok t → m_value (bk t j) = Some kv → hash_key k = Some h →
  bucket_matches (G := G) StoreHash entry_has_room (bk t j) k h = Some (bool_decide (kv.1 = k)).
Proof using.
  intros Hok Hv Hk. unfold bucket_matches, USE_STORED_HASH_ON_LOOKUP. rewrite Hv. cbn [mbind option_bind].
  destruct StoreHash eqn:Hst; cbn [negb orb]; [|done].
  pose proof (ao_bucket _ _ _ t Hok j) as Hb. unfold bucket_ok in Hb. rewrite Hv in Hb.
  destruct kv as [k' v]. destruct Hb as (_ & h' & Hk' & _ & Hs & _).
  unfold bucket_hash_equal. rewrite Hs by (unfold STORE_HASH; by rewrite ?Hst).
  change (STORE_HASH true entry_has_room) with true. cbn [fst].
  destruct (Z.eqb_spec (u32 h') (u32 h)) as [|Hne]; [done|].
  rewrite bool_decide_eq_false_2; [done|]. intros ->. rewrite Hk in Hk'. injection Hk' as <-. done.
Qed.

(** ** The probe *)

(** Steps [0 .. d-1] from the ideal bucket [p] were on entries at least that far, none
    of them the key [k]. *)
Definition passed (t : table) (p d : Z) (k : K) : Prop :=
  ∀ x, 0 ≤ x < d → x ≤ ds t (p + x) ∧ ∀ v, m_value (bk t (p + x)) ≠ Some (k, v).

Lemma passed_lt t p d k : array_ok t → hole t → passed t p d k → d < size_of t.
Proof using.
  intros Hok Hh Hp. destruct (Z.lt_ge_cases d (size_of t)) as [|Hge]; [done|].
  destruct (hole_after t p (ao_pos _ _ _ t Hok) Hh) as (e & He & Hd).
  destruct (Hp (e - p) ltac:(lia)) as [Hx _]. replace (p + (e - p)) with e in Hx by lia. lia.
Qed.

(** A key not met where the loop stops is not in the array. *)
Lemma stopped_absent t p d k h :
  array_ok t → hash_key k = Some h → gp_bucket_for_hash (m_policy t) h = Some (p `mod` size_of t) →
  passed t p d k → ds t (p + d) < d → k ∉ keys t.
Proof using.
  intros Hok Hk Hp Hpass Hstop Hin. unfold keys in Hin.
  apply list_elem_of_fmap in Hin as ([k' v] & Heq & Hin). cbn in Heq. subst k'.
  apply entries_elem in Hin as (j & Hj & Hv). pose proof (ao_bucket _ _ _ t Hok j) as Hb.
  unfold bucket_ok in Hb. rewrite Hv in Hb. destruct Hb as (Hd0 & h' & Hk' & _ & _ & Hb).
  rewrite Hk in Hk'. injection Hk' as <-. rewrite Hp in Hb. injection Hb as Hb. fold (ds t j) in *.
  assert (Hpj : ∀ x, bk t (p + x) = bk t (j - ds t j + x)).
  { intros x. apply bk_mod_eq. rewrite <-Zplus_mod_idemp_l, Hb, Zplus_mod_idemp_l. done. }
  destruct (Z.lt_ge_cases (ds t j) d) as [Hlt|Hge].
  - destruct (Hpass (ds t j) ltac:(lia)) as [_ Hne]. apply (Hne v). rewrite Hpj.
    by replace (j - ds t j + ds t j) with j by lia.
  - destruct (decide (0 ≤ d)) as [|].
    + pose proof (run _ _ _ t j (ds t j - d) Hok ltac:(lia)) as Hr.
      replace (j - (ds t j - d)) with (j - ds t j + d) in Hr by lia.
      assert (ds t (p + d) = ds t (j - ds t j + d)) as Heq by (unfold ds; f_equal; apply Hpj). lia.
    + pose proof (ds_lower hash_key StoreHash entry_has_room t (p + d) Hok). lia.
Qed.

(** Where the probe for [k] ends: at the key, or where it would be inserted. *)
Definition probe_end (t : table) (p : Z) (k : K) (found : bool) (d : Z) : Prop :=
  0 ≤ d ∧ if found then ∃ v, m_value (bk t (p + d)) = Some (k, v)
          else ds t (p + d) < d ≤ ds t (p + d - 1) + 1 ∧ k ∉ keys t.

Lemma probe_ok fuel : ∀ (t : table) p d k h,
  array_ok t → hole t → (∀ j, ds t j ≤ 2 ^ 15 - 2) →
  hash_key k = Some h → gp_bucket_for_hash (m_policy t) h = Some (p `mod` size_of t) →
  0 ≤ d ≤ ds t (p + d - 1) + 1 → passed t p d k → (Z.to_nat (size_of t - d) ≤ fuel)%nat →
  ∃ found d', probe StoreHash entry_has_room fuel t k h ((p + d) `mod` size_of t) d
    = Some (found, (p + d') `mod` size_of t, d') ∧ probe_end t p k found d'.
Proof using L.
  induction fuel as [|fuel IH]; intros t p d k h Hok Hh Hshort Hk Hp Hd Hpass Hf;
    pose proof (ao_pos _ _ _ t Hok) as Hn; pose proof (passed_lt t p d k Hok Hh Hpass); [lia|].
  cbn [probe]. rewrite bucket_at_ok by done. cbn [mbind option_bind]. fold (ds t (p + d)).
  pose proof (Hshort (p + d)). destruct (Z.leb_spec d (ds t (p + d))) as [Hle|Hgt].
  - destruct (m_value (bk t (p + d))) as [kv|] eqn:Hv;
      [|apply (ds_empty _ _ _ t _ Hok) in Hv; lia].
    rewrite (matches_ok t _ kv k h) by done. cbn [mbind option_bind].
    destruct (bool_decide_reflect (kv.1 = k)) as [Heq|Hne].
    + exists true, d. split; [done|]. split; [lia|]. exists kv.2. rewrite Hv. destruct kv; cbn in *; congruence.
    + rewrite (next_bucket_ok hash_key StoreHash entry_has_room) by done. rewrite i16_small by lia.
      replace (p + d + 1) with (p + (d + 1)) by lia.
      apply IH; try done; [replace (p + (d + 1) - 1) with (p + d) by lia; lia| |lia].
      intros x Hx. destruct (decide (x = d)) as [->|]; [|apply Hpass; lia].
      split; [done|]. intros v. rewrite Hv. destruct kv; cbn in *; congruence.
  - exists false, d. split; [done|]. split; [lia|]. split; [lia|]. by eapply stopped_absent.
Qed.

(** The key is not compared when the place is looked for again; on an array without it
    the loop is the probe. *)
Lemma probe_place_ok fuel : ∀ (t : table) i d k h found i' d',
  array_ok t → k ∉ keys t → hash_key k = Some h → 0 ≤ d → (∀ j, ds t j ≤ 2 ^ 15 - 2) →
  probe StoreHash entry_has_room fuel t k h (i `mod` size_of t) d = Some (found, i', d') →
  probe_place fuel t (i `mod` size_of t) d = Some (i', d').
Proof using L.
  induction fuel as [|fuel IH]; intros t i d k h found i' d' Hok Habs Hk Hd Hshort; cbn [probe probe_place];
    pose proof (ao_pos _ _ _ t Hok) as Hn; rewrite bucket_at_ok by done; cbn [mbind option_bind];
    (destruct (d <=? _) eqn:Hle; [|by intros [= <- <- <-]]); [done|].
  destruct (m_value (bk t i)) as [[k' v]|] eqn:Hv.
  - rewrite (matches_ok t _ (k', v) k h) by done. cbn [mbind option_bind].
    rewrite bool_decide_eq_false_2.
    + pose proof (Hshort i). apply Z.leb_le in Hle. fold (ds t i) in Hle.
      rewrite (next_bucket_ok hash_key StoreHash entry_has_room) by done. rewrite i16_small by lia.
      apply IH; done || lia.
    + cbn. intros ->. by eapply (not_in_keys _ _ Habs).
  - apply (ds_empty hash_key StoreHash entry_has_room t i Hok) in Hv. apply Z.leb_le in Hle.
    fold (ds t i) in Hle. lia.
Qed.
(** ** Bounding the distances

    [spread D X]: whatever the number of buckets, an arc of [len] buckets is selected by
    the hashes of at most [len + D] keys of [X]. *)
Definition in_arc (g : G) (n a len : Z) (k : K) : bool :=
  match h ← hash_key k; gp_bucket_for_hash g h with
  | Some p => (p - a) `mod` n <? len
  | None => false
  end.

Definition spread (D : Z) (X : gset K) : Prop :=
  ∀ g n a len, gp_ok g n → 0 < n → 0 ≤ len →
    Z.of_nat (size (filter (λ k, in_arc g n a len k = true) X)) ≤ len + D.

Lemma spread_subseteq D X Y : X ⊆ Y → spread D Y → spread D X.
Proof using.
  intros HXY HY g n a len Hg Hn Hl. specialize (HY g n a len Hg Hn Hl).
  assert (filter (λ k, in_arc g n a len k = true) X ⊆ filter (λ k, in_arc g n a len k = true) Y) as Hs.
  { intros k [Hk Hx]%elem_of_filter. apply elem_of_filter. auto. }
  apply subseteq_size in Hs. lia.
Qed.

(** [D + 1] keys are always spread. *)
Lemma spread_small D X : 0 ≤ D → Z.of_nat (size X) ≤ D + 1 → spread D X.
Proof using.
  intros HD HX g n a len Hg Hn Hl. destruct (decide (len = 0)) as [->|].
  - assert (filter (λ k, in_arc g n a 0 k = true) X = ∅) as ->; [|rewrite size_empty; lia].
    apply set_eq. intros k. rewrite elem_of_filter. split; [|set_solver]. intros [Hk _].
    unfold in_arc in Hk. destruct (h ← _; _) as [p|]; [|done]. apply Z.ltb_lt in Hk.
    pose proof (Z.mod_pos_bound (p - a) n Hn). lia.
  - assert (filter (λ k, in_arc g n a len k = true) X ⊆ X) as Hs%subseteq_size by (intros k [_ Hx]%elem_of_filter; done). lia.
Qed.

(** The start of the run of entries that holds [j]: an entry in its ideal bucket. *)
Lemma run_start (t : table) j :
  array_ok t → hole t → 0 ≤ ds t j →
  ∃ s, s ≤ j - ds t j ∧ j - s < size_of t ∧ ds t s = 0 ∧ ∀ x, s ≤ x ≤ j → 0 ≤ ds t x.
Proof using.
  intros Hok Hh Hj. pose proof (ao_pos _ _ _ t Hok) as Hn.
  destruct (hole_before t j Hn Hh ltac:(lia)) as (e & He & Hd).
  assert (∀ x, j - ds t j ≤ x ≤ j → 0 ≤ ds t x) as Hrun.
  { intros x Hx. pose proof (run hash_key StoreHash entry_has_room t j (j - x) Hok ltac:(lia)) as Hr.
    replace (j - (j - x)) with x in Hr by lia. lia. }
  assert (e < j - ds t j) as Hs0.
  { destruct (Z.lt_ge_cases e (j - ds t j)); [done|]. specialize (Hrun e ltac:(lia)). lia. }
  assert (j - ds t j ≤ j) as Hs0j by lia. set (s0 := j - ds t j) in *. clearbody s0.
  assert (∀ m s, Z.to_nat (s - e) = m → e < s ≤ j → s ≤ s0 → (∀ x, s ≤ x ≤ j → 0 ≤ ds t x) →
    ∃ s, s ≤ s0 ∧ j - s < size_of t ∧ ds t s = 0 ∧ ∀ x, s ≤ x ≤ j → 0 ≤ ds t x) as Hgen.
  { intros m. induction (lt_wf m) as [m _ IH]. intros s Hm Hs Hs0' Hall.
    destruct (decide (ds t s = 0)) as [Hz|Hnz]; [exists s; split; [done|]; split; [lia|done]|].
    pose proof (Hall s ltac:(lia)).
    assert (∀ x, s - ds t s ≤ x ≤ j → 0 ≤ ds t x) as Hall'.
    { intros x Hx. destruct (Z.le_gt_cases s x); [apply Hall; lia|].
      pose proof (run hash_key StoreHash entry_has_room t s (s - x) Hok ltac:(lia)) as Hr.
      replace (s - (s - x)) with x in Hr by lia. lia. }
    assert (e < s - ds t s) by
      (destruct (Z.lt_ge_cases e (s - ds t s)); [done|]; specialize (Hall' e ltac:(lia)); lia).
    eapply (IH (Z.to_nat (s - ds t s - e))); [lia|done|lia|lia|done]. }
  eapply (Hgen _ s0); [done|lia|done|exact Hrun].
Qed.

(** In a run the ideal buckets are in order. *)
Lemma ideal_order (t : table) s j : array_ok t → s ≤ j → s - ds t s ≤ j - ds t j.
Proof using.
  intros Hok Hsj. replace j with (s + (j - s)) by lia. assert (0 ≤ j - s) as Hx by lia.
  revert Hx. generalize (j - s). clear j Hsj. apply natlike_ind; [rewrite Z.add_0_r; lia|].
  intros x Hx IH. pose proof (ao_order _ _ _ t Hok (s + x)) as Ho.
  replace (s + Z.succ x) with (s + x + 1) by lia. lia.
Qed.

Lemma spread_bound (t : table) X D :
  array_ok t → hole t → spread D X → (∀ k, k ∈ keys t → k ∈ X) → ∀ j, 0 ≤ ds t j → ds t j ≤ D.
Proof using.
  intros Hok Hh HX Hsub j Hj. pose proof (ao_pos _ _ _ t Hok) as Hn.
  destruct (run_start t j Hok Hh Hj) as (s & Hs & Hlen & Hz & Hall).
  set (m := Z.to_nat (j - s + 1)).
  assert (∀ i, (i < m)%nat → ∃ k, (∃ v, m_value (bk t (s + Z.of_nat i)) = Some (k, v)) ∧
    k ∈ X ∧ in_arc (m_policy t) (size_of t) s (j - ds t j - s + 1) k = true) as Hkeys.
  { intros i Hi. specialize (Hall (s + Z.of_nat i) ltac:(lia)).
    destruct (m_value (bk t (s + Z.of_nat i))) as [[k v]|] eqn:Hv;
      [|apply (ds_empty hash_key StoreHash entry_has_room t _ Hok) in Hv; lia].
    exists k. split; [eauto|]. split.
    - apply Hsub, list_elem_of_fmap. exists (k, v). split; [done|]. apply entries_elem.
      exists ((s + Z.of_nat i) `mod` size_of t). split; [by apply Z.mod_pos_bound|]. by rewrite bk_mod.
    - pose proof (ao_bucket _ _ _ t Hok (s + Z.of_nat i)) as Hb. unfold bucket_ok in Hb. rewrite Hv in Hb.
      destruct Hb as (_ & h & Hk & _ & _ & Hb). fold (ds t (s + Z.of_nat i)) in Hb.
      unfold in_arc. rewrite Hk. cbn [mbind option_bind]. rewrite Hb. apply Z.ltb_lt.
      pose proof (ideal_order t s (s + Z.of_nat i) Hok ltac:(lia)).
      pose proof (ideal_order t (s + Z.of_nat i) j Hok ltac:(lia)).
      rewrite Zminus_mod_idemp_l, Z.mod_small; lia. }
  assert (∃ ks : list K, length ks = m ∧ NoDup ks ∧
    ∀ k, k ∈ ks → k ∈ filter (λ k, in_arc (m_policy t) (size_of t) s (j - ds t j - s + 1) k = true) X) as Hks.
  { destruct (list_choice m _ Hkeys) as (ks & Hl & Hks). exists ks. split; [done|]. split.
    - apply NoDup_alt. intros i i' k Hi Hi'.
      destruct (Hks i k Hi) as [[v Hv] _], (Hks i' k Hi') as [[v' Hv'] _].
      pose proof (lookup_lt_Some _ _ _ Hi). pose proof (lookup_lt_Some _ _ _ Hi').
      pose proof (key_position hash_key StoreHash entry_has_room t _ _ k v v' Hok Hv Hv') as Heq.
      apply mod_eq_near in Heq; lia.
    - intros k [i Hi]%list_elem_of_lookup. apply elem_of_filter. destruct (Hks i k Hi) as [_ [? ?]]. done. }
  destruct Hks as (ks & Hl & Hnd & Hin).
  specialize (HX (m_policy t) (size_of t) s (j - ds t j - s + 1) (ao_policy _ _ _ t Hok) Hn ltac:(lia)).
  assert (m ≤ size (filter (λ k, in_arc (m_policy t) (size_of t) s (j - ds t j - s + 1) k = true) X))%nat as Hsz.
  { rewrite <-Hl, <-(size_list_to_set (C := gset K) ks Hnd). apply subseteq_size.
    intros k Hk. apply Hin. by apply elem_of_list_to_set in Hk. }
  lia.
Qed.
End probe.
