(* ===== verification/RobinErase.v ===== *)
(** * The backward shift of the robin-hood table

    Erasing an entry leaves a gap; the loop of [erase_from_bucket] moves it forward over
    entries that are not in their ideal bucket, one step closer each. *)
From stdpp Require Import gmap.
From S2P Require Import Prelude Words Floats RobinGrowth RobinTable RobinInv.

Section erase.
Context {K V G : Type} `{Countable K} `{L : GrowthPolicyLaws G}.
Context (hash_key : K → option Z) (StoreHash entry_has_room : bool).

Abbreviation bucket := (bucket_entry K V).
Abbreviation table := (robin_hash K V G).
Abbreviation STORE := (STORE_HASH (G := G) StoreHash entry_has_room).
Abbreviation array_ok := (array_ok (V := V) (G := G) hash_key StoreHash entry_has_room).
Abbreviation bucket_ok := (bucket_ok (V := V) (G := G) hash_key StoreHash entry_has_room).
Abbreviation set_value := (set_value_of_empty_bucket (G := G) StoreHash entry_has_room).
Abbreviation ds_empty := (ds_empty hash_key StoreHash entry_has_room).

(** Well formed but for the step over the gap at [j]. *)
Record gapped (t : table) (j : Z) : Prop := Gapped {
  ga_pos : 0 < size_of t;
  ga_count : m_bucket_count t = size_of t;
  ga_policy : gp_ok (m_policy t) (size_of t);
  ga_bucket : ∀ x, bucket_ok t x (bk t x);
  ga_order : ∀ x, x `mod` size_of t ≠ j `mod` size_of t → ds t (x + 1) ≤ ds t x + 1;
  ga_nodup : NoDup (keys t);
  ga_last : ∀ x, m_last_bucket (bk t x) = (x `mod` size_of t =? size_of t - 1);
  ga_gap : m_value (bk t j) = None;
  ga_jump : ds t (j + 1) ≤ ds t (j - 1) + 2
}.

Lemma ga_empty (t : table) j : gapped t j → ds t j = -1.
Proof using.
  intros Hg. pose proof (ga_bucket t j Hg j) as Hb. unfold RobinInv.bucket_ok in Hb.
  by rewrite (ga_gap t j Hg) in Hb.
Qed.

Lemma ga_lower (t : table) j x : gapped t j → -1 ≤ ds t x.
Proof using.
  intros Hg. pose proof (ga_bucket t j Hg x) as Hb. unfold RobinInv.bucket_ok, ds in *.
  destruct (m_value (bk t x)) as [[k v]|]; lia.
Qed.

(** The gap closes on an entry in its ideal bucket or on a hole. *)
Lemma gap_closes (t : table) j : gapped t j → ds t (j + 1) ≤ 0 → array_ok t.
Proof using.
  intros Hg Hle. split; [apply Hg..| | |]; [|apply Hg..]. intros x.
  destruct (decide (x `mod` size_of t = j `mod` size_of t)) as [Heq|]; [|by apply Hg].
  assert (ds t x = -1) as ->.
  { rewrite <-(ga_empty t j Hg). unfold ds. f_equal. by apply bk_mod_eq. }
  assert (ds t (x + 1) = ds t (j + 1)) as ->; [|lia].
  unfold ds. f_equal. apply bk_mod_eq. rewrite <-Zplus_mod_idemp_l, Heq, Zplus_mod_idemp_l. done.
Qed.

(** ** Opening the gap *)

Lemma clear_full (b : bucket) kv :
  m_value b = Some kv → m_dist_from_ideal_bucket b ≠ -1 →
  bucket_clear b = Bucket EMPTY_MARKER (m_hash b) (m_last_bucket b) None.
Proof using.
  intros Hv Hd. unfold bucket_clear, bucket_empty. unfold EMPTY_MARKER at 1.
  by rewrite (proj2 (Z.eqb_neq _ _)).
Qed.

Lemma ds_clear (t : table) j x kv :
  0 < size_of t → m_value (bk t j) = Some kv → ds t j ≠ -1 →
  ds (put t j (bucket_clear (bk t j))) x = if decide (x `mod` size_of t = j `mod` size_of t) then -1 else ds t x.
Proof using.
  intros Hn Hv Hd. unfold ds. rewrite bk_put by done. case_decide; [|done]. by rewrite (clear_full _ kv).
Qed.

Lemma bucket_ok_put (t : table) j b x :
  0 < size_of t → bucket_ok t j b → (x `mod` size_of t ≠ j `mod` size_of t → bucket_ok t x (bk t x)) →
  bucket_ok (put t j b) x (bk (put t j b) x).
Proof using.
  intros Hn Hj Hx. rewrite bk_put by done.
  assert (∀ b, bucket_ok t x b → bucket_ok (put t j b) x b) as Hmono.
  { intros b'. unfold RobinInv.bucket_ok, entry_ok. by rewrite size_put, policy_put. }
  assert (∀ b', bucket_ok t x b' → bucket_ok (put t j b) x b') as Hmono'.
  { intros b'. unfold RobinInv.bucket_ok, entry_ok. by rewrite size_put, policy_put. }
  case_decide as Heq; [|by apply Hmono', Hx]. apply Hmono'. revert Hj. unfold RobinInv.bucket_ok.
  destruct (m_value b) as [[k v]|]; [|done]. intros [? He]. split; [done|]. by eapply entry_ok_mod.
Qed.

Lemma last_put (t : table) j b x :
  0 < size_of t → m_last_bucket b = m_last_bucket (bk t j) →
  (∀ x, m_last_bucket (bk t x) = (x `mod` size_of t =? size_of t - 1)) →
  m_last_bucket (bk (put t j b) x) = (x `mod` size_of t =? size_of t - 1).
Proof using. intros Hn Hb Hl. rewrite bk_put by done. case_decide as Hx; [|apply Hl]. by rewrite Hb, Hl, Hx. Qed.

Lemma open_gap (t : table) j kv :
  array_ok t → hole t → m_value (bk t j) = Some kv →
  gapped (put t j (bucket_clear (bk t j))) j ∧
  kv :: entries (put t j (bucket_clear (bk t j))) ≡ₚ entries t.
Proof using.
  intros Hok Hh Hv. pose proof (ao_pos _ _ _ t Hok) as Hn.
  assert (ds t j ≠ -1) as Hd by (intros Hd%(ds_empty t j Hok); congruence).
  pose proof (ds_lower hash_key StoreHash entry_has_room t j Hok).
  pose proof (ds_bound hash_key StoreHash entry_has_room t j Hok Hh).
  assert (kv :: entries (put t j (bucket_clear (bk t j))) ≡ₚ entries t) as Hp.
  { pose proof (entries_put t j (bucket_clear (bk t j)) Hn) as Hp. rewrite Hv in Hp.
    rewrite (clear_full _ kv) in Hp |- * by done. cbn [m_value option_list] in Hp.
    rewrite app_nil_r in Hp. by rewrite <-Hp, Permutation_app_comm. }
  split; [|done]. split; rewrite ?size_put; [done|apply Hok|apply Hok| | | | | |].
  - intros x. apply bucket_ok_put; [done| |intros _; apply Hok].
    rewrite (clear_full _ kv) by done. done.
  - intros x Hx. rewrite !(ds_clear t j _ kv) by done. rewrite (decide_False (P := x `mod` _ = _)) by done.
    pose proof (ao_order _ _ _ t Hok x). case_decide; [|done].
    pose proof (ds_lower hash_key StoreHash entry_has_room t x Hok). lia.
  - pose proof (ao_nodup _ _ _ t Hok) as Hnd. unfold keys in *. rewrite <-Hp in Hnd.
    by apply NoDup_cons in Hnd as [_ Hnd].
  - intros x. apply last_put; [done| |apply Hok]. by rewrite (clear_full _ kv).
  - rewrite bk_put, decide_True by done. by rewrite (clear_full _ kv).
  - rewrite !(ds_clear t j _ kv) by done.
    pose proof (ao_order _ _ _ t Hok j) as Ho1. pose proof (ao_order _ _ _ t Hok (j - 1)) as Ho2.
    replace (j - 1 + 1) with j in Ho2 by lia.
    pose proof (ds_lower hash_key StoreHash entry_has_room t (j - 1) Hok).
    destruct (decide ((j - 1) `mod` size_of t = j `mod` size_of t)) as [Hx|]; [apply mod_eq_near in Hx; lia|].
    case_decide; lia.
Qed.

(** ** Moving it *)

Definition shifted (t : table) (j : Z) (kv : K * V) : table :=
  let t1 := put t j (set_value (bk t j) (ds t (j + 1) - 1)
              (swap_hash (G := G) StoreHash entry_has_room (bk t (j + 1)) 0) kv) in
  put t1 (j + 1) (bucket_clear (bk t (j + 1))).

Lemma mod_shift (n x y c : Z) : x `mod` n = y `mod` n → (x + c) `mod` n = (y + c) `mod` n.
Proof using. intros Hxy. by rewrite <-Zplus_mod_idemp_l, Hxy, Zplus_mod_idemp_l. Qed.

Section shift.
Context (t : table) (j : Z) (kv : K * V).
Context (Hg : gapped t j) (Hd : 0 < ds t (j + 1)) (Hv : m_value (bk t (j + 1)) = Some kv).

(** What the gap gets, and what is left behind. *)
Let b1 := set_value (bk t j) (ds t (j + 1) - 1)
  (swap_hash (G := G) StoreHash entry_has_room (bk t (j + 1)) 0) kv.
Let b2 := Bucket EMPTY_MARKER (m_hash (bk t (j + 1))) (m_last_bucket (bk t (j + 1))) None : bucket.

Lemma shift_apart : (j + 1) `mod` size_of t ≠ j `mod` size_of t.
Proof using Hg Hd.
  pose proof (ga_empty t j Hg) as Hgap. pose proof (ga_lower t j (j - 1) Hg). intros Heq.
  assert (ds t (j + 1) = ds t j) as E by (unfold ds; f_equal; by apply bk_mod_eq). lia.
Qed.

Lemma shifted_puts : shifted t j kv = put (put t j b1) (j + 1) b2.
Proof using Hd Hv.
  assert (bucket_clear (bk t (j + 1)) = b2) as Hb2 by (apply (clear_full _ kv); [done|fold (ds t (j + 1)); lia]).
  unfold shifted. by rewrite Hb2.
Qed.

Lemma shifted_next : bk (put t j b1) (j + 1) = bk t (j + 1).
Proof using Hg Hd. pose proof shift_apart. by rewrite bk_put, decide_False by (done || apply Hg). Qed.

Lemma shifted_ds x :
  ds (shifted t j kv) x =
  if decide (x `mod` size_of t = (j + 1) `mod` size_of t) then -1
  else if decide (x `mod` size_of t = j `mod` size_of t) then ds t (j + 1) - 1 else ds t x.
Proof using Hg Hd Hv.
  pose proof (ga_pos t j Hg) as Hn. rewrite shifted_puts. unfold ds at 1.
  rewrite bk_put by (by rewrite size_put). rewrite size_put. case_decide; [done|].
  rewrite bk_put by done. by case_decide.
Qed.

Lemma shifted_entries : entries (shifted t j kv) ≡ₚ entries t.
Proof using Hg Hd Hv.
  pose proof (ga_pos t j Hg) as Hn. rewrite shifted_puts. apply (Permutation_app_inv_r [kv]).
  pose proof (entries_put (put t j b1) (j + 1) b2 ltac:(by rewrite size_put)) as Ho2.
  rewrite shifted_next, Hv in Ho2. cbn [option_list m_value b2] in Ho2. rewrite Ho2, app_nil_r.
  pose proof (entries_put t j b1 Hn) as Ho1. rewrite (ga_gap t j Hg) in Ho1.
  cbn [option_list m_value b1 set_value_of_empty_bucket] in Ho1. by rewrite app_nil_r in Ho1.
Qed.

Lemma shifted_buckets x : bucket_ok (shifted t j kv) x (bk (shifted t j kv) x).
Proof using Hg Hd Hv.
  pose proof (ga_pos t j Hg) as Hn. rewrite shifted_puts.
  apply bucket_ok_put; [by rewrite size_put|done|]. intros _. apply bucket_ok_put; [done| |intros _; apply Hg].
  pose proof (ga_bucket t j Hg (j + 1)) as Hb. unfold RobinInv.bucket_ok in *. rewrite Hv in Hb.
  cbn [b1 set_value_of_empty_bucket m_value m_dist_from_ideal_bucket m_hash]. destruct kv as [k v].
  destruct Hb as [_ (h & Hk & Hh & Hst & Hb)]. fold (ds t (j + 1)) in Hb. split; [lia|].
  exists h. split; [done|]. split; [done|]. split; [|rewrite Hb; do 2 f_equal; lia].
  intros HS. unfold swap_hash. rewrite HS, Hst by done. apply wrap_wrap.
Qed.

(** The distances grow by one at most, from one bucket to the next, outside the new gap. *)
Lemma shifted_order x :
  x `mod` size_of t ≠ (j + 1) `mod` size_of t → ds (shifted t j kv) (x + 1) ≤ ds (shifted t j kv) x + 1.
Proof using Hg Hd Hv.
  intros Hx. rewrite !shifted_ds. rewrite (decide_False (P := x `mod` _ = _)) by done.
  destruct (decide (x `mod` size_of t = j `mod` size_of t)) as [Hxj|Hxj].
  - rewrite decide_True by (by apply mod_shift). lia.
  - assert ((x + 1) `mod` size_of t ≠ (j + 1) `mod` size_of t) as Hne.
    { intros Heq%(mod_shift _ _ _ (-1)). by replace (x + 1 + -1) with x in Heq by lia; replace (j + 1 + -1) with j in Heq by lia. }
    rewrite (decide_False (P := (x + 1) `mod` _ = (j + 1) `mod` _)) by done.
    destruct (decide ((x + 1) `mod` size_of t = j `mod` size_of t)) as [Hxj'|]; [|by apply (ga_order t j Hg)].
    pose proof (ga_jump t j Hg). apply (mod_shift _ _ _ (-1)) in Hxj'. replace (x + 1 + -1) with x in Hxj' by lia.
    assert (ds t x = ds t (j - 1)) as -> by (unfold ds; f_equal; by apply bk_mod_eq). lia.
Qed.

Lemma shift_step :
  gapped (shifted t j kv) (j + 1) ∧ entries (shifted t j kv) ≡ₚ entries t ∧
  size_of (shifted t j kv) = size_of t ∧
  ∀ x, x `mod` size_of t ≠ j `mod` size_of t → x `mod` size_of t ≠ (j + 1) `mod` size_of t →
    ds (shifted t j kv) x = ds t x.
Proof using Hg Hd Hv.
  pose proof (ga_pos t j Hg) as Hn. pose proof shift_apart as Hne. pose proof (ga_lower t j (j - 1) Hg).
  assert (size_of (shifted t j kv) = size_of t) as Hs by (unfold shifted; by rewrite !size_put).
  split; [|split; [apply shifted_entries|split; [done|]]].
  - split; rewrite ?Hs; [done| | |apply shifted_buckets|apply shifted_order| | | |].
    + apply Hg.
    + apply Hg.
    + pose proof (ga_nodup t j Hg) as Hnd. unfold keys in *. by rewrite shifted_entries.
    + intros x. rewrite shifted_puts. rewrite <-(size_put t j b1).
      apply last_put; [by rewrite size_put|by rewrite shifted_next|]. intros y. rewrite size_put.
      apply last_put; [done|done|apply Hg].
    + rewrite shifted_puts, bk_put by (by rewrite size_put). by rewrite decide_True.
    + replace (j + 1 - 1) with j by lia. rewrite !shifted_ds. rewrite (decide_False (P := j `mod` _ = (j + 1) `mod` _)) by done.
      rewrite (decide_True (P := j `mod` _ = j `mod` _)) by done.
      destruct (decide ((j + 1 + 1) `mod` size_of t = (j + 1) `mod` size_of t)); [lia|].
      destruct (decide ((j + 1 + 1) `mod` size_of t = j `mod` size_of t)); [lia|].
      pose proof (ga_order t j Hg (j + 1) Hne). lia.
  - intros x Hxj Hxj'. by rewrite shifted_ds, !decide_False.
Qed.
End shift.

Lemma set_data_same (t : table) : set_data t (m_buckets_data t) = t.
Proof using. by destruct t. Qed.

Lemma shift_back_ok fuel : ∀ (t : table) j e,
  gapped t j → (∀ x, ds t x ≤ 2 ^ 15) → j < e < j + size_of t → ds t e = -1 → (Z.to_nat (e - (j + 1)) ≤ fuel)%nat →
  ∃ l, shift_back StoreHash entry_has_room fuel t (j `mod` size_of t) ((j + 1) `mod` size_of t) = Some (set_data t l) ∧
    array_ok (set_data t l) ∧ entries (set_data t l) ≡ₚ entries t ∧ size_of (set_data t l) = size_of t.
Proof using L.
  induction fuel as [|fuel IH]; intros t j e Hg Hshort He Hh Hf; pose proof (ga_pos t j Hg) as Hn;
    cbn [shift_back]; rewrite (bucket_at_ok t (j + 1)) by done; cbn [mbind option_bind]; fold (ds t (j + 1));
    (destruct (Z.ltb_spec 0 (ds t (j + 1))) as [Hlt|Hge];
     [|exists (m_buckets_data t); rewrite set_data_same; split; [done|]; split; [by apply (gap_closes t j)|split; reflexivity]]).
  - exfalso. assert (e = j + 1) as -> by lia. lia.
  - assert (e ≠ j + 1) by (intros ->; lia).
    destruct (m_value (bk t (j + 1))) as [kv|] eqn:Hv.
    2: { pose proof (ga_bucket t j Hg (j + 1)) as Hb. unfold RobinInv.bucket_ok in Hb. rewrite Hv in Hb.
         unfold ds in Hlt. lia. }
    rewrite bucket_at_ok by done. cbn [mbind option_bind].
    change (truncated_hash StoreHash entry_has_room (bk t (j + 1))) with
      (swap_hash (G := G) StoreHash entry_has_room (bk t (j + 1)) 0).
    pose proof (Hshort (j + 1)). rewrite i16_small by lia.
    rewrite set_bucket_ok by done. cbn [mbind option_bind].
    destruct (shift_step t j kv Hg Hlt Hv) as (Hg' & Hp & Hs & Hds).
    set (t1 := put t j _) in *. assert (size_of t1 = size_of t) as Hs1 by apply size_put.
    rewrite <-Hs1. rewrite set_bucket_ok by lia. cbn [mbind option_bind].
    change (put t1 (j + 1) (bucket_clear (bk t (j + 1)))) with (shifted t j kv).
    assert ((j + 1) `mod` size_of t1 = (j + 1) `mod` size_of (shifted t j kv)) as -> by (by rewrite Hs1, Hs).
    assert (∀ x, ds (shifted t j kv) x ≤ 2 ^ 15) as Hshort'.
    { intros x. unfold shifted. unfold ds at 1. rewrite bk_put by (fold t1; lia). case_decide.
      - unfold bucket_clear. destruct (bucket_empty _) eqn:Hb; [|done].
        apply Z.eqb_eq in Hb. rewrite Hb. done.
      - rewrite bk_put by done. case_decide; [cbn; lia|apply Hshort]. }
    assert (next_bucket (shifted t j kv) ((j + 1) `mod` size_of (shifted t j kv))
      = (j + 1 + 1) `mod` size_of (shifted t j kv)) as Hnext by (apply next_bucket_mod; apply Hg').
    rewrite Hnext.
    destruct (IH (shifted t j kv) (j + 1) e Hg' Hshort') as (l & Hl & Hok & Hp' & Hs').
    + lia.
    + rewrite Hds; [done| |]; intros Heq%mod_eq_near; lia.
    + lia.
    + exists l. split; [exact Hl|]. split; [exact Hok|]. split; [by rewrite <-Hp|etrans; [exact Hs'|lia]].
Qed.
End erase.
