(* ===== verification/RobinLoad.v ===== *)
(** * The load threshold of the robin-hood table

    [size_type(float(bucket_count()) * m_max_load_factor)] for a power of two: the
    product is exact, so that the threshold is below the number of buckets and at
    least a fifth of it, whatever factor the client asks for. *)
From S2P Require Import Prelude Words Floats FloatRound RobinGrowth RobinTable.

(** A factor the table may hold: clamping leaves it alone. *)
Definition factor_shape (f : spec_float) : Prop :=
  ∃ m e, f = S754_finite false m e ∧ digits2_pos m = 24%positive ∧ -26 ≤ e ≤ -24 ∧ 2 ^ (- e) ≤ 5 * Zpos m ∧
    Zpos m * 2 ^ 24 ≤ 15938355 * 2 ^ (- e).

(** A clamped factor has the shape, for every [float] the client passes. *)
Lemma clamp_shape ml :
  valid_binary 24 128 ml = true →
  let f := sf_clamp ml MINIMUM_MAX_LOAD_FACTOR MAXIMUM_MAX_LOAD_FACTOR in
  factor_shape f ∧ sf_clamp f MINIMUM_MAX_LOAD_FACTOR MAXIMUM_MAX_LOAD_FACTOR = f ∧ valid_binary 24 128 f = true.
Proof.
  intros Hml. set (lo := MINIMUM_MAX_LOAD_FACTOR). set (hi := MAXIMUM_MAX_LOAD_FACTOR). cbn zeta.
  assert (lo = S754_finite false 13421773 (-26)) as Elo by (vm_compute; done).
  assert (hi = S754_finite false 15938355 (-24)) as Ehi by (vm_compute; done).
  assert (SFltb lo hi = true) as Hlh by (rewrite Elo, Ehi; done).
  assert (∀ v, sf_clamp v lo hi = if SFltb lo v then if SFltb v hi then v else hi else lo) as Ec.
  { intros v. unfold sf_clamp, sf_max. destruct (SFltb lo v); [done|]. by rewrite Hlh. }
  rewrite !Ec. destruct (SFltb lo ml) eqn:Hlo; [destruct (SFltb ml hi) eqn:Hhi|].
  2: { rewrite Hlh, SFltb_irrefl. split; [|by rewrite Ehi]. rewrite Ehi. exists 15938355%positive, (-24). split_and!; done. }
  2: { rewrite SFltb_irrefl. split; [|by rewrite Elo]. rewrite Elo. exists 13421773%positive, (-26). split_and!; done. }
  rewrite Hlo, Hhi. split; [|done].
  rewrite Elo in Hlo. rewrite Ehi in Hhi. clear - Hml Hlo Hhi.
  destruct ml as [[]|[]| |[] m e]; try done. unfold SFltb, SFcompare in *.
  change (Pos.compare_cont Eq 13421773 m) with (Pos.compare 13421773 m) in Hlo.
  change (Pos.compare_cont Eq m 15938355) with (Pos.compare m 15938355) in Hhi.
  unfold valid_binary, bounded, canonical_mantissa in Hml.
  apply andb_true_iff in Hml as [Hc%Z.eqb_eq _]. unfold fexp, emin in Hc.
  exists m, e. split; [done|].
  assert (-26 ≤ e ≤ -24) as He by (destruct (Z.compare_spec (-26) e), (Z.compare_spec e (-24)); done || lia).
  assert (digits2_pos m = 24%positive) as Hd by lia. split; [done|]. split; [done|].
  pose proof (digits2_pos_range m) as Hr. rewrite Hd in Hr. change (2 ^ (24 - 1)) with 8388608 in Hr.
  change (2 ^ 24) with 16777216 in Hr. split.
  - destruct (Z.compare_spec (-26) e) as [<-| |]; [|assert (e = -25 ∨ e = -24) as [-> | ->] by lia; cbn; lia|lia].
    destruct (Pos.compare_spec 13421773 m); [done| |done]. cbn. lia.
  - destruct (Z.compare_spec e (-24)) as [->| |]; [|assert (e = -25 ∨ e = -26) as [-> | ->] by lia; cbn; lia|lia].
    destruct (Pos.compare_spec m 15938355); [done| |done]. cbn. lia.
Qed.

Lemma threshold_pow2 f k :
  factor_shape f → 0 ≤ k ≤ 63 →
  ∃ th, load_threshold (2 ^ k) f = Some th ∧ 0 ≤ th < 2 ^ k ∧ 2 ^ k ≤ 5 * (th + 1).
Proof.
  intros (m & e & -> & Hd & He & Hm & _) Hk. exists (Zpos m * 2 ^ k / 2 ^ (- e)).
  split; [apply scaled_pow2; [by rewrite Hd|lia|done]|].
  pose proof (digits2_pos_range m) as Hr. rewrite Hd in Hr.
  assert (2 ^ 24 ≤ 2 ^ (- e)) by (apply Z.pow_le_mono_r; lia). assert (0 < 2 ^ k) by lia.
  pose proof (Z.div_mod (Zpos m * 2 ^ k) (2 ^ (- e)) ltac:(lia)).
  pose proof (Z.mod_pos_bound (Zpos m * 2 ^ k) (2 ^ (- e)) ltac:(lia)).
  split; [split; [apply Z.div_pos; lia|apply Z.div_lt_upper_bound; nia]|nia].
Qed.

(** ** What the table needs of its load factor *)
Record load_ok {G} `{GrowthPolicyLaws G} (f : spec_float) : Prop := LoadOk {
  lo_clamp : sf_clamp f MINIMUM_MAX_LOAD_FACTOR MAXIMUM_MAX_LOAD_FACTOR = f;
  lo_threshold : ∀ g n, gp_ok g n → ∃ th, load_threshold n f = Some th ∧ 0 ≤ th < Z.max 1 n ∧ n ≤ 5 * (th + 1);
  lo_valid : valid_binary 24 128 f = true
}.

Lemma load_ok_pow2 ml :
  valid_binary 24 128 ml = true →
  load_ok (G := power_of_two_growth_policy) (sf_clamp ml MINIMUM_MAX_LOAD_FACTOR MAXIMUM_MAX_LOAD_FACTOR).
Proof.
  intros Hml. destruct (clamp_shape ml Hml) as (Hs & Hc & Hv). split; [done| |done].
  intros g n [[-> _]|(k & Hk & -> & _)].
  - destruct Hs as (m & e & -> & _). exists 0. done.
  - destruct (threshold_pow2 _ k Hs Hk) as (th & Hth & Hb & H5). exists th. split; [done|]. split; [lia|done].
Qed.

(** The number of buckets for [n] entries, as [rehash] and [reserve] compute it. *)
Definition buckets_for (n : Z) (f : spec_float) : option Z :=
  sf_to_unsigned 64 (f32_ceil (f32_div (f32_of_Z n) f)).

Lemma buckets_for_ok {G} `{GrowthPolicyLaws G} n f :
  load_ok f → 0 ≤ n ≤ 2 ^ 34 → ∃ c, buckets_for n f = Some c ∧ 0 ≤ c ≤ 8 * n ∧ (0 < n → n < c).
Proof.
  intros [Hc _ Hv] Hn. destruct (clamp_shape f Hv) as [(m & e & Hf & Hd & He & H5 & Hup) _].
  rewrite Hc in Hf. subst f. unfold buckets_for. destruct (decide (n = 0)) as [->|]; [exists 0; split; [reflexivity|lia]|].
  destruct (ceil_quotient_bounds n m e ltac:(lia) ltac:(by rewrite Hd) He H5 Hup) as (c & -> & Hb). exists c. split; [done|lia].
Qed.

(** The default load factor, and a vector that is long enough. *)
Lemma default_load_ok :
  load_ok (G := power_of_two_growth_policy)
    (sf_clamp DEFAULT_MAX_LOAD_FACTOR MINIMUM_MAX_LOAD_FACTOR MAXIMUM_MAX_LOAD_FACTOR).
Proof. apply load_ok_pow2. vm_compute. reflexivity. Qed.

Lemma vectors_fit : 2 ^ 40 ≤ Z.min (gp_max_bucket_count (G := power_of_two_growth_policy)) (2 ^ 60).
Proof. vm_compute. discriminate. Qed.
