(* ===== verification/RobinMap.v ===== *)
(** * The robin-hood table refines a finite map

    [models t g]: the table [t] holds the map [g]. Every operation of RobinTable.v that
    the clients use is defined on a table that models a map whose keys are spread, and
    does to the map what its name says. *)
From stdpp Require Import gmap.
From S2P Require Import Prelude Words Floats FiniteMaps RobinGrowth RobinTable RobinInv RobinProbe RobinErase RobinLoad.

Section robin.
Context {K V G : Type} `{Countable K} `{L : GrowthPolicyLaws G}.
Context (hash_key : K → option Z) (StoreHash entry_has_room : bool).

Abbreviation bucket := (bucket_entry K V).
Abbreviation table := (robin_hash K V G).
Abbreviation STORE := (STORE_HASH (G := G) StoreHash entry_has_room).
Abbreviation array_ok := (array_ok (V := V) (G := G) hash_key StoreHash entry_has_room).
Abbreviation bucket_ok := (bucket_ok (V := V) (G := G) hash_key StoreHash entry_has_room).
Abbreviation ds_empty := (ds_empty hash_key StoreHash entry_has_room).
Abbreviation spread := (spread (G := G) hash_key).

(** The hash functor is defined on the key. *)
Definition hashable (k : K) : Prop := ∃ h, hash_key k = Some h ∧ fits 64 h.

(** What does not depend on the entries. *)
Record shape_ok (t : table) : Prop := ShapeOk {
  sh_array : (m_buckets_data t = [] ∧ m_bucket_count t = 0 ∧ gp_ok (m_policy t) 0) ∨ array_ok t;
  sh_cap : m_bucket_count t ≤ 2 ^ 40;
  sh_threshold : load_threshold (m_bucket_count t) (m_max_load_factor t) = Some (m_load_threshold t);
  sh_min : m_min_load_factor t = DEFAULT_MIN_LOAD_FACTOR;
  sh_max : load_ok (G := G) (m_max_load_factor t);
  sh_grow : m_grow_on_next_insert t = false
}.

Record models (t : table) (g : gmap K V) : Prop := Models {
  mo_shape : shape_ok t;
  mo_entries : entries t ≡ₚ map_to_list g;
  mo_count : m_nb_elements t = Z.of_nat (size g);
  mo_room : m_nb_elements t < Z.max 1 (m_bucket_count t)
}.

(** ** The same array *)

Lemma array_ok_same (t t' : table) :
  m_buckets_data t' = m_buckets_data t → m_policy t' = m_policy t → m_bucket_count t' = m_bucket_count t →
  array_ok t → array_ok t'.
Proof using.
  intros Hd Hp Hc [Hpos Hcount Hpol Hb Ho Hn Hl].
  assert (size_of t' = size_of t) as Hs by (unfold size_of; by rewrite Hd).
  assert (∀ j, bk t' j = bk t j) as Hbk by (intros j; unfold bk; by rewrite Hd, Hs).
  split; rewrite ?Hs, ?Hp, ?Hc; [done..| | | |].
  - intros j. rewrite Hbk. specialize (Hb j). unfold RobinInv.bucket_ok, entry_ok in *. by rewrite Hp, Hs.
  - intros j. unfold ds in *. rewrite !Hbk. apply Ho.
  - unfold keys, entries in *. by rewrite Hd.
  - intros j. by rewrite Hbk.
Qed.

Lemma entries_same (t t' : table) : m_buckets_data t' = m_buckets_data t → entries t' = entries t.
Proof using. unfold entries. by intros ->. Qed.

(** Fewer entries than buckets leave a hole. *)
Lemma room_hole t : array_ok t → Z.of_nat (length (entries t)) < size_of t → hole t.
Proof using.
  intros Hok Hlt. destruct (decide (Exists (λ b, m_value b = None) (m_buckets_data t))) as [Hex|Hall].
  - apply Exists_exists in Hex as (b & [i Hi]%list_elem_of_lookup & Hb).
    pose proof (lookup_lt_Some _ _ _ Hi). exists (Z.of_nat i). apply (ds_empty t _ Hok).
    unfold bk. rewrite Z.mod_small by (unfold size_of; lia). by rewrite Nat2Z.id, Hi.
  - exfalso. unfold size_of, entries in Hlt. revert Hall Hlt. generalize (m_buckets_data t). clear.
    intros l Hall Hlt. induction l as [|b l IH]; cbn in *; [lia|].
    destruct (m_value b) eqn:Hb; [|by destruct Hall; left].
    apply IH; [intros ?; apply Hall; by right|cbn in Hlt; lia].
Qed.

(** ** Construction *)

Definition fresh_table (g : G) (n th : Z) (maxlf : spec_float) : table :=
  RobinHash g (new_buckets n) n 0 th DEFAULT_MIN_LOAD_FACTOR maxlf false false.

Lemma new_buckets_spec n : 0 ≤ n →
  Z.of_nat (length (new_buckets (K := K) (V := V) n)) = n ∧ omap m_value (new_buckets (K := K) (V := V) n) = [] ∧
  ∀ i b, new_buckets (K := K) (V := V) n !! i = Some b → b = empty_bucket (Z.of_nat i =? n - 1).
Proof using.
  intros Hn. unfold new_buckets. destruct (Z.to_nat n) as [|m] eqn:Hm; [split; [cbn; lia|done]|].
  split; [rewrite length_app, length_replicate; cbn; lia|]. split.
  - rewrite omap_app. cbn. rewrite app_nil_r. clear. induction m as [|m IH]; [done|]. cbn. apply IH.
  - intros i b [Hi|[Hi Hb]]%lookup_app_Some.
    + apply lookup_replicate in Hi as [-> Hi]. f_equal. symmetry. apply Z.eqb_neq. lia.
    + rewrite length_replicate in *. destruct (i - m)%nat as [|x] eqn:Hx; [|done].
      injection Hb as <-. f_equal. symmetry. apply Z.eqb_eq. lia.
Qed.

Lemma fresh_array g n th maxlf : 0 < n → gp_ok g n → array_ok (fresh_table g n th maxlf).
Proof using.
  intros Hn Hg. destruct (new_buckets_spec n ltac:(lia)) as (Hl & He & Hb).
  assert (size_of (fresh_table g n th maxlf) = n) as Hs by exact Hl.
  assert (∀ j, bk (fresh_table g n th maxlf) j = empty_bucket (j `mod` n =? n - 1)) as Hbk.
  { intros j. pose proof (bk_lookup (fresh_table g n th maxlf) j ltac:(lia)) as Hj.
    apply Hb in Hj. rewrite Hj, Hs, Z2Nat.id; [done|]. by apply Z.mod_pos_bound. }
  split; rewrite ?Hs; [done|done|done| | | |].
  - intros j. by rewrite Hbk.
  - intros j. unfold ds. rewrite !Hbk. cbn. lia.
  - unfold keys, entries. cbn [fresh_table m_buckets_data]. rewrite He. constructor.
  - intros j. by rewrite Hbk.
Qed.

(** A new table models the empty map. *)
Lemma fresh_models g n th maxlf : shape_ok (fresh_table g n th maxlf) → 0 ≤ n → models (fresh_table g n th maxlf) ∅.
Proof using.
  intros Hs Hn. split; [done| |done|cbn; lia].
  unfold entries. cbn [fresh_table m_buckets_data]. by destruct (new_buckets_spec n Hn) as (_ & -> & _).
Qed.
(** ** Rehashing *)

(** What a bucket says of its entry, whatever the array it is in. *)
Definition stored_ok (b : bucket) : Prop :=
  match m_value b with
  | None => m_dist_from_ideal_bucket b = -1
  | Some (k, _) => 0 ≤ m_dist_from_ideal_bucket b ∧
      ∃ h, hash_key k = Some h ∧ fits 64 h ∧ (STORE = true → m_hash b = u32 h)
  end.

Lemma array_stored t : array_ok t → Forall stored_ok (m_buckets_data t).
Proof using.
  intros Hok. apply Forall_lookup. intros i b Hi. pose proof (lookup_lt_Some _ _ _ Hi).
  pose proof (ao_bucket _ _ _ t Hok (Z.of_nat i)) as Hb.
  assert (bk t (Z.of_nat i) = b) as Eb.
  { unfold bk. rewrite Z.mod_small by (unfold size_of; lia). by rewrite Nat2Z.id, Hi. }
  rewrite Eb in Hb. unfold stored_ok, RobinInv.bucket_ok in *. destruct (m_value b) as [[k v]|]; [|done].
  destruct Hb as [? (h & ? & ? & ? & _)]. eauto 6.
Qed.

(** The way from a position to a hole, when distances are bounded. *)
Lemma way_exists (t : table) j d B :
  array_ok t → hole t → (∀ x, 0 ≤ ds t x → ds t x ≤ B) → 0 ≤ B → d ≤ B + 1 →
  ∃ e, way t j e d B ∧ e < j + size_of t.
Proof using.
  intros Hok Hh HB HB0 Hd. destruct (hole_after t j (ao_pos _ _ _ t Hok) Hh) as (e & He & Hde).
  exists e. split; [|lia]. split; [done|done| |done]. intros x _.
  destruct (Z.lt_ge_cases (ds t x) 0); [lia|auto].
Qed.

(** One entry carried from its ideal bucket. *)
Lemma insert_from_home (t : table) p h kv B :
  array_ok t → hole t → (∀ x, 0 ≤ ds t x → ds t x ≤ B) → 0 ≤ B ≤ 2 ^ 15 - 2 →
  hash_key kv.1 = Some h → fits 64 h → gp_bucket_for_hash (m_policy t) h = Some p → 0 ≤ p < size_of t →
  kv.1 ∉ keys t →
  ∃ t', insert_value_on_rehash StoreHash entry_has_room (loop_fuel t) t p 0 (u32 h) kv = Some t' ∧
    inserted hash_key StoreHash entry_has_room t kv t'.
Proof using.
  intros Hok Hh HB HB0 Hk Hf Hp Hpr Hfresh.
  destruct (way_exists t p 0 B Hok Hh HB ltac:(lia) ltac:(lia)) as (e & Hw & He).
  destruct (insert_on_rehash_ok hash_key StoreHash entry_has_room (loop_fuel t) t p e 0 (u32 h) kv B)
    as (t' & Ht' & Hi); [done| |done|lia| |].
  - split; [pose proof (ds_lower hash_key StoreHash entry_has_room t (p - 1) Hok); lia| |done].
    exists h. split; [done|]. split; [done|]. split; [done|]. rewrite Hp, Z.sub_0_r. by rewrite Z.mod_small.
  - pose proof (way_range _ _ _ _ _ Hw). unfold loop_fuel, size_of in *. lia.
  - rewrite Z.mod_small in Ht' by done. eauto.
Qed.

Lemma rehash_buckets_ok use X D l : ∀ (newt : table),
  array_ok newt → Forall stored_ok l → NoDup ((omap m_value l).*1 ++ keys newt) →
  Z.of_nat (length (omap m_value l)) + Z.of_nat (length (entries newt)) < size_of newt →
  spread D X → 0 ≤ D ≤ 2 ^ 15 - 2 → (∀ k, k ∈ (omap m_value l).*1 ++ keys newt → k ∈ X) →
  (use = true → STORE = true ∧ gp_is_power_of_two (G := G) = true ∧ size_of newt ≤ 2 ^ 32) →
  ∃ l', rehash_buckets hash_key StoreHash entry_has_room use l newt = Some (set_data newt l') ∧
    array_ok (set_data newt l') ∧ size_of (set_data newt l') = size_of newt ∧
    entries (set_data newt l') ≡ₚ omap m_value l ++ entries newt.
Proof using.
  induction l as [|b l IH]; intros newt Hok Hall Hnd Hlen HX HD Hsub Huse.
  { exists (m_buckets_data newt). rewrite set_data_same. done. }
  apply Forall_cons in Hall as [Hb Hall]. cbn [rehash_buckets omap list_omap] in *. unfold stored_ok in Hb.
  unfold bucket_empty. destruct (m_value b) as [[k v]|] eqn:Hv.
  2: { rewrite Hb. cbn [Z.eqb EMPTY_MARKER Pos.eqb]. by apply IH. }
  destruct Hb as [Hd (h & Hk & Hf & Hst)]. unfold EMPTY_MARKER. rewrite (proj2 (Z.eqb_neq _ _)) by lia.
  cbn [mbind option_bind fst]. pose proof (ao_pos _ _ _ newt Hok) as Hn.
  pose proof (ao_policy _ _ _ newt Hok) as Hg.
  destruct (gp_bucket_ok (m_policy newt) (size_of newt) h Hg Hf) as (p & Hp & Hpr).
  cbn [fmap list_fmap length] in *.
  assert (hole newt) as Hh by (apply room_hole; [done|lia]).
  assert (k ∉ keys newt) as Hfresh.
  { apply NoDup_cons in Hnd as [Hnd _]. intros Hin. apply Hnd. apply elem_of_app. by right. }
  destruct (insert_from_home newt p h (k, v) D) as (t' & Ht' & l1 & -> & Hs & Hok' & Hp'); try done; [|lia|].
  { apply (spread_bound hash_key StoreHash entry_has_room newt X D Hok Hh HX).
    intros k' Hk'. apply Hsub. right. apply elem_of_app. by right. }
  assert ((if use then Some (truncated_hash (G := G) StoreHash entry_has_room b) else hash_key k)
    = Some (if use then u32 h else h)) as ->.
  { destruct use; [|done]. destruct (Huse eq_refl) as (HS & _ & _). unfold truncated_hash. by rewrite HS, Hst. }
  cbn [mbind option_bind]. unfold bucket_for_hash.
  assert (gp_bucket_for_hash (m_policy newt) (if use then u32 h else h) = Some p) as ->.
  { destruct use; [|done]. destruct (Huse eq_refl) as (_ & Hp2 & Hsz).
    by rewrite (gp_trunc_ok (m_policy newt) (size_of newt) h Hp2 Hg). }
  cbn [mbind option_bind].
  assert (u32 (if use then u32 h else h) = u32 h) as -> by (destruct use; [apply wrap_wrap|done]).
  rewrite Ht'. cbn [mbind option_bind].
  assert (keys (set_data newt l1) ≡ₚ k :: keys newt) as Hkeys by (unfold keys; by rewrite Hp').
  destruct (IH (set_data newt l1)) as (l' & Hl' & Hok'' & Hs' & Hp''); try done.
  - rewrite Hkeys. by rewrite <-Permutation_middle.
  - rewrite Hs, Hp'. cbn [length]. lia.
  - intros k'. rewrite Hkeys, <-Permutation_middle. apply Hsub.
  - by rewrite Hs.
  - exists l'. split; [exact Hl'|]. split; [exact Hok''|]. split; [by rewrite <-Hs|].
    etrans; [exact Hp''|]. rewrite Hp'. by rewrite <-Permutation_middle.
Qed.

(** ** Placing an entry *)

(** Storing an entry at the place the probe found. *)
Lemma insert_place (t : table) j d hc kv B :
  array_ok t → hole t → carried hash_key StoreHash entry_has_room t j d hc kv → ds t j < d →
  (∀ x, 0 ≤ ds t x → ds t x ≤ B) → 0 ≤ B ≤ 2 ^ 15 - 2 → calm hash_key t kv B →
  ∃ t', (if bucket_empty (bk t j)
         then set_bucket t (j `mod` size_of t) (set_value_of_empty_bucket (G := G) StoreHash entry_has_room (bk t j) d hc kv)
         else insert_value_impl StoreHash entry_has_room t (j `mod` size_of t) d hc kv) = Some t' ∧
    inserted hash_key StoreHash entry_has_room t kv t' ∧ m_value (bk t' j) = Some kv.
Proof using.
  intros Hok Hh Hc Hlt HB HB0 Hcalm. pose proof (ao_pos _ _ _ t Hok) as Hn.
  set (b := set_value_of_empty_bucket (G := G) StoreHash entry_has_room (bk t j) d hc kv).
  assert (m_value (bk (put t j b) j) = Some kv) as Hbj by (by rewrite bk_put, decide_True).
  rewrite (empty_iff t j). destruct (m_value (bk t j)) as [kv'|] eqn:Hv.
  2: { rewrite (proj1 (ds_empty t j Hok) Hv). cbn [Z.eqb Pos.eqb]. rewrite set_bucket_ok by done.
       eexists. split; [done|]. split; [by apply inserted_place|done]. }
  assert (ds t j ≠ -1) as Hne by (intros Hd%(ds_empty t j Hok); congruence).
  pose proof (ds_lower hash_key StoreHash entry_has_room t j Hok).
  rewrite (proj2 (Z.eqb_neq _ _)) by done.
  assert (B < DIST_FROM_IDEAL_BUCKET_LIMIT - 1) as Hsmall.
  { destruct Hcalm as [|Hsame]; [done|].
    pose proof (no_swap hash_key StoreHash entry_has_room t j d hc kv kv' Hok Hh Hc Hv) as Hns.
    assert (d ≤ ds t j); [|lia]. apply Hns. symmetry. apply Hsame. destruct kv' as [k' v'].
    unfold keys. apply list_elem_of_fmap. exists (k', v'). split; [done|]. apply entries_elem.
    exists (j `mod` size_of t). split; [by apply Z.mod_pos_bound|]. by rewrite bk_mod. }
  pose proof (ca_dist _ _ _ _ _ _ _ _ Hc).
  assert (d ≤ B + 1) as HdB.
  { destruct (Z.lt_ge_cases (ds t (j - 1)) 0); [lia|]. specialize (HB (j - 1)). lia. }
  destruct (way_exists t j d B Hok Hh HB ltac:(lia) HdB) as (e & Hw & He).
  pose proof (way_occupied hash_key StoreHash entry_has_room t j e d B kv' Hok Hw Hv) as Hje.
  pose proof (HB j). unfold insert_value_impl. rewrite bucket_at_ok by done. cbn [mbind option_bind].
  rewrite (swap_value hash_key StoreHash entry_has_room t j d hc kv kv' Hok Hv). cbn [mbind option_bind]. fold b.
  rewrite set_bucket_ok by done. cbn [mbind option_bind]. rewrite i16_small by lia.
  destruct (displace_ok hash_key StoreHash entry_has_room (loop_fuel (put t j b)) (put t j b) (j + 1) e
    (ds t j + 1) (swap_hash (G := G) StoreHash entry_has_room (bk t j) hc) kv' B)
    as (t' & Ht' & Hi & Hy).
  - by apply put_carried.
  - by apply carry_swap.
  - by apply (way_swap hash_key StoreHash entry_has_room).
  - lia.
  - by left.
  - pose proof (way_range _ _ _ _ _ Hw). unfold loop_fuel. rewrite <-(size_put t j b) in *. unfold size_of in *. lia.
  - rewrite size_put in Ht'. rewrite <-(next_bucket_ok hash_key StoreHash entry_has_room t j Hok) in Ht'.
    exists t'. split; [exact Ht'|]. split; [by apply (inserted_swap hash_key StoreHash entry_has_room t j d hc kv kv')|].
    rewrite Hy; [done|]. rewrite size_put. lia.
Qed.

(** The empty table answers every probe at the static bucket. *)
Lemma probe_empty_table (t : table) fuel k h :
  m_buckets_data t = [] → probe StoreHash entry_has_room fuel t k h 0 0 = Some (false, 0, 0).
Proof using. intros Hd. destruct fuel; cbn [probe]; unfold bucket_at, m_buckets; rewrite Hd; done. Qed.

Lemma key_dom (t : table) (g : gmap K V) : entries t ≡ₚ map_to_list g → ∀ k, k ∈ keys t ↔ k ∈ dom g.
Proof using.
  intros He k. unfold keys. rewrite He, list_elem_of_fmap. rewrite elem_of_dom. split.
  - intros ([k' v] & -> & Hin). apply elem_of_map_to_list in Hin. eauto.
  - intros [v Hv]. exists (k, v). split; [done|]. by apply elem_of_map_to_list.
Qed.

(** The probe for a key of a table that models a map. *)
Lemma probe_models (t : table) g k h D :
  array_ok t → entries t ≡ₚ map_to_list g → hole t → spread D (dom g) → 0 ≤ D ≤ 2 ^ 15 - 2 →
  hash_key k = Some h → fits 64 h →
  ∃ p found d, gp_bucket_for_hash (m_policy t) h = Some p ∧ 0 ≤ p < size_of t ∧
    probe StoreHash entry_has_room (loop_fuel t) t k h p 0 = Some (found, (p + d) `mod` size_of t, d) ∧
    probe_end t p k found d.
Proof using.
  intros Hok He Hh HX HD Hk Hf. pose proof (ao_pos _ _ _ t Hok) as Hn.
  destruct (gp_bucket_ok (m_policy t) (size_of t) h (ao_policy _ _ _ t Hok) Hf) as (p & Hp & Hpr).
  rewrite Z.max_r in Hpr by lia.
  pose proof (spread_bound hash_key StoreHash entry_has_room t (dom g) D Hok Hh HX
    (λ k Hin, proj1 (key_dom t g He k) Hin)) as HB.
  destruct (probe_ok hash_key StoreHash entry_has_room (loop_fuel t) t p 0 k h) as (found & d & Hd & Hend); try done.
  - intros x. destruct (Z.lt_ge_cases (ds t x) 0); [lia|]. specialize (HB x). lia.
  - by rewrite Z.mod_small.
  - pose proof (ds_lower hash_key StoreHash entry_has_room t (p + 0 - 1) Hok). lia.
  - intros x Hx. lia.
  - unfold loop_fuel, size_of. lia.
  - rewrite Z.add_0_r, Z.mod_small in Hd by done. eauto 10.
Qed.

Lemma hole_of_models (t : table) (g : gmap K V) : array_ok t → models t g → hole t.
Proof using.
  intros Hok [Hsh He Hc Hr]. apply room_hole; [done|]. rewrite He, length_map_to_list, <-Hc.
  rewrite (ao_count _ _ _ t Hok) in Hr. pose proof (ao_pos _ _ _ t Hok). lia.
Qed.
(** ** Lookup *)

Lemma entry_lookup (t : table) (g : gmap K V) j k v :
  0 < size_of t → entries t ≡ₚ map_to_list g → m_value (bk t j) = Some (k, v) → g !! k = Some v.
Proof using.
  intros Hn He Hv. apply elem_of_map_to_list. rewrite <-He. apply entries_elem.
  exists (j `mod` size_of t). split; [by apply Z.mod_pos_bound|]. by rewrite bk_mod.
Qed.

(** [find] returns the bucket of the key, or [end()] when the map has no such key. *)
Lemma find_models (t : table) g k D :
  models t g → spread D (dom g) → 0 ≤ D ≤ 2 ^ 15 - 2 → hashable k →
  ∃ r, find hash_key StoreHash entry_has_room t k = Some r ∧
    match r with
    | Some i => 0 ≤ i < m_bucket_count t ∧ array_ok t ∧ ∃ v, m_value (bk t i) = Some (k, v) ∧ g !! k = Some v
    | None => g !! k = None
    end.
Proof using.
  intros Hm HX HD (h & Hk & Hf). pose proof Hm as [Hsh He Hc Hr]. unfold find. rewrite Hk. cbn [mbind option_bind].
  unfold find_impl, bucket_for_hash. destruct (sh_array t Hsh) as [(Hd & Hz & Hg)|Hok].
  - destruct (gp_bucket_ok (m_policy t) 0 h Hg Hf) as (p & Hp & Hpr). rewrite Hp. cbn [mbind option_bind].
    replace p with 0 by lia. rewrite probe_empty_table by done. cbn [mbind option_bind].
    exists None. split; [done|]. rewrite Hz in Hr. assert (g = ∅) as -> by (apply map_size_empty_iff; lia).
    apply lookup_empty.
  - destruct (probe_models t g k h D Hok He (hole_of_models t g Hok Hm) HX HD Hk Hf)
      as (p & found & d & Hp & Hpr & Hprobe & Hend). rewrite Hp. cbn [mbind option_bind].
    rewrite Hprobe. cbn [mbind option_bind]. pose proof (ao_pos _ _ _ t Hok) as Hn.
    eexists. split; [done|]. destruct found.
    + destruct Hend as (_ & v & Hv). rewrite (ao_count _ _ _ t Hok).
      split; [by apply Z.mod_pos_bound|]. split; [done|]. exists v. rewrite bk_mod. split; [done|].
      by eapply entry_lookup.
    + destruct Hend as (_ & _ & Habs). apply not_elem_of_dom. by rewrite <-(key_dom t g He).
Qed.

Lemma bucket_at_index (t : table) i :
  array_ok t → 0 ≤ i < m_bucket_count t → bucket_at t i = Some (bk t i) ∧ ∀ b, set_bucket t i b = Some (put t i b).
Proof using.
  intros Hok Hi. rewrite (ao_count _ _ _ t Hok) in Hi. pose proof (ao_pos _ _ _ t Hok) as Hn.
  pose proof (bucket_at_ok t i Hn) as Hb. rewrite Z.mod_small in Hb by done. split; [done|].
  intros b. pose proof (set_bucket_ok t i b Hn) as Hs. by rewrite Z.mod_small in Hs.
Qed.

Lemma find_value_models (t : table) g k D :
  models t g → spread D (dom g) → 0 ≤ D ≤ 2 ^ 15 - 2 → hashable k →
  find_value hash_key StoreHash entry_has_room t k = Some (g !! k).
Proof using.
  intros Hm HX HD Hk. destruct (find_models t g k D Hm HX HD Hk) as (r & Hr & Hspec).
  unfold find_value. rewrite Hr. cbn [mbind option_bind]. destruct r as [i|]; [|by rewrite Hspec].
  destruct Hspec as (Hi & Hok & v & Hv & ->). destruct (bucket_at_index t i Hok Hi) as [-> _].
  cbn [mbind option_bind]. by rewrite Hv.
Qed.

(** ** Changing a mapped value in place *)

Lemma assign_models (t : table) g i k v obj :
  models t g → array_ok t → 0 ≤ i < m_bucket_count t → m_value (bk t i) = Some (k, v) →
  ∃ t', assign_value t i obj = Some t' ∧ models t' (<[k := obj]> g).
Proof using.
  intros [Hsh He Hc Hr] Hok Hi Hv. destruct (bucket_at_index t i Hok Hi) as [Hat Hset].
  unfold assign_value. rewrite Hat. cbn [mbind option_bind]. rewrite Hv. cbn [mbind option_bind fst].
  rewrite Hset. eexists. split; [done|]. pose proof (ao_pos _ _ _ t Hok) as Hn.
  set (b := Bucket _ _ _ _). pose proof (entry_lookup t g i k v Hn He Hv) as Hg.
  assert (entries (put t i b) ≡ₚ map_to_list (<[k:=obj]> g)) as He'.
  { apply (Permutation_app_inv_r [(k, v)]). pose proof (entries_put t i b Hn) as Hp.
    rewrite Hv in Hp. cbn [option_list m_value b] in Hp. rewrite Hp, He.
    rewrite <-(insert_delete_id g k v Hg) at 1. rewrite <-(insert_delete_eq g k obj).
    rewrite !map_to_list_insert by apply lookup_delete_eq. solve_Permutation. }
  split; [|done| |].
  - destruct Hsh as [_ ? ? ? ? ?]. split; try done. right. split; rewrite ?size_put; [done|apply Hok|apply Hok| | | |].
    + intros x. apply (bucket_ok_put hash_key StoreHash entry_has_room); [done| |intros _; apply Hok].
      pose proof (ao_bucket _ _ _ t Hok i) as Hb. unfold RobinInv.bucket_ok in *. by rewrite Hv in Hb.
    + intros x. pose proof (ao_order _ _ _ t Hok x) as Ho.
      assert (∀ y, ds (put t i b) y = ds t y) as Hds.
      { intros y. unfold ds. rewrite bk_put by done. case_decide as Hy; [|done].
        cbn. f_equal. symmetry. by apply bk_mod_eq. }
      by rewrite !Hds.
    + unfold keys. rewrite He'. apply NoDup_fst_map_to_list.
    + intros x. apply (last_put t i b x); [done|done|apply Hok].
  - cbn [put set_data m_nb_elements]. rewrite Hc. f_equal. symmetry. apply map_size_insert_Some. eauto.
  - done.
Qed.

(** ** Erasure *)

Lemma erase_from_bucket_models (t : table) g i k v D :
  models t g → spread D (dom g) → 0 ≤ D ≤ 2 ^ 15 - 2 → m_nb_elements t < 2 ^ 64 →
  array_ok t → 0 ≤ i < m_bucket_count t → m_value (bk t i) = Some (k, v) →
  ∃ t', erase_from_bucket StoreHash entry_has_room t i = Some t' ∧ models t' (delete k g) ∧ array_ok t' ∧
    m_bucket_count t' = m_bucket_count t.
Proof using.
  intros Hm HX HD H64 Hok Hi Hv. pose proof Hm as [Hsh He Hc Hroom].
  pose proof (ao_pos _ _ _ t Hok) as Hn. pose proof (hole_of_models t g Hok Hm) as Hh.
  pose proof (entry_lookup t g i k v Hn He Hv) as Hg.
  unfold erase_from_bucket. destruct (bucket_at_index t i Hok Hi) as [-> Hset]. cbn [mbind option_bind].
  rewrite Hset. cbn [mbind option_bind].
  destruct (open_gap hash_key StoreHash entry_has_room t i (k, v) Hok Hh Hv) as [Hgap Hp].
  set (t1 := put t i (bucket_clear (bk t i))) in *.
  set (t2 := set_nb_elements t1 (u64 (m_nb_elements t1 - 1))).
  assert (size_of t2 = size_of t) as Hs2 by (exact (size_put t i _)).
  assert (gapped hash_key StoreHash entry_has_room t2 i) as Hgap2.
  { destruct Hgap. by split. }
  assert (ds t i ≠ -1) as Hdi by (intros Hd%(ds_empty t i Hok); congruence).
  destruct (hole_before t (i + size_of t) Hn Hh) as (e & He1 & He2).
  { intros Hd. apply Hdi. rewrite <-Hd. unfold ds. f_equal. apply bk_mod_eq.
    symmetry. replace (i + size_of t) with (i + 1 * size_of t) by lia. apply Z_mod_plus_full. }
  assert (∀ x, ds t2 x = if decide (x `mod` size_of t = i `mod` size_of t) then -1 else ds t x) as Hds.
  { intros x. apply (ds_clear t i x (k, v) Hn Hv Hdi). }
  destruct (shift_back_ok hash_key StoreHash entry_has_room (loop_fuel t2) t2 i e)
    as (l & Hl & Hok' & Hp' & Hs'); try done.
  - intros x. rewrite Hds. case_decide; [lia|].
    pose proof (spread_bound hash_key StoreHash entry_has_room t (dom g) D Hok Hh HX
      (λ k Hin, proj1 (key_dom t g He k) Hin) x). destruct (Z.lt_ge_cases (ds t x) 0); lia.
  - rewrite Hs2. lia.
  - rewrite Hds. case_decide; [done|]. done.
  - pose proof Hs2 as Hs3. unfold loop_fuel, size_of in *. lia.
  - rewrite <-(next_bucket_mod t2 i) in Hl; [|lia|..].
    2: { change (m_bucket_count t2) with (m_bucket_count t). rewrite Hs2. apply Hok. }
    2: { change (m_policy t2) with (m_policy t). rewrite Hs2. apply Hok. }
    assert (i `mod` size_of t = i) as Hii by (rewrite Z.mod_small; [done|by rewrite <-(ao_count _ _ _ t Hok)]).
    rewrite Hs2, Hii in Hl. fold t2. rewrite Hl. eexists. split; [done|].
    assert (entries (set_data t2 l) ≡ₚ map_to_list (delete k g)) as He'.
    { apply (Permutation_cons_inv (a := (k, v))). rewrite Hp'. change (entries t2) with (entries t1).
      rewrite Hp, He. rewrite <-(insert_delete_id g k v Hg) at 1.
      by rewrite map_to_list_insert by apply lookup_delete_eq. }
    assert (m_nb_elements t2 = Z.of_nat (size (delete k g))) as Hnb.
    { cbn [t2 set_nb_elements m_nb_elements]. change (m_nb_elements t1) with (m_nb_elements t).
      pose proof (map_size_delete_plus g k v Hg). rewrite wrap_small by (split; lia). lia. }
    split; [split; [|done|done|]|by split].
    + destruct Hsh as [_ ? ? ? ? ?]. split; try done. by right.
    + change (m_nb_elements (set_data t2 l)) with (m_nb_elements t2).
      change (m_bucket_count (set_data t2 l)) with (m_bucket_count t).
      rewrite Hnb. pose proof (map_size_delete_plus g k v Hg). lia.
Qed.

Lemma set_shrink_models (t : table) g b : models t g → models (set_shrink t b) g.
Proof using.
  intros [[Ha ? ? ? ? ?] ? ? ?]. split; try done. split; try done.
  destruct Ha as [?|Hok]; [by left|right; by eapply array_ok_same, Hok].
Qed.

Lemma erase_models (t : table) g k D :
  models t g → spread D (dom g) → 0 ≤ D ≤ 2 ^ 15 - 2 → hashable k → m_nb_elements t < 2 ^ 64 →
  ∃ t', erase hash_key StoreHash entry_has_room t k = Some (t', if g !! k is Some _ then 1 else 0) ∧
    models t' (delete k g).
Proof using.
  intros Hm HX HD Hk H64. destruct (find_models t g k D Hm HX HD Hk) as (r & Hr & Hspec).
  unfold erase. rewrite Hr. cbn [mbind option_bind]. destruct r as [i|].
  2: { rewrite Hspec. eexists. split; [done|]. by rewrite delete_id. }
  destruct Hspec as (Hi & Hok & v & Hv & Hg). rewrite Hg.
  destruct (erase_from_bucket_models t g i k v D Hm HX HD H64 Hok Hi Hv) as (t' & -> & Hm' & _).
  eexists. split; [done|]. by apply set_shrink_models.
Qed.

(** ** Insertion once there is room *)

(** The bucket [insert_impl] answers holds the key. *)
Definition holds (t : table) (i : Z) (k : K) (v : V) : Prop :=
  array_ok t ∧ 0 ≤ i < m_bucket_count t ∧ m_value (bk t i) = Some (k, v).

(** After the probe did not find the key: the place in the table that has room. *)
Lemma insert_absent (t1 : table) g k v D p d h :
  shape_ok t1 → array_ok t1 → entries t1 ≡ₚ map_to_list g → m_nb_elements t1 = Z.of_nat (size g) →
  m_nb_elements t1 + 1 < m_bucket_count t1 → m_nb_elements t1 < 2 ^ 32 →
  spread D (dom g) → 0 ≤ D ≤ 2 ^ 15 - 2 →
  (D < DIST_FROM_IDEAL_BUCKET_LIMIT - 1 ∨ ∀ k', k' ∈ dom g → hash_key k' = hash_key k) →
  hash_key k = Some h → fits 64 h → gp_bucket_for_hash (m_policy t1) h = Some p → 0 ≤ p < size_of t1 →
  probe_end t1 p k false d →
  ∃ t', (b ← bucket_at t1 ((p + d) `mod` size_of t1);
         t ← (if bucket_empty b
              then set_bucket t1 ((p + d) `mod` size_of t1)
                     (set_value_of_empty_bucket (G := G) StoreHash entry_has_room b d (u32 h) (k, v))
              else insert_value_impl StoreHash entry_has_room t1 ((p + d) `mod` size_of t1) d (u32 h) (k, v));
         Some (set_nb_elements t (u64 (m_nb_elements t + 1)), ((p + d) `mod` size_of t1, true)))
        = Some (t', ((p + d) `mod` size_of t1, true)) ∧
    models t' (<[k := v]> g) ∧ holds t' ((p + d) `mod` size_of t1) k v.
Proof using.
  intros Hsh Hok He Hc Hroom H32 HX HD Hcalm Hk Hf Hp Hpr [Hd0 [[Hlt Hle] Habs]].
  pose proof (ao_pos _ _ _ t1 Hok) as Hn. pose proof (ao_count _ _ _ t1 Hok) as Hcount.
  assert (hole t1) as Hh by (apply room_hole; [done|rewrite He, length_map_to_list; lia]).
  pose proof (spread_bound hash_key StoreHash entry_has_room t1 (dom g) D Hok Hh HX
    (λ k Hin, proj1 (key_dom t1 g He k) Hin)) as HB.
  destruct (insert_place t1 (p + d) d (u32 h) (k, v) D) as (t' & Ht' & (l & -> & Hs & Hok' & He') & Hv);
    [done|done| |done|done|done| |].
  { split; [lia| |done]. exists h. split; [done|]. split; [done|]. split; [done|].
    rewrite Hp. f_equal. replace (p + d - d) with p by lia. by rewrite Z.mod_small. }
  { destruct Hcalm as [|Hsame]; [by left|right]. intros k' Hk'. by apply Hsame, (key_dom t1 g He). }
  rewrite bucket_at_ok by done. cbn [mbind option_bind]. rewrite Ht'. cbn [mbind option_bind].
  change (m_nb_elements (set_data t1 l)) with (m_nb_elements t1). rewrite wrap_small by (split; lia).
  eexists. split; [done|].
  assert (g !! k = None) as Hg by (apply not_elem_of_dom; by rewrite <-(key_dom t1 g He)).
  assert (array_ok (set_nb_elements (set_data t1 l) (m_nb_elements t1 + 1))) as Hok'' by by eapply array_ok_same, Hok'.
  split; [split|].
  - destruct Hsh as [_ ? ? ? ? ?]. split; try done. by right.
  - rewrite map_to_list_insert by done. rewrite <-He. exact He'.
  - cbn [set_nb_elements m_nb_elements]. rewrite map_size_insert_None by done. lia.
  - cbn [set_nb_elements set_data m_nb_elements m_bucket_count]. lia.
  - split; [done|]. cbn [set_nb_elements set_data m_bucket_count]. rewrite Hcount.
    split; [by apply Z.mod_pos_bound|]. rewrite <-Hs. exact (eq_trans (f_equal m_value (bk_mod (set_data t1 l) (p + d))) Hv).
Qed.

Lemma max_load_factor_models (t : table) g ml :
  models t g → load_ok (G := G) (sf_clamp ml MINIMUM_MAX_LOAD_FACTOR MAXIMUM_MAX_LOAD_FACTOR) →
  ∃ t', max_load_factor t ml = Some t' ∧ models t' g.
Proof using.
  intros [Hsh He Hc Hr] Hlf. pose proof Hsh as [Ha Hcap Hth Hmin Hmax Hgrow].
  assert (gp_ok (m_policy t) (m_bucket_count t)) as Hg.
  { destruct Ha as [(_ & -> & ?)|Hok]; [done|]. pose proof (ao_count _ _ _ t Hok) as ->. apply Hok. }
  destruct (lo_threshold _ Hlf _ _ Hg) as (th & Hth' & _). unfold max_load_factor. rewrite Hth'. cbn [mbind option_bind].
  eexists. split; [done|]. split; try done. split; try done.
  destruct Ha as [?|Hok]; [by left|right]. by eapply array_ok_same, Hok.
Qed.
(** The table after making room, [t1], when it may be the table before, [t]. *)
Definition same_place (t t1 : table) (rehashed : bool) : Prop :=
  rehashed = false → m_buckets_data t1 = m_buckets_data t ∧ m_policy t1 = m_policy t.

(** The probe of the table as it was. *)
Lemma probe_before (t t1 : table) g k v h D rehashed :
  models t g → array_ok t1 → same_place t t1 rehashed → spread D (dom g) → 0 ≤ D ≤ 2 ^ 15 - 2 →
  hash_key k = Some h → fits 64 h →
  ∃ p found i d, bucket_for_hash t h = Some p ∧
    probe StoreHash entry_has_room (loop_fuel t) t k h p 0 = Some (found, i, d) ∧
    if found then holds t i k (default v (g !! k)) ∧ is_Some (g !! k)
    else g !! k = None ∧ (rehashed = false → i = (p + d) `mod` size_of t1 ∧
      gp_bucket_for_hash (m_policy t1) h = Some p ∧ 0 ≤ p < size_of t1 ∧ probe_end t1 p k false d).
Proof using.
  intros Hm Hok1 Hsame HX HD Hk Hf. pose proof Hm as [Hsh He Hc Hr]. unfold bucket_for_hash.
  destruct (sh_array t Hsh) as [(Hd & Hz & Hg)|Hok].
  - destruct (gp_bucket_ok (m_policy t) 0 h Hg Hf) as (p & Hp & Hpr). exists p, false, 0, 0.
    split; [done|]. replace p with 0 by lia. split; [by apply probe_empty_table|].
    rewrite Hz in Hr. assert (g = ∅) as -> by (apply map_size_empty_iff; lia).
    split; [apply lookup_empty|]. intros Hre. destruct (Hsame Hre) as [Hd1 _].
    pose proof (ao_pos _ _ _ t1 Hok1) as Hn1. unfold size_of in Hn1. rewrite Hd1, Hd in Hn1. cbn in Hn1. lia.
  - pose proof (ao_pos _ _ _ t Hok) as Hn.
    destruct (probe_models t g k h D Hok He (hole_of_models t g Hok Hm) HX HD Hk Hf)
      as (p & found & d & Hp & Hpr & Hprobe & Hend).
    exists p, found, ((p + d) `mod` size_of t), d. split; [done|]. split; [done|]. destruct found.
    + destruct Hend as (_ & w & Hw). pose proof (entry_lookup t g _ k w Hn He Hw) as Hg. rewrite Hg.
      split; [|eauto]. split; [done|]. rewrite (ao_count _ _ _ t Hok). split; [by apply Z.mod_pos_bound|].
      rewrite bk_mod. done.
    + split; [apply not_elem_of_dom; rewrite <-(key_dom t g He); apply Hend|]. intros Hre.
      destruct (Hsame Hre) as [Hd1 ->]. assert (size_of t1 = size_of t) as Hs1 by (unfold size_of; by rewrite Hd1).
      assert (∀ x, bk t1 x = bk t x) as Hbk by (intros x; unfold bk; by rewrite Hs1, Hd1).
      rewrite Hs1. split; [done|]. split; [done|]. split; [done|]. unfold probe_end, ds, keys in *.
      rewrite !Hbk, (entries_same t t1 Hd1). exact Hend.
Qed.

(** The second probe, after a rehash. *)
Lemma probe_again (t1 : table) g k h D :
  array_ok t1 → entries t1 ≡ₚ map_to_list g → hole t1 → spread D (dom g) → 0 ≤ D ≤ 2 ^ 15 - 2 →
  hash_key k = Some h → fits 64 h → g !! k = None →
  ∃ p d, gp_bucket_for_hash (m_policy t1) h = Some p ∧ 0 ≤ p < size_of t1 ∧ probe_end t1 p k false d ∧
    (i ← bucket_for_hash t1 h; probe_place (loop_fuel t1) t1 i 0) = Some ((p + d) `mod` size_of t1, d).
Proof using.
  intros Hok1 He1 Hh1 HX HD Hk Hf Hg.
  destruct (probe_models t1 g k h D Hok1 He1 Hh1 HX HD Hk Hf) as (p1 & found & d1 & Hp1 & Hpr1 & Hprobe1 & Hend1).
  assert (k ∉ keys t1) as Habs by (rewrite (key_dom t1 g He1); by apply not_elem_of_dom).
  exists p1, d1. split; [done|]. split; [done|].
  assert (found = false) as ->.
  { destruct found; [|done]. destruct Hend1 as (_ & w & Hw).
    by destruct (not_in_keys t1 k Habs (p1 + d1) w (ao_pos _ _ _ t1 Hok1)). }
  split; [done|]. unfold bucket_for_hash. rewrite Hp1. cbn [mbind option_bind].
  pose proof (probe_place_ok hash_key StoreHash entry_has_room (loop_fuel t1) t1 p1 0 k h false
    ((p1 + d1) `mod` size_of t1) d1 Hok1 Habs Hk) as Hpl. rewrite Z.mod_small in Hpl by done.
  apply Hpl; [done| |done]. intros x.
  pose proof (spread_bound hash_key StoreHash entry_has_room t1 (dom g) D Hok1 Hh1 HX
    (λ k Hin, proj1 (key_dom t1 g He1 k) Hin) x). destruct (Z.lt_ge_cases (ds t1 x) 0); lia.
Qed.

(** From here on the vector can be as long as the tables need. *)
Context (vector_max_size : Z) (Hvec : 2 ^ 40 ≤ Z.min (gp_max_bucket_count (G := G)) vector_max_size).

Abbreviation robin_new := (robin_new (K := K) (V := V) (G := G) vector_max_size).
Abbreviation rehash_impl := (rehash_impl hash_key StoreHash entry_has_room vector_max_size).
Abbreviation insert_impl := (insert_impl hash_key StoreHash entry_has_room vector_max_size).

Lemma robin_new_ok count f :
  0 ≤ count ≤ 2 ^ 38 → load_ok (G := G) (sf_clamp f MINIMUM_MAX_LOAD_FACTOR MAXIMUM_MAX_LOAD_FACTOR) →
  ∃ g n th, robin_new count DEFAULT_MIN_LOAD_FACTOR f
    = Some (fresh_table g n th (sf_clamp f MINIMUM_MAX_LOAD_FACTOR MAXIMUM_MAX_LOAD_FACTOR)) ∧
    gp_ok g n ∧ count ≤ n ≤ 4 * count ∧
    shape_ok (fresh_table g n th (sf_clamp f MINIMUM_MAX_LOAD_FACTOR MAXIMUM_MAX_LOAD_FACTOR)).
Proof using Hvec.
  intros Hc Hlf. assert (0 ≤ count ≤ gp_max_bucket_count (G := G)) as Hc' by lia.
  destruct (gp_new_ok count Hc') as (g & n & Hnew & Hg & Hn).
  destruct (lo_threshold _ Hlf g n Hg) as (th & Hth & Hb & _).
  exists g, n, th. split; [|split; [done|split; [done|]]].
  - unfold RobinTable.robin_new. rewrite Hnew. cbn [mbind option_bind].
    unfold max_bucket_count. rewrite (proj2 (Z.ltb_ge _ _)) by lia.
    unfold max_load_factor, min_load_factor. cbn [m_bucket_count]. rewrite Hth. cbn [mbind option_bind].
    reflexivity.
  - split; cbn [fresh_table m_buckets_data m_bucket_count m_policy m_max_load_factor m_load_threshold
      m_min_load_factor m_grow_on_next_insert]; try done; [|lia].
    destruct (decide (n = 0)) as [->|]; [left; done|right; apply fresh_array; [lia|done]].
Qed.

Lemma rehash_impl_ok t count X D :
  shape_ok t → NoDup (keys t) → Z.of_nat (length (entries t)) < count ≤ 2 ^ 38 →
  spread D X → 0 ≤ D ≤ 2 ^ 15 - 2 → (∀ k, k ∈ keys t → k ∈ X) →
  ∃ t', rehash_impl t count = Some t' ∧ shape_ok t' ∧ array_ok t' ∧ entries t' ≡ₚ entries t ∧
    m_nb_elements t' = m_nb_elements t ∧ count ≤ m_bucket_count t' ≤ 4 * count.
Proof using Hvec.
  intros Hsh Hnd Hc HX HD Hsub. destruct (sh_max t Hsh) as [Hcl Hlf Hlv].
  destruct (robin_new_ok count (m_max_load_factor t)) as (g & n & th & Hnew & Hg & Hn & Hsh');
    [lia|by rewrite Hcl|]. rewrite Hcl in Hnew, Hsh'.
  set (f := fresh_table g n th (m_max_load_factor t)) in *.
  destruct (new_buckets_spec n ltac:(lia)) as (Hl & He & _).
  assert (size_of f = n) as Hsz by exact Hl. assert (entries f = []) as Hef by exact He.
  assert (array_ok f) as Hok by (apply fresh_array; [lia|done]).
  destruct (rehash_buckets_ok (USE_STORED_HASH_ON_REHASH (G := G) StoreHash entry_has_room n) X D
    (m_buckets_data t) f) as (l' & Hl' & Hok' & Hs' & Hp'); try done.
  - destruct (sh_array t Hsh) as [(-> & _)|Ht]; [constructor|by apply array_stored].
  - unfold keys at 1. rewrite Hef, app_nil_r. exact Hnd.
  - rewrite Hef, Hsz. fold (entries t). cbn [length]. lia.
  - intros k. unfold keys at 1. rewrite Hef, app_nil_r. apply Hsub.
  - unfold USE_STORED_HASH_ON_REHASH. intros [[HS Hp2]%andb_true_iff Hle%Z.leb_le]%andb_true_iff.
    split; [done|]. split; [done|]. rewrite wrap_small in Hle by (split; lia). lia.
  - eexists. split.
    + unfold RobinTable.rehash_impl. rewrite (sh_min t Hsh), Hnew. cbn [mbind option_bind].
      change (m_bucket_count f) with n. rewrite Hl'. reflexivity.
    + assert (array_ok (set_nb_elements (set_data f l') (m_nb_elements t))) as Hok''
        by by eapply array_ok_same, Hok'.
      split; [|split; [done|split; [rewrite Hef, app_nil_r in Hp'; exact Hp'|split; [done|exact Hn]]]].
      destruct Hsh'. split; try done. by right.
Qed.

(** Making room: afterwards one more entry fits. *)
Lemma rehash_on_extreme_load_ok t g D :
  models t g → Z.of_nat (size g) < 2 ^ 32 → spread D (dom g) → 0 ≤ D ≤ 2 ^ 15 - 2 →
  ∃ t' rehashed, rehash_on_extreme_load hash_key StoreHash entry_has_room vector_max_size t = Some (t', rehashed) ∧
    shape_ok t' ∧ array_ok t' ∧ entries t' ≡ₚ entries t ∧ m_nb_elements t' = m_nb_elements t ∧
    m_nb_elements t' + 1 < m_bucket_count t' ∧
    (rehashed = false → m_buckets_data t' = m_buckets_data t ∧ m_policy t' = m_policy t).
Proof using Hvec.
  intros [Hsh He Hc Hr] Hsz HX HD. pose proof Hsh as [Ha Hcap Hth Hmin Hmax Hgrow].
  assert (gp_ok (m_policy t) (m_bucket_count t)) as Hg.
  { destruct Ha as [(_ & -> & ?)|Hok]; [done|]. pose proof (ao_count _ _ _ t Hok) as ->. apply Hok. }
  pose proof (gp_ok_range _ _ Hg) as Hrange.
  destruct (lo_threshold _ Hmax _ _ Hg) as (th & Hth' & Hb & H5). rewrite Hth in Hth'. injection Hth' as <-.
  unfold rehash_on_extreme_load. rewrite Hgrow. cbn [orb].
  destruct (Z.leb_spec (m_load_threshold t) (m_nb_elements t)) as [Hle|Hlt].
  - destruct (gp_next_total _ _ Hg Hcap) as (c & Hnext & Hc5). pose proof (gp_next_ok _ _ _ Hg Hnext).
    rewrite Hnext. cbn [mbind option_bind].
    assert (Z.of_nat (length (entries t)) = m_nb_elements t) as Hlen.
    { rewrite Hc, He. f_equal. apply length_map_to_list. }
    destruct (rehash_impl_ok t c (dom g) D) as (t' & Ht' & Hsh' & Hok' & He' & Hnb & Hn); try done.
    + unfold keys. rewrite He. apply NoDup_fst_map_to_list.
    + rewrite Hlen. lia.
    + intros k. unfold keys. rewrite He, list_elem_of_fmap. intros ([k' v] & -> & Hin).
      apply elem_of_map_to_list in Hin. by eapply elem_of_dom_2.
    + rewrite Ht'. cbn [mbind option_bind]. do 2 eexists. split; [done|].
      split; [destruct Hsh' as [Ha' ? ? ? ? ?]; split; try done; destruct Ha' as [?|Hok2]; [by left|right; by eapply array_ok_same, Hok2]|].
      split; [by eapply array_ok_same, Hok'|]. split; [done|]. split; [done|]. cbn [set_grow m_nb_elements m_bucket_count].
      split; [lia|done].
  - assert (array_ok t) as Hok by (destruct Ha as [(_ & Hz & _)|]; [rewrite Hz in *; lia|done]).
    exists (set_shrink t false), false. split; [|split; [|split; [by eapply array_ok_same, Hok|split; [done|]]]].
    + destruct (m_try_shrink_on_next_insert t) eqn:Hs; [|destruct t; cbn in Hs |- *; by rewrite Hs].
      cbn [set_shrink m_min_load_factor]. rewrite Hmin. done.
    + split; try done. right. by eapply array_ok_same, Hok.
    + cbn [set_shrink m_nb_elements m_bucket_count m_buckets_data m_policy]. split; [done|]. split; [lia|done].
Qed.
(** ** Insertion *)

Lemma insert_impl_models (t : table) g k v D :
  models t g → Z.of_nat (size g) < 2 ^ 32 → spread D (dom g) → 0 ≤ D ≤ 2 ^ 15 - 2 →
  (D < DIST_FROM_IDEAL_BUCKET_LIMIT - 1 ∨ ∀ k', k' ∈ dom g → hash_key k' = hash_key k) → hashable k →
  ∃ t' i, insert_impl t k (k, v) = Some (t', (i, if g !! k is Some _ then false else true)) ∧
    models t' (if g !! k is Some _ then g else <[k := v]> g) ∧ holds t' i k (default v (g !! k)).
Proof using Hvec.
  intros Hm Hsz HX HD Hcalm (h & Hk & Hf). pose proof Hm as [Hsh He Hc Hr].
  unfold RobinTable.insert_impl. rewrite Hk. cbn [mbind option_bind].
  destruct (rehash_on_extreme_load_ok t g D Hm Hsz HX HD)
    as (t1 & rehashed & Ht1 & Hsh1 & Hok1 & He1 & Hnb1 & Hroom1 & Hsame).
  assert (entries t1 ≡ₚ map_to_list g) as He1' by by rewrite He1.
  assert (hole t1) as Hh1.
  { apply room_hole; [done|]. rewrite He1', length_map_to_list, <-Hc, <-Hnb1, <-(ao_count _ _ _ t1 Hok1). lia. }
  destruct (probe_before t t1 g k v h D rehashed Hm Hok1 Hsame HX HD Hk Hf)
    as (p & found & i & d & Hp & Hprobe & Hend).
  rewrite Hp. cbn [mbind option_bind]. rewrite Hprobe. cbn [mbind option_bind]. destruct found.
  { destruct Hend as [Hh [w Hw]]. rewrite Hw in *. exists t, i. done. }
  destruct Hend as [Hg Hend]. rewrite Hg. rewrite Ht1. cbn [mbind option_bind].
  assert (∃ p1 d1, gp_bucket_for_hash (m_policy t1) h = Some p1 ∧ 0 ≤ p1 < size_of t1 ∧ probe_end t1 p1 k false d1 ∧
    (if rehashed then i ← bucket_for_hash t1 h; probe_place (loop_fuel t1) t1 i 0 else Some (i, d))
      = Some ((p1 + d1) `mod` size_of t1, d1)) as (p1 & d1 & Hp1 & Hpr1 & Hend1 & Hplace).
  { destruct rehashed; [by apply (probe_again t1 g k h D)|].
    destruct (Hend eq_refl) as (-> & Hp1 & Hpr1 & Hend1). by exists p, d. }
  rewrite Hplace. cbn [mbind option_bind].
  destruct (insert_absent t1 g k v D p1 d1 h) as (t' & Ht' & Hm' & Hh'); try done; [lia..|].
  exists t', ((p1 + d1) `mod` size_of t1). split; [exact Ht'|done].
Qed.

(** ** The operations of the map *)

Lemma subscript_models (t : table) g k v dflt D :
  models t g → Z.of_nat (size g) < 2 ^ 32 → spread D (dom g) → 0 ≤ D ≤ 2 ^ 15 - 2 →
  (D < DIST_FROM_IDEAL_BUCKET_LIMIT - 1 ∨ ∀ k', k' ∈ dom g → hash_key k' = hash_key k) → hashable k →
  ∃ t', subscript_assign hash_key StoreHash entry_has_room vector_max_size dflt t k v = Some t' ∧
    models t' (<[k := v]> g).
Proof using Hvec.
  intros Hm Hsz HX HD Hcalm Hk.
  destruct (insert_impl_models t g k dflt D Hm Hsz HX HD Hcalm Hk) as (t1 & i & Ht1 & Hm1 & Hok1 & Hi & Hv).
  unfold subscript_assign, try_emplace. rewrite Ht1. cbn [mbind option_bind].
  destruct (assign_models t1 _ i k _ v Hm1 Hok1 Hi Hv) as (t' & Ht' & Hm'). exists t'. split; [done|].
  destruct (g !! k); [done|]. by rewrite insert_insert_eq in Hm'.
Qed.

End robin.
