(* ===== verification/RobinRefine.v ===== *)
(** * What [tsl::robin_map] promises

    A run of operations on the table answers as the same run on a finite map; iteration
    visits every entry once; [find_guaranteed] is [find] on the keys that are there. *)
From stdpp Require Import gmap.
From S2P Require Import Prelude Words Floats RobinGrowth RobinTable RobinInv RobinProbe RobinErase RobinLoad RobinMap.

Section refine.
Context {K V G : Type} `{Countable K} `{L : GrowthPolicyLaws G}.
Context (hash_key : K → option Z) (StoreHash entry_has_room : bool).

Abbreviation bucket := (bucket_entry K V).
Abbreviation table := (robin_hash K V G).
Abbreviation array_ok := (array_ok (V := V) (G := G) hash_key StoreHash entry_has_room).
Abbreviation models := (models (K := K) (V := V) (G := G) hash_key StoreHash entry_has_room).
Abbreviation shape_ok := (shape_ok (K := K) (V := V) (G := G) hash_key StoreHash entry_has_room).
Abbreviation spread := (spread (G := G) hash_key).

(** ** [clear] *)

Lemma clear_models (t : table) g : models t g → models (clear t) ∅.
Proof using.
  intros [Hsh He Hc Hr]. destruct Hsh as [Ha Hcap Hth Hmin Hmax Hgrow].
  unfold clear. rewrite Hmin. change (SFltb (f32_of_Z 0) DEFAULT_MIN_LOAD_FACTOR) with false. cbv iota.
  set (t' := set_grow _ _). assert (size_of t' = size_of t) as Hs by (unfold size_of; cbn; by rewrite length_fmap).
  assert (entries t' = []) as He'.
  { unfold entries. cbn [t' set_grow set_nb_elements set_data m_buckets_data].
    destruct Ha as [(-> & _)|Hok]; [done|]. pose proof (array_stored _ _ _ t Hok) as Hall.
    revert Hall. clear. induction 1 as [|b l Hb Hall IH]; [done|]. cbn [fmap list_fmap omap list_omap].
    unfold stored_ok in Hb. destruct (m_value b) as [[k v]|] eqn:Hv.
    - rewrite (clear_full b (k, v)); [exact IH|done|]. destruct Hb. lia.
    - unfold bucket_clear, bucket_empty. rewrite Hb. cbn. by rewrite Hv. }
  split; [|by rewrite He'|done|cbn [t' set_grow set_nb_elements set_data m_nb_elements m_bucket_count]; lia].
  split; try done. destruct Ha as [(Hd & Hz & Hg)|Hok]; [left|right].
  - cbn [t' set_grow set_nb_elements set_data m_buckets_data m_bucket_count m_policy]. by rewrite Hd.
  - pose proof (ao_pos _ _ _ t Hok) as Hn.
    assert (∀ j, bk t' j = bucket_clear (bk t j)) as Hbk.
    { intros j. unfold bk. rewrite Hs. cbn [t' set_grow set_nb_elements set_data m_buckets_data].
      rewrite list_lookup_fmap. by destruct (m_buckets_data t !! _). }
    assert (∀ j, m_dist_from_ideal_bucket (bucket_clear (bk t j)) = -1 ∧ m_value (bucket_clear (bk t j)) = None) as Hcl.
    { intros j. unfold bucket_clear. destruct (bucket_empty (bk t j)) eqn:Hb; [|done].
      rewrite (empty_iff t j) in Hb. apply Z.eqb_eq in Hb. split; [done|].
      by apply (ds_empty hash_key StoreHash entry_has_room t j Hok). }
    split; rewrite ?Hs; [done|apply Hok|apply Hok| | | |].
    + intros j. unfold bucket_ok. rewrite Hbk. destruct (Hcl j) as [Hd ->]. exact Hd.
    + intros j. unfold ds. rewrite !Hbk. destruct (Hcl j) as [-> _], (Hcl (j + 1)) as [-> _]. lia.
    + unfold keys. rewrite He'. constructor.
    + intros j. rewrite Hbk, <-(ao_last _ _ _ t Hok j). unfold bucket_clear. by destruct (bucket_empty _).
Qed.

(** ** Iteration *)

Lemma iter_next_spec (t : table) rest : ∀ pre b fuel,
  array_ok t → m_buckets_data t = pre ++ b :: rest → (length rest < fuel)%nat →
  iter_next fuel t (Z.of_nat (length pre)) = Some (begin_from rest (Z.of_nat (length pre) + 1)).
Proof using.
  induction rest as [|b' rest IH]; intros pre b fuel Hok Hd Hf; (destruct fuel as [|fuel]; [lia|]);
    assert (Hbk : ∀ i x, m_buckets_data t !! i = Some x →
      bucket_at t (Z.of_nat i) = Some x ∧ (m_last_bucket x = (Z.of_nat i =? size_of t - 1)))
    by (intros i x Hi; pose proof (lookup_lt_Some _ _ _ Hi);
        assert (0 ≤ Z.of_nat i < size_of t) as Hr by (unfold size_of; lia);
        assert (bk t (Z.of_nat i) = x) as Hx by (unfold bk; rewrite Z.mod_small, Nat2Z.id, Hi by lia; done);
        pose proof (bucket_at_ok t (Z.of_nat i) (ao_pos _ _ _ t Hok)) as Hb;
        rewrite Z.mod_small in Hb by lia; rewrite Hx in Hb; split; [exact Hb|];
        rewrite <-Hx, (ao_last _ _ _ t Hok), Z.mod_small by lia; done);
    cbn [iter_next]; destruct (Hbk (length pre) b) as [Hb Hl]; try (rewrite Hd; by apply list_lookup_middle);
    rewrite Hb; cbn [mbind option_bind]; rewrite Hl; unfold size_of at 1; rewrite Hd, length_app; cbn [length].
  - rewrite (proj2 (Z.eqb_eq _ _)) by lia. done.
  - rewrite (proj2 (Z.eqb_neq _ _)) by lia.
    destruct (Hbk (S (length pre)) b') as [Hb' _].
    { rewrite Hd, lookup_app_r by lia. by replace (S (length pre) - length pre)%nat with 1%nat by lia. }
    replace (Z.of_nat (length pre) + 1) with (Z.of_nat (S (length pre))) by lia.
    rewrite Hb'. cbn [mbind option_bind begin_from]. destruct (bucket_empty b'); [|done].
    specialize (IH (pre ++ [b]) b' fuel Hok). rewrite length_app in IH. cbn [length] in IH.
    replace (length pre + 1)%nat with (S (length pre)) in IH by lia. apply IH; [by rewrite <-app_assoc|cbn [length] in Hf; lia].
Qed.

Lemma iterate_spec (t : table) l : ∀ pre fuel,
  array_ok t → m_buckets_data t = pre ++ l → (length l ≤ fuel)%nat →
  iterate fuel t (begin_from l (Z.of_nat (length pre))) = Some (omap m_value l).
Proof using.
  induction l as [|b l IH]; intros pre fuel Hok Hd Hf; cbn [begin_from].
  - assert (m_bucket_count t = Z.of_nat (length pre)) as Hc.
    { rewrite (ao_count _ _ _ t Hok). unfold size_of. by rewrite Hd, app_nil_r. }
    destruct fuel; cbn [iterate]; by rewrite Hc, Z.eqb_refl.
  - assert (m_buckets_data t !! length pre = Some b) as Hi by (rewrite Hd; by apply list_lookup_middle).
    assert (bk t (Z.of_nat (length pre)) = b ∧ 0 ≤ Z.of_nat (length pre) < size_of t) as [Hb Hr].
    { assert (0 ≤ Z.of_nat (length pre) < size_of t) by (unfold size_of; rewrite Hd, length_app; cbn; lia).
      split; [|done]. unfold bk. by rewrite Z.mod_small, Nat2Z.id, Hi by lia. }
    assert (bucket_empty b = true ↔ m_value b = None) as Hem.
    { rewrite <-Hb, (empty_iff t), Z.eqb_eq. symmetry. apply (ds_empty hash_key StoreHash entry_has_room t _ Hok). }
    cbn [omap list_omap]. destruct (bucket_empty b) eqn:Hbe.
    + rewrite (proj1 Hem eq_refl). specialize (IH (pre ++ [b]) fuel Hok). rewrite length_app in IH.
      replace (Z.of_nat (length pre + length [b])) with (Z.of_nat (length pre) + 1) in IH by (cbn; lia).
      apply IH; [by rewrite <-app_assoc|cbn in Hf; lia].
    + destruct fuel as [|fuel]; [cbn in Hf; lia|]. cbn [iterate].
      rewrite (ao_count _ _ _ t Hok), (proj2 (Z.eqb_neq _ _)) by lia.
      pose proof (bucket_at_ok t (Z.of_nat (length pre)) (ao_pos _ _ _ t Hok)) as Hat.
      rewrite Z.mod_small in Hat by done. rewrite Hat, Hb. cbn [mbind option_bind].
      destruct (m_value b) as [kv|] eqn:Hv; [|by destruct Hem as [_ Hem]; specialize (Hem eq_refl)].
      cbn [mbind option_bind]. rewrite (iter_next_spec t l pre b) by (done || (unfold loop_fuel; rewrite Hd, length_app; cbn; lia)).
      cbn [mbind option_bind]. specialize (IH (pre ++ [b]) fuel Hok). rewrite length_app in IH.
      replace (Z.of_nat (length pre + length [b])) with (Z.of_nat (length pre) + 1) in IH by (cbn; lia).
      rewrite IH; [done|by rewrite <-app_assoc|cbn in Hf; lia].
Qed.

(** The iteration from [begin()] to [end()] terminates and meets every entry of the map
    exactly once. *)
Lemma iteration_models (t : table) g :
  models t g → ∃ l, iterate (loop_fuel t) t (begin t) = Some l ∧ l ≡ₚ map_to_list g.
Proof using.
  intros [Hsh He Hc Hr]. destruct (sh_array _ _ _ t Hsh) as [(Hd & Hz & Hg)|Hok].
  - exists []. unfold loop_fuel, begin, entries in *. rewrite Hd in *. cbn [begin_from length iterate].
    rewrite Hz. split; [done|exact He].
  - exists (entries t). split; [|done]. unfold begin.
    apply (iterate_spec t (m_buckets_data t) []); [done|done|unfold loop_fuel; lia].
Qed.
(** ** Erasing an entry through its iterator: the next entry is returned, which may have been
    shifted into the same bucket. *)
Lemma erase_at_models (t : table) g i k v D :
  models t g → spread D (dom g) → 0 ≤ D ≤ 2 ^ 15 - 2 → m_nb_elements t < 2 ^ 64 →
  array_ok t → 0 ≤ i < m_bucket_count t → m_value (bk t i) = Some (k, v) →
  ∃ t', erase_at StoreHash entry_has_room t i = Some (t', begin_from (drop (Z.to_nat i) (m_buckets_data t')) i) ∧
    models t' (delete k g).
Proof using.
  intros Hm HX HD H64 Hok Hi Hv.
  destruct (erase_from_bucket_models _ _ _ t g i k v D Hm HX HD H64 Hok Hi Hv) as (t1 & Ht1 & Hm1 & Hok1 & Hc1).
  exists (set_shrink t1 true). split; [|by apply set_shrink_models]. unfold erase_at. rewrite Ht1. cbn [mbind option_bind].
  change (m_buckets_data (set_shrink t1 true)) with (m_buckets_data t1).
  pose proof (ao_count _ _ _ t1 Hok1) as Hs1. unfold size_of in Hs1.
  destruct (lookup_lt_is_Some_2 (m_buckets_data t1) (Z.to_nat i)) as [b Hb]; [lia|].
  assert (bk t1 i = b) as Hbk.
  { unfold bk. rewrite Z.mod_small by (unfold size_of; lia). by rewrite Hb. }
  destruct (bucket_at_index _ _ _ t1 i Hok1 ltac:(lia)) as [-> _]. rewrite Hbk. cbn [mbind option_bind].
  rewrite (drop_S _ b _ Hb). cbn [begin_from]. destruct (bucket_empty b); [|done].
  pose proof (iter_next_spec t1 (drop (S (Z.to_nat i)) (m_buckets_data t1)) (take (Z.to_nat i) (m_buckets_data t1)) b
    (loop_fuel t1) Hok1) as Hn.
  rewrite length_take, Nat.min_l, Z2Nat.id in Hn by lia. rewrite Hn; [done| |].
  - rewrite <-(drop_S _ b _ Hb). by rewrite take_drop.
  - unfold loop_fuel. rewrite length_drop. lia.
Qed.

(** ** [find_guaranteed] *)

(** The positions met by the probe from [p] whose stored hash is that of [h]. *)
Definition hash_positions (t : table) (p h : Z) (a m : nat) : list Z :=
  (λ x, (p + Z.of_nat x) `mod` size_of t) <$>
    filter (λ x, m_hash (bk t (p + Z.of_nat x)) = u32 h) (seq a m).

Lemma hash_positions_S t p h a m :
  hash_positions t p h a (S m) =
  (if decide (m_hash (bk t (p + Z.of_nat a)) = u32 h) then [(p + Z.of_nat a) `mod` size_of t] else []) ++
  hash_positions t p h (S a) m.
Proof using. unfold hash_positions. cbn [seq]. rewrite filter_cons. by case_decide. Qed.

(** Every bucket before the one the loop stops at holds an entry. *)
Lemma collect_ok fuel : ∀ (t : table) p d h ms,
  array_ok t → hole t → (∀ j, ds t j ≤ 2 ^ 15 - 2) → size_of t ≤ 2 ^ 31 →
  STORE_HASH (G := G) StoreHash entry_has_room = true →
  (∀ x, 0 ≤ x < Z.of_nat d → x ≤ ds t (p + x)) → (Z.to_nat (size_of t) - d ≤ fuel)%nat →
  ∃ r, collect_matches StoreHash entry_has_room fuel t h ((p + Z.of_nat d) `mod` size_of t) (Z.of_nat d) ms = Some r ∧
    match r with
    | None => ∃ m, (max_matches - 1 ≤ length (ms ++ hash_positions t p h d m))%nat ∧
        ∀ x, 0 ≤ x < Z.of_nat (d + m) → x ≤ ds t (p + x)
    | Some ms' => ∃ m, ms' = ms ++ hash_positions t p h d m ∧ ds t (p + Z.of_nat (d + m)) < Z.of_nat (d + m) ∧
        ∀ x, 0 ≤ x < Z.of_nat (d + m) → x ≤ ds t (p + x)
    end.
Proof using L.
  induction fuel as [|fuel IH]; intros t p d h ms Hok Hh Hshort Hsz HS Hpass Hf;
    pose proof (ao_pos _ _ _ t Hok) as Hn;
    (assert (Z.of_nat d < size_of t) as Hdn
      by (destruct (Z.lt_ge_cases (Z.of_nat d) (size_of t)) as [|Hge]; [done|];
          destruct (hole_after t p Hn Hh) as (e & He & Hd);
          specialize (Hpass (e - p) ltac:(lia)); replace (p + (e - p)) with e in Hpass by lia; lia)); [lia|].
  cbn [collect_matches]. rewrite bucket_at_ok by done. cbn [mbind option_bind].
  fold (ds t (p + Z.of_nat d)). pose proof (Hshort (p + Z.of_nat d)).
  destruct (Z.leb_spec (Z.of_nat d) (ds t (p + Z.of_nat d))) as [Hle|Hgt].
  - assert (∀ x, 0 ≤ x < Z.of_nat (S d) → x ≤ ds t (p + x)) as Hpass'.
    { intros x Hx. destruct (decide (x = Z.of_nat d)) as [->|]; [done|apply Hpass; lia]. }
    pose proof (ao_bucket _ _ _ t Hok (p + Z.of_nat d)) as Hb. unfold bucket_ok in Hb.
    destruct (m_value (bk t (p + Z.of_nat d))) as [[k v]|] eqn:Hv; [|unfold ds in Hle; lia].
    destruct Hb as (_ & h' & _ & _ & Hst & _). unfold bucket_hash_equal. rewrite HS, (Hst HS).
    cbn [mbind option_bind]. rewrite (next_bucket_ok hash_key StoreHash entry_has_room) by done.
    rewrite i16_small by lia. replace (p + Z.of_nat d + 1) with (p + Z.of_nat (S d)) by lia.
    replace (Z.of_nat d + 1) with (Z.of_nat (S d)) by lia.
    pose proof (Z.mod_pos_bound (p + Z.of_nat d) (size_of t) Hn).
    rewrite to_i32_small by lia.
    assert (∀ ms0 ms1, ms1 = ms0 ++ (if decide (m_hash (bk t (p + Z.of_nat d)) = u32 h)
        then [(p + Z.of_nat d) `mod` size_of t] else []) →
      ∃ r, collect_matches StoreHash entry_has_room fuel t h ((p + Z.of_nat (S d)) `mod` size_of t) (Z.of_nat (S d)) ms1 = Some r ∧
      match r with
      | None => ∃ m, (max_matches - 1 ≤ length (ms0 ++ hash_positions t p h d m))%nat ∧
          ∀ x, 0 ≤ x < Z.of_nat (d + m) → x ≤ ds t (p + x)
      | Some ms' => ∃ m, ms' = ms0 ++ hash_positions t p h d m ∧ ds t (p + Z.of_nat (d + m)) < Z.of_nat (d + m) ∧
          ∀ x, 0 ≤ x < Z.of_nat (d + m) → x ≤ ds t (p + x)
      end) as Hnext.
    { intros ms0 ms1 ->. edestruct (IH t p (S d) h) as (r & Hr & Hspec); [done..|lia|].
      rewrite Hr. eexists. split; [done|].
      destruct r as [ms'|]; [destruct Hspec as (m & -> & Hm & Hm')|destruct Hspec as (m & Hm & Hm')];
        exists (S m); replace (d + S m)%nat with (S d + m)%nat by lia; rewrite hash_positions_S, app_assoc; done. }
    destruct (Z.eqb_spec (u32 h') (u32 h)) as [Heq|Hne].
    + destruct (Nat.leb_spec (max_matches - 1) (length ms)) as [Hfull|].
      { exists None. split; [done|]. exists 0%nat. rewrite Nat.add_0_r, app_nil_r. done. }
      apply Hnext.
      rewrite (Hst HS), Heq. by rewrite decide_True.
    + apply Hnext. rewrite (Hst HS), decide_False by congruence. by rewrite app_nil_r.
  - exists (Some ms). split; [done|]. exists 0%nat. rewrite Nat.add_0_r. split; [by rewrite app_nil_r|done].
Qed.

(** A key of the array is met before the loop stops. *)
Lemma key_reached (t : table) p k v h j m :
  array_ok t → hash_key k = Some h → gp_bucket_for_hash (m_policy t) h = Some (p `mod` size_of t) →
  m_value (bk t j) = Some (k, v) → 0 ≤ m → ds t (p + m) < m →
  ∃ d, 0 ≤ d < m ∧ (p + d) `mod` size_of t = j `mod` size_of t.
Proof using.
  intros Hok Hk Hp Hv Hm Hstop. pose proof (ao_bucket _ _ _ t Hok j) as Hb. unfold bucket_ok in Hb. rewrite Hv in Hb.
  destruct Hb as (Hd0 & h' & Hk' & _ & _ & Hb). rewrite Hk in Hk'. injection Hk' as <-. rewrite Hp in Hb.
  injection Hb as Hb. fold (ds t j) in *. exists (ds t j).
  assert (Hpj : ∀ x, (p + x) `mod` size_of t = (j - ds t j + x) `mod` size_of t).
  { intros x. by rewrite <-Zplus_mod_idemp_l, Hb, Zplus_mod_idemp_l. }
  split; [|rewrite Hpj; f_equal; lia]. split; [done|].
  destruct (Z.lt_ge_cases (ds t j) m) as [|Hge]; [done|].
  pose proof (run hash_key StoreHash entry_has_room t j (ds t j - m) Hok ltac:(lia)) as Hr.
  replace (j - (ds t j - m)) with (j - ds t j + m) in Hr by lia.
  assert (ds t (p + m) = ds t (j - ds t j + m)) as Heq by (unfold ds; f_equal; apply bk_mod_eq, Hpj). lia.
Qed.

Lemma first_equal_ok (t : table) k v i ms :
  array_ok t → m_value (bk t i) = Some (k, v) → 0 ≤ i < size_of t →
  (∀ j, j ∈ ms → 0 ≤ j < size_of t ∧ is_Some (m_value (bk t j))) → i ∈ ms →
  first_equal t k ms = Some (Some i).
Proof using.
  intros Hok Hi Hir. induction ms as [|j ms IH]; intros Hall Hin; [by apply elem_of_nil in Hin|].
  destruct (Hall j) as [Hj [[k' v'] Hv]]; [by left|]. cbn [first_equal].
  pose proof (bucket_at_ok t j (ao_pos _ _ _ t Hok)) as Hat. rewrite Z.mod_small in Hat by done.
  rewrite Hat. cbn [mbind option_bind]. rewrite Hv. cbn [mbind option_bind fst].
  destruct (decide (k' = k)) as [->|Hne].
  - pose proof (key_position hash_key StoreHash entry_has_room t i j k v v' Hok Hi Hv) as Heq.
    rewrite !Z.mod_small in Heq by done. by rewrite Heq.
  - apply IH; [intros j' Hj'; apply Hall; by right|]. apply elem_of_cons in Hin as [->|]; [|done]. congruence.
Qed.

(** What [find_guaranteed] collects for the hash of a key that is in bucket [i]. *)
Definition candidates (t : table) (p h i : Z) (r : option (list Z)) : Prop :=
  ∃ m, (∀ x, 0 ≤ x < Z.of_nat m → x ≤ ds t (p + x)) ∧
    match r with
    | None => (max_matches - 1 ≤ length (hash_positions t p h 0 m))%nat
    | Some ms => ms = hash_positions t p h 0 m ∧ i ∈ ms ∧
        ∀ j, j ∈ ms → 0 ≤ j < size_of t ∧ is_Some (m_value (bk t j))
    end.

Lemma collect_candidates (t : table) g k v h i D :
  models t g → array_ok t → spread D (dom g) → 0 ≤ D ≤ 2 ^ 15 - 2 → StoreHash = true → size_of t ≤ 2 ^ 31 →
  hash_key k = Some h → fits 64 h → 0 ≤ i < size_of t → m_value (bk t i) = Some (k, v) →
  ∃ p r, bucket_for_hash t h = Some p ∧ 0 ≤ p < size_of t ∧
    collect_matches StoreHash entry_has_room (loop_fuel t) t h p 0 [] = Some r ∧ candidates t p h i r.
Proof using L.
  intros Hm Hok HX HD HSt Hsz Hk Hf Hi Hv.
  pose proof (hole_of_models _ _ _ t g Hok Hm) as Hh. pose proof (mo_entries _ _ _ t g Hm) as He.
  destruct (gp_bucket_ok (m_policy t) (size_of t) h (ao_policy _ _ _ t Hok) Hf) as (p & Hp & Hpr).
  pose proof (ao_pos _ _ _ t Hok) as Hn. rewrite Z.max_r in Hpr by lia.
  assert (gp_bucket_for_hash (m_policy t) h = Some (p `mod` size_of t)) as Hp' by by rewrite Z.mod_small.
  assert (STORE_HASH (G := G) StoreHash entry_has_room = true) as HS by (unfold STORE_HASH; by rewrite HSt).
  destruct (collect_ok (loop_fuel t) t p 0 h []) as (r & Hcol & Hres); try done.
  { intros x. pose proof (spread_bound hash_key StoreHash entry_has_room t (dom g) D Hok Hh HX
      (λ k Hin, proj1 (key_dom t g He k) Hin) x). destruct (Z.lt_ge_cases (ds t x) 0); lia. }
  { intros x Hx. lia. }
  { unfold loop_fuel, size_of. lia. }
  rewrite Z.add_0_r, Z.mod_small in Hcol by done. change (Z.of_nat 0) with 0 in Hcol.
  exists p, r. split; [exact Hp|]. split; [done|]. split; [exact Hcol|].
  destruct r as [ms|]; [|by destruct Hres as (m & Hlen & Hpass); exists m].
  destruct Hres as (m & -> & Hstop & Hpass). exists m. split; [done|]. split; [done|]. cbn [app].
  destruct (key_reached t p k v h i (Z.of_nat m) Hok Hk Hp' Hv ltac:(lia) Hstop) as (d & Hd & Hdi).
  unfold hash_positions. split.
  - apply list_elem_of_fmap. exists (Z.to_nat d). rewrite Z2Nat.id, Hdi, Z.mod_small by lia. split; [done|].
    apply list_elem_of_filter. split; [|apply elem_of_seq; lia].
    rewrite Z2Nat.id by lia. rewrite (bk_mod_eq t (p + d) i Hdi).
    pose proof (ao_bucket _ _ _ t Hok i) as Hb. unfold bucket_ok in Hb. rewrite Hv in Hb.
    destruct Hb as (_ & h' & Hk' & _ & Hst & _). rewrite Hk in Hk'. injection Hk' as <-. by apply Hst.
  - intros j (x & -> & [_ Hx]%list_elem_of_filter)%list_elem_of_fmap. apply elem_of_seq in Hx.
    split; [by apply Z.mod_pos_bound|]. rewrite bk_mod. specialize (Hpass (Z.of_nat x) ltac:(lia)).
    destruct (m_value (bk t (p + Z.of_nat x))) eqn:Hvx; [eauto|].
    apply (ds_empty hash_key StoreHash entry_has_room t _ Hok) in Hvx. lia.
Qed.

(** [find_guaranteed], which compares the stored halves of the hashes and only a few keys,
    finds what [find] finds for every key that is in the table. *)
Theorem robin_find_guaranteed (t : table) g k D :
  models t g → spread D (dom g) → 0 ≤ D ≤ 2 ^ 15 - 2 → StoreHash = true → m_bucket_count t ≤ 2 ^ 31 →
  hashable hash_key k → is_Some (g !! k) →
  find_guaranteed hash_key StoreHash entry_has_room t k = find hash_key StoreHash entry_has_room t k.
Proof using L.
  intros Hm HX HD HSt Hcount Hhash [w Hw]. pose proof Hhash as (h & Hk & Hf).
  destruct (find_models hash_key StoreHash entry_has_room t g k D Hm HX HD Hhash) as (r & Hr & Hspec).
  destruct r as [i|]; [|congruence]. destruct Hspec as (Hi & Hok & v & Hv & _).
  rewrite (ao_count _ _ _ t Hok) in Hi, Hcount. rewrite Hr.
  unfold find in Hr. rewrite Hk in Hr. cbn [mbind option_bind] in Hr.
  unfold find_guaranteed. rewrite Hk. cbn [mbind option_bind]. unfold find_guaranteed_impl, USE_STORED_HASH_ON_LOOKUP.
  rewrite HSt at 1. cbn [negb].
  destruct (collect_candidates t g k v h i D Hm Hok HX HD HSt Hcount Hk Hf Hi Hv)
    as (p & [ms|] & Hp & Hpr & Hcol & m & Hpass & Hres);
    rewrite Hp; cbn [mbind option_bind]; rewrite Hcol; cbn [mbind option_bind]; [|exact Hr].
  destruct Hres as (_ & Hin & Hall). pose proof (first_equal_ok t k v i ms Hok Hv Hi Hall Hin) as Hfirst.
  destruct ms as [|j [|j' ms]]; [done| |exact Hfirst].
  apply list_elem_of_singleton in Hin as ->. done.
Qed.

(** On a key that is not in the table [find_guaranteed] answers the only entry with the
    same hash: it compares no key when one bucket matches. *)
Theorem robin_find_guaranteed_absent (t : table) k k' v :
  models t {[k' := v]} → StoreHash = true → m_bucket_count t ≤ 2 ^ 31 →
  hashable hash_key k' → hash_key k = hash_key k' →
  ∃ i, find_guaranteed hash_key StoreHash entry_has_room t k = Some (Some i) ∧ m_value (bk t i) = Some (k', v).
Proof using L.
  intros Hm HSt Hcount Hhash Heq.
  assert (spread 0 (dom ({[k' := v]} : gmap K V))) as HX.
  { apply spread_small; [done|]. by rewrite dom_singleton_L, size_singleton. }
  destruct (find_models hash_key StoreHash entry_has_room t _ k' 0 Hm HX ltac:(lia) Hhash) as (r & Hr & Hspec).
  destruct r as [i|]; [|by rewrite lookup_singleton_eq in Hspec].
  destruct Hspec as (Hi & Hok & w & Hv & Hw). rewrite lookup_singleton_eq in Hw. injection Hw as <-.
  exists i. split; [|done]. destruct Hhash as (h & Hk & Hf). rewrite (ao_count _ _ _ t Hok) in Hi, Hcount.
  unfold find_guaranteed. rewrite Heq, Hk. cbn [mbind option_bind].
  unfold find_guaranteed_impl, USE_STORED_HASH_ON_LOOKUP. rewrite HSt at 1. cbn [negb].
  destruct (collect_candidates t _ k' v h i 0 Hm Hok HX ltac:(lia) HSt Hcount Hk Hf Hi Hv)
    as (p & r & Hp & Hpr & Hcol & m & Hpass & Hres). rewrite Hp. cbn [mbind option_bind]. rewrite Hcol.
  cbn [mbind option_bind].
  assert (m ≤ 1)%nat as Hm1.
  { destruct (decide (m ≤ 1)%nat) as [|Hgt]; [done|]. specialize (Hpass 1 ltac:(lia)).
    pose proof (spread_bound hash_key StoreHash entry_has_room t _ 0 Hok (hole_of_models _ _ _ t _ Hok Hm) HX
      (λ k Hin, proj1 (key_dom t _ (mo_entries _ _ _ t _ Hm) k) Hin) (p + 1)). lia. }
  assert (length (hash_positions t p h 0 m) ≤ 1)%nat as Hlen.
  { unfold hash_positions. rewrite length_fmap.
    pose proof (length_filter (λ x, m_hash (bk t (p + Z.of_nat x)) = u32 h) (seq 0 m)) as Hle.
    rewrite length_seq in Hle. lia. }
  destruct r as [ms|]; [|unfold max_matches in Hres; lia]. destruct Hres as (-> & Hin & _).
  destruct (hash_positions t p h 0 m) as [|j [|j' ms]]; [by apply elem_of_nil in Hin| |cbn in Hlen; lia].
  apply list_elem_of_singleton in Hin as ->. done.
Qed.
End refine.

(** ** Instances: a table of one entry *)
Definition demo_one_key (k : Z) : option Z := Some (u64 (k / 2)).
Definition demo_one_policy : power_of_two_growth_policy := PowerOfTwo 3.

(** [{4: 40}] in four buckets. *)
Definition demo_one : robin_hash Z Z power_of_two_growth_policy :=
  RobinHash demo_one_policy
    [empty_bucket false; empty_bucket false; Bucket 0 2 false (Some (4, 40)); empty_bucket true]
    4 1 2 DEFAULT_MIN_LOAD_FACTOR DEFAULT_MAX_LOAD_FACTOR false false.

Lemma demo_one_models : models demo_one_key true true demo_one {[4 := 40]}.
Proof.
  destruct (robin_new_ok (K := Z) (V := Z) demo_one_key true true (2 ^ 60) vectors_fit 4
    DEFAULT_MAX_LOAD_FACTOR ltac:(lia) default_load_ok) as (g & n & th & Hnew & _ & Hn & Hsh).
  pose proof (fresh_models demo_one_key true true g n th _ Hsh ltac:(lia)) as Hm.
  destruct (subscript_models demo_one_key true true (2 ^ 60) vectors_fit _ ∅ 4 40 0 0 Hm)
    as (t & Ht & Hm'); try done.
  - by apply spread_small.
  - by left.
  - eexists. split; [done|]. by apply fits_wrap.
  - rewrite insert_empty in Hm'. assert (t = demo_one) as <-; [|done].
    assert (robin_new (K := Z) (V := Z) (2 ^ 60) 4 DEFAULT_MIN_LOAD_FACTOR DEFAULT_MAX_LOAD_FACTOR
      ≫= (λ t, subscript_assign demo_one_key true true (2 ^ 60) 0 t 4 40) = Some demo_one) as Hrun by by vm_compute.
    rewrite Hnew in Hrun. cbn [mbind option_bind] in Hrun. congruence.
Qed.

Lemma demo_one_spread : spread (G := power_of_two_growth_policy) demo_one_key 0 (dom ({[4 := 40]} : gmap Z Z)).
Proof. by apply spread_small. Qed.

Lemma robin_find_guaranteed_witness :
  find_guaranteed demo_one_key true true demo_one 4 = find demo_one_key true true demo_one 4.
Proof.
  apply (robin_find_guaranteed demo_one_key true true demo_one {[4 := 40]} 4 0 demo_one_models demo_one_spread).
  - lia.
  - reflexivity.
  - vm_compute. discriminate.
  - exists 2. split; [reflexivity|split; lia].
  - exists 40. reflexivity.
Defined.

Lemma robin_find_guaranteed_absent_witness :
  ∃ i, find_guaranteed demo_one_key true true demo_one 5 = Some (Some i) ∧ m_value (bk demo_one i) = Some (4, 40).
Proof.
  apply (robin_find_guaranteed_absent demo_one_key true true demo_one 5 4 40 demo_one_models).
  - reflexivity.
  - vm_compute. discriminate.
  - exists 2. split; [reflexivity|split; lia].
  - reflexivity.
Defined.

(** ** Erasing a range

    The values after the range are shifted back, but not across the end of the array. *)
Definition demo_two : robin_hash Z Z power_of_two_growth_policy :=
  RobinHash demo_one_policy
    [Bucket 1 3 false (Some (7, 70)); empty_bucket false; empty_bucket false; Bucket 0 3 true (Some (6, 60))]
    4 2 2 DEFAULT_MIN_LOAD_FACTOR DEFAULT_MAX_LOAD_FACTOR false false.

(** [erase(first, last)] up to [end()] can lose a key outside the range: of two keys with the
    last bucket as their ideal one, the second is in the first bucket; when the last
    bucket is erased it stays there, is still iterated over, and is not found. *)
Theorem robin_erase_range_loses :
  (t ← robin_new (2 ^ 60) 4 DEFAULT_MIN_LOAD_FACTOR DEFAULT_MAX_LOAD_FACTOR;
   t ← subscript_assign demo_one_key true true (2 ^ 60) 0 t 6 60;
   subscript_assign demo_one_key true true (2 ^ 60) 0 t 7 70) = Some demo_two ∧
  find_value demo_one_key true true demo_two 7 = Some (Some 70) ∧
  ∃ t', erase_range true true demo_two 3 4 = Some (t', 4) ∧ iterate (loop_fuel t') t' (begin t') = Some [(7, 70)] ∧
    find_value demo_one_key true true t' 7 = Some None.
Proof.
  split; [by vm_compute|]. split; [by vm_compute|].
  eexists. split; [by vm_compute|]. split; by vm_compute.
Qed.
