(* ===== verification/RobinExtra.v ===== *)
(** * Hinted and ranged insertion, reservation, and whole tables (src/tsl/robin_hash.h)

    The operations of [robin_hash] that are built on those of RobinTable.v: insertion with
    a hint, insertion of a range, [equal_range], [rehash] and [reserve] as the client calls
    them, and copies, moves and exchanges of tables. Each is defined on a table that models
    a map, and does to the map what its name says. *)
From stdpp Require Import gmap.
From S2P Require Import Prelude Words Floats FiniteMaps RobinGrowth RobinTable RobinInv RobinProbe RobinLoad RobinMap RobinRefine.

Section operations.
Context {K V G : Type} `{EqDecision K} `{GrowthPolicy G}.
Context (hash_key : K → option Z) (StoreHash entry_has_room : bool) (vector_max_size : Z).

Abbreviation bucket := (bucket_entry K V).
Abbreviation table := (robin_hash K V G).
Abbreviation insert_impl := (insert_impl hash_key StoreHash entry_has_room vector_max_size).

(** ** Hints: an iterator is the position of its bucket, the number of buckets for [end()] *)

Definition insert (t : table) (value : K * V) : option (table * (Z * bool)) := insert_impl t value.1 value.

(** [hint != cend() && compare_keys(KeySelect()( *hint), key)] *)
Definition hint_is (t : table) (hint : Z) (key : K) : option bool :=
  if hint =? m_bucket_count t then Some false
  else b ← bucket_at t hint; v ← m_value b; Some (bool_decide (v.1 = key)).

Definition insert_hint (t : table) (hint : Z) (value : K * V) : option (table * Z) :=
  h ← hint_is t hint value.1;
  if h : bool then Some (t, hint) else '(t, (i, _)) ← insert t value; Some (t, i).

Definition try_emplace_hint (t : table) (hint : Z) (key : K) (obj : V) : option (table * Z) :=
  h ← hint_is t hint key;
  if h : bool then Some (t, hint)
  else '(t, (i, _)) ← try_emplace hash_key StoreHash entry_has_room vector_max_size t key obj; Some (t, i).

Definition insert_or_assign_hint (t : table) (hint : Z) (key : K) (obj : V) : option (table * Z) :=
  h ← hint_is t hint key;
  if h : bool then t ← assign_value t hint obj; Some (t, hint)
  else '(t, (i, _)) ← insert_or_assign hash_key StoreHash entry_has_room vector_max_size t key obj; Some (t, i).

(** ** A range of values; [forward] is the test on the category of the iterators *)

Fixpoint insert_each (t : table) (l : list (K * V)) : option table :=
  match l with
  | [] => Some t
  | value :: l => '(t, _) ← insert t value; insert_each t l
  end.

Definition insert_range (forward : bool) (t : table) (l : list (K * V)) : option table :=
  t ← (if forward then
         let nb_elements_insert := Z.of_nat (length l) in
         let nb_free_buckets := u64 (m_load_threshold t - m_nb_elements t) in
         if (0 <? nb_elements_insert) && (nb_free_buckets <? u64 nb_elements_insert)
         then reserve hash_key StoreHash entry_has_room vector_max_size t (u64 (m_nb_elements t + u64 nb_elements_insert))
         else Some t
       else Some t);
  insert_each t l.

(** [robin_map(first, last, bucket_count)], also for an initializer list *)
Definition robin_of_range (forward : bool) (l : list (K * V)) (bucket_count : Z) : option table :=
  t ← robin_new vector_max_size bucket_count DEFAULT_MIN_LOAD_FACTOR DEFAULT_MAX_LOAD_FACTOR;
  insert_range forward t l.

(** [operator=(std::initializer_list)] *)
Definition assign_list (t : table) (l : list (K * V)) : option table :=
  t ← reserve hash_key StoreHash entry_has_room vector_max_size (clear t) (Z.of_nat (length l));
  insert_range true t l.

(** ** [equal_range]: [it] and [std::next(it)], both [end()] for an absent key *)
Definition equal_range (t : table) (key : K) : option (Z * Z) :=
  r ← find hash_key StoreHash entry_has_room t key;
  match r with
  | None => Some (m_bucket_count t, m_bucket_count t)
  | Some i => j ← iter_next (loop_fuel t) t i; Some (i, j)
  end.

(** ** Whole tables *)

(** The copy constructor of a bucket. *)
Definition copy_bucket (other : bucket) : option bucket :=
  if bucket_empty other then Some (Bucket EMPTY_MARKER (m_hash other) (m_last_bucket other) None)
  else v ← m_value other; Some (Bucket (m_dist_from_ideal_bucket other) (m_hash other) (m_last_bucket other) (Some v)).

(** Copy construction, and assignment from another table: the vector copies its buckets. *)
Definition copy (other : table) : option table :=
  l ← mapM copy_bucket (m_buckets_data other); Some (set_data other l).

(** The new table, and what is left of the other one. *)
Definition move_construct (other : table) : table * table := (other, clear_and_shrink other).

Definition swap (t other : table) : table * table := (other, t).

(** [operator=(robin_hash&&)] from another table. *)
Definition move_assign (t other : table) : table * table :=
  let '(other, t) := swap other t in (t, clear other).
End operations.

Section models.
Context {K V G : Type} `{Countable K} `{L : GrowthPolicyLaws G}.
Context (hash_key : K → option Z) (StoreHash entry_has_room : bool) (vector_max_size : Z).

Abbreviation table := (robin_hash K V G).
Abbreviation array_ok := (array_ok (V := V) (G := G) hash_key StoreHash entry_has_room).
Abbreviation models := (models (K := K) (V := V) (G := G) hash_key StoreHash entry_has_room).
Abbreviation shape_ok := (shape_ok (K := K) (V := V) (G := G) hash_key StoreHash entry_has_room).
Abbreviation holds := (holds (K := K) (V := V) (G := G) hash_key StoreHash entry_has_room).
Abbreviation spread := (spread (G := G) hash_key).
Abbreviation insert := (insert hash_key StoreHash entry_has_room vector_max_size (K := K) (V := V) (G := G)).

(** Keys the table can hold at any time. *)
Record crowd (X : gset K) (D : Z) : Prop := Crowd {
  cr_hash : ∀ k, k ∈ X → hashable hash_key k;
  cr_spread : spread D X;
  cr_limit : 0 ≤ D < DIST_FROM_IDEAL_BUCKET_LIMIT - 1;
  cr_size : Z.of_nat (size X) < 2 ^ 32
}.

Lemma crowd_subseteq X Y D : Y ⊆ X → crowd X D → crowd Y D.
Proof using.
  intros HYX [Hh Hs Hl Hz]. split; [auto|by eapply spread_subseteq|done|].
  pose proof (subseteq_size _ _ HYX). lia.
Qed.

(** ** Rehashing at the request of the client *)

Lemma rehash_buckets_empty u l (t : table) :
  Forall (λ b : bucket_entry K V, bucket_empty b = true) l →
  rehash_buckets hash_key StoreHash entry_has_room u l t = Some t.
Proof using. induction 1 as [|b l Hb Hl IH]; [done|]. cbn [rehash_buckets]. by rewrite Hb. Qed.

Lemma shape_stored (t : table) : shape_ok t → Forall (stored_ok (G := G) hash_key StoreHash entry_has_room) (m_buckets_data t).
Proof using. intros Hsh. destruct (sh_array _ _ _ t Hsh) as [(-> & _)|Hok]; [constructor|by apply array_stored]. Qed.

(** Without entries every bucket is empty. *)
Lemma no_entries_empty (t : table) :
  shape_ok t → entries t = [] → Forall (λ b, bucket_empty b = true) (m_buckets_data t).
Proof using.
  intros Hsh He. pose proof (shape_stored t Hsh) as Hst. unfold entries in He. revert Hst He.
  induction 1 as [|b l Hb Hst IH]; intros He; [constructor|]. cbn in He. unfold stored_ok in Hb.
  destruct (m_value b) as [kv|] eqn:Hv; [done|]. constructor; [|auto]. unfold bucket_empty. by rewrite Hb.
Qed.

Lemma models_keys (t : table) g k : models t g → k ∈ keys t → k ∈ dom g.
Proof using. intros Hm. apply (key_dom t g (mo_entries _ _ _ t g Hm)). Qed.

Lemma models_nodup (t : table) g : models t g → NoDup (keys t).
Proof using. intros Hm. unfold keys. rewrite (mo_entries _ _ _ t g Hm). apply NoDup_fst_map_to_list. Qed.

Lemma models_length (t : table) g : models t g → Z.of_nat (length (entries t)) = m_nb_elements t.
Proof using. intros Hm. rewrite (mo_count _ _ _ t g Hm), (mo_entries _ _ _ t g Hm). by rewrite length_map_to_list. Qed.

Context (Hvec : 2 ^ 40 ≤ Z.min (gp_max_bucket_count (G := G)) vector_max_size).

Lemma insert_or_assign_models (t : table) g k v D :
  models t g → Z.of_nat (size g) < 2 ^ 32 → spread D (dom g) → 0 ≤ D < DIST_FROM_IDEAL_BUCKET_LIMIT - 1 →
  hashable hash_key k →
  ∃ t' i, insert_or_assign hash_key StoreHash entry_has_room vector_max_size t k v
      = Some (t', (i, if g !! k is Some _ then false else true)) ∧ models t' (<[k := v]> g).
Proof using Hvec.
  intros Hm Hsz HX HD Hk. unfold DIST_FROM_IDEAL_BUCKET_LIMIT in HD.
  destruct (insert_impl_models hash_key StoreHash entry_has_room vector_max_size Hvec t g k v D Hm Hsz HX
    ltac:(lia) ltac:(left; unfold DIST_FROM_IDEAL_BUCKET_LIMIT; lia) Hk) as (t1 & i & Ht1 & Hm1 & Hok1 & Hi & Hv).
  unfold insert_or_assign, try_emplace. rewrite Ht1. cbn [mbind option_bind].
  destruct (g !! k) as [w|] eqn:Hg; cbn [negb default]; [|by exists t1, i].
  destruct (assign_models hash_key StoreHash entry_has_room t1 g i k _ v Hm1 Hok1 Hi Hv) as (t' & Ht' & Hm').
  exists t', i. by rewrite Ht'.
Qed.

Lemma rehash_impl_models (t : table) g count D :
  models t g → (0 < m_nb_elements t → m_nb_elements t < count) → 0 ≤ count ≤ 2 ^ 38 → spread D (dom g) → 0 ≤ D ≤ 2 ^ 15 - 2 →
  ∃ t', rehash_impl hash_key StoreHash entry_has_room vector_max_size t count = Some t' ∧ models t' g ∧
    count ≤ m_bucket_count t'.
Proof using Hvec.
  intros Hm Hlt Hc HX HD. pose proof Hm as [Hsh He Hn Hr]. pose proof (models_length t g Hm) as Hlen.
  destruct (decide (count = 0)) as [->|Hne].
  - assert (m_nb_elements t = 0) as Hz by lia. assert (entries t = []) as He0 by (destruct (entries t); [done|cbn in Hlen; lia]).
    assert (g = ∅) as -> by (apply map_size_empty_iff; lia).
    pose proof (sh_max _ _ _ t Hsh) as Hlo.
    destruct (robin_new_ok (K := K) (V := V) hash_key StoreHash entry_has_room vector_max_size Hvec 0 (m_max_load_factor t))
      as (gr & n & th & Hnew & _ & Hn0 & Hsh'); [lia|by rewrite (lo_clamp _ Hlo)|].
    unfold rehash_impl. rewrite (sh_min _ _ _ t Hsh), Hnew. cbn [mbind option_bind].
    rewrite rehash_buckets_empty by by apply no_entries_empty. cbn [mbind option_bind]. eexists. split; [done|].
    rewrite Hz. split; [|cbn; lia]. apply (fresh_models hash_key StoreHash entry_has_room gr n th _ Hsh'). lia.
  - destruct (rehash_impl_ok hash_key StoreHash entry_has_room vector_max_size Hvec t count (dom g) D Hsh
      (models_nodup t g Hm)) as (t' & Ht' & Hsh' & Hok' & He' & Hnb & Hcap); [|done|done| |].
    + rewrite Hlen. lia.
    + intros k. by apply models_keys.
    + exists t'. split; [done|]. split; [|lia]. split; [done|by rewrite He'|by rewrite Hnb|lia].
Qed.

Lemma rehash_models (t : table) g count D :
  models t g → Z.of_nat (size g) < 2 ^ 32 → 0 ≤ count ≤ 2 ^ 37 → spread D (dom g) → 0 ≤ D ≤ 2 ^ 15 - 2 →
  ∃ t', rehash hash_key StoreHash entry_has_room vector_max_size t count = Some t' ∧ models t' g ∧
    count ≤ m_bucket_count t'.
Proof using Hvec.
  intros Hm Hsz Hc HX HD. pose proof (mo_count _ _ _ t g Hm) as Hn.
  destruct (buckets_for_ok (m_nb_elements t) (m_max_load_factor t)) as (n & Hbf & Hb & Hlt);
    [apply (sh_max _ _ _ t (mo_shape _ _ _ t g Hm))|lia|].
  unfold rehash. change (sf_to_unsigned 64 _) with (buckets_for (m_nb_elements t) (m_max_load_factor t)).
  rewrite Hbf. cbn [mbind option_bind].
  destruct (rehash_impl_models t g (Z.max count n) D Hm) as (t' & -> & Hm' & Hcap); [lia|lia|done|done|].
  exists t'. split; [done|]. split; [done|lia].
Qed.

Lemma reserve_models (t : table) g count D :
  models t g → Z.of_nat (size g) < 2 ^ 32 → 0 ≤ count ≤ 2 ^ 34 → spread D (dom g) → 0 ≤ D ≤ 2 ^ 15 - 2 →
  ∃ t', reserve hash_key StoreHash entry_has_room vector_max_size t count = Some t' ∧ models t' g ∧
    (0 < count → count < m_bucket_count t').
Proof using Hvec.
  intros Hm Hsz Hc HX HD.
  destruct (buckets_for_ok count (m_max_load_factor t)) as (n & Hbf & Hb & Hlt);
    [apply (sh_max _ _ _ t (mo_shape _ _ _ t g Hm))|lia|].
  unfold reserve. change (sf_to_unsigned 64 _) with (buckets_for count (m_max_load_factor t)).
  rewrite Hbf. cbn [mbind option_bind].
  destruct (rehash_models t g n D Hm) as (t' & -> & Hm' & Hcap); [done|lia|done|done|].
  exists t'. split; [done|]. split; [done|lia].
Qed.
(** ** Insertion with the keys a table can hold *)

Lemma crowd_map (g : gmap K V) X D :
  dom g ⊆ X → crowd X D → Z.of_nat (size g) < 2 ^ 32 ∧ spread D (dom g) ∧ 0 ≤ D < DIST_FROM_IDEAL_BUCKET_LIMIT - 1 ∧ D ≤ 2 ^ 15 - 2.
Proof using.
  clear Hvec. intros Hg [Hh HX HD Hsz]. pose proof (subseteq_size _ _ Hg) as Hle. rewrite size_dom in Hle.
  split; [lia|]. split; [by eapply spread_subseteq|]. split; [done|]. unfold DIST_FROM_IDEAL_BUCKET_LIMIT in HD. lia.
Qed.

Lemma insert_models (t : table) g kv X D :
  models t g → dom g ⊆ X → crowd X D → kv.1 ∈ X →
  ∃ t' i, insert t kv = Some (t', (i, if g !! kv.1 is Some _ then false else true)) ∧
    models t' (put_new g kv) ∧ holds t' i kv.1 (default kv.2 (g !! kv.1)).
Proof using Hvec.
  intros Hm Hg HX Hk. destruct kv as [k v]. destruct (crowd_map g X D Hg HX) as (Hsz & Hs & HD & HD').
  apply (insert_impl_models hash_key StoreHash entry_has_room vector_max_size Hvec t g k v D Hm Hsz Hs); [lia|left; lia|].
  by apply (cr_hash X D HX).
Qed.

Lemma insert_each_models X D l : ∀ (t : table) g,
  models t g → dom g ⊆ X → crowd X D → Forall (λ kv, kv.1 ∈ X) l →
  ∃ t', insert_each hash_key StoreHash entry_has_room vector_max_size t l = Some t' ∧ models t' (put_all g l).
Proof using Hvec.
  induction l as [|kv l IH]; intros t g Hm Hg HX Hl; [by exists t|]. apply Forall_cons in Hl as [Hk Hl].
  destruct (insert_models t g kv X D Hm Hg HX Hk) as (t1 & i & Ht1 & Hm1 & _). cbn [insert_each]. rewrite Ht1.
  apply (IH t1); [done|by apply put_new_dom|done|done].
Qed.

Lemma insert_range_models forward (t : table) g l X D :
  models t g → dom g ⊆ X → crowd X D → Forall (λ kv, kv.1 ∈ X) l → Z.of_nat (length l) ≤ 2 ^ 32 →
  ∃ t', insert_range hash_key StoreHash entry_has_room vector_max_size forward t l = Some t' ∧ models t' (put_all g l).
Proof using Hvec.
  intros Hm Hg HX Hl Hlen. destruct (crowd_map g X D Hg HX) as (Hsz & Hs & HD & HD').
  pose proof (mo_count _ _ _ t g Hm) as Hn. unfold insert_range.
  set (room := if forward then _ else _). assert (∃ t1, room = Some t1 ∧ models t1 g) as (t1 & -> & Hm1).
  { unfold room. destruct forward; [|by exists t]. cbv zeta. destruct (_ && _); [|by exists t].
    rewrite (wrap_small 64 (Z.of_nat _)), wrap_small by (split; lia).
    destruct (reserve_models t g (m_nb_elements t + Z.of_nat (length l)) D Hm Hsz) as (t1 & -> & Hm1 & _);
      [lia|done|lia|by exists t1]. }
  cbn [mbind option_bind]. by apply (insert_each_models X D).
Qed.

(** ** Hints *)

(** [end()], or the iterator of an entry *)
Definition iterator_ok (t : table) (i : Z) : Prop := i = m_bucket_count t ∨ ∃ k v, holds t i k v.

Lemma holds_lookup (t : table) g i k v : models t g → holds t i k v → g !! k = Some v.
Proof using.
  clear Hvec. intros Hm (Hok & Hi & Hv). apply (entry_lookup t g i k v); [apply (ao_pos _ _ _ t Hok)|apply Hm|done].
Qed.

Lemma hint_is_spec (t : table) g hint k :
  models t g → iterator_ok t hint →
  ∃ b, hint_is t hint k = Some b ∧ (b = true → ∃ v, holds t hint k v ∧ g !! k = Some v).
Proof using.
  clear Hvec. intros Hm [->|(k' & v & Hh)]; unfold hint_is; [rewrite Z.eqb_refl; by exists false|].
  pose proof (holds_lookup t g hint k' v Hm Hh) as Hg. destruct Hh as (Hok & Hi & Hv).
  rewrite (proj2 (Z.eqb_neq _ _)) by lia.
  destruct (bucket_at_index _ _ _ t hint Hok Hi) as [-> _]. cbn [mbind option_bind]. rewrite Hv. cbn [mbind option_bind fst].
  eexists. split; [done|]. rewrite bool_decide_eq_true. intros ->. exists v. by split; [|done].
Qed.

Lemma try_emplace_hint_models (t : table) g hint k v X D :
  models t g → iterator_ok t hint → dom g ⊆ X → crowd X D → k ∈ X →
  ∃ t' i, try_emplace_hint hash_key StoreHash entry_has_room vector_max_size t hint k v = Some (t', i) ∧
    models t' (put_new g (k, v)) ∧ holds t' i k (default v (g !! k)).
Proof using Hvec.
  intros Hm Hi Hg HX Hk. destruct (hint_is_spec t g hint k Hm Hi) as (b & Hb & Hspec).
  unfold try_emplace_hint. rewrite Hb. cbn [mbind option_bind]. destruct b.
  - destruct (Hspec eq_refl) as (w & Hh & Hw). exists t, hint. unfold put_new. cbn [fst snd]. rewrite Hw. done.
  - destruct (insert_models t g (k, v) X D Hm Hg HX Hk) as (t' & i & Ht' & Hm' & Hh).
    exists t', i. unfold try_emplace. unfold RobinExtra.insert in Ht'. cbn [fst] in Ht'. by rewrite Ht'.
Qed.

Lemma insert_or_assign_hint_models (t : table) g hint k v X D :
  models t g → iterator_ok t hint → dom g ⊆ X → crowd X D → k ∈ X →
  ∃ t' i, insert_or_assign_hint hash_key StoreHash entry_has_room vector_max_size t hint k v = Some (t', i) ∧
    models t' (<[k := v]> g).
Proof using Hvec.
  intros Hm Hi Hg HX Hk. destruct (hint_is_spec t g hint k Hm Hi) as (b & Hb & Hspec).
  destruct (crowd_map g X D Hg HX) as (Hsz & Hs & HD & HD').
  unfold insert_or_assign_hint. rewrite Hb. cbn [mbind option_bind]. destruct b.
  - destruct (Hspec eq_refl) as (w & (Hok & Hr & Hv) & Hw).
    destruct (assign_models hash_key StoreHash entry_has_room t g hint k w v Hm Hok Hr Hv) as (t' & -> & Hm').
    by exists t', hint.
  - destruct (insert_or_assign_models t g k v D Hm Hsz Hs HD (cr_hash X D HX k Hk)) as (t' & i & -> & Hm').
    by exists t', i.
Qed.

(** The iterator that [find] returns. *)
Lemma find_iterator (t : table) g k X D :
  models t g → dom g ⊆ X → crowd X D → k ∈ X →
  ∃ r, find hash_key StoreHash entry_has_room t k = Some r ∧ iterator_ok t (default (m_bucket_count t) r) ∧
    match r with Some i => ∃ v, g !! k = Some v ∧ holds t i k v | None => g !! k = None end.
Proof using.
  clear Hvec. intros Hm Hg HX Hk. destruct (crowd_map g X D Hg HX) as (_ & Hs & HD & HD').
  destruct (find_models hash_key StoreHash entry_has_room t g k D Hm Hs ltac:(lia) (cr_hash X D HX k Hk)) as (r & Hr & Hspec).
  exists r. split; [done|]. destruct r as [i|]; [|split; [by left|done]].
  destruct Hspec as (Hi & Hok & v & Hv & Hgk). assert (holds t i k v) by done. split; [right; by exists k, v|by exists v].
Qed.

(** The range is empty for an absent key, and goes from the key's entry to the next one. *)
Lemma equal_range_models (t : table) g k X D :
  models t g → dom g ⊆ X → crowd X D → k ∈ X →
  ∃ i j, equal_range hash_key StoreHash entry_has_room t k = Some (i, j) ∧
    match g !! k with
    | None => i = m_bucket_count t ∧ j = i
    | Some v => holds t i k v ∧ j = begin_from (drop (S (Z.to_nat i)) (m_buckets_data t)) (i + 1)
    end.
Proof using.
  clear Hvec. intros Hm Hg HX Hk. destruct (find_iterator t g k X D Hm Hg HX Hk) as (r & Hr & _ & Hspec).
  unfold equal_range. rewrite Hr. cbn [mbind option_bind]. destruct r as [i|]; [|rewrite Hspec; eauto].
  destruct Hspec as (v & -> & Hh). destruct Hh as (Hok & Hi & Hv).
  pose proof (ao_count _ _ _ t Hok) as Hs. unfold size_of in Hs.
  destruct (lookup_lt_is_Some_2 (m_buckets_data t) (Z.to_nat i)) as [b Hb]; [lia|].
  pose proof (iter_next_spec hash_key StoreHash entry_has_room t (drop (S (Z.to_nat i)) (m_buckets_data t))
    (take (Z.to_nat i) (m_buckets_data t)) b (loop_fuel t) Hok) as Hn.
  rewrite length_take, Nat.min_l, Z2Nat.id in Hn by lia. rewrite Hn.
  - cbn [mbind option_bind]. eexists _, _. by split; [done|].
  - rewrite <-(drop_S _ b _ Hb). by rewrite take_drop.
  - unfold loop_fuel. rewrite length_drop. lia.
Qed.

(** ** Whole tables *)

Lemma copy_models (t : table) g : models t g → copy t = Some t.
Proof using.
  clear Hvec. intros Hm. pose proof (shape_stored t (mo_shape _ _ _ t g Hm)) as Hst. unfold copy.
  assert (mapM copy_bucket (m_buckets_data t) = Some (m_buckets_data t)) as ->; [|by destruct t].
  revert Hst. clear. induction 1 as [|b l Hb Hl IH]; [done|]. cbn [mapM]. rewrite IH. cbn [mbind option_bind].
  unfold copy_bucket, bucket_empty. unfold stored_ok in Hb. destruct b as [d h la [[k v]|]]; cbn in *; [|by rewrite Hb].
  destruct Hb as [Hd _]. unfold EMPTY_MARKER. by rewrite (proj2 (Z.eqb_neq _ _)) by lia.
Qed.

Lemma clear_and_shrink_models (t : table) g : models t g → models (clear_and_shrink t) ∅.
Proof using.
  clear Hvec. intros [[Ha Hcap Hth Hmin Hmax Hgrow] He Hc Hr].
  pose proof (gp_clear_ok (m_policy t)) as Hg.
  destruct (lo_threshold _ Hmax _ _ Hg) as (th & Hth0 & Hb & _).
  split; [split|done|done|done]; try done; [by left|]. cbn. rewrite Hth0. f_equal. lia.
Qed.
End models.
