(* ===== verification/RobinRun.v ===== *)
(** * Runs of a robin-hood table

    A client's operations, one after the other, answer what they would answer on a finite
    map, from any newly built table and whatever the hash functor does to keys that are
    not too crowded. The 16-bit distances end this: after 32768 keys with the same hash a
    lookup reads an empty bucket. *)
From stdpp Require Import gmap.
From S2P Require Import Prelude Words Floats FiniteMaps RobinGrowth RobinTable RobinInv RobinProbe RobinLoad RobinMap RobinRefine RobinExtra.

Inductive table_op {K V : Type} :=
  | OpAssign (key : K) (obj : V)
  | OpInsertOrAssign (key : K) (obj : V)
  | OpTryEmplace (key : K) (obj : V)
  | OpErase (key : K)
  | OpFind (key : K)
  | OpContains (key : K)
  | OpClear
  | OpMaxLoadFactor (ml : spec_float)
  | OpInsertRange (forward : bool) (l : list (K * V))
  | OpTryEmplaceHint (hint_key key : K) (obj : V)
  | OpInsertOrAssignHint (hint_key key : K) (obj : V)
  | OpReserve (count : Z)
  | OpRehash (count : Z)
  | OpEqualRange (key : K).
Arguments table_op : clear implicits.

Inductive table_answer {V : Type} :=
  | NoAnswer
  | Inserted (b : bool)
  | Erased (n : Z)
  | Found (r : option V)
  | Contains (b : bool).
Arguments table_answer : clear implicits.

Section run.
Context {K V G : Type} `{Countable K} `{L : GrowthPolicyLaws G}.
Context (hash_key : K → option Z) (StoreHash entry_has_room : bool) (vector_max_size : Z) (dflt : V).

Abbreviation table := (robin_hash K V G).
Abbreviation models := (models (K := K) (V := V) (G := G) hash_key StoreHash entry_has_room).
Abbreviation spread := (spread (G := G) hash_key).
Abbreviation crowd := (crowd (G := G) hash_key).

(** The iterator [find] returns, as a position. *)
Definition find_hint (t : table) (key : K) : option Z :=
  r ← find hash_key StoreHash entry_has_room t key; Some (default (m_bucket_count t) r).

(** [it->second] *)
Definition value_at (t : table) (i : Z) : option V := b ← bucket_at t i; v ← m_value b; Some v.2.

(** One operation of a client on the table; a hint is what [find] returns for some key, and
    of [equal_range] the client looks at the value the range starts with. *)
Definition table_step (t : table) (o : table_op K V) : option (table * table_answer V) :=
  match o with
  | OpAssign k v => t ← subscript_assign hash_key StoreHash entry_has_room vector_max_size dflt t k v; Some (t, NoAnswer)
  | OpInsertOrAssign k v =>
      '(t, (_, b)) ← insert_or_assign hash_key StoreHash entry_has_room vector_max_size t k v; Some (t, Inserted b)
  | OpTryEmplace k v =>
      '(t, (_, b)) ← try_emplace hash_key StoreHash entry_has_room vector_max_size t k v; Some (t, Inserted b)
  | OpErase k => '(t, n) ← erase hash_key StoreHash entry_has_room t k; Some (t, Erased n)
  | OpFind k => r ← find_value hash_key StoreHash entry_has_room t k; Some (t, Found r)
  | OpContains k => b ← contains hash_key StoreHash entry_has_room t k; Some (t, Contains b)
  | OpClear => Some (clear t, NoAnswer)
  | OpMaxLoadFactor ml => t ← max_load_factor t ml; Some (t, NoAnswer)
  | OpInsertRange forward l => t ← insert_range hash_key StoreHash entry_has_room vector_max_size forward t l; Some (t, NoAnswer)
  | OpTryEmplaceHint hk k v =>
      hint ← find_hint t hk;
      '(t, i) ← try_emplace_hint hash_key StoreHash entry_has_room vector_max_size t hint k v;
      v ← value_at t i; Some (t, Found (Some v))
  | OpInsertOrAssignHint hk k v =>
      hint ← find_hint t hk;
      '(t, _) ← insert_or_assign_hint hash_key StoreHash entry_has_room vector_max_size t hint k v; Some (t, NoAnswer)
  | OpReserve n => t ← reserve hash_key StoreHash entry_has_room vector_max_size t n; Some (t, NoAnswer)
  | OpRehash n => t ← rehash hash_key StoreHash entry_has_room vector_max_size t n; Some (t, NoAnswer)
  | OpEqualRange k =>
      '(i, j) ← equal_range hash_key StoreHash entry_has_room t k;
      if i =? j then Some (t, Found None) else v ← value_at t i; Some (t, Found (Some v))
  end.

(** The same operation on a map. *)
Definition map_step (g : gmap K V) (o : table_op K V) : gmap K V * table_answer V :=
  match o with
  | OpAssign k v => (<[k := v]> g, NoAnswer)
  | OpInsertOrAssign k v => (<[k := v]> g, Inserted (if g !! k is Some _ then false else true))
  | OpTryEmplace k v => (if g !! k is Some _ then g else <[k := v]> g, Inserted (if g !! k is Some _ then false else true))
  | OpErase k => (delete k g, Erased (if g !! k is Some _ then 1 else 0))
  | OpFind k => (g, Found (g !! k))
  | OpContains k => (g, Contains (if g !! k is Some _ then true else false))
  | OpClear => (∅, NoAnswer)
  | OpMaxLoadFactor _ | OpReserve _ | OpRehash _ => (g, NoAnswer)
  | OpInsertRange _ l => (put_all g l, NoAnswer)
  | OpTryEmplaceHint _ k v => (put_new g (k, v), Found (Some (default v (g !! k))))
  | OpInsertOrAssignHint _ k v => (<[k := v]> g, NoAnswer)
  | OpEqualRange k => (g, Found (g !! k))
  end.

Fixpoint run_table (t : table) (ops : list (table_op K V)) : option (table * list (table_answer V)) :=
  match ops with
  | [] => Some (t, [])
  | o :: ops => '(t, a) ← table_step t o; '(t, l) ← run_table t ops; Some (t, a :: l)
  end.

Fixpoint run_map (g : gmap K V) (ops : list (table_op K V)) : gmap K V * list (table_answer V) :=
  match ops with
  | [] => (g, [])
  | o :: ops => let '(g, a) := map_step g o in let '(g, l) := run_map g ops in (g, a :: l)
  end.

(** The keys of the operations are in [X]; the load factors and sizes are usable. *)
Definition op_ok (X : gset K) (o : table_op K V) : Prop :=
  match o with
  | OpAssign k _ | OpInsertOrAssign k _ | OpTryEmplace k _ | OpErase k | OpFind k | OpContains k | OpEqualRange k => k ∈ X
  | OpTryEmplaceHint hk k _ | OpInsertOrAssignHint hk k _ => hk ∈ X ∧ k ∈ X
  | OpInsertRange _ l => Forall (λ kv, kv.1 ∈ X) l ∧ Z.of_nat (length l) ≤ 2 ^ 32
  | OpReserve n => 0 ≤ n ≤ 2 ^ 34
  | OpRehash n => 0 ≤ n ≤ 2 ^ 37
  | OpClear => True
  | OpMaxLoadFactor ml => load_ok (G := G) (sf_clamp ml MINIMUM_MAX_LOAD_FACTOR MAXIMUM_MAX_LOAD_FACTOR)
  end.

(** The operations keep the keys of the map in [X]. *)
Lemma map_step_dom g o X : dom g ⊆ X → op_ok X o → dom (map_step g o).1 ⊆ X.
Proof using.
  assert (∀ k v, k ∈ X → dom g ⊆ X → dom (<[k := v]> g) ⊆ X) as Hins.
  { intros k v Hk Hg. rewrite dom_insert_L. apply union_least; [|done]. by apply singleton_subseteq_l. }
  intros Hg Ho. destruct o as [k v|k v|k v|k|k|k| |ml|fw l|hk k v|hk k v|n|n|k]; cbn in *; auto.
  - destruct (g !! k); auto.
  - rewrite dom_delete_L. etrans; [apply subseteq_difference_l|]; done.
  - rewrite dom_empty_L. apply empty_subseteq.
  - apply put_all_dom; [done|apply Ho].
  - apply put_new_dom; [done|apply Ho].
  - apply Hins; [apply Ho|done].
Qed.

Lemma run_map_dom X ops : ∀ g, dom g ⊆ X → Forall (op_ok X) ops → dom (run_map g ops).1 ⊆ X.
Proof using.
  induction ops as [|o ops IH]; intros g Hg Hops; [done|]. apply Forall_cons in Hops as [Ho Hops].
  pose proof (IH _ (map_step_dom g o X Hg Ho) Hops) as Hd. cbn [run_map].
  destruct (map_step g o) as [g1 a]. cbn [fst] in Hd. by destruct (run_map g1 ops).
Qed.

Context (Hvec : 2 ^ 40 ≤ Z.min (gp_max_bucket_count (G := G)) vector_max_size).

Lemma contains_models (t : table) g k D :
  models t g → spread D (dom g) → 0 ≤ D ≤ 2 ^ 15 - 2 → hashable hash_key k →
  contains hash_key StoreHash entry_has_room t k = Some (if g !! k is Some _ then true else false).
Proof using.
  intros Hm HX HD Hk. destruct (find_models hash_key StoreHash entry_has_room t g k D Hm HX HD Hk) as (r & Hr & Hspec).
  unfold contains, count. rewrite Hr. cbn [mbind option_bind].
  destruct r; [destruct Hspec as (_ & _ & v & _ & ->)|rewrite Hspec]; done.
Qed.

Lemma find_hint_ok (t : table) g k X D :
  models t g → dom g ⊆ X → crowd X D → k ∈ X →
  ∃ hint, find_hint t k = Some hint ∧ iterator_ok hash_key StoreHash entry_has_room t hint.
Proof using.
  clear Hvec. intros Hm Hg HX Hk.
  destruct (find_iterator hash_key StoreHash entry_has_room t g k X D Hm Hg HX Hk) as (r & Hr & Hi & _).
  unfold find_hint. rewrite Hr. by eexists.
Qed.

Lemma value_at_holds (t : table) i k v : holds hash_key StoreHash entry_has_room t i k v → value_at t i = Some v.
Proof using.
  clear Hvec. intros (Hok & Hi & Hv). unfold value_at.
  destruct (bucket_at_index hash_key StoreHash entry_has_room t i Hok Hi) as [-> _]. cbn [mbind option_bind]. by rewrite Hv.
Qed.

Lemma begin_from_le (l : list (bucket_entry K V)) : ∀ i, i ≤ begin_from l i.
Proof using.
  clear Hvec. induction l as [|b l IH]; intros i; cbn [begin_from]; [lia|]. destruct (bucket_empty b); [|lia].
  specialize (IH (i + 1)). lia.
Qed.

Lemma table_step_models (t : table) g o X D :
  models t g → dom g ⊆ X → crowd X D → op_ok X o →
  ∃ t', table_step t o = Some (t', (map_step g o).2) ∧ models t' (map_step g o).1.
Proof using Hvec.
  intros Hm Hg Hcr Ho. pose proof Hcr as [Hh HX HD Hsz]. pose proof (spread_subseteq hash_key D _ _ Hg HX) as Hs.
  pose proof (subseteq_size _ _ Hg) as Hle. rewrite size_dom in Hle.
  assert (Z.of_nat (size g) < 2 ^ 32) as Hsz' by lia. unfold DIST_FROM_IDEAL_BUCKET_LIMIT in HD.
  destruct o as [k v|k v|k v|k|k|k| |ml|fw l|hk k v|hk k v|n|n|k]; cbn [op_ok] in Ho; cbn [table_step map_step fst snd].
  - destruct (subscript_models hash_key StoreHash entry_has_room vector_max_size Hvec t g k v dflt D Hm Hsz' Hs
      ltac:(lia) ltac:(left; unfold DIST_FROM_IDEAL_BUCKET_LIMIT; lia) (Hh k Ho)) as (t' & -> & Hm'). by exists t'.
  - destruct (insert_or_assign_models hash_key StoreHash entry_has_room vector_max_size Hvec t g k v D Hm Hsz' Hs HD (Hh k Ho)) as (t' & i & -> & Hm'). by exists t'.
  - destruct (insert_impl_models hash_key StoreHash entry_has_room vector_max_size Hvec t g k v D Hm Hsz' Hs
      ltac:(lia) ltac:(left; unfold DIST_FROM_IDEAL_BUCKET_LIMIT; lia) (Hh k Ho)) as (t' & i & Ht & Hm' & _).
    unfold try_emplace. rewrite Ht. by exists t'.
  - destruct (erase_models hash_key StoreHash entry_has_room t g k D Hm Hs ltac:(lia) (Hh k Ho)) as (t' & -> & Hm').
    { rewrite (mo_count _ _ _ t g Hm). lia. }
    by exists t'.
  - rewrite (find_value_models hash_key StoreHash entry_has_room t g k D Hm Hs ltac:(lia) (Hh k Ho)). by exists t.
  - rewrite (contains_models t g k D Hm Hs ltac:(lia) (Hh k Ho)). by exists t.
  - exists (clear t). split; [done|]. by eapply clear_models.
  - destruct (max_load_factor_models hash_key StoreHash entry_has_room t g ml Hm Ho) as (t' & -> & Hm'). by exists t'.
  - destruct (insert_range_models hash_key StoreHash entry_has_room vector_max_size Hvec fw t g l X D Hm Hg Hcr)
      as (t' & -> & Hm'); [apply Ho..|]. by exists t'.
  - destruct Ho as [Hhk Hk]. destruct (find_hint_ok t g hk X D Hm Hg Hcr Hhk) as (hint & Hf & Hi). rewrite Hf. cbn [mbind option_bind].
    destruct (try_emplace_hint_models hash_key StoreHash entry_has_room vector_max_size Hvec t g hint k v X D Hm Hi Hg Hcr Hk)
      as (t' & i & -> & Hm' & Hh'). cbn [mbind option_bind]. rewrite (value_at_holds t' i k _ Hh'). by exists t'.
  - destruct Ho as [Hhk Hk]. destruct (find_hint_ok t g hk X D Hm Hg Hcr Hhk) as (hint & Hf & Hi). rewrite Hf. cbn [mbind option_bind].
    destruct (insert_or_assign_hint_models hash_key StoreHash entry_has_room vector_max_size Hvec t g hint k v X D Hm Hi Hg Hcr Hk)
      as (t' & i & -> & Hm'). by exists t'.
  - destruct (reserve_models hash_key StoreHash entry_has_room vector_max_size Hvec t g n D Hm Hsz' Ho Hs ltac:(lia))
      as (t' & -> & Hm' & _). by exists t'.
  - destruct (rehash_models hash_key StoreHash entry_has_room vector_max_size Hvec t g n D Hm Hsz' Ho Hs ltac:(lia))
      as (t' & -> & Hm' & _). by exists t'.
  - destruct (equal_range_models hash_key StoreHash entry_has_room t g k X D Hm Hg Hcr Ho) as (i & j & -> & Hspec).
    cbn [mbind option_bind]. exists t. destruct (g !! k) as [v|].
    + destruct Hspec as [Hh' ->]. rewrite (proj2 (Z.eqb_neq _ _)), (value_at_holds t i k v Hh'); [done|].
      pose proof (begin_from_le (drop (S (Z.to_nat i)) (m_buckets_data t)) (i + 1)). lia.
    + destruct Hspec as [_ ->]. by rewrite Z.eqb_refl.
Qed.

Lemma run_table_models X D ops : ∀ (t : table) g,
  models t g → dom g ⊆ X → crowd X D → Forall (op_ok X) ops →
  ∃ t', run_table t ops = Some (t', (run_map g ops).2) ∧ models t' (run_map g ops).1.
Proof using Hvec.
  induction ops as [|o ops IH]; intros t g Hm Hg HX Ho; [by exists t|]. apply Forall_cons in Ho as [Ho Hops].
  destruct (table_step_models t g o X D Hm Hg HX Ho) as (t1 & Ht1 & Hm1).
  destruct (IH t1 (map_step g o).1 Hm1 (map_step_dom g o X Hg Ho) HX Hops) as (t' & Ht' & Hm').
  exists t'. cbn [run_table run_map]. rewrite Ht1. cbn [mbind option_bind]. rewrite Ht'. cbn [mbind option_bind].
  destruct (map_step g o) as [g1 a]. cbn [fst snd] in *. by destruct (run_map g1 ops).
Qed.

Lemma run_from_new count f X D ops :
  0 ≤ count ≤ 2 ^ 38 → load_ok (G := G) (sf_clamp f MINIMUM_MAX_LOAD_FACTOR MAXIMUM_MAX_LOAD_FACTOR) →
  crowd X D → Forall (op_ok X) ops →
  ∃ t t', robin_new (K := K) (V := V) (G := G) vector_max_size count DEFAULT_MIN_LOAD_FACTOR f = Some t ∧
    run_table t ops = Some (t', (run_map ∅ ops).2) ∧ models t' (run_map ∅ ops).1.
Proof using Hvec.
  intros Hc Hf HX Hops.
  destruct (robin_new_ok (V := V) hash_key StoreHash entry_has_room vector_max_size Hvec count f Hc Hf)
    as (g & n & th & Hnew & _ & Hn & Hsh).
  pose proof (fresh_models hash_key StoreHash entry_has_room g n th _ Hsh ltac:(lia)) as Hm.
  destruct (run_table_models X D ops _ ∅ Hm ltac:(rewrite dom_empty_L; apply empty_subseteq) HX Hops) as (t' & Ht' & Hm').
  exists (fresh_table g n th (sf_clamp f MINIMUM_MAX_LOAD_FACTOR MAXIMUM_MAX_LOAD_FACTOR)), t'. done.
Qed.

(** Any run of insertions (hinted and ranged ones too), assignments, erasures, lookups,
    clears, reservations, rehashes and load-factor changes on a newly built [robin_map] is defined and gives the answers of a finite map,
    as long as no arc of buckets is selected by 4095 more keys than it has buckets, which
    at most 4095 keys cannot do. *)
Theorem robin_run_as_map count f X D ops :
  0 ≤ count ≤ 2 ^ 38 → load_ok (G := G) (sf_clamp f MINIMUM_MAX_LOAD_FACTOR MAXIMUM_MAX_LOAD_FACTOR) →
  crowd X D → Forall (op_ok X) ops →
  ∃ t t', robin_new (K := K) (V := V) (G := G) vector_max_size count DEFAULT_MIN_LOAD_FACTOR f = Some t ∧
    run_table t ops = Some (t', (run_map ∅ ops).2) ∧
    ∃ l, iterate (loop_fuel t') t' (begin t') = Some l ∧ l ≡ₚ map_to_list (run_map ∅ ops).1.
Proof using Hvec.
  intros Hc Hf HX Hops. destruct (run_from_new count f X D ops Hc Hf HX Hops) as (t & t' & Ht & Ht' & Hm).
  exists t, t'. split; [done|]. split; [done|]. by apply (iteration_models hash_key StoreHash entry_has_room).
Qed.

(** C17: Every table reached by a run is well formed: its entries are where their hashes put
    them, a run of entries starts in an ideal bucket and distances grow by at most one, no
    key is stored twice, some bucket is empty, the counters are right, and no distance
    is above the crowding of the keys, far below what makes the table grow or an
    [int16_t] wrap. *)
Theorem robin_run_well_formed count f X D ops t t' l :
  0 ≤ count ≤ 2 ^ 38 → load_ok (G := G) (sf_clamp f MINIMUM_MAX_LOAD_FACTOR MAXIMUM_MAX_LOAD_FACTOR) →
  crowd X D → Forall (op_ok X) ops →
  robin_new (K := K) (V := V) (G := G) vector_max_size count DEFAULT_MIN_LOAD_FACTOR f = Some t →
  run_table t ops = Some (t', l) →
  m_nb_elements t' = Z.of_nat (length (entries t')) ∧ m_nb_elements t' < Z.max 1 (m_bucket_count t') ∧
  m_grow_on_next_insert t' = false ∧
  (m_buckets_data t' = [] ∨
   array_ok hash_key StoreHash entry_has_room t' ∧ hole t' ∧ ∀ j, -1 ≤ ds t' j ≤ D).
Proof using Hvec.
  intros Hc Hf HX Hops Hnew Hrun. destruct (run_from_new count f X D ops Hc Hf HX Hops) as (t1 & t2 & Ht & Ht' & Hm).
  rewrite Hnew in Ht. injection Ht as <-. rewrite Hrun in Ht'. injection Ht' as <- _.
  set (g := (run_map ∅ ops).1) in *. pose proof Hm as [Hsh He Hn Hr].
  split; [rewrite Hn, He; by rewrite length_map_to_list|]. split; [done|]. split; [apply Hsh|].
  destruct (sh_array _ _ _ _ Hsh) as [[Hd _]|Hok]; [by left|right].
  pose proof (hole_of_models hash_key StoreHash entry_has_room t' g Hok Hm) as Hh. split; [done|]. split; [done|].
  intros j. split; [by apply (ds_lower hash_key StoreHash entry_has_room)|].
  destruct (Z.lt_ge_cases (ds t' j) 0) as [|Hj]; [pose proof (cr_limit hash_key X D HX); lia|].
  apply (spread_bound hash_key StoreHash entry_has_room t' X D Hok Hh (cr_spread hash_key X D HX)); [|done].
  intros k Hk. apply (run_map_dom X ops ∅ ltac:(rewrite dom_empty_L; apply empty_subseteq) Hops).
  by apply (key_dom t' g He).
Qed.
End run.

(** ** Instances: keys that collide, in a table that has to grow *)
Definition demo_ops : list (table_op Z Z) :=
  [OpAssign 4 40; OpAssign 5 50; OpInsertOrAssign 4 41; OpTryEmplace 5 0; OpErase 4; OpAssign 9 90; OpAssign 8 80;
   OpFind 5; OpFind 4; OpContains 8; OpMaxLoadFactor (f32_lit 75 2); OpClear; OpAssign 5 1;
   OpReserve 20; OpInsertRange true [(4, 1); (5, 2); (9, 3)]; OpTryEmplaceHint 4 9 7; OpInsertOrAssignHint 5 5 6; OpRehash 0;
   OpEqualRange 9; OpEqualRange 8].

Definition demo_key (k : Z) : option Z := Some (u64 (k / 2)).
Definition demo_keys : gset Z := {[4; 5; 8; 9]}.

Lemma demo_crowd : crowd (G := power_of_two_growth_policy) demo_key demo_keys 3.
Proof.
  split.
  - intros k _. exists (u64 (k / 2)). split; [done|]. by apply fits_wrap.
  - by apply spread_small.
  - done.
  - done.
Qed.

Lemma demo_ops_ok : Forall (op_ok (G := power_of_two_growth_policy) (V := Z) demo_keys) demo_ops.
Proof.
  repeat (apply Forall_cons; split); try apply Forall_nil_2; cbn [op_ok];
    try (apply (bool_decide_unpack _); vm_compute; exact I); try exact I. by apply load_ok_pow2.
Qed.

Lemma robin_run_as_map_witness :
  ∃ t t' : robin_hash Z Z power_of_two_growth_policy,
    robin_new (2 ^ 60) 2 DEFAULT_MIN_LOAD_FACTOR DEFAULT_MAX_LOAD_FACTOR = Some t ∧
    run_table demo_key true true (2 ^ 60) 0 t demo_ops = Some (t', (run_map ∅ demo_ops).2).
Proof.
  destruct (robin_run_as_map (G := power_of_two_growth_policy) demo_key true true (2 ^ 60) 0 vectors_fit 2
    DEFAULT_MAX_LOAD_FACTOR demo_keys 3 demo_ops ltac:(lia) default_load_ok demo_crowd demo_ops_ok)
    as (t & t' & Ht & Ht' & _).
  exists t, t'. split; [exact Ht|exact Ht'].
Defined.

Lemma robin_run_well_formed_witness :
  ∃ (t t' : robin_hash Z Z power_of_two_growth_policy) l,
    run_table demo_key true true (2 ^ 60) 0 t demo_ops = Some (t', l) ∧ m_nb_elements t' = Z.of_nat (length (entries t')).
Proof.
  destruct (run_from_new (G := power_of_two_growth_policy) demo_key true true (2 ^ 60) 0 vectors_fit 2
    DEFAULT_MAX_LOAD_FACTOR demo_keys 3 demo_ops ltac:(lia) default_load_ok demo_crowd demo_ops_ok)
    as (t & t' & Ht & Ht' & _).
  exists t, t'. eexists. split; [exact Ht'|].
  apply (robin_run_well_formed (G := power_of_two_growth_policy) demo_key true true (2 ^ 60) 0 vectors_fit 2
    DEFAULT_MAX_LOAD_FACTOR demo_keys 3 demo_ops t t' _ ltac:(lia) default_load_ok demo_crowd demo_ops_ok Ht Ht').
Defined.
