(* ===== verification/RobinObjects.v ===== *)
(** * Several robin-hood tables: copies, moves and exchanges

    A program has its maps in variables. Each object has its own hash functor (the
    functors of the benchmarks hold their locations), which copies, moves and exchanges
    take along. A run over a store of tables answers what it would answer over a store of
    finite maps; a table that was moved from is empty and can be used again, and moving a
    table to itself empties it. *)
From stdpp Require Import gmap.
From S2P Require Import Prelude Words Floats RobinGrowth RobinTable RobinInv RobinProbe RobinLoad RobinMap RobinRefine RobinExtra RobinRun.

(** A [robin_map]: the base class that is the hash functor, and the table. *)
Record map_object {K V G : Type} := MapObject {
  ob_hash : K → option Z;
  ob_table : robin_hash K V G
}.
Arguments map_object : clear implicits.
Arguments MapObject {K V G}.

Inductive object_op {K V : Type} :=
  | OnObject (x : nat) (o : table_op K V)
  | CopyConstruct (x y : nat)  (** [robin_map x(y)] *)
  | MoveConstruct (x y : nat)  (** [robin_map x(std::move(y))] *)
  | CopyAssign (x y : nat)     (** [x = y] *)
  | MoveAssign (x y : nat)     (** [x = std::move(y)] *)
  | SwapObjects (x y : nat).   (** [x.swap(y)] *)
Arguments object_op : clear implicits.

Section objects.
Context {K V G : Type} `{Countable K} `{L : GrowthPolicyLaws G}.
Context (StoreHash entry_has_room : bool) (vector_max_size : Z) (dflt : V).

Abbreviation object := (map_object K V G).
Abbreviation models h := (models (K := K) (V := V) (G := G) h StoreHash entry_has_room).
Abbreviation crowd h := (crowd (G := G) h).

(** Moving a functor leaves it as it is: it holds pointers and integers. *)
Definition object_copy (other : object) : option object :=
  t ← copy (ob_table other); Some (MapObject (ob_hash other) t).

Definition object_move_construct (other : object) : object * object :=
  let '(t, u) := move_construct (ob_table other) in (MapObject (ob_hash other) t, MapObject (ob_hash other) u).

Definition object_swap (x y : object) : object * object :=
  let '(t, u) := swap (ob_table x) (ob_table y) in (MapObject (ob_hash y) t, MapObject (ob_hash x) u).

Definition object_clear (x : object) : object := MapObject (ob_hash x) (clear (ob_table x)).

Definition object_step (s : gmap nat object) (o : object_op K V)
    : option (gmap nat object * table_answer V) :=
  match o with
  | OnObject x o =>
      a ← s !! x;
      '(t, r) ← table_step (ob_hash a) StoreHash entry_has_room vector_max_size dflt (ob_table a) o;
      Some (<[x := MapObject (ob_hash a) t]> s, r)
  | CopyConstruct x y => b ← s !! y; a ← object_copy b; Some (<[x := a]> s, NoAnswer)
  | MoveConstruct x y =>
      b ← s !! y;
      let '(a, b) := object_move_construct b in Some (<[x := a]> (<[y := b]> s), NoAnswer)
  | CopyAssign x y =>
      if decide (x = y) then Some (s, NoAnswer)
      else b ← s !! y; a ← object_copy b; Some (<[x := a]> s, NoAnswer)
  | MoveAssign x y =>
      a ← s !! x; b ← s !! y;
      let '(b, a) := object_swap b a in
      let s := <[x := a]> (<[y := b]> s) in
      b ← s !! y; Some (<[y := object_clear b]> s, NoAnswer)
  | SwapObjects x y =>
      a ← s !! x; b ← s !! y;
      let '(a, b) := object_swap a b in Some (<[y := b]> (<[x := a]> s), NoAnswer)
  end.

(** The same on a store of maps. *)
Definition maps_step (s : gmap nat (gmap K V)) (o : object_op K V) : gmap nat (gmap K V) * table_answer V :=
  let at_ x := default ∅ (s !! x) in
  match o with
  | OnObject x o => let '(g, r) := map_step (at_ x) o in (<[x := g]> s, r)
  | CopyConstruct x y | CopyAssign x y => (<[x := at_ y]> s, NoAnswer)
  | MoveConstruct x y | MoveAssign x y => (<[y := ∅]> (<[x := at_ y]> s), NoAnswer)
  | SwapObjects x y => (<[y := at_ x]> (<[x := at_ y]> s), NoAnswer)
  end.

Fixpoint run_objects (s : gmap nat object) (ops : list (object_op K V))
    : option (gmap nat object * list (table_answer V)) :=
  match ops with
  | [] => Some (s, [])
  | o :: ops => '(s, a) ← object_step s o; '(s, l) ← run_objects s ops; Some (s, a :: l)
  end.

Fixpoint run_maps (s : gmap nat (gmap K V)) (ops : list (object_op K V))
    : gmap nat (gmap K V) * list (table_answer V) :=
  match ops with
  | [] => (s, [])
  | o :: ops => let '(s, a) := maps_step s o in let '(s, l) := run_maps s ops in (s, a :: l)
  end.

(** ** What holds of every object *)

Definition object_models (X : gset K) (D : Z) (a : object) (g : gmap K V) : Prop :=
  models (ob_hash a) (ob_table a) g ∧ crowd (ob_hash a) X D ∧ dom g ⊆ X.

Definition store_models (X : gset K) (D : Z) (s : gmap nat object) (m : gmap nat (gmap K V)) : Prop :=
  ∀ x, option_Forall2 (object_models X D) (s !! x) (m !! x).

(** The variables of the operation exist; a constructed variable is new. *)
Definition object_op_ok (X : gset K) (s : gmap nat (gmap K V)) (o : object_op K V) : Prop :=
  match o with
  | OnObject x o => is_Some (s !! x) ∧ op_ok (G := G) X o
  | CopyConstruct x y | MoveConstruct x y => s !! x = None ∧ is_Some (s !! y)
  | CopyAssign x y | MoveAssign x y | SwapObjects x y => is_Some (s !! x) ∧ is_Some (s !! y)
  end.

Fixpoint object_ops_ok (X : gset K) (s : gmap nat (gmap K V)) (ops : list (object_op K V)) : Prop :=
  match ops with
  | [] => True
  | o :: ops => object_op_ok X s o ∧ object_ops_ok X (maps_step s o).1 ops
  end.

Lemma store_insert X D s m x a g :
  store_models X D s m → object_models X D a g → store_models X D (<[x := a]> s) (<[x := g]> m).
Proof using.
  intros Hs Ha y. destruct (decide (y = x)) as [->|]; [rewrite !lookup_insert_eq; by constructor|].
  rewrite !lookup_insert_ne by done. apply Hs.
Qed.

Lemma store_lookup X D s m x :
  store_models X D s m → is_Some (m !! x) → ∃ a g, s !! x = Some a ∧ m !! x = Some g ∧ object_models X D a g.
Proof using. intros Hs [g Hg]. specialize (Hs x). rewrite Hg in Hs. inversion Hs; subst; eauto. Qed.

Lemma models_empty_dom (X : gset K) : dom (∅ : gmap K V) ⊆ X.
Proof using. rewrite dom_empty_L. apply empty_subseteq. Qed.

Lemma object_copy_models X D a g : object_models X D a g → object_copy a = Some a.
Proof using.
  intros (Hm & _). unfold object_copy. rewrite (copy_models _ _ _ _ g Hm). by destruct a.
Qed.

Lemma object_moved_models X D a g :
  object_models X D a g → object_models X D (object_move_construct a).1 g ∧ object_models X D (object_move_construct a).2 ∅.
Proof using.
  intros (Hm & HX & Hd). split; (split; [|split]); try done. by eapply clear_and_shrink_models.
Qed.

Lemma object_clear_models X D a g : object_models X D a g → object_models X D (object_clear a) ∅.
Proof using.
  intros (Hm & HX & Hd). split; [by eapply clear_models|]. split; [done|apply models_empty_dom].
Qed.

Lemma object_swap_eq (a b : object) : object_swap a b = (b, a).
Proof using. by destruct a, b. Qed.

Context (Hvec : 2 ^ 40 ≤ Z.min (gp_max_bucket_count (G := G)) vector_max_size).

Lemma object_step_models X D s m o :
  store_models X D s m → object_op_ok X m o →
  ∃ s', object_step s o = Some (s', (maps_step m o).2) ∧ store_models X D s' (maps_step m o).1.
Proof using Hvec.
  intros Hs Ho. destruct o as [x o|x y|x y|x y|x y|x y]; cbn [object_op_ok] in Ho; destruct Ho as [Hx Hy];
    cbn [object_step maps_step].
  - destruct (store_lookup X D s m x Hs Hx) as (a & g & -> & -> & Ha). pose proof Ha as (Hm & HX & Hd).
    cbn [mbind option_bind default from_option id].
    destruct (table_step_models (ob_hash a) StoreHash entry_has_room vector_max_size dflt Hvec _ g o X D Hm Hd HX Hy)
      as (t' & Ht' & Hm'). pose proof (map_step_dom g o X Hd Hy) as Hd'. rewrite Ht'. cbn [mbind option_bind].
    destruct (map_step g o) as [g' r]. cbn [fst snd] in *. eexists. split; [done|]. apply store_insert; [done|]. by split.
  - destruct (store_lookup X D s m y Hs Hy) as (b & g & -> & -> & Hb). cbn [mbind option_bind default from_option id].
    rewrite (object_copy_models X D b g Hb). eexists. split; [done|]. by apply store_insert.
  - destruct (store_lookup X D s m y Hs Hy) as (b & g & -> & Hg & Hb). rewrite Hg. cbn [mbind option_bind default from_option id].
    destruct (object_moved_models X D b g Hb) as [H1 H2]. destruct (object_move_construct b) as [a b'].
    eexists. split; [done|]. assert (x ≠ y) by (intros ->; congruence). cbn [fst snd] in *.
    rewrite (insert_insert_ne m) by done. apply store_insert; [|done]. by apply store_insert.
  - destruct (store_lookup X D s m y Hs Hy) as (b & g & Hsy & Hg & Hb). rewrite Hg. cbn [default from_option id].
    case_decide as Hxy; [subst; rewrite insert_id by done; by exists s|]. rewrite Hsy. cbn [mbind option_bind].
    rewrite (object_copy_models X D b g Hb). eexists. split; [done|]. by apply store_insert.
  - destruct (store_lookup X D s m x Hs Hx) as (a & ga & Hsx & Hga & Ha).
    destruct (store_lookup X D s m y Hs Hy) as (b & g & Hsy & Hg & Hb). rewrite Hsx, Hsy, Hg. cbn [mbind option_bind default from_option id].
    rewrite object_swap_eq. destruct (decide (x = y)) as [->|Hne].
    + rewrite !lookup_insert_eq. cbn [mbind option_bind]. eexists. split; [done|]. rewrite Hsx in Hsy. injection Hsy as <-.
      apply store_insert; [|by eapply object_clear_models]. rewrite insert_insert_eq. by apply store_insert.
    + rewrite lookup_insert_ne, lookup_insert_eq by done. cbn [mbind option_bind]. eexists. split; [done|].
      rewrite (insert_insert_ne s x y), insert_insert_eq by done. 
      apply store_insert; [|by eapply object_clear_models]. by apply store_insert.
  - destruct (store_lookup X D s m x Hs Hx) as (a & ga & -> & -> & Ha).
    destruct (store_lookup X D s m y Hs Hy) as (b & g & -> & -> & Hb). cbn [mbind option_bind default from_option id].
    rewrite object_swap_eq. eexists. split; [done|]. apply store_insert; [|done]. by apply store_insert.
Qed.

Lemma run_objects_models X D ops : ∀ s m,
  store_models X D s m → object_ops_ok X m ops →
  ∃ s', run_objects s ops = Some (s', (run_maps m ops).2) ∧ store_models X D s' (run_maps m ops).1.
Proof using Hvec.
  induction ops as [|o ops IH]; intros s m Hs Hops; [by exists s|]. destruct Hops as [Ho Hops].
  destruct (object_step_models X D s m o Hs Ho) as (s1 & Hs1 & Hm1). destruct (IH s1 _ Hm1 Hops) as (s' & Hs' & Hm').
  exists s'. cbn [run_objects run_maps]. rewrite Hs1. cbn [mbind option_bind]. rewrite Hs'. cbn [mbind option_bind].
  destruct (maps_step m o) as [m1 a]. cbn [fst snd] in *. by destruct (run_maps m1 ops).
Qed.
(** A newly built table. *)
Definition built (X : gset K) (D : Z) (a : object) : Prop :=
  crowd (ob_hash a) X D ∧ ∃ count f, 0 ≤ count ≤ 2 ^ 38 ∧
    load_ok (G := G) (sf_clamp f MINIMUM_MAX_LOAD_FACTOR MAXIMUM_MAX_LOAD_FACTOR) ∧
    robin_new vector_max_size count DEFAULT_MIN_LOAD_FACTOR f = Some (ob_table a).

Lemma built_models X D a : built X D a → object_models X D a ∅.
Proof using Hvec.
  intros (HX & count & f & Hc & Hf & Hnew). split; [|split; [done|apply models_empty_dom]].
  destruct (robin_new_ok (K := K) (V := V) (ob_hash a) StoreHash entry_has_room vector_max_size Hvec count f Hc Hf)
    as (g & n & th & Hn & _ & Hb & Hsh). rewrite Hnew in Hn. injection Hn as ->.
  apply (fresh_models _ _ _ g n th _ Hsh). lia.
Qed.

Lemma built_store X D s :
  map_Forall (λ _, built X D) s → store_models X D s ((λ _, ∅) <$> s).
Proof using Hvec.
  intros Hs x. rewrite lookup_fmap. destruct (s !! x) as [a|] eqn:Ha; constructor.
  by apply built_models, (Hs x).
Qed.

(** C10: A program over several newly built [robin_map]s, each with its own hash functor: any
    sequence of operations on them (insertions, hinted and ranged ones too, assignments,
    erasures, lookups, clears, reservations, rehashes, load-factor changes), of copies, moves
    and exchanges between them, self-assignment included, is defined, answers what it would
    on finite maps, and leaves in every table the entries of its map; a table that was moved
    from is empty, one moved to itself too. No arc of buckets may be selected by 4095 more
    of the keys than it has buckets, which at most 4095 keys cannot do. *)
Theorem robin_objects_as_maps X D s ops :
  map_Forall (λ _, built X D) s → object_ops_ok X ((λ _, ∅) <$> s) ops →
  ∃ s', run_objects s ops = Some (s', (run_maps ((λ _, ∅) <$> s) ops).2) ∧
    ∀ x g, (run_maps ((λ _, ∅) <$> s) ops).1 !! x = Some g →
      ∃ a l, s' !! x = Some a ∧ iterate (loop_fuel (ob_table a)) (ob_table a) (begin (ob_table a)) = Some l ∧
        l ≡ₚ map_to_list g.
Proof using Hvec.
  intros Hs Hops. destruct (run_objects_models X D ops s _ (built_store X D s Hs) Hops) as (s' & Hs' & Hm).
  exists s'. split; [done|]. intros x g Hg.
  destruct (store_lookup X D s' _ x Hm) as (a & g' & Ha & Hg' & Hag); [by eexists|]. rewrite Hg in Hg'. injection Hg' as <-.
  destruct (iteration_models (ob_hash a) StoreHash entry_has_room _ g (proj1 Hag)) as (l & Hl & Hp). by exists a, l.
Qed.
End objects.

(** ** An instance: two tables with different functors *)
Definition demo_other_key (k : Z) : option Z := Some (u64 (7 * k)).

Definition demo_new (h : Z → option Z) (count : Z) : option (map_object Z Z power_of_two_growth_policy) :=
  t ← robin_new (2 ^ 60) count DEFAULT_MIN_LOAD_FACTOR DEFAULT_MAX_LOAD_FACTOR; Some (MapObject h t).

Definition demo_store : gmap nat (map_object Z Z power_of_two_growth_policy) :=
  match demo_new demo_key 2, demo_new demo_other_key 0 with
  | Some a, Some b => {[0%nat := a; 1%nat := b]}
  | _, _ => ∅
  end.

Definition demo_objects : list (object_op Z Z) :=
  [OnObject 0 (OpAssign 4 40); OnObject 0 (OpAssign 5 50); CopyConstruct 2 0; OnObject 2 (OpErase 4);
   OnObject 1 (OpAssign 8 80); SwapObjects 0 1; OnObject 1 (OpFind 4); MoveAssign 0 1; OnObject 1 (OpAssign 9 90);
   MoveConstruct 3 0; OnObject 0 (OpContains 4); OnObject 3 (OpFind 5); MoveAssign 3 3; OnObject 3 (OpContains 5);
   CopyAssign 3 2; CopyAssign 3 3; OnObject 3 (OpFind 5)].

Lemma demo_built : map_Forall (λ _, built (2 ^ 60) demo_keys 3) demo_store.
Proof.
  assert (∀ h n a, demo_new h n = Some a → 0 ≤ n ≤ 2 ^ 38 → crowd (G := power_of_two_growth_policy) h demo_keys 3 →
    built (2 ^ 60) demo_keys 3 a) as Hb.
  { intros h n a Ha Hn Hh. unfold demo_new in Ha. apply bind_Some in Ha as (t & Ht & [= <-]). split; [done|].
    exists n, DEFAULT_MAX_LOAD_FACTOR. split; [done|]. split; [apply default_load_ok|exact Ht]. }
  assert (crowd (G := power_of_two_growth_policy) demo_other_key demo_keys 3) as Hc.
  { split; [|by apply spread_small|done|done]. intros k _. exists (u64 (7 * k)). split; [done|]. by apply fits_wrap. }
  unfold demo_store. destruct (demo_new demo_key 2) as [a|] eqn:Ha; [|apply map_Forall_empty].
  destruct (demo_new demo_other_key 0) as [b|] eqn:Hb'; [|apply map_Forall_empty].
  apply map_Forall_insert_2; [by apply (Hb _ _ _ Ha); [lia|apply demo_crowd]|].
  apply map_Forall_singleton. by apply (Hb _ _ _ Hb').
Qed.

Lemma demo_objects_ok : object_ops_ok (G := power_of_two_growth_policy) demo_keys ((λ _, ∅) <$> demo_store) demo_objects.
Proof.
  assert ((λ _, ∅) <$> demo_store = ({[0%nat := ∅; 1%nat := ∅]} : gmap nat (gmap Z Z))) as -> by (vm_compute; reflexivity).
  repeat (split; [cbn [object_op_ok op_ok]; split; try (apply (bool_decide_unpack _); vm_compute; exact I)|]);
    vm_compute; try exact I; eauto.
Qed.

Lemma robin_objects_as_maps_witness :
  ∃ s', run_objects true true (2 ^ 60) 0 demo_store demo_objects
    = Some (s', [NoAnswer; NoAnswer; NoAnswer; Erased 1; NoAnswer; NoAnswer; Found (Some 40); NoAnswer; NoAnswer;
                 NoAnswer; Contains false; Found (Some 50); NoAnswer; Contains false; NoAnswer; NoAnswer; Found (Some 50)]).
Proof.
  destruct (robin_objects_as_maps true true (2 ^ 60) 0 vectors_fit demo_keys 3 demo_store demo_objects
    demo_built demo_objects_ok) as (s' & Hs' & _).
  exists s'. rewrite Hs'. vm_compute. reflexivity.
Defined.
