(* ===== verification/RobinOverflow.v ===== *)
(** * Too many keys with one hash

    A distance is an [int16_t] and the probe loops stop at a bucket whose distance is
    smaller: after 32768 entries with the same hash the distance of the probe wraps to
    -32768, which is not larger than the -1 of an empty bucket, so the loop goes on over the
    empty buckets. Without the stored hash, or when it is 0 as that of a bucket never used,
    it compares the key with the entry of an empty bucket. Otherwise the distance climbs
    back to 0: in a table of 65536 buckets that is where the probe began, and it never ends. *)
From stdpp Require Import gmap.
From S2P Require Import Prelude Words Floats RobinGrowth RobinTable RobinInv RobinProbe RobinLoad RobinMap.

Section overflow.
Context {K V G : Type} `{Countable K} `{L : GrowthPolicyLaws G}.
Context (hash_key : K → option Z) (StoreHash entry_has_room : bool).

Abbreviation bucket := (bucket_entry K V).
Abbreviation table := (robin_hash K V G).
Abbreviation array_ok := (array_ok (V := V) (G := G) hash_key StoreHash entry_has_room).
Abbreviation models := (models (K := K) (V := V) (G := G) hash_key StoreHash entry_has_room).
Abbreviation ds_empty := (ds_empty hash_key StoreHash entry_has_room).

(** ** Keys with one hash are in consecutive buckets *)

Definition same_hash (h : Z) (g : gmap K V) : Prop := ∀ k, k ∈ dom g → hash_key k = Some h.

Lemma same_hash_ds (t : table) g h p j x :
  array_ok t → hole t → entries t ≡ₚ map_to_list g → same_hash h g →
  gp_bucket_for_hash (m_policy t) h = Some p → 0 ≤ x < size_of t → j `mod` size_of t = (p + x) `mod` size_of t →
  ds t j = -1 ∨ ds t j = x.
Proof using.
  intros Hok Hh He Hsame Hp Hx Hj. pose proof (ao_bucket _ _ _ t Hok j) as Hb. unfold bucket_ok in Hb.
  destruct (m_value (bk t j)) as [[k v]|] eqn:Hv; [right|by left]. destruct Hb as (Hd & h' & Hk & _ & _ & Hb).
  assert (k ∈ dom g) as Hkg.
  { apply (key_dom t g He). apply list_elem_of_fmap. exists (k, v). split; [done|]. apply entries_elem.
    exists (j `mod` size_of t). split; [apply Z.mod_pos_bound, Hok|by rewrite bk_mod]. }
  rewrite (Hsame k Hkg) in Hk. injection Hk as <-. rewrite Hp in Hb. injection Hb as Hb.
  fold (ds t j) in *. pose proof (ds_bound hash_key StoreHash entry_has_room t j Hok Hh).
  apply (mod_eq_near _ _ (size_of t) (ao_pos _ _ _ t Hok)); [|lia].
  rewrite Hb in Hj. rewrite Zplus_mod_idemp_l in Hj.
  transitivity ((j - ((j - ds t j + x) - x)) `mod` size_of t); [f_equal; lia|].
  rewrite <-Zminus_mod_idemp_l, Hj, Zminus_mod_idemp_l. f_equal. lia.
Qed.

Lemma same_hash_prefix (t : table) g h p x :
  array_ok t → hole t → entries t ≡ₚ map_to_list g → same_hash h g →
  gp_bucket_for_hash (m_policy t) h = Some p → 0 ≤ x < Z.of_nat (size g) → ds t (p + x) = x.
Proof using.
  intros Hok Hh He Hsame Hp Hx. pose proof (ao_pos _ _ _ t Hok) as Hn.
  assert (Z.of_nat (size g) ≤ size_of t) as Hsz.
  { pose proof (length_omap_le m_value (m_buckets_data t)) as Hl. fold (entries t) in Hl.
    rewrite He, length_map_to_list in Hl. unfold size_of. lia. }
  destruct (same_hash_ds t g h p (p + x) x Hok Hh He Hsame Hp ltac:(lia) eq_refl) as [Hd|]; [exfalso|done].
  assert (∀ y, x ≤ y < size_of t → m_value (bk t (p + y)) = None) as Hnone.
  { intros y Hy. apply (ds_empty t _ Hok).
    destruct (same_hash_ds t g h p (p + y) y Hok Hh He Hsame Hp ltac:(lia) eq_refl) as [|Hdy]; [done|].
    pose proof (run hash_key StoreHash entry_has_room t (p + y) (y - x) Hok ltac:(lia)) as Hr.
    replace (p + y - (y - x)) with (p + x) in Hr by lia. lia. }
  assert (∀ kv, kv ∈ entries t → kv ∈ omap (λ y, m_value (bk t (p + Z.of_nat y))) (seq 0 (Z.to_nat x))) as Hin.
  { intros [k v] (j & Hj & Hv)%entries_elem. apply list_elem_of_omap.
    exists (Z.to_nat ((j - p) `mod` size_of t)). pose proof (Z.mod_pos_bound (j - p) (size_of t) Hn) as Hjp.
    assert (bk t (p + (j - p) `mod` size_of t) = bk t j) as Hbk.
    { apply bk_mod_eq. rewrite Zplus_mod_idemp_r. f_equal. lia. }
    rewrite Z2Nat.id, Hbk by lia. split; [|done]. apply elem_of_seq.
    destruct (Z.lt_ge_cases ((j - p) `mod` size_of t) x) as [|Hge]; [lia|].
    specialize (Hnone ((j - p) `mod` size_of t) ltac:(lia)). congruence. }
  assert (NoDup (entries t)) as Hnd by (rewrite He; apply NoDup_map_to_list).
  pose proof (submseteq_length _ _ (NoDup_submseteq _ _ Hnd Hin)) as Hle.
  rewrite He, length_map_to_list in Hle at 1.
  pose proof (length_omap_le (λ y, m_value (bk t (p + Z.of_nat y))) (seq 0 (Z.to_nat x))) as Hle'.
  rewrite length_seq in Hle'. lia.
Qed.

(** ** Buckets never used *)

Definition pristine (t : table) : Prop :=
  Forall (λ b : bucket, m_value b = None → m_hash b = 0) (m_buckets_data t).

Lemma pristine_set (t t' : table) i b :
  pristine t → is_Some (m_value b) → set_bucket t i b = Some t' → pristine t'.
Proof using.
  intros Ht [kv Hb] Hs. unfold set_bucket in Hs. destruct (_ && _); [|done]. injection Hs as <-.
  unfold pristine. cbn. apply Forall_insert; [done|]. by rewrite Hb.
Qed.

Ltac set_full := match goal with
  | Hp : pristine ?t, Hs : set_bucket ?t _ _ = Some _ |- _ =>
      eapply (pristine_set _ _ _ _ Hp) in Hs; [|unfold set_value_of_empty_bucket; cbn; eauto]
  | Hw : swap_with_value_in_bucket _ _ _ _ _ _ = Some _ |- _ =>
      unfold swap_with_value_in_bucket in Hw; simplify_bind
  end.

Lemma insert_value_on_rehash_pristine fuel : ∀ (t t' : table) i d h kv,
  insert_value_on_rehash StoreHash entry_has_room fuel t i d h kv = Some t' → pristine t → pristine t'.
Proof using.
  induction fuel as [|fuel IH]; intros t t' i d h kv Ht Hp; [done|]. cbn in Ht. simplify_bind.
  destruct (_ <? _); [|by eapply IH]. destruct (bucket_empty _); [by set_full|].
  simplify_bind. destruct x0 as [b' [[d' h'] kv']]. set_full. simplify_bind. simplify_eq. set_full. by eapply IH.
Qed.

Lemma displace_pristine fuel : ∀ (t t' : table) i d h kv,
  displace StoreHash entry_has_room fuel t i d h kv = Some t' → pristine t → pristine t'.
Proof using.
  induction fuel as [|fuel IH]; intros t t' i d h kv Ht Hp; cbn in Ht; simplify_bind;
    (destruct (negb _); [|by set_full]); [done|].
  destruct (_ <? _); [|by eapply IH]. simplify_bind. destruct x0 as [b' [[d' h'] kv']].
  set_full. simplify_bind. simplify_eq. assert (pristine (if DIST_FROM_IDEAL_BUCKET_LIMIT <=? d then set_grow t true else t)) by by destruct (_ <=? _).
  set_full. by eapply IH.
Qed.

Lemma rehash_buckets_pristine use l : ∀ (t t' : table),
  rehash_buckets hash_key StoreHash entry_has_room use l t = Some t' → pristine t → pristine t'.
Proof using.
  induction l as [|b l IH]; intros t t' Ht Hp; cbn [rehash_buckets] in Ht; [by simplify_eq|].
  destruct (bucket_empty b); [by eapply IH|]. simplify_bind.
  eapply IH; [done|]. by eapply insert_value_on_rehash_pristine.
Qed.

Lemma new_buckets_pristine n : Forall (λ b : bucket, m_value b = None → m_hash b = 0) (new_buckets n).
Proof using.
  unfold new_buckets. destruct (Z.to_nat n); [constructor|]. apply Forall_app. split; [by apply Forall_replicate|].
  by constructor.
Qed.

(** ** The turns of a probe *)

Lemma i16_add_l a b : i16 (i16 a + b) = i16 (a + b).
Proof.
  unfold i16. f_equal. replace (wrap 16 (a + 2 ^ 15) - 2 ^ 15 + b + 2 ^ 15) with (wrap 16 (a + 2 ^ 15) + b) by lia.
  rewrite wrap_add_l. f_equal. lia.
Qed.

Lemma i16_wrapped x : 2 ^ 15 ≤ x < 2 ^ 16 + 2 ^ 15 → i16 x = x - 2 ^ 16.
Proof.
  intros Hx. unfold i16, wrap. replace (x + 2 ^ 15) with (x - 2 ^ 15 + 1 * 2 ^ 16) by lia.
  rewrite Z_mod_plus_full, Z.mod_small by lia. lia.
Qed.

Section turns.
Context (t : table) (k : K) (h p : Z) (Hok : array_ok t).

(** The probe from [p] after [x] turns. *)
Definition probe_after (fuel : nat) (x : Z) : option (bool * Z * Z) :=
  probe StoreHash entry_has_room fuel t k h ((p + x) `mod` size_of t) (i16 x).

(** It goes on: the distance is not too large, and the bucket does not match. *)
Definition goes_on (x : Z) : Prop :=
  i16 x ≤ ds t (p + x) ∧ bucket_matches (G := G) StoreHash entry_has_room (bk t (p + x)) k h = Some false.

Lemma probe_turns m : ∀ x, (∀ y, x ≤ y < x + Z.of_nat m → goes_on y) →
  ∀ fuel, probe_after (m + fuel) x = probe_after fuel (x + Z.of_nat m).
Proof using Hok L.
  pose proof (ao_pos _ _ _ t Hok) as Hn. induction m as [|m IH]; intros x Hx fuel; [f_equal; lia|].
  destruct (Hx x ltac:(lia)) as [Hle Hm]. cbn [Nat.add]. unfold probe_after at 1. cbn [probe].
  rewrite bucket_at_ok by done. cbn [mbind option_bind]. fold (ds t (p + x)).
  rewrite (proj2 (Z.leb_le _ _) Hle), Hm. cbn [mbind option_bind].
  rewrite (next_bucket_ok hash_key StoreHash entry_has_room), i16_add_l, <-Z.add_assoc by done.
  replace (x + Z.of_nat (S m)) with (x + 1 + Z.of_nat m) by lia. apply IH. intros y Hy. apply Hx. lia.
Qed.

Lemma probe_out_of_fuel m x : (∀ y, x ≤ y ≤ x + Z.of_nat m → goes_on y) → probe_after m x = None.
Proof using Hok L.
  intros Hx. rewrite <-(Nat.add_0_r m), probe_turns by (intros; apply Hx; lia). unfold probe_after. cbn [probe].
  rewrite bucket_at_ok by apply Hok. cbn [mbind option_bind]. fold (ds t (p + (x + Z.of_nat m))).
  destruct (Hx (x + Z.of_nat m) ltac:(lia)) as [Hle _]. by rewrite (proj2 (Z.leb_le _ _) Hle).
Qed.

Lemma probe_stops x fuel :
  ds t (p + x) < i16 x → probe_after fuel x = Some (false, (p + x) `mod` size_of t, i16 x).
Proof using Hok.
  intros Hd. unfold probe_after. destruct fuel; cbn [probe]; rewrite bucket_at_ok by apply Hok; cbn [mbind option_bind];
    fold (ds t (p + x)); by rewrite (proj2 (Z.leb_gt _ _) Hd).
Qed.

(** A probe that is back where it was does not end. *)
Lemma probe_cycle c : (0 < c)%nat → (∀ y, 0 ≤ y < Z.of_nat c → goes_on y) →
  (∀ fuel, probe_after fuel (Z.of_nat c) = probe_after fuel 0) → ∀ fuel, probe_after fuel 0 = None.
Proof using Hok L.
  intros Hc Hgo Hcyc fuel. induction fuel as [fuel IH] using lt_wf_ind.
  destruct (Nat.lt_ge_cases fuel c) as [Hlt|Hge].
  - apply probe_out_of_fuel. intros y Hy. apply Hgo. lia.
  - replace fuel with (c + (fuel - c))%nat by lia. rewrite probe_turns by (intros; apply Hgo; lia).
    rewrite Z.add_0_l, Hcyc. apply IH. lia.
Qed.
End turns.

(** ** One key more than the distances can count *)

Section chain.
Context (t : table) (g : gmap K V) (k : K) (h p : Z).
Context (Hok : array_ok t) (Hm : models t g) (Hg : same_hash h g) (Hp : pristine t) (Hsz : Z.of_nat (size g) = 2 ^ 15).
Context (Hk : k ∉ dom g) (Hph : gp_bucket_for_hash (m_policy t) h = Some p) (Hkh : hash_key k = Some h) (Hf : fits 64 h).

Lemma chain_room : 2 ^ 15 < size_of t.
Proof using Hok Hm Hsz.
  pose proof (mo_room _ _ _ t g Hm) as Hroom. rewrite (mo_count _ _ _ t g Hm), (ao_count _ _ _ t Hok) in Hroom. lia.
Qed.

(** The 32768 entries, in order. *)
Lemma chain_full x : 0 ≤ x < 2 ^ 15 →
  ds t (p + x) = x ∧ bucket_matches (G := G) StoreHash entry_has_room (bk t (p + x)) k h = Some false.
Proof using Hok Hm Hg Hsz Hk Hph Hkh L.
  intros Hx. pose proof (ao_pos _ _ _ t Hok) as Hn. pose proof (mo_entries _ _ _ t g Hm) as He.
  pose proof (hole_of_models _ _ _ t g Hok Hm) as Hh.
  assert (ds t (p + x) = x) as Hd by (apply (same_hash_prefix t g h p x); done || lia). split; [done|].
  destruct (m_value (bk t (p + x))) as [[k' v']|] eqn:Hv; [|apply (ds_empty t _ Hok) in Hv; lia].
  rewrite (matches_ok hash_key StoreHash entry_has_room t (p + x) (k', v') k h) by done. f_equal.
  apply bool_decide_eq_false_2. cbn [fst]. intros ->.
  apply Hk, (key_dom t g He), list_elem_of_fmap. exists (k, v'). split; [done|]. apply entries_elem.
  exists ((p + x) `mod` size_of t). split; [by apply Z.mod_pos_bound|by rewrite bk_mod].
Qed.

(** The other buckets, which were never used. *)
Lemma chain_empty x : 2 ^ 15 ≤ x < size_of t →
  ds t (p + x) = -1 ∧ m_value (bk t (p + x)) = None ∧ m_hash (bk t (p + x)) = 0.
Proof using Hok Hm Hg Hp Hsz Hph L.
  intros Hx. pose proof (ao_pos _ _ _ t Hok) as Hn. pose proof (mo_entries _ _ _ t g Hm) as He.
  pose proof (hole_of_models _ _ _ t g Hok Hm) as Hh.
  assert (ds t (p + x) = -1) as Hd.
  { destruct (same_hash_ds t g h p (p + x) x Hok Hh He Hg Hph ltac:(lia) eq_refl) as [|Hd]; [done|].
    pose proof (spread_bound hash_key StoreHash entry_has_room t (dom g) (2 ^ 15 - 1) Hok Hh) as Hb.
    specialize (Hb ltac:(apply spread_small; [lia|rewrite size_dom; lia]) (λ k Hin, proj1 (key_dom t g He k) Hin)
      (p + x)). lia. }
  assert (m_value (bk t (p + x)) = None) as Hv by by apply (ds_empty t _ Hok).
  split; [done|]. split; [done|].
  pose proof (bk_lookup t (p + x) Hn) as Hi. by apply (Forall_lookup_1 _ _ _ _ Hp Hi).
Qed.

Lemma chain_wrap x c : bk t (p + (x + c * size_of t)) = bk t (p + x).
Proof. apply bk_mod_eq. rewrite Z.add_assoc. apply Z_mod_plus_full. Qed.

(** The buckets that the hash tells apart without a look at the entry. *)
Lemma chain_goes_on x : StoreHash = true → u32 h ≠ 0 →
  0 ≤ x → x < 2 ^ 16 ∨ size_of t ≤ 2 ^ 16 ∧ x < size_of t + 2 ^ 15 → goes_on t k h p x.
Proof using Hok Hm Hg Hp Hsz Hk Hph Hkh L.
  intros HS Hh0 Hx0 Hx. pose proof chain_room. unfold goes_on.
  destruct (Z.lt_ge_cases x (2 ^ 15)) as [Hlt|Hge].
  { destruct (chain_full x) as [Hd Hm']; [lia|]. rewrite i16_small by lia. split; [lia|done]. }
  rewrite i16_wrapped by lia. destruct (Z.lt_ge_cases x (size_of t)) as [Hn|Hn].
  - destruct (chain_empty x) as (Hd & _ & Hhash); [lia|]. split; [lia|].
    unfold bucket_matches, USE_STORED_HASH_ON_LOOKUP, bucket_hash_equal, STORE_HASH. rewrite HS, Hhash. cbn [negb orb].
    by rewrite (proj2 (Z.eqb_neq 0 (u32 h))).
  - assert (bk t (p + x) = bk t (p + (x - size_of t))) as Hb.
    { rewrite <-(chain_wrap (x - size_of t) 1). do 2 f_equal. lia. }
    unfold ds. rewrite Hb. fold (ds t (p + (x - size_of t))). destruct (chain_full (x - size_of t)) as [Hd Hm']; [lia|]. split; [lia|done].
Qed.

Lemma probe_after_0 fuel : probe_after t k h p fuel 0 = probe StoreHash entry_has_room fuel t k h p 0.
Proof using Hok Hph Hf Hsz L.
  pose proof (ao_pos _ _ _ t Hok). unfold probe_after.
  destruct (gp_bucket_ok (m_policy t) (size_of t) h (ao_policy _ _ _ t Hok) Hf) as (p' & Hp' & Hr).
  rewrite Hph in Hp'. injection Hp' as <-. by rewrite Z.add_0_r, Z.mod_small by lia.
Qed.

(** In 65536 buckets the probe comes back to its start. *)
Lemma chain_cycle c : StoreHash = true → u32 h ≠ 0 → size_of t = 2 ^ 16 → Z.of_nat c = 2 ^ 16 →
  (∀ fuel, probe_after t k h p (c + fuel) 0 = probe_after t k h p fuel 0) ∧ ∀ fuel, probe_after t k h p fuel 0 = None.
Proof using Hok Hm Hg Hp Hsz Hk Hph Hkh L.
  intros HS Hh0 Heq Hc.
  assert (∀ y, 0 ≤ y < 0 + Z.of_nat c → goes_on t k h p y) as Hgo by (intros; apply chain_goes_on; [done|done|lia|lia]).
  assert (∀ fuel, probe_after t k h p fuel (Z.of_nat c) = probe_after t k h p fuel 0) as Hcyc.
  { intros fuel. unfold probe_after. rewrite Hc.
    replace (p + 2 ^ 16) with (p + 0 + 1 * size_of t) by lia. by rewrite Z_mod_plus_full. }
  split.
  - intros fuel. rewrite probe_turns by done. apply Hcyc.
  - by apply (probe_cycle t k h p Hok c); [lia|..].
Qed.

(** In any other number it ends. *)
Lemma chain_ends : StoreHash = true → u32 h ≠ 0 → size_of t ≠ 2 ^ 16 →
  ∃ fuel i d, probe_after t k h p fuel 0 = Some (false, i, d).
Proof using Hok Hm Hg Hp Hsz Hk Hph Hkh L.
  intros HS Hh0 Hne. pose proof chain_room.
  assert (∃ m, ds t (p + Z.of_nat m) < i16 (Z.of_nat m) ∧ ∀ y, 0 ≤ y < 0 + Z.of_nat m → goes_on t k h p y)
    as (m & Hstop & Hgo).
  { destruct (Z.lt_ge_cases (size_of t) (2 ^ 16)) as [Hlt|Hge].
    - exists (Z.to_nat (size_of t + 2 ^ 15)). rewrite Z2Nat.id by lia.
      split; [|intros; apply chain_goes_on; [done|done|lia|lia]].
      rewrite i16_wrapped by lia. unfold ds. replace (size_of t + 2 ^ 15) with (2 ^ 15 + 1 * size_of t) at 1 by lia.
      rewrite chain_wrap. fold (ds t (p + 2 ^ 15)). destruct (chain_empty (2 ^ 15)) as [-> _]; lia.
    - exists (Z.to_nat (2 ^ 16)). rewrite Z2Nat.id by lia.
      split; [|intros; apply chain_goes_on; [done|done|lia|lia]].
      destruct (chain_empty (2 ^ 16)) as [-> _]; [lia|]. done. }
  exists (m + 0)%nat. do 2 eexists. rewrite probe_turns by done. by apply probe_stops.
Qed.

(** Without a hash to tell them apart, the key is compared with an entry that is not there. *)
Lemma chain_undefined c : StoreHash && negb (u32 h =? 0) = false → Z.of_nat c = 2 ^ 15 →
  (∀ fuel, probe_after t k h p (c + fuel) 0
    = probe StoreHash entry_has_room fuel t k h ((p + 2 ^ 15) `mod` size_of t) (- 2 ^ 15)) ∧
  m_value (bk t (p + 2 ^ 15)) = None ∧
  bucket_matches (G := G) StoreHash entry_has_room (bk t (p + 2 ^ 15)) k h = None ∧
  ∀ fuel, probe_after t k h p fuel 0 = None.
Proof using Hok Hm Hg Hp Hsz Hk Hph Hkh L.
  intros Hcase Hc. pose proof chain_room. destruct (chain_empty (2 ^ 15)) as (Hd & Hv & Hhash); [lia|].
  assert (bucket_matches (G := G) StoreHash entry_has_room (bk t (p + 2 ^ 15)) k h = None) as Hbad.
  { unfold bucket_matches, USE_STORED_HASH_ON_LOOKUP, bucket_hash_equal, STORE_HASH. rewrite Hhash, Hv.
    destruct StoreHash; [|done]. cbn [andb negb orb] in *. apply negb_false_iff, Z.eqb_eq in Hcase. by rewrite Hcase. }
  assert (∀ y, 0 ≤ y < 0 + Z.of_nat c → goes_on t k h p y) as Hgo.
  { intros y Hy. destruct (chain_full y) as [Hdy Hmy]; [lia|]. unfold goes_on. rewrite i16_small by lia. split; [lia|done]. }
  assert (∀ fuel, probe_after t k h p (c + fuel) 0
    = probe StoreHash entry_has_room fuel t k h ((p + 2 ^ 15) `mod` size_of t) (- 2 ^ 15)) as Hto.
  { intros fuel. rewrite probe_turns by done. unfold probe_after. by rewrite Hc. }
  split; [exact Hto|]. split; [done|]. split; [done|]. intros fuel. destruct (Nat.lt_ge_cases fuel c) as [Hlt|Hge].
  - apply probe_out_of_fuel; [done|]. intros y Hy. apply Hgo. lia.
  - replace fuel with (c + (fuel - c))%nat by lia. rewrite Hto.
    destruct (fuel - c)%nat; cbn [probe]; rewrite bucket_at_ok by apply Hok; cbn [mbind option_bind];
      fold (ds t (p + 2 ^ 15)); rewrite Hd; [done|]. change (- 2 ^ 15 <=? -1) with true. by rewrite Hbad.
Qed.
End chain.

Context (vector_max_size : Z).

Lemma robin_new_pristine n f f' (t : table) : robin_new vector_max_size n f f' = Some t → pristine t.
Proof using.
  unfold robin_new. intros Ht. simplify_bind. destruct x as [g n']. destruct (_ <? _); [done|].
  unfold max_load_factor in Ht. simplify_bind. subst t. apply new_buckets_pristine.
Qed.

Lemma rehash_impl_pristine (t t' : table) n :
  rehash_impl hash_key StoreHash entry_has_room vector_max_size t n = Some t' → pristine t'.
Proof using.
  unfold rehash_impl. intros Ht. simplify_bind. subst t'.
  apply (rehash_buckets_pristine _ _ _ _ Hx0). by eapply robin_new_pristine.
Qed.

Lemma rehash_on_extreme_load_pristine (t t' : table) b :
  rehash_on_extreme_load hash_key StoreHash entry_has_room vector_max_size t = Some (t', b) → pristine t → pristine t'.
Proof using.
  unfold rehash_on_extreme_load, reserve, rehash. intros Ht Hp. destruct (_ || _).
  { simplify_bind. simplify_eq. by eapply rehash_impl_pristine in Hx0. }
  destruct (m_try_shrink_on_next_insert t); [|by simplify_eq]. destruct (_ && _); [|by simplify_eq].
  simplify_bind. simplify_eq. by eapply rehash_impl_pristine.
Qed.

Lemma subscript_pristine dflt (t t' : table) k v :
  subscript_assign hash_key StoreHash entry_has_room vector_max_size dflt t k v = Some t' → pristine t → pristine t'.
Proof using.
  unfold subscript_assign, try_emplace, insert_impl, assign_value. intros Ht Hp. simplify_bind.
  destruct x as [t1 [i b]]. simplify_bind. assert (pristine t1) as Hp1; [|by set_full].
  simplify_bind. destruct x2 as [[found i'] d]. destruct found; [by simplify_eq|]. simplify_bind.
  destruct x2 as [t2 rehashed]. simplify_bind. destruct x2 as [i2 d2]. simplify_bind. simplify_eq.
  assert (pristine t2) as Hp2 by by eapply rehash_on_extreme_load_pristine. change (pristine x4).
  destruct (bucket_empty _); [by set_full|]. unfold insert_value_impl in *. simplify_bind.
  match goal with H : swap_with_value_in_bucket _ _ _ _ _ _ = Some ?y |- _ => destruct y as [b' [[d' h'] kv']] end.
  set_full. simplify_bind. simplify_eq. set_full. by eapply displace_pristine.
Qed.

(** ** Insertions that do not make the table grow *)

Definition same_size (t t' : table) : Prop :=
  m_bucket_count t' = m_bucket_count t ∧ m_load_threshold t' = m_load_threshold t.

Lemma set_bucket_size (t t' : table) i b : set_bucket t i b = Some t' → same_size t t'.
Proof using. unfold set_bucket. destruct (_ && _); [|done]. by intros [= <-]. Qed.

Lemma same_size_trans (t1 t2 t3 : table) : same_size t1 t2 → same_size t2 t3 → same_size t1 t3.
Proof using. unfold same_size. intros [-> ->] [-> ->]. done. Qed.

Lemma displace_size fuel : ∀ (t t' : table) i d h kv,
  displace StoreHash entry_has_room fuel t i d h kv = Some t' → same_size t t'.
Proof using.
  induction fuel as [|fuel IH]; intros t t' i d h kv Ht; cbn in Ht; simplify_bind;
    (destruct (negb _); [|by eapply set_bucket_size]); [done|].
  destruct (_ <? _); [|by eapply IH]. simplify_bind. destruct x0 as [b' [[d' h'] kv']]. simplify_bind.
  eapply same_size_trans; [|by eapply IH].
  match goal with Hs : set_bucket _ _ _ = Some _ |- _ => apply set_bucket_size in Hs as [Hc Hth] end. unfold same_size. rewrite Hc, Hth. by destruct (_ <=? _).
Qed.

Lemma no_rehash (t : table) g :
  models t g → m_nb_elements t < m_load_threshold t →
  rehash_on_extreme_load hash_key StoreHash entry_has_room vector_max_size t
  = Some (if m_try_shrink_on_next_insert t then set_shrink t false else t, false).
Proof using.
  intros Hm Hlt. destruct (mo_shape _ _ _ t g Hm) as [_ _ _ Hmin _ Hgrow].
  unfold rehash_on_extreme_load. rewrite Hgrow, (proj2 (Z.leb_gt _ _)) by done. cbn [orb].
  destruct (m_try_shrink_on_next_insert t); [|done]. cbn [set_shrink m_min_load_factor]. by rewrite Hmin.
Qed.

Lemma insert_impl_size (t t' : table) g k kv r :
  models t g → m_nb_elements t < m_load_threshold t →
  insert_impl hash_key StoreHash entry_has_room vector_max_size t k kv = Some (t', r) → same_size t t'.
Proof using.
  intros Hm Hlt Ht. unfold insert_impl in Ht. rewrite (no_rehash t g Hm Hlt) in Ht.
  set (t2 := if m_try_shrink_on_next_insert t then set_shrink t false else t) in *.
  assert (same_size t t2) as Ht2 by (unfold t2; by destruct (m_try_shrink_on_next_insert t)).
  clearbody t2. simplify_bind. destruct x1 as [[found i'] d]. destruct found; [by simplify_eq|].
  cbn [mbind option_bind] in Ht. simplify_bind. simplify_eq. refine (same_size_trans _ _ _ Ht2 _).
  match goal with |- same_size t2 (set_nb_elements ?t3 _) => change (same_size t2 t3) end.
  destruct (bucket_empty _); [by eapply set_bucket_size|]. unfold insert_value_impl in *. simplify_bind.
  match goal with H : swap_with_value_in_bucket _ _ _ _ _ _ = Some ?y |- _ => destruct y as [b' [[d' h'] kv']] end.
  simplify_bind. eapply same_size_trans; [by eapply set_bucket_size|by eapply displace_size].
Qed.

Lemma subscript_size dflt (t t' : table) g k v :
  models t g → m_nb_elements t < m_load_threshold t →
  subscript_assign hash_key StoreHash entry_has_room vector_max_size dflt t k v = Some t' → same_size t t'.
Proof using.
  intros Hm Hlt Ht. unfold subscript_assign, try_emplace, assign_value in Ht. simplify_bind. destruct x as [t1 [i b]].
  simplify_bind. apply set_bucket_size in Ht. refine (same_size_trans _ _ _ _ Ht). by eapply insert_impl_size.
Qed.

(** ** The chain of equal hashes *)

(** [for (k : l) map[k] = v] *)
Fixpoint assign_all (dflt : V) (t : table) (l : list K) (v : V) : option table :=
  match l with
  | [] => Some t
  | k :: l =>
      t ← subscript_assign hash_key StoreHash entry_has_room vector_max_size dflt t k v;
      assign_all dflt t l v
  end.

Fixpoint map_of (g : gmap K V) (l : list K) (v : V) : gmap K V :=
  match l with [] => g | k :: l => map_of (<[k:=v]> g) l v end.

Lemma map_of_lookup l v k : ∀ g, map_of g l v !! k = if decide (k ∈ l) then Some v else g !! k.
Proof using.
  induction l as [|k' l IH]; intros g; [done|]. cbn [map_of]. rewrite IH.
  destruct (decide (k ∈ l)); [rewrite decide_True; [done|by right]|].
  destruct (decide (k = k')) as [->|Hne].
  - rewrite lookup_insert_eq, decide_True; [done|by left].
  - rewrite lookup_insert_ne, decide_False; [done| |done]. intros [?|?]%elem_of_cons; done.
Qed.

Lemma map_of_size l v : ∀ g, NoDup l → (∀ k, k ∈ l → g !! k = None) → size (map_of g l v) = (size g + length l)%nat.
Proof using.
  induction l as [|k l IH]; intros g Hnd Hg; cbn [map_of length]; [lia|]. apply NoDup_cons in Hnd as [Hk Hnd].
  rewrite IH; [|done|].
  - rewrite map_size_insert_None by (apply Hg; by left). lia.
  - intros k' Hk'. rewrite lookup_insert_ne by congruence. apply Hg. by right.
Qed.

Lemma same_hash_insert h k v g : same_hash h g → hash_key k = Some h → same_hash h (<[k:=v]> g).
Proof using.
  intros Hg Hk k'. rewrite dom_insert. intros [->%elem_of_singleton|Hk']%elem_of_union; [done|by apply Hg].
Qed.

Context (Hvec : 2 ^ 40 ≤ Z.min (gp_max_bucket_count (G := G)) vector_max_size).

(** Up to 32768 keys with one hash can be inserted, in the same buckets if the load allows it. *)
Lemma assign_all_models dflt l v h : ∀ (t : table) g,
  models t g → same_hash h g → pristine t → fits 64 h → (∀ k, k ∈ l → hash_key k = Some h) →
  Z.of_nat (size g + length l) ≤ 2 ^ 15 →
  ∃ t', assign_all dflt t l v = Some t' ∧ models t' (map_of g l v) ∧ pristine t' ∧
    (2 ^ 15 ≤ m_load_threshold t → same_size t t').
Proof using Hvec.
  induction l as [|k l IH]; intros t g Hm Hg Hp Hf Hl Hsz; [by exists t|]. cbn [assign_all map_of length] in *.
  assert (hash_key k = Some h) as Hk by (apply Hl; by left).
  destruct (subscript_models hash_key StoreHash entry_has_room vector_max_size Hvec t g k v dflt
    (Z.max 0 (Z.of_nat (size g) - 1)) Hm) as (t1 & Ht1 & Hm1).
  { lia. }
  { apply spread_small; [lia|]. rewrite size_dom. lia. }
  { lia. }
  { right. intros k' Hk'. by rewrite (Hg k' Hk'), Hk. }
  { by exists h. }
  rewrite Ht1. cbn [mbind option_bind].
  assert (2 ^ 15 ≤ m_load_threshold t → same_size t t1) as Hs1.
  { intros Hth. eapply subscript_size; [exact Hm| |exact Ht1]. rewrite (mo_count _ _ _ t g Hm). lia. }
  destruct (IH t1 (<[k:=v]> g)) as (t' & Ht' & Hm' & Hp' & Hs'); [done| | |done| | |].
  - by apply same_hash_insert.
  - by eapply subscript_pristine.
  - intros k' Hk'. apply Hl. by right.
  - destruct (g !! k) as [w|] eqn:Hgk;
      [rewrite (map_size_insert_Some _ _ _ (mk_is_Some _ _ Hgk))|rewrite (map_size_insert_None _ _ _ Hgk)]; lia.
  - exists t'. split; [done|]. split; [done|]. split; [done|]. intros Hth.
    eapply same_size_trans; [by apply Hs1|]. apply Hs'. destruct (Hs1 Hth) as [_ ->]. done.
Qed.

(** The table with 32768 keys of one hash, and another key with that hash. *)
Lemma chain_built dflt v l k h f count :
  0 ≤ count ≤ 2 ^ 38 →
  load_ok (G := G) (sf_clamp f MINIMUM_MAX_LOAD_FACTOR MAXIMUM_MAX_LOAD_FACTOR) → fits 64 h →
  NoDup l → Z.of_nat (length l) = 2 ^ 15 → k ∉ l → (∀ k', k' = k ∨ k' ∈ l → hash_key k' = Some h) →
  ∃ t0 t g, robin_new vector_max_size count DEFAULT_MIN_LOAD_FACTOR f = Some t0 ∧ assign_all dflt t0 l v = Some t ∧
    (∀ k' v' , (k', v') ∈ entries t ↔ k' ∈ l ∧ v' = v) ∧
    (2 ^ 15 ≤ m_load_threshold t0 → m_bucket_count t = m_bucket_count t0) ∧
    array_ok t ∧ models t g ∧ same_hash h g ∧ pristine t ∧ Z.of_nat (size g) = 2 ^ 15 ∧ k ∉ dom g.
Proof using H Hvec.
  intros Hcount Hlf Hf Hnd Hlen Hk Hl.
  destruct (robin_new_ok (V := V) hash_key StoreHash entry_has_room vector_max_size Hvec count f ltac:(lia) Hlf)
    as (g & n & th & Hnew & _ & Hn & Hsh).
  pose proof (fresh_models hash_key StoreHash entry_has_room g n th _ Hsh ltac:(lia)) as Hm0.
  eexists. rewrite Hnew. pose proof (robin_new_pristine _ _ _ _ Hnew) as Hp0. set (t0 := fresh_table g n th _) in *.
  destruct (assign_all_models dflt l v h t0 ∅ Hm0) as (t & Ht & Hm & Hp & Hs); try done.
  { intros k' Hk'. apply Hl. by right. }
  { rewrite map_size_empty. lia. }
  exists t, (map_of ∅ l v). split; [done|]. split; [done|]. set (g' := map_of ∅ l v) in *.
  assert (∀ k', g' !! k' = if decide (k' ∈ l) then Some v else None) as Hg' by (intros k'; apply map_of_lookup).
  assert (Z.of_nat (size g') = 2 ^ 15) as Hsz.
  { unfold g'. rewrite map_of_size, map_size_empty; [done|done|]. intros. apply lookup_empty. }
  split; [|split; [by intros Hth; destruct (Hs Hth)|split; [|split; [done|split; [|split; [done|split; [done|]]]]]]].
  - intros k' v'. rewrite (mo_entries _ _ _ t g' Hm), elem_of_map_to_list, Hg'. case_decide.
    + split; [by intros [= <-]|by intros [_ ->]].
    + by split; [|intros []].
  - destruct (sh_array _ _ _ t (mo_shape _ _ _ t g' Hm)) as [(_ & Hz & _)|]; [|done].
    pose proof (mo_room _ _ _ t g' Hm) as Hr. rewrite (mo_count _ _ _ t g' Hm), Hz in Hr. lia.
  - intros k' Hk'. apply Hl. right. apply elem_of_dom in Hk' as [w Hw]. rewrite Hg' in Hw. by case_decide.
  - rewrite not_elem_of_dom, Hg'. by rewrite decide_False.
Qed.

(** C38: When 32768 keys with one hash are in the table, looking up another key with that
    hash goes wrong. If the table does not compare stored hashes, or the stored half of the hash
    is 0, the key is compared with the entry of an empty bucket, which holds none: the
    behaviour is undefined. Otherwise the lookup ends, and does not find the key, unless the
    table has 65536 buckets; then it is back at its first bucket with the distance it began with
    after 65536 turns, and never ends. A table built with 65536 buckets at a load that lets
    32768 entries in keeps that number. *)
Theorem robin_distance_overflow dflt v l k h f count :
  0 ≤ count ≤ 2 ^ 38 →
  load_ok (G := G) (sf_clamp f MINIMUM_MAX_LOAD_FACTOR MAXIMUM_MAX_LOAD_FACTOR) → fits 64 h →
  NoDup l → Z.of_nat (length l) = 2 ^ 15 → k ∉ l → (∀ k', k' = k ∨ k' ∈ l → hash_key k' = Some h) →
  ∃ t0 t p, robin_new vector_max_size count DEFAULT_MIN_LOAD_FACTOR f = Some t0 ∧ assign_all dflt t0 l v = Some t ∧
    (∀ k' v' , (k', v') ∈ entries t ↔ k' ∈ l ∧ v' = v) ∧
    (2 ^ 15 ≤ m_load_threshold t0 → m_bucket_count t = m_bucket_count t0) ∧
    bucket_for_hash t h = Some p ∧
    let look fuel := probe StoreHash entry_has_room fuel t k h in
    if StoreHash && negb (u32 h =? 0) then
      if m_bucket_count t =? 2 ^ 16
      then (∀ fuel, look (Z.to_nat (2 ^ 16) + fuel)%nat p 0 = look fuel p 0) ∧ ∀ fuel, look fuel p 0 = None
      else ∃ fuel i d, look fuel p 0 = Some (false, i, d)
    else ∃ i b, (∀ fuel, look (Z.to_nat (2 ^ 15) + fuel)%nat p 0 = look fuel i (- 2 ^ 15)) ∧
      bucket_at t i = Some b ∧ m_value b = None ∧ bucket_matches (G := G) StoreHash entry_has_room b k h = None ∧
      ∀ fuel, look fuel p 0 = None.
Proof using H Hvec.
  intros Hcount Hlf Hf Hnd Hlen Hk Hl.
  destruct (chain_built dflt v l k h f count Hcount Hlf Hf Hnd Hlen Hk Hl)
    as (t0 & t & g & Hnew & Ht & He & Hs & Hok & Hm & Hg & Hp & Hsz & Hkg).
  destruct (gp_bucket_ok (m_policy t) (size_of t) h (ao_policy _ _ _ t Hok) Hf) as (p & Hph & _).
  pose proof (Hl k (or_introl eq_refl)) as Hkh.
  exists t0, t, p. do 5 (split; [done|]). intros look.
  assert (∀ fuel, look fuel p 0 = probe_after t k h p fuel 0) as Hlook.
  { intros fuel. symmetry. by apply (probe_after_0 t g k h p). }
  destruct (StoreHash && negb (u32 h =? 0)) eqn:Hcase.
  - apply andb_true_iff in Hcase as [HS Hh0%negb_true_iff%Z.eqb_neq]. rewrite (ao_count _ _ _ t Hok).
    destruct (Z.eqb_spec (size_of t) (2 ^ 16)).
    + destruct (chain_cycle t g k h p Hok Hm Hg Hp Hsz Hkg Hph Hkh (Z.to_nat (2 ^ 16)) HS Hh0) as [Hcyc Hnone];
        [done|by rewrite Z2Nat.id|]. split; intros fuel; rewrite !Hlook; [apply Hcyc|apply Hnone].
    + destruct (chain_ends t g k h p Hok Hm Hg Hp Hsz Hkg Hph Hkh HS Hh0) as (fuel & i & d & Hr); [done|].
      exists fuel, i, d. by rewrite Hlook.
  - destruct (chain_undefined t g k h p Hok Hm Hg Hp Hsz Hkg Hph Hkh (Z.to_nat (2 ^ 15)) Hcase) as (Hto & Hv & Hbad & Hnone);
      [by rewrite Z2Nat.id|].
    do 2 eexists. split; [intros fuel; rewrite Hlook; exact (Hto fuel)|].
    split; [apply bucket_at_ok, Hok|]. split; [done|]. split; [done|]. intros fuel. rewrite Hlook. apply Hnone.
Qed.
End overflow.

(** ** Instances: a hash functor that is constant *)

Lemma new_65536 :
  (λ t, (m_bucket_count t, m_load_threshold t)) <$>
    robin_new (K := Z) (V := Z) (G := power_of_two_growth_policy) (2 ^ 60) 65536 DEFAULT_MIN_LOAD_FACTOR DEFAULT_MAX_LOAD_FACTOR
  = Some (65536, 32768).
Proof. vm_compute. reflexivity. Qed.

(** The hash is 3: with stored hashes the lookup of 40000 in 65536 buckets does not end,
    without them it reads the entry of an empty bucket. *)
Lemma robin_distance_overflow_witness :
  ∃ t t' : robin_hash Z Z power_of_two_growth_policy,
    (∀ k v, (k, v) ∈ entries t ↔ k ∈ seqZ 0 (2 ^ 15) ∧ v = 7) ∧ m_bucket_count t = 65536 ∧
    (∃ p, bucket_for_hash t 3 = Some p ∧ ∀ fuel, probe true true fuel t 40000 3 p 0 = None) ∧
    (∀ k v, (k, v) ∈ entries t' ↔ k ∈ seqZ 0 (2 ^ 15) ∧ v = 7) ∧
    (∃ i b, bucket_at t' i = Some b ∧ bucket_matches (G := power_of_two_growth_policy) false true b 40000 3 = None).
Proof.
  assert (40000 ∉ seqZ 0 (2 ^ 15)) as Hin by (intros Hin%elem_of_seqZ; lia).
  destruct (robin_distance_overflow (G := power_of_two_growth_policy) (λ _ : Z, Some 3) true true (2 ^ 60)
    vectors_fit 0 7 (seqZ 0 (2 ^ 15)) 40000 3 DEFAULT_MAX_LOAD_FACTOR 65536 ltac:(lia) default_load_ok ltac:(split; lia)
    (NoDup_seqZ _ _) ltac:(rewrite length_seqZ; lia) Hin ltac:(done))
    as (t0 & t & p & Hnew & _ & He & Hn & Hp & Hloop).
  destruct (robin_distance_overflow (G := power_of_two_growth_policy) (λ _ : Z, Some 3) false true (2 ^ 60)
    vectors_fit 0 7 (seqZ 0 (2 ^ 15)) 40000 3 DEFAULT_MAX_LOAD_FACTOR 65536 ltac:(lia) default_load_ok ltac:(split; lia)
    (NoDup_seqZ _ _) ltac:(rewrite length_seqZ; lia) Hin ltac:(done))
    as (_ & t' & _ & _ & _ & He' & _ & _ & i & b & _ & Hb & _ & Hbad & _).
  pose proof new_65536 as H0. rewrite Hnew in H0. injection H0 as Hc0 Hth0.
  specialize (Hn ltac:(by rewrite Hth0)). rewrite Hc0 in Hn. rewrite Hn in Hloop. destruct Hloop as [_ Hnone].
  exists t, t'. split; [exact He|]. split; [exact Hn|]. split; [by exists p|]. split; [exact He'|]. by exists i, b.
Defined.
