(* ===== verification/DenseTable.v ===== *)
(** * Google's dense hash table (src/sparsehash/src/sparsehash/internal/densehashtable.h and
      hashtable-common.h, src/sparsehash/src/sparsehash/dense_hash_map): data and operations

    One array of values probed with triangular steps; a bucket is empty when it holds the
    key the client set aside for that, and deleted when it holds another such key. Erased
    entries are purged when the table is copied into a new size. A failed assert is [None],
    as the exceptions and accesses outside the array are; with [NDEBUG], which the Makefile
    does not define, there are no asserts. Allocation succeeds. *)
From S2P Require Import Prelude Words Floats.

(** ** Settings: [sh_hashtable_settings] without the hasher *)
Record sh_settings := Settings {
  enlarge_threshold : Z;
  shrink_threshold : Z;
  enlarge_factor : spec_float;
  shrink_factor : spec_float;
  consider_shrink : bool;
  use_empty : bool;
  use_deleted : bool;
  num_ht_copies : Z
}.

Definition HT_MIN_BUCKETS : Z := 4.
Definition HT_DEFAULT_STARTING_BUCKETS : Z := 32.
Definition HT_OCCUPANCY_PCT : Z := 50.
(** [static_cast<int>(0.4 * HT_OCCUPANCY_PCT)]: a constant, whose conversion is defined *)
Definition HT_EMPTY_PCT : Z := default 0 (sf_to_i32 (f64_mul (f64_lit 4 1) (f64_of_Z HT_OCCUPANCY_PCT))).

Definition settings_new : sh_settings :=
  Settings 0 0 (f32_div (f32_of_Z HT_OCCUPANCY_PCT) (f32_of_Z 100)) (f32_div (f32_of_Z HT_EMPTY_PCT) (f32_of_Z 100))
    false false false 0.

(** [static_cast<size_type>(x * factor)] *)
Definition scaled_size (x : Z) (factor : spec_float) : option Z := sf_to_unsigned 64 (f32_mul (f32_of_Z x) factor).

Definition enlarge_size (s : sh_settings) (x : Z) : option Z := scaled_size x (enlarge_factor s).
Definition shrink_size (s : sh_settings) (x : Z) : option Z := scaled_size x (shrink_factor s).

Definition set_consider_shrink (s : sh_settings) (b : bool) : sh_settings :=
  Settings (enlarge_threshold s) (shrink_threshold s) (enlarge_factor s) (shrink_factor s) b (use_empty s)
    (use_deleted s) (num_ht_copies s).

Definition set_use_empty (s : sh_settings) (b : bool) : sh_settings :=
  Settings (enlarge_threshold s) (shrink_threshold s) (enlarge_factor s) (shrink_factor s) (consider_shrink s) b
    (use_deleted s) (num_ht_copies s).

Definition set_use_deleted (s : sh_settings) (b : bool) : sh_settings :=
  Settings (enlarge_threshold s) (shrink_threshold s) (enlarge_factor s) (shrink_factor s) (consider_shrink s)
    (use_empty s) b (num_ht_copies s).

(** The counter is an [unsigned int]. *)
Definition inc_num_ht_copies (s : sh_settings) : sh_settings :=
  Settings (enlarge_threshold s) (shrink_threshold s) (enlarge_factor s) (shrink_factor s) (consider_shrink s)
    (use_empty s) (use_deleted s) (u32 (num_ht_copies s + 1)).

Definition reset_thresholds (s : sh_settings) (num_buckets : Z) : option sh_settings :=
  e ← enlarge_size s num_buckets;
  d ← shrink_size s num_buckets;
  Some (Settings e d (enlarge_factor s) (shrink_factor s) false (use_empty s) (use_deleted s) (num_ht_copies s)).

Fixpoint min_buckets_loop (fuel : nat) (s : sh_settings) (num_elts min_buckets_wanted sz : Z) : option Z :=
  more ← (if sz <? min_buckets_wanted then Some true else t ← enlarge_size s sz; Some (t <=? num_elts));
  if more : bool then
    match fuel with
    | O => None
    | S fuel => if u64 (sz * 2) <? sz then None else min_buckets_loop fuel s num_elts min_buckets_wanted (u64 (sz * 2))
    end
  else Some sz.

(** The size doubles: 64 turns overflow. *)
Definition min_buckets (s : sh_settings) (num_elts min_buckets_wanted : Z) : option Z :=
  min_buckets_loop 64 s num_elts min_buckets_wanted HT_MIN_BUCKETS.

(** ** The table *)

(** [table] is null until the empty key is set. *)
Record dense_hashtable {K V : Type} := DenseTable {
  settings : sh_settings;
  delkey : K;
  num_deleted : Z;
  num_elements : Z;
  num_buckets : Z;
  emptyval : K * V;
  table : option (list (K * V))
}.
Arguments dense_hashtable : clear implicits.
Arguments DenseTable {K V}.

Definition ILLEGAL_BUCKET : Z := 2 ^ 64 - 1.

Section dense.
Context {K V : Type} `{EqDecision K}.

(** The hash functor, whether asserts are compiled out, [K()], [T()], and the limit of the allocator. *)
Context (hash_key : K → option Z) (NDEBUG : bool) (key_dflt : K) (dflt : V) (max_size : Z).

Abbreviation dtable := (dense_hashtable K V).

Definition check (c : bool) : option unit := if NDEBUG || c then Some () else None.

Definition set_settings (t : dtable) (s : sh_settings) : dtable :=
  DenseTable s (delkey t) (num_deleted t) (num_elements t) (num_buckets t) (emptyval t) (table t).

Definition set_counts (t : dtable) (deleted elements : Z) : dtable :=
  DenseTable (settings t) (delkey t) deleted elements (num_buckets t) (emptyval t) (table t).

Definition dense_bucket (t : dtable) (i : Z) : option (K * V) :=
  l ← table t; if 0 <=? i then l !! Z.to_nat i else None.

(** [set_value(&table[i], v)] *)
Definition dense_set_value (t : dtable) (i : Z) (v : K * V) : option dtable :=
  l ← table t;
  if (0 <=? i) && (i <? Z.of_nat (length l))
  then Some (DenseTable (settings t) (delkey t) (num_deleted t) (num_elements t) (num_buckets t) (emptyval t)
               (Some (<[Z.to_nat i := v]> l)))
  else None.

Definition dense_size (t : dtable) : Z := u64 (num_elements t - num_deleted t).

(** ** Empty and deleted buckets *)

Definition test_empty (t : dtable) (i : Z) : option bool :=
  _ ← check (use_empty (settings t));
  b ← dense_bucket t i; Some (bool_decide ((emptyval t).1 = b.1)).

Definition test_deleted (t : dtable) (i : Z) : option bool :=
  _ ← check (use_deleted (settings t) || (num_deleted t =? 0));
  if 0 <? num_deleted t then b ← dense_bucket t i; Some (bool_decide (delkey t = b.1)) else Some false.

(** [set_deleted]: whether the bucket was not deleted before. *)
Definition set_deleted (t : dtable) (i : Z) : option (dtable * bool) :=
  _ ← check (use_deleted (settings t));
  d ← test_deleted t i;
  t ← dense_set_value t i (delkey t, dflt);
  Some (t, negb d).

(** ** Construction *)

(** [dense_hashtable(expected_max_items_in_table)] *)
Definition dense_new (expected_max_items_in_table : Z) : option dtable :=
  n ← (if expected_max_items_in_table =? 0 then Some HT_DEFAULT_STARTING_BUCKETS
       else min_buckets settings_new expected_max_items_in_table 0);
  s ← reset_thresholds settings_new n;
  Some (DenseTable s key_dflt 0 0 n (key_dflt, dflt) None).

(** [dense_hash_map::set_empty_key(key)] *)
Definition set_empty_key (t : dtable) (key : K) : option dtable :=
  _ ← check (negb (use_empty (settings t)));
  _ ← check (negb (use_deleted (settings t)) || negb (bool_decide (key = delkey t)));
  _ ← check (if table t is None then true else false);
  Some (DenseTable (set_use_empty (settings t) true) (delkey t) (num_deleted t) (num_elements t) (num_buckets t)
          (key, dflt) (Some (replicate (Z.to_nat (num_buckets t)) (key, dflt)))).

Definition clear_to_size (t : dtable) (new_num_buckets : Z) : option dtable :=
  s ← reset_thresholds (settings t) new_num_buckets;
  Some (DenseTable s (delkey t) 0 0 new_num_buckets (emptyval t)
          (Some (replicate (Z.to_nat new_num_buckets) (emptyval t)))).

(** ** Iteration: an iterator is a position, [num_buckets] for [end()] *)

Definition dense_fuel (t : dtable) : nat := S (Z.to_nat (num_buckets t)).

Fixpoint advance_past_empty_and_deleted (fuel : nat) (t : dtable) (pos : Z) : option Z :=
  if pos =? num_buckets t then Some pos
  else
    e ← test_empty t pos;
    skip ← (if e : bool then Some true else test_deleted t pos);
    if skip : bool then
      match fuel with
      | O => None
      | S fuel => advance_past_empty_and_deleted fuel t (pos + 1)
      end
    else Some pos.

Definition dense_begin (t : dtable) : option Z := advance_past_empty_and_deleted (dense_fuel t) t 0.

(** [++it] *)
Definition dense_next (t : dtable) (pos : Z) : option Z :=
  _ ← check (negb (pos =? num_buckets t));
  advance_past_empty_and_deleted (dense_fuel t) t (pos + 1).

(** [for (it = begin(); it != end(); ++it)]: the values seen, in order. *)
Fixpoint dense_iterate (fuel : nat) (t : dtable) (pos : Z) : option (list (K * V)) :=
  if pos =? num_buckets t then Some []
  else
    match fuel with
    | O => None
    | S fuel =>
        b ← dense_bucket t pos;
        pos ← dense_next t pos;
        l ← dense_iterate fuel t pos;
        Some (b :: l)
    end.

(** ** Copying into another size, which drops the deleted entries *)

(** The next bucket of a probe, and the number of probes so far. *)
Definition jump (t : dtable) (num_probes bucknum : Z) : Z * Z :=
  let num_probes := u64 (num_probes + 1) in
  (num_probes, Z.land (u64 (bucknum + num_probes)) (u64 (num_buckets t - 1))).

Fixpoint first_empty (fuel : nat) (t : dtable) (num_probes bucknum : Z) : option Z :=
  e ← test_empty t bucknum;
  if e : bool then Some bucknum
  else
    match fuel with
    | O => None
    | S fuel =>
        _ ← check (u64 (num_probes + 1) <? num_buckets t);
        let '(num_probes, bucknum) := jump t num_probes bucknum in first_empty fuel t num_probes bucknum
    end.

(** The body of the loop of [copy_from]; the values are those an iterator of the other table meets. *)
Fixpoint copy_values (t : dtable) (l : list (K * V)) : option dtable :=
  match l with
  | [] => Some t
  | v :: l =>
      h ← hash_key v.1;
      i ← first_empty (dense_fuel t) t 0 (Z.land h (u64 (num_buckets t - 1)));
      t ← dense_set_value t i v;
      copy_values (set_counts t (num_deleted t) (u64 (num_elements t + 1))) l
  end.

Definition copy_from (t ht : dtable) (min_buckets_wanted : Z) : option dtable :=
  n ← min_buckets (settings t) (dense_size ht) min_buckets_wanted;
  t ← clear_to_size t n;
  _ ← check (Z.land (num_buckets t) (u64 (num_buckets t - 1)) =? 0);
  b ← dense_begin ht;
  l ← dense_iterate (dense_fuel ht) ht b;
  t ← copy_values t l;
  Some (set_settings t (inc_num_ht_copies (settings t))).

(** [dense_hashtable(ht, min_buckets_wanted)] *)
Definition dense_copy (ht : dtable) (min_buckets_wanted : Z) : option dtable :=
  let t := DenseTable (settings ht) (delkey ht) 0 0 0 (emptyval ht) None in
  if negb (use_empty (settings ht)) then
    _ ← check (dense_size ht =? 0);
    n ← min_buckets (settings ht) (dense_size ht) min_buckets_wanted;
    s ← reset_thresholds (settings ht) n;
    Some (DenseTable s (delkey ht) 0 0 n (emptyval ht) None)
  else
    s ← reset_thresholds (settings ht) 0;
    copy_from (set_settings t s) ht min_buckets_wanted.

(** Both tables after [t.swap(ht)]. *)
Definition dense_swap (t ht : dtable) : option (dtable * dtable) :=
  s ← reset_thresholds (settings ht) (num_buckets ht);
  s' ← reset_thresholds (settings t) (num_buckets t);
  Some (set_settings ht s, set_settings t s').

(** [operator=] from another table *)
Definition dense_assign (t ht : dtable) : option dtable :=
  if negb (use_empty (settings ht)) then
    _ ← check (dense_size ht =? 0);
    empty_table ← dense_copy ht HT_DEFAULT_STARTING_BUCKETS;
    '(t, _) ← dense_swap t empty_table; Some t
  else
    copy_from (DenseTable (settings ht) (delkey ht) (num_deleted t) (num_elements t) (num_buckets t) (emptyval ht)
                 (table t)) ht HT_MIN_BUCKETS.

(** [dense_hashtable tmp( *this, n); swap(tmp);] *)
Definition resize_to (t : dtable) (n : Z) : option dtable :=
  tmp ← dense_copy t n;
  '(t, _) ← dense_swap t tmp;
  Some t.

(** ** Resizing *)

(** [while (sz > 32 && num_remain < sz * shrink_factor) sz /= 2;]: sixty-four turns bring any size to 0. *)
Definition shrink_to (num_remain sz : Z) (factor : spec_float) : option Z :=
  while 64 (λ sz, (HT_DEFAULT_STARTING_BUCKETS <? sz) && SFltb (f32_of_Z num_remain) (f32_mul (f32_of_Z sz) factor))
    (λ sz, Some (sz / 2)) sz.

Definition maybe_shrink (t : dtable) : option (dtable * bool) :=
  _ ← check (num_deleted t <=? num_elements t);
  _ ← check (Z.land (num_buckets t) (u64 (num_buckets t - 1)) =? 0);
  _ ← check (HT_MIN_BUCKETS <=? num_buckets t);
  let num_remain := u64 (num_elements t - num_deleted t) in
  let threshold := shrink_threshold (settings t) in
  '(t, retval) ← (if (0 <? threshold) && (num_remain <? threshold) && (HT_DEFAULT_STARTING_BUCKETS <? num_buckets t)
                  then sz ← shrink_to num_remain (num_buckets t / 2) (shrink_factor (settings t));
                       t ← resize_to t sz; Some (t, true)
                  else Some (t, false));
  Some (set_settings t (set_consider_shrink (settings t) false), retval).

Definition resize_delta (t : dtable) (delta : Z) : option (dtable * bool) :=
  '(t, did_resize) ← (if consider_shrink (settings t) then maybe_shrink t else Some (t, false));
  if u64 (2 ^ 64 - 1 - delta) <=? num_elements t then None
  else if (HT_MIN_BUCKETS <=? num_buckets t) && (u64 (num_elements t + delta) <=? enlarge_threshold (settings t))
  then Some (t, did_resize)
  else
    needed_size ← min_buckets (settings t) (u64 (num_elements t + delta)) 0;
    if needed_size <=? num_buckets t then Some (t, did_resize)
    else
      let live := u64 (num_elements t - num_deleted t + delta) in
      size ← min_buckets (settings t) live (num_buckets t);
      needed_size ← min_buckets (settings t) (u64 (num_elements t - num_deleted t / 4 + delta)) 0;
      size ← (if (size <? needed_size) && (size <? (2 ^ 64 - 1) / 2)
              then target ← shrink_size (settings t) (u64 (size * 2));
                   Some (if target <=? live then u64 (size * 2) else size)
              else Some size);
      t ← resize_to t size;
      Some (t, true).

Definition resize (t : dtable) (req_elements : Z) : option dtable :=
  '(t, _) ← (if consider_shrink (settings t) || (req_elements =? 0) then maybe_shrink t else Some (t, false));
  '(t, _) ← (if num_elements t <? req_elements then resize_delta t (req_elements - num_elements t) else Some (t, false));
  Some t.

(** [dense_hash_map::max_load_factor(grow)] is [set_resizing_parameters(shrink_factor(), grow)]. *)
Definition set_resizing_parameters (t : dtable) (shrink grow : spec_float) : option dtable :=
  _ ← check (SFleb (f32_of_Z 0) shrink);
  _ ← check (SFleb grow (f32_of_Z 1));
  let half := f32_div grow (f32_of_Z 2) in
  let shrink := if SFltb half shrink then half else shrink in
  let s := settings t in
  s ← reset_thresholds (Settings (enlarge_threshold s) (shrink_threshold s) grow shrink (consider_shrink s)
                          (use_empty s) (use_deleted s) (num_ht_copies s)) (num_buckets t);
  Some (set_settings t s).

Definition dense_max_load_factor (t : dtable) (grow : spec_float) : option dtable :=
  set_resizing_parameters t (shrink_factor (settings t)) grow.

Definition dense_min_load_factor (t : dtable) (shrink : spec_float) : option dtable :=
  set_resizing_parameters t shrink (enlarge_factor (settings t)).

(** ** The deleted key *)

Definition squash_deleted (t : dtable) : option dtable :=
  t ← (if num_deleted t =? 0 then Some t else resize_to t HT_DEFAULT_STARTING_BUCKETS);
  _ ← check (num_deleted t =? 0); Some t.

Definition set_deleted_key (t : dtable) (key : K) : option dtable :=
  _ ← check (negb (use_empty (settings t)) || negb (bool_decide (key = (emptyval t).1)));
  t ← squash_deleted t;
  Some (DenseTable (set_use_deleted (settings t) true) key (num_deleted t) (num_elements t) (num_buckets t)
          (emptyval t) (table t)).

Definition clear_deleted_key (t : dtable) : option dtable :=
  t ← squash_deleted t; Some (set_settings t (set_use_deleted (settings t) false)).

(** ** Clearing *)

Definition dense_clear (t : dtable) : option dtable :=
  n ← min_buckets (settings t) 0 0;
  if (num_elements t =? 0) && (n =? num_buckets t) then Some t else clear_to_size t n.

Definition clear_no_resize (t : dtable) : option dtable :=
  t ← (if 0 <? num_elements t
       then _ ← check (if table t is None then false else true);
            Some (DenseTable (settings t) (delkey t) (num_deleted t) (num_elements t) (num_buckets t) (emptyval t)
                    (Some (replicate (Z.to_nat (num_buckets t)) (emptyval t))))
       else Some t);
  s ← reset_thresholds (settings t) (num_buckets t);
  Some (set_counts (set_settings t s) 0 0).

(** ** Lookup: where the key is, and where it would go *)

Fixpoint find_position_loop (fuel : nat) (t : dtable) (key : K) (num_probes bucknum insert_pos : Z)
    : option (Z * Z) :=
  e ← test_empty t bucknum;
  if e : bool then Some (ILLEGAL_BUCKET, if insert_pos =? ILLEGAL_BUCKET then bucknum else insert_pos)
  else
    d ← test_deleted t bucknum;
    b ← dense_bucket t bucknum;
    if negb d && bool_decide (key = b.1) then Some (bucknum, ILLEGAL_BUCKET)
    else
      match fuel with
      | O => None
      | S fuel =>
          let insert_pos := if d && (insert_pos =? ILLEGAL_BUCKET) then bucknum else insert_pos in
          let '(num_probes, bucknum) := jump t num_probes bucknum in
          _ ← check (num_probes <? num_buckets t);
          find_position_loop fuel t key num_probes bucknum insert_pos
      end.

Definition find_position (t : dtable) (key : K) : option (Z * Z) :=
  h ← hash_key key;
  find_position_loop (dense_fuel t) t key 0 (Z.land h (u64 (num_buckets t - 1))) ILLEGAL_BUCKET.

(** The position of the key, [num_buckets] for [end()]. *)
Definition dense_find (t : dtable) (key : K) : option Z :=
  if dense_size t =? 0 then Some (num_buckets t)
  else
    pos ← find_position t key;
    Some (if pos.1 =? ILLEGAL_BUCKET then num_buckets t else pos.1).

(** [it->second] for what [find] returned *)
Definition dense_find_value (t : dtable) (key : K) : option (option V) :=
  i ← dense_find t key;
  if i =? num_buckets t then Some None else b ← dense_bucket t i; Some (Some b.2).

Definition dense_count (t : dtable) (key : K) : option Z :=
  pos ← find_position t key; Some (if pos.1 =? ILLEGAL_BUCKET then 0 else 1).

Definition dense_equal_range (t : dtable) (key : K) : option (Z * Z) :=
  pos ← dense_find t key;
  if pos =? num_buckets t then Some (pos, pos) else next ← dense_next t pos; Some (pos, next).

(** [operator==] of two different tables *)
Fixpoint all_found `{EqDecision V} (ht : dtable) (l : list (K * V)) : option bool :=
  match l with
  | [] => Some true
  | v :: l =>
      i ← dense_find ht v.1;
      if i =? num_buckets ht then Some false
      else w ← dense_bucket ht i; if bool_decide (v = w) then all_found ht l else Some false
  end.

Definition dense_equal `{EqDecision V} (t ht : dtable) : option bool :=
  if negb (dense_size t =? dense_size ht) then Some false
  else
    b ← dense_begin t;
    l ← dense_iterate (dense_fuel t) t b;
    all_found ht l.

(** ** Insertion *)

Definition insert_at (t : dtable) (obj : K * V) (pos : Z) : option (dtable * Z) :=
  if max_size <=? dense_size t then None
  else
    d ← test_deleted t pos;
    t ← (if d : bool
         then _ ← check (use_deleted (settings t));
              _ ← check (0 <? num_deleted t);
              Some (set_counts t (u64 (num_deleted t - 1)) (num_elements t))
         else Some (set_counts t (num_deleted t) (u64 (num_elements t + 1))));
    t ← dense_set_value t pos obj;
    Some (t, pos).

Definition check_key (t : dtable) (key : K) : option unit :=
  _ ← check (negb (use_empty (settings t)) || negb (bool_decide (key = (emptyval t).1)));
  check (negb (use_deleted (settings t)) || negb (bool_decide (key = delkey t))).

Definition insert_noresize (t : dtable) (obj : K * V) : option (dtable * (Z * bool)) :=
  _ ← check_key t obj.1;
  pos ← find_position t obj.1;
  if negb (pos.1 =? ILLEGAL_BUCKET) then Some (t, (pos.1, false))
  else '(t, i) ← insert_at t obj pos.2; Some (t, (i, true)).

Definition dense_insert (t : dtable) (obj : K * V) : option (dtable * (Z * bool)) :=
  '(t, _) ← resize_delta t 1;
  insert_noresize t obj.

Fixpoint insert_list (t : dtable) (l : list (K * V)) : option dtable :=
  match l with
  | [] => Some t
  | v :: l => '(t, _) ← insert_noresize t v; insert_list t l
  end.

(** [insert(f, l)] with forward iterators *)
Definition dense_insert_range (t : dtable) (l : list (K * V)) : option dtable :=
  '(t, _) ← resize_delta t (Z.of_nat (length l));
  insert_list t l.

(** [insert(f, l)] with other iterators *)
Fixpoint insert_input (t : dtable) (l : list (K * V)) : option dtable :=
  match l with
  | [] => Some t
  | v :: l => '(t, _) ← dense_insert t v; insert_input t l
  end.

(** [dense_hash_map(f, l, empty_key_val, expected_max_items_in_table)] *)
Definition dense_of_range (forward : bool) (l : list (K * V)) (empty_key_val : K) (expected_max_items_in_table : Z) : option dtable :=
  t ← dense_new expected_max_items_in_table;
  t ← set_empty_key t empty_key_val;
  if forward then dense_insert_range t l else insert_input t l.

(** The bucket of the key, which is inserted with [T()] if it is not there. *)
Definition find_or_insert (t : dtable) (key : K) : option (dtable * Z) :=
  _ ← check_key t key;
  pos ← find_position t key;
  if negb (pos.1 =? ILLEGAL_BUCKET) then Some (t, pos.1)
  else
    '(t, resized) ← resize_delta t 1;
    if resized : bool then '(t, (i, _)) ← insert_noresize t (key, dflt); Some (t, i)
    else insert_at t (key, dflt) pos.2.

(** [map[key] = obj] *)
Definition dense_subscript_assign (t : dtable) (key : K) (obj : V) : option dtable :=
  '(t, i) ← find_or_insert t key;
  b ← dense_bucket t i;
  dense_set_value t i (b.1, obj).

(** ** Erasure *)

Definition dense_erase (t : dtable) (key : K) : option (dtable * Z) :=
  _ ← check_key t key;
  pos ← dense_find t key;
  if negb (pos =? num_buckets t) then
    d ← test_deleted t pos;
    _ ← check (negb d);
    '(t, _) ← set_deleted t pos;
    let t := set_counts t (u64 (num_deleted t + 1)) (num_elements t) in
    Some (set_settings t (set_consider_shrink (settings t) true), 1)
  else Some (t, 0).

(** [erase(iterator)] *)
Definition dense_erase_at (t : dtable) (pos : Z) : option dtable :=
  if pos =? num_buckets t then Some t
  else
    '(t, newly) ← set_deleted t pos;
    Some (if newly : bool
          then set_settings (set_counts t (u64 (num_deleted t + 1)) (num_elements t))
                 (set_consider_shrink (settings t) true)
          else t).

Fixpoint erase_each (fuel : nat) (t : dtable) (first last : Z) : option dtable :=
  if first =? last then Some t
  else
    match fuel with
    | O => None
    | S fuel =>
        '(t, newly) ← set_deleted t first;
        let t := if newly : bool then set_counts t (u64 (num_deleted t + 1)) (num_elements t) else t in
        first ← dense_next t first;
        erase_each fuel t first last
    end.

(** [erase(first, last)] *)
Definition dense_erase_range (t : dtable) (first last : Z) : option dtable :=
  t ← erase_each (dense_fuel t) t first last;
  Some (set_settings t (set_consider_shrink (settings t) true)).
End dense.
