(* ===== verification/DenseProbe.v ===== *)
(** * Triangular probing

    The steps of a probe grow by one each time, so that the [i]-th bucket looked at is
    [h + i (i + 1) / 2]. In a table whose size is a power of two the first probes, as many
    as there are buckets, meet every bucket once: a lookup ends in a table that has an
    empty bucket, within the bound that the code asserts. The thresholds that the load
    factors give leave one empty. *)
From S2P Require Import Prelude Words Floats FloatRound DenseTable.

Definition tri (i : Z) : Z := i * (i + 1) / 2.

Lemma tri_double i : 2 * tri i = i * (i + 1).
Proof.
  unfold tri. assert (Z.Even (i * (i + 1))) as [x Hx].
  { apply Z.even_spec. rewrite Z.even_mul, Z.even_add. by destruct (Z.even i). }
  rewrite Hx, (Z.mul_comm 2 x), Z.div_mul by lia. lia.
Qed.

Lemma tri_succ i : tri (i + 1) = tri i + (i + 1).
Proof. pose proof (tri_double i). pose proof (tri_double (i + 1)). nia. Qed.

Lemma tri_nonneg i : 0 ≤ i → 0 ≤ tri i.
Proof. intros Hi. pose proof (tri_double i). nia. Qed.

(** An odd factor can be cancelled from a multiple of a power of two. *)
Lemma pow2_divide_odd m a b : 0 ≤ m → Z.Odd a → (2 ^ m | a * b) → (2 ^ m | b).
Proof.
  intros Hm [x Hx]. revert b. pattern m. apply natlike_ind; [|clear m Hm; intros m Hm IH b|done].
  { intros b _. apply Z.divide_1_l. }
  rewrite Z.pow_succ_r by done. intros [y Hy].
  destruct (Z.Even_or_Odd b) as [[c Hc]|[c Hc]]; [|lia].
  destruct (IH c) as [z Hz]; [exists y; lia|]. exists z. lia.
Qed.

Lemma tri_distinct k i j : 0 ≤ k → 0 ≤ i < j → j < 2 ^ k → tri i `mod` 2 ^ k ≠ tri j `mod` 2 ^ k.
Proof.
  intros Hk Hij Hj Heq. assert (0 < 2 ^ k) by lia.
  assert (2 ^ k | tri j - tri i) as [x Hx].
  { apply Z.mod_divide; [lia|]. rewrite Zminus_mod, Heq, Z.sub_diag. by apply Z.mod_0_l; lia. }
  assert (2 ^ (k + 1) | (j - i) * (i + j + 1)) as Hdiv.
  { exists x. rewrite Z.pow_add_r by lia. pose proof (tri_double i). pose proof (tri_double j). nia. }
  assert (0 < 2 ^ (k + 1) ∧ 2 ^ (k + 1) = 2 * 2 ^ k) as [Hp2 Hp] by (rewrite Z.pow_add_r by lia; lia).
  destruct (Z.Even_or_Odd (j - i)) as [[y Hy]|Hodd].
  - rewrite Z.mul_comm in Hdiv. apply pow2_divide_odd in Hdiv; [|lia|exists (i + y); lia].
    apply Z.divide_pos_le in Hdiv; lia.
  - apply pow2_divide_odd in Hdiv; [|lia|done]. apply Z.divide_pos_le in Hdiv; lia.
Qed.

(** The [i]-th bucket of the probe of a hash. *)
Definition probe_pos (n h i : Z) : Z := (h + tri i) `mod` n.

Lemma probe_pos_0 n h : probe_pos n h 0 = h `mod` n.
Proof. unfold probe_pos. change (tri 0) with 0. by rewrite Z.add_0_r. Qed.

Lemma probe_pos_range n h i : 0 < n → 0 ≤ probe_pos n h i < n.
Proof. intros Hn. by apply Z.mod_pos_bound. Qed.

Lemma probe_pos_succ n h i : (probe_pos n h i + (i + 1)) `mod` n = probe_pos n h (i + 1).
Proof. unfold probe_pos. rewrite tri_succ, Zplus_mod_idemp_l. f_equal. lia. Qed.

Lemma probe_pos_inj k h i j :
  0 ≤ k → 0 ≤ i < 2 ^ k → 0 ≤ j < 2 ^ k → probe_pos (2 ^ k) h i = probe_pos (2 ^ k) h j → i = j.
Proof.
  intros Hk Hi Hj Heq. assert (tri i `mod` 2 ^ k = tri j `mod` 2 ^ k) as Ht.
  { replace (tri i) with (h + tri i - h) by lia. replace (tri j) with (h + tri j - h) by lia.
    unfold probe_pos in Heq. rewrite Zminus_mod, Heq, <-Zminus_mod. done. }
  destruct (Z.lt_trichotomy i j) as [|[|]]; [|done|].
  - by destruct (tri_distinct k i j Hk); try lia.
  - by destruct (tri_distinct k j i Hk); try lia.
Qed.

(** Every bucket is met. *)
Lemma probe_pos_cover k h b : 0 ≤ k → 0 ≤ b < 2 ^ k → ∃ i, 0 ≤ i < 2 ^ k ∧ probe_pos (2 ^ k) h i = b.
Proof.
  intros Hk Hb. set (n := Z.to_nat (2 ^ k)). assert (Z.of_nat n = 2 ^ k) as Hn by lia.
  set (l := (λ i, probe_pos (2 ^ k) h (Z.of_nat i)) <$> seq 0 n).
  set (l' := Z.of_nat <$> seq 0 n).
  assert (l ⊆+ l') as Hsub.
  { apply NoDup_submseteq.
    - apply NoDup_fmap_2_strong; [|apply NoDup_seq].
      intros x y Hx%elem_of_seq Hy%elem_of_seq Heq. apply Nat2Z.inj, (probe_pos_inj k h); lia.
    - intros x [i [-> Hi]]%list_elem_of_fmap. apply list_elem_of_fmap.
      pose proof (probe_pos_range (2 ^ k) h (Z.of_nat i) ltac:(lia)).
      exists (Z.to_nat (probe_pos (2 ^ k) h (Z.of_nat i))). split; [lia|]. apply elem_of_seq. lia. }
  apply submseteq_length_Permutation in Hsub; [|unfold l, l'; by rewrite !length_fmap].
  assert (b ∈ l) as [i [-> Hi%elem_of_seq]]%list_elem_of_fmap.
  { rewrite Hsub. apply list_elem_of_fmap. exists (Z.to_nat b). split; [lia|]. apply elem_of_seq. lia. }
  exists (Z.of_nat i). split; [lia|done].
Qed.

(** * The thresholds of the dense hash table

    [size_type(x * factor)] for the factors a client may set and sizes that are powers of
    two: the product is exact, the threshold to grow is below the number of buckets and
    at least about a fifth of it, the threshold to shrink at least about a tenth. *)

(** A [float] from [1 / n] up to but not including 1. *)
Definition factor_between (n : Z) (f : spec_float) : Prop :=
  ∃ m e, f = S754_finite false m e ∧ Zpos (digits2_pos m) = 24 ∧ -28 ≤ e ≤ -24 ∧ 2 ^ (- e) ≤ n * Zpos m.

Lemma factor_weaken n n' f : n ≤ n' → factor_between n f → factor_between n' f.
Proof. intros Hn (m & e & -> & Hd & He & Hm). exists m, e. do 3 (split; [done|]). nia. Qed.

Lemma factor_threshold n f k :
  0 < n → factor_between n f → 0 ≤ k ≤ 63 →
  ∃ th, scaled_size (2 ^ k) f = Some th ∧ 0 ≤ th < 2 ^ k ∧ 2 ^ k ≤ n * (th + 1).
Proof.
  intros Hn0 (m & e & -> & Hd & He & Hm) Hk. exists (Zpos m * 2 ^ k / 2 ^ (- e)).
  split; [apply scaled_pow2; [done|lia|done]|].
  pose proof (digits2_pos_range m) as Hr. rewrite Hd in Hr.
  assert (2 ^ 24 ≤ 2 ^ (- e)) by (apply Z.pow_le_mono_r; lia). assert (0 < 2 ^ k) by lia.
  pose proof (Z.div_mod (Zpos m * 2 ^ k) (2 ^ (- e)) ltac:(lia)).
  pose proof (Z.mod_pos_bound (Zpos m * 2 ^ k) (2 ^ (- e)) ltac:(lia)).
  set (q := Zpos m * 2 ^ k / 2 ^ (- e)) in *. set (w := 2 ^ (- e)) in *.
  assert (0 ≤ q) as Hq by (apply Z.div_pos; lia).
  split; [split; [done|]|].
  - apply Z.div_lt_upper_bound; nia.
  - assert (Zpos m * 2 ^ k < w * (q + 1)) by lia.
    assert (w * 2 ^ k < w * (n * (q + 1))) by nia. assert (2 ^ k < n * (q + 1)) by (apply (Z.mul_lt_mono_pos_l w); lia). lia.
Qed.

Lemma factor_zero n f : factor_between n f → scaled_size 0 f = Some 0.
Proof. by intros (m & e & -> & _). Qed.

Lemma factor_sign n f : factor_between n f → SFleb (f32_of_Z 0) f = true.
Proof. by intros (m & e & -> & _). Qed.

(** Halving is exact. *)
Lemma f32_half m e :
  Zpos (digits2_pos m) = 24 → -80 ≤ e ≤ -24 → f32_div (S754_finite false m e) (f32_of_Z 2) = S754_finite false m (e - 1).
Proof.
  intros Hd He. pose proof (digits2_pos_range m) as Hrange. rewrite Hd in Hrange. change (f32_of_Z 2) with (S754_finite false 8388608 (-22)).
  unfold f32_div, SFdiv, SFdiv_core_binary. cbn [Zdigits2]. rewrite Hd. change (Zpos (digits2_pos 8388608)) with 24.
  assert (fexp 24 128 (24 + e - (24 + -22)) = e - 2) as -> by (unfold fexp, emin; lia).
  rewrite Z.min_l by lia. replace (e - -22 - (e - 2)) with 24 by lia. cbn [xorb]. cbv iota.
  pose proof (Z_div_mod (Z.shiftl (Zpos m) 24) 8388608 ltac:(lia)) as Hdm. rewrite Z.shiftl_mul_pow2 in * by lia.
  destruct (Z.div_eucl _ _) as [q r]. destruct Hdm as [Hq Hr].
  assert (q = Zpos m~0 ∧ r = 0) as [-> ->] by (rewrite Pos2Z.inj_xO; lia).
  change (new_location 8388608 0) with loc_Exact. unfold binary_round_aux, shr_fexp. cbn [shr_record_of_loc].
  assert (Zdigits2 (Zpos m~0) = 25) as -> by (cbn [Zdigits2 digits2_pos]; lia).
  assert (fexp 24 128 (25 + (e - 2)) - (e - 2) = 1) as -> by (unfold fexp, emin; lia).
  cbn [shr iter_pos shr_1 shr_m shr_r shr_s loc_of_shr_record orb round_nearest_even Zdigits2]. rewrite Hd.
  assert (fexp 24 128 (24 + (e - 2 + 1)) - (e - 2 + 1) = 0) as -> by (unfold fexp, emin; lia). cbn [shr shr_m].
  rewrite (proj2 (Z.leb_le _ _)) by lia. f_equal. lia.
Qed.

Lemma factor_half n f : n ≤ 7 → factor_between n f → factor_between (2 * n) (f32_div f (f32_of_Z 2)).
Proof.
  intros Hn7 (m & e & -> & Hd & He & Hm). pose proof (digits2_pos_range m) as Hr. rewrite Hd in Hr.
  rewrite f32_half by lia. exists m, (e - 1). split; [done|]. split; [done|].
  assert (-27 ≤ e).
  { destruct (Z.le_gt_cases (-27) e); [done|]. assert (2 ^ 28 ≤ 2 ^ (- e)) by (apply Z.pow_le_mono_r; lia).
    assert (n * Zpos m ≤ 7 * Zpos m) by (apply Z.mul_le_mono_nonneg_r; lia). lia. }
  split; [lia|]. replace (- (e - 1)) with (Z.succ (- e)) by lia. rewrite Z.pow_succ_r by lia. lia.
Qed.

(** The factors a client may ask for: a quarter to 1 for growing, a tenth to 1 for shrinking. *)
Definition quarter : spec_float := S754_finite false 8388608 (-25).
Definition tenth : spec_float := S754_finite false 13421773 (-27).

Lemma factor_of_range n lo_m lo_e f :
  Zpos (digits2_pos lo_m) = 24 → -28 ≤ lo_e ≤ -24 → 2 ^ (- lo_e) ≤ n * Zpos lo_m →
  valid_binary 24 128 f = true → SFleb (S754_finite false lo_m lo_e) f = true → SFltb f (f32_of_Z 1) = true →
  factor_between n f.
Proof.
  intros Hld Hle Hlo Hv Hlow Hhi. change (f32_of_Z 1) with (S754_finite false 8388608 (-23)) in Hhi.
  destruct f as [[]|[]| |[] m e]; try done. unfold SFltb, SFleb, SFcompare in *.
  change (Pos.compare_cont Eq lo_m m) with (Pos.compare lo_m m) in Hlow.
  change (Pos.compare_cont Eq m 8388608) with (Pos.compare m 8388608) in Hhi.
  unfold valid_binary, bounded, canonical_mantissa in Hv. apply andb_true_iff in Hv as [Hc%Z.eqb_eq _].
  unfold fexp, emin in Hc. exists m, e. split; [done|]. pose proof (digits2_pos_range m) as Hr.
  pose proof (digits2_pos_range lo_m) as Hlr. rewrite Hld in Hlr.
  assert (lo_e ≤ e ≤ -23) as He by (destruct (Z.compare_spec lo_e e), (Z.compare_spec e (-23)); done || lia).
  assert (Zpos (digits2_pos m) = 24) as Hd by lia. rewrite Hd in Hr.
  assert (e ≠ -23) by (intros ->; change (-23 ?= -23) with Eq in Hhi; destruct (Pos.compare_spec m 8388608); done || lia).
  split; [done|]. split; [lia|]. destruct (Z.compare_spec lo_e e) as [<-|Hlt|]; [| |done].
  - destruct (Pos.compare_spec lo_m m); [subst; done|nia|done].
  - assert (2 ^ (- lo_e) = 2 ^ (e - lo_e) * 2 ^ (- e)) as E by (rewrite <-Z.pow_add_r by lia; f_equal; lia).
    assert (2 ^ 1 ≤ 2 ^ (e - lo_e)) by (apply Z.pow_le_mono_r; lia). assert (0 < 2 ^ (- e)) by lia.
    assert (2 * 2 ^ (- e) ≤ n * Zpos lo_m) by nia. assert (0 < n) by nia. nia.
Qed.

Definition grow_factor_ok (f : spec_float) : bool :=
  valid_binary 24 128 f && SFleb quarter f && SFltb f (f32_of_Z 1).

Definition shrink_factor_ok (f : spec_float) : bool :=
  valid_binary 24 128 f && SFleb tenth f && SFltb f (f32_of_Z 1).

(** The factors of a table. *)
Record factors_ok (enlarge shrink : spec_float) : Prop := FactorsOk {
  fo_enlarge : factor_between 5 enlarge;
  fo_shrink : factor_between 10 shrink
}.

Section factors.
Context (enlarge shrink : spec_float) (Hfa : factors_ok enlarge shrink).

Lemma fa_enlarge k :
  0 ≤ k ≤ 63 → ∃ th, scaled_size (2 ^ k) enlarge = Some th ∧ 0 ≤ th < 2 ^ k ∧ 2 ^ k ≤ 5 * (th + 1).
Proof using Hfa. apply factor_threshold; [lia|apply Hfa]. Qed.

Lemma fa_shrink k :
  0 ≤ k ≤ 63 → ∃ th, scaled_size (2 ^ k) shrink = Some th ∧ 0 ≤ th < 2 ^ k ∧ 2 ^ k ≤ 10 * (th + 1).
Proof using Hfa. apply factor_threshold; [lia|apply Hfa]. Qed.

Lemma fa_zero : scaled_size 0 enlarge = Some 0 ∧ scaled_size 0 shrink = Some 0.
Proof using Hfa. split; eapply factor_zero, Hfa. Qed.
End factors.

Lemma factor_le_1 n f : factor_between n f → SFleb f (f32_of_Z 1) = true.
Proof.
  intros (m & e & -> & _ & He & _). change (f32_of_Z 1) with (S754_finite false 8388608 (-23)). unfold SFleb, SFcompare.
  destruct (Z.compare_spec e (-23)); [lia|done|lia].
Qed.

Lemma default_factors_ok : factors_ok (enlarge_factor settings_new) (shrink_factor settings_new).
Proof.
  assert (enlarge_factor settings_new = S754_finite false 8388608 (-24)) as -> by (vm_compute; reflexivity).
  assert (shrink_factor settings_new = S754_finite false 13421773 (-26)) as -> by (vm_compute; reflexivity).
  split; eexists _, _; (split; [done|]); (split; [done|]); split; cbn; lia.
Qed.

(** The factors [set_resizing_parameters] settles on. *)
Lemma capped_factors_ok grow shrink :
  factor_between 5 grow → factor_between 10 shrink →
  factors_ok grow (if SFltb (f32_div grow (f32_of_Z 2)) shrink then f32_div grow (f32_of_Z 2) else shrink).
Proof. intros Hg Hs. split; [done|]. destruct (SFltb _ _); [by apply (factor_half 5)|done]. Qed.

Lemma grow_factor_between f : grow_factor_ok f = true → factor_between 5 f.
Proof.
  intros [[Hv Hl]%andb_true_iff Hh]%andb_true_iff. apply (factor_weaken 4); [lia|].
  by apply (factor_of_range 4 8388608 (-25)).
Qed.

Lemma shrink_factor_between f : shrink_factor_ok f = true → factor_between 10 f.
Proof.
  intros [[Hv Hl]%andb_true_iff Hh]%andb_true_iff. by apply (factor_of_range 10 13421773 (-27)).
Qed.
