(* ===== verification/DenseInv.v ===== *)
(** * The invariant of the dense hash table, and what a probe finds

    [dense_ok k t]: the table has [2 ^ k] buckets, one of them empty; every live entry is
    on the probe of its hash with no empty bucket before it; the counters count; no live
    key occurs twice. A lookup then ends within as many probes as there are buckets. *)
From stdpp Require Import gmap.
From S2P Require Import Prelude Floats DenseTable DenseProbe.

Section invariant.
Context {K V : Type} `{Countable K}.
Context (hash_key : K → option Z) (NDEBUG : bool).

Abbreviation dtable := (dense_hashtable K V).
Implicit Type t : dtable.

(** ** Buckets *)

Definition slots t : list (K * V) := default [] (table t).
Definition slot t (i : Z) : option (K * V) := slots t !! Z.to_nat i.

Definition bempty t (b : K * V) : bool := bool_decide ((emptyval t).1 = b.1).
Definition bdel t (b : K * V) : bool := use_deleted (settings t) && bool_decide (delkey t = b.1).
Definition blive t (b : K * V) : bool := negb (bempty t b) && negb (bdel t b).

Definition live_values t : list (K * V) := filter (λ b, blive t b = true) (slots t).
Definition live_keys t : list K := (live_values t).*1.
Definition count_if (f : K * V → bool) (l : list (K * V)) : Z := Z.of_nat (length (filter (λ b, f b = true) l)).

(** The hash functor is defined on the key. *)
Definition dhashable (k : K) : Prop := ∃ h, hash_key k = Some h ∧ fits 64 h.

(** The first [n] buckets of a probe are not empty. *)
Definition before t (n h : Z) : Prop :=
  ∀ m, 0 ≤ m < n → ∃ b, slot t (probe_pos (num_buckets t) h m) = Some b ∧ bempty t b = false.

Definition reached t (i : Z) (key : K) : Prop :=
  ∃ h n, hash_key key = Some h ∧ fits 64 h ∧ 0 ≤ n ∧ probe_pos (num_buckets t) h n = i ∧ before t n h.

Record dense_ok (k : Z) t : Prop := DenseOk {
  do_size : 2 ≤ k ≤ 62 ∧ num_buckets t = 2 ^ k;
  do_table : ∃ l, table t = Some l ∧ Z.of_nat (length l) = num_buckets t;
  do_use_empty : use_empty (settings t) = true;
  do_delkey : use_deleted (settings t) = true → delkey t ≠ (emptyval t).1;
  do_elements : num_elements t = count_if (λ b, negb (bempty t b)) (slots t);
  do_deleted : num_deleted t = count_if (bdel t) (slots t);
  do_room : num_elements t < num_buckets t;
  do_nodup : NoDup (live_keys t);
  do_reach : ∀ i b, 0 ≤ i < num_buckets t → slot t i = Some b → blive t b = true → reached t i b.1;
  do_factors : factors_ok (enlarge_factor (settings t)) (shrink_factor (settings t));
  do_threshold : scaled_size (num_buckets t) (enlarge_factor (settings t)) = Some (enlarge_threshold (settings t))
}.

Lemma count_if_nonneg f l : 0 ≤ count_if f l.
Proof. unfold count_if. lia. Qed.

Lemma count_if_cons f b l : count_if f (b :: l) = Z.b2z (f b) + count_if f l.
Proof.
  unfold count_if. rewrite filter_cons. destruct (f b) eqn:Hf; [rewrite decide_True by done|rewrite decide_False by done];
    cbn [length Z.b2z]; lia.
Qed.

Lemma count_if_le f l : count_if f l ≤ Z.of_nat (length l).
Proof. unfold count_if. pose proof (length_filter (λ b, f b = true) l). lia. Qed.

(** Counting after an update. *)
Lemma count_if_insert f l i b b' :
  l !! i = Some b → count_if f (<[i := b']> l) = count_if f l - Z.b2z (f b) + Z.b2z (f b').
Proof.
  revert i. induction l as [|x l IH]; intros i Hi; [done|]. destruct i as [|i].
  - injection Hi as ->. change (<[0%nat := b']> (b :: l)) with (b' :: l). rewrite !count_if_cons. lia.
  - change (<[S i := b']> (x :: l)) with (x :: <[i := b']> l). rewrite !count_if_cons, (IH i Hi). lia.
Qed.

Lemma count_if_none f l b : count_if f l = 0 → b ∈ l → f b = false.
Proof.
  intros Hc Hb. destruct (f b) eqn:Hf; [|done]. exfalso. unfold count_if in Hc.
  assert (b ∈ filter (λ b, f b = true) l) as Hin by by apply list_elem_of_filter.
  destruct (filter _ l); [by apply elem_of_nil in Hin|cbn in Hc; lia].
Qed.

Lemma count_if_ext f g l : (∀ b, b ∈ l → f b = g b) → count_if f l = count_if g l.
Proof.
  induction l as [|b l IH]; intros Hfg; [done|]. rewrite !count_if_cons, (Hfg b) by by left.
  rewrite IH; [done|]. intros c Hc. apply Hfg. by right.
Qed.

(** Fewer entries that satisfy [f] than entries leave one that does not. *)
Lemma count_if_room f l : count_if f l < Z.of_nat (length l) → ∃ i b, l !! i = Some b ∧ f b = false.
Proof.
  induction l as [|b l IH]; [unfold count_if; cbn; lia|]. rewrite count_if_cons. cbn [length]. destruct (f b) eqn:Hb; intros Hlt.
  - destruct IH as (i & c & Hi & Hc); [cbn [Z.b2z] in Hlt; lia|]. by exists (S i), c.
  - by exists 0%nat, b.
Qed.

Lemma blive_iff t b : blive t b = true ↔ bempty t b = false ∧ bdel t b = false.
Proof. unfold blive. by rewrite andb_true_iff, !negb_true_iff. Qed.

Section ok.
Context (k : Z) (t : dtable) (Hok : dense_ok k t).

Lemma slots_length : Z.of_nat (length (slots t)) = num_buckets t.
Proof using Hok. destruct (do_table k t Hok) as (l & Hl & Hlen). unfold slots. by rewrite Hl. Qed.

Lemma buckets_pos : 4 ≤ num_buckets t ≤ 2 ^ 62.
Proof using Hok.
  destruct (do_size k t Hok) as [Hk ->]. split; [change 4 with (2 ^ 2)|]; apply Z.pow_le_mono_r; lia.
Qed.

Lemma slot_some i : 0 ≤ i < num_buckets t → ∃ b, slot t i = Some b.
Proof using Hok. intros Hi. pose proof slots_length. apply lookup_lt_is_Some_2. lia. Qed.

Lemma dense_bucket_ok i b : 0 ≤ i < num_buckets t → slot t i = Some b → dense_bucket t i = Some b.
Proof using Hok.
  intros Hi Hb. destruct (do_table k t Hok) as (l & Hl & Hlen). unfold dense_bucket. rewrite Hl. cbn [mbind option_bind].
  rewrite (proj2 (Z.leb_le _ _)) by lia. unfold slot, slots in Hb. by rewrite Hl in Hb.
Qed.

Lemma check_true c : c = true → check NDEBUG c = Some ().
Proof using. intros ->. unfold check. by rewrite orb_true_r. Qed.

Lemma test_empty_ok i b : 0 ≤ i < num_buckets t → slot t i = Some b → test_empty NDEBUG t i = Some (bempty t b).
Proof using Hok.
  intros Hi Hb. unfold test_empty. rewrite check_true by apply (do_use_empty k t Hok). cbn [mbind option_bind].
  by rewrite (dense_bucket_ok i b Hi Hb).
Qed.

(** Without a deleted key nothing is deleted. *)
Lemma deleted_use : use_deleted (settings t) = false → num_deleted t = 0.
Proof using Hok.
  intros Hu. rewrite (do_deleted k t Hok). transitivity (count_if (λ _, false) (slots t)).
  - apply count_if_ext. intros b _. unfold bdel. by rewrite Hu.
  - generalize (slots t). induction l as [|b l IH]; [done|]. by rewrite count_if_cons, IH.
Qed.

Lemma test_deleted_check : check NDEBUG (use_deleted (settings t) || (num_deleted t =? 0)) = Some ().
Proof using Hok.
  apply check_true. destruct (use_deleted (settings t)) eqn:Hu; [done|]. by rewrite deleted_use.
Qed.

Lemma test_deleted_ok i b : 0 ≤ i < num_buckets t → slot t i = Some b → test_deleted NDEBUG t i = Some (bdel t b).
Proof using Hok.
  intros Hi Hb. unfold test_deleted. rewrite test_deleted_check. cbn [mbind option_bind].
  pose proof (count_if_nonneg (bdel t) (slots t)) as Hn. rewrite <-(do_deleted k t Hok) in Hn.
  destruct (Z.ltb_spec 0 (num_deleted t)).
  - rewrite (dense_bucket_ok i b Hi Hb). cbn [mbind option_bind]. unfold bdel.
    destruct (use_deleted (settings t)) eqn:Hu; [done|]. pose proof (deleted_use Hu). lia.
  - f_equal. symmetry. apply (count_if_none _ (slots t)); [rewrite <-(do_deleted k t Hok); lia|].
    by apply list_elem_of_lookup_2 in Hb.
Qed.

Lemma deleted_not_empty b : bdel t b = true → bempty t b = false.
Proof using Hok.
  unfold bdel, bempty. intros [Hu Hb%bool_decide_eq_true]%andb_true_iff. apply bool_decide_eq_false. rewrite <-Hb.
  pose proof (do_delkey k t Hok Hu). congruence.
Qed.

Lemma counts_ok : 0 ≤ num_deleted t ≤ num_elements t.
Proof using Hok.
  rewrite (do_deleted k t Hok), (do_elements k t Hok). split; [apply count_if_nonneg|].
  generalize (slots t). induction l as [|b l IH]; [done|]. rewrite !count_if_cons.
  assert (Z.b2z (bdel t b) ≤ Z.b2z (negb (bempty t b))); [|lia].
  destruct (bdel t b) eqn:Hb; [by rewrite deleted_not_empty|apply b2z_bound].
Qed.

Lemma deleted_counted i b : slot t i = Some b → bdel t b = true → 0 < num_deleted t.
Proof using Hok.
  intros Hb Hd. pose proof counts_ok. destruct (Z.lt_ge_cases 0 (num_deleted t)); [done|].
  rewrite (count_if_none (bdel t) (slots t) b) in Hd; [done| |by apply list_elem_of_lookup_2 in Hb].
  rewrite <-(do_deleted k t Hok). lia.
Qed.

(** ** Probes *)

Lemma jump_ok h i :
  0 ≤ i < num_buckets t →
  jump t i (probe_pos (num_buckets t) h i) = (i + 1, probe_pos (num_buckets t) h (i + 1)).
Proof using Hok.
  intros Hi. pose proof buckets_pos. pose proof (probe_pos_range (num_buckets t) h i ltac:(lia)).
  destruct (do_size k t Hok) as [Hk Hn]. unfold jump.
  rewrite (wrap_small 64 (i + 1)), (wrap_small 64 (_ + (i + 1))), (wrap_small 64 (num_buckets t - 1)) by (split; lia).
  rewrite <-probe_pos_succ. f_equal. rewrite Hn. apply land_ones_wrap. lia.
Qed.

Lemma start_ok h : 0 ≤ h → Z.land h (u64 (num_buckets t - 1)) = probe_pos (num_buckets t) h 0.
Proof using Hok.
  intros Hh. pose proof buckets_pos. rewrite wrap_small by (split; lia). rewrite probe_pos_0.
  destruct (do_size k t Hok) as [Hk ->]. apply land_ones_wrap. lia.
Qed.

(** The first empty bucket of a probe. *)
Lemma empty_on_probe h : ∃ e b, 0 ≤ e < num_buckets t ∧ before t e h ∧
  slot t (probe_pos (num_buckets t) h e) = Some b ∧ bempty t b = true.
Proof using Hok.
  destruct (count_if_room (λ b, negb (bempty t b)) (slots t)) as (i & b & Hi & Hb).
  { rewrite <-(do_elements k t Hok), slots_length. apply Hok. }
  apply negb_false_iff in Hb. pose proof (lookup_lt_Some _ _ _ Hi) as Hlt. pose proof slots_length as Hlen.
  destruct (do_size k t Hok) as [Hk Hn].
  destruct (probe_pos_cover k h (Z.of_nat i)) as (e0 & He0 & Hp0); [lia..|]. rewrite <-Hn in *.
  assert (∀ f : nat, before t (Z.of_nat f) h ∨
    ∃ e b, 0 ≤ e < Z.of_nat f ∧ before t e h ∧ slot t (probe_pos (num_buckets t) h e) = Some b ∧ bempty t b = true) as Hleast.
  { induction f as [|f [IH|(e & c & He & Hc)]]; [left; intros m Hm; lia| |right; exists e, c; split; [lia|done]].
    destruct (slot_some (probe_pos (num_buckets t) h (Z.of_nat f))) as [d Hd]; [apply probe_pos_range; lia|].
    destruct (bempty t d) eqn:Hde; [right; exists (Z.of_nat f), d; split; [lia|done]|left].
    intros m Hm. destruct (decide (m = Z.of_nat f)) as [->|]; [by exists d|]. apply IH. lia. }
  destruct (Hleast (S (Z.to_nat e0))) as [Hall|(e & c & He & Hbef & Hc)].
  - destruct (Hall e0 ltac:(lia)) as (c & Hc & Hce). rewrite Hp0 in Hc. unfold slot in Hc. rewrite Nat2Z.id, Hi in Hc. congruence.
  - exists e, c. split; [lia|done].
Qed.

(** ** What [find_position] finds *)

Lemma live_key_iff key :
  key ∈ live_keys t ↔ ∃ i b, 0 ≤ i < num_buckets t ∧ slot t i = Some b ∧ blive t b = true ∧ b.1 = key.
Proof using Hok.
  pose proof slots_length as Hlen. unfold live_keys. rewrite list_elem_of_fmap. split.
  - intros (b & -> & [Hb [i Hi]%list_elem_of_lookup]%list_elem_of_filter). pose proof (lookup_lt_Some _ _ _ Hi).
    exists (Z.of_nat i), b. split; [lia|]. split; [|done]. unfold slot. by rewrite Nat2Z.id.
  - intros (i & b & Hi & Hb & Hl & <-). exists b. split; [done|]. apply list_elem_of_filter. split; [done|].
    by apply list_elem_of_lookup_2 in Hb.
Qed.

Definition position_ok (key : K) (h : Z) (r : Z * Z) : Prop :=
  (∃ i b, r = (i, ILLEGAL_BUCKET) ∧ 0 ≤ i < num_buckets t ∧ slot t i = Some b ∧ blive t b = true ∧ b.1 = key) ∨
  ((key ∉ live_keys t) ∧ ∃ n p b, r = (ILLEGAL_BUCKET, p) ∧ 0 ≤ n ∧ p = probe_pos (num_buckets t) h n ∧
    before t n h ∧ slot t p = Some b ∧ blive t b = false).

Section probe_of_key.
Context (key : K) (h e : Z) (b0 : K * V).
Context (Hkey : hash_key key = Some h) (Hbef : before t e h) (He : 0 ≤ e < num_buckets t).
Context (Hb0 : slot t (probe_pos (num_buckets t) h e) = Some b0) (Hb0e : bempty t b0 = true).

(** The key is in none of the first [i] buckets; the place to insert is one of them, or not known yet. *)
Definition missed (i : Z) : Prop :=
  ∀ m b, 0 ≤ m < i → slot t (probe_pos (num_buckets t) h m) = Some b → blive t b = true → b.1 ≠ key.

Definition place (i ins : Z) : Prop :=
  ins = ILLEGAL_BUCKET ∨
  (∃ m b, 0 ≤ m < i ∧ ins = probe_pos (num_buckets t) h m ∧ slot t ins = Some b ∧ blive t b = false).

Lemma probe_legal x : 0 ≤ probe_pos (num_buckets t) h x < num_buckets t ∧ (probe_pos (num_buckets t) h x =? ILLEGAL_BUCKET) = false.
Proof using Hok.
  pose proof buckets_pos. pose proof (probe_pos_range (num_buckets t) h x ltac:(lia)). split; [done|].
  apply Z.eqb_neq. unfold ILLEGAL_BUCKET. lia.
Qed.

Lemma missed_absent : missed e → key ∉ live_keys t.
Proof using Hok Hkey Hbef He Hb0 Hb0e.
  intros Hmiss (j & b & Hj & Hb & Hl & Hbk)%live_key_iff.
  destruct (do_reach k t Hok j b Hj Hb Hl) as (h' & n & Hh' & _ & Hn & <- & Hbn). rewrite Hbk, Hkey in Hh'. injection Hh' as <-.
  destruct (Z.lt_trichotomy n e) as [|[->|]]; [by apply (Hmiss n b)| |].
  - rewrite Hb in Hb0. injection Hb0 as ->. apply blive_iff in Hl as [Hl _]. congruence.
  - destruct (Hbn e ltac:(lia)) as (c & Hc & Hce). congruence.
Qed.

Lemma stop_at_empty ins :
  missed e → place e ins →
  position_ok key h (ILLEGAL_BUCKET, if ins =? ILLEGAL_BUCKET then probe_pos (num_buckets t) h e else ins).
Proof using Hok Hkey Hbef He Hb0 Hb0e.
  intros Hmiss Hins. right. split; [by apply missed_absent|].
  destruct Hins as [->|(m & b & Hm & -> & Hb & Hl)].
  - rewrite Z.eqb_refl. exists e, (probe_pos (num_buckets t) h e), b0. split; [done|]. split; [lia|].
    split; [done|]. split; [done|]. split; [done|]. unfold blive. by rewrite Hb0e.
  - destruct (probe_legal m) as [_ ->]. exists m, (probe_pos (num_buckets t) h m), b. split; [done|]. split; [lia|].
    split; [done|]. split; [|done]. intros x Hx. apply Hbef. lia.
Qed.

Lemma find_loop_ok fuel : ∀ i ins,
  0 ≤ i ≤ e → (Z.to_nat (e - i) ≤ fuel)%nat → missed i → place i ins →
  ∃ r, find_position_loop NDEBUG fuel t key i (probe_pos (num_buckets t) h i) ins = Some r ∧ position_ok key h r.
Proof using Hok Hkey Hbef He Hb0 Hb0e.
  induction fuel as [|fuel IH]; intros i ins Hi Hf Hmiss Hins; destruct (probe_legal i) as [Hr Hill];
    (destruct (decide (i = e)) as [->|Hne]; [|try lia]); cbn [find_position_loop].
  1, 2: rewrite (test_empty_ok _ b0) by done; cbn [mbind option_bind]; rewrite Hb0e; eexists; split; [done|by apply stop_at_empty].
  destruct (Hbef i ltac:(lia)) as (b & Hb & Hbe).
  rewrite (test_empty_ok _ b), (test_deleted_ok _ b), (dense_bucket_ok _ b) by done. cbn [mbind option_bind]. rewrite Hbe.
  destruct (negb (bdel t b) && bool_decide (key = b.1)) eqn:Hfound.
  - apply andb_true_iff in Hfound as [Hd%negb_true_iff Hbk%bool_decide_eq_true]. eexists. split; [done|]. left.
    exists (probe_pos (num_buckets t) h i), b. split; [done|]. split; [done|]. split; [done|]. split; [by apply blive_iff|done].
  - rewrite jump_ok by lia. rewrite check_true by (apply Z.ltb_lt; lia). cbn [mbind option_bind].
    apply IH; [lia|lia| |].
    + intros m c Hm Hc Hl. destruct (decide (m = i)) as [->|]; [|apply (Hmiss m); [lia|done..]].
      rewrite Hb in Hc. injection Hc as <-. intros <-. apply blive_iff in Hl as [_ Hl]. rewrite Hl in Hfound.
      by rewrite bool_decide_eq_true_2 in Hfound.
    + destruct Hins as [->|(m & c & Hm & -> & Hc)].
      * destruct (bdel t b) eqn:Hd; [|by left]. right. exists i, b. split; [lia|]. split; [done|]. split; [done|].
        unfold blive. by rewrite Hd, andb_false_r.
      * destruct (probe_legal m) as [_ ->]. rewrite andb_false_r. right. exists m, c. split; [lia|done].
Qed.
End probe_of_key.

Lemma find_position_ok key h :
  hash_key key = Some h → fits 64 h → ∃ r, find_position hash_key NDEBUG t key = Some r ∧ position_ok key h r.
Proof using Hok.
  intros Hk Hf. pose proof buckets_pos. destruct (empty_on_probe h) as (e & b & He & Hbef & Hb & Hbe).
  unfold find_position. rewrite Hk. cbn [mbind option_bind]. rewrite start_ok by apply Hf.
  apply (find_loop_ok key h e b); try done; [lia|unfold dense_fuel; lia|intros m; lia|by left].
Qed.
End ok.
End invariant.
