(* ===== verification/DenseUpdate.v ===== *)
(** * Writing a bucket of the dense hash table

    A bucket may be overwritten by a value that does not mark it empty: an insertion, an
    erasure (the deleted key is written) and an assignment keep the invariant, since no
    probe is cut short. *)
From stdpp Require Import gmap.
From S2P Require Import Prelude Floats DenseTable DenseProbe DenseInv.

(** Filtering after an update. *)
Lemma filter_insert_perm {A} (f : A → bool) (l : list A) i b v :
  l !! i = Some b →
  filter (λ x, f x = true) (<[i := v]> l) ++ (if f b then [b] else []) ≡ₚ
  filter (λ x, f x = true) l ++ (if f v then [v] else []).
Proof.
  revert i. induction l as [|x l IH]; intros i Hi; [done|]. destruct i as [|i].
  - injection Hi as ->. change (<[0%nat := v]> (b :: l)) with (v :: l). rewrite !filter_cons.
    destruct (f b) eqn:Hb, (f v) eqn:Hv; repeat first [rewrite decide_True by done|rewrite decide_False by done];
      cbn [app]; rewrite ?app_nil_r; try done; [|by rewrite Permutation_app_comm|by rewrite Permutation_app_comm].
    rewrite !(Permutation_app_comm _ [_]). cbn [app]. apply Permutation_swap.
  - change (<[S i := v]> (x :: l)) with (x :: <[i := v]> l). rewrite !filter_cons.
    destruct (decide (f x = true)); cbn [app]; [f_equiv|]; by apply IH.
Qed.

Section update.
Context {K V : Type} `{Countable K}.
Context (hash_key : K → option Z) (NDEBUG : bool) (dflt : V) (max_size : Z).

Abbreviation dtable := (dense_hashtable K V).
Abbreviation dense_ok := (dense_ok (V := V) hash_key).

(** The table after bucket [i] is set to [v] and the counters to [d] and [e]. *)
Definition dput (t : dtable) (i : Z) (v : K * V) (d e : Z) : dtable :=
  DenseTable (settings t) (delkey t) d e (num_buckets t) (emptyval t) (Some (<[Z.to_nat i := v]> (slots t))).

Lemma set_value_counts k t i v d e :
  dense_ok k t → 0 ≤ i < num_buckets t → dense_set_value (set_counts t d e) i v = Some (dput t i v d e).
Proof using.
  intros Hok Hi. destruct (do_table _ k t Hok) as (l & Hl & Hlen). unfold dense_set_value, dput, slots.
  cbn [table set_counts]. rewrite Hl. cbn [mbind option_bind default from_option].
  by rewrite (proj2 (Z.leb_le _ _)), (proj2 (Z.ltb_lt _ _)) by lia.
Qed.

Lemma set_value_ok k t i v :
  dense_ok k t → 0 ≤ i < num_buckets t → dense_set_value t i v = Some (dput t i v (num_deleted t) (num_elements t)).
Proof using. intros Hok Hi. rewrite <-(set_value_counts k) by done. by destruct t. Qed.

Lemma slot_dput t i v d e j b :
  0 ≤ i → 0 ≤ j → slot t i = Some b → slot (dput t i v d e) j = if decide (j = i) then Some v else slot t j.
Proof using.
  intros Hi Hj Hb. unfold slot, dput, slots at 1. cbn [table default from_option id].
  pose proof (lookup_lt_Some _ _ _ Hb). case_decide as Hji.
  - subst. by apply list_lookup_insert_eq.
  - apply list_lookup_insert_ne. lia.
Qed.

Lemma live_dput t i v d e b :
  slot t i = Some b →
  live_values (dput t i v d e) ++ (if blive t b then [b] else []) ≡ₚ live_values t ++ (if blive t v then [v] else []).
Proof using. intros Hb. apply (filter_insert_perm (blive t) (slots t) (Z.to_nat i) b v Hb). Qed.

Lemma before_dput t i v d e b n h :
  0 < num_buckets t → 0 ≤ i → slot t i = Some b → bempty t v = false → before t n h → before (dput t i v d e) n h.
Proof using.
  intros Hn Hi Hb Hv Hbef m Hm. change (num_buckets (dput t i v d e)) with (num_buckets t).
  pose proof (probe_pos_range (num_buckets t) h m Hn). rewrite (slot_dput t i v d e _ b) by (done || lia).
  case_decide; [by exists v|]. by apply Hbef.
Qed.

Lemma reached_dput t i v d e b j key :
  0 < num_buckets t → 0 ≤ i → slot t i = Some b → bempty t v = false →
  reached hash_key t j key → reached hash_key (dput t i v d e) j key.
Proof using.
  intros Hn Hi Hb Hv (h & n & Hh & Hf & Hn0 & Hp & Hbef). exists h, n. split; [done|]. split; [done|]. split; [done|].
  split; [done|]. by eapply before_dput.
Qed.

Lemma dput_ok k t i b v d e :
  dense_ok k t → 0 ≤ i < num_buckets t → slot t i = Some b → bempty t v = false →
  e = num_elements t + Z.b2z (bempty t b) → d = num_deleted t - Z.b2z (bdel t b) + Z.b2z (bdel t v) → e < num_buckets t →
  (blive t v = true → reached hash_key t i v.1 ∧ (v.1 ∈ live_keys t → blive t b = true ∧ b.1 = v.1)) →
  dense_ok k (dput t i v d e).
Proof using.
  intros Hok Hi Hb Hv He Hd Hroom Hlive. pose proof (buckets_pos _ k t Hok) as Hn.
  pose proof (slots_length _ k t Hok) as Hlen. pose proof (live_dput t i v d e b Hb) as Hp.
  split; try apply Hok.
  - exists (<[Z.to_nat i := v]> (slots t)). split; [done|]. rewrite length_insert. exact Hlen.
  - cbn [dput num_elements]. change (slots (dput t i v d e)) with (<[Z.to_nat i := v]> (slots t)).
    change (bempty (dput t i v d e)) with (bempty t).
    rewrite (count_if_insert _ _ _ b v Hb), <-(do_elements _ k t Hok), Hv. cbn [negb]. by destruct (bempty t b); cbn in *; lia.
  - cbn [dput num_deleted]. change (slots (dput t i v d e)) with (<[Z.to_nat i := v]> (slots t)).
    change (bdel (dput t i v d e)) with (bdel t). by rewrite (count_if_insert _ _ _ b v Hb), <-(do_deleted _ k t Hok).
  - done.
  - pose proof (do_nodup _ k t Hok) as Hnd. unfold live_keys in *. apply (fmap_Permutation fst) in Hp.
    rewrite !fmap_app in Hp. destruct (blive t v) eqn:Hlv; [destruct (Hlive eq_refl) as [_ Hin]|].
    + destruct (blive t b) eqn:Hlb; cbn in Hp.
      * destruct (decide (v.1 ∈ live_keys t)) as [Hvin|Hvout].
        -- destruct (Hin Hvin) as [_ Heq]. rewrite Heq in Hp. apply Permutation_app_inv_r in Hp. by rewrite Hp.
        -- assert (NoDup ((live_values (dput t i v d e)).*1 ++ [b.1])) as Hnd'.
           { rewrite Hp. apply NoDup_app. split; [done|]. split; [|by apply NoDup_singleton].
             intros x Hx ->%list_elem_of_singleton. by apply Hvout. }
           by apply NoDup_app in Hnd' as [? _].
      * rewrite app_nil_r in Hp. rewrite Hp. apply NoDup_app. split; [done|]. split; [|by apply NoDup_singleton].
        intros x Hx ->%list_elem_of_singleton. by destruct (Hin Hx).
    + cbn in Hp. rewrite app_nil_r in Hp. rewrite <-Hp in Hnd. by apply NoDup_app in Hnd as [? _].
  - intros j c Hj Hc Hl. change (blive (dput t i v d e)) with (blive t) in Hl.
    cbn [dput num_buckets] in Hj. rewrite (slot_dput t i v d e j b) in Hc by (done || lia).
    case_decide as Hji; [|apply (reached_dput t i v d e b); [lia|lia|done|done|by apply (do_reach _ k t Hok)]].
    injection Hc as <-. subst j. apply (reached_dput t i v d e b); [lia|lia|done|done|]. by apply Hlive.
Qed.

(** ** Insertion at the place a probe found *)
Lemma insert_at_ok k t key v h p :
  dense_ok k t → num_elements t + 1 < num_buckets t → num_buckets t ≤ max_size →
  key ≠ (emptyval t).1 → (use_deleted (settings t) = true → key ≠ delkey t) →
  hash_key key = Some h → fits 64 h → position_ok t key h (ILLEGAL_BUCKET, p) →
  ∃ t', insert_at NDEBUG max_size t (key, v) p = Some (t', p) ∧ dense_ok k t' ∧ 0 ≤ p < num_buckets t' ∧
    slot t' p = Some (key, v) ∧ live_values t' ≡ₚ (key, v) :: live_values t ∧
    settings t' = settings t ∧ emptyval t' = emptyval t ∧ delkey t' = delkey t ∧
    num_buckets t' = num_buckets t ∧ num_elements t' ≤ num_elements t + 1.
Proof using.
  intros Hok Hroom Hmax Hke Hkd Hk Hf Hpos. pose proof (buckets_pos _ k t Hok) as Hn.
  destruct Hpos as [(i & b & [= <- _] & Hi & _)|(Hout & n & p' & b & [= <-] & Hn0 & Hp & Hbef & Hb & Hl)].
  { exfalso. unfold ILLEGAL_BUCKET in Hi. lia. }
  assert (0 ≤ p < num_buckets t) as Hpr by (subst p; apply probe_pos_range; lia).
  pose proof (counts_ok _ k t Hok) as Hde.
  assert (bempty t (key, v) = false) as Hve by (apply bool_decide_eq_false_2; cbn; congruence).
  assert (bdel t (key, v) = false) as Hvd.
  { unfold bdel. destruct (use_deleted (settings t)) eqn:Hu; [|done]. apply bool_decide_eq_false_2. cbn. intros Heq. by apply Hkd. }
  set (d := num_deleted t - Z.b2z (bdel t b)). set (e := num_elements t + Z.b2z (bempty t b)).
  exists (dput t p (key, v) d e). split.
  - unfold insert_at, dense_size. rewrite wrap_small by (split; lia). rewrite (proj2 (Z.leb_gt _ _)) by lia.
    rewrite (test_deleted_ok hash_key NDEBUG k t Hok p b Hpr Hb). cbn [mbind option_bind].
    unfold d, e. destruct (bdel t b) eqn:Hbd.
    + rewrite (deleted_not_empty _ k t Hok b Hbd). pose proof (deleted_counted _ k t Hok p b Hb Hbd).
      unfold bdel in Hbd. apply andb_true_iff in Hbd as [Hu _].
      rewrite !check_true by (done || by apply Z.ltb_lt). cbn [mbind option_bind Z.b2z].
      rewrite (set_value_counts k), wrap_small by (done || split; lia). cbn [mbind option_bind]. by rewrite Z.add_0_r.
    + assert (bempty t b = true) as Hbe by (unfold blive in Hl; rewrite Hbd in Hl; by destruct (bempty t b)).
      rewrite Hbe. cbn [mbind option_bind Z.b2z]. rewrite (set_value_counts k), wrap_small by (done || split; lia). cbn [mbind option_bind].
      by rewrite Z.sub_0_r.
  - assert (blive t (key, v) = true) as Hlv by by apply blive_iff.
    split; [|split; [done|split; [rewrite (slot_dput t p _ _ _ p b), decide_True by (done || lia); done|split]]].
    + apply (dput_ok k t p b); [done|done|done|done|done|rewrite Hvd; cbn; lia|pose proof (b2z_bound (bempty t b)); lia|].
      intros _. split; [|done]. exists h, n. split; [done|]. split; [done|]. split; [done|]. by split; [subst p|].
    + pose proof (live_dput t p (key, v) d e b Hb) as Hperm. rewrite Hl, Hlv, app_nil_r in Hperm.
      by rewrite Hperm, Permutation_app_comm.
    + do 4 (split; [done|]). cbn [dput num_elements].
      unfold e. pose proof (b2z_bound (bempty t b)). lia.
Qed.

(** ** Erasure *)
Lemma set_deleted_ok k t i b :
  dense_ok k t → 0 ≤ i < num_buckets t → slot t i = Some b → blive t b = true → use_deleted (settings t) = true →
  ∃ t', set_deleted NDEBUG dflt t i = Some (t', true) ∧
    dense_ok k (set_counts t' (u64 (num_deleted t' + 1)) (num_elements t')) ∧
    b :: live_values t' ≡ₚ live_values t ∧ settings t' = settings t ∧ emptyval t' = emptyval t ∧ delkey t' = delkey t ∧
    slots t' = <[Z.to_nat i := (delkey t, dflt)]> (slots t).
Proof using.
  intros Hok Hi Hb Hl Hu. pose proof (buckets_pos _ k t Hok) as Hn. pose proof (counts_ok _ k t Hok) as Hde.
  pose proof (do_room _ k t Hok) as Hroom. apply blive_iff in Hl as Hl'. destruct Hl' as [Hbe Hbd].
  set (v := (delkey t, dflt)). assert (bdel t v = true) as Hvd by (unfold bdel; rewrite Hu; by apply bool_decide_eq_true).
  assert (blive t v = false) as Hlv by (unfold blive; by rewrite Hvd, andb_false_r).
  exists (dput t i v (num_deleted t) (num_elements t)). split; [|split; [|split; [|done]]].
  - unfold set_deleted. rewrite check_true by done. cbn [mbind option_bind].
    rewrite (test_deleted_ok hash_key NDEBUG k t Hok i b Hi Hb). cbn [mbind option_bind].
    fold v. rewrite (set_value_ok k t i v Hok Hi). cbn [mbind option_bind]. by rewrite Hbd.
  - change (set_counts _ _ _) with (dput t i v (u64 (num_deleted t + 1)) (num_elements t)).
    rewrite wrap_small by (split; lia). apply (dput_ok k t i b); try done.
    + by apply (deleted_not_empty _ k t Hok).
    + rewrite Hbe. cbn. lia.
    + rewrite Hbd, Hvd. cbn. lia.
    + by rewrite Hlv.
  - pose proof (live_dput t i v (num_deleted t) (num_elements t) b Hb) as Hperm. rewrite Hl, Hlv, app_nil_r in Hperm.
    by rewrite <-Hperm, Permutation_app_comm.
Qed.

(** ** Assignment to the value of an entry *)
Lemma assign_ok k t i b obj :
  dense_ok k t → 0 ≤ i < num_buckets t → slot t i = Some b → blive t b = true →
  ∃ t', dense_set_value t i (b.1, obj) = Some t' ∧ dense_ok k t' ∧
    b :: live_values t' ≡ₚ (b.1, obj) :: live_values t ∧
    settings t' = settings t ∧ emptyval t' = emptyval t ∧ delkey t' = delkey t.
Proof using.
  intros Hok Hi Hb Hl. pose proof (do_room _ k t Hok) as Hroom. apply blive_iff in Hl as Hl'. destruct Hl' as [Hbe Hbd].
  exists (dput t i (b.1, obj) (num_deleted t) (num_elements t)). split; [by apply (set_value_ok k)|].
  assert (blive t (b.1, obj) = true) as Hlv by exact Hl. split; [|split; [|done]].
  - assert (bdel t (b.1, obj) = false) as Hvd by exact Hbd.
    apply (dput_ok k t i b); [done|done|done|exact Hbe|rewrite Hbe; cbn; lia|rewrite Hbd, Hvd; cbn; lia|done|].
    intros _. split; [exact (do_reach _ k t Hok i b Hi Hb Hl)|done].
  - pose proof (live_dput t i (b.1, obj) (num_deleted t) (num_elements t) b Hb) as Hperm. rewrite Hl, Hlv in Hperm.
    by rewrite !(Permutation_app_comm _ [_]) in Hperm.
Qed.
End update.
