(* ===== verification/DenseResize.v ===== *)
(** * Iterating over and resizing the dense hash table

    An iteration meets the live entries in order. A copy into another size has them and
    nothing else, whatever was deleted; the sizes chosen leave room. *)
From stdpp Require Import gmap.
From S2P Require Import Prelude Floats DenseTable DenseProbe DenseInv DenseUpdate.

(** [min_buckets]: the least power of two that is at least 4, at least what is wanted, and
    not too crowded. *)
Definition least_size (enlarge : spec_float) (num_elts wanted k : Z) : Prop :=
  (∃ th, scaled_size (2 ^ k) enlarge = Some th ∧ num_elts < th < 2 ^ k) ∧ wanted ≤ 2 ^ k ∧
  (k = 2 ∨ 2 ^ (k - 1) < wanted ∨ ∃ th, scaled_size (2 ^ (k - 1)) enlarge = Some th ∧ th ≤ num_elts).

Lemma min_buckets_loop_ok s num_elts wanted fuel :
  factors_ok (enlarge_factor s) (shrink_factor s) → 0 ≤ num_elts < 2 ^ 57 → wanted ≤ 2 ^ 61 →
  ∀ j, 2 ≤ j ≤ 61 → (Z.to_nat (61 - j) ≤ fuel)%nat →
  (j = 2 ∨ 2 ^ (j - 1) < wanted ∨ ∃ th, scaled_size (2 ^ (j - 1)) (enlarge_factor s) = Some th ∧ th ≤ num_elts) →
  ∃ k, min_buckets_loop fuel s num_elts wanted (2 ^ j) = Some (2 ^ k) ∧ j ≤ k ≤ 61 ∧
    least_size (enlarge_factor s) num_elts wanted k.
Proof.
  intros Hfa Hn Hw. induction fuel as [|fuel IH]; intros j Hj Hf Hleast; cbn [min_buckets_loop];
    destruct (fa_enlarge _ _ Hfa j ltac:(lia)) as (th & Hth & Hb & H5).
  all: assert (∃ more, (if 2 ^ j <? wanted then Some true else t ← enlarge_size s (2 ^ j); Some (t <=? num_elts)) = Some more ∧
    (more = false → wanted ≤ 2 ^ j ∧ num_elts < th) ∧ (more = true → 2 ^ j < wanted ∨ th ≤ num_elts)) as (more & -> & Hno & Hyes)
    by (destruct (Z.ltb_spec (2 ^ j) wanted); [exists true; split; [done|]; split; [done|auto]|];
        unfold enlarge_size; rewrite Hth; cbn [mbind option_bind]; eexists; split; [done|];
        split; [intros ?%Z.leb_gt; lia|intros ?%Z.leb_le; lia]).
  - assert (j = 61) as -> by lia. cbn [mbind option_bind]. destruct more; [destruct (Hyes eq_refl); lia|].
    exists 61. split; [done|]. split; [lia|]. split; [exists th; split; [done|]; lia|]. split; [lia|done].
  - cbn [mbind option_bind]. destruct more.
    + assert (j < 61) as Hlt by (destruct (Hyes eq_refl) as [|]; destruct (Z.eq_dec j 61) as [->|]; lia).
      assert (2 ^ (j + 1) = 2 * 2 ^ j) as E by (rewrite Z.pow_add_r by lia; lia).
      assert (2 ^ (j + 1) ≤ 2 ^ 61) by (apply Z.pow_le_mono_r; lia). assert (0 < 2 ^ j) by lia.
      rewrite wrap_small by (split; lia). rewrite (proj2 (Z.ltb_ge _ _)) by lia.
      replace (2 ^ j * 2) with (2 ^ (j + 1)) by lia.
      destruct (IH (j + 1)) as (k & Hk & Hjk & Hl); [lia|lia| |exists k; split; [done|split; [lia|done]]].
      right. replace (j + 1 - 1) with j by lia. destruct (Hyes eq_refl); [by left|right]. by exists th.
    + exists j. split; [done|]. split; [lia|]. destruct (Hno eq_refl).
      split; [exists th; split; [done|]; lia|]. split; [lia|done].
Qed.

Lemma min_buckets_ok s num_elts wanted :
  factors_ok (enlarge_factor s) (shrink_factor s) → 0 ≤ num_elts < 2 ^ 57 → wanted ≤ 2 ^ 61 →
  ∃ k, min_buckets s num_elts wanted = Some (2 ^ k) ∧ 2 ≤ k ≤ 61 ∧ least_size (enlarge_factor s) num_elts wanted k.
Proof.
  intros Hfa Hn Hw. unfold min_buckets. change HT_MIN_BUCKETS with (2 ^ 2).
  apply min_buckets_loop_ok; [done|done|done|lia|lia|by left].
Qed.

(** The size found is not much more than needed. *)
Lemma least_size_bound enlarge shrink num_elts wanted k :
  factors_ok enlarge shrink → 2 ≤ k ≤ 63 → least_size enlarge num_elts wanted k →
  2 ^ k ≤ Z.max 4 (Z.max (2 * wanted) (10 * (num_elts + 1))).
Proof.
  intros Hfa Hk (_ & _ & [->|[Hw|(th & Hth & Hle)]]); [lia| |];
    (assert (2 ^ k = 2 * 2 ^ (k - 1)) as -> by (rewrite <-Z.pow_succ_r by lia; f_equal; lia)); [lia|].
  destruct (fa_enlarge _ _ Hfa (k - 1) ltac:(lia)) as (th' & Hth' & _ & H5). rewrite Hth in Hth'. injection Hth' as <-. lia.
Qed.

Section resize.
Context {K V : Type} `{Countable K}.
Context (hash_key : K → option Z) (NDEBUG : bool).

Abbreviation dtable := (dense_hashtable K V).
Abbreviation dense_ok := (dense_ok (V := V) hash_key).

(** ** Iteration *)

(** The position of the first live entry of a suffix of the array. *)
Fixpoint first_live (t : dtable) (l : list (K * V)) (i : Z) : Z :=
  match l with
  | [] => i
  | b :: l => if blive t b then i else first_live t l (i + 1)
  end.

Lemma suffix_slot k t pre b l :
  dense_ok k t → slots t = pre ++ b :: l →
  0 ≤ Z.of_nat (length pre) < num_buckets t ∧ slot t (Z.of_nat (length pre)) = Some b.
Proof using.
  intros Hok Hs. pose proof (slots_length _ k t Hok) as Hlen. rewrite Hs, length_app in Hlen. cbn [length] in Hlen.
  split; [lia|]. unfold slot. rewrite Nat2Z.id, Hs. by apply list_lookup_middle.
Qed.

Lemma advance_ok k t l : ∀ pre fuel,
  dense_ok k t → slots t = pre ++ l → (length l ≤ fuel)%nat →
  advance_past_empty_and_deleted NDEBUG fuel t (Z.of_nat (length pre)) = Some (first_live t l (Z.of_nat (length pre))).
Proof using.
  induction l as [|b l IH]; intros pre fuel Hok Hs Hf; cbn [first_live].
  - pose proof (slots_length _ k t Hok) as Hlen. rewrite Hs, app_nil_r in Hlen.
    destruct fuel; cbn [advance_past_empty_and_deleted]; by rewrite Hlen, Z.eqb_refl.
  - destruct (suffix_slot k t pre b l Hok Hs) as [Hr Hb]. destruct fuel as [|fuel]; [cbn in Hf; lia|].
    cbn [advance_past_empty_and_deleted]. rewrite (proj2 (Z.eqb_neq _ _)) by lia.
    rewrite (test_empty_ok hash_key NDEBUG k t Hok _ b Hr Hb), (test_deleted_ok hash_key NDEBUG k t Hok _ b Hr Hb).
    cbn [mbind option_bind]. unfold blive.
    specialize (IH (pre ++ [b]) fuel Hok). rewrite length_app in IH. cbn [length] in IH.
    replace (Z.of_nat (length pre + 1)) with (Z.of_nat (length pre) + 1) in IH by lia.
    rewrite <-app_assoc in IH. specialize (IH Hs ltac:(cbn in Hf; lia)).
    destruct (bempty t b), (bdel t b); cbn [mbind option_bind negb andb]; done.
Qed.

Lemma dense_iterate_ok k t l : ∀ pre fuel,
  dense_ok k t → slots t = pre ++ l → (length l ≤ fuel)%nat →
  dense_iterate NDEBUG fuel t (first_live t l (Z.of_nat (length pre))) = Some (filter (λ b, blive t b = true) l).
Proof using.
  induction l as [|b l IH]; intros pre fuel Hok Hs Hf; cbn [first_live].
  - pose proof (slots_length _ k t Hok) as Hlen. rewrite Hs, app_nil_r in Hlen.
    destruct fuel; cbn [dense_iterate]; by rewrite Hlen, Z.eqb_refl.
  - destruct (suffix_slot k t pre b l Hok Hs) as [Hr Hb]. pose proof (slots_length _ k t Hok) as Hlen.
    rewrite filter_cons. specialize (IH (pre ++ [b])). rewrite length_app in IH. cbn [length] in IH.
    replace (Z.of_nat (length pre + 1)) with (Z.of_nat (length pre) + 1) in IH by lia. rewrite <-app_assoc in IH.
    destruct (blive t b) eqn:Hl; [rewrite decide_True by done|rewrite decide_False by done; apply IH; [done|done|cbn in Hf; lia]].
    destruct fuel as [|fuel]; [cbn in Hf; lia|]. cbn [dense_iterate].
    rewrite (proj2 (Z.eqb_neq _ _)) by lia. rewrite (dense_bucket_ok _ k t Hok _ b Hr Hb). cbn [mbind option_bind].
    unfold dense_next. rewrite check_true by (apply negb_true_iff, Z.eqb_neq; lia). cbn [mbind option_bind].
    pose proof (advance_ok k t l (pre ++ [b]) (dense_fuel t) Hok) as Ha. rewrite length_app in Ha. cbn [length] in Ha.
    replace (Z.of_nat (length pre + 1)) with (Z.of_nat (length pre) + 1) in Ha by lia.
    rewrite Ha; [|by rewrite <-app_assoc|].
    + cbn [mbind option_bind]. rewrite IH by (done || cbn in Hf; lia). done.
    + unfold dense_fuel. rewrite Hs, length_app in Hlen. cbn in Hlen. lia.
Qed.

(** The iteration from [begin()] to [end()] ends and meets the live entries. *)
Lemma iterate_live k t :
  dense_ok k t →
  (b ← dense_begin NDEBUG t; dense_iterate NDEBUG (dense_fuel t) t b) = Some (live_values t).
Proof using.
  intros Hok. pose proof (slots_length _ k t Hok) as Hlen. unfold dense_begin.
  pose proof (advance_ok k t (slots t) [] (dense_fuel t) Hok eq_refl ltac:(unfold dense_fuel; lia)) as Ha.
  change (Z.of_nat (length (@nil (K * V)))) with 0 in Ha. rewrite Ha. cbn [mbind option_bind].
  apply (dense_iterate_ok k t (slots t) [] (dense_fuel t) Hok eq_refl). unfold dense_fuel. lia.
Qed.

(** ** Copying *)

(** What a copy keeps of the settings. *)
Definition same_rules (s s' : sh_settings) : Prop :=
  enlarge_factor s' = enlarge_factor s ∧ shrink_factor s' = shrink_factor s ∧ use_empty s' = use_empty s ∧
  use_deleted s' = use_deleted s.

Lemma reset_thresholds_ok s k :
  factors_ok (enlarge_factor s) (shrink_factor s) → 0 ≤ k ≤ 63 →
  ∃ s', reset_thresholds s (2 ^ k) = Some s' ∧ same_rules s s' ∧ consider_shrink s' = false ∧
    scaled_size (2 ^ k) (enlarge_factor s) = Some (enlarge_threshold s').
Proof using.
  intros Hfa Hk. destruct (fa_enlarge _ _ Hfa k Hk) as (e & He & _). destruct (fa_shrink _ _ Hfa k Hk) as (d & Hd & _).
  unfold reset_thresholds, enlarge_size, shrink_size. rewrite He, Hd. cbn [mbind option_bind]. eexists. split; [done|]. by split.
Qed.

(** A table without entries. *)
Lemma empty_table_ok k s dk ev :
  2 ≤ k ≤ 62 → factors_ok (enlarge_factor s) (shrink_factor s) → use_empty s = true →
  (use_deleted s = true → dk ≠ ev.1) → scaled_size (2 ^ k) (enlarge_factor s) = Some (enlarge_threshold s) →
  dense_ok k (DenseTable s dk 0 0 (2 ^ k) ev (Some (replicate (Z.to_nat (2 ^ k)) ev))) ∧
  live_values (DenseTable s dk 0 0 (2 ^ k) ev (Some (replicate (Z.to_nat (2 ^ k)) ev))) = [].
Proof using.
  intros Hk Hfa Hu Hd Hth. set (t := DenseTable _ _ _ _ _ _ _). assert (0 < 2 ^ k) by lia.
  assert (∀ b, b ∈ slots t → b = ev) as Hall by (intros b [? _]%elem_of_replicate; done).
  assert (bempty t ev = true) as He by by apply bool_decide_eq_true.
  assert (blive t ev = false) as Hlv by (unfold blive; by rewrite He).
  assert (bdel t ev = false) as Hdv.
  { unfold bdel. cbn [t settings delkey]. destruct (use_deleted s) eqn:Hus; [|done]. apply bool_decide_eq_false. by apply Hd. }
  assert (live_values t = []) as Hl.
  { unfold live_values. generalize Hall. generalize (slots t). induction l as [|b l IH]; intros Hl; [done|].
    rewrite filter_cons, (Hl b) by by left. rewrite decide_False by by rewrite Hlv. apply IH. intros c Hc. apply Hl. by right. }
  assert (∀ f, f ev = false → count_if f (slots t) = 0) as Hc.
  { intros f Hf. unfold count_if. transitivity (count_if (λ _, false) (slots t)).
    - apply count_if_ext. intros b Hb. by rewrite (Hall b Hb).
    - generalize (slots t). induction l as [|b l IH]; [done|]. by rewrite count_if_cons, IH. }
  split; [|done]. split; try done.
  - eexists. split; [done|]. rewrite length_replicate. cbn [t num_buckets]. lia.
  - rewrite Hc; [done|]. by rewrite He.
  - by rewrite Hc.
  - unfold live_keys. rewrite Hl. constructor.
  - intros i b Hi Hb Hlb. apply list_elem_of_lookup_2 in Hb. rewrite (Hall b Hb) in Hlb. congruence.
Qed.

Lemma first_empty_ok k t h e b0 fuel :
  dense_ok k t → before t e h → 0 ≤ e < num_buckets t → slot t (probe_pos (num_buckets t) h e) = Some b0 → bempty t b0 = true →
  ∀ i, 0 ≤ i ≤ e → (Z.to_nat (e - i) ≤ fuel)%nat →
  first_empty NDEBUG fuel t i (probe_pos (num_buckets t) h i) = Some (probe_pos (num_buckets t) h e).
Proof using.
  intros Hok Hbef He Hb0 Hb0e. pose proof (buckets_pos _ k t Hok) as Hn.
  assert (∀ x, 0 ≤ probe_pos (num_buckets t) h x < num_buckets t) as Hr by (intros; apply probe_pos_range; lia).
  induction fuel as [|fuel IH]; intros i Hi Hf; (destruct (decide (i = e)) as [->|Hne]; [|try lia]); cbn [first_empty].
  1, 2: rewrite (test_empty_ok hash_key NDEBUG k t Hok _ b0) by done; cbn [mbind option_bind]; by rewrite Hb0e.
  destruct (Hbef i ltac:(lia)) as (b & Hb & Hbe).
  rewrite (test_empty_ok hash_key NDEBUG k t Hok _ b) by done. cbn [mbind option_bind]. rewrite Hbe.
  rewrite check_true by (rewrite wrap_small by (split; lia); apply Z.ltb_lt; lia). cbn [mbind option_bind].
  rewrite (jump_ok _ k t Hok) by lia. apply IH; lia.
Qed.

(** What may be copied into the table: distinct keys that mark nothing. *)
Definition copyable (t : dtable) (b : K * V) : Prop := blive t b = true ∧ dhashable hash_key b.1.

Lemma copy_values_ok k l : ∀ t,
  dense_ok k t → Forall (copyable t) l → NoDup (l.*1 ++ live_keys t) →
  num_elements t + Z.of_nat (length l) < num_buckets t →
  ∃ t', copy_values hash_key NDEBUG t l = Some t' ∧ dense_ok k t' ∧ live_values t' ≡ₚ l ++ live_values t ∧
    num_elements t' = num_elements t + Z.of_nat (length l) ∧ num_deleted t' = num_deleted t ∧
    settings t' = settings t ∧ emptyval t' = emptyval t ∧ delkey t' = delkey t ∧ num_buckets t' = num_buckets t.
Proof using.
  induction l as [|v l IH]; intros t Hok Hl Hnd Hroom.
  { exists t. split; [done|]. split; [done|]. split; [done|]. split; [cbn; lia|done]. }
  apply Forall_cons in Hl as [[Hv (h & Hh & Hf)] Hl]. cbn [fmap list_fmap app] in Hnd. apply NoDup_cons in Hnd as [Hnin Hnd].
  cbn [length] in Hroom. pose proof (buckets_pos _ k t Hok) as Hn. pose proof (counts_ok _ k t Hok) as Hde.
  destruct (empty_on_probe _ k t Hok h) as (e & b & He & Hbef & Hb & Hbe).
  set (p := probe_pos (num_buckets t) h e) in *. assert (0 ≤ p < num_buckets t) as Hp by (apply probe_pos_range; lia).
  cbn [copy_values]. rewrite Hh. cbn [mbind option_bind]. rewrite (start_ok _ k t Hok) by apply Hf.
  rewrite (first_empty_ok k t h e b) by (done || unfold dense_fuel; lia). fold p. cbn [mbind option_bind].
  rewrite (set_value_ok _ k t p v Hok Hp). cbn [mbind option_bind dput num_deleted num_elements].
  change (set_counts _ _ _) with (dput t p v (num_deleted t) (u64 (num_elements t + 1))).
  rewrite wrap_small by (split; lia). apply blive_iff in Hv as Hv'. destruct Hv' as [Hve Hvd].
  assert (bdel t b = false) as Hbd by (destruct (bdel t b) eqn:Hbd; [by rewrite (deleted_not_empty _ k t Hok b Hbd) in Hbe|done]).
  assert (dense_ok k (dput t p v (num_deleted t) (num_elements t + 1))) as Hok1.
  { apply (dput_ok _ k t p b); [done|done|done|done|rewrite Hbe; cbn; lia|rewrite Hbd, Hvd; cbn; lia|lia|].
    intros _. split; [|intros Hin; exfalso; apply Hnin, elem_of_app; by right].
    exists h, e. split; [done|]. split; [done|]. split; [lia|]. by split. }
  assert (live_values (dput t p v (num_deleted t) (num_elements t + 1)) ≡ₚ v :: live_values t) as Hp1.
  { pose proof (live_dput t p v (num_deleted t) (num_elements t + 1) b Hb) as Hperm. 
    assert (blive t b = false) as Hlb by (unfold blive; by rewrite Hbe). rewrite Hlb, Hv, app_nil_r in Hperm. by rewrite Hperm, Permutation_app_comm. }
  destruct (IH (dput t p v (num_deleted t) (num_elements t + 1)) Hok1) as (t' & Ht' & Hok' & Hp' & He' & Hrest).
  - exact Hl.
  - unfold live_keys. rewrite Hp1. cbn [fmap list_fmap]. rewrite <-Permutation_middle. by apply NoDup_cons.
  - cbn [dput num_elements num_buckets]. lia.
  - exists t'. split; [exact Ht'|]. split; [done|]. split; [rewrite Hp', Hp1; by rewrite <-Permutation_middle|].
    cbn [dput num_elements] in He'. split; [cbn [length]; lia|exact Hrest].
Qed.

(** Other settings that mark the same buckets. *)
Lemma new_settings_ok k t s :
  dense_ok k t → factors_ok (enlarge_factor s) (shrink_factor s) → use_empty s = use_empty (settings t) →
  use_deleted s = use_deleted (settings t) → scaled_size (num_buckets t) (enlarge_factor s) = Some (enlarge_threshold s) →
  dense_ok k (set_settings t s) ∧ live_values (set_settings t s) = live_values t.
Proof using.
  intros Hok Hfa Hu Hd Hth. set (t' := set_settings t s).
  assert (∀ b, bdel t' b = bdel t b) as Hbd by (intros b; unfold bdel; cbn [t' set_settings settings delkey]; by rewrite Hd).
  assert (∀ b, blive t' b = blive t b) as Hbl by (intros b; unfold blive; by rewrite Hbd).
  assert (live_values t' = live_values t) as Hl.
  { unfold live_values. apply list_filter_iff. intros b. by rewrite Hbl. }
  split; [|done]. split; cbn [t' set_settings settings num_buckets num_elements num_deleted table emptyval delkey]; try done; try apply Hok.
  - rewrite Hu. apply Hok.
  - rewrite Hd. apply Hok.
  - rewrite (do_deleted _ k t Hok). apply count_if_ext. intros b _. by rewrite Hbd.
  - unfold live_keys. rewrite Hl. apply Hok.
  - intros i b Hi Hb Hlb. rewrite Hbl in Hlb. by apply (do_reach _ k t Hok).
Qed.

Lemma set_settings_ok k t s :
  dense_ok k t → same_rules (settings t) s →
  scaled_size (num_buckets t) (enlarge_factor (settings t)) = Some (enlarge_threshold s) →
  dense_ok k (set_settings t s) ∧ live_values (set_settings t s) = live_values t.
Proof using.
  intros Hok (He & Hsh & Hu & Hd) Hth. apply new_settings_ok; [done| |done|done|by rewrite He].
  rewrite He, Hsh. apply Hok.
Qed.

Lemma count_split (f g h : K * V → bool) l :
  (∀ b, Z.b2z (f b) = Z.b2z (g b) + Z.b2z (h b)) → count_if f l = count_if g l + count_if h l.
Proof using. intros Hf. induction l as [|b l IH]; [done|]. rewrite !count_if_cons, IH, Hf. lia. Qed.

Lemma size_live k t : dense_ok k t →
  num_elements t - num_deleted t = Z.of_nat (length (live_values t)) ∧ dense_size t = Z.of_nat (length (live_values t)).
Proof using.
  intros Hok. assert (num_elements t = num_deleted t + count_if (blive t) (slots t)) as Hc.
  { rewrite (do_elements _ k t Hok), (do_deleted _ k t Hok). apply count_split. intros b. unfold blive.
    destruct (bdel t b) eqn:Hd; [by rewrite (deleted_not_empty _ k t Hok b Hd)|]. by destruct (bempty t b). }
  change (count_if (blive t) (slots t)) with (Z.of_nat (length (live_values t))) in Hc.
  pose proof (counts_ok _ k t Hok). pose proof (do_room _ k t Hok). pose proof (buckets_pos _ k t Hok).
  unfold dense_size. rewrite wrap_small by (split; lia). lia.
Qed.

(** The live entries may be copied into an empty table with the same special keys. *)
Lemma live_copyable k t t' :
  dense_ok k t → emptyval t' = emptyval t → delkey t' = delkey t → use_deleted (settings t') = use_deleted (settings t) →
  Forall (copyable t') (live_values t).
Proof using.
  intros Hok He Hd Hu. apply Forall_forall. intros b [Hl [i Hi]%list_elem_of_lookup]%list_elem_of_filter. split.
  - unfold blive, bempty, bdel in *. by rewrite He, Hd, Hu.
  - pose proof (slots_length _ k t Hok). pose proof (lookup_lt_Some _ _ _ Hi).
    destruct (do_reach _ k t Hok (Z.of_nat i) b) as (h & n & Hh & Hf & _); [lia|unfold slot; by rewrite Nat2Z.id|done|].
    by exists h.
Qed.

(** What is true of a copy: the live entries, nothing deleted, and room. *)
Definition copied (t t' : dtable) (wanted k' : Z) : Prop :=
  dense_ok k' t' ∧ live_values t' ≡ₚ live_values t ∧ num_elements t' = Z.of_nat (length (live_values t)) ∧
  num_deleted t' = 0 ∧ same_rules (settings t) (settings t') ∧ consider_shrink (settings t') = false ∧
  emptyval t' = emptyval t ∧ delkey t' = delkey t ∧
  k' ≤ 61 ∧ least_size (enlarge_factor (settings t)) (Z.of_nat (length (live_values t))) wanted k'.

Lemma pow2_check k : 0 ≤ k ≤ 62 → check NDEBUG (Z.land (2 ^ k) (u64 (2 ^ k - 1)) =? 0) = Some ().
Proof using.
  intros Hk. assert (2 ^ k ≤ 2 ^ 62) by (apply Z.pow_le_mono_r; lia). assert (0 < 2 ^ k) by lia.
  apply check_true, Z.eqb_eq. rewrite wrap_small by (split; lia). rewrite land_ones_wrap by lia.
  apply Z_mod_same_full.
Qed.

Lemma copy_from_ok k t t0 wanted :
  dense_ok k t → same_rules (settings t) (settings t0) → emptyval t0 = emptyval t → delkey t0 = delkey t →
  Z.of_nat (length (live_values t)) < 2 ^ 57 → wanted ≤ 2 ^ 61 →
  ∃ k' t', copy_from hash_key NDEBUG t0 t wanted = Some t' ∧ copied t t' wanted k'.
Proof using.
  intros Hok (He0 & Hsh0 & Hu0 & Hd0) Hev0 Hdk0 Hlen Hw. pose proof (do_factors _ k t Hok) as Hfa.
  destruct (size_live k t Hok) as [_ Hsz]. unfold copy_from. rewrite Hsz. set (s0 := settings t0) in *.
  assert (factors_ok (enlarge_factor s0) (shrink_factor s0)) as Hfa0 by by rewrite He0, Hsh0.
  destruct (min_buckets_ok s0 (Z.of_nat (length (live_values t))) wanted Hfa0 (conj (Nat2Z.is_nonneg _) Hlen) Hw) as (k' & -> & Hk' & Hleast).
  cbn [mbind option_bind]. unfold clear_to_size. fold s0. rewrite Hev0, Hdk0.
  destruct (reset_thresholds_ok s0 k' Hfa0 ltac:(lia)) as (s1 & -> & (He1 & Hsh1 & Hu1 & Hd1) & Hc1 & Hth1).
  cbn [mbind option_bind num_buckets]. rewrite pow2_check by lia. cbn [mbind option_bind].
  pose proof (iterate_live k t Hok) as Hit. apply bind_Some in Hit as (b & -> & Hit). cbn [mbind option_bind]. rewrite Hit.
  cbn [mbind option_bind].
  destruct (empty_table_ok k' s1 (delkey t) (emptyval t)) as [Hok1 Hl1].
  { lia. } { by rewrite He1, Hsh1. } { rewrite Hu1, Hu0. apply Hok. } { rewrite Hd1, Hd0. apply Hok. } { by rewrite He1. }
  set (t1 := DenseTable s1 _ _ _ _ _ _) in *.
  destruct Hleast as (Hth & Hleast). pose proof Hth as (th & Hth' & Hlt).
  destruct (copy_values_ok k' (live_values t) t1 Hok1) as (t2 & -> & Hok2 & Hp2 & Hn2 & Hd2 & Hs2 & Hev2 & Hdk2 & Hnb2).
  - apply (live_copyable k); [done|done|done|]. cbn [t1 settings]. by rewrite Hd1, Hd0.
  - unfold live_keys. rewrite Hl1. cbn [fmap list_fmap]. rewrite app_nil_r. apply Hok.
  - cbn [t1 num_elements num_buckets]. lia.
  - cbn [mbind option_bind]. destruct (set_settings_ok k' t2 (inc_num_ht_copies (settings t2)) Hok2) as [Hok3 Hl3];
      [by split|apply (do_threshold _ k' t2 Hok2)|].
    exists k'. eexists. split; [done|]. split; [exact Hok3|]. split; [rewrite Hl3, Hp2, Hl1; by rewrite app_nil_r|].
    cbn [set_settings num_elements num_deleted settings emptyval delkey inc_num_ht_copies consider_shrink].
    rewrite Hn2, Hd2, Hs2. split; [done|]. split; [done|].
    split; [unfold same_rules; cbn [t1 settings inc_num_ht_copies enlarge_factor shrink_factor use_empty use_deleted];
            rewrite He1, Hsh1, Hu1, Hd1; done|].
    split; [done|]. split; [done|]. split; [done|]. split; [lia|]. split; [by rewrite <-He0|rewrite <-He0; exact Hleast].
Qed.

Lemma dense_copy_ok k t wanted :
  dense_ok k t → Z.of_nat (length (live_values t)) < 2 ^ 57 → wanted ≤ 2 ^ 61 →
  ∃ k' t', dense_copy hash_key NDEBUG t wanted = Some t' ∧ copied t t' wanted k'.
Proof using.
  intros Hok Hlen Hw. destruct (fa_zero _ _ (do_factors _ k t Hok)) as [Hz1 Hz2].
  unfold dense_copy. rewrite (do_use_empty _ k t Hok). cbn [negb].
  unfold reset_thresholds, enlarge_size, shrink_size. rewrite Hz1, Hz2. cbn [mbind option_bind].
  by apply (copy_from_ok k).
Qed.

Lemma resize_to_ok k t wanted :
  dense_ok k t → Z.of_nat (length (live_values t)) < 2 ^ 57 → wanted ≤ 2 ^ 61 →
  ∃ k' t', resize_to hash_key NDEBUG t wanted = Some t' ∧ copied t t' wanted k'.
Proof using.
  intros Hok Hlen Hw. destruct (dense_copy_ok k t wanted Hok Hlen Hw) as (k' & t1 & Ht1 & Hc).
  unfold resize_to. rewrite Ht1. cbn [mbind option_bind]. destruct Hc as (Hok1 & Hp & Hn & Hd & Hr & Hcs & Hev & Hdk & Hk' & Hl).
  pose proof (do_size _ k t Hok) as [Hk Hnb]. pose proof (do_size _ k' t1 Hok1) as [Hk1 Hnb1].
  unfold dense_swap. rewrite Hnb, Hnb1.
  destruct (reset_thresholds_ok (settings t1) k' (do_factors _ k' t1 Hok1) ltac:(lia)) as (s & -> & Hs & Hcs' & Hth).
  destruct (reset_thresholds_ok (settings t) k (do_factors _ k t Hok) ltac:(lia)) as (s' & -> & _).
  cbn [mbind option_bind]. destruct (set_settings_ok k' t1 s Hok1 Hs) as [Hok2 Hl2]; [by rewrite Hnb1|].
  exists k'. eexists. split; [done|]. split; [exact Hok2|]. split; [by rewrite Hl2|].
  cbn [set_settings num_elements num_deleted settings emptyval delkey]. split; [done|]. split; [done|].
  split; [|done]. destruct Hr as (? & ? & ? & ?), Hs as (? & ? & ? & ?). unfold same_rules. by repeat split; etrans.
Qed.
End resize.

(** * Growing and shrinking the dense hash table

    A table of up to [2 ^ 40] buckets with fewer than [2 ^ 34] entries keeps its entries
    when it shrinks or grows, stays under that bound, and has room after it grew. *)

Section dense.
Context {K V : Type} `{Countable K}.
Context (hash_key : K → option Z) (NDEBUG : bool) (dflt : V) (max_size : Z).

Abbreviation dtable := (dense_hashtable K V).
Abbreviation dense_ok := (dense_ok (V := V) hash_key).
Abbreviation copied := (copied (V := V) hash_key).

(** ** Sizes *)

Lemma least_size_pow2 enlarge shrink num_elts j k :
  factors_ok enlarge shrink → 2 ≤ j ≤ 62 → 2 ≤ k ≤ 63 → least_size enlarge num_elts (2 ^ j) k →
  2 ^ k ≤ Z.max (2 ^ j) (10 * (num_elts + 1)).
Proof using.
  intros Hfa Hj Hk (Hth & Hw & Hl). destruct Hl as [->|[Hlt|Hl]].
  - assert (2 ^ 2 ≤ 2 ^ j) by (apply Z.pow_le_mono_r; lia). lia.
  - apply Z.pow_lt_mono_r_iff in Hlt; [|lia..]. assert (2 ^ k ≤ 2 ^ j) by (apply Z.pow_le_mono_r; lia). lia.
  - assert (least_size enlarge num_elts 0 k) as Hl0 by (split; [done|]; split; [lia|]; by right; right).
    pose proof (least_size_bound enlarge shrink num_elts 0 k Hfa Hk Hl0).
    assert (2 ^ 2 ≤ 2 ^ j) by (apply Z.pow_le_mono_r; lia). lia.
Qed.

Lemma shrink_to_ok num_remain sz f : 0 ≤ sz < 2 ^ 62 → ∃ sz', shrink_to num_remain sz f = Some sz' ∧ sz' ≤ sz.
Proof using.
  intros Hsz. unfold shrink_to.
  destruct (while_total (λ s, 0 ≤ s ≤ sz) (λ s, Z.to_nat (Z.log2 s))
    (λ sz, (HT_DEFAULT_STARTING_BUCKETS <? sz) && SFltb (f32_of_Z num_remain) (f32_mul (f32_of_Z sz) f))
    (λ sz, Some (sz / 2))) with (fuel := 64%nat) (s := sz) as (s' & Hs' & Hb & _).
  - intros s Hs [Hlt%Z.ltb_lt _]%andb_true_iff. unfold HT_DEFAULT_STARTING_BUCKETS in Hlt. exists (s / 2). split; [done|].
    assert (0 ≤ s / 2 ≤ s) by (split; [apply Z.div_pos|apply Z.div_le_upper_bound]; lia). split; [lia|].
    pose proof (Z.log2_shiftr s 1 ltac:(lia)) as Hlog. rewrite Z.shiftr_div_pow2 in Hlog by lia. change (2 ^ 1) with 2 in Hlog.
    assert (5 ≤ Z.log2 s) by (apply Z.log2_le_pow2; lia). lia.
  - lia.
  - destruct (Z.eq_dec sz 0) as [->|]; [cbn; lia|]. assert (Z.log2 sz < 62) by (apply Z.log2_lt_pow2; lia). lia.
  - exists s'. split; [done|lia].
Qed.

(** ** Resizing keeps the entries *)

(** The table is as it was but for the flag. *)
Definition unflagged (t t' : dtable) : Prop :=
  t' = t ∨ t' = set_settings t (set_consider_shrink (settings t) false).

Definition kept (t t' : dtable) : Prop :=
  live_values t' ≡ₚ live_values t ∧ same_rules (settings t) (settings t') ∧ emptyval t' = emptyval t ∧ delkey t' = delkey t.

Lemma kept_refl t : kept t t.
Proof using. by repeat split. Qed.

Lemma kept_trans t t' t'' : kept t t' → kept t' t'' → kept t t''.
Proof using.
  intros (Hl & (? & ? & ? & ?) & ? & ?) (Hl' & (? & ? & ? & ?) & ? & ?).
  split; [by rewrite Hl', Hl|]. split; [|by split; etrans]. unfold same_rules. by repeat split; etrans.
Qed.

Lemma copied_kept t t' wanted k : copied t t' wanted k → kept t t'.
Proof using. intros (_ & Hl & _ & _ & Hr & _ & He & Hd & _). by split. Qed.

Lemma unflagged_ok k t t' : dense_ok k t → unflagged t t' → dense_ok k t' ∧ kept t t'.
Proof using.
  intros Hok [->| ->]; [split; [done|apply kept_refl]|].
  destruct (set_settings_ok hash_key k t (set_consider_shrink (settings t) false) Hok) as [Hok' Hl];
    [by repeat split|apply (do_threshold _ k t Hok)|]. split; [done|]. split; [by rewrite Hl|]. by repeat split.
Qed.

Lemma copied_bound k t t' j k' :
  dense_ok k t → copied t t' (2 ^ j) k' → 2 ≤ j ≤ 62 → 2 ^ j ≤ 2 ^ 40 → Z.of_nat (length (live_values t)) < 2 ^ 34 →
  num_buckets t' ≤ 2 ^ 40.
Proof using.
  intros Hok (Hok' & _ & _ & _ & _ & _ & _ & _ & Hk' & Hl) Hj Hj40 Hlen. pose proof (do_size _ k' t' Hok') as [Hk Hn]. rewrite Hn.
  pose proof (least_size_pow2 _ _ _ j k' (do_factors _ k t Hok) Hj ltac:(lia) Hl). lia.
Qed.

Lemma maybe_shrink_ok k t :
  dense_ok k t → num_buckets t ≤ 2 ^ 40 → Z.of_nat (length (live_values t)) < 2 ^ 34 →
  ∃ k' t' b, maybe_shrink hash_key NDEBUG t = Some (t', b) ∧ dense_ok k' t' ∧ num_buckets t' ≤ 2 ^ 40 ∧ kept t t' ∧
    (b = false → unflagged t t').
Proof using.
  intros Hok Hcap Hlen. pose proof (counts_ok _ k t Hok) as Hc. pose proof (buckets_pos _ k t Hok) as Hn.
  destruct (do_size _ k t Hok) as [Hk Hnb]. unfold maybe_shrink.
  rewrite (check_true NDEBUG (num_deleted t <=? num_elements t)) by (apply Z.leb_le; lia). cbn [mbind option_bind].
  rewrite Hnb, (pow2_check NDEBUG k) by lia. cbn [mbind option_bind]. rewrite <-Hnb.
  rewrite check_true by (apply Z.leb_le; unfold HT_MIN_BUCKETS; lia). cbn [mbind option_bind].
  destruct (_ && (HT_DEFAULT_STARTING_BUCKETS <? num_buckets t)) eqn:Hgo.
  - destruct (shrink_to_ok (u64 (num_elements t - num_deleted t)) (num_buckets t / 2) (shrink_factor (settings t)))
      as (sz & -> & Hsz); [split; [apply Z.div_pos|apply Z.div_lt_upper_bound]; lia|]. cbn [mbind option_bind].
    assert (2 * (num_buckets t / 2) ≤ num_buckets t) by (apply Z.mul_div_le; lia).
    destruct (resize_to_ok hash_key NDEBUG k t sz Hok) as (k' & t1 & -> & Hcp); [lia|lia|]. cbn [mbind option_bind].
    pose proof (copied_kept t t1 sz k' Hcp) as Hkept. destruct Hcp as (Hok1 & _ & _ & _ & _ & _ & _ & _ & Hk' & Hl).
    pose proof (do_size _ k' t1 Hok1) as [Hk1 Hn1].
    pose proof (least_size_bound _ _ _ sz k' (do_factors _ k t Hok) ltac:(lia) Hl) as Hb.
    destruct (unflagged_ok k' t1 (set_settings t1 (set_consider_shrink (settings t1) false)) Hok1 ltac:(by right)) as [Hok2 Hkept2].
    exists k'. do 2 eexists. split; [done|]. split; [exact Hok2|]. cbn [set_settings num_buckets].
    split; [rewrite Hn1; lia|]. split; [by eapply kept_trans|done].
  - cbn [mbind option_bind]. exists k. do 2 eexists. split; [done|].
    destruct (unflagged_ok k t (set_settings t (set_consider_shrink (settings t) false)) Hok ltac:(by right)) as [Hok2 Hkept2].
    split; [exact Hok2|]. split; [done|]. split; [done|]. intros _. by right.
Qed.

(** The last step of [resize_delta]: the size that is chosen. *)
Lemma grow_ok k t delta :
  dense_ok k t → num_buckets t ≤ 2 ^ 40 → 0 ≤ delta → Z.of_nat (length (live_values t)) + delta < 2 ^ 34 →
  ∃ k' t', (let live := u64 (num_elements t - num_deleted t + delta) in
      size ← min_buckets (settings t) live (num_buckets t);
      needed_size ← min_buckets (settings t) (u64 (num_elements t - num_deleted t / 4 + delta)) 0;
      size ← (if (size <? needed_size) && (size <? (2 ^ 64 - 1) / 2)
              then target ← shrink_size (settings t) (u64 (size * 2));
                   Some (if target <=? live then u64 (size * 2) else size)
              else Some size);
      t ← resize_to hash_key NDEBUG t size;
      Some (t, true)) = Some (t', true) ∧ dense_ok k' t' ∧ num_buckets t' ≤ 2 ^ 40 ∧ kept t t' ∧
    num_elements t' + delta < num_buckets t'.
Proof using.
  intros Hok Hcap Hd Hlen. pose proof (counts_ok _ k t Hok) as Hc. pose proof (buckets_pos _ k t Hok) as Hn.
  pose proof (do_room _ k t Hok) as Hroom. destruct (do_size _ k t Hok) as [Hk Hnb]. destruct (size_live _ k t Hok) as [Hlive _].
  pose proof (do_factors _ k t Hok) as Hfa. cbv zeta. rewrite Hlive, (wrap_small 64 (Z.of_nat (length (live_values t)) + delta)) by (split; lia).
  set (live := Z.of_nat (length (live_values t)) + delta) in *.
  destruct (min_buckets_ok (settings t) live (num_buckets t) Hfa ltac:(lia) ltac:(lia)) as (k2 & -> & Hk2 & Hl2).
  cbn [mbind option_bind].
  assert (0 ≤ num_deleted t / 4 ≤ num_deleted t) as Hq by (split; [apply Z.div_pos|apply Z.div_le_upper_bound]; lia).
  rewrite (wrap_small 64 (num_elements t - num_deleted t / 4 + delta)) by (split; lia).
  destruct (min_buckets_ok (settings t) (num_elements t - num_deleted t / 4 + delta) 0 Hfa ltac:(lia) ltac:(lia)) as (k3 & -> & _).
  cbn [mbind option_bind].
  assert (2 ^ k2 ≤ 2 ^ 40) as Hk2cap.
  { rewrite Hnb in Hl2. pose proof (least_size_pow2 _ _ live k k2 Hfa Hk ltac:(lia) Hl2). lia. }
  assert (∃ j, (if (2 ^ k2 <? 2 ^ k3) && (2 ^ k2 <? (2 ^ 64 - 1) / 2)
      then target ← shrink_size (settings t) (u64 (2 ^ k2 * 2)); Some (if target <=? live then u64 (2 ^ k2 * 2) else 2 ^ k2)
      else Some (2 ^ k2)) = Some (2 ^ j) ∧ k2 ≤ j ≤ 62 ∧ 2 ^ j ≤ 2 ^ 40) as (j & -> & Hj & Hj40).
  { destruct (_ && _); [|exists k2; split; [done|lia]].
    assert (2 ^ k2 * 2 = 2 ^ (k2 + 1)) as -> by (rewrite Z.pow_add_r by lia; lia).
    assert (2 ^ (k2 + 1) ≤ 2 ^ 62) by (apply Z.pow_le_mono_r; lia).
    destruct (fa_shrink _ _ Hfa (k2 + 1) ltac:(lia)) as (target & Ht & Ht0 & Ht11).
    rewrite (wrap_small 64 (2 ^ (k2 + 1))) by (split; lia). unfold shrink_size. rewrite Ht. cbn [mbind option_bind].
    destruct (Z.leb_spec target live); [|exists k2; split; [done|lia]]. exists (k2 + 1). split; [done|]. lia. }
  cbn [mbind option_bind].
  destruct (resize_to_ok hash_key NDEBUG k t (2 ^ j) Hok) as (k' & t' & -> & Hcp); [lia|lia|]. cbn [mbind option_bind].
  exists k', t'. split; [done|]. pose proof (copied_bound k t t' j k' Hok Hcp ltac:(lia) Hj40 ltac:(lia)) as Hcap'.
  pose proof (copied_kept _ _ _ _ Hcp) as Hkept. destruct Hcp as (Hok' & _ & Hne & _ & _ & _ & _ & _ & _ & (_ & Hw & _)).
  split; [done|]. split; [done|]. split; [done|]. destruct (do_size _ k' t' Hok') as [_ ->]. rewrite Hne.
  destruct Hl2 as ((th & _ & Hth) & _). assert (2 ^ k2 ≤ 2 ^ j) by (apply Z.pow_le_mono_r; lia). lia.
Qed.

Lemma resize_delta_ok k t delta :
  dense_ok k t → num_buckets t ≤ 2 ^ 40 → 0 ≤ delta → Z.of_nat (length (live_values t)) + delta < 2 ^ 34 →
  ∃ k' t' b, resize_delta hash_key NDEBUG t delta = Some (t', b) ∧ dense_ok k' t' ∧ num_buckets t' ≤ 2 ^ 40 ∧ kept t t' ∧
    num_elements t' + delta < num_buckets t' ∧ (b = false → unflagged t t').
Proof using.
  intros Hok Hcap Hd Hlen. unfold resize_delta.
  assert (∃ k1 t1 b1, (if consider_shrink (settings t) then maybe_shrink hash_key NDEBUG t else Some (t, false)) = Some (t1, b1) ∧
    dense_ok k1 t1 ∧ num_buckets t1 ≤ 2 ^ 40 ∧ kept t t1 ∧ (b1 = false → unflagged t t1))
    as (k1 & t1 & b1 & -> & Hok1 & Hcap1 & Hkept1 & Hun1).
  { destruct (consider_shrink _); [apply (maybe_shrink_ok k); [done|done|lia]|].
    exists k, t, false. split; [done|]. split; [done|]. split; [done|]. split; [apply kept_refl|by left]. }
  cbn [mbind option_bind]. pose proof (buckets_pos _ k1 t1 Hok1) as Hn. pose proof (do_room _ k1 t1 Hok1) as Hroom.
  pose proof (counts_ok _ k1 t1 Hok1) as Hc. destruct (do_size _ k1 t1 Hok1) as [Hk1 Hnb1].
  assert (length (live_values t1) = length (live_values t)) as Hll by (by destruct Hkept1 as [-> _]).
  rewrite (wrap_small 64 (2 ^ 64 - 1 - delta)), (wrap_small 64 (num_elements t1 + delta)) by (split; lia).
  rewrite (proj2 (Z.leb_gt _ _)) by lia.
  pose proof (do_threshold _ k1 t1 Hok1) as Hth. rewrite Hnb1 in Hth.
  destruct (fa_enlarge _ _ (do_factors _ k1 t1 Hok1) k1 ltac:(lia)) as (th & Hth' & Hb & _). rewrite Hth in Hth'. injection Hth' as Eth.
  destruct (_ && (num_elements t1 + delta <=? enlarge_threshold (settings t1))) eqn:Hfits.
  { apply andb_true_iff in Hfits as [_ Hle%Z.leb_le]. exists k1, t1, b1. split; [done|]. split; [done|]. split; [done|]. split; [done|].
    split; [lia|done]. }
  destruct (min_buckets_ok (settings t1) (num_elements t1 + delta) 0 (do_factors _ k1 t1 Hok1) ltac:(lia) ltac:(lia))
    as (k2 & -> & Hk2 & ((th2 & _ & Hth2) & _)). cbn [mbind option_bind].
  destruct (Z.leb_spec (2 ^ k2) (num_buckets t1)) as [Hle|Hgt].
  { exists k1, t1, b1. split; [done|]. split; [done|]. split; [done|]. split; [done|]. split; [lia|done]. }
  destruct (grow_ok k1 t1 delta Hok1 Hcap1 Hd) as (k' & t' & Ht' & Hok' & Hcap' & Hkept' & Hroom'); [lia|].
  exists k', t', true. split; [exact Ht'|]. split; [done|]. split; [done|]. split; [by eapply kept_trans|done].
Qed.
End dense.
