(* ===== verification/DenseMap.v ===== *)
(** * The dense hash table refines a finite map

    [dense_models e d t g]: [t] is well formed, [e] is the empty key and [d] the deleted
    key if there is one, and the live entries of [t] are those of [g]. The lookups and
    insertions of DenseTable.v are defined on such a table, with the asserts on or off, for
    keys that the hash functor is defined on and that are neither [e] nor [d], and do to
    the map what their names say. *)
From stdpp Require Import gmap.
From S2P Require Import Prelude Floats FiniteMaps DenseTable DenseProbe DenseInv DenseUpdate DenseResize.

Section dense.
Context {K V : Type} `{Countable K}.
Context (hash_key : K → option Z) (NDEBUG : bool) (dflt : V) (max_size : Z).

Abbreviation dtable := (dense_hashtable K V).
Abbreviation dense_ok := (dense_ok (V := V) hash_key).

Definition deleted_key (t : dtable) : option K := if use_deleted (settings t) then Some (delkey t) else None.

Record dense_models (e : K) (d : option K) (t : dtable) (g : gmap K V) : Prop := DenseModels {
  dm_ok : ∃ k, dense_ok k t;
  dm_cap : num_buckets t ≤ 2 ^ 40;
  dm_live : live_values t ≡ₚ map_to_list g;
  dm_empty : (emptyval t).1 = e;
  dm_deleted : deleted_key t = d
}.

(** A key the client may store. *)
Definition usable_key (e : K) (d : option K) (key : K) : Prop := key ≠ e ∧ d ≠ Some key ∧ dhashable hash_key key.

Lemma bdel_deleted t (b : K * V) : bdel t b = bool_decide (deleted_key t = Some b.1).
Proof using.
  unfold bdel, deleted_key. destruct (use_deleted (settings t)); cbn [andb].
  - apply bool_decide_ext. split; congruence.
  - by rewrite bool_decide_eq_false_2.
Qed.

Section models.
Context (e : K) (d : option K).

Lemma blive_usable t g b :
  dense_models e d t g → b.1 ≠ e → d ≠ Some b.1 → blive t b = true.
Proof using.
  intros Hm He Hd. apply blive_iff. rewrite bdel_deleted. unfold bempty.
  rewrite (dm_empty e d t g Hm), (dm_deleted e d t g Hm). split; apply bool_decide_eq_false_2; congruence.
Qed.

Lemma kept_models k t t' g :
  dense_models e d t g → dense_ok k t' → num_buckets t' ≤ 2 ^ 40 → kept t t' → dense_models e d t' g.
Proof using.
  intros Hm Hok Hcap (Hl & (_ & _ & _ & Hu) & He & Hd). split; [by exists k|done| | |].
  - by rewrite Hl, (dm_live e d t g Hm).
  - by rewrite He, (dm_empty e d t g Hm).
  - unfold deleted_key. rewrite Hu, Hd. apply (dm_deleted e d t g Hm).
Qed.

(** What the table may become by one change of its entries. *)
Lemma update_models k t t' g g' :
  dense_models e d t g → dense_ok k t' → num_buckets t' ≤ 2 ^ 40 → live_values t' ≡ₚ map_to_list g' →
  settings t' = settings t → emptyval t' = emptyval t → delkey t' = delkey t → dense_models e d t' g'.
Proof using.
  intros Hm Hok Hcap Hl Hs He Hd. split; [by exists k|done|done| |].
  - by rewrite He, (dm_empty e d t g Hm).
  - unfold deleted_key. rewrite Hs, Hd. apply (dm_deleted e d t g Hm).
Qed.

Lemma live_size t g : dense_models e d t g → length (live_values t) = size g.
Proof using. intros Hm. rewrite (dm_live e d t g Hm). apply length_map_to_list. Qed.

Lemma dense_size_models t g : dense_models e d t g → dense_size t = Z.of_nat (size g).
Proof using.
  intros Hm. destruct (dm_ok e d t g Hm) as [k Hok]. destruct (size_live hash_key k t Hok) as [_ ->].
  by rewrite (live_size t g Hm).
Qed.

Lemma live_lookup t g key v :
  dense_models e d t g →
  g !! key = Some v ↔ ∃ i, 0 ≤ i < num_buckets t ∧ slot t i = Some (key, v) ∧ blive t (key, v) = true.
Proof using.
  intros Hm. destruct (dm_ok e d t g Hm) as [k Hok]. pose proof (slots_length hash_key k t Hok) as Hlen.
  rewrite <-elem_of_map_to_list, <-(dm_live e d t g Hm). unfold live_values. rewrite list_elem_of_filter. split.
  - intros [Hl [i Hi]%list_elem_of_lookup]. pose proof (lookup_lt_Some _ _ _ Hi). exists (Z.of_nat i).
    split; [lia|]. split; [|done]. unfold slot. by rewrite Nat2Z.id.
  - intros (i & _ & Hi & Hl). split; [done|]. by apply list_elem_of_lookup_2 in Hi.
Qed.

Lemma live_key_lookup t g key : dense_models e d t g → key ∈ live_keys t ↔ is_Some (g !! key).
Proof using.
  intros Hm. destruct (dm_ok e d t g Hm) as [k Hok]. rewrite (live_key_iff hash_key k t Hok). split.
  - intros (i & [k' v] & Hi & Hb & Hl & <-). exists v. apply (live_lookup t g _ _ Hm). by exists i.
  - intros [v (i & Hi & Hb & Hl)%(live_lookup t g _ _ Hm)]. by exists i, (key, v).
Qed.

(** The keys of the map are usable. *)
Lemma live_usable t g key v : dense_models e d t g → g !! key = Some v → usable_key e d key.
Proof using.
  intros Hm (i & Hi & Hb & Hl)%(live_lookup t g _ _ Hm). destruct (dm_ok e d t g Hm) as [k Hok].
  destruct (do_reach _ k t Hok i (key, v) Hi Hb Hl) as (h & n & Hh & Hf & _).
  apply blive_iff in Hl as [He Hd]. rewrite bdel_deleted, (dm_deleted e d t g Hm) in Hd. unfold bempty in He.
  rewrite (dm_empty e d t g Hm) in He. apply bool_decide_eq_false in He, Hd. cbn [fst] in He, Hd. split; [congruence|]. split; [done|]. by exists h.
Qed.

(** ** Lookups *)

Definition entry_at (t : dtable) (i : Z) (key : K) (v : V) : Prop :=
  0 ≤ i < num_buckets t ∧ slot t i = Some (key, v) ∧ blive t (key, v) = true.

(** What a probe for a key finds. *)
Lemma find_position_models t g key :
  dense_models e d t g → dhashable hash_key key →
  ∃ h r, hash_key key = Some h ∧ fits 64 h ∧ find_position hash_key NDEBUG t key = Some r ∧ position_ok t key h r ∧
    match g !! key with
    | Some v => ∃ i, r = (i, ILLEGAL_BUCKET) ∧ (i =? ILLEGAL_BUCKET) = false ∧ entry_at t i key v
    | None => r.1 = ILLEGAL_BUCKET
    end.
Proof using.
  intros Hm (h & Hh & Hf). destruct (dm_ok e d t g Hm) as [k Hok]. pose proof (buckets_pos hash_key k t Hok) as Hn.
  destruct (find_position_ok hash_key NDEBUG k t Hok key h Hh Hf) as (r & Hr & Hp). exists h, r.
  split; [done|]. split; [done|]. split; [done|]. split; [done|].
  destruct Hp as [(i & [k' v] & -> & Hi & Hb & Hl & <-)|(Hout & n & p & b & -> & _)].
  - cbn [fst]. assert (g !! k' = Some v) as -> by (apply (live_lookup t g _ _ Hm); by exists i). exists i. split; [done|].
    split; [apply Z.eqb_neq; unfold ILLEGAL_BUCKET; lia|done].
  - rewrite (live_key_lookup t g key Hm) in Hout. by destruct (g !! key); [destruct Hout; eexists|].
Qed.

Lemma dense_find_models t g key :
  dense_models e d t g → dhashable hash_key key →
  ∃ i, dense_find hash_key NDEBUG t key = Some i ∧
    match g !! key with Some v => entry_at t i key v | None => i = num_buckets t end.
Proof using.
  intros Hm Hk. unfold dense_find. rewrite (dense_size_models t g Hm). destruct (Z.eqb_spec (Z.of_nat (size g)) 0) as [Hz|Hz].
  - assert (g = ∅) as -> by (apply map_size_empty_iff; lia). rewrite lookup_empty. by eexists.
  - destruct (find_position_models t g key Hm Hk) as (h & r & _ & _ & -> & _ & Hspec). cbn [mbind option_bind].
    destruct (g !! key) as [v|]; [destruct Hspec as (i & -> & Hi & Hat); cbn [fst]; rewrite Hi; by exists i|].
    rewrite Hspec, Z.eqb_refl. by eexists.
Qed.

Lemma entry_bucket t g i key v : dense_models e d t g → entry_at t i key v → dense_bucket t i = Some (key, v).
Proof using. intros Hm (Hi & Hb & _). destruct (dm_ok e d t g Hm) as [k Hok]. by apply (dense_bucket_ok hash_key k t Hok). Qed.

Lemma dense_find_value_models t g key :
  dense_models e d t g → dhashable hash_key key → dense_find_value hash_key NDEBUG t key = Some (g !! key).
Proof using.
  intros Hm Hk. destruct (dense_find_models t g key Hm Hk) as (i & Hi & Hspec). unfold dense_find_value. rewrite Hi.
  cbn [mbind option_bind]. destruct (g !! key) as [v|]; [|by rewrite Hspec, Z.eqb_refl].
  rewrite (proj2 (Z.eqb_neq _ _)) by (destruct Hspec; lia). by rewrite (entry_bucket t g i key v Hm Hspec).
Qed.

Lemma dense_count_models t g key :
  dense_models e d t g → dhashable hash_key key →
  dense_count hash_key NDEBUG t key = Some (if g !! key is Some _ then 1 else 0).
Proof using.
  intros Hm Hk. destruct (find_position_models t g key Hm Hk) as (h & r & _ & _ & Hr & _ & Hspec). unfold dense_count.
  rewrite Hr. cbn [mbind option_bind]. destruct (g !! key); [destruct Hspec as (i & -> & Hi & _); cbn [fst]; by rewrite Hi|].
  by rewrite Hspec, Z.eqb_refl.
Qed.

(** The iterator after an entry's. *)
Lemma dense_next_ok k t i b :
  dense_ok k t → 0 ≤ i < num_buckets t → slot t i = Some b →
  ∃ j, dense_next NDEBUG t i = Some j ∧ i < j ≤ num_buckets t.
Proof using.
  intros Hok Hi Hb. pose proof (slots_length hash_key k t Hok) as Hlen. unfold dense_next.
  rewrite check_true by (apply negb_true_iff, Z.eqb_neq; lia). cbn [mbind option_bind].
  pose proof (advance_ok hash_key NDEBUG k t (drop (Z.to_nat (i + 1)) (slots t)) (take (Z.to_nat (i + 1)) (slots t)) (dense_fuel t) Hok) as Ha.
  rewrite length_take_le, Z2Nat.id in Ha by lia. rewrite Ha; [|by rewrite take_drop|rewrite length_drop; unfold dense_fuel; lia].
  eexists. split; [done|].
  assert (∀ l j, j ≤ first_live t l j ≤ j + Z.of_nat (length l)) as Hfl.
  { induction l as [|c l IH]; intros j; cbn [first_live length]; [lia|]. destruct (blive t c); [lia|]. specialize (IH (j + 1)). lia. }
  pose proof (Hfl (drop (Z.to_nat (i + 1)) (slots t)) (i + 1)) as Hb2. rewrite length_drop in Hb2. lia.
Qed.

Lemma dense_equal_range_models t g key :
  dense_models e d t g → dhashable hash_key key →
  ∃ i j, dense_equal_range hash_key NDEBUG t key = Some (i, j) ∧
    match g !! key with Some v => entry_at t i key v ∧ i < j | None => i = j end.
Proof using.
  intros Hm Hk. destruct (dense_find_models t g key Hm Hk) as (i & Hi & Hspec). unfold dense_equal_range. rewrite Hi.
  cbn [mbind option_bind]. destruct (g !! key) as [v|]; [|subst i; rewrite Z.eqb_refl; by do 2 eexists].
  pose proof Hspec as (Hr & Hb & _). destruct (dm_ok e d t g Hm) as [k Hok].
  destruct (dense_next_ok k t i (key, v) Hok Hr Hb) as (j & Hj & Hlt).
  rewrite (proj2 (Z.eqb_neq _ _)) by lia. rewrite Hj. do 2 eexists. split; [done|]. split; [done|lia].
Qed.
End models.
End dense.

(** * Insertion, assignment and erasure in the dense hash table

    Each does to the map the table stands for what its name says, whatever resizing it
    causes. *)

Section dense.
Context {K V : Type} `{Countable K}.
Context (hash_key : K → option Z) (NDEBUG : bool) (dflt : V) (max_size : Z).
Context (Hmax : 2 ^ 40 ≤ max_size).

Abbreviation dtable := (dense_hashtable K V).
Abbreviation dense_ok := (dense_ok (V := V) hash_key).
Abbreviation dense_models := (dense_models (K := K) (V := V) hash_key).
Abbreviation usable_key := (usable_key hash_key).
Abbreviation insert_noresize := (insert_noresize (V := V) hash_key NDEBUG max_size).

Section edit.
Context (e : K) (d : option K).

Lemma check_key_models t g key : dense_models e d t g → usable_key e d key → check_key NDEBUG t key = Some ().
Proof using.
  intros Hm (Hke & Hkd & _). pose proof (dm_deleted _ e d t g Hm) as Hd. unfold deleted_key in Hd. unfold check_key.
  rewrite (dm_empty _ e d t g Hm), (bool_decide_eq_false_2 (key = e)) by done.
  rewrite (check_true NDEBUG (negb (use_empty (settings t)) || negb false)) by apply orb_true_r. cbn [mbind option_bind].
  apply check_true. destruct (use_deleted (settings t)); [|done]. subst d. rewrite bool_decide_eq_false_2; [done|congruence].
Qed.

(** Insertion where a probe found the key missing. *)
Lemma insert_at_models t g key v h r :
  dense_models e d t g → usable_key e d key → hash_key key = Some h → fits 64 h → position_ok t key h r → r.1 = ILLEGAL_BUCKET →
  g !! key = None → num_elements t + 1 < num_buckets t →
  ∃ t', insert_at NDEBUG max_size t (key, v) r.2 = Some (t', r.2) ∧ dense_models e d t' (<[key := v]> g) ∧
    entry_at t' r.2 key v ∧ num_buckets t' = num_buckets t ∧ num_elements t' ≤ num_elements t + 1.
Proof using Hmax.
  intros Hm (Hke & Hkd & _) Hh Hf Hp Hr Hg Hroom. destruct (dm_ok _ e d t g Hm) as [k Hok]. destruct r as [i p]. cbn [fst snd] in *. subst i.
  pose proof (dm_cap _ e d t g Hm) as Hcap. pose proof (dm_deleted _ e d t g Hm) as Hd. unfold deleted_key in Hd.
  destruct (insert_at_ok hash_key NDEBUG max_size k t key v h p Hok Hroom ltac:(lia)) as
    (t' & -> & Hok' & Hpr & Hb & Hl & Hs & He' & Hd' & Hn & Hne); [by rewrite (dm_empty _ e d t g Hm)| |done|done|done|].
  { intros Hu. rewrite Hu in Hd. congruence. }
  exists t'. split; [done|]. assert (dense_models e d t' (<[key := v]> g)) as Hm'.
  { apply (update_models hash_key e d k t t' g); [done|done|by rewrite Hn| |done|done|done].
    by rewrite Hl, (dm_live _ e d t g Hm), map_to_list_insert. }
  split; [done|]. split; [|done]. split; [done|]. split; [done|]. by apply (blive_usable hash_key e d t' _ _ Hm').
Qed.

Lemma insert_noresize_models t g key v :
  dense_models e d t g → usable_key e d key → num_elements t + 1 < num_buckets t →
  ∃ t' i, insert_noresize t (key, v) = Some (t', (i, if g !! key is Some _ then false else true)) ∧
    dense_models e d t' (put_new g (key, v)) ∧ entry_at t' i key (default v (g !! key)) ∧
    num_buckets t' = num_buckets t ∧ num_elements t' ≤ num_elements t + 1.
Proof using Hmax.
  intros Hm Hk Hroom. unfold DenseTable.insert_noresize, put_new. cbn [fst snd].
  rewrite (check_key_models t g key Hm Hk). cbn [mbind option_bind].
  destruct (find_position_models hash_key NDEBUG e d t g key Hm ltac:(apply Hk)) as (h & r & Hh & Hf & -> & Hp & Hspec).
  cbn [mbind option_bind]. destruct (g !! key) as [w|] eqn:Hg.
  - destruct Hspec as (i & -> & Hi & Hat). cbn [fst]. rewrite Hi. cbn [negb]. exists t, i. split; [done|]. split; [done|].
    split; [done|]. split; [done|lia].
  - destruct (insert_at_models t g key v h r Hm Hk Hh Hf Hp Hspec Hg Hroom) as (t' & Ht' & Hm' & Hat & Hn & Hne).
    rewrite Hspec, Z.eqb_refl. cbn [negb]. rewrite Ht'. exists t', r.2. done.
Qed.

Lemma resize_delta_models t g delta :
  dense_models e d t g → 0 ≤ delta → Z.of_nat (size g) + delta < 2 ^ 34 →
  ∃ t' b, resize_delta hash_key NDEBUG t delta = Some (t', b) ∧ dense_models e d t' g ∧
    num_elements t' + delta < num_buckets t' ∧ (b = false → unflagged t t').
Proof using.
  intros Hm Hd Hsz. destruct (dm_ok _ e d t g Hm) as [k Hok].
  destruct (resize_delta_ok hash_key NDEBUG k t delta Hok (dm_cap _ e d t g Hm) Hd) as (k' & t' & b & -> & Hok' & Hcap' & Hkept & Hrest).
  { by rewrite (live_size hash_key e d t g Hm). }
  exists t', b. split; [done|]. split; [by apply (kept_models hash_key e d k' t)|done].
Qed.

Lemma dense_insert_models t g key v :
  dense_models e d t g → usable_key e d key → Z.of_nat (size g) + 1 < 2 ^ 34 →
  ∃ t' i, dense_insert hash_key NDEBUG max_size t (key, v) = Some (t', (i, if g !! key is Some _ then false else true)) ∧
    dense_models e d t' (put_new g (key, v)) ∧ entry_at t' i key (default v (g !! key)).
Proof using Hmax.
  intros Hm Hk Hsz. destruct (resize_delta_models t g 1 Hm ltac:(lia) Hsz) as (t1 & b & Ht1 & Hm1 & Hroom & _).
  unfold dense_insert. rewrite Ht1. cbn [mbind option_bind].
  destruct (insert_noresize_models t1 g key v Hm1 Hk Hroom) as (t' & i & -> & Hm' & Hat & _). by exists t', i.
Qed.

Lemma insert_list_models l : ∀ t g,
  dense_models e d t g → Forall (λ kv, usable_key e d kv.1) l → num_elements t + Z.of_nat (length l) < num_buckets t →
  ∃ t', insert_list hash_key NDEBUG max_size t l = Some t' ∧ dense_models e d t' (put_all g l).
Proof using Hmax.
  induction l as [|[key v] l IH]; intros t g Hm Hl Hroom; [by exists t|]. apply Forall_cons in Hl as [Hk Hl].
  cbn [length] in Hroom. cbn [insert_list].
  destruct (insert_noresize_models t g key v Hm Hk ltac:(lia)) as (t1 & i & -> & Hm1 & _ & Hn & Hne).
  cbn [mbind option_bind]. apply (IH t1 _ Hm1 Hl). lia.
Qed.

Lemma dense_insert_range_models t g l :
  dense_models e d t g → Forall (λ kv, usable_key e d kv.1) l → Z.of_nat (size g) + Z.of_nat (length l) < 2 ^ 34 →
  ∃ t', dense_insert_range hash_key NDEBUG max_size t l = Some t' ∧ dense_models e d t' (put_all g l).
Proof using Hmax.
  intros Hm Hl Hsz. destruct (resize_delta_models t g (Z.of_nat (length l)) Hm ltac:(lia) Hsz) as (t1 & b & Ht1 & Hm1 & Hroom & _).
  unfold dense_insert_range. rewrite Ht1. cbn [mbind option_bind]. by apply insert_list_models.
Qed.

Lemma insert_input_models l : ∀ t g,
  dense_models e d t g → Forall (λ kv, usable_key e d kv.1) l → Z.of_nat (size g) + Z.of_nat (length l) < 2 ^ 34 →
  ∃ t', insert_input hash_key NDEBUG max_size t l = Some t' ∧ dense_models e d t' (put_all g l).
Proof using Hmax.
  induction l as [|[key v] l IH]; intros t g Hm Hl Hsz; [by exists t|]. apply Forall_cons in Hl as [Hk Hl].
  cbn [length] in Hsz. cbn [insert_input].
  destruct (dense_insert_models t g key v Hm Hk ltac:(lia)) as (t1 & i & -> & Hm1 & _). cbn [mbind option_bind].
  apply (IH t1 _ Hm1 Hl). pose proof (put_new_size g (key, v)). lia.
Qed.

Lemma position_unflagged (t t' : dtable) key h r : unflagged t t' → position_ok t key h r → position_ok t' key h r.
Proof using. by intros [->| ->]. Qed.

Lemma find_or_insert_models t g key :
  dense_models e d t g → usable_key e d key → Z.of_nat (size g) + 1 < 2 ^ 34 →
  ∃ t' i, find_or_insert hash_key NDEBUG dflt max_size t key = Some (t', i) ∧
    dense_models e d t' (put_new g (key, dflt)) ∧ entry_at t' i key (default dflt (g !! key)).
Proof using Hmax.
  intros Hm Hk Hsz. unfold find_or_insert. rewrite (check_key_models t g key Hm Hk). cbn [mbind option_bind].
  destruct (find_position_models hash_key NDEBUG e d t g key Hm ltac:(apply Hk)) as (h & r & Hh & Hf & -> & Hp & Hspec).
  cbn [mbind option_bind]. destruct (g !! key) as [w|] eqn:Hg.
  - destruct Hspec as (i & -> & Hi & Hat). cbn [fst]. rewrite Hi. cbn [negb]. exists t, i. unfold put_new. cbn [fst snd]. by rewrite Hg.
  - rewrite Hspec, Z.eqb_refl. cbn [negb].
    destruct (resize_delta_models t g 1 Hm ltac:(lia) Hsz) as (t1 & b & -> & Hm1 & Hroom & Hun). cbn [mbind option_bind].
    destruct b.
    + destruct (insert_noresize_models t1 g key dflt Hm1 Hk Hroom) as (t' & i & -> & Hm' & Hat & _). exists t', i. by rewrite Hg in Hat.
    + destruct (insert_at_models t1 g key dflt h r Hm1 Hk Hh Hf (position_unflagged _ _ _ _ _ (Hun eq_refl) Hp) Hspec Hg Hroom)
        as (t' & Ht' & Hm' & Hat & _). exists t', r.2. unfold put_new. cbn [fst snd]. by rewrite Hg.
Qed.

(** Assignment through an iterator. *)
Lemma set_entry_models t g i key w obj :
  dense_models e d t g → entry_at t i key w →
  ∃ t', dense_set_value t i (key, obj) = Some t' ∧ dense_models e d t' (<[key := obj]> g).
Proof using.
  intros Hm Hat. pose proof Hat as (Hi & Hb & Hl). destruct (dm_ok _ e d t g Hm) as [k Hok].
  destruct (assign_ok hash_key k t i (key, w) obj Hok Hi Hb Hl) as (t' & Ht' & Hok' & Hp & Hs & He' & Hd').
  exists t'. split; [exact Ht'|]. assert (g !! key = Some w) as Hg by (apply (live_lookup hash_key e d t g _ _ Hm); by exists i).
  assert (num_buckets t' = num_buckets t) as Hn by (rewrite (proj2 (do_size _ k t Hok)); apply Hok').
  apply (update_models hash_key e d k t t' g); [done|done|rewrite Hn; by eapply dm_cap| |done|done|done].
  rewrite (dm_live _ e d t g Hm), <-(map_to_list_delete g key w Hg) in Hp. cbn [fst] in Hp.
  rewrite perm_swap in Hp. apply Permutation_cons_inv in Hp. rewrite Hp.
  by rewrite <-insert_delete_eq, map_to_list_insert by apply lookup_delete_eq.
Qed.

Lemma dense_subscript_models t g key obj :
  dense_models e d t g → usable_key e d key → Z.of_nat (size g) + 1 < 2 ^ 34 →
  ∃ t', dense_subscript_assign hash_key NDEBUG dflt max_size t key obj = Some t' ∧ dense_models e d t' (<[key := obj]> g).
Proof using Hmax.
  intros Hm Hk Hsz. destruct (find_or_insert_models t g key Hm Hk Hsz) as (t1 & i & Ht1 & Hm1 & Hat).
  unfold dense_subscript_assign. rewrite Ht1. cbn [mbind option_bind].
  rewrite (entry_bucket hash_key e d t1 _ i key _ Hm1 Hat). cbn [mbind option_bind fst].
  destruct (set_entry_models t1 _ i key _ obj Hm1 Hat) as (t' & -> & Hm'). exists t'. split; [done|].
  unfold put_new in Hm'. cbn [fst snd] in Hm'. destruct (g !! key); [done|]. by rewrite insert_insert_eq in Hm'.
Qed.

(** ** Erasure *)

Lemma erase_entry_models t g i key w :
  dense_models e d t g → entry_at t i key w → d ≠ None →
  ∃ t', set_deleted NDEBUG dflt t i = Some (t', true) ∧
    dense_models e d (set_counts t' (u64 (num_deleted t' + 1)) (num_elements t')) (delete key g) ∧
    slots t' = <[Z.to_nat i := (delkey t, dflt)]> (slots t) ∧ delkey t' = delkey t ∧ settings t' = settings t ∧
    emptyval t' = emptyval t.
Proof using.
  intros Hm Hat Hd. pose proof Hat as (Hi & Hb & Hl). destruct (dm_ok _ e d t g Hm) as [k Hok].
  assert (use_deleted (settings t) = true) as Hu.
  { pose proof (dm_deleted _ e d t g Hm) as Hdk. unfold deleted_key in Hdk. destruct (use_deleted _); [done|congruence]. }
  destruct (set_deleted_ok hash_key NDEBUG dflt k t i (key, w) Hok Hi Hb Hl Hu) as (t' & Ht' & Hok' & Hp & Hs & He' & Hd' & Hsl).
  exists t'. split; [done|]. split; [|done]. assert (g !! key = Some w) as Hg by (apply (live_lookup hash_key e d t g _ _ Hm); by exists i).
  assert (num_buckets t' = num_buckets t) as Hn by (rewrite (proj2 (do_size _ k t Hok)); apply Hok').
  apply (update_models hash_key e d k t _ g); [done|done|cbn; rewrite Hn; by eapply dm_cap| |done|done|done].
  change (live_values (set_counts t' _ _)) with (live_values t').
  rewrite (dm_live _ e d t g Hm), <-(map_to_list_delete g key w Hg) in Hp. by apply Permutation_cons_inv in Hp.
Qed.

Lemma flag_models t g b : dense_models e d t g → dense_models e d (set_settings t (set_consider_shrink (settings t) b)) g.
Proof using.
  intros Hm. destruct (dm_ok _ e d t g Hm) as [k Hok].
  destruct (set_settings_ok hash_key k t (set_consider_shrink (settings t) b) Hok) as [Hok' Hl];
    [by repeat split|apply (do_threshold _ k t Hok)|].
  apply (kept_models hash_key e d k t); [done|done|exact (dm_cap _ e d t g Hm)|]. split; [by rewrite Hl|]. by repeat split.
Qed.

Lemma dense_erase_models t g key :
  dense_models e d t g → usable_key e d key → d ≠ None →
  ∃ t', dense_erase hash_key NDEBUG dflt t key = Some (t', if g !! key is Some _ then 1 else 0) ∧ dense_models e d t' (delete key g).
Proof using.
  intros Hm Hk Hd. unfold dense_erase. rewrite (check_key_models t g key Hm Hk). cbn [mbind option_bind].
  destruct (dense_find_models hash_key NDEBUG e d t g key Hm ltac:(apply Hk)) as (i & -> & Hspec). cbn [mbind option_bind].
  destruct (g !! key) as [w|] eqn:Hg; [|subst i; rewrite Z.eqb_refl; cbn [negb]; exists t; split; [done|by rewrite delete_id]].
  pose proof Hspec as (Hi & Hb & Hl). destruct (dm_ok _ e d t g Hm) as [k Hok].
  rewrite (proj2 (Z.eqb_neq _ _)) by lia. cbn [negb]. rewrite (test_deleted_ok hash_key NDEBUG k t Hok i _ Hi Hb).
  apply blive_iff in Hl as [_ ->]. cbn [mbind option_bind negb]. rewrite check_true by done. cbn [mbind option_bind].
  destruct (erase_entry_models t g i key w Hm Hspec Hd) as (t' & -> & Hm' & _). cbn [mbind option_bind].
  eexists. split; [done|]. by apply (flag_models _ _ true) in Hm'.
Qed.

Lemma dense_erase_at_models t g i key w :
  dense_models e d t g → entry_at t i key w → d ≠ None →
  ∃ t', dense_erase_at NDEBUG dflt t i = Some t' ∧ dense_models e d t' (delete key g).
Proof using.
  intros Hm Hat Hd. unfold dense_erase_at. rewrite (proj2 (Z.eqb_neq _ _)) by (destruct Hat; lia).
  destruct (erase_entry_models t g i key w Hm Hat Hd) as (t' & -> & Hm' & _). cbn [mbind option_bind].
  eexists. split; [done|]. by apply (flag_models _ _ true) in Hm'.
Qed.

(** ** A whole table erased *)

(** From the first live entry to [end()]: everything that is left. *)
Lemma erase_each_end l : ∀ t g pre fuel,
  dense_models e d t g → d ≠ None → slots t = pre ++ l → (length l ≤ fuel)%nat → Forall (λ b, blive t b = false) pre →
  ∃ t' g', erase_each NDEBUG dflt fuel t (first_live t l (Z.of_nat (length pre))) (num_buckets t) = Some t' ∧
    dense_models e d t' g' ∧ live_values t' = [].
Proof using.
  induction l as [|b l IH]; intros t g pre fuel Hm Hd Hs Hf Hpre; destruct (dm_ok _ e d t g Hm) as [k Hok];
    pose proof (slots_length _ k t Hok) as Hlen; cbn [first_live].
  - rewrite Hs, app_nil_r in Hlen. exists t, g. split; [destruct fuel; cbn [erase_each]; by rewrite Hlen, Z.eqb_refl|].
    split; [done|]. unfold live_values. rewrite Hs, app_nil_r. clear -Hpre. induction Hpre as [|c pre Hc _ IH]; [done|].
    rewrite filter_cons, decide_False; [done|congruence].
  - destruct (suffix_slot _ k t pre b l Hok Hs) as [Hr Hb]. specialize (IH) as IH'.
    destruct (blive t b) eqn:Hl.
    2: { destruct (IH t g (pre ++ [b]) fuel Hm Hd) as (t' & g' & Ht' & Hrest); [by rewrite <-app_assoc|cbn in Hf; lia| |].
         { apply Forall_app. split; [done|]. by apply Forall_singleton. }
         exists t', g'. rewrite length_app in Ht'. cbn [length] in Ht'.
         replace (Z.of_nat (length pre + 1)) with (Z.of_nat (length pre) + 1) in Ht' by lia. done. }
    destruct fuel as [|fuel]; [cbn in Hf; lia|]. cbn [erase_each]. rewrite (proj2 (Z.eqb_neq _ _)) by lia.
    destruct b as [key w]. destruct (erase_entry_models t g (Z.of_nat (length pre)) key w Hm ltac:(done) Hd)
      as (t1 & -> & Hm1 & Hs1 & Hdk & Hst & Hev). cbn [mbind option_bind].
    set (t2 := set_counts t1 _ _) in *. rewrite Nat2Z.id, Hs in Hs1. rewrite insert_app_r_alt, Nat.sub_diag in Hs1 by done. cbn [insert list_insert] in Hs1.
    assert (∀ c, blive t2 c = blive t c) as Hbl.
    { intros c. unfold blive, bempty, bdel, t2. cbn [set_counts settings delkey emptyval]. by rewrite Hdk, Hst, Hev. }
    assert (slots t2 = (pre ++ [(delkey t, dflt)]) ++ l) as Hs2 by (change (slots t2) with (slots t1); rewrite Hs1; by rewrite <-app_assoc).
    assert (num_buckets t2 = num_buckets t) as Hn2.
    { destruct (dm_ok _ e d t2 _ Hm1) as [k2 Hok2]. rewrite <-(slots_length _ k2 t2 Hok2), <-Hlen, Hs2, Hs, !length_app. cbn. lia. }
    destruct (dm_ok _ e d t2 _ Hm1) as [k2 Hok2]. unfold dense_next.
    rewrite check_true by (apply negb_true_iff, Z.eqb_neq; lia). cbn [mbind option_bind].
    pose proof (advance_ok hash_key NDEBUG k2 t2 l (pre ++ [(delkey t, dflt)]) (dense_fuel t2) Hok2 Hs2) as Ha.
    rewrite length_app in Ha. cbn [length] in Ha. replace (Z.of_nat (length pre + 1)) with (Z.of_nat (length pre) + 1) in Ha by lia.
    rewrite Ha by (unfold dense_fuel; rewrite Hs, length_app in Hlen; cbn in Hlen; lia). cbn [mbind option_bind].
    destruct (IH t2 (delete key g) (pre ++ [(delkey t, dflt)]) fuel Hm1 Hd Hs2) as (t' & g' & Ht' & Hrest); [cbn in Hf; lia| |].
    { apply Forall_app. split; [eapply Forall_impl; [exact Hpre|]; intros c; by rewrite Hbl|]. apply Forall_singleton. rewrite Hbl.
      unfold blive. rewrite bdel_deleted. cbn [fst]. rewrite (bool_decide_eq_true_2 (deleted_key t = Some (delkey t))); [by rewrite andb_false_r|].
      pose proof (dm_deleted _ e d t g Hm) as Hdd. unfold deleted_key in *. by destruct (use_deleted _); [|congruence]. }
    exists t', g'. rewrite length_app in Ht'. cbn [length] in Ht'. rewrite Hn2 in Ht'.
    replace (Z.of_nat (length pre + 1)) with (Z.of_nat (length pre) + 1) in Ht' by lia. done.
Qed.

(** [erase(begin(), end())] *)
Lemma dense_erase_all_models t g :
  dense_models e d t g → d ≠ None →
  ∃ b t', dense_begin NDEBUG t = Some b ∧ dense_erase_range NDEBUG dflt t b (num_buckets t) = Some t' ∧ dense_models e d t' ∅.
Proof using.
  intros Hm Hd. destruct (dm_ok _ e d t g Hm) as [k Hok]. pose proof (slots_length _ k t Hok) as Hlen.
  pose proof (advance_ok hash_key NDEBUG k t (slots t) [] (dense_fuel t) Hok eq_refl ltac:(unfold dense_fuel; lia)) as Ha.
  destruct (erase_each_end (slots t) t g [] (dense_fuel t) Hm Hd eq_refl ltac:(unfold dense_fuel; lia) (Forall_nil_2 _))
    as (t' & g' & Ht' & Hm' & Hl). change (Z.of_nat (length (@nil (K * V)))) with 0 in *.
  eexists. eexists. split; [exact Ha|]. unfold dense_erase_range. rewrite Ht'. cbn [mbind option_bind]. split; [done|].
  apply flag_models. assert (g' = ∅) as ->; [|done]. apply map_to_list_empty_iff.
  pose proof (dm_live _ e d t' g' Hm') as Hp. rewrite Hl in Hp. by apply Permutation_nil_l in Hp.
Qed.
End edit.
End dense.
