(* ===== verification/DenseManage.v ===== *)
(** * Sizes, special keys, load factors, clears and copies of the dense hash table

    None of them changes the map a table stands for, but for a clear. The deleted key may
    be set to any key the map does not have, and changed. *)
From stdpp Require Import gmap.
From S2P Require Import Prelude Floats FiniteMaps DenseTable DenseProbe DenseInv DenseUpdate DenseResize DenseMap.

Section dense.
Context {K V : Type} `{Countable K}.
Context (hash_key : K → option Z) (NDEBUG : bool) (key_dflt : K) (dflt : V).

Abbreviation dtable := (dense_hashtable K V).
Abbreviation dense_ok := (dense_ok (V := V) hash_key).
Abbreviation dense_models := (dense_models (K := K) (V := V) hash_key).

(** ** Construction *)

Lemma dense_new_models n key :
  0 ≤ n ≤ 2 ^ 34 →
  ∃ t t', dense_new key_dflt dflt n = Some t ∧ set_empty_key NDEBUG dflt t key = Some t' ∧ dense_models key None t' ∅.
Proof using.
  intros Hn. unfold dense_new.
  assert (∃ k, (if n =? 0 then Some HT_DEFAULT_STARTING_BUCKETS else min_buckets settings_new n 0) = Some (2 ^ k) ∧
    2 ≤ k ≤ 61 ∧ 2 ^ k ≤ 2 ^ 40) as (k & -> & Hk & Hcap).
  { destruct (n =? 0); [by exists 5|].
    destruct (min_buckets_ok settings_new n 0 default_factors_ok) as (k & -> & Hk & Hl); [lia|lia|].
    exists k. split; [done|]. split; [done|]. pose proof (least_size_bound _ _ n 0 k default_factors_ok ltac:(lia) Hl). lia. }
  cbn [mbind option_bind].
  destruct (reset_thresholds_ok settings_new k default_factors_ok ltac:(lia)) as (s & -> & (He & Hsh & Hu & Hd) & _ & Hth).
  cbn [mbind option_bind]. do 2 eexists. split; [done|]. unfold set_empty_key. cbn [settings table]. rewrite Hu, Hd.
  rewrite !check_true by done. cbn [mbind option_bind num_buckets delkey num_deleted num_elements]. split; [done|].
  destruct (empty_table_ok hash_key k (set_use_empty s true) key_dflt (key, dflt)) as [Hok Hl];
    [lia|cbn; rewrite He, Hsh; exact default_factors_ok|done|cbn; by rewrite Hd|cbn; by rewrite He|].
  split; [by exists k|done|rewrite Hl; by rewrite map_to_list_empty|done|unfold deleted_key; cbn; by rewrite Hd].
Qed.

Lemma dense_of_range_models max_size forward l key n :
  2 ^ 40 ≤ max_size → 0 ≤ n ≤ 2 ^ 34 → Forall (λ kv, usable_key hash_key key None kv.1) l → Z.of_nat (length l) < 2 ^ 34 →
  ∃ t, dense_of_range hash_key NDEBUG key_dflt dflt max_size forward l key n = Some t ∧ dense_models key None t (put_all ∅ l).
Proof using.
  intros Hmax Hn Hl Hlen. destruct (dense_new_models n key Hn) as (t & t1 & Ht & Ht1 & Hm). unfold dense_of_range.
  rewrite Ht. cbn [mbind option_bind]. rewrite Ht1. cbn [mbind option_bind]. destruct forward.
  - by apply dense_insert_range_models.
  - by apply insert_input_models.
Qed.

Section manage.
Context (e : K) (d : option K).

(** ** Copies *)

Lemma copied_models k t t' wanted k' g :
  dense_models e d t g → dense_ok k t → copied hash_key t t' wanted k' → wanted ≤ 2 ^ 39 → Z.of_nat (size g) < 2 ^ 34 →
  dense_models e d t' g.
Proof using.
  intros Hm Hok Hcp Hw Hsz. pose proof (copied_kept hash_key t t' wanted k' Hcp) as Hkept.
  destruct Hcp as (Hok' & _ & _ & _ & _ & _ & _ & _ & Hk' & Hl). apply (kept_models hash_key e d k' t); [done|done| |done].
  destruct (do_size _ k' t' Hok') as [Hk ->]. rewrite (live_size hash_key e d t g Hm) in Hl.
  pose proof (least_size_bound _ _ _ wanted k' (do_factors _ k t Hok) ltac:(lia) Hl). lia.
Qed.

Lemma dense_copy_models t g wanted :
  dense_models e d t g → wanted ≤ 2 ^ 39 → Z.of_nat (size g) < 2 ^ 34 →
  ∃ t', dense_copy hash_key NDEBUG t wanted = Some t' ∧ dense_models e d t' g.
Proof using.
  intros Hm Hw Hsz. destruct (dm_ok _ e d t g Hm) as [k Hok].
  destruct (dense_copy_ok hash_key NDEBUG k t wanted Hok) as (k' & t' & Ht' & Hcp); [rewrite (live_size hash_key e d t g Hm); lia|lia|].
  exists t'. split; [done|]. by apply (copied_models k t t' wanted k').
Qed.

(** [t = ht] *)
Lemma dense_assign_models t ht g :
  dense_models e d ht g → Z.of_nat (size g) < 2 ^ 34 →
  ∃ t', dense_assign hash_key NDEBUG t ht = Some t' ∧ dense_models e d t' g.
Proof using.
  intros Hm Hsz. destruct (dm_ok _ e d ht g Hm) as [k Hok]. unfold dense_assign. rewrite (do_use_empty _ k ht Hok). cbn [negb].
  destruct (copy_from_ok hash_key NDEBUG k ht (DenseTable (settings ht) (delkey ht) (num_deleted t) (num_elements t)
    (num_buckets t) (emptyval ht) (table t)) HT_MIN_BUCKETS Hok) as (k' & t' & Ht' & Hcp);
    [done|done|done|rewrite (live_size hash_key e d ht g Hm); lia|done|].
  exists t'. split; [done|]. by apply (copied_models k ht t' HT_MIN_BUCKETS k').
Qed.

(** New thresholds for the same factors. *)
Lemma reset_models t g :
  dense_models e d t g → ∃ s, reset_thresholds (settings t) (num_buckets t) = Some s ∧ dense_models e d (set_settings t s) g.
Proof using.
  intros Hm. destruct (dm_ok _ e d t g Hm) as [k Hok]. destruct (do_size _ k t Hok) as [Hk Hn].
  destruct (reset_thresholds_ok (settings t) k (do_factors _ k t Hok) ltac:(lia)) as (s & Hs & Hr & _ & Hth).
  exists s. split; [by rewrite Hn|]. destruct (set_settings_ok hash_key k t s Hok Hr) as [Hok' Hl]; [by rewrite Hn|].
  apply (kept_models hash_key e d k t); [done|done|exact (dm_cap _ e d t g Hm)|]. by split; [rewrite Hl|].
Qed.

(** ** Sizes *)

Lemma maybe_shrink_models t g :
  dense_models e d t g → Z.of_nat (size g) < 2 ^ 34 →
  ∃ t' b, maybe_shrink hash_key NDEBUG t = Some (t', b) ∧ dense_models e d t' g.
Proof using.
  intros Hm Hsz. destruct (dm_ok _ e d t g Hm) as [k Hok].
  destruct (maybe_shrink_ok hash_key NDEBUG k t Hok (dm_cap _ e d t g Hm)) as (k' & t' & b & -> & Hok' & Hcap' & Hkept & _);
    [by rewrite (live_size hash_key e d t g Hm)|].
  exists t', b. split; [done|]. by apply (kept_models hash_key e d k' t).
Qed.

Lemma resize_models t g req :
  dense_models e d t g → Z.of_nat (size g) + req < 2 ^ 34 → 0 ≤ req →
  ∃ t', resize hash_key NDEBUG t req = Some t' ∧ dense_models e d t' g.
Proof using.
  intros Hm Hsz Hr. unfold resize.
  assert (∃ t1 b, (if consider_shrink (settings t) || (req =? 0) then maybe_shrink hash_key NDEBUG t else Some (t, false)) = Some (t1, b) ∧
    dense_models e d t1 g) as (t1 & b & -> & Hm1).
  { destruct (_ || _); [apply maybe_shrink_models; [done|lia]|by exists t, false]. }
  cbn [mbind option_bind]. destruct (Z.ltb_spec (num_elements t1) req); [|by exists t1].
  destruct (dm_ok _ e d t1 g Hm1) as [k Hok]. pose proof (counts_ok _ k t1 Hok).
  destruct (resize_delta_models hash_key NDEBUG e d t1 g (req - num_elements t1) Hm1 ltac:(lia) ltac:(lia)) as (t' & b' & -> & Hm' & _).
  by exists t'.
Qed.

(** ** Load factors *)

Lemma set_resizing_parameters_models t g shrink grow :
  dense_models e d t g → factor_between 10 shrink → factor_between 5 grow →
  ∃ t', set_resizing_parameters NDEBUG t shrink grow = Some t' ∧ dense_models e d t' g.
Proof using.
  intros Hm Hs Hg. destruct (dm_ok _ e d t g Hm) as [k Hok]. destruct (do_size _ k t Hok) as [Hk Hn].
  unfold set_resizing_parameters.
  rewrite (check_true _ _ (factor_sign _ _ Hs)), (check_true _ _ (factor_le_1 _ _ Hg)). cbn [mbind option_bind].
  set (s0 := Settings _ _ grow _ _ _ _ _). rewrite Hn.
  destruct (reset_thresholds_ok s0 k (capped_factors_ok grow shrink Hg Hs) ltac:(lia)) as (s & -> & (He & Hsh & Hu & Hd) & _ & Hth).
  cbn [mbind option_bind]. eexists. split; [done|].
  destruct (new_settings_ok hash_key k t s Hok) as [Hok' Hl]; [rewrite He, Hsh; by apply capped_factors_ok|done|done|by rewrite Hn, He|].
  split; [by exists k|exact (dm_cap _ e d t g Hm)|rewrite Hl; apply (dm_live _ e d t g Hm)|exact (dm_empty _ e d t g Hm)|].
  unfold deleted_key. cbn [set_settings settings delkey]. rewrite Hd. exact (dm_deleted _ e d t g Hm).
Qed.

Lemma dense_max_load_models t g grow :
  dense_models e d t g → grow_factor_ok grow = true →
  ∃ t', dense_max_load_factor NDEBUG t grow = Some t' ∧ dense_models e d t' g.
Proof using.
  intros Hm Hg. destruct (dm_ok _ e d t g Hm) as [k Hok]. apply set_resizing_parameters_models; [done| |].
  - apply (fo_shrink _ _ (do_factors _ k t Hok)).
  - by apply grow_factor_between.
Qed.

Lemma dense_min_load_models t g shrink :
  dense_models e d t g → shrink_factor_ok shrink = true →
  ∃ t', dense_min_load_factor NDEBUG t shrink = Some t' ∧ dense_models e d t' g.
Proof using.
  intros Hm Hs. destruct (dm_ok _ e d t g Hm) as [k Hok]. apply set_resizing_parameters_models; [done| |].
  - by apply shrink_factor_between.
  - apply (fo_enlarge _ _ (do_factors _ k t Hok)).
Qed.

(** ** Clearing *)

Lemma no_elements t g : dense_models e d t g → num_elements t = 0 → g = ∅ ∧ num_deleted t = 0.
Proof using.
  intros Hm Hz. destruct (dm_ok _ e d t g Hm) as [k Hok]. pose proof (counts_ok _ k t Hok) as Hc.
  destruct (size_live hash_key k t Hok) as [Hs _]. rewrite (live_size hash_key e d t g Hm) in Hs.
  split; [apply map_size_empty_iff|]; lia.
Qed.

(** A table whose entries are thrown away. *)
Lemma emptied_models t g s k :
  dense_models e d t g → 2 ≤ k ≤ 62 → 2 ^ k ≤ 2 ^ 40 → same_rules (settings t) s →
  scaled_size (2 ^ k) (enlarge_factor (settings t)) = Some (enlarge_threshold s) →
  dense_models e d (DenseTable s (delkey t) 0 0 (2 ^ k) (emptyval t) (Some (replicate (Z.to_nat (2 ^ k)) (emptyval t)))) ∅.
Proof using.
  intros Hm Hk Hcap (He & Hsh & Hu & Hd) Hth. destruct (dm_ok _ e d t g Hm) as [k0 Hok].
  destruct (empty_table_ok hash_key k s (delkey t) (emptyval t)) as [Hok' Hl];
    [done|rewrite He, Hsh; apply Hok|rewrite Hu; apply Hok|rewrite Hd; apply Hok|by rewrite He|].
  split; [by exists k|done|rewrite Hl; by rewrite map_to_list_empty|exact (dm_empty _ e d t g Hm)|].
  unfold deleted_key. cbn [settings delkey]. rewrite Hd. exact (dm_deleted _ e d t g Hm).
Qed.

Lemma dense_clear_models t g :
  dense_models e d t g → ∃ t', dense_clear t = Some t' ∧ dense_models e d t' ∅.
Proof using.
  intros Hm. destruct (dm_ok _ e d t g Hm) as [k Hok]. pose proof (do_factors _ k t Hok) as Hfa. unfold dense_clear.
  destruct (min_buckets_ok (settings t) 0 0 Hfa ltac:(lia) ltac:(lia)) as (k' & -> & Hk' & Hl). cbn [mbind option_bind].
  destruct (_ && _) eqn:Hz.
  { apply andb_true_iff in Hz as [Hz%Z.eqb_eq _]. destruct (no_elements t g Hm Hz) as [-> _]. by exists t. }
  unfold clear_to_size. destruct (reset_thresholds_ok (settings t) k' Hfa ltac:(lia)) as (s & -> & Hr & _ & Hth).
  cbn [mbind option_bind]. eexists. split; [done|]. apply (emptied_models t g s k'); [done|lia| |done|done].
  pose proof (least_size_bound _ _ 0 0 k' Hfa ltac:(lia) Hl). lia.
Qed.

Lemma clear_no_resize_models t g :
  dense_models e d t g → ∃ t', clear_no_resize NDEBUG t = Some t' ∧ dense_models e d t' ∅.
Proof using.
  intros Hm. destruct (dm_ok _ e d t g Hm) as [k Hok]. destruct (do_size _ k t Hok) as [Hk Hn]. unfold clear_no_resize.
  destruct (Z.ltb_spec 0 (num_elements t)) as [Hlt|Hge].
  - destruct (do_table _ k t Hok) as (l & Hl & _). rewrite Hl, check_true by done. cbn [mbind option_bind settings num_buckets]. rewrite Hn.
    destruct (reset_thresholds_ok (settings t) k (do_factors _ k t Hok) ltac:(lia)) as (s & -> & Hr & _ & Hth).
    cbn [mbind option_bind]. eexists. split; [done|]. apply (emptied_models t g s k); [done|lia| |done|done].
    rewrite <-Hn. by apply (dm_cap _ e d t g Hm).
  - pose proof (counts_ok _ k t Hok) as Hc. destruct (no_elements t g Hm ltac:(lia)) as [-> Hd0].
    destruct (reset_models t ∅ Hm) as (s & Hs & Hm'). cbn [mbind option_bind]. rewrite Hs. cbn [mbind option_bind].
    eexists. split; [done|]. assert (num_elements t = 0) as He0 by lia.
    replace (set_counts (set_settings t s) 0 0) with (set_settings t s); [done|].
    unfold set_settings, set_counts. cbn. by rewrite Hd0, He0.
Qed.

(** ** The deleted key *)

Lemma squash_deleted_models t g :
  dense_models e d t g → Z.of_nat (size g) < 2 ^ 34 →
  ∃ t', squash_deleted hash_key NDEBUG t = Some t' ∧ dense_models e d t' g ∧ num_deleted t' = 0.
Proof using.
  intros Hm Hsz. unfold squash_deleted. destruct (Z.eqb_spec (num_deleted t) 0) as [Hz|Hnz].
  { cbn [mbind option_bind]. rewrite check_true by by apply Z.eqb_eq. by exists t. }
  destruct (dm_ok _ e d t g Hm) as [k Hok].
  destruct (resize_to_ok hash_key NDEBUG k t HT_DEFAULT_STARTING_BUCKETS Hok) as (k' & t' & -> & Hcp);
    [rewrite (live_size hash_key e d t g Hm); lia|done|].
  pose proof Hcp as (_ & _ & _ & Hz & _). cbn [mbind option_bind]. rewrite check_true by by apply Z.eqb_eq.
  exists t'. split; [done|]. split; [|done]. by apply (copied_models k t t' HT_DEFAULT_STARTING_BUCKETS k').
Qed.

(** Another deleted key, or none, for a table without deleted entries. *)
Lemma respecify_models t g (u : bool) key :
  dense_models e d t g → num_deleted t = 0 → (u = true → key ≠ e ∧ g !! key = None) →
  dense_models e (if u then Some key else None)
    (DenseTable (set_use_deleted (settings t) u) key (num_deleted t) (num_elements t) (num_buckets t) (emptyval t) (table t)) g.
Proof using.
  intros Hm Hz Hkey. set (t' := DenseTable _ _ _ _ _ _ _). destruct (dm_ok _ e d t g Hm) as [k Hok].
  assert (∀ b, b ∈ slots t → bdel t b = false ∧ bdel t' b = false) as Hdel.
  { intros b Hb. assert (bdel t b = false) as Hbd by (apply (count_if_none _ (slots t)); [by rewrite <-(do_deleted _ k t Hok)|done]).
    split; [done|]. unfold bdel. cbn [t' settings set_use_deleted use_deleted delkey]. destruct u; [|done]. destruct (Hkey eq_refl) as [Hke Hkg].
    apply bool_decide_eq_false_2. intros ->. destruct (bempty t b) eqn:Hbe.
    - apply bool_decide_eq_true in Hbe. rewrite (dm_empty _ e d t g Hm) in Hbe. congruence.
    - apply eq_None_not_Some in Hkg. apply Hkg, (live_key_lookup hash_key e d t g _ Hm), list_elem_of_fmap. exists b. split; [done|].
      apply list_elem_of_filter. split; [by apply blive_iff|done]. }
  assert (∀ b, b ∈ slots t → blive t' b = blive t b) as Hbl.
  { intros b Hb. destruct (Hdel b Hb) as [H1 H2]. unfold blive. by rewrite H1, H2. }
  assert (live_values t' = live_values t) as Hl.
  { unfold live_values. change (slots t') with (slots t). apply list_eq_Forall2. revert Hbl. generalize (slots t).
    induction l as [|b l IH]; intros Hl; [constructor|]. rewrite !filter_cons, (Hl b) by by left.
    destruct (decide _); [constructor; [done|]|]; (apply IH; intros c Hc; apply Hl; by right). }
  split; [|exact (dm_cap _ e d t g Hm)|rewrite Hl; exact (dm_live _ e d t g Hm)|exact (dm_empty _ e d t g Hm)|by destruct u].
  exists k. split; try exact (do_size _ k t Hok); try apply Hok.
  - cbn [t' settings set_use_deleted use_deleted delkey emptyval]. intros Hu. rewrite (dm_empty _ e d t g Hm). by apply Hkey.
  - cbn [t' num_deleted]. rewrite (do_deleted _ k t Hok). change (slots t') with (slots t). apply count_if_ext.
    intros b Hb. destruct (Hdel b Hb) as [H1 H2]. by rewrite H1, H2.
  - unfold live_keys. rewrite Hl. apply Hok.
  - intros i b Hi Hb Hlb. pose proof Hb as Hin. apply list_elem_of_lookup_2 in Hin. rewrite (Hbl b Hin) in Hlb.
    by apply (do_reach _ k t Hok).
Qed.

Lemma set_deleted_key_models t g key :
  dense_models e d t g → Z.of_nat (size g) < 2 ^ 34 → key ≠ e → g !! key = None →
  ∃ t', set_deleted_key hash_key NDEBUG t key = Some t' ∧ dense_models e (Some key) t' g.
Proof using.
  intros Hm Hsz Hke Hg. unfold set_deleted_key. rewrite (dm_empty _ e d t g Hm), bool_decide_eq_false_2 by done.
  rewrite check_true by apply orb_true_r. cbn [mbind option_bind].
  destruct (squash_deleted_models t g Hm Hsz) as (t1 & -> & Hm1 & Hz). cbn [mbind option_bind]. eexists. split; [done|].
  by apply (respecify_models t1 g true key).
Qed.

Lemma clear_deleted_key_models t g :
  dense_models e d t g → Z.of_nat (size g) < 2 ^ 34 →
  ∃ t', clear_deleted_key hash_key NDEBUG t = Some t' ∧ dense_models e None t' g.
Proof using.
  intros Hm Hsz. unfold clear_deleted_key. destruct (squash_deleted_models t g Hm Hsz) as (t1 & -> & Hm1 & Hz).
  cbn [mbind option_bind]. eexists. split; [done|]. by apply (respecify_models t1 g false (delkey t1)).
Qed.

(** ** Iteration *)

Lemma dense_iteration_models t g :
  dense_models e d t g →
  ∃ b l, dense_begin NDEBUG t = Some b ∧ dense_iterate NDEBUG (dense_fuel t) t b = Some l ∧ l ≡ₚ map_to_list g.
Proof using.
  intros Hm. destruct (dm_ok _ e d t g Hm) as [k Hok]. pose proof (iterate_live hash_key NDEBUG k t Hok) as Hit.
  apply bind_Some in Hit as (b & Hb & Hit). exists b, (live_values t). split; [done|]. split; [done|]. exact (dm_live _ e d t g Hm).
Qed.
End manage.

(** [t.swap(ht)] *)
Lemma dense_swap_models e d e' d' t ht g h :
  dense_models e d t g → dense_models e' d' ht h →
  ∃ t1 t2, dense_swap t ht = Some (t1, t2) ∧ dense_models e' d' t1 h ∧ dense_models e d t2 g.
Proof using.
  intros Hm Hm'. destruct (reset_models e d t g Hm) as (s & Hs & Hr). destruct (reset_models e' d' ht h Hm') as (s' & Hs' & Hr').
  unfold dense_swap. rewrite Hs, Hs'. by do 2 eexists.
Qed.

(** ** Comparison *)

Lemma all_found_models `{EqDecision V} e d ht (h : gmap K V) l :
  dense_models e d ht h → Forall (λ v, dhashable hash_key v.1) l →
  all_found hash_key NDEBUG ht l = Some (bool_decide (Forall (λ v, h !! v.1 = Some v.2) l)).
Proof using.
  intros Hm. induction l as [|[key w] l IH]; intros Hl; [done|]. apply Forall_cons in Hl as [Hk Hl]. cbn [all_found fst].
  destruct (dense_find_models hash_key NDEBUG e d ht h key Hm Hk) as (i & -> & Hspec). cbn [mbind option_bind].
  destruct (h !! key) as [v|] eqn:Hg.
  - rewrite (proj2 (Z.eqb_neq _ _)) by (destruct Hspec; lia). rewrite (entry_bucket hash_key e d ht h i key v Hm Hspec).
    cbn [mbind option_bind]. destruct (bool_decide_reflect ((key, w) = (key, v))) as [[= ->]|Hne].
    + rewrite (IH Hl). f_equal. apply bool_decide_ext. rewrite Forall_cons. cbn [fst snd]. naive_solver.
    + f_equal. symmetry. apply bool_decide_eq_false. rewrite Forall_cons. cbn [fst snd]. intros [Heq _]. congruence.
  - subst i. rewrite Z.eqb_refl. f_equal. symmetry. apply bool_decide_eq_false. rewrite Forall_cons. cbn [fst snd]. intros [Heq _]. congruence.
Qed.

Lemma dense_equal_models `{EqDecision V} e d e' d' t ht (g h : gmap K V) :
  dense_models e d t g → dense_models e' d' ht h → dense_equal hash_key NDEBUG t ht = Some (bool_decide (g = h)).
Proof using.
  intros Hm Hm'. unfold dense_equal. rewrite (dense_size_models hash_key e d t g Hm), (dense_size_models hash_key e' d' ht h Hm').
  destruct (Z.eqb_spec (Z.of_nat (size g)) (Z.of_nat (size h))) as [Hs|Hs]; cbn [negb].
  2: { f_equal. symmetry. apply bool_decide_eq_false. by intros ->. }
  destruct (dense_iteration_models e d t g Hm) as (b & l & -> & Hl & Hp). cbn [mbind option_bind]. rewrite Hl. cbn [mbind option_bind].
  assert (∀ v, v ∈ l ↔ g !! v.1 = Some v.2) as Hin by (intros [k v]; rewrite Hp; apply elem_of_map_to_list).
  rewrite (all_found_models e' d' ht h l Hm').
  - f_equal. apply bool_decide_ext. rewrite Forall_forall. split; [|intros -> v; apply Hin].
    intros Hall. apply map_subseteq_size_eq; [|lia]. apply map_subseteq_spec. intros k v Hk. apply (Hall (k, v)), (Hin (k, v)), Hk.
  - apply Forall_forall. intros [k v] Hkv%Hin. apply (live_usable hash_key e d t g k v Hm Hkv).
Qed.
End dense.
