(* ===== verification/DenseRun.v ===== *)
(** * Runs of two dense hash tables

    A client's operations on two tables, with exchanges, copies, comparisons and assignments between
    them, answer what they would answer on two finite maps. Besides the map a table has
    its empty key and perhaps a deleted key, which the client may change; the keys it
    inserts and erases must be other ones, and the asserts of the code never fail. *)
From stdpp Require Import gmap.
From S2P Require Import Prelude Floats FiniteMaps DenseTable DenseProbe DenseInv DenseUpdate DenseResize DenseMap DenseManage.

Inductive dense_op {K V : Type} :=
  | DInsert (key : K) (obj : V)
  | DSubscript (key : K) (obj : V)
  | DInsertRange (forward : bool) (l : list (K * V))
  | DErase (key : K)
  | DEraseFound (key : K)
  | DEraseAll
  | DFind (key : K)
  | DCount (key : K)
  | DEqualRange (key : K)
  | DSize
  | DClear
  | DClearNoResize
  | DResize (n : Z)
  | DSetDeletedKey (key : K)
  | DClearDeletedKey
  | DMaxLoadFactor (f : spec_float)
  | DMinLoadFactor (f : spec_float)
  | DEqual
  | DSwap
  | DCopy
  | DAssign.
Arguments dense_op : clear implicits.

Inductive dense_answer {V : Type} :=
  | DNone
  | DInserted (b : bool)
  | DCounted (n : Z)
  | DFound (r : option V)
  | DAre (b : bool).
Arguments dense_answer : clear implicits.

(** What a table promises: the two keys set aside and the map. *)
Record dense_spec {K V : Type} `{Countable K} := DenseSpec {
  ds_empty : K;
  ds_deleted : option K;
  ds_map : gmap K V
}.
Arguments dense_spec K V {_ _}.
Arguments DenseSpec {K V _ _}.

Section run.
Context {K V : Type} `{Countable K} `{EqDecision V}.
Context (hash_key : K → option Z) (NDEBUG : bool) (key_dflt : K) (dflt : V) (max_size : Z).

Abbreviation dtable := (dense_hashtable K V).
Abbreviation spec := (dense_spec K V).

(** One operation: the first of two tables is the one a method is called on. [DCopy]
    builds the second from the first, [DAssign] assigns the second to the first. *)
Definition dense_step (s : dtable * dtable) (o : dense_op K V) : option ((dtable * dtable) * dense_answer V) :=
  let '(t, t2) := s in
  match o with
  | DInsert k v => '(t, (_, b)) ← dense_insert hash_key NDEBUG max_size t (k, v); Some ((t, t2), DInserted b)
  | DSubscript k v => t ← dense_subscript_assign hash_key NDEBUG dflt max_size t k v; Some ((t, t2), DNone)
  | DInsertRange forward l =>
      t ← (if forward then dense_insert_range hash_key NDEBUG max_size t l else insert_input hash_key NDEBUG max_size t l);
      Some ((t, t2), DNone)
  | DErase k => '(t, n) ← dense_erase hash_key NDEBUG dflt t k; Some ((t, t2), DCounted n)
  | DEraseFound k => i ← dense_find hash_key NDEBUG t k; t ← dense_erase_at NDEBUG dflt t i; Some ((t, t2), DNone)
  | DEraseAll => i ← dense_begin NDEBUG t; t ← dense_erase_range NDEBUG dflt t i (num_buckets t); Some ((t, t2), DNone)
  | DFind k => r ← dense_find_value hash_key NDEBUG t k; Some (s, DFound r)
  | DCount k => n ← dense_count hash_key NDEBUG t k; Some (s, DCounted n)
  | DEqualRange k =>
      '(i, j) ← dense_equal_range hash_key NDEBUG t k;
      if i =? j then Some (s, DFound None) else b ← dense_bucket t i; Some (s, DFound (Some b.2))
  | DSize => Some (s, DCounted (dense_size t))
  | DClear => t ← dense_clear t; Some ((t, t2), DNone)
  | DClearNoResize => t ← clear_no_resize NDEBUG t; Some ((t, t2), DNone)
  | DResize n => t ← resize hash_key NDEBUG t n; Some ((t, t2), DNone)
  | DSetDeletedKey k => t ← set_deleted_key hash_key NDEBUG t k; Some ((t, t2), DNone)
  | DClearDeletedKey => t ← clear_deleted_key hash_key NDEBUG t; Some ((t, t2), DNone)
  | DMaxLoadFactor f => t ← dense_max_load_factor NDEBUG t f; Some ((t, t2), DNone)
  | DMinLoadFactor f => t ← dense_min_load_factor NDEBUG t f; Some ((t, t2), DNone)
  | DEqual => b ← dense_equal hash_key NDEBUG t t2; Some (s, DAre b)
  | DSwap => s ← dense_swap t t2; Some (s, DNone)
  | DCopy => t2 ← dense_copy hash_key NDEBUG t HT_DEFAULT_STARTING_BUCKETS; Some ((t, t2), DNone)
  | DAssign => t ← dense_assign hash_key NDEBUG t t2; Some ((t, t2), DNone)
  end.

Definition with_map (a : spec) (g : gmap K V) : spec := DenseSpec (ds_empty a) (ds_deleted a) g.
Definition with_deleted (a : spec) (d : option K) : spec := DenseSpec (ds_empty a) d (ds_map a).

(** The same operation on two maps. *)
Definition spec_step (s : spec * spec) (o : dense_op K V) : (spec * spec) * dense_answer V :=
  let '(a, a2) := s in
  let g := ds_map a in
  match o with
  | DInsert k v => ((with_map a (put_new g (k, v)), a2), DInserted (if g !! k is Some _ then false else true))
  | DSubscript k v => ((with_map a (<[k := v]> g), a2), DNone)
  | DInsertRange _ l => ((with_map a (put_all g l), a2), DNone)
  | DErase k => ((with_map a (delete k g), a2), DCounted (if g !! k is Some _ then 1 else 0))
  | DEraseFound k => ((with_map a (delete k g), a2), DNone)
  | DFind k | DEqualRange k => (s, DFound (g !! k))
  | DCount k => (s, DCounted (if g !! k is Some _ then 1 else 0))
  | DSize => (s, DCounted (Z.of_nat (size g)))
  | DClear | DClearNoResize | DEraseAll => ((with_map a ∅, a2), DNone)
  | DResize _ | DMaxLoadFactor _ | DMinLoadFactor _ => (s, DNone)
  | DSetDeletedKey k => ((with_deleted a (Some k), a2), DNone)
  | DClearDeletedKey => ((with_deleted a None, a2), DNone)
  | DEqual => (s, DAre (bool_decide (g = ds_map a2)))
  | DSwap => ((a2, a), DNone)
  | DCopy => ((a, a), DNone)
  | DAssign => ((a2, a2), DNone)
  end.

(** What the client may ask for. *)
Definition usable_in (a : spec) (k : K) : Prop := usable_key hash_key (ds_empty a) (ds_deleted a) k.

Definition room_for (a : spec) (n : Z) : Prop := Z.of_nat (size (ds_map a)) + n < 2 ^ 34.

Definition dense_op_ok (s : spec * spec) (o : dense_op K V) : Prop :=
  let '(a, a2) := s in
  match o with
  | DInsert k _ | DSubscript k _ => usable_in a k ∧ room_for a 1
  | DInsertRange _ l => Forall (λ kv, usable_in a kv.1) l ∧ room_for a (Z.of_nat (length l))
  | DErase k => usable_in a k ∧ ds_deleted a ≠ None
  | DEraseFound k => dhashable hash_key k ∧ ds_deleted a ≠ None
  | DFind k | DCount k | DEqualRange k => dhashable hash_key k
  | DResize n => 0 ≤ n ∧ room_for a n
  | DSetDeletedKey k => k ≠ ds_empty a ∧ ds_map a !! k = None ∧ room_for a 0
  | DClearDeletedKey | DCopy => room_for a 0
  | DAssign => room_for a2 0
  | DMaxLoadFactor f => grow_factor_ok f = true
  | DMinLoadFactor f => shrink_factor_ok f = true
  | DEraseAll => ds_deleted a ≠ None
  | DSize | DClear | DClearNoResize | DEqual | DSwap => True
  end.

Fixpoint run_dense (s : dtable * dtable) (ops : list (dense_op K V)) : option ((dtable * dtable) * list (dense_answer V)) :=
  match ops with
  | [] => Some (s, [])
  | o :: ops => '(s, a) ← dense_step s o; '(s, l) ← run_dense s ops; Some (s, a :: l)
  end.

Fixpoint run_spec (s : spec * spec) (ops : list (dense_op K V)) : (spec * spec) * list (dense_answer V) :=
  match ops with
  | [] => (s, [])
  | o :: ops => let '(s, a) := spec_step s o in let '(s, l) := run_spec s ops in (s, a :: l)
  end.

Fixpoint dense_ops_ok (s : spec * spec) (ops : list (dense_op K V)) : Prop :=
  match ops with
  | [] => True
  | o :: ops => dense_op_ok s o ∧ dense_ops_ok (spec_step s o).1 ops
  end.

(** The table is as promised. *)
Definition implements (t : dtable) (a : spec) : Prop := dense_models hash_key (ds_empty a) (ds_deleted a) t (ds_map a).

Definition implement (s : dtable * dtable) (a : spec * spec) : Prop := implements s.1 a.1 ∧ implements s.2 a.2.

(** Two tables the client has just built and given an empty key. *)
Definition new_tables (n : Z) (key : K) (n2 : Z) (key2 : K) : option (dtable * dtable) :=
  t ← dense_new key_dflt dflt n; t ← set_empty_key NDEBUG dflt t key;
  t2 ← dense_new key_dflt dflt n2; t2 ← set_empty_key NDEBUG dflt t2 key2;
  Some (t, t2).

Definition new_specs (key key2 : K) : spec * spec := (DenseSpec key None ∅, DenseSpec key2 None ∅).

Context (Hmax : 2 ^ 40 ≤ max_size).

(** A result that is defined and has the answer of the map. *)
Definition step_agrees (r : option ((dtable * dtable) * dense_answer V)) (a : (spec * spec) * dense_answer V) : Prop :=
  ∃ s', r = Some (s', a.2) ∧ implement s' a.1.

Lemma first_agrees t t2 a a2 ans :
  implements t a → implements t2 a2 → step_agrees (Some ((t, t2), ans)) ((a, a2), ans).
Proof using. intros Ht Ht2. by exists (t, t2). Qed.

Lemma lookup_agrees t t2 a a2 o k :
  implements t a → implements t2 a2 → dhashable hash_key k → o ∈ [DFind k; DCount k; DEqualRange k; DEraseFound k] →
  (o = DEraseFound k → ds_deleted a ≠ None) → step_agrees (dense_step (t, t2) o) (spec_step (a, a2) o).
Proof using.
  intros Hm Hm2 Hk Ho Hd. cbn [dense_step spec_step]. repeat apply elem_of_cons in Ho as [->|Ho]; [..|by apply elem_of_nil in Ho].
  - cbn [dense_step spec_step]. rewrite (dense_find_value_models hash_key NDEBUG _ _ t _ k Hm Hk). by apply first_agrees.
  - cbn [dense_step spec_step]. rewrite (dense_count_models hash_key NDEBUG _ _ t _ k Hm Hk). by apply first_agrees.
  - cbn [dense_step spec_step].
    destruct (dense_equal_range_models hash_key NDEBUG _ _ t _ k Hm Hk) as (i & j & -> & Hspec). cbn [mbind option_bind].
    destruct (ds_map a !! k) as [v|] eqn:Hg; [destruct Hspec as [Hat Hlt]|subst j; rewrite Z.eqb_refl; by apply first_agrees].
    rewrite (proj2 (Z.eqb_neq _ _)), (entry_bucket hash_key _ _ t _ i k v Hm Hat) by lia. by apply first_agrees.
  - specialize (Hd eq_refl). cbn [dense_step spec_step].
    destruct (dense_find_models hash_key NDEBUG _ _ t _ k Hm Hk) as (i & -> & Hspec). cbn [mbind option_bind].
    destruct (ds_map a !! k) as [v|] eqn:Hg.
    + destruct (dense_erase_at_models hash_key NDEBUG dflt _ _ t _ i k v Hm Hspec Hd) as (t' & -> & Hm'). by apply first_agrees.
    + unfold dense_erase_at. subst i. rewrite Z.eqb_refl. cbn [mbind option_bind].
      apply first_agrees; [|done]. unfold implements. cbn [with_map ds_empty ds_deleted ds_map]. by rewrite delete_id.
Qed.

Lemma update_agrees t t2 a a2 o k :
  implements t a → implements t2 a2 → usable_in a k → room_for a 1 → (∃ v, o ∈ [DInsert k v; DSubscript k v]) →
  step_agrees (dense_step (t, t2) o) (spec_step (a, a2) o).
Proof using Hmax.
  intros Hm Hm2 Hk Hr (v & Ho). repeat apply elem_of_cons in Ho as [->|Ho]; [..|by apply elem_of_nil in Ho]; cbn [dense_step spec_step].
  - destruct (dense_insert_models hash_key NDEBUG max_size Hmax _ _ t _ k v Hm Hk Hr) as (t' & i & -> & Hm' & _). by apply first_agrees.
  - destruct (dense_subscript_models hash_key NDEBUG dflt max_size Hmax _ _ t _ k v Hm Hk Hr) as (t' & -> & Hm'). by apply first_agrees.
Qed.

(** One table becomes another by an operation that has no answer. *)
Lemma silent_agrees (r : option dtable) t2 a a2 :
  (∃ t', r = Some t' ∧ implements t' a) → implements t2 a2 →
  step_agrees (t ← r; Some ((t, t2), DNone)) ((a, a2), DNone).
Proof using. intros (t' & -> & Hm) Hm2. by apply first_agrees. Qed.

Lemma dense_step_agrees s a o : implement s a → dense_op_ok a o → step_agrees (dense_step s o) (spec_step a o).
Proof using Hmax.
  destruct s as [t t2], a as [a a2]. intros [Hm Hm2] Ho. cbn [fst snd] in Hm, Hm2.
  assert (∀ n, room_for a n → 0 ≤ n → Z.of_nat (size (ds_map a)) < 2 ^ 34) as Hroom by (unfold room_for; lia).
  destruct o as [k v|k v|fw l|k|k| |k|k|k| | | |n|k| |f|f| | | |]; cbn [dense_op_ok] in Ho.
  - apply (update_agrees _ _ _ _ _ k); [done|done|apply Ho|apply Ho|]. exists v. by left.
  - apply (update_agrees _ _ _ _ _ k); [done|done|apply Ho|apply Ho|]. exists v. by right; left.
  - apply silent_agrees; [|done]. destruct fw.
    + apply (dense_insert_range_models hash_key NDEBUG max_size Hmax); [done|apply Ho|apply Ho].
    + apply (insert_input_models hash_key NDEBUG max_size Hmax); [done|apply Ho|apply Ho].
  - destruct Ho as [Hk Hd]. cbn [dense_step spec_step].
    destruct (dense_erase_models hash_key NDEBUG dflt _ _ t _ k Hm Hk Hd) as (t' & -> & Hm'). by apply first_agrees.
  - apply (lookup_agrees _ _ _ _ _ k); [done|done|apply Ho|set_solver|by intros _; apply Ho].
  - cbn [dense_step spec_step].
    destruct (dense_erase_all_models hash_key NDEBUG dflt _ _ t _ Hm Ho) as (i & t' & -> & Ht' & Hm'). cbn [mbind option_bind].
    rewrite Ht'. by apply first_agrees.
  - apply (lookup_agrees _ _ _ _ _ k); [done|done|apply Ho|set_solver|done].
  - apply (lookup_agrees _ _ _ _ _ k); [done|done|apply Ho|set_solver|done].
  - apply (lookup_agrees _ _ _ _ _ k); [done|done|apply Ho|set_solver|done].
  - cbn [dense_step spec_step]. rewrite (dense_size_models hash_key _ _ t _ Hm). by apply first_agrees.
  - apply silent_agrees; [|done]. by apply (dense_clear_models hash_key _ _ t (ds_map a)).
  - apply silent_agrees; [|done]. by apply (clear_no_resize_models hash_key NDEBUG _ _ t (ds_map a)).
  - apply silent_agrees; [|done]. apply (resize_models hash_key NDEBUG _ _ t); [done|apply Ho|apply Ho].
  - destruct Ho as (Hke & Hg & Hr). apply silent_agrees; [|done].
    apply (set_deleted_key_models hash_key NDEBUG _ (ds_deleted a) t); [done|by apply (Hroom 0)|done|done].
  - apply silent_agrees; [|done]. apply (clear_deleted_key_models hash_key NDEBUG _ (ds_deleted a) t); [done|by apply (Hroom 0)].
  - apply silent_agrees; [|done]. by apply (dense_max_load_models hash_key NDEBUG _ _ t).
  - apply silent_agrees; [|done]. by apply (dense_min_load_models hash_key NDEBUG _ _ t).
  - cbn [dense_step spec_step]. rewrite (dense_equal_models hash_key NDEBUG _ _ _ _ t t2 _ _ Hm Hm2). by apply first_agrees.
  - cbn [dense_step spec_step]. destruct (dense_swap_models hash_key _ _ _ _ t t2 _ _ Hm Hm2) as (t1' & t2' & -> & H1 & H2).
    by apply first_agrees.
  - cbn [dense_step spec_step].
    destruct (dense_copy_models hash_key NDEBUG _ _ t _ HT_DEFAULT_STARTING_BUCKETS Hm) as (t' & -> & Hm'); [done|by apply (Hroom 0)|].
    by apply first_agrees.
  - apply silent_agrees; [|done]. apply (dense_assign_models hash_key NDEBUG _ _ t t2); [done|unfold room_for in Ho; lia].
Qed.

Lemma run_dense_agrees ops : ∀ s a,
  implement s a → dense_ops_ok a ops →
  ∃ s', run_dense s ops = Some (s', (run_spec a ops).2) ∧ implement s' (run_spec a ops).1.
Proof using Hmax.
  induction ops as [|o ops IH]; intros s a Hs Hops; [by exists s|]. destruct Hops as [Ho Hops].
  destruct (dense_step_agrees s a o Hs Ho) as (s1 & Hs1 & Hi). destruct (IH s1 _ Hi Hops) as (s' & Hs' & Hi').
  exists s'. cbn [run_dense run_spec]. rewrite Hs1. cbn [mbind option_bind]. rewrite Hs'. cbn [mbind option_bind].
  destruct (spec_step a o) as [a1 ans]. cbn [fst snd] in *. by destruct (run_spec a1 ops).
Qed.

Lemma new_tables_ok n key n2 key2 :
  0 ≤ n ≤ 2 ^ 34 → 0 ≤ n2 ≤ 2 ^ 34 → ∃ s, new_tables n key n2 key2 = Some s ∧ implement s (new_specs key key2).
Proof using.
  intros Hn Hn2. destruct (dense_new_models hash_key NDEBUG key_dflt dflt n key Hn) as (t & t' & Ht & Ht' & Hm).
  destruct (dense_new_models hash_key NDEBUG key_dflt dflt n2 key2 Hn2) as (t2 & t2' & Ht2 & Ht2' & Hm2).
  exists (t', t2'). unfold new_tables. rewrite Ht. cbn [mbind option_bind]. rewrite Ht'. cbn [mbind option_bind].
  rewrite Ht2. cbn [mbind option_bind]. by rewrite Ht2'.
Qed.

(** C11: Any run of insertions (ranges too), assignments, erasures, lookups, clears,
    resizes, changes of the deleted key and of the load factors on two newly built
    [dense_hash_map]s, with exchanges, copies, comparisons and assignments of one to the other, is
    defined, fails no assert and gives the answers of two finite maps, whatever the
    hash functor does and however keys collide; the tables end with the entries of the
    maps. The keys are not the two set aside, at most [2 ^ 34] are stored, and the load factors set
    are from 1/4 to below 1 for growing and from 1/10 to below 1 for shrinking. *)
Theorem dense_run_as_maps n key n2 key2 ops :
  0 ≤ n ≤ 2 ^ 34 → 0 ≤ n2 ≤ 2 ^ 34 → dense_ops_ok (new_specs key key2) ops →
  ∃ s t t2, new_tables n key n2 key2 = Some s ∧
    run_dense s ops = Some ((t, t2), (run_spec (new_specs key key2) ops).2) ∧
    ∃ i l j l2, dense_begin NDEBUG t = Some i ∧ dense_iterate NDEBUG (dense_fuel t) t i = Some l ∧
      dense_begin NDEBUG t2 = Some j ∧ dense_iterate NDEBUG (dense_fuel t2) t2 j = Some l2 ∧
      l ≡ₚ map_to_list (ds_map (run_spec (new_specs key key2) ops).1.1) ∧
      l2 ≡ₚ map_to_list (ds_map (run_spec (new_specs key key2) ops).1.2).
Proof using Hmax.
  intros Hn Hn2 Hops. destruct (new_tables_ok n key n2 key2 Hn Hn2) as (s & Hs & Hi).
  destruct (run_dense_agrees ops s _ Hi Hops) as ([t t2] & Hrun & [Hm Hm2]). exists s, t, t2. split; [done|]. split; [done|].
  destruct (dense_iteration_models hash_key NDEBUG _ _ t _ Hm) as (i & l & ? & ? & ?).
  destruct (dense_iteration_models hash_key NDEBUG _ _ t2 _ Hm2) as (j & l2 & ? & ? & ?). by exists i, l, j, l2.
Qed.
End run.

(** ** Instance: keys that collide, a table that shrinks and grows, and a key set aside twice *)
Definition demo_dense_ops : list (dense_op Z Z) :=
  [DInsert 4 40; DInsert 5 50; DSubscript 4 41; DSetDeletedKey (-2); DErase 4; DFind 4; DFind 5; DErase 4; DInsert 9 90;
   DInsertRange true [(4, 1); (5, 2); (8, 3)]; DInsertRange false [(12, 4); (13, 5)]; DCount 8; DEqualRange 5; DEqualRange 7; DMaxLoadFactor (f32_lit 8 1);
   DMinLoadFactor (f32_lit 25 2); DEraseFound 8; DEraseFound 7; DResize 100; DSize; DCopy; DSetDeletedKey 100; DInsert (-2) 7;
   DEqual; DSwap; DClear; DAssign; DEqual; DErase 5; DClearDeletedKey; DInsert 100 1; DFind (-1); DSwap; DSetDeletedKey 77; DEraseAll; DSize; DClearNoResize; DSize].

Definition demo_dense_key (k : Z) : option Z := Some (u64 (k / 2)).

Lemma demo_hashable k : dhashable demo_dense_key k.
Proof. exists (u64 (k / 2)). split; [done|]. by apply fits_wrap. Qed.

Lemma demo_dense_ops_ok : dense_ops_ok demo_dense_key (new_specs (V := Z) (-1) (-1)) demo_dense_ops.
Proof.
  unfold demo_dense_ops.
  repeat (apply conj; [cbn [dense_op_ok]; unfold usable_in, usable_key, room_for; repeat (apply conj || constructor);
    first [by apply demo_hashable|by vm_compute|intros Hd; vm_compute in Hd; congruence|idtac]|]); done.
Qed.

Lemma dense_run_as_maps_witness :
  ∃ s t t2, new_tables false 0 0 0 (-1) 10 (-1) = Some s ∧
    run_dense demo_dense_key false 0 (2 ^ 60) s demo_dense_ops =
      Some ((t, t2), [DInserted true; DInserted true; DNone; DNone; DCounted 1; DFound None; DFound (Some 50); DCounted 0;
        DInserted true; DNone; DNone; DCounted 1; DFound (Some 50); DFound None; DNone; DNone; DNone; DNone; DNone; DCounted 5; DNone;
        DNone; DInserted true; DAre false; DNone; DNone; DNone; DAre true; DCounted 1; DNone; DInserted true; DFound None; DNone;
        DNone; DNone; DCounted 0; DNone; DCounted 0]).
Proof.
  destruct (dense_run_as_maps demo_dense_key false 0 0 (2 ^ 60) ltac:(lia) 0 (-1) 10 (-1) demo_dense_ops
    ltac:(lia) ltac:(lia) demo_dense_ops_ok) as (s & t & t2 & Hs & Hrun & _).
  exists s, t, t2. split; [exact Hs|]. rewrite Hrun. do 2 f_equal.
Defined.
