(* ===== verification/DenseIO.v ===== *)
(** * Writing the dense hash table to a file and reading it back
      (src/sparsehash/src/sparsehash/internal/densehashtable.h, hashtable-common.h)

    The stream is the list of its bytes, each a [Z] below 256; a sink takes every write,
    reading past the end fails. The serializer of values is the client's. After the header
    come the buckets in groups of eight: which of them are not empty, and their values. *)
From stdpp Require Import gmap.
From S2P Require Import Prelude Floats FiniteMaps DenseTable DenseProbe DenseInv DenseUpdate DenseResize DenseMap DenseManage.

Definition MAGIC_NUMBER : Z := 0x13578642.

(** [write_bigendian_number(fp, value, length)] for a [value] of eight bytes *)
Definition write_bigendian_number (value : Z) (length : nat) : list Z :=
  (λ i : nat, if (8 <=? Z.of_nat length - 1 - Z.of_nat i) then 0
              else Z.land (Z.shiftr value ((Z.of_nat length - 1 - Z.of_nat i) * 8)) 255) <$> seq 0 length.

(** [read_bigendian_number(fp, &value, length)]: the value, also when the end comes too
    early, and what is left to read unless it failed. *)
Fixpoint read_bigendian_number (length : nat) (value : Z) (fp : list Z) : Z * option (list Z) :=
  match length with
  | O => (value, Some fp)
  | S length =>
      match fp with
      | [] => (value, None)
      | byte :: fp => read_bigendian_number length (Z.lor value (u64 (Z.shiftl byte (Z.of_nat length * 8)))) fp
      end
  end.

(** ** Numbers *)

Lemma write_bigendian_S v n :
  write_bigendian_number v (S n) =
  (if 8 <=? Z.of_nat n then 0 else Z.land (Z.shiftr v (Z.of_nat n * 8)) 255) :: write_bigendian_number v n.
Proof.
  unfold write_bigendian_number. cbn [seq fmap list_fmap]. f_equal.
  - by replace (Z.of_nat (S n) - 1 - Z.of_nat 0) with (Z.of_nat n) by lia.
  - rewrite <-fmap_S_seq, <-list_fmap_compose. apply list_fmap_ext. intros i x _. unfold compose.
    by replace (Z.of_nat (S n) - 1 - Z.of_nat (S x)) with (Z.of_nat n - 1 - Z.of_nat x) by lia.
Qed.

Lemma read_write_bigendian n v : ∀ acc rest,
  (n ≤ 8)%nat → read_bigendian_number n acc (write_bigendian_number v n ++ rest) = (Z.lor acc (wrap (8 * Z.of_nat n) v), Some rest).
Proof.
  induction n as [|n IH]; intros acc rest Hn.
  - cbn. unfold wrap. by rewrite Z.mod_1_r, Z.lor_0_r.
  - rewrite write_bigendian_S. rewrite (proj2 (Z.leb_gt _ _)) by lia. cbn [app read_bigendian_number]. rewrite IH by lia. f_equal.
    rewrite <-Z.lor_assoc. f_equal. apply Z.bits_inj'. intros i Hi. rewrite Z.lor_spec. unfold wrap.
    destruct (Z.lt_ge_cases i (8 * Z.of_nat n)) as [Hlt|Hge].
    + rewrite !Z.mod_pow2_bits_low, Z.shiftl_spec_low by lia. done.
    + rewrite (Z.mod_pow2_bits_high _ (8 * Z.of_nat n)), orb_false_r by lia.
      destruct (Z.lt_ge_cases i (8 * Z.of_nat (S n))) as [Hlt|Hge'].
      * rewrite !Z.mod_pow2_bits_low, Z.shiftl_spec, Z.land_spec, Z.shiftr_spec by lia.
        change 255 with (Z.ones 8). rewrite Z.ones_spec_low, andb_true_r by lia. f_equal. lia.
      * rewrite (Z.mod_pow2_bits_high _ (8 * Z.of_nat (S n))) by lia.
        destruct (Z.lt_ge_cases i 64); [|by rewrite Z.mod_pow2_bits_high by lia].
        rewrite Z.mod_pow2_bits_low, Z.shiftl_spec, Z.land_spec by lia. change 255 with (Z.ones 8).
        by rewrite Z.ones_spec_high, andb_false_r by lia.
Qed.

Lemma read_written_number n v rest :
  (n ≤ 8)%nat → fits (8 * Z.of_nat n) v → read_bigendian_number n 0 (write_bigendian_number v n ++ rest) = (v, Some rest).
Proof. intros Hn Hv. rewrite read_write_bigendian by done. by rewrite Z.lor_0_l, wrap_small. Qed.

(** What the turns from [m] on contribute, one after the other. *)
Definition cat (f : Z → list Z) (m : Z) (n : nat) : list Z := concat ((λ x : nat, f (m + Z.of_nat x)) <$> seq 0 n).

Lemma cat_snoc f m n : cat f m (S n) = cat f m n ++ f (m + Z.of_nat n).
Proof. unfold cat. rewrite seq_S, fmap_app, concat_app. cbn. by rewrite app_nil_r. Qed.

Lemma cat_cons f m n : cat f m (S n) = f m ++ cat f (m + 1) n.
Proof.
  unfold cat. cbn [seq fmap list_fmap concat]. rewrite Z.add_0_r. f_equal. f_equal. rewrite <-fmap_S_seq, <-list_fmap_compose.
  apply list_fmap_ext. intros i x _. unfold compose. f_equal. lia.
Qed.

Section io.
Context {K V : Type} `{Countable K}.
Context (hash_key : K → option Z) (NDEBUG : bool).

(** The [ValueSerializer]s: the bytes of a value, and a value with what follows it. *)
Context (serializer : K * V → list Z) (deserializer : list Z → option ((K * V) * list Z)).

Abbreviation dtable := (dense_hashtable K V).

(** The bitmap of the buckets from [i] on. *)
Definition group_bits (t : dtable) (i : Z) : option Z :=
  for_loop 8 0 (λ bit bits,
    if i + bit <? num_buckets t
    then e ← test_empty NDEBUG t (i + bit); Some (if e : bool then bits else Z.lor bits (Z.shiftl 1 bit))
    else Some bits) 0.

Definition write_group (t : dtable) (i : Z) (fp : list Z) : option (list Z) :=
  bits ← group_bits t i;
  for_loop 8 0 (λ bit fp,
    if Z.testbit bits bit then b ← dense_bucket t (i + bit); Some (fp ++ serializer b) else Some fp) (fp ++ [bits]).

(** [for (size_type i = 0; i < num_buckets; i += 8)] *)
Definition groups (t : dtable) : nat := Z.to_nat ((num_buckets t + 7) / 8).

Definition serialize (t : dtable) (fp : list Z) : option (dtable * list Z) :=
  t ← squash_deleted hash_key NDEBUG t;
  let fp := fp ++ write_bigendian_number MAGIC_NUMBER 4 ++ write_bigendian_number (num_buckets t) 8
               ++ write_bigendian_number (num_elements t) 8 in
  fp ← for_loop (groups t) 0 (λ j fp, write_group t (j * 8) fp) fp;
  Some (t, fp).

(** One group read; the stream is [None] once something failed. *)
Definition read_group (i : Z) (st : dtable * option (list Z)) : option (dtable * option (list Z)) :=
  match st with
  | (t, Some (bits :: fp)) =>
      for_loop 8 0 (λ bit st,
        match st with
        | (t, Some fp) =>
            if (i + bit <? num_buckets t) && Z.testbit bits bit
            then match deserializer fp with
                 | None => Some (t, None)
                 | Some (v, fp) => t ← dense_set_value t (i + bit) v; Some (t, Some fp)
                 end
            else Some st
        | _ => Some st
        end) (t, Some fp)
  | (t, _) => Some (t, None)
  end.

(** The table, and what is left of the stream where the result is [true]. *)
Definition unserialize (t : dtable) (fp : list Z) : option (dtable * option (list Z)) :=
  _ ← check NDEBUG (use_empty (settings t));
  t ← dense_clear t;
  let '(magic_read, fp) := read_bigendian_number 4 0 fp in
  match fp with
  | None => Some (t, None)
  | Some fp =>
      if negb (magic_read =? MAGIC_NUMBER) then Some (t, None)
      else
        let '(new_num_buckets, fp) := read_bigendian_number 8 0 fp in
        match fp with
        | None => Some (t, None)
        | Some fp =>
            t ← clear_to_size t new_num_buckets;
            let '(n, fp) := read_bigendian_number 8 0 fp in
            let t := set_counts t (num_deleted t) n in
            match fp with
            | None => Some (t, None)
            | Some fp => for_loop (groups t) 0 (λ j st, read_group (j * 8) st) (t, Some fp)
            end
        end
  end.

(** ** What is written *)

Definition bucket_full (t : dtable) (m : Z) : bool := if slot t m is Some b then negb (bempty t b) else false.

Definition item (t : dtable) (m : Z) : list Z :=
  if slot t m is Some b then (if bempty t b then [] else serializer b) else [].

Definition group_stream (t : dtable) (j : Z) : list Z :=
  default 0 (group_bits t (j * 8)) :: cat (item t) (j * 8) 8.

Lemma group_bits_ok k t i :
  dense_ok (V := V) hash_key k t → 0 ≤ i →
  ∃ bits, group_bits t i = Some bits ∧ ∀ b, 0 ≤ b < 8 → Z.testbit bits b = bucket_full t (i + b).
Proof using.
  intros Hok Hi. pose proof (slots_length _ k t Hok) as Hlen.
  destruct (for_loop_total (λ bit bits, 0 ≤ bit ∧ ∀ b, 0 ≤ b → Z.testbit bits b = (b <? bit) && bucket_full t (i + b))
    (λ bit bits, if i + bit <? num_buckets t
      then e ← test_empty NDEBUG t (i + bit); Some (if e : bool then bits else Z.lor bits (Z.shiftl 1 bit))
      else Some bits) 8 0 0) as (bits & Hbits & _ & Hspec).
  - split; [done|]. intros b Hb. rewrite Z.bits_0, (proj2 (Z.ltb_ge _ _)); [done|lia].
  - intros j bits Hj [_ Hspec].
    assert (∀ b full, bucket_full t (i + j) = full → 0 ≤ b →
      (b <? j + 1) && bucket_full t (i + b) = if decide (b = j) then full else (b <? j) && bucket_full t (i + b)) as Hnext.
    { intros b full Hfull Hb. case_decide as Hbj; [subst b; rewrite (proj2 (Z.ltb_lt _ _)) by lia; done|].
      by destruct (Z.ltb_spec b (j + 1)), (Z.ltb_spec b j); try lia. }
    destruct (Z.ltb_spec (i + j) (num_buckets t)) as [Hlt|Hge].
    + destruct (slot_some _ k t Hok (i + j) ltac:(lia)) as [c Hc].
      rewrite (test_empty_ok hash_key NDEBUG k t Hok (i + j) c) by (done || lia). cbn [mbind option_bind].
      eexists. split; [done|]. split; [lia|]. intros b Hb.
      rewrite (Hnext b (negb (bempty t c))) by (done || by unfold bucket_full; rewrite Hc).
      destruct (bempty t c); cbn [negb]; rewrite ?Z.lor_spec, (Hspec b Hb); case_decide as Hbj.
      * subst b. by rewrite Z.ltb_irrefl.
      * done.
      * subst b. rewrite Z.shiftl_spec, Z.sub_diag by lia. apply orb_true_r.
      * rewrite Z.shiftl_1_l, Z.pow2_bits_false by lia. by rewrite orb_false_r.
    + exists bits. split; [done|]. split; [lia|]. intros b Hb.
      rewrite (Hnext b false); [|unfold bucket_full, slot; rewrite lookup_ge_None_2; [done|lia]|done].
      rewrite (Hspec b Hb). case_decide as Hbj; [subst b; by rewrite Z.ltb_irrefl|done].
  - exists bits. split; [exact Hbits|]. intros b Hb. rewrite Hspec by lia. by rewrite (proj2 (Z.ltb_lt _ _)) by lia.
Qed.

Lemma write_group_ok k t j fp :
  dense_ok (V := V) hash_key k t → 0 ≤ j → write_group t (j * 8) fp = Some (fp ++ group_stream t j).
Proof using.
  intros Hok Hj. destruct (group_bits_ok k t (j * 8) Hok ltac:(lia)) as (bits & Hb & Hspec). unfold write_group, group_stream.
  rewrite Hb. cbn [mbind option_bind default from_option id].
  destruct (for_loop_total (λ bit out, 0 ≤ bit ∧ out = (fp ++ [bits]) ++ cat (item t) (j * 8) (Z.to_nat bit))
    (λ bit fp, if Z.testbit bits bit then b ← dense_bucket t (j * 8 + bit); Some (fp ++ serializer b) else Some fp)
    8 0 (fp ++ [bits])) as (out & Hout & _ & ->).
  - split; [done|]. cbn. by rewrite app_nil_r.
  - intros bit out Hbit [_ ->]. rewrite (Hspec bit) by lia.
    assert (cat (item t) (j * 8) (Z.to_nat (bit + 1)) = cat (item t) (j * 8) (Z.to_nat bit) ++ item t (j * 8 + bit)) as ->.
    { replace (Z.to_nat (bit + 1)) with (S (Z.to_nat bit)) by lia. rewrite cat_snoc. do 2 f_equal. lia. }
    assert (item t (j * 8 + bit) = if slot t (j * 8 + bit) is Some b then (if bempty t b then [] else serializer b) else []) as -> by done.
    unfold bucket_full. destruct (slot t (j * 8 + bit)) as [b|] eqn:Hsl.
    + pose proof (slots_length _ k t Hok). pose proof (lookup_lt_Some _ _ _ Hsl).
      rewrite (dense_bucket_ok _ k t Hok (j * 8 + bit) b) by (done || lia). cbn [mbind option_bind].
      destruct (bempty t b); cbn [negb]; eexists; (split; [done|]); (split; [lia|]); by rewrite ?app_nil_r, ?app_assoc.
    + eexists. split; [done|]. split; [lia|]. by rewrite app_nil_r.
  - rewrite Hout. change (Z.to_nat (0 + Z.of_nat 8)) with 8%nat. by rewrite <-app_assoc.
Qed.

Definition table_stream (t : dtable) : list Z :=
  write_bigendian_number MAGIC_NUMBER 4 ++ write_bigendian_number (num_buckets t) 8 ++
  write_bigendian_number (num_elements t) 8 ++ cat (group_stream t) 0 (groups t).

Lemma serialize_ok e d t g fp :
  dense_models hash_key e d t g → Z.of_nat (size g) < 2 ^ 34 →
  ∃ t', serialize t fp = Some (t', fp ++ table_stream t') ∧ dense_models hash_key e d t' g ∧ num_deleted t' = 0.
Proof using.
  intros Hm Hsz. destruct (squash_deleted_models hash_key NDEBUG e d t g Hm Hsz) as (t' & Ht' & Hm' & Hz). exists t'. split; [|done].
  destruct (dm_ok _ e d t' g Hm') as [k Hok]. unfold serialize. rewrite Ht'. cbn [mbind option_bind]. set (fp0 := fp ++ _).
  destruct (for_loop_total (λ j out, 0 ≤ j ∧ out = fp0 ++ cat (group_stream t') 0 (Z.to_nat j))
    (λ j fp, write_group t' (j * 8) fp) (groups t') 0 fp0) as (out & -> & _ & ->).
  - split; [done|]. cbn. by rewrite app_nil_r.
  - intros j out Hj [_ ->]. rewrite (write_group_ok k) by (done || lia). eexists. split; [done|]. split; [lia|].
    replace (Z.to_nat (j + 1)) with (S (Z.to_nat j)) by lia. rewrite cat_snoc, <-app_assoc. do 3 f_equal. lia.
  - cbn [mbind option_bind]. unfold fp0, table_stream. rewrite Z.add_0_l, Nat2Z.id. by rewrite <-!app_assoc.
Qed.

(** ** What is read *)
Context (Hser : ∀ v rest, deserializer (serializer v ++ rest) = Some (v, rest)).

Definition with_slots (t : dtable) (l : list (K * V)) : dtable :=
  DenseTable (settings t) (delkey t) (num_deleted t) (num_elements t) (num_buckets t) (emptyval t) (Some l).

(** The first [m] buckets are those written, the others still empty. *)
Definition filled (t : dtable) (ev : K * V) (m : nat) : list (K * V) :=
  imap (λ x b, if bool_decide (x < m)%nat && negb (bempty t b) then b else ev) (slots t).

Lemma filled_0 t ev : filled t ev 0 = replicate (length (slots t)) ev.
Proof using.
  apply list_eq. intros x. unfold filled. rewrite list_lookup_imap. destruct (slots t !! x) as [b|] eqn:Hx.
  - rewrite lookup_replicate_2 by by eapply lookup_lt_Some. done.
  - symmetry. apply lookup_replicate_None. by apply lookup_ge_None_1.
Qed.

Lemma filled_all t ev m :
  (length (slots t) ≤ m)%nat → filled t ev m = (λ b, if bempty t b then ev else b) <$> slots t.
Proof using.
  intros Hm. apply list_eq. intros x. unfold filled. rewrite list_lookup_imap, list_lookup_fmap.
  destruct (slots t !! x) as [b|] eqn:Hx; [|done]. pose proof (lookup_lt_Some _ _ _ Hx). cbn.
  rewrite bool_decide_eq_true_2 by lia. by destruct (bempty t b).
Qed.

Lemma filled_S t ev m b : bucket_full t (Z.of_nat m) = true → slot t (Z.of_nat m) = Some b → <[m := b]> (filled t ev m) = filled t ev (S m).
Proof using.
  unfold bucket_full. intros Hf Hb. rewrite Hb in Hf. apply negb_true_iff in Hf. unfold slot in Hb. rewrite Nat2Z.id in Hb.
  apply list_eq. intros x. unfold filled. destruct (decide (x = m)) as [->|Hne].
  - rewrite list_lookup_insert_eq by (rewrite length_imap; by eapply lookup_lt_Some).
    rewrite list_lookup_imap, Hb. cbn. rewrite bool_decide_eq_true_2 by lia. by rewrite Hf.
  - rewrite list_lookup_insert_ne, !list_lookup_imap by done. destruct (slots t !! x); [cbn|done]. f_equal.
    by rewrite (bool_decide_ext (x < S m)%nat (x < m)%nat) by lia.
Qed.

Lemma filled_skip t ev m : bucket_full t (Z.of_nat m) = false → filled t ev (S m) = filled t ev m.
Proof using.
  intros Hf. apply list_eq. intros x. unfold filled. rewrite !list_lookup_imap. destruct (slots t !! x) as [b|] eqn:Hx; [cbn|done].
  f_equal. destruct (decide (x = m)) as [->|Hne]; [|by rewrite (bool_decide_ext (x < S m)%nat (x < m)%nat) by lia].
  unfold bucket_full, slot in Hf. rewrite Nat2Z.id, Hx in Hf. by rewrite Hf, !andb_false_r.
Qed.

Lemma read_group_ok k t t0 ev j rest :
  dense_ok (V := V) hash_key k t → num_buckets t0 = num_buckets t → 0 ≤ j →
  read_group (j * 8) (with_slots t0 (filled t ev (Z.to_nat (j * 8))), Some (group_stream t j ++ rest)) =
  Some (with_slots t0 (filled t ev (Z.to_nat ((j + 1) * 8))), Some rest).
Proof using Hser.
  intros Hok Hn Hj. destruct (group_bits_ok k t (j * 8) Hok ltac:(lia)) as (bits & Hb & Hspec). unfold read_group, group_stream.
  rewrite Hb. cbn [default from_option id app].
  match goal with |- for_loop 8 0 ?body ?s = _ => destruct (for_loop_total (λ bit st, 0 ≤ bit ∧
    st = (with_slots t0 (filled t ev (Z.to_nat (j * 8 + bit))), Some (cat (item t) (j * 8 + bit) (Z.to_nat (8 - bit)) ++ rest)))
    body 8 0 s) as (st & Hst & _ & ->) end.
  - split; [done|]. by rewrite Z.add_0_r.
  - intros bit st Hbit [_ ->]. set (m := j * 8 + bit). change (num_buckets (with_slots t0 _)) with (num_buckets t0).
    replace (Z.to_nat (8 - bit)) with (S (Z.to_nat (8 - (bit + 1)))) by lia. rewrite cat_cons.
    replace (j * 8 + (bit + 1)) with (m + 1) by (unfold m; lia). replace (Z.to_nat (m + 1)) with (S (Z.to_nat m)) by lia.
    rewrite (Hspec bit) by lia. fold m. assert (Z.of_nat (Z.to_nat m) = m) as Em by lia.
    assert (item t m = if slot t m is Some b then (if bempty t b then [] else serializer b) else []) as -> by done.
    destruct (bucket_full t m) eqn:Hf.
    + pose proof Hf as Hf'. unfold bucket_full in Hf'. destruct (slot t m) as [b|] eqn:Hsl; [|done]. apply negb_true_iff in Hf'.
      rewrite Hf'. pose proof (slots_length _ k t Hok) as Hlen. pose proof (lookup_lt_Some _ _ _ Hsl).
      rewrite (proj2 (Z.ltb_lt _ _)) by lia. cbn [andb]. rewrite <-app_assoc, Hser.
      unfold dense_set_value. cbn [with_slots table mbind option_bind].
      rewrite (proj2 (Z.leb_le _ _)), (proj2 (Z.ltb_lt _ _)) by (unfold filled; rewrite ?length_imap; lia). cbn [andb mbind option_bind].
      eexists. split; [done|]. split; [lia|]. rewrite <-(filled_S t ev (Z.to_nat m) b) by (by rewrite Em). done.
    + rewrite andb_false_r. eexists. split; [done|]. split; [lia|]. rewrite filled_skip by by rewrite Em.
      unfold bucket_full in Hf. destruct (slot t m) as [b|]; [|done]. apply negb_false_iff in Hf. by rewrite Hf.
  - rewrite Hst. by replace ((j + 1) * 8) with (j * 8 + (0 + Z.of_nat 8)) by lia.
Qed.

Lemma read_groups_ok k t t0 ev rest :
  dense_ok (V := V) hash_key k t → num_buckets t0 = num_buckets t → table t0 = Some (replicate (length (slots t)) ev) →
  for_loop (groups t0) 0 (λ j st, read_group (j * 8) st) (t0, Some (cat (group_stream t) 0 (groups t) ++ rest)) =
  Some (with_slots t0 ((λ b, if bempty t b then ev else b) <$> slots t), Some rest).
Proof using Hser.
  intros Hok Hn Htab. assert (groups t0 = groups t) as -> by (unfold groups; by rewrite Hn).
  assert (t0 = with_slots t0 (filled t ev (Z.to_nat (0 * 8)))) as E.
  { change (Z.to_nat (0 * 8)) with 0%nat. rewrite filled_0. unfold with_slots. rewrite <-Htab. by destruct t0. }
  destruct (for_loop_total (λ j st, 0 ≤ j ∧
    st = (with_slots t0 (filled t ev (Z.to_nat (j * 8))), Some (cat (group_stream t) j (groups t - Z.to_nat j) ++ rest)))
    (λ j st, read_group (j * 8) st) (groups t) 0 (t0, Some (cat (group_stream t) 0 (groups t) ++ rest))) as (st & -> & _ & ->).
  - split; [done|]. rewrite <-E. by rewrite Nat.sub_0_r.
  - intros j st Hj [_ ->]. replace (groups t - Z.to_nat j)%nat with (S (groups t - Z.to_nat (j + 1))) by lia.
    rewrite cat_cons, <-app_assoc, (read_group_ok k) by (done || lia). eexists. split; [done|]. split; [lia|done].
  - replace (groups t - Z.to_nat (0 + Z.of_nat (groups t)))%nat with 0%nat by lia. rewrite filled_all; [done|].
    pose proof (slots_length _ k t Hok) as Hlen. pose proof (buckets_pos _ k t Hok). unfold groups.
    pose proof (Z.div_mod (num_buckets t + 7) 8 ltac:(lia)). pose proof (Z.mod_pos_bound (num_buckets t + 7) 8 ltac:(lia)).
    rewrite Z.add_0_l, Z2Nat.id by (apply Z.div_pos; lia). lia.
Qed.

(** The buckets of a table without deleted entries, with other settings. *)
Lemma reread_models e d d2 t g s dk ev k :
  dense_models hash_key e d t g → dense_ok (V := V) hash_key k t → num_deleted t = 0 → ev.1 = e →
  (if use_deleted s then Some dk else None) = d2 → d2 ≠ Some e → (∀ key, d2 = Some key → g !! key = None) →
  use_empty s = true → factors_ok (enlarge_factor s) (shrink_factor s) →
  scaled_size (num_buckets t) (enlarge_factor s) = Some (enlarge_threshold s) →
  dense_models hash_key e d2 (DenseTable s dk 0 (num_elements t) (num_buckets t) ev
    (Some ((λ b, if bempty t b then ev else b) <$> slots t))) g.
Proof using.
  intros Hm Hok Hz Hev Hdk Hd2e Hd2 Hue Hfa Hth. set (F := λ b : K * V, if bempty t b then ev else b). set (tr := DenseTable _ _ _ _ _ _ _).
  assert (∀ b, bempty tr b = bempty t b) as Hbe.
  { intros b. unfold bempty. cbn [tr emptyval]. by rewrite Hev, (dm_empty _ e d t g Hm). }
  assert (∀ b, bempty t (F b) = bempty t b) as HFe.
  { intros b. unfold F. destruct (bempty t b) eqn:Hb; [|done]. unfold bempty. rewrite Hev, (dm_empty _ e d t g Hm). by apply bool_decide_eq_true. }
  assert (∀ b, b ∈ slots t → bdel t b = false) as Hnd.
  { intros b Hb. apply (count_if_none _ (slots t)); [by rewrite <-(do_deleted _ k t Hok)|done]. }
  assert (∀ b, b ∈ slots t → bdel tr (F b) = false) as Hdel.
  { intros b Hb. rewrite bdel_deleted. unfold deleted_key. cbn [tr settings delkey]. rewrite Hdk. apply bool_decide_eq_false. unfold F.
    destruct (bempty t b) eqn:Hbb; [by rewrite Hev|]. intros Heq. specialize (Hd2 b.1 Heq). apply eq_None_not_Some in Hd2.
    apply Hd2, (live_key_lookup hash_key e d t g _ Hm), list_elem_of_fmap. exists b. split; [done|].
    apply list_elem_of_filter. split; [apply blive_iff; split; [done|by apply Hnd]|done]. }
  assert (∀ b, b ∈ slots t → blive tr (F b) = blive t b) as Hbl.
  { intros b Hb. unfold blive. by rewrite (Hdel b Hb), (Hnd b Hb), Hbe, HFe. }
  assert (∀ l f h, (∀ b, b ∈ l → f (F b) = h b) → count_if f (F <$> l) = count_if h l) as Hcount.
  { induction l as [|b l IH]; intros f h Hfh; [done|]. cbn [fmap list_fmap]. rewrite !count_if_cons, (Hfh b) by by left.
    f_equal. apply IH. intros c Hc. apply Hfh. by right. }
  assert (live_values tr = live_values t) as Hl.
  { unfold live_values. change (slots tr) with (F <$> slots t). revert Hbl. generalize (slots t).
    induction l as [|b l IH]; intros Hl; [done|]. cbn [fmap list_fmap]. rewrite !filter_cons, (Hl b) by by left.
    rewrite IH by (intros c Hc; apply Hl; by right). destruct (decide _) as [Hlb|]; [|done].
    apply blive_iff in Hlb as [Hlb _]. unfold F. by rewrite Hlb. }
  assert (∀ x y, slot t x = Some y → bempty t y = false → slot tr x = Some y) as Hkeep.
  { intros x y Hx Hy. unfold slot in *. change (slots tr) with (F <$> slots t). rewrite list_lookup_fmap, Hx. cbn. unfold F. by rewrite Hy. }
  split; [|exact (dm_cap _ e d t g Hm)|rewrite Hl; exact (dm_live _ e d t g Hm)|exact Hev|exact Hdk].
  exists k. split; try exact (do_size _ k t Hok); try done; try apply Hok.
  - eexists. split; [done|]. rewrite length_fmap. apply (slots_length _ k t Hok).
  - cbn [tr settings delkey emptyval]. intros Hu. rewrite Hu in Hdk. rewrite Hev. congruence.
  - cbn [tr num_elements]. change (slots tr) with (F <$> slots t). rewrite (do_elements _ k t Hok). symmetry. apply Hcount.
    intros b _. by rewrite Hbe, HFe.
  - cbn [tr num_deleted]. change (slots tr) with (F <$> slots t). rewrite (Hcount (slots t) (bdel tr) (bdel t)).
    + by rewrite <-(do_deleted _ k t Hok).
    + intros b Hb. by rewrite (Hdel b Hb), (Hnd b Hb).
  - unfold live_keys. rewrite Hl. apply Hok.
  - intros i c Hi Hc Hlc. unfold slot in Hc. change (slots tr) with (F <$> slots t) in Hc. rewrite list_lookup_fmap in Hc.
    destruct (slots t !! Z.to_nat i) as [b|] eqn:Hb; [|done]. injection Hc as <-. pose proof (list_elem_of_lookup_2 _ _ _ Hb) as Hin.
    rewrite (Hbl b Hin) in Hlc. assert (F b = b) as -> by (unfold F; apply blive_iff in Hlc as [-> _]; done).
    destruct (do_reach _ k t Hok i b Hi Hb Hlc) as (h & n & Hh & Hf & Hn & Hp & Hbef). exists h, n. do 4 (split; [done|]).
    intros m Hm'. destruct (Hbef m Hm') as (y & Hy & Hye). exists y. split; [by apply Hkeep|by rewrite Hbe].
Qed.

Lemma unserialize_models e d t g d2 t2 g2 rest :
  dense_models hash_key e d t g → num_deleted t = 0 → dense_models hash_key e d2 t2 g2 →
  (∀ key, d2 = Some key → g !! key = None) →
  ∃ t', unserialize t2 (table_stream t ++ rest) = Some (t', Some rest) ∧ dense_models hash_key e d2 t' g.
Proof using Hser.
  intros Hm Hz Hm2 Hd2. destruct (dm_ok _ e d t g Hm) as [k Hok], (dm_ok _ e d2 t2 g2 Hm2) as [k2 Hok2].
  pose proof (buckets_pos _ k t Hok) as Hn. pose proof (counts_ok _ k t Hok) as Hc. pose proof (do_room _ k t Hok) as Hroom.
  destruct (do_size _ k t Hok) as [Hk Hnb]. unfold unserialize.
  rewrite check_true by apply (do_use_empty _ k2 t2 Hok2). cbn [mbind option_bind].
  destruct (dense_clear_models hash_key e d2 t2 g2 Hm2) as (t3 & -> & Hm3). destruct (dm_ok _ e d2 t3 ∅ Hm3) as [k3 Hok3].
  cbn [mbind option_bind]. unfold table_stream. rewrite <-!app_assoc.
  rewrite (read_written_number 4 MAGIC_NUMBER _ ltac:(lia) ltac:(by vm_compute)). rewrite Z.eqb_refl. cbn [negb].
  rewrite (read_written_number 8 (num_buckets t) _ ltac:(lia) ltac:(split; lia)). unfold clear_to_size. rewrite Hnb.
  destruct (reset_thresholds_ok (settings t3) k (do_factors _ k3 t3 Hok3) ltac:(lia)) as (s & -> & (He & Hsh & Hu & Hd) & _ & Hth).
  cbn [mbind option_bind]. rewrite (read_written_number 8 (num_elements t) _ ltac:(lia) ltac:(split; lia)).
  set (t4 := set_counts _ _ _).
  rewrite (read_groups_ok k t t4 (emptyval t3)); [|done|by rewrite Hnb|cbn; do 2 f_equal; pose proof (slots_length _ k t Hok); lia].
  eexists. split; [done|]. unfold with_slots. cbn [t4 set_counts settings delkey num_deleted num_elements num_buckets emptyval].
  rewrite <-Hnb. apply (reread_models e d d2 t g s (delkey t3) (emptyval t3) k); [done|done|done| | | |done| | |].
  - exact (dm_empty _ e d2 t3 ∅ Hm3).
  - rewrite Hd. exact (dm_deleted _ e d2 t3 ∅ Hm3).
  - rewrite <-(dm_deleted _ e d2 t3 ∅ Hm3), <-(dm_empty _ e d2 t3 ∅ Hm3). unfold deleted_key.
    destruct (use_deleted (settings t3)) eqn:Hud; [|done]. pose proof (do_delkey _ k3 t3 Hok3 Hud). congruence.
  - rewrite Hu. apply (do_use_empty _ k3 t3 Hok3).
  - rewrite He, Hsh. apply (do_factors _ k3 t3 Hok3).
  - by rewrite Hnb, He.
Qed.

(** C39: A table that is written to a stream and read back into another one, with the same
    hash functor and empty key, gives a well-formed table with the same entries, whatever
    the two tables and their sizes were and whatever follows in the stream, as long as
    the serializer of values round-trips and the other table's deleted key is none of the
    keys; the table written keeps its entries. *)
Theorem dense_unserialize_serialize e d t g d2 t2 g2 fp rest :
  dense_models hash_key e d t g → Z.of_nat (size g) < 2 ^ 34 → dense_models hash_key e d2 t2 g2 →
  (∀ key, d2 = Some key → g !! key = None) →
  ∃ t' out t2', serialize t fp = Some (t', fp ++ out) ∧ dense_models hash_key e d t' g ∧
    unserialize t2 (out ++ rest) = Some (t2', Some rest) ∧ dense_models hash_key e d2 t2' g.
Proof using Hser.
  intros Hm Hsz Hm2 Hd2. destruct (serialize_ok e d t g fp Hm Hsz) as (t' & Ht' & Hm' & Hz).
  destruct (unserialize_models e d t' g d2 t2 g2 rest Hm' Hz Hm2 Hd2) as (t2' & Ht2' & Hm2'). by exists t', (table_stream t'), t2'.
Qed.

(** ** The number of buckets is taken from the stream as it is *)

Lemma no_buckets_undefined (t : dtable) key : table t = Some [] → find_position hash_key NDEBUG t key = None.
Proof using.
  intros Ht. unfold find_position. destruct (hash_key key) as [h|]; cbn [mbind option_bind]; [|done].
  unfold dense_fuel. cbn [find_position_loop]. unfold test_empty, dense_bucket. rewrite Ht.
  destruct (check _ _); cbn [mbind option_bind]; [|done]. by destruct (0 <=? _).
Qed.

(** A stream of 20 bytes that says the table has no buckets is read with success; the
    table is empty, but looking a key up by [map[key]] then reads outside the array. *)
Theorem unserialize_no_buckets e d t g rest :
  dense_models hash_key e d t g →
  ∃ t', unserialize t (write_bigendian_number MAGIC_NUMBER 4 ++ write_bigendian_number 0 8 ++ write_bigendian_number 0 8 ++ rest) =
      Some (t', Some rest) ∧ dense_size t' = 0 ∧
    ∀ dflt max_size key, find_or_insert hash_key NDEBUG dflt max_size t' key = None.
Proof using.
  intros Hm. destruct (dm_ok _ e d t g Hm) as [k Hok]. unfold unserialize.
  rewrite check_true by apply (do_use_empty _ k t Hok). cbn [mbind option_bind].
  destruct (dense_clear_models hash_key e d t g Hm) as (t3 & -> & Hm3). destruct (dm_ok _ e d t3 ∅ Hm3) as [k3 Hok3].
  cbn [mbind option_bind]. rewrite (read_written_number 4 MAGIC_NUMBER _ ltac:(lia) ltac:(by vm_compute)). rewrite Z.eqb_refl. cbn [negb].
  rewrite (read_written_number 8 0 _ ltac:(lia) ltac:(split; lia)). unfold clear_to_size.
  destruct (fa_zero _ _ (do_factors _ k3 t3 Hok3)) as [Hz1 Hz2]. unfold reset_thresholds, enlarge_size, shrink_size. rewrite Hz1, Hz2.
  cbn [mbind option_bind]. rewrite (read_written_number 8 0 _ ltac:(lia) ltac:(split; lia)). set (t4 := set_counts _ _ _).
  exists t4. split; [done|]. split; [done|]. intros dflt max_size key. unfold find_or_insert.
  destruct (check_key NDEBUG t4 key); cbn [mbind option_bind]; [|done]. by rewrite no_buckets_undefined.
Qed.
End io.

(** ** Instance: values written as eight bytes each *)
Definition pair_serializer (v : Z * Z) : list Z := [v.1; v.2].
Definition pair_deserializer (fp : list Z) : option ((Z * Z) * list Z) :=
  match fp with a :: b :: fp => Some ((a, b), fp) | _ => None end.

Definition demo_written : option (dense_hashtable Z Z) :=
  t ← dense_new 0 0 4; t ← set_empty_key false 0 t (-1);
  t ← dense_subscript_assign (λ k, Some (u64 k)) false 0 (2 ^ 60) t 3 7;
  t ← dense_subscript_assign (λ k, Some (u64 k)) false 0 (2 ^ 60) t 11 9;
  t ← set_deleted_key (λ k, Some (u64 k)) false t (-2);
  '(t, _) ← dense_erase (λ k, Some (u64 k)) false 0 t 11; Some t.

Lemma demo_written_models :
  ∃ t, demo_written = Some t ∧ dense_models (λ k, Some (u64 k)) (-1) (Some (-2)) t {[3 := 7]}.
Proof.
  assert (∀ k, dhashable (λ k, Some (u64 k)) k) as Hh by (intros k; exists (u64 k); split; [done|by apply fits_wrap]).
  destruct (dense_new_models (λ k, Some (u64 k)) false 0 0 4 (-1) ltac:(lia)) as (t & t1 & Ht & Ht1 & Hm1).
  destruct (dense_subscript_models (λ k, Some (u64 k)) false 0 (2 ^ 60) ltac:(lia) (-1) None t1 ∅ 3 7 Hm1) as (t2 & Ht2 & Hm2);
    [split; [lia|split; [done|apply Hh]]|done|].
  destruct (dense_subscript_models (λ k, Some (u64 k)) false 0 (2 ^ 60) ltac:(lia) (-1) None t2 (<[3 := 7]> ∅) 11 9 Hm2)
    as (t3 & Ht3 & Hm3); [split; [lia|split; [done|apply Hh]]|by vm_compute|].
  destruct (set_deleted_key_models (λ k, Some (u64 k)) false (-1) None t3 _ (-2) Hm3 ltac:(by vm_compute) ltac:(lia) ltac:(by vm_compute))
    as (t4 & Ht4 & Hm4).
  destruct (dense_erase_models (λ k, Some (u64 k)) false 0 (-1) (Some (-2)) t4 _ 11 Hm4) as (t5 & Ht5 & Hm5);
    [split; [lia|split; [congruence|apply Hh]]|done|].
  exists t5. unfold demo_written. rewrite Ht. cbn [mbind option_bind]. rewrite Ht1. cbn [mbind option_bind]. rewrite Ht2.
  cbn [mbind option_bind]. rewrite Ht3. cbn [mbind option_bind]. rewrite Ht4. cbn [mbind option_bind]. rewrite Ht5.
  split; [done|]. by replace {[3 := 7]} with (delete 11 (<[11 := 9]> (<[3 := 7]> (∅ : gmap Z Z)))) by (apply (bool_decide_unpack _); vm_compute; exact I).
Qed.

Lemma dense_unserialize_serialize_witness :
  ∃ t t' out t2', demo_written = Some t ∧ serialize (λ k, Some (u64 k)) false pair_serializer t [] = Some (t', out) ∧
    unserialize false pair_deserializer t (out ++ [1; 2]) = Some (t2', Some [1; 2]) ∧
    dense_models (λ k, Some (u64 k)) (-1) (Some (-2)) t2' {[3 := 7]}.
Proof.
  destruct demo_written_models as (t & Ht & Hm).
  destruct (dense_unserialize_serialize (λ k, Some (u64 k)) false pair_serializer pair_deserializer) with
    (e := -1) (d := Some (-2)) (t := t) (g := {[3 := 7]} : gmap Z Z) (d2 := Some (-2)) (t2 := t) (g2 := {[3 := 7]} : gmap Z Z)
    (fp := @nil Z) (rest := [1; 2]) as (t' & out & t2' & Hs & _ & Hu & Hm2).
  - by intros [a b] rest.
  - exact Hm.
  - by vm_compute.
  - exact Hm.
  - intros key [= <-]. by vm_compute.
  - exists t, t', out, t2'. split; [exact Ht|]. split; [exact Hs|]. split; [exact Hu|exact Hm2].
Defined.

Lemma unserialize_no_buckets_witness :
  ∃ t t', demo_written = Some t ∧
    unserialize false pair_deserializer t [19; 87; 134; 66; 0; 0; 0; 0; 0; 0; 0; 0; 0; 0; 0; 0; 0; 0; 0; 0] = Some (t', Some []) ∧
    find_or_insert (λ k, Some (u64 k)) false 0 (2 ^ 60) t' 3 = None.
Proof.
  destruct demo_written_models as (t & Ht & Hm).
  destruct (unserialize_no_buckets (λ k, Some (u64 k)) false pair_deserializer (-1) (Some (-2)) t {[3 := 7]} [] Hm)
    as (t' & Hu & _ & Hnone).
  exists t, t'. split; [exact Ht|]. split; [exact Hu|apply Hnone].
Defined.
