(* ===== verification/DenseLimits.v ===== *)
(** * What the contract of the dense hash table leaves out

    The empty key cannot be stored: the asserts stop the program, and without them the
    value is lost. A load factor of 1, which the assert on it lets through, allows the
    array to fill up, and then no probe for another key ends. Nothing can be erased before
    a deleted key is set. *)
From stdpp Require Import gmap.
From S2P Require Import Prelude Floats FiniteMaps DenseTable DenseProbe DenseInv DenseUpdate DenseResize DenseMap DenseManage.

Section dense.
Context {K V : Type} `{Countable K}.
Context (hash_key : K → option Z) (dflt : V) (max_size : Z).

Abbreviation dtable := (dense_hashtable K V).
Abbreviation dense_ok := (dense_ok (V := V) hash_key).
Abbreviation dense_models := (dense_models (K := K) (V := V) hash_key).

(** ** Storing under the empty key *)

Lemma assert_empty_key e d t g :
  dense_models e d t g → check_key false t e = None.
Proof using.
  intros Hm. destruct (dm_ok _ e d t g Hm) as [k Hok]. unfold check_key.
  by rewrite (do_use_empty _ k t Hok), (dm_empty _ e d t g Hm), (bool_decide_eq_true_2 (e = e)).
Qed.

(** Another value in an empty bucket is no entry. *)
Lemma refill_models e d t g p b w :
  dense_models e d t g → 0 ≤ p < num_buckets t → slot t p = Some b → bempty t b = true →
  dense_models e d (dput t p (e, w) (num_deleted t) (num_elements t)) g.
Proof using.
  intros Hm Hp Hb Hbe. destruct (dm_ok _ e d t g Hm) as [k Hok]. set (t' := dput _ _ _ _ _).
  pose proof (buckets_pos _ k t Hok) as Hn. pose proof (do_room _ k t Hok) as Hroom.
  assert (∀ c, bempty t c = true → blive t c = false ∧ bdel t c = false) as Hemp.
  { intros c Hc. split; [unfold blive; by rewrite Hc|]. destruct (bdel t c) eqn:Hd; [|done].
    by rewrite (deleted_not_empty _ k t Hok c Hd) in Hc. }
  assert (bempty t (e, w) = true) as Hve by (apply bool_decide_eq_true; exact (dm_empty _ e d t g Hm)).
  destruct (Hemp _ Hve) as [Hvl Hvd]. destruct (Hemp _ Hbe) as [Hbl Hbd].
  assert (live_values t' ≡ₚ live_values t) as Hl.
  { pose proof (live_dput t p (e, w) (num_deleted t) (num_elements t) b Hb) as Hperm. by rewrite Hbl, Hvl, !app_nil_r in Hperm. }
  assert (∀ j c, 0 ≤ j → slot t j = Some c → bempty t c = false → slot t' j = Some c) as Hkeep.
  { intros j c Hj Hc Hce. unfold t'. rewrite (slot_dput t p _ _ _ j b) by (done || lia). case_decide; [|done]. congruence. }
  split; [|exact (dm_cap _ e d t g Hm)|by rewrite Hl, (dm_live _ e d t g Hm)|exact (dm_empty _ e d t g Hm)|exact (dm_deleted _ e d t g Hm)].
  exists k. split; try exact (do_size _ k t Hok); try apply Hok.
  - exists (<[Z.to_nat p := (e, w)]> (slots t)). split; [done|]. rewrite length_insert. apply (slots_length _ k t Hok).
  - cbn [t' dput num_elements]. change (slots t') with (<[Z.to_nat p := (e, w)]> (slots t)). change (bempty t') with (bempty t).
    rewrite (count_if_insert _ _ _ b _ Hb), Hve, Hbe, <-(do_elements _ k t Hok). cbn. lia.
  - cbn [t' dput num_deleted]. change (slots t') with (<[Z.to_nat p := (e, w)]> (slots t)). change (bdel t') with (bdel t).
    rewrite (count_if_insert _ _ _ b _ Hb), Hvd, Hbd, <-(do_deleted _ k t Hok). cbn. lia.
  - unfold live_keys. rewrite Hl. apply Hok.
  - intros j c Hj Hc Hlc. change (blive t') with (blive t) in Hlc. unfold t' in Hc. cbn [num_buckets dput] in Hj.
    rewrite (slot_dput t p _ _ _ j b) in Hc by (done || lia). case_decide as Hjp; [injection Hc as <-; congruence|].
    destruct (do_reach _ k t Hok j c Hj Hc Hlc) as (h & n & Hh & Hf & Hn0 & Hpos & Hbef). exists h, n.
    do 4 (split; [done|]). intros m Hm'. destruct (Hbef m Hm') as (x & Hx & Hxe). exists x.
    change (num_buckets t') with (num_buckets t). split; [|done]. apply Hkeep; [|done|done].
    pose proof (probe_pos_range (num_buckets t) h m ltac:(lia)). lia.
Qed.

(** The counters are not what a probe looks at, unless nothing is counted. *)
Lemma probe_counts NDEBUG (t : dtable) n key fuel : ∀ np i ins,
  find_position_loop NDEBUG fuel (set_counts t (num_deleted t) n) key np i ins = find_position_loop NDEBUG fuel t key np i ins.
Proof using.
  induction fuel as [|fuel IH]; intros np i ins; cbn [find_position_loop]; [done|].
  change (test_empty NDEBUG (set_counts t (num_deleted t) n) i) with (test_empty NDEBUG t i).
  change (test_deleted NDEBUG (set_counts t (num_deleted t) n) i) with (test_deleted NDEBUG t i).
  change (dense_bucket (set_counts t (num_deleted t) n) i) with (dense_bucket t i).
  change (jump (set_counts t (num_deleted t) n) np i) with (jump t np i).
  destruct (test_empty NDEBUG t i) as [[]|]; cbn [mbind option_bind]; [done| |done].
  destruct (test_deleted NDEBUG t i) as [dl|]; cbn [mbind option_bind]; [|done].
  destruct (dense_bucket t i) as [b|]; cbn [mbind option_bind]; [|done].
  destruct (_ && _); [done|]. destruct (jump t np i) as [np' i'].
  destruct (check NDEBUG _); cbn [mbind option_bind]; [apply IH|done].
Qed.

Lemma find_position_counts NDEBUG (t : dtable) n key :
  find_position hash_key NDEBUG (set_counts t (num_deleted t) n) key = find_position hash_key NDEBUG t key.
Proof using. unfold find_position. destruct (hash_key key); cbn [mbind option_bind]; [apply probe_counts|done]. Qed.

Lemma find_counted e d t g NDEBUG n key :
  dense_models e d t g → num_deleted t ≤ n < 2 ^ 62 → dhashable hash_key key → n ≠ num_deleted t →
  dense_find_value hash_key NDEBUG (set_counts t (num_deleted t) n) key = Some (g !! key).
Proof using.
  intros Hm Hn Hk Hne. destruct (dm_ok _ e d t g Hm) as [k Hok]. pose proof (counts_ok _ k t Hok) as Hc.
  destruct (find_position_models hash_key NDEBUG e d t g key Hm Hk) as (h & r & _ & _ & Hr & _ & Hspec).
  unfold dense_find_value, dense_find, dense_size.
  change (num_elements (set_counts t (num_deleted t) n)) with n. change (num_deleted (set_counts t (num_deleted t) n)) with (num_deleted t).
  rewrite wrap_small by (split; lia). rewrite (proj2 (Z.eqb_neq _ _)) by lia.
  rewrite find_position_counts.
  change (num_buckets (set_counts _ _ _)) with (num_buckets t). rewrite Hr. cbn [mbind option_bind].
  destruct (g !! key) as [v|].
  - destruct Hspec as (i & -> & Hi & Hat). cbn [fst]. rewrite Hi. rewrite (proj2 (Z.eqb_neq _ _)) by (destruct Hat; lia).
    change (dense_bucket (set_counts t (num_deleted t) n) i) with (dense_bucket t i).
    by rewrite (entry_bucket hash_key e d t g i key v Hm Hat).
  - by rewrite Hspec, Z.eqb_refl.
Qed.

(** What an insertion of the empty key leaves: a count too many. *)
Lemma lost_insert e t g h p w :
  dense_models e None t g → hash_key e = Some h → fits 64 h → position_ok t e h (ILLEGAL_BUCKET, p) →
  num_elements t + 1 < num_buckets t → 2 ^ 40 ≤ max_size →
  insert_at true max_size t (e, w) p = Some (set_counts (dput t p (e, w) (num_deleted t) (num_elements t)) (num_deleted t) (num_elements t + 1), p) ∧
  0 ≤ p < num_buckets t ∧ dense_models e None (dput t p (e, w) (num_deleted t) (num_elements t)) g.
Proof using.
  intros Hm Hh Hf Hp Hroom Hmax. destruct (dm_ok _ e None t g Hm) as [k Hok]. pose proof (buckets_pos _ k t Hok) as Hn.
  pose proof (counts_ok _ k t Hok) as Hc. pose proof (dm_cap _ e None t g Hm) as Hcap.
  destruct Hp as [(i & b & [= <- _] & Hi & _)|(_ & n & p' & b & [= <-] & Hn0 & Hpos & _ & Hb & Hl)].
  { exfalso. unfold ILLEGAL_BUCKET in Hi. lia. }
  assert (0 ≤ p < num_buckets t) as Hpr by (subst p; apply probe_pos_range; lia).
  assert (bdel t b = false) as Hbd by (by rewrite bdel_deleted, (dm_deleted _ e None t g Hm)).
  assert (bempty t b = true) as Hbe by (unfold blive in Hl; rewrite Hbd in Hl; by destruct (bempty t b)).
  split; [|split; [done|by apply (refill_models e None t g p b)]].
  unfold insert_at, dense_size. rewrite wrap_small by (split; lia). rewrite (proj2 (Z.leb_gt _ _)) by lia.
  rewrite (test_deleted_ok hash_key true k t Hok p b Hpr Hb). cbn [mbind option_bind]. rewrite Hbd. cbn [mbind option_bind].
  rewrite wrap_small by (split; lia). by rewrite (set_value_counts hash_key k).
Qed.

(** Storing a value under the empty key, [map[empty] = obj], fails an assert. Without
    the asserts the table counts one more entry, but the key is not found afterwards and
    every other key is found as before: the value is lost. *)
Theorem dense_empty_key_lost e t g obj :
  dense_models e None t g → dhashable hash_key e → Z.of_nat (size g) + 1 < 2 ^ 34 → 2 ^ 40 ≤ max_size →
  dense_subscript_assign hash_key false dflt max_size t e obj = None ∧
  ∃ t', dense_subscript_assign hash_key true dflt max_size t e obj = Some t' ∧ dense_size t' = Z.of_nat (size g) + 1 ∧
    g !! e = None ∧ ∀ key, dhashable hash_key key → dense_find_value hash_key true t' key = Some (g !! key).
Proof using.
  intros Hm He Hsz Hmax. split.
  { unfold dense_subscript_assign, find_or_insert. by rewrite (assert_empty_key e None t g Hm). }
  assert (g !! e = None) as Hge.
  { destruct (g !! e) as [v|] eqn:Hg; [|done]. by destruct (live_usable hash_key e None t g e v Hm Hg) as [? _]. }
  unfold dense_subscript_assign, find_or_insert, check_key. cbn [check orb mbind option_bind].
  destruct (find_position_models hash_key true e None t g e Hm He) as (h & [r0 r] & Hh & Hf & -> & Hp & Hspec).
  rewrite Hge in Hspec. cbn [fst] in Hspec. subst r0. cbn [mbind option_bind fst snd]. rewrite Z.eqb_refl. cbn [negb].
  destruct (resize_delta_models hash_key true e None t g 1 Hm ltac:(lia) Hsz) as (t1 & b & -> & Hm1 & Hroom & Hun).
  cbn [mbind option_bind].
  assert (∃ p, (if b then '(t0, (i, _)) ← insert_noresize hash_key true max_size t1 (e, dflt); Some (t0, i)
      else insert_at true max_size t1 (e, dflt) r) = insert_at true max_size t1 (e, dflt) p ∧
    position_ok t1 e h (ILLEGAL_BUCKET, p)) as (p & -> & Hp1).
  { destruct b; [|exists r; split; [done|]; by apply (position_unflagged t t1), Hp; apply Hun].
    destruct (find_position_models hash_key true e None t1 g e Hm1 He) as (h1 & [r0 r1] & Hh1 & _ & Hr1 & Hp1 & Hspec1).
    rewrite Hge in Hspec1. cbn [fst] in Hspec1. subst r0. exists r1. rewrite Hh in Hh1. injection Hh1 as <-. split; [|done].
    unfold insert_noresize, check_key. cbn [check orb mbind option_bind fst snd]. rewrite Hr1. cbn [mbind option_bind fst snd].
    rewrite Z.eqb_refl. cbn [negb]. by destruct (insert_at _ _ _ _ _) as [[]|]. }
  destruct (lost_insert e t1 g h p dflt Hm1 Hh Hf Hp1 Hroom Hmax) as (-> & Hpr & Hm2). cbn [mbind option_bind].
  set (t2 := dput t1 p (e, dflt) (num_deleted t1) (num_elements t1)) in *. destruct (dm_ok _ e None t2 g Hm2) as [k Hok2].
  assert (slot t2 p = Some (e, dflt)) as Hb2.
  { destruct (dm_ok _ e None t1 g Hm1) as [k1 Hok1]. destruct (slot_some _ k1 t1 Hok1 p Hpr) as [b0 Hb0].
    unfold t2. rewrite (slot_dput t1 p _ _ _ p b0) by (done || lia). by rewrite decide_True. }
  change (dense_bucket (set_counts t2 _ _) p) with (dense_bucket t2 p).
  rewrite (dense_bucket_ok _ k t2 Hok2 p _ Hpr Hb2). cbn [mbind option_bind fst].
  rewrite (set_value_counts hash_key k) by done. eexists. split; [done|].
  pose proof (counts_ok _ k t2 Hok2) as Hc. pose proof (do_room _ k t2 Hok2) as Hroom2. pose proof (buckets_pos _ k t2 Hok2) as Hn2.
  change (num_deleted t2) with (num_deleted t1) in Hc. change (num_elements t2) with (num_elements t1) in Hc, Hroom2.
  change (num_buckets t2) with (num_buckets t1) in Hn2.
  assert (bempty t2 (e, dflt) = true) as Hbe by (apply bool_decide_eq_true; exact (dm_empty _ e None t2 g Hm2)).
  split; [|split; [done|]].
  - unfold dense_size. cbn [dput num_elements num_deleted].
    destruct (dm_ok _ e None t1 g Hm1) as [k1 Hok1]. destruct (size_live hash_key k1 t1 Hok1) as [Hs _].
    rewrite (live_size hash_key e None t1 g Hm1) in Hs. rewrite wrap_small by (split; lia). lia.
  - intros key Hk. pose proof (refill_models e None t2 g p (e, dflt) obj Hm2 Hpr Hb2 Hbe) as Hm3.
    apply (find_counted e None _ g true (num_elements t1 + 1) key Hm3); [cbn; lia|done|cbn; lia].
Qed.

(** ** A full table *)

(** No bucket is empty, and the key is in none. *)
Definition full_without (t : dtable) (key : K) : Prop :=
  ∀ i, 0 ≤ i < num_buckets t → ∃ b, dense_bucket t i = Some b ∧ (emptyval t).1 ≠ b.1 ∧ key ≠ b.1.

Lemma full_probe_endless NDEBUG t key k fuel : ∀ np i ins,
  num_buckets t = 2 ^ k → 0 ≤ k ≤ 62 → 0 ≤ i < num_buckets t → full_without t key →
  find_position_loop NDEBUG fuel t key np i ins = None.
Proof using.
  induction fuel as [|fuel IH]; intros np i ins Hn Hk Hi Hfull; destruct (Hfull i Hi) as (b & Hb & Hbe & Hbk); cbn [find_position_loop];
    unfold test_empty; (destruct (check NDEBUG (use_empty _)); cbn [mbind option_bind]; [|done]); rewrite Hb; cbn [mbind option_bind];
    rewrite bool_decide_eq_false_2 by done; destruct (test_deleted NDEBUG t i) as [dl|]; cbn [mbind option_bind]; try done;
    rewrite (bool_decide_eq_false_2 (key = b.1)), andb_false_r by done; [done|].
  destruct (jump t np i) as [np' i'] eqn:Hj. destruct (check NDEBUG (np' <? num_buckets t)); cbn [mbind option_bind]; [|done].
  apply IH; [done|done| |done]. unfold jump in Hj. injection Hj as _ <-.
  assert (2 ^ k ≤ 2 ^ 62) by (apply Z.pow_le_mono_r; lia).
  rewrite Hn, (wrap_small 64 (2 ^ k - 1)) by (split; lia). rewrite land_ones_wrap by lia. apply Z.mod_pos_bound. lia.
Qed.
End dense.

(** A new table whose load factor is set to 1, after the keys 0 to [n - 1]. *)
Fixpoint insert_keys (NDEBUG : bool) (n : nat) : option (dense_hashtable Z Z) :=
  match n with
  | O => t ← dense_new 0 0 0; t ← set_empty_key NDEBUG 0 t (-1); dense_max_load_factor NDEBUG t (f32_of_Z 1)
  | S n => t ← insert_keys NDEBUG n; '(t, _) ← dense_insert (λ k, Some (u64 k)) NDEBUG (2 ^ 60) t (Z.of_nat n, 0); Some t
  end.

(** With a load factor of 1 the 32 buckets of a new table take 32 keys, every insertion
    is defined and passes the asserts, and then no number of probes is enough to look
    another key up, wherever its hash starts. *)
Theorem dense_full_table_endless NDEBUG :
  ∃ t, insert_keys NDEBUG 32 = Some t ∧ num_elements t = 32 ∧ num_buckets t = 32 ∧
    ∀ key i fuel, ¬ 0 ≤ key < 32 → 0 ≤ i < 32 → find_position_loop NDEBUG fuel t key 0 i ILLEGAL_BUCKET = None.
Proof.
  assert (∃ t, insert_keys NDEBUG 32 = Some t ∧ num_elements t = 32 ∧ num_buckets t = 32 ∧ (emptyval t).1 = -1 ∧
    table t = Some ((λ i, (Z.of_nat i, 0)) <$> seq 0 32)) as (t & Ht & He & Hn & Hev & Htab).
  { destruct NDEBUG; eexists; split_and!; vm_compute; reflexivity. }
  exists t. split; [done|]. split; [done|]. split; [done|]. intros key i fuel Hkey Hi.
  apply (full_probe_endless NDEBUG t key 5); [done|lia|lia|]. intros j Hj. rewrite Hn in Hj. exists (j, 0). cbn [fst].
  split; [|rewrite Hev; split; [lia|intros ->; lia]].
  unfold dense_bucket. rewrite Htab. cbn [mbind option_bind]. rewrite (proj2 (Z.leb_le _ _)) by lia.
  rewrite list_lookup_fmap, lookup_seq_lt by lia. cbn [fmap option_fmap option_map]. do 2 f_equal. lia.
Qed.

(** ** Instance: a table with one key *)
Definition demo_small : option (dense_hashtable Z Z) :=
  t ← dense_new 0 0 4; t ← set_empty_key false 0 t (-1); dense_subscript_assign (λ k, Some (u64 k)) false 0 (2 ^ 60) t 3 7.

Lemma demo_small_models :
  ∃ t, demo_small = Some t ∧ dense_models (λ k, Some (u64 k)) (-1) None t (<[3 := 7]> ∅).
Proof.
  assert (∀ k, dhashable (λ k, Some (u64 k)) k) as Hh by (intros k; exists (u64 k); split; [done|by apply fits_wrap]).
  destruct (dense_new_models (λ k, Some (u64 k)) false 0 0 4 (-1) ltac:(lia)) as (t & t1 & Ht & Ht1 & Hm).
  destruct (dense_subscript_models (λ k, Some (u64 k)) false 0 (2 ^ 60) ltac:(lia) (-1) None t1 ∅ 3 7 Hm) as (t2 & Ht2 & Hm2).
  - split; [lia|]. split; [done|apply Hh].
  - done.
  - exists t2. unfold demo_small. rewrite Ht. cbn [mbind option_bind]. rewrite Ht1. cbn [mbind option_bind]. by rewrite Ht2.
Qed.

Lemma dense_empty_key_lost_witness :
  ∃ t t', demo_small = Some t ∧ dense_subscript_assign (λ k, Some (u64 k)) true 0 (2 ^ 60) t (-1) 5 = Some t' ∧
    dense_find_value (λ k, Some (u64 k)) true t' (-1) = Some None ∧ dense_find_value (λ k, Some (u64 k)) true t' 3 = Some (Some 7).
Proof.
  assert (∀ k, dhashable (λ k, Some (u64 k)) k) as Hh by (intros k; exists (u64 k); split; [done|by apply fits_wrap]).
  destruct demo_small_models as (t & Ht & Hm). exists t.
  destruct (dense_empty_key_lost (λ k, Some (u64 k)) 0 (2 ^ 60) (-1) t (<[3 := 7]> ∅) 5 Hm (Hh (-1)) ltac:(by vm_compute) ltac:(lia))
    as (_ & t' & Ht' & _ & _ & Hfind).
  exists t'. split; [exact Ht|]. split; [exact Ht'|]. split; [rewrite (Hfind (-1) (Hh (-1)))|rewrite (Hfind 3 (Hh 3))]; reflexivity.
Defined.
