(* ===== verification/SwissBits.v ===== *)
(** * Counting zeros, and masks of positions (absl/base/internal/bits.h, raw_hash_set.h: [BitMask])

    The compiler's builtins count the zeros of a word; the versions in C++ for other
    compilers agree with them. A [BitMask] is a word with one bit per slot of a group, in
    the lowest bit of the slot's place or in the highest bit of its byte. *)
From S2P Require Import Prelude.

(** ** [__builtin_clz], [__builtin_ctz] on a word of [w] bits, undefined at 0 *)
Definition builtin_clz (w n : Z) : option Z := if n =? 0 then None else Some (w - 1 - Z.log2 n).

Fixpoint pos_ctz (p : positive) : Z := match p with xO p => 1 + pos_ctz p | _ => 0 end.

Definition builtin_ctz (n : Z) : option Z := match n with Zpos p => Some (pos_ctz p) | _ => None end.

(** [CountLeadingZeros64], [CountLeadingZeros32] *)
Definition CountLeadingZeros (w n : Z) : Z := default w (if n =? 0 then Some w else builtin_clz w n).

(** [CountTrailingZerosNonZero64], [CountTrailingZerosNonZero32] *)
Definition CountTrailingZerosNonZero (n : Z) : option Z := builtin_ctz n.

(** [if (n >> s) { zeroes -= s; n >>= s; }] *)
Definition clz_step (s : Z) (zn : Z * Z) : Z * Z :=
  if Z.shiftr zn.2 s =? 0 then zn else (zn.1 - s, Z.shiftr zn.2 s).

(** The string indexed at the end: the zeros of a four-bit number. *)
Definition clz_nibble : list Z := [4; 3; 2; 2; 1; 1; 1; 1; 0; 0; 0; 0; 0; 0; 0; 0].

Definition CountLeadingZeros64Slow (n : Z) : option Z :=
  let '(zeroes, n) := clz_step 4 (clz_step 8 (clz_step 16 (clz_step 32 (60, n)))) in
  z ← clz_nibble !! Z.to_nat n; Some (z + zeroes).

(** Its argument is an [uint64_t] too. *)
Definition CountLeadingZeros32Slow (n : Z) : option Z :=
  let '(zeroes, n) := clz_step 4 (clz_step 8 (clz_step 16 (28, n))) in
  z ← clz_nibble !! Z.to_nat n; Some (z + zeroes).

(** [if (n & mask) c -= s;] *)
Definition ctz_step (n : Z) (c : Z) (ms : Z * Z) : Z := if Z.land n ms.1 =? 0 then c else c - ms.2.

Definition CountTrailingZerosNonZero64Slow (n : Z) : Z :=
  let n := Z.land n (u64 (u64 (Z.lnot n) + 1)) in
  foldl (ctz_step n) 63 [(0x00000000FFFFFFFF, 32); (0x0000FFFF0000FFFF, 16); (0x00FF00FF00FF00FF, 8);
    (0x0F0F0F0F0F0F0F0F, 4); (0x3333333333333333, 2); (0x5555555555555555, 1)].

Definition CountTrailingZerosNonZero32Slow (n : Z) : Z :=
  let n := Z.land n (u32 (u32 (Z.lnot n) + 1)) in
  foldl (ctz_step n) 31 [(0x0000FFFF, 16); (0x00FF00FF, 8); (0x0F0F0F0F, 4); (0x33333333, 2); (0x55555555, 1)].

(** ** [BitMask<T, SignificantBits, Shift>], [w] the bits of [T] *)
Definition TrailingZeros (n : Z) : option Z := CountTrailingZerosNonZero n.
Definition LeadingZeros (w n : Z) : Z := CountLeadingZeros w n.

Section bitmask.
Context (w SignificantBits Shift : Z).

Definition mask_bool (m : Z) : bool := negb (m =? 0).

(** [operator++] *)
Definition mask_next (m : Z) : Z := Z.land m (wrap w (m - 1)).

Definition LowestBitSet (m : Z) : option Z := z ← TrailingZeros m; Some (Z.shiftr z Shift).

Definition HighestBitSet (m : Z) : Z := Z.shiftr (w - LeadingZeros w m - 1) Shift.

(** The members [TrailingZeros()] and [LeadingZeros()] *)
Definition mask_TrailingZeros (m : Z) : option Z := z ← TrailingZeros m; Some (Z.shiftr z Shift).

Definition mask_LeadingZeros (m : Z) : Z :=
  let total_significant_bits := Z.shiftl SignificantBits Shift in
  let extra_bits := w - total_significant_bits in
  Z.shiftr (LeadingZeros w (wrap w (Z.shiftl m extra_bits))) Shift.

(** [for (int i : mask)]: the positions met; a word has at most [w] of them. *)
Fixpoint mask_positions_loop (fuel : nat) (m : Z) : option (list Z) :=
  if m =? 0 then Some []
  else
    match fuel with
    | O => None
    | S fuel => i ← LowestBitSet m; l ← mask_positions_loop fuel (mask_next m); Some (i :: l)
    end.

Definition mask_positions (m : Z) : option (list Z) := mask_positions_loop (Z.to_nat w) m.
End bitmask.

(** ** Trailing zeros *)
Lemma pos_ctz_nonneg p : 0 ≤ pos_ctz p.
Proof. induction p; cbn [pos_ctz]; lia. Qed.

(** A number that is not zero is an odd number times a power of two. *)
Lemma builtin_ctz_odd k y : 0 ≤ k → 0 ≤ y → builtin_ctz (2 ^ k * (2 * y + 1)) = Some k.
Proof.
  intros Hk Hy. revert k Hk. apply natlike_ind; [rewrite Z.mul_1_l; by destruct y|].
  intros k Hk IH. rewrite Z.pow_succ_r, <-Z.mul_assoc by done.
  destruct (2 ^ k * (2 * y + 1)) as [|p|p] eqn:Hp; cbn [builtin_ctz] in *; try discriminate IH.
  change (2 * Z.pos p) with (Z.pos p~0). injection IH as <-. cbn [builtin_ctz pos_ctz]. f_equal. lia.
Qed.

Lemma odd_part n : 0 < n → ∃ k y, 0 ≤ k ∧ 0 ≤ y ∧ n = 2 ^ k * (2 * y + 1).
Proof.
  intros Hn. destruct n as [|p|p]; try lia. clear Hn. induction p as [p _|p IH|].
  - exists 0, (Z.pos p). lia.
  - destruct IH as (k & y & Hk & Hy & Hp). exists (k + 1), y. rewrite Z.pow_add_r by lia. lia.
  - by exists 0, 0.
Qed.

(** [n & (n - 1)] clears the lowest bit that is set. *)
Lemma land_pred_odd k y : 0 ≤ k → Z.land (2 ^ k * (2 * y + 1)) (2 ^ k * (2 * y + 1) - 1) = 2 ^ k * (2 * y).
Proof.
  intros Hk. assert (0 < 2 ^ k) by lia. apply Z.bits_inj'. intros i Hi. rewrite Z.land_spec.
  replace (2 ^ k * (2 * y + 1) - 1) with (2 ^ k * (2 * y) + (2 ^ k - 1)) by lia.
  destruct (Z.lt_ge_cases i k) as [Hlt|Hge].
  - by rewrite !(Z.mul_comm (2 ^ k)), !Z.mul_pow2_bits_low by lia.
  - replace i with (i - k + k) by lia. rewrite <-!Z.div_pow2_bits by lia.
    replace ((2 ^ k * (2 * y) + (2 ^ k - 1)) / 2 ^ k) with (2 * y).
    2:{ rewrite (Z.mul_comm (2 ^ k) (2 * y)), Z.div_add_l, (Z.div_small (2 ^ k - 1)) by lia. lia. }
    rewrite !(Z.mul_comm (2 ^ k)), !Z.div_mul by lia.
    destruct (decide (i - k = 0)) as [->|Hne]; [by rewrite Z.testbit_odd_0, Z.testbit_even_0|].
    replace (i - k) with (Z.succ (i - k - 1)) by lia. rewrite Z.testbit_odd_succ, Z.testbit_even_succ by lia.
    by destruct (Z.testbit y (i - k - 1)).
Qed.

(** [n & -n] is the lowest bit that is set. *)
Lemma land_neg_odd w k y :
  0 ≤ k → 0 ≤ y → 2 ^ k * (2 * y + 1) < 2 ^ w →
  Z.land (2 ^ k * (2 * y + 1)) (wrap w (wrap w (Z.lnot (2 ^ k * (2 * y + 1))) + 1)) = 2 ^ k.
Proof.
  intros Hk Hy Hw. set (n := 2 ^ k * (2 * y + 1)) in *. assert (0 < 2 ^ k) by lia.
  assert (0 < n) by (unfold n; nia).
  assert (0 ≤ w) by (destruct (Z.lt_ge_cases w 0); [rewrite Z.pow_neg_r in Hw by done; lia|done]).
  rewrite wrap_add_l. replace (Z.lnot n + 1) with (- n) by (unfold Z.lnot; lia).
  apply Z.bits_inj'. intros i Hi. rewrite Z.land_spec.
  destruct (Z.lt_ge_cases i w) as [Hiw|Hiw].
  2:{ rewrite (proj2 (proj1 (fits_testbit w n ltac:(lia)) ltac:(split; lia)) i) by done.
      rewrite Z.pow2_bits_eqb by done. symmetry. apply Z.eqb_neq. intros <-.
      assert (2 ^ w ≤ 2 ^ k) by (apply Z.pow_le_mono_r; lia). unfold n in *. nia. }
  unfold wrap. rewrite Z.mod_pow2_bits_low by done.
  replace (- n) with (Z.lnot (n - 1)) by (unfold Z.lnot; lia). rewrite Z.lnot_spec by done.
  assert (Z.testbit (Z.land n (n - 1)) i = Z.testbit (2 ^ k * (2 * y)) i) as Hp by (unfold n; by rewrite land_pred_odd).
  rewrite Z.land_spec in Hp.
  assert (n = 2 ^ k + 2 ^ k * (2 * y)) as Hn by (unfold n; lia).
  assert (Z.land (2 ^ k) (2 ^ k * (2 * y)) = 0) as Hdisj.
  { apply Z.bits_inj'. intros j Hj. rewrite Z.land_spec, Z.bits_0, Z.pow2_bits_eqb by done.
    destruct (Z.eqb_spec k j) as [<-|]; [|done]. rewrite (Z.mul_comm (2 ^ k)), Z.mul_pow2_bits, Z.sub_diag by done.
    by rewrite Z.testbit_even_0. }
  rewrite (Z.add_nocarry_lxor _ _ Hdisj) in Hn.
  assert (Z.testbit n i = xorb (k =? i) (Z.testbit (2 ^ k * (2 * y)) i)) as Hni.
  { rewrite Hn, Z.lxor_spec. by rewrite Z.pow2_bits_eqb. }
  rewrite Z.pow2_bits_eqb by done.
  assert (Z.testbit (Z.land (2 ^ k) (2 ^ k * (2 * y))) i = false) as Hd by (rewrite Hdisj; apply Z.bits_0).
  rewrite Z.land_spec, Z.pow2_bits_eqb in Hd by done.
  destruct (k =? i), (Z.testbit n i), (Z.testbit (n - 1) i), (Z.testbit (2 ^ k * (2 * y)) i); done.
Qed.

(** ** The versions without builtins agree with them *)
Lemma clz_step_ok s z n :
  0 ≤ s → 0 < n < 2 ^ (2 * s) →
  ∃ n', clz_step s (z, n) = (z + Z.log2 n' - Z.log2 n, n') ∧ 0 < n' < 2 ^ s.
Proof.
  intros Hs Hn. unfold clz_step. cbn [fst snd]. assert (0 < 2 ^ s) by lia.
  replace (2 ^ (2 * s)) with (2 ^ s * 2 ^ s) in Hn by (rewrite <-Z.pow_add_r by lia; f_equal; lia).
  rewrite Z.shiftr_div_pow2 by done. destruct (Z.eqb_spec (n / 2 ^ s) 0) as [H0|H0].
  - exists n. split; [f_equal; lia|]. apply Z.div_small_iff in H0; lia.
  - exists (n / 2 ^ s). assert (0 ≤ n / 2 ^ s < 2 ^ s) by (split; [apply Z.div_pos|apply Z.div_lt_upper_bound]; lia).
    split; [|lia]. f_equal. rewrite <-Z.shiftr_div_pow2, Z.log2_shiftr by lia.
    assert (2 ^ s ≤ n) as Hge by (destruct (Z.lt_ge_cases n (2 ^ s)); [rewrite Z.div_small in H0 by lia; lia|done]).
    apply Z.log2_le_mono in Hge. rewrite Z.log2_pow2 in Hge by done. lia.
Qed.

(** The table gives the zeros of a number of four bits. *)
Lemma clz_nibble_ok n : 0 < n < 2 ^ 4 → clz_nibble !! Z.to_nat n = Some (3 - Z.log2 n).
Proof.
  intros Hn. assert (n ∈ Z.of_nat <$> seq 1 15) as Hin.
  { apply list_elem_of_fmap. exists (Z.to_nat n). split; [lia|]. apply elem_of_seq. lia. }
  revert n Hn Hin. assert (Forall (λ n, clz_nibble !! Z.to_nat n = Some (3 - Z.log2 n)) (Z.of_nat <$> seq 1 15)) as Hall by vm_decide.
  intros n _ Hin. by eapply Forall_forall in Hall.
Qed.

Ltac clz_next :=
  match goal with |- context [clz_step ?s (?z, ?n)] => destruct (clz_step_ok s z n) as (? & -> & ?); [lia|lia|] end.

Lemma CountLeadingZeros64Slow_ok n : fits 64 n → CountLeadingZeros64Slow n = Some (CountLeadingZeros 64 n).
Proof.
  intros [H0 H64]. unfold CountLeadingZeros, builtin_clz. destruct (Z.eqb_spec n 0) as [->|Hne]; [done|].
  unfold CountLeadingZeros64Slow. repeat clz_next. rewrite clz_nibble_ok by done.
  cbn [mbind option_bind default from_option]. unfold id. f_equal. lia.
Qed.

Lemma CountLeadingZeros32Slow_ok n : fits 32 n → CountLeadingZeros32Slow n = Some (CountLeadingZeros 32 n).
Proof.
  intros [H0 H32]. unfold CountLeadingZeros, builtin_clz. destruct (Z.eqb_spec n 0) as [->|Hne]; [done|].
  unfold CountLeadingZeros32Slow. repeat clz_next. rewrite clz_nibble_ok by done.
  cbn [mbind option_bind default from_option]. unfold id. f_equal. lia.
Qed.

(** The steps on the lowest bit alone, for each place it can have. *)
Lemma ctz_steps w c steps k :
  Forall (λ i, foldl (ctz_step (2 ^ i)) c steps = i) (Z.of_nat <$> seq 0 w) → 0 ≤ k < Z.of_nat w →
  foldl (ctz_step (2 ^ k)) c steps = k.
Proof.
  intros Hall Hk. rewrite Forall_forall in Hall. apply Hall. apply list_elem_of_fmap. exists (Z.to_nat k).
  split; [lia|]. apply elem_of_seq. lia.
Qed.

Lemma odd_part_lt k y w : 0 ≤ k → 0 ≤ y → 2 ^ k * (2 * y + 1) < 2 ^ w → k < w.
Proof.
  intros Hk Hy Hlt. apply (Z.pow_lt_mono_r_iff 2); [lia| |nia].
  destruct (Z.lt_ge_cases w 0) as [Hw|]; [|done]. rewrite (Z.pow_neg_r 2 w Hw) in Hlt. nia.
Qed.

Lemma CountTrailingZerosNonZero64Slow_ok n :
  0 < n < 2 ^ 64 → CountTrailingZerosNonZero n = Some (CountTrailingZerosNonZero64Slow n).
Proof.
  intros [H0 H64]. destruct (odd_part n H0) as (k & y & Hk & Hy & ->). unfold CountTrailingZerosNonZero.
  rewrite builtin_ctz_odd by done. unfold CountTrailingZerosNonZero64Slow. rewrite land_neg_odd by done.
  f_equal. symmetry. apply (ctz_steps 64); [vm_decide|]. pose proof (odd_part_lt k y 64 Hk Hy H64). lia.
Qed.

Lemma CountTrailingZerosNonZero32Slow_ok n :
  0 < n < 2 ^ 32 → CountTrailingZerosNonZero n = Some (CountTrailingZerosNonZero32Slow n).
Proof.
  intros [H0 H32]. destruct (odd_part n H0) as (k & y & Hk & Hy & ->). unfold CountTrailingZerosNonZero.
  rewrite builtin_ctz_odd by done. unfold CountTrailingZerosNonZero32Slow. rewrite land_neg_odd by done.
  f_equal. symmetry. apply (ctz_steps 32); [vm_decide|]. pose proof (odd_part_lt k y 32 Hk Hy H32). lia.
Qed.

(** ** The words that masks are: one boolean per slot *)
Section mask_val.
Context (Shift : Z) (Hshift : 0 ≤ Shift).
Abbreviation d := (2 ^ Shift).

Fixpoint mask_val (bs : list bool) : Z :=
  match bs with
  | [] => 0
  | b :: bs => Z.b2z b * 2 ^ (d - 1) + 2 ^ d * mask_val bs
  end.

(** The numbers of the slots that are marked, from [i]. *)
Fixpoint trues (i : Z) (bs : list bool) : list Z :=
  match bs with
  | [] => []
  | b :: bs => if b then i :: trues (i + 1) bs else trues (i + 1) bs
  end.

Lemma elem_of_trues bs : ∀ i j, j ∈ trues i bs ↔ ∃ n, j = i + Z.of_nat n ∧ bs !! n = Some true.
Proof using.
  induction bs as [|b bs IH]; intros i j; cbn [trues].
  { split; [by intros ?%elem_of_nil|]. by intros (n & _ & ?). }
  transitivity ((j = i ∧ b = true) ∨ j ∈ trues (i + 1) bs).
  { destruct b; [rewrite elem_of_cons; intuition|]. intuition congruence. }
  rewrite IH. split.
  - intros [[-> ->]|(n & -> & Hn)]; [exists 0%nat; split; [lia|done]|]. exists (S n). split; [lia|done].
  - intros ([|n] & -> & Hn); [left; cbn in Hn; split; [lia|congruence]|]. right. exists n. split; [lia|done].
Qed.

Lemma stride_pos : 1 ≤ d.
Proof using Hshift. lia. Qed.

Lemma mask_val_bound bs : 0 ≤ mask_val bs < 2 ^ (d * Z.of_nat (length bs)).
Proof using Hshift.
  pose proof stride_pos. induction bs as [|b bs IH]; cbn [mask_val length]; [by rewrite Z.mul_0_r|].
  replace (d * Z.of_nat (S (length bs))) with (1 + (d - 1) + d * Z.of_nat (length bs)) by lia.
  rewrite !Z.pow_add_r by lia. replace (2 ^ d) with (2 * 2 ^ (d - 1)) by (rewrite <-Z.pow_succ_r by lia; f_equal; lia).
  assert (0 < 2 ^ (d - 1)) by lia. pose proof (b2z_bound b). nia.
Qed.

Lemma mask_val_app l r : mask_val (l ++ r) = mask_val l + 2 ^ (d * Z.of_nat (length l)) * mask_val r.
Proof using Hshift.
  pose proof stride_pos. induction l as [|b l IH]; cbn [mask_val length app]; [rewrite Z.mul_0_r, Z.pow_0_r; lia|].
  rewrite IH. replace (d * Z.of_nat (S (length l))) with (d + d * Z.of_nat (length l)) by lia.
  rewrite Z.pow_add_r by lia. lia.
Qed.

Lemma mask_val_false n : mask_val (replicate n false) = 0.
Proof using. induction n as [|n IH]; cbn [mask_val replicate Z.b2z]; [done|]. rewrite IH. lia. Qed.

(** The lowest mark. *)
Lemma mask_val_lowest i r :
  mask_val (replicate i false ++ true :: r) = 2 ^ (d * Z.of_nat i + (d - 1)) * (2 * mask_val r + 1).
Proof using Hshift.
  pose proof stride_pos. rewrite mask_val_app, mask_val_false, length_replicate. cbn [mask_val Z.b2z].
  rewrite Z.pow_add_r by lia. replace (2 ^ d) with (2 ^ (d - 1) * 2); [lia|].
  rewrite Z.mul_comm, <-Z.pow_succ_r by lia. f_equal. lia.
Qed.

Lemma stride_shiftr x y : 0 ≤ y < d → Z.shiftr (d * x + y) Shift = x.
Proof using Hshift.
  intros Hy. rewrite Z.shiftr_div_pow2 by done. by rewrite Z.mul_comm, Z.div_add_l, Z.div_small, Z.add_0_r by lia.
Qed.

Lemma LowestBitSet_val i r : LowestBitSet Shift (mask_val (replicate i false ++ true :: r)) = Some (Z.of_nat i).
Proof using Hshift.
  pose proof stride_pos. pose proof (mask_val_bound r). rewrite mask_val_lowest.
  unfold LowestBitSet, TrailingZeros, CountTrailingZerosNonZero. rewrite builtin_ctz_odd by lia.
  cbn [mbind option_bind]. rewrite stride_shiftr by lia. done.
Qed.

Lemma mask_TrailingZeros_val i r :
  mask_TrailingZeros Shift (mask_val (replicate i false ++ true :: r)) = Some (Z.of_nat i).
Proof using Hshift. exact (LowestBitSet_val i r). Qed.

(** The highest mark. *)
Lemma mask_val_log2 r j :
  Z.log2 (mask_val (r ++ true :: replicate j false)) = d * Z.of_nat (length r) + (d - 1).
Proof using Hshift.
  pose proof stride_pos. rewrite mask_val_app. cbn [mask_val Z.b2z]. rewrite mask_val_false.
  pose proof (mask_val_bound r). apply Z.log2_unique; [lia|]. rewrite Z.pow_succ_r, !Z.pow_add_r by lia.
  assert (0 < 2 ^ (d - 1)) by lia. nia.
Qed.

Lemma mask_val_pos r j : 0 < mask_val (r ++ true :: replicate j false).
Proof using Hshift.
  pose proof stride_pos. rewrite mask_val_app. cbn [mask_val Z.b2z]. rewrite mask_val_false.
  pose proof (mask_val_bound r). assert (0 < 2 ^ (d - 1)) by lia. nia.
Qed.

Lemma LeadingZeros_pos w n : 0 < n → LeadingZeros w n = w - 1 - Z.log2 n.
Proof using.
  intros Hn. unfold LeadingZeros, CountLeadingZeros, builtin_clz. by rewrite (proj2 (Z.eqb_neq n 0)) by lia.
Qed.

Lemma HighestBitSet_val w r j : HighestBitSet w Shift (mask_val (r ++ true :: replicate j false)) = Z.of_nat (length r).
Proof using Hshift.
  pose proof stride_pos. unfold HighestBitSet. rewrite LeadingZeros_pos by apply mask_val_pos.
  rewrite mask_val_log2. etrans; [|apply (stride_shiftr (Z.of_nat (length r)) (d - 1)); lia]. f_equal. lia.
Qed.

Lemma mask_LeadingZeros_val w r j :
  d * Z.of_nat (length r + S j) ≤ w →
  mask_LeadingZeros w (Z.of_nat (length r + S j)) Shift (mask_val (r ++ true :: replicate j false)) = Z.of_nat j.
Proof using Hshift.
  intros Hw. pose proof stride_pos. unfold mask_LeadingZeros.
  set (m := mask_val (r ++ true :: replicate j false)). rewrite (Z.shiftl_mul_pow2 (Z.of_nat _)) by done.
  set (e := w - Z.of_nat (length r + S j) * d). assert (0 ≤ e) by lia. rewrite Z.shiftl_mul_pow2 by done.
  pose proof (mask_val_bound (r ++ true :: replicate j false)) as Hm. fold m in Hm.
  rewrite length_app in Hm. cbn [length] in Hm. rewrite length_replicate in Hm.
  assert (0 < m) by apply mask_val_pos. assert (0 < 2 ^ e) by lia.
  rewrite wrap_small.
  2:{ split; [nia|]. replace w with (d * Z.of_nat (length r + S j) + e) by lia. rewrite Z.pow_add_r by lia. nia. }
  rewrite LeadingZeros_pos by nia. rewrite <-Z.shiftl_mul_pow2, Z.log2_shiftl by done. unfold m. rewrite mask_val_log2.
  etrans; [|apply (stride_shiftr (Z.of_nat j) 0); lia]. f_equal. lia.
Qed.

(** Whether there are marks, and all of them. *)
Lemma mask_bool_val bs : mask_bool (mask_val bs) = existsb id bs.
Proof using Hshift.
  pose proof stride_pos. induction bs as [|b bs IH]; [done|]. cbn [mask_val existsb]. unfold id at 1.
  unfold mask_bool in *. pose proof (mask_val_bound bs). assert (0 < 2 ^ (d - 1)) by lia.
  destruct b; cbn [Z.b2z orb].
  - apply negb_true_iff, Z.eqb_neq. nia.
  - rewrite <-IH. f_equal. destruct (Z.eqb_spec (mask_val bs) 0) as [->|]; [apply Z.eqb_eq|apply Z.eqb_neq]; nia.
Qed.

Lemma mask_next_val w i r :
  d * Z.of_nat (i + S (length r)) ≤ w →
  mask_next w (mask_val (replicate i false ++ true :: r)) = mask_val (replicate (S i) false ++ r).
Proof using Hshift.
  intros Hw. pose proof stride_pos. pose proof (mask_val_bound r).
  pose proof (mask_val_bound (replicate i false ++ true :: r)) as Hm.
  rewrite length_app, length_replicate in Hm. cbn [length] in Hm.
  assert (2 ^ (d * Z.of_nat (i + S (length r))) ≤ 2 ^ w) by (apply Z.pow_le_mono_r; lia).
  unfold mask_next. rewrite mask_val_lowest in *. set (k := d * Z.of_nat i + (d - 1)) in *.
  assert (0 < 2 ^ k) by (assert (0 ≤ k) by lia; lia).
  rewrite wrap_small by (split; nia). rewrite land_pred_odd by lia.
  rewrite mask_val_app, mask_val_false, length_replicate. rewrite Z.mul_assoc, (Z.mul_comm (2 ^ k)), <-Z.pow_succ_r by lia.
  rewrite Z.add_0_l. f_equal. f_equal. lia.
Qed.

Lemma mask_positions_val w bs :
  d * Z.of_nat (length bs) ≤ w → mask_positions w Shift (mask_val bs) = Some (trues 0 bs).
Proof using Hshift.
  pose proof stride_pos as Hd. unfold mask_positions.
  enough (∀ r i fuel, d * Z.of_nat (i + length r) ≤ w → (length r ≤ fuel)%nat →
    mask_positions_loop w Shift fuel (mask_val (replicate i false ++ r)) = Some (trues (Z.of_nat i) r)) as Hloop.
  { intros Hw. apply (Hloop bs 0%nat); [done|]. nia. }
  clear bs. induction r as [|[] r IH]; intros i fuel Hw Hfuel; cbn [length trues] in *.
  - rewrite app_nil_r, mask_val_false. by destruct fuel.
  - destruct fuel as [|fuel]; [lia|]. cbn [mask_positions_loop].
    pose proof (mask_bool_val (replicate i false ++ true :: r)) as Hb. unfold mask_bool in Hb.
    rewrite existsb_app in Hb. cbn [existsb id orb] in Hb. rewrite orb_true_r in Hb. apply negb_true_iff in Hb.
    rewrite Hb, LowestBitSet_val, mask_next_val by lia. cbn [mbind option_bind].
    rewrite IH by lia. cbn [mbind option_bind]. do 3 f_equal. lia.
  - replace (replicate i false ++ false :: r) with (replicate (S i) false ++ r)
      by (rewrite replicate_S_end, <-app_assoc; done).
    rewrite IH by lia. do 2 f_equal. lia.
Qed.
End mask_val.

(** A list with a mark has a first and a last one. *)
Lemma first_true bs : existsb id bs = true → ∃ i r, bs = replicate i false ++ true :: r.
Proof.
  induction bs as [|[] bs IH]; cbn [existsb id orb]; [done|by exists 0%nat, bs|].
  intros (i & r & ->)%IH. by exists (S i), r.
Qed.

Lemma last_true bs : existsb id bs = true → ∃ r j, bs = r ++ true :: replicate j false.
Proof.
  induction bs as [|b bs IH] using rev_ind; [done|]. rewrite existsb_app. cbn [existsb id]. rewrite orb_false_r.
  destruct b; [by exists bs, 0%nat|]. rewrite orb_false_r. intros (r & j & ->)%IH. exists r, (S j).
  by rewrite replicate_S_end, <-app_assoc.
Qed.
