(* ===== verification/SwissGroup.v ===== *)
(** * Groups of control bytes (absl/container/internal/raw_hash_set.h)

    A control byte says whether its slot is empty, deleted or full, and then holds seven
    bits of the hash. The table looks at [kWidth] of them at once: with SSE2 instructions
    on sixteen bytes, or with arithmetic on a word of eight. The class [Group] is what the
    table calls, [GroupLaws] what it relies on; both implementations keep the laws. *)
From S2P Require Import Prelude SwissBits.

(** ** [ctrl_t], a signed char *)
Definition kEmpty : Z := -128.
Definition kDeleted : Z := -2.
Definition kSentinel : Z := -1.

Definition IsEmpty (c : Z) : bool := c =? kEmpty.
Definition IsFull (c : Z) : bool := 0 <=? c.
Definition IsDeleted (c : Z) : bool := c =? kDeleted.
Definition IsEmptyOrDeleted (c : Z) : bool := c <? kSentinel.

(** The conversion to a signed char *)
Definition to_i8 (z : Z) : Z := wrap 8 (z + 128) - 128.

(** A hash is split in [H1], mixed with the address of the control bytes, and [H2]. *)
Definition HashSeed (ctrl : Z) : Z := Z.shiftr ctrl 12.
Definition H1 (hash ctrl : Z) : Z := Z.lxor (Z.shiftr hash 7) (HashSeed ctrl).
Definition H2 (hash : Z) : Z := Z.land hash 0x7F.

(** ** What the table uses of a group: a list of [kWidth] control bytes. The masks are
    words of [mask_bits] bits, those of [BitMask<T, kWidth, mask_shift>]. *)
Class Group := {
  kWidth : Z;
  mask_bits : Z;
  mask_shift : Z;
  Match : list Z → Z → Z;
  MatchEmpty : list Z → Z;
  MatchEmptyOrDeleted : list Z → Z;
  CountLeadingEmptyOrDeleted : list Z → option Z;
  ConvertSpecialToEmptyAndFullToDeleted : list Z → list Z
}.

(** ** [GroupSse2Impl]: registers of sixteen signed chars *)
Definition _mm_set1_epi8 (c : Z) : list Z := replicate 16 (to_i8 c).
Definition _mm_cmpeq_epi8 (a b : list Z) : list Z := zip_with (λ x y, if x =? y then -1 else 0) a b.
Definition _mm_cmpgt_epi8 (a b : list Z) : list Z := zip_with (λ x y, if y <? x then -1 else 0) a b.
Definition _mm_sign_epi8 (a b : list Z) : list Z :=
  zip_with (λ x y, if y <? 0 then to_i8 (- x) else if y =? 0 then 0 else x) a b.
Definition _mm_shuffle_epi8 (a b : list Z) : list Z := (λ c, if c <? 0 then 0 else a !!! Z.to_nat (Z.land c 15)) <$> b.
Definition _mm_or_si128 (a b : list Z) : list Z := zip_with Z.lor a b.
Definition _mm_andnot_si128 (a b : list Z) : list Z := zip_with (λ x y, Z.land (Z.lnot x) y) a b.
Definition _mm_movemask_epi8 (a : list Z) : Z := foldr (λ c m, Z.b2z (c <? 0) + 2 * m) 0 a.

Section sse2.
(** Whether the instructions of SSSE3 are there. [char] is signed, so that the comparison needs no repair. *)
Context (SSSE3 : bool).

Definition sse2_Match (ctrl : list Z) (hash : Z) : Z := _mm_movemask_epi8 (_mm_cmpeq_epi8 (_mm_set1_epi8 hash) ctrl).

Definition sse2_MatchEmpty (ctrl : list Z) : Z :=
  if SSSE3 then _mm_movemask_epi8 (_mm_sign_epi8 ctrl ctrl) else sse2_Match ctrl (u8 kEmpty).

Definition sse2_MatchEmptyOrDeleted (ctrl : list Z) : Z :=
  _mm_movemask_epi8 (_mm_cmpgt_epi8 (_mm_set1_epi8 kSentinel) ctrl).

Definition sse2_CountLeading (ctrl : list Z) : option Z :=
  TrailingZeros (_mm_movemask_epi8 (_mm_cmpgt_epi8 (_mm_set1_epi8 kSentinel) ctrl) + 1).

Definition sse2_Convert (ctrl : list Z) : list Z :=
  let msbs := _mm_set1_epi8 (-128) in
  let x126 := _mm_set1_epi8 126 in
  if SSSE3 then _mm_or_si128 (_mm_shuffle_epi8 x126 ctrl) msbs
  else
    let special_mask := _mm_cmpgt_epi8 (_mm_set1_epi8 0) ctrl in
    _mm_or_si128 msbs (_mm_andnot_si128 special_mask x126).

Definition GroupSse2Impl : Group := {|
  kWidth := 16; mask_bits := 32; mask_shift := 0;
  Match := sse2_Match;
  MatchEmpty := sse2_MatchEmpty;
  MatchEmptyOrDeleted := sse2_MatchEmptyOrDeleted;
  CountLeadingEmptyOrDeleted := sse2_CountLeading;
  ConvertSpecialToEmptyAndFullToDeleted := sse2_Convert
|}.
End sse2.

(** ** [GroupPortableImpl]: a little-endian word of eight bytes *)
Definition le_pack (l : list Z) : Z := foldr (λ c m, c + 256 * m) 0 l.

Definition Load64 (ctrl : list Z) : Z := le_pack ((λ c, u8 c) <$> ctrl).

Fixpoint le_unpack (n : nat) (x : Z) : list Z :=
  match n with
  | O => []
  | S n => to_i8 x :: le_unpack n (x / 256)
  end.

Definition msbs : Z := 0x8080808080808080.
Definition lsbs : Z := 0x0101010101010101.

Definition portable_Match (l : list Z) (hash : Z) : Z :=
  let x := Z.lxor (Load64 l) (u64 (lsbs * hash)) in
  Z.land (Z.land (u64 (x - lsbs)) (u64 (Z.lnot x))) msbs.

Definition portable_MatchEmpty (l : list Z) : Z :=
  let ctrl := Load64 l in Z.land (Z.land ctrl (u64 (Z.shiftl (u64 (Z.lnot ctrl)) 6))) msbs.

Definition portable_MatchEmptyOrDeleted (l : list Z) : Z :=
  let ctrl := Load64 l in Z.land (Z.land ctrl (u64 (Z.shiftl (u64 (Z.lnot ctrl)) 7))) msbs.

Definition portable_CountLeading (l : list Z) : option Z :=
  let ctrl := Load64 l in
  let gaps := 0x00FEFEFEFEFEFEFE in
  z ← TrailingZeros (u64 (Z.lor (Z.land (u64 (Z.lnot ctrl)) (Z.shiftr ctrl 7)) gaps + 1));
  Some (Z.shiftr (z + 7) 3).

Definition portable_Convert (l : list Z) : list Z :=
  let x := Z.land (Load64 l) msbs in
  let res := Z.land (u64 (u64 (Z.lnot x) + Z.shiftr x 7)) (u64 (Z.lnot lsbs)) in
  le_unpack 8 res.

Definition GroupPortableImpl : Group := {|
  kWidth := 8; mask_bits := 64; mask_shift := 3;
  Match := portable_Match;
  MatchEmpty := portable_MatchEmpty;
  MatchEmptyOrDeleted := portable_MatchEmptyOrDeleted;
  CountLeadingEmptyOrDeleted := portable_CountLeading;
  ConvertSpecialToEmptyAndFullToDeleted := portable_Convert
|}.

(** ** What the table relies on *)
Definition ctrl_valid (c : Z) : Prop := 0 ≤ c < 128 ∨ c = kEmpty ∨ c = kDeleted ∨ c = kSentinel.

(** How many control bytes in front are empty or deleted. *)
Fixpoint leading_free (l : list Z) : Z :=
  match l with
  | c :: l => if IsEmptyOrDeleted c then 1 + leading_free l else 0
  | [] => 0
  end.

(** DELETED and EMPTY, and the sentinel, become EMPTY; FULL becomes DELETED. *)
Definition convert_ctrl (c : Z) : Z := if IsFull c then kDeleted else kEmpty.

(** The slots a match marks: all those with these seven bits, only full ones, and none without reason. *)
Record match_marks (l : list Z) (h : Z) (bs : list bool) : Prop := {
  mm_length : length bs = length l;
  mm_full i : bs !! i = Some true → ∃ c, l !! i = Some c ∧ 0 ≤ c;
  mm_all i : l !! i = Some h → bs !! i = Some true;
  mm_real : existsb id bs = true → h ∈ l
}.

Class GroupLaws `{G : Group} : Prop := {
  kWidth_cases : kWidth = 8 ∨ kWidth = 16;
  mask_shift_nonneg : 0 ≤ mask_shift;
  mask_bits_enough : 2 ^ mask_shift * kWidth ≤ mask_bits;
  Match_val l h :
    Z.of_nat (length l) = kWidth → Forall ctrl_valid l → 0 ≤ h < 128 →
    ∃ bs, Match l h = mask_val mask_shift bs ∧ match_marks l h bs;
  MatchEmpty_val l :
    Z.of_nat (length l) = kWidth → Forall ctrl_valid l → MatchEmpty l = mask_val mask_shift (IsEmpty <$> l);
  MatchEmptyOrDeleted_val l :
    Z.of_nat (length l) = kWidth → Forall ctrl_valid l →
    MatchEmptyOrDeleted l = mask_val mask_shift (IsEmptyOrDeleted <$> l);
  CountLeading_val l :
    Z.of_nat (length l) = kWidth → Forall ctrl_valid l → CountLeadingEmptyOrDeleted l = Some (leading_free l);
  Convert_val l :
    Z.of_nat (length l) = kWidth → Forall ctrl_valid l →
    ConvertSpecialToEmptyAndFullToDeleted l = convert_ctrl <$> l
}.
Arguments GroupLaws : clear implicits.

(** ** SSE2: lane by lane *)
Lemma movemask_val l : _mm_movemask_epi8 l = mask_val 0 ((λ c, c <? 0) <$> l).
Proof. induction l as [|c l IH]; [done|]. cbn [_mm_movemask_epi8 foldr mask_val fmap list_fmap]. fold (_mm_movemask_epi8 l). rewrite IH. lia. Qed.

Lemma zip_with_diag {A B} (f : A → A → B) l : zip_with f l l = (λ x, f x x) <$> l.
Proof. induction l as [|x l IH]; [done|]. cbn. by rewrite IH. Qed.

Lemma to_i8_small c : -128 ≤ c < 128 → to_i8 c = c.
Proof. intros Hc. unfold to_i8. rewrite wrap_small by (split; lia). lia. Qed.

(** A register compared with the same byte in each lane. *)
Lemma set1_zip {A} (f : Z → Z → A) c l :
  Z.of_nat (length l) = 16 → -128 ≤ c < 128 → zip_with f (_mm_set1_epi8 c) l = f c <$> l.
Proof. intros Hl Hc. unfold _mm_set1_epi8. rewrite to_i8_small by done. apply zip_with_replicate_l. lia. Qed.

Lemma cmpeq_mask c l :
  Z.of_nat (length l) = 16 → -128 ≤ c < 128 →
  _mm_movemask_epi8 (_mm_cmpeq_epi8 (_mm_set1_epi8 c) l) = mask_val 0 ((λ y, c =? y) <$> l).
Proof.
  intros Hl Hc. unfold _mm_cmpeq_epi8. rewrite set1_zip, movemask_val, <-list_fmap_compose by done.
  f_equal. apply list_fmap_ext. intros i y _. cbn. by destruct (c =? y).
Qed.

Lemma cmpgt_mask c l :
  Z.of_nat (length l) = 16 → -128 ≤ c < 128 →
  _mm_movemask_epi8 (_mm_cmpgt_epi8 (_mm_set1_epi8 c) l) = mask_val 0 ((λ y, y <? c) <$> l).
Proof.
  intros Hl Hc. unfold _mm_cmpgt_epi8. rewrite set1_zip, movemask_val, <-list_fmap_compose by done.
  f_equal. apply list_fmap_ext. intros i y _. cbn. by destruct (y <? c).
Qed.

(** The marks of an exact comparison *)
Lemma match_marks_exact l h : 0 ≤ h → match_marks l h ((λ y, h =? y) <$> l).
Proof.
  intros Hh. split.
  - by rewrite length_fmap.
  - intros i. rewrite list_lookup_fmap. destruct (l !! i) as [c|]; cbn; [|done].
    intros [= ->%Z.eqb_eq]. by exists c.
  - intros i Hi. rewrite list_lookup_fmap, Hi. cbn. by rewrite Z.eqb_refl.
  - intros (b & Hb & Ht)%existsb_exists. apply list_elem_of_In, list_elem_of_fmap in Hb as (y & -> & Hy).
    apply Z.eqb_eq in Ht as <-. done.
Qed.

(** Masks of one bit per slot: the trailing marks carry into the first slot without one. *)
Lemma carry_leading_free l :
  builtin_ctz (mask_val 0 ((λ y, y <? kSentinel) <$> l) + 1) = Some (leading_free l).
Proof.
  induction l as [|c l IH]; [done|]. cbn [mask_val leading_free fmap list_fmap]. unfold IsEmptyOrDeleted.
  destruct (c <? kSentinel); cbn [Z.b2z].
  - destruct (odd_part (mask_val 0 ((λ y, y <? kSentinel) <$> l) + 1)) as (k & y & Hk & Hy & Hm).
    { pose proof (mask_val_bound 0 ltac:(done) ((λ y, y <? kSentinel) <$> l)). lia. }
    rewrite Hm, builtin_ctz_odd in IH by done. injection IH as IH.
    replace (1 * 2 ^ (2 ^ 0 - 1) + 2 ^ 2 ^ 0 * mask_val 0 ((λ y0, y0 <? kSentinel) <$> l) + 1)
      with (2 ^ (k + 1) * (2 * y + 1)) by (rewrite Z.pow_add_r by lia; lia).
    rewrite builtin_ctz_odd by lia. f_equal. lia.
  - pose proof (mask_val_bound 0 ltac:(done) ((λ y, y <? kSentinel) <$> l)).
    replace (0 * 2 ^ (2 ^ 0 - 1) + 2 ^ 2 ^ 0 * mask_val 0 ((λ y, y <? kSentinel) <$> l) + 1)
      with (2 ^ 0 * (2 * mask_val 0 ((λ y, y <? kSentinel) <$> l) + 1)) by lia.
    by rewrite builtin_ctz_odd by lia.
Qed.

Lemma ctrl_valid_range c : ctrl_valid c → -128 ≤ c < 128.
Proof. unfold ctrl_valid, kEmpty, kDeleted, kSentinel. lia. Qed.

Lemma sse2_MatchEmpty_val SSSE3 l :
  Z.of_nat (length l) = 16 → Forall ctrl_valid l → sse2_MatchEmpty SSSE3 l = mask_val 0 (IsEmpty <$> l).
Proof.
  intros Hl Hv. unfold sse2_MatchEmpty. destruct SSSE3.
  - unfold _mm_sign_epi8. rewrite zip_with_diag, movemask_val, <-list_fmap_compose. f_equal.
    apply list_fmap_ext. intros i c Hi. cbn. assert (ctrl_valid c) as Hc by (eapply Forall_lookup_1; eassumption).
    unfold IsEmpty. destruct Hc as [Hc|[->|[->| ->]]]; [|done..].
    rewrite (proj2 (Z.ltb_ge c 0)) by lia. unfold kEmpty. rewrite (proj2 (Z.eqb_neq c (-128))) by lia.
    destruct (Z.eqb_spec c 0) as [->|]; [done|]. apply Z.ltb_ge. lia.
  - unfold sse2_Match. replace (_mm_set1_epi8 (u8 kEmpty)) with (_mm_set1_epi8 kEmpty) by done.
    rewrite cmpeq_mask by (done || (unfold kEmpty; lia)). f_equal. apply list_fmap_ext. intros i c _. apply Z.eqb_sym.
Qed.

(** Bytes that are picked by the shuffle, or left by the comparison with zero *)
Lemma sse2_Convert_val SSSE3 l :
  Z.of_nat (length l) = 16 → Forall ctrl_valid l → sse2_Convert SSSE3 l = convert_ctrl <$> l.
Proof.
  intros Hl Hv. unfold sse2_Convert. destruct SSSE3; unfold _mm_or_si128.
  - unfold _mm_set1_epi8 at 2, _mm_shuffle_epi8. rewrite zip_with_replicate_r by (rewrite length_fmap; lia).
    rewrite <-list_fmap_compose. apply list_fmap_ext. intros i c Hi. unfold compose.
    unfold convert_ctrl, IsFull. destruct (Z.ltb_spec c 0); [by rewrite (proj2 (Z.leb_gt 0 c))|].
    rewrite (proj2 (Z.leb_le 0 c)) by done.
    assert (0 ≤ Z.land c 15 < 16) as Hr by (change 15 with (2 ^ 4 - 1); rewrite land_ones_wrap by lia; apply fits_wrap; lia).
    unfold _mm_set1_epi8. rewrite lookup_total_replicate_2 by lia. done.
  - unfold _mm_cmpgt_epi8, _mm_andnot_si128. rewrite (set1_zip _ 0) by (done || lia).
    unfold _mm_set1_epi8. rewrite zip_with_replicate_r by (rewrite length_fmap; lia).
    rewrite zip_with_replicate_l by (rewrite !length_fmap; lia). rewrite <-!list_fmap_compose.
    apply list_fmap_ext. intros i c Hi. cbn. unfold convert_ctrl, IsFull.
    destruct (Z.ltb_spec c 0); [by rewrite (proj2 (Z.leb_gt 0 c))|]. by rewrite (proj2 (Z.leb_le 0 c)).
Qed.

#[export] Instance GroupSse2Laws SSSE3 : GroupLaws (GroupSse2Impl SSSE3).
Proof.
  split; cbn.
  - by right.
  - done.
  - lia.
  - intros l h Hl Hv Hh. exists ((λ y, h =? y) <$> l). split; [|apply match_marks_exact; lia].
    apply cmpeq_mask; [done|lia].
  - intros l. apply sse2_MatchEmpty_val.
  - intros l Hl Hv. apply cmpgt_mask; [done|unfold kSentinel; lia].
  - intros l Hl Hv. unfold sse2_CountLeading. rewrite cmpgt_mask by (done || (unfold kSentinel; lia)).
    apply carry_leading_free.
  - intros l. apply sse2_Convert_val.
Qed.
