(* ===== verification/SwissPortable.v ===== *)
(** * The portable group keeps the laws (absl/container/internal/raw_hash_set.h: [GroupPortableImpl])

    Eight control bytes in a word. The tests for empty and for free slots combine single
    bits of each byte; the match subtracts one from every byte at once, so that a borrow
    may mark a slot above a real match, but never a slot that is not full; the conversion
    and the count use that additions do not carry from one byte into the next. *)
From S2P Require Import Prelude SwissBits SwissGroup.

(** ** Words as lists of bytes *)
Lemma le_pack_bound l : Forall (fits 8) l → 0 ≤ le_pack l < 2 ^ (8 * Z.of_nat (length l)).
Proof.
  induction 1 as [|c l [Hc0 Hc1] _ IH]; cbn [le_pack foldr length]; [done|]. fold (le_pack l).
  replace (8 * Z.of_nat (S (length l))) with (8 + 8 * Z.of_nat (length l)) by lia. rewrite Z.pow_add_r by lia.
  change (2 ^ 8) with 256 in *. lia.
Qed.

Lemma byte_bits c m i j :
  fits 8 c → 0 ≤ j < 8 →
  Z.testbit (c + 256 * m) (8 * Z.of_nat i + j) =
    match i with O => Z.testbit c j | S i => Z.testbit m (8 * Z.of_nat i + j) end.
Proof.
  intros Hc Hj. change 256 with (2 ^ 8). rewrite (Z.mul_comm (2 ^ 8)). destruct i as [|i].
  - replace (8 * Z.of_nat 0 + j) with j by lia. rewrite <-(Z.mod_pow2_bits_low (c + m * 2 ^ 8) 8) by lia.
    rewrite Z_mod_plus_full. by rewrite Z.mod_pow2_bits_low by lia.
  - replace (8 * Z.of_nat (S i) + j) with (8 * Z.of_nat i + j + 8) by lia. rewrite <-Z.div_pow2_bits by lia.
    f_equal. rewrite Z.div_add by done. rewrite Z.div_small by done. lia.
Qed.

Lemma le_pack_bits l : Forall (fits 8) l → ∀ i j, 0 ≤ j < 8 →
  Z.testbit (le_pack l) (8 * Z.of_nat i + j) = match l !! i with Some c => Z.testbit c j | None => false end.
Proof.
  induction 1 as [|c l Hc _ IH]; intros i j Hj; [apply Z.testbit_0_l|]. cbn [le_pack foldr]. fold (le_pack l).
  rewrite byte_bits by done. destruct i as [|i]; [done|]. by apply IH.
Qed.

(** A word of 64 bits is known by the bits of its bytes. *)
Lemma word_ext x y :
  fits 64 x → fits 64 y →
  (∀ i j, (i < 8)%nat → 0 ≤ j < 8 → Z.testbit x (8 * Z.of_nat i + j) = Z.testbit y (8 * Z.of_nat i + j)) → x = y.
Proof.
  intros [Hx0 Hx]%fits_testbit [Hy0 Hy]%fits_testbit Hbits; [|done..]. apply Z.bits_inj'. intros n Hn.
  destruct (Z.lt_ge_cases n 64) as [Hlt|Hge]; [|by rewrite Hx, Hy].
  specialize (Hbits (Z.to_nat (n / 8)) (n `mod` 8)). rewrite Z2Nat.id in Hbits by div_lia.
  rewrite <-Z.div_mod in Hbits by done. apply Hbits; div_lia.
Qed.

Lemma u64_bit x n : 0 ≤ n < 64 → Z.testbit (u64 x) n = Z.testbit x n.
Proof. intros Hn. unfold wrap. apply Z.mod_pow2_bits_low. lia. Qed.

Lemma u8_bits l : Forall (fits 8) ((λ c, u8 c) <$> l).
Proof. apply Forall_fmap, Forall_true. intros c. by apply fits_wrap. Qed.

Lemma le_pack_fits l : length l = 8%nat → Forall (fits 8) l → fits 64 (le_pack l).
Proof. intros Hl H. pose proof (le_pack_bound l H) as Hb. by rewrite Hl in Hb. Qed.

(** A mask of bytes is a word whose bytes are 0x80 or 0. *)
Definition mark_byte (b : bool) : Z := if b then 128 else 0.

Lemma mask_val_pack bs : mask_val 3 bs = le_pack (mark_byte <$> bs).
Proof.
  induction bs as [|b bs IH]; [done|]. cbn [mask_val le_pack foldr fmap list_fmap]. fold (le_pack (mark_byte <$> bs)).
  rewrite IH. destruct b; cbn [Z.b2z mark_byte]; lia.
Qed.

Lemma mark_bytes_fits bs : Forall (fits 8) (mark_byte <$> bs).
Proof. apply Forall_fmap, Forall_true. by intros []. Qed.

Lemma full_top_bit c : 0 ≤ c < 128 → Z.testbit c 7 = false.
Proof. intros Hc. apply (fits_testbit 7); [done| |done]. split; lia. Qed.

Section word.
Context (l : list Z) (Hl : length l = 8%nat).

Lemma Load64_fits : fits 64 (Load64 l).
Proof using Hl. apply le_pack_fits; [by rewrite length_fmap|apply u8_bits]. Qed.

Lemma Load64_bits i j c :
  l !! i = Some c → 0 ≤ j < 8 → Z.testbit (Load64 l) (8 * Z.of_nat i + j) = Z.testbit c j.
Proof using.
  clear Hl. intros Hi Hj. unfold Load64. rewrite le_pack_bits by (done || apply u8_bits). rewrite list_lookup_fmap, Hi. cbn.
  unfold wrap. apply Z.mod_pow2_bits_low. lia.
Qed.

Lemma Load64_not_bits i j c :
  l !! i = Some c → 0 ≤ j < 8 → Z.testbit (u64 (Z.lnot (Load64 l))) (8 * Z.of_nat i + j) = negb (Z.testbit c j).
Proof using Hl.
  intros Hi Hj. pose proof (lookup_lt_Some _ _ _ Hi). rewrite u64_bit by lia. rewrite Z.lnot_spec by lia.
  by erewrite Load64_bits.
Qed.

(** A word that keeps the top bits, where it has them for the bytes chosen by [f] *)
Lemma top_bits_mask (f : Z → bool) x :
  fits 64 x → (∀ i c, l !! i = Some c → Z.testbit x (8 * Z.of_nat i + 7) = f c) →
  Z.land x msbs = mask_val 3 (f <$> l).
Proof using Hl.
  intros Hx Hf. rewrite mask_val_pack. apply word_ext.
  - by apply fits_land_l.
  - apply le_pack_fits; [by rewrite !length_fmap|apply mark_bytes_fits].
  - intros i j Hi Hj. destruct (lookup_lt_is_Some_2 l i ltac:(lia)) as [c Hc].
    rewrite (le_pack_bits _ (mark_bytes_fits _)), !list_lookup_fmap, Hc by done. cbn [fmap option_fmap option_map].
    rewrite Z.land_spec. change msbs with (le_pack (replicate 8 128)).
    rewrite le_pack_bits by (done || by repeat constructor). rewrite lookup_replicate_2 by done.
    destruct (decide (j = 7)) as [->|Hne].
    + rewrite (Hf i c Hc). change (Z.testbit 128 7) with true. rewrite andb_true_r. by destruct (f c).
    + assert (Z.testbit 128 j = false) as ->.
      { change 128 with (2 ^ 7). rewrite Z.pow2_bits_eqb by lia. by apply Z.eqb_neq. }
      rewrite andb_false_r. destruct (f c); cbn [mark_byte]; [|by rewrite Z.testbit_0_l].
      change 128 with (2 ^ 7). rewrite Z.pow2_bits_eqb by lia. symmetry. by apply Z.eqb_neq.
Qed.

(** Each byte's top bit against another of its bits that is not set *)
Lemma top_and_not s (f : Z → bool) :
  0 < s ≤ 7 → (∀ c, c ∈ l → Z.testbit c 7 && negb (Z.testbit c (7 - s)) = f c) →
  let ctrl := Load64 l in
  Z.land (Z.land ctrl (u64 (Z.shiftl (u64 (Z.lnot ctrl)) s))) msbs = mask_val 3 (f <$> l).
Proof using Hl.
  intros Hs Hf ctrl. apply top_bits_mask; [apply fits_land_l; [done|apply Load64_fits]|].
  intros i c Hi. pose proof (lookup_lt_Some _ _ _ Hi). rewrite Z.land_spec. unfold ctrl at 1. rewrite (Load64_bits i 7 c) by done.
  rewrite u64_bit, Z.shiftl_spec by lia. replace (8 * Z.of_nat i + 7 - s) with (8 * Z.of_nat i + (7 - s)) by lia.
  unfold ctrl. rewrite (Load64_not_bits i (7 - s) c) by (done || lia). apply Hf. by eapply list_elem_of_lookup_2.
Qed.

Context (Hv : Forall ctrl_valid l).

Lemma portable_MatchEmpty_val : portable_MatchEmpty l = mask_val 3 (IsEmpty <$> l).
Proof using Hl Hv.
  apply (top_and_not 6); [done|]. intros c Hc. rewrite Forall_forall in Hv.
  destruct (Hv c Hc) as [Hf|[->|[->| ->]]]; [|done..]. rewrite full_top_bit by done. symmetry. apply Z.eqb_neq.
  unfold kEmpty. lia.
Qed.

Lemma portable_MatchEmptyOrDeleted_val : portable_MatchEmptyOrDeleted l = mask_val 3 (IsEmptyOrDeleted <$> l).
Proof using Hl Hv.
  apply (top_and_not 7); [done|]. intros c Hc. rewrite Forall_forall in Hv.
  destruct (Hv c Hc) as [Hf|[->|[->| ->]]]; [|done..]. rewrite full_top_bit by done. symmetry. apply Z.ltb_ge.
  unfold kSentinel. lia.
Qed.


End word.

(** ** The number of free slots in front *)
Definition gap_byte (n : nat) (s : bool) : Z := Z.b2z s + if (n <? 7)%nat then 254 else 0.

(** The bytes of the word that is incremented: all bits of a byte but the lowest are set, save in the last byte. *)
Fixpoint gap_bytes (n : nat) (l : list Z) : list Z :=
  match l with
  | [] => []
  | c :: l => gap_byte n (IsEmptyOrDeleted c) :: gap_bytes (S n) l
  end.

Lemma free_bit c : ctrl_valid c → negb (Z.testbit c 0) && Z.testbit c 7 = IsEmptyOrDeleted c.
Proof.
  intros [Hf|[->|[->| ->]]]; [|done..]. rewrite full_top_bit, andb_false_r by done. symmetry. apply Z.ltb_ge.
  unfold kSentinel. lia.
Qed.

Lemma gap_bytes_lookup l : ∀ n i, gap_bytes n l !! i = gap_byte (n + i) ∘ IsEmptyOrDeleted <$> l !! i.
Proof.
  induction l as [|c l IH]; intros n i; [done|]. destruct i as [|i]; cbn; [by rewrite Nat.add_0_r|].
  rewrite IH. by rewrite Nat.add_succ_r.
Qed.

Lemma gap_bytes_length l : ∀ n, length (gap_bytes n l) = length l.
Proof. induction l as [|c l IH]; intros n; cbn; [done|]. by rewrite IH. Qed.

Lemma gap_byte_fits n s : fits 8 (gap_byte n s).
Proof. unfold gap_byte. destruct (n <? 7)%nat, s; by split; vm_compute. Qed.

Lemma gap_bytes_fits l n : Forall (fits 8) (gap_bytes n l).
Proof. apply Forall_lookup. intros i x. rewrite gap_bytes_lookup. destruct (l !! i); cbn; [|done]. intros [= <-]. apply gap_byte_fits. Qed.

Lemma gap_byte_bits n s j : 0 ≤ j < 8 → Z.testbit (gap_byte n s) j = if j =? 0 then s else (n <? 7)%nat.
Proof.
  intros Hj. assert (j ∈ Z.of_nat <$> seq 0 8) as Hin.
  { apply list_elem_of_fmap. exists (Z.to_nat j). split; [lia|]. apply elem_of_seq. lia. }
  revert j Hj Hin. unfold gap_byte.
  assert (Forall (λ j, ∀ b s : bool, Z.testbit (Z.b2z s + if b then 254 else 0) j = if j =? 0 then s else b) (Z.of_nat <$> seq 0 8)) as Hall.
  { cbn. repeat constructor; by intros [] []. }
  intros j _ Hin. by eapply Forall_forall in Hall.
Qed.

Lemma gap_word l :
  length l = 8%nat → Forall ctrl_valid l →
  Z.lor (Z.land (u64 (Z.lnot (Load64 l))) (Z.shiftr (Load64 l) 7)) 0x00FEFEFEFEFEFEFE = le_pack (gap_bytes 0 l).
Proof.
  intros Hl Hv. pose proof (Load64_fits l Hl) as Hf. apply word_ext.
  - apply fits_lor; [done| |by split; vm_compute]. apply fits_land_l; [done|by apply fits_wrap].
  - apply le_pack_fits; [by rewrite gap_bytes_length|apply gap_bytes_fits].
  - intros i j Hi Hj. destruct (lookup_lt_is_Some_2 l i ltac:(lia)) as [c Hc].
    rewrite (le_pack_bits _ (gap_bytes_fits _ _)), gap_bytes_lookup, Hc by done. cbn [fmap option_fmap option_map compose Nat.add].
    rewrite gap_byte_bits by done. rewrite Z.lor_spec, Z.land_spec, (Load64_not_bits l Hl i j c Hc Hj), Z.shiftr_spec by lia.
    change 0x00FEFEFEFEFEFEFE with (le_pack (gap_bytes 0 (replicate 8 0))).
    rewrite (le_pack_bits _ (gap_bytes_fits _ _)), gap_bytes_lookup, lookup_replicate_2 by done.
    cbn [fmap option_fmap option_map compose Nat.add]. change (IsEmptyOrDeleted 0) with false.
    rewrite gap_byte_bits by done. destruct (Z.eqb_spec j 0) as [->|Hne].
    + rewrite orb_false_r. replace (8 * Z.of_nat i + 0 + 7) with (8 * Z.of_nat i + 7) by lia.
      rewrite (Load64_bits l i 7 c) by done. apply free_bit. by eapply Forall_lookup_1.
    + destruct (Nat.ltb_spec i 7); [by rewrite orb_true_r|]. rewrite orb_false_r.
      assert (i = 7%nat) as -> by lia. rewrite (proj2 (proj1 (fits_testbit 64 (Load64 l) ltac:(done)) Hf)) by lia.
      by rewrite andb_false_r.
Qed.

(** The increment carries through the free slots in front. *)
Lemma gap_carry l : ∀ n, (n + length l = 8)%nat → Forall ctrl_valid l → (0 < length l)%nat →
  ∃ z, builtin_ctz (le_pack (gap_bytes n l) + 1) = Some z ∧ Z.shiftr (z + 7) 3 = leading_free l ∧ 0 ≤ z.
Proof.
  induction l as [|c l IH]; intros n Hn Hv Hlen; cbn [length] in *; [lia|]. apply Forall_cons in Hv as [Hc Hv].
  cbn [gap_bytes le_pack foldr leading_free]. fold (le_pack (gap_bytes (S n) l)).
  pose proof (le_pack_bound _ (gap_bytes_fits l (S n))) as [Hb _].
  destruct (IsEmptyOrDeleted c) eqn:He; unfold gap_byte; cbn [Z.b2z].
  - destruct l as [|c' l].
    { assert (n = 7%nat) as -> by (cbn in Hn; lia). exists 1. done. }
    destruct (IH (S n)) as (z & Hz & Hs & Hz0); [cbn in *; lia|done|cbn; lia|].
    rewrite (proj2 (Nat.ltb_lt n 7)) by (cbn in Hn; lia).
    destruct (odd_part (le_pack (gap_bytes (S n) (c' :: l)) + 1) ltac:(lia)) as (k & y & Hk & Hy & Hm).
    rewrite Hm, builtin_ctz_odd in Hz by done. injection Hz as <-. exists (k + 8). split; [|split; [|lia]].
    + replace (1 + 254 + 256 * le_pack (gap_bytes (S n) (c' :: l)) + 1) with (2 ^ (k + 8) * (2 * y + 1)); [apply builtin_ctz_odd; lia|].
      rewrite Z.pow_add_r by lia. change (2 ^ 8) with 256. lia.
    + rewrite <-Hs. rewrite !Z.shiftr_div_pow2 by done. change (2 ^ 3) with 8. div_lia.
  - exists 0. split; [|done]. set (p := le_pack (gap_bytes (S n) l)) in *. destruct (n <? 7)%nat.
    + replace (0 + 254 + 256 * p + 1) with (2 ^ 0 * (2 * (127 + 128 * p) + 1)) by lia. apply builtin_ctz_odd; lia.
    + replace (0 + 0 + 256 * p + 1) with (2 ^ 0 * (2 * (128 * p) + 1)) by lia. apply builtin_ctz_odd; lia.
Qed.

Lemma portable_CountLeading_val l :
  length l = 8%nat → Forall ctrl_valid l → portable_CountLeading l = Some (leading_free l).
Proof.
  intros Hl Hv. unfold portable_CountLeading. rewrite gap_word by done. unfold TrailingZeros, CountTrailingZerosNonZero.
  destruct (gap_carry l 0) as (z & Hz & Hs & _); [lia|done|lia|].
  rewrite wrap_small.
  2:{ destruct (le_pack_fits (gap_bytes 0 l)) as [H0 H1]; [by rewrite gap_bytes_length|apply gap_bytes_fits|].
      split; [lia|]. destruct (decide (le_pack (gap_bytes 0 l) = 2 ^ 64 - 1)) as [Heq|]; [|lia]. exfalso.
      pose proof (gap_bytes_fits l 0) as Hf. pose proof (le_pack_bits _ Hf 7 7 ltac:(lia)) as Hbit.
      rewrite Heq, gap_bytes_lookup in Hbit. destruct (l !! 7%nat); cbn [fmap option_fmap option_map compose Nat.add] in Hbit.
      - rewrite gap_byte_bits in Hbit by lia. done.
      - done. }
  rewrite Hz. cbn [mbind option_bind]. by rewrite Hs.
Qed.

(** ** The conversion *)
Lemma to_i8_low c m : to_i8 (c + 256 * m) = to_i8 c.
Proof.
  unfold to_i8, wrap. replace (c + 256 * m + 128) with (c + 128 + m * 2 ^ 8) by (change (2 ^ 8) with 256; lia).
  by rewrite Z_mod_plus_full.
Qed.

Lemma le_unpack_pack bs : Forall (fits 8) bs → le_unpack (length bs) (le_pack bs) = to_i8 <$> bs.
Proof.
  induction 1 as [|c bs [Hc0 Hc1] _ IH]; [done|]. change (2 ^ 8) with 256 in Hc1.
  cbn [le_unpack length le_pack foldr fmap list_fmap]. fold (le_pack bs).
  rewrite to_i8_low. f_equal. rewrite (Z.mul_comm 256), Z.div_add, Z.div_small, Z.add_0_l by lia. exact IH.
Qed.

(** The words on the way, from the marks of the bytes that are not full *)
Definition special_byte (b : bool) : Z := if b then 128 else 254.

Lemma special_bytes_fits bs : Forall (fits 8) (special_byte <$> bs).
Proof. apply Forall_fmap, Forall_true. by intros []. Qed.

Lemma invert_add bs :
  2 ^ (8 * Z.of_nat (length bs)) - 1 - le_pack (mark_byte <$> bs) + le_pack (Z.b2z <$> bs) =
  le_pack ((λ b : bool, if b then 128 else 255) <$> bs).
Proof.
  induction bs as [|b bs IH]; [done|]. cbn [length fmap list_fmap le_pack foldr].
  fold (le_pack (mark_byte <$> bs)) (le_pack (Z.b2z <$> bs)) (le_pack ((λ b : bool, if b then 128 else 255) <$> bs)).
  replace (8 * Z.of_nat (S (length bs))) with (8 + 8 * Z.of_nat (length bs)) by lia. rewrite Z.pow_add_r by lia.
  change (2 ^ 8) with 256. destruct b; cbn [mark_byte Z.b2z]; lia.
Qed.

Lemma mark_half bs : Z.shiftr (le_pack (mark_byte <$> bs)) 7 = le_pack (Z.b2z <$> bs).
Proof.
  rewrite Z.shiftr_div_pow2 by done. change (2 ^ 7) with 128.
  replace (le_pack (mark_byte <$> bs)) with (le_pack (Z.b2z <$> bs) * 128); [by apply Z.div_mul|].
  induction bs as [|b bs IH]; [done|]. cbn [fmap list_fmap le_pack foldr].
  fold (le_pack (mark_byte <$> bs)) (le_pack (Z.b2z <$> bs)). destruct b; cbn [mark_byte Z.b2z]; lia.
Qed.

Lemma convert_word bs :
  length bs = 8%nat →
  let x := le_pack (mark_byte <$> bs) in
  Z.land (u64 (u64 (Z.lnot x) + Z.shiftr x 7)) (u64 (Z.lnot lsbs)) = le_pack (special_byte <$> bs).
Proof.
  intros Hl x. pose proof (invert_add bs) as Ha. rewrite Hl in Ha.
  assert (Forall (fits 8) ((λ b : bool, if b then 128 else 255) <$> bs)) as Hf by (apply Forall_fmap, Forall_true; by intros []).
  rewrite wrap_add_l. unfold x. rewrite mark_half.
  replace (Z.lnot (le_pack (mark_byte <$> bs)) + le_pack (Z.b2z <$> bs))
    with (le_pack ((λ b : bool, if b then 128 else 255) <$> bs) + (-1) * 2 ^ 64) by (unfold Z.lnot; cbn [Z.of_nat] in Ha; lia).
  unfold wrap at 1. rewrite Z_mod_plus_full, Z.mod_small by (apply le_pack_fits; [by rewrite length_fmap|done]).
  apply word_ext; [apply fits_land_l; [done|apply le_pack_fits; [by rewrite length_fmap|done]]| |].
  { apply le_pack_fits; [by rewrite length_fmap|apply special_bytes_fits]. }
  intros i j Hi Hj. destruct (lookup_lt_is_Some_2 bs i ltac:(lia)) as [b Hb].
  rewrite Z.land_spec, (le_pack_bits _ Hf), (le_pack_bits _ (special_bytes_fits _)), !list_lookup_fmap, Hb by done.
  change (u64 (Z.lnot lsbs)) with (le_pack (replicate 8 254)).
  rewrite le_pack_bits by (done || (repeat constructor; vm_compute; congruence)). rewrite lookup_replicate_2 by done.
  cbn [fmap option_fmap option_map]. rewrite <-Z.land_spec. by destruct b.
Qed.

Lemma portable_Convert_val l :
  length l = 8%nat → Forall ctrl_valid l → portable_Convert l = convert_ctrl <$> l.
Proof.
  intros Hl Hv. unfold portable_Convert.
  rewrite (top_bits_mask l Hl (λ c, negb (IsFull c))), mask_val_pack; [|by apply Load64_fits|].
  2:{ intros i c Hi. rewrite (Load64_bits l i 7 c) by done. assert (ctrl_valid c) as Hc by (by eapply Forall_lookup_1).
      destruct Hc as [Hf|[->|[->| ->]]]; [|done..]. rewrite full_top_bit by done. unfold IsFull.
      by rewrite (proj2 (Z.leb_le 0 c)) by lia. }
  rewrite convert_word by (by rewrite length_fmap).
  replace 8%nat with (length (special_byte <$> ((λ c, negb (IsFull c)) <$> l))) by (by rewrite !length_fmap).
  rewrite le_unpack_pack by apply special_bytes_fits. rewrite <-!list_fmap_compose. apply list_fmap_ext.
  intros i c _. unfold compose, convert_ctrl. by destruct (IsFull c).
Qed.

(** ** The match: a byte is marked when it is 0, or 1 above a borrow *)
Fixpoint borrow_marks (borrow : bool) (xs : list Z) : list bool :=
  match xs with
  | [] => []
  | x :: xs => (x <? 1 + Z.b2z borrow) :: borrow_marks (x <? 1 + Z.b2z borrow) xs
  end.

Lemma land_bytes a b m m' : fits 8 a → fits 8 b → Z.land (a + 256 * m) (b + 256 * m') = Z.land a b + 256 * Z.land m m'.
Proof.
  intros Ha Hb. apply Z.bits_inj'. intros n Hn. rewrite Z.land_spec.
  replace n with (8 * Z.of_nat (Z.to_nat (n / 8)) + n `mod` 8) by div_lia.
  assert (0 ≤ n `mod` 8 < 8) by div_lia.
  rewrite (byte_bits a), (byte_bits b), (byte_bits (Z.land a b)) by (done || by apply fits_land_l).
  destruct (Z.to_nat (n / 8)); by rewrite Z.land_spec.
Qed.

Lemma borrow_byte x (borrow : bool) :
  fits 8 x → Z.land (Z.land ((x - 1 - Z.b2z borrow) `mod` 256) (255 - x)) 128 = mark_byte (x <? 1 + Z.b2z borrow).
Proof.
  intros Hx. assert (x ∈ Z.of_nat <$> seq 0 256) as Hin.
  { apply list_elem_of_fmap. exists (Z.to_nat x). unfold fits in Hx. change (2 ^ 8) with 256 in Hx. split; [lia|]. apply elem_of_seq. lia. }
  revert Hin. clear Hx. revert x. apply Forall_forall. destruct borrow; vm_decide.
Qed.

Lemma borrow_word xs : ∀ borrow,
  Forall (fits 8) xs → let n := length xs in
  Z.land (Z.land ((le_pack xs - le_pack (replicate n 1) - Z.b2z borrow) `mod` 2 ^ (8 * Z.of_nat n))
    (wrap (8 * Z.of_nat n) (Z.lnot (le_pack xs)))) (le_pack (replicate n 128)) = le_pack (mark_byte <$> borrow_marks borrow xs).
Proof.
  induction xs as [|x xs IH]; intros borrow Hxs; [by destruct borrow|]. apply Forall_cons in Hxs as [Hx Hxs]. cbn zeta in IH.
  cbn [length replicate le_pack foldr borrow_marks fmap list_fmap].
  fold (le_pack xs) (le_pack (replicate (length xs) 1)) (le_pack (replicate (length xs) 128))
    (le_pack (mark_byte <$> borrow_marks (x <? 1 + Z.b2z borrow) xs)).
  set (n := length xs) in *. set (bo := x <? 1 + Z.b2z borrow).
  assert (0 < 2 ^ (8 * Z.of_nat n)) as Hp by lia.
  replace (8 * Z.of_nat (S n)) with (8 + 8 * Z.of_nat n) by lia. unfold wrap. rewrite Z.pow_add_r by lia. change (2 ^ 8) with 256.
  assert (fits 8 ((x - 1 - Z.b2z borrow) `mod` 256)) as Hlo by (apply (fits_wrap 8); done).
  assert (fits 8 (255 - x)) as Hc by (unfold fits in *; change (2 ^ 8) with 256 in *; lia).
  replace (x + 256 * le_pack xs - (1 + 256 * le_pack (replicate n 1)) - Z.b2z borrow)
    with ((x - 1 - Z.b2z borrow) `mod` 256 + 256 * (le_pack xs - le_pack (replicate n 1) - Z.b2z bo)).
  2:{ enough (x - 1 - Z.b2z borrow = (x - 1 - Z.b2z borrow) `mod` 256 - 256 * Z.b2z bo) by lia.
      unfold fits in Hx. change (2 ^ 8) with 256 in Hx. pose proof (b2z_bound borrow). unfold bo.
      destruct (Z.ltb_spec x (1 + Z.b2z borrow)); cbn [Z.b2z]; [|rewrite Z.mod_small; lia].
      rewrite <-(Z_mod_plus_full _ 1), Z.mod_small; lia. }
  replace (Z.lnot (x + 256 * le_pack xs)) with ((255 - x) + 256 * Z.lnot (le_pack xs)) by (unfold Z.lnot; lia).
  rewrite !(Z.rem_mul_r _ 256) by lia.
  assert (∀ z, fits 8 z → 0 ≤ z < 256) as H256 by done.
  pose proof (H256 _ Hlo). pose proof (H256 _ Hc). set (lo := (x - 1 - Z.b2z borrow) `mod` 256) in *.
  rewrite !(Z.mul_comm 256 (_ - _ - _)), !(Z.mul_comm 256 (Z.lnot _)), !Z_mod_plus_full, !Z.div_add by done.
  rewrite !(Z.div_small _ 256), !(Z.mod_small _ 256), !Z.add_0_l by done.
  rewrite !land_bytes by (done || (by apply fits_land_l) || by split).
  unfold lo. rewrite borrow_byte by done. do 2 f_equal. by apply IH.
Qed.

Lemma borrow_marks_length xs : ∀ b, length (borrow_marks b xs) = length xs.
Proof. induction xs as [|x xs IH]; intros b; cbn; [done|]. by rewrite IH. Qed.

Lemma borrow_marks_small xs : ∀ b i, borrow_marks b xs !! i = Some true → ∃ x, xs !! i = Some x ∧ x ≤ 1.
Proof.
  induction xs as [|x xs IH]; intros b i; [done|]. destruct i as [|i]; cbn; [|apply IH].
  intros [= Hx%Z.ltb_lt]. pose proof (b2z_bound b). exists x. split; [done|lia].
Qed.

Lemma borrow_marks_zero xs : ∀ b i, xs !! i = Some 0 → borrow_marks b xs !! i = Some true.
Proof.
  induction xs as [|x xs IH]; intros b i; [done|]. destruct i as [|i]; cbn; [|apply IH].
  intros [= ->]. f_equal. apply Z.ltb_lt. pose proof (b2z_bound b). lia.
Qed.

Lemma borrow_marks_real xs : ∀ b,
  Forall (fits 8) xs → existsb id (borrow_marks b xs) = true → b = true ∨ 0 ∈ xs.
Proof.
  induction xs as [|x xs IH]; intros b Hxs; [done|]. apply Forall_cons in Hxs as [[Hx _] Hxs]. cbn [borrow_marks existsb id].
  destruct (Z.ltb_spec x (1 + Z.b2z b)) as [Hlt|Hge]; cbn [orb].
  - intros _. destruct b; [by left|]. right. cbn [Z.b2z] in Hlt. assert (x = 0) as -> by lia. left.
  - intros [|]%(IH false Hxs); [done|]. right. by right.
Qed.

(** A byte that differs from the sought one in the lowest bit at most is full. *)
Lemma xor_byte h c :
  0 ≤ h < 128 → ctrl_valid c →
  fits 8 (Z.lxor (u8 c) h) ∧ (Z.lxor (u8 c) h ≤ 1 → 0 ≤ c) ∧ (Z.lxor (u8 c) h = 0 ↔ c = h).
Proof.
  intros Hh Hc. assert (fits 8 h) as Hf by (split; [lia|]; change (2 ^ 8) with 256; lia).
  split; [apply fits_lxor; [done|by apply fits_wrap|done]|].
  assert (u8 c = h ↔ c = h) as Heq.
  { destruct Hc as [Hc|[->|[->| ->]]]; [|vm_compute (u8 _); unfold kEmpty, kDeleted, kSentinel; lia..].
    rewrite wrap_small; [done|]. split; [lia|]. change (2 ^ 8) with 256. lia. }
  split; [|by rewrite Z.lxor_eq_0_iff].
  intros Hle. destruct (Z.lt_ge_cases c 0) as [Hneg|]; [|done]. exfalso.
  assert (Z.testbit (Z.lxor (u8 c) h) 7 = true) as Hbit.
  { rewrite Z.lxor_spec, (full_top_bit h) by done. destruct Hc as [Hc|[->|[->| ->]]]; [lia|done..]. }
  assert (fits 7 (Z.lxor (u8 c) h)) as H7.
  { split; [|change (2 ^ 7) with 128; lia]. apply Z.lxor_nonneg. pose proof (fits_wrap 8 c ltac:(done)) as [? _]. lia. }
  apply fits_testbit in H7 as [_ H7]; [|done]. rewrite H7 in Hbit by done. done.
Qed.

Lemma portable_Match_val l h :
  length l = 8%nat → Forall ctrl_valid l → 0 ≤ h < 128 →
  portable_Match l h = mask_val 3 (borrow_marks false ((λ c, Z.lxor (u8 c) h) <$> l)).
Proof.
  intros Hl Hv Hh. set (xs := (λ c, Z.lxor (u8 c) h) <$> l).
  assert (Forall (fits 8) xs) as Hxs.
  { apply Forall_fmap. eapply Forall_impl; [exact Hv|]. intros c Hc. by apply (xor_byte h c Hh). }
  assert (fits 8 h) as Hf by (split; [lia|]; change (2 ^ 8) with 256; lia).
  assert (Z.lxor (Load64 l) (u64 (lsbs * h)) = le_pack xs) as Hx.
  { assert (Forall (fits 8) (replicate 8 h)) as Hr by (by apply Forall_replicate).
    replace (u64 (lsbs * h)) with (le_pack (replicate 8 h)).
    2:{ rewrite wrap_small by (unfold lsbs; split; lia). unfold lsbs. cbn [le_pack foldr replicate]. lia. }
    apply word_ext; [apply fits_lxor; [done|by apply Load64_fits|by apply le_pack_fits]| |].
    { apply le_pack_fits; [by unfold xs; rewrite length_fmap|done]. }
    intros i j Hi Hj. destruct (lookup_lt_is_Some_2 l i ltac:(lia)) as [c Hc].
    rewrite Z.lxor_spec, (Load64_bits l i j c), (le_pack_bits _ Hr), (le_pack_bits _ Hxs), lookup_replicate_2 by done.
    unfold xs. rewrite list_lookup_fmap, Hc. cbn [fmap option_fmap option_map]. rewrite Z.lxor_spec. f_equal.
    unfold wrap. by rewrite Z.mod_pow2_bits_low by lia. }
  unfold portable_Match. rewrite Hx. rewrite mask_val_pack. rewrite <-borrow_word by done. cbn zeta.
  replace (length xs) with 8%nat by (unfold xs; by rewrite length_fmap).
  change (8 * Z.of_nat 8) with 64. change (le_pack (replicate 8 1)) with lsbs. change (le_pack (replicate 8 128)) with msbs.
  cbn [Z.b2z]. by rewrite Z.sub_0_r.
Qed.

Lemma portable_marks l h :
  Forall ctrl_valid l → 0 ≤ h < 128 → match_marks l h (borrow_marks false ((λ c, Z.lxor (u8 c) h) <$> l)).
Proof.
  intros Hv Hh. rewrite Forall_forall in Hv. split.
  - by rewrite borrow_marks_length, length_fmap.
  - intros i (x & Hx & Hle)%borrow_marks_small. rewrite list_lookup_fmap in Hx.
    destruct (l !! i) as [c|] eqn:Hi; [|done]. injection Hx as <-. exists c. split; [done|].
    apply (xor_byte h c Hh); [|done]. apply Hv. by eapply list_elem_of_lookup_2.
  - intros i Hi. apply borrow_marks_zero. rewrite list_lookup_fmap, Hi. cbn. f_equal.
    apply (xor_byte h h Hh); [|done]. by left.
  - intros [|Hin]%borrow_marks_real; [done| |].
    + apply list_elem_of_fmap in Hin as (c & Hc & Hin). symmetry in Hc. apply xor_byte in Hc as ->; [done|done|by apply Hv].
    + apply Forall_fmap, Forall_forall. intros c Hc. apply (xor_byte h c Hh). by apply Hv.
Qed.

#[export] Instance GroupPortableLaws : GroupLaws GroupPortableImpl.
Proof.
  assert (∀ l : list Z, Z.of_nat (length l) = 8 → length l = 8%nat) as H8 by (intros l; lia).
  split; cbn.
  - by left.
  - done.
  - lia.
  - intros l h Hl%H8 Hv Hh. eexists. split; [by apply portable_Match_val|by apply portable_marks].
  - intros l Hl%H8. by apply portable_MatchEmpty_val.
  - intros l Hl%H8. by apply portable_MatchEmptyOrDeleted_val.
  - intros l Hl%H8. by apply portable_CountLeading_val.
  - intros l Hl%H8. by apply portable_Convert_val.
Qed.
