(* ===== verification/SwissTable.v ===== *)
(** * Abseil's flat hash map (absl/container/internal/raw_hash_set.h, raw_hash_map.h): data and operations

    An array of slots and an array of control bytes, whose first [kWidth] are repeated
    after the sentinel so that a group can be loaded anywhere. The address of the control
    bytes is mixed into the hash; memory, its addresses and the seed of a thread are the
    [platform], and how often they were asked for the [world]. A slot without an object
    is [None]. A failed assert and an access outside the arrays are [None]; with [NDEBUG],
    which the Makefile does not define, there are no asserts. Allocation succeeds. *)
From S2P Require Import Prelude Words BitArray SwissBits SwissGroup.

(** The address of each allocation, the byte an address holds before it is written, the
    addresses of the static empty group and of a thread's counter. *)
Record platform := Platform {
  Allocate : Z → Z;
  fresh_byte : Z → Z;
  empty_group_address : Z;
  counter_address : Z
}.

(** Allocations made, and the counter of [RandomSeed]. *)
Record world := World {
  allocations : Z;
  counter : Z
}.

Record raw_hash_set {K V : Type} := RawHashSet {
  ctrl_ : Z;
  ctrl_bytes : list Z;
  slots_ : list (option (K * V));
  size_ : Z;
  capacity_ : Z;
  growth_left : Z
}.
Arguments raw_hash_set : clear implicits.
Arguments RawHashSet {K V}.

Definition EmptyGroup : list Z := kSentinel :: replicate 15 kEmpty.

(** [probe_seq<Group::kWidth>] *)
Record probe_seq := ProbeSeq {
  mask_ : Z;
  offset_ : Z;
  index_ : Z
}.

Definition IsValidCapacity (n : Z) : bool := (Z.land (u64 (n + 1)) n =? 0) && (0 <? n).

Definition NormalizeCapacity (n : Z) : Z := if n =? 0 then 1 else Z.shiftr (2 ^ 64 - 1) (LeadingZeros 64 n).

Section swiss.
Context `{G : Group} {K V : Type} `{EqDecision K} `{EqDecision V}.
Context (hash_key : K → option Z) (NDEBUG : bool) (p : platform).

Abbreviation stable := (raw_hash_set K V).

Definition swiss_assert (c : bool) : option unit := if NDEBUG || c then Some () else None.

(** [probe_seq(hash, mask)], [offset(i)] and [next()] *)
Definition probe_start (hash mask : Z) : option probe_seq :=
  _ ← swiss_assert (Z.land (u64 (mask + 1)) mask =? 0); Some (ProbeSeq mask (Z.land hash mask) 0).

Definition seq_offset (s : probe_seq) (i : Z) : Z := Z.land (u64 (offset_ s + i)) (mask_ s).

Definition seq_next (s : probe_seq) : probe_seq :=
  let index := u64 (index_ s + kWidth) in
  ProbeSeq (mask_ s) (Z.land (u64 (offset_ s + index)) (mask_ s)) index.

Definition CapacityToGrowth (capacity : Z) : option Z :=
  _ ← swiss_assert (IsValidCapacity capacity);
  Some (if (kWidth =? 8) && (capacity =? 7) then 6 else capacity - capacity / 8).

(** The subtraction is that of an [int64_t]. *)
Definition GrowthToLowerboundCapacity (growth : Z) : option Z :=
  if (kWidth =? 8) && (growth =? 7) then Some 8
  else if to_i64 growth =? - 2 ^ 63 then None
  else Some (u64 (growth + u64 (Z.quot (to_i64 growth - 1) 7))).

(** The layout of the arrays, of which the assert is what matters here. *)
Definition MakeLayout (capacity : Z) : option unit := swiss_assert (IsValidCapacity capacity).

(** ** The arrays *)
Definition swiss_new : stable := RawHashSet (empty_group_address p) EmptyGroup [] 0 0 0.

Definition set_bytes (t : stable) (bytes : list Z) : stable :=
  RawHashSet (ctrl_ t) bytes (slots_ t) (size_ t) (capacity_ t) (growth_left t).

Definition set_slots (t : stable) (slots : list (option (K * V))) : stable :=
  RawHashSet (ctrl_ t) (ctrl_bytes t) slots (size_ t) (capacity_ t) (growth_left t).

Definition set_size (t : stable) (size growth : Z) : stable :=
  RawHashSet (ctrl_ t) (ctrl_bytes t) (slots_ t) size (capacity_ t) growth.

Definition load_group (bytes : list Z) (pos : Z) : option (list Z) := slice bytes pos (Z.to_nat kWidth).

Definition store_bytes (bytes : list Z) (pos : Z) (l : list Z) : option (list Z) :=
  if (0 <=? pos) && (pos + Z.of_nat (length l) <=? Z.of_nat (length bytes))
  then Some (take (Z.to_nat pos) bytes ++ l ++ drop (Z.to_nat pos + length l) bytes) else None.

(** The object in a slot. *)
Definition slot_at (t : stable) (i : Z) : option (K * V) := if 0 <=? i then mjoin (slots_ t !! Z.to_nat i) else None.

Definition set_slot (t : stable) (i : Z) (x : option (K * V)) : option stable :=
  if (0 <=? i) && (i <? Z.of_nat (length (slots_ t))) then Some (set_slots t (<[Z.to_nat i := x]> (slots_ t))) else None.

Definition is_small (t : stable) : bool := capacity_ t <? kWidth - 1.

Definition set_ctrl (t : stable) (i h : Z) : option stable :=
  _ ← swiss_assert (i <? capacity_ t);
  bytes ← arr_set (ctrl_bytes t) i h;
  bytes ← arr_set bytes (Z.land (u64 (i - kWidth)) (capacity_ t) + 1 + Z.land (kWidth - 1) (capacity_ t)) h;
  Some (set_bytes t bytes).

Definition reset_ctrl (t : stable) : option stable :=
  bytes ← store_bytes (ctrl_bytes t) 0 (replicate (Z.to_nat (capacity_ t + kWidth)) kEmpty);
  bytes ← arr_set bytes (capacity_ t) kSentinel;
  Some (set_bytes t bytes).

Definition reset_growth_left (t : stable) : option stable :=
  g ← CapacityToGrowth (capacity_ t); Some (set_size t (size_ t) (u64 (g - size_ t))).

(** [initialize_slots()] *)
Definition initialize_slots (t : stable) (w : world) : option (stable * world) :=
  _ ← swiss_assert (negb (capacity_ t =? 0));
  _ ← MakeLayout (capacity_ t);
  let address := Allocate p (allocations w) in
  let bytes := (λ i, fresh_byte p (address + i)) <$> seqZ 0 (capacity_ t + kWidth + 1) in
  let t := RawHashSet address bytes (replicate (Z.to_nat (capacity_ t)) None) (size_ t) (capacity_ t) (growth_left t) in
  t ← reset_ctrl t;
  t ← reset_growth_left t;
  Some (t, World (allocations w + 1) (counter w)).

(** [raw_hash_set(bucket_count)] *)
Definition swiss_new_count (bucket_count : Z) (w : world) : option (stable * world) :=
  if bucket_count =? 0 then Some (swiss_new, w)
  else
    let t := RawHashSet (empty_group_address p) EmptyGroup [] 0 (NormalizeCapacity bucket_count) 0 in
    t ← reset_growth_left t;
    initialize_slots t w.

(** The objects of the full slots are destroyed. *)
Definition destroy_full (t : stable) : option stable :=
  for_loop (Z.to_nat (capacity_ t)) 0 (λ i t,
    c ← arr_get (ctrl_bytes t) i;
    if IsFull c then _ ← slot_at t i; set_slot t i None else Some t) t.

Definition destroy_slots (t : stable) : option stable :=
  if capacity_ t =? 0 then Some t else _ ← destroy_full t; _ ← MakeLayout (capacity_ t); Some swiss_new.

Definition swiss_clear (t : stable) : option stable :=
  t ← (if 127 <? capacity_ t then destroy_slots t
       else if negb (capacity_ t =? 0) then
         t ← destroy_full t;
         t ← reset_ctrl (set_size t 0 (growth_left t));
         reset_growth_left t
       else Some t);
  _ ← swiss_assert (size_ t =? 0);
  Some t.

(** ** Iterators: a position, [None] for [end()] *)
Abbreviation iterator := (option Z).

Definition swiss_fuel (t : stable) : nat := S (Z.to_nat (capacity_ t)).

Fixpoint skip_loop (fuel : nat) (t : stable) (i : Z) : option Z :=
  c ← arr_get (ctrl_bytes t) i;
  if IsEmptyOrDeleted c then
    match fuel with
    | O => None
    | S fuel => g ← load_group (ctrl_bytes t) i; shift ← CountLeadingEmptyOrDeleted g; skip_loop fuel t (i + shift)
    end
  else Some i.

Definition skip_empty_or_deleted (t : stable) (i : Z) : option iterator :=
  i ← skip_loop (swiss_fuel t) t i;
  c ← arr_get (ctrl_bytes t) i;
  Some (if c =? kSentinel then None else Some i).

Definition swiss_begin (t : stable) : option iterator := skip_empty_or_deleted t 0.

Definition AssertIsFull (t : stable) (it : iterator) : option unit :=
  if NDEBUG then Some () else i ← it; c ← arr_get (ctrl_bytes t) i; swiss_assert (IsFull c).

Definition AssertIsValid (t : stable) (it : iterator) : option unit :=
  if NDEBUG then Some () else
  match it with None => Some () | Some i => c ← arr_get (ctrl_bytes t) i; swiss_assert (IsFull c) end.

(** [++it] and [*it] *)
Definition it_next (t : stable) (it : iterator) : option iterator :=
  _ ← AssertIsFull t it; i ← it; skip_empty_or_deleted t (i + 1).

Definition it_deref (t : stable) (it : iterator) : option (K * V) := _ ← AssertIsFull t it; i ← it; slot_at t i.

(** [it == end()] *)
Definition it_is_end (t : stable) (it : iterator) : option bool :=
  _ ← AssertIsValid t it; Some (if it is None then true else false).

(** The positions that [for (it = begin(); it != end(); ++it)] meets, and the objects there. *)
Fixpoint swiss_iterate (fuel : nat) (t : stable) (it : iterator) : option (list (Z * (K * V))) :=
  e ← it_is_end t it;
  if e : bool then Some []
  else
    match fuel with
    | O => None
    | S fuel =>
        i ← it; kv ← it_deref t it; it ← it_next t it; l ← swiss_iterate fuel t it; Some ((i, kv) :: l)
    end.

Definition swiss_elements (t : stable) : option (list (Z * (K * V))) :=
  b ← swiss_begin t; swiss_iterate (swiss_fuel t) t b.

(** ** Lookup *)
Definition swiss_probe (t : stable) (hash : Z) : option probe_seq := probe_start (H1 hash (ctrl_ t)) (capacity_ t).

(** The first of the slots that matches. *)
Fixpoint match_slots (t : stable) (eq : K * V → bool) (s : probe_seq) (l : list Z) : option (option Z) :=
  match l with
  | [] => Some None
  | i :: l =>
      kv ← slot_at t (seq_offset s i);
      if eq kv then Some (Some (seq_offset s i)) else match_slots t eq s l
  end.

Definition match_group (t : stable) (eq : K * V → bool) (hash : Z) (s : probe_seq) (g : list Z) : option (option Z) :=
  l ← mask_positions mask_bits mask_shift (Match g (H2 hash)); match_slots t eq s l.

(** The loop of [find] and of [find_or_prepare_insert]. *)
Fixpoint find_loop (fuel : nat) (t : stable) (eq : K * V → bool) (hash : Z) (s : probe_seq) : option (option Z) :=
  g ← load_group (ctrl_bytes t) (offset_ s);
  r ← match_group t eq hash s g;
  match r with
  | Some i => Some (Some i)
  | None =>
      if mask_bool (MatchEmpty g) then Some None
      else match fuel with O => None | S fuel => find_loop fuel t eq hash (seq_next s) end
  end.

Definition key_is (key : K) (kv : K * V) : bool := bool_decide (kv.1 = key).

Definition find_hash (t : stable) (key : K) (hash : Z) : option iterator :=
  s ← swiss_probe t hash; find_loop (swiss_fuel t) t (key_is key) hash s.

Definition swiss_find (t : stable) (key : K) : option iterator := hash ← hash_key key; find_hash t key hash.

Fixpoint has_element_loop (fuel : nat) (t : stable) (elem : K * V) (hash : Z) (s : probe_seq) : option bool :=
  g ← load_group (ctrl_bytes t) (offset_ s);
  r ← match_group t (λ kv, bool_decide (kv = elem)) hash s g;
  match r with
  | Some _ => Some true
  | None =>
      if mask_bool (MatchEmpty g) then Some false
      else
        let s := seq_next s in
        _ ← swiss_assert (index_ s <? capacity_ t);
        match fuel with O => None | S fuel => has_element_loop fuel t elem hash s end
  end.

Definition has_element (t : stable) (elem : K * V) : option bool :=
  hash ← hash_key elem.1; s ← swiss_probe t hash; has_element_loop (swiss_fuel t) t elem hash s.

(** ** Insertion *)

(** [RandomSeed], [ShouldInsertBackwards] (raw_hash_set.cc) *)
Definition RandomSeed (w : world) : Z * world :=
  let value := u64 (counter w + 1) in (Z.lxor value (counter_address p), World (allocations w) value).

Definition ShouldInsertBackwards (hash ctrl : Z) (w : world) : bool * world :=
  let '(seed, w) := RandomSeed w in (6 <? Z.lxor (H1 hash ctrl) seed `mod` 13, w).

(** The offset, the probe length and the world after [find_first_non_full]. *)
Fixpoint first_non_full_loop (fuel : nat) (t : stable) (hash : Z) (s : probe_seq) (w : world) : option (Z * Z * world) :=
  g ← load_group (ctrl_bytes t) (offset_ s);
  let mask := MatchEmptyOrDeleted g in
  if mask_bool mask then
    let '(backwards, w) := if negb NDEBUG && negb (is_small t) then ShouldInsertBackwards hash (ctrl_ t) w else (false, w) in
    if backwards : bool then Some (seq_offset s (HighestBitSet mask_bits mask_shift mask), index_ s, w)
    else i ← LowestBitSet mask_shift mask; Some (seq_offset s i, index_ s, w)
  else
    _ ← swiss_assert (index_ s <? capacity_ t);
    match fuel with O => None | S fuel => first_non_full_loop fuel t hash (seq_next s) w end.

Definition find_first_non_full (t : stable) (hash : Z) (w : world) : option (Z * Z * world) :=
  s ← swiss_probe t hash; first_non_full_loop (swiss_fuel t) t hash s w.

(** [PolicyTraits::transfer]: the object moves from one slot to another. *)
Definition transfer (t : stable) (new old : Z) : option stable :=
  kv ← slot_at t old; t ← set_slot t new (Some kv); set_slot t old None.

Definition swiss_resize (t : stable) (new_capacity : Z) (w : world) : option (stable * world) :=
  _ ← swiss_assert (IsValidCapacity new_capacity);
  '(nt, w) ← initialize_slots (RawHashSet (ctrl_ t) (ctrl_bytes t) (slots_ t) (size_ t) new_capacity (growth_left t)) w;
  r ← for_loop (Z.to_nat (capacity_ t)) 0 (λ i '(nt, w),
    c ← arr_get (ctrl_bytes t) i;
    if IsFull c then
      kv ← slot_at t i;
      hash ← hash_key kv.1;
      '(new_i, _, w) ← find_first_non_full nt hash w;
      nt ← set_ctrl nt new_i (H2 hash);
      nt ← set_slot nt new_i (Some kv);
      Some (nt, w)
    else Some (nt, w)) (nt, w);
  _ ← (if capacity_ t =? 0 then Some () else MakeLayout (capacity_ t));
  Some r.

(** [ConvertDeletedToEmptyAndFullToDeleted] *)
Definition ConvertDeletedToEmptyAndFullToDeleted (bytes : list Z) (capacity : Z) : option (list Z) :=
  c ← arr_get bytes capacity;
  _ ← swiss_assert (c =? kSentinel);
  _ ← swiss_assert (IsValidCapacity capacity);
  '(bytes, _) ← while (Z.to_nat capacity) (λ '(_, pos), negb (pos =? capacity + 1)) (λ '(bytes, pos),
    g ← load_group bytes pos;
    bytes ← store_bytes bytes pos (ConvertSpecialToEmptyAndFullToDeleted g);
    Some (bytes, pos + kWidth)) (bytes, 0);
  g ← load_group bytes 0;
  bytes ← store_bytes bytes (capacity + 1) g;
  arr_set bytes capacity kSentinel.

(** One turn of the loop of [drop_deletes_without_resize], at slot [i]; the next slot. *)
Definition drop_deletes_step (st : stable * Z * world) : option (stable * Z * world) :=
  let '(t, i, w) := st in
  c ← arr_get (ctrl_bytes t) i;
  if negb (IsDeleted c) then Some (t, i + 1, w)
  else
    kv ← slot_at t i;
    hash ← hash_key kv.1;
    '(new_i, _, w) ← find_first_non_full t hash w;
    s ← swiss_probe t hash;
    let probe_index pos := Z.land (u64 (pos - offset_ s)) (capacity_ t) / kWidth in
    if probe_index new_i =? probe_index i then t ← set_ctrl t i (H2 hash); Some (t, i + 1, w)
    else
      d ← arr_get (ctrl_bytes t) new_i;
      if IsEmpty d then
        t ← set_ctrl t new_i (H2 hash);
        t ← transfer t new_i i;
        t ← set_ctrl t i kEmpty;
        Some (t, i + 1, w)
      else
        _ ← swiss_assert (IsDeleted d);
        t ← set_ctrl t new_i (H2 hash);
        other ← slot_at t new_i;
        t ← set_slot t i (Some other);
        t ← set_slot t new_i (Some kv);
        Some (t, i, w).

Definition drop_deletes_without_resize (t : stable) (w : world) : option (stable * world) :=
  _ ← swiss_assert (IsValidCapacity (capacity_ t));
  _ ← swiss_assert (negb (is_small t));
  bytes ← ConvertDeletedToEmptyAndFullToDeleted (ctrl_bytes t) (capacity_ t);
  '(t, _, w) ← while (2 * Z.to_nat (capacity_ t)) (λ '(t, i, _), negb (i =? capacity_ t)) drop_deletes_step
    (set_bytes t bytes, 0, w);
  t ← reset_growth_left t;
  Some (t, w).

Definition rehash_and_grow_if_necessary (t : stable) (w : world) : option (stable * world) :=
  if capacity_ t =? 0 then swiss_resize t 1 w
  else
    g ← CapacityToGrowth (capacity_ t);
    if size_ t <=? g / 2 then drop_deletes_without_resize t w
    else swiss_resize t (u64 (capacity_ t * 2 + 1)) w.

Definition prepare_insert (t : stable) (hash : Z) (w : world) : option (stable * Z * world) :=
  '(target, _, w) ← find_first_non_full t hash w;
  c ← arr_get (ctrl_bytes t) target;
  '(t, target, w) ← (if (growth_left t =? 0) && negb (IsDeleted c) then
      '(t, w) ← rehash_and_grow_if_necessary t w;
      '(target, _, w) ← find_first_non_full t hash w;
      Some (t, target, w)
    else Some (t, target, w));
  c ← arr_get (ctrl_bytes t) target;
  let t := set_size t (u64 (size_ t + 1)) (u64 (growth_left t - Z.b2z (IsEmpty c))) in
  t ← set_ctrl t target (H2 hash);
  Some (t, target, w).

(** The slot of the key, and whether it is to be filled. *)
Definition find_or_prepare_insert (t : stable) (key : K) (w : world) : option (stable * Z * bool * world) :=
  hash ← hash_key key;
  s ← swiss_probe t hash;
  r ← find_loop (swiss_fuel t) t (key_is key) hash s;
  match r with
  | Some i => Some (t, i, false, w)
  | None => '(t, i, w) ← prepare_insert t hash w; Some (t, i, true, w)
  end.

(** The assert looks the new object up. *)
Definition emplace_at (t : stable) (i : Z) (kv : K * V) : option stable :=
  t ← set_slot t i (Some kv);
  if NDEBUG then Some t
  else
    kv ← it_deref t (Some i);
    it ← swiss_find t kv.1;
    _ ← AssertIsValid t it; _ ← AssertIsValid t (Some i);
    _ ← swiss_assert (bool_decide (it = Some i));
    Some t.

(** [insert], [emplace], [try_emplace]: the slot of the key and whether it is new. *)
Definition swiss_emplace (t : stable) (kv : K * V) (w : world) : option (stable * Z * bool * world) :=
  '(t, i, new, w) ← find_or_prepare_insert t kv.1 w;
  if new : bool then t ← emplace_at t i kv; Some (t, i, true, w) else Some (t, i, false, w).

(** Assignment to the value of an iterator. *)
Definition it_assign (t : stable) (it : iterator) (v : V) : option stable :=
  kv ← it_deref t it; i ← it; set_slot t i (Some (kv.1, v)).

Definition swiss_insert_or_assign (t : stable) (key : K) (v : V) (w : world) : option (stable * bool * world) :=
  '(t, i, new, w) ← find_or_prepare_insert t key w;
  t ← (if new : bool then emplace_at t i (key, v) else it_assign t (Some i) v);
  Some (t, new, w).

(** [map[key] = v], where [dflt] is [V()] *)
Definition swiss_subscript_assign (dflt : V) (t : stable) (key : K) (v : V) (w : world) : option (stable * world) :=
  '(t, i, _, w) ← swiss_emplace t (key, dflt) w;
  t ← it_assign t (Some i) v;
  Some (t, w).

(** [insert(first, last)] *)
Fixpoint swiss_insert_range (t : stable) (l : list (K * V)) (w : world) : option (stable * world) :=
  match l with
  | [] => Some (t, w)
  | kv :: l => '(t, _, _, w) ← swiss_emplace t kv w; swiss_insert_range t l w
  end.

(** [insert(node_type&&)]: the node, when it was not taken. *)
Definition insert_node (t : stable) (node : option (K * V)) (w : world) : option (stable * bool * option (K * V) * world) :=
  match node with
  | None => Some (t, false, None, w)
  | Some kv =>
      '(t, i, new, w) ← find_or_prepare_insert t kv.1 w;
      if new : bool then t ← set_slot t i (Some kv); Some (t, true, None, w) else Some (t, false, Some kv, w)
  end.

(** [lazy_emplace(key, f)], where [f] constructs [kv] in the slot it is given: the slot of the key. *)
Definition lazy_emplace (t : stable) (key : K) (kv : K * V) (w : world) : option (stable * Z * world) :=
  '(t, i, new, w) ← find_or_prepare_insert t key w;
  t ← (if new : bool then set_slot t i (Some kv) else Some t);
  Some (t, i, w).

(** [raw_hash_set(first, last, bucket_count)] *)
Definition swiss_new_range (l : list (K * V)) (bucket_count : Z) (w : world) : option (stable * world) :=
  '(t, w) ← swiss_new_count bucket_count w; swiss_insert_range t l w.

(** ** What is found *)

(** [it->second] for what [find] returned *)
Definition swiss_find_value (t : stable) (key : K) : option (option V) :=
  it ← swiss_find t key;
  e ← it_is_end t it;
  if e : bool then Some None else kv ← it_deref t it; Some (Some kv.2).

Definition swiss_count (t : stable) (key : K) : option Z :=
  it ← swiss_find t key; e ← it_is_end t it; Some (if e : bool then 0 else 1).

Definition swiss_contains (t : stable) (key : K) : option bool :=
  it ← swiss_find t key; e ← it_is_end t it; Some (negb e).

Definition swiss_equal_range (t : stable) (key : K) : option (iterator * iterator) :=
  it ← swiss_find t key;
  e ← it_is_end t it;
  if e : bool then Some (it, it) else n ← it_next t it; Some (it, n).

(** [at], which throws for a key that is not there *)
Definition swiss_at (t : stable) (key : K) : option V :=
  it ← swiss_find t key; e ← it_is_end t it; if e : bool then None else kv ← it_deref t it; Some kv.2.

(** ** Erasure *)
Definition erase_meta_only (t : stable) (i : Z) : option stable :=
  c ← arr_get (ctrl_bytes t) i;
  _ ← swiss_assert (IsFull c);
  let index_before := Z.land (u64 (i - kWidth)) (capacity_ t) in
  after ← load_group (ctrl_bytes t) i;
  groups_before ← load_group (ctrl_bytes t) index_before;
  let empty_after := MatchEmpty after in
  let empty_before := MatchEmpty groups_before in
  was_never_full ← (if mask_bool empty_before && mask_bool empty_after then
      tz ← mask_TrailingZeros mask_shift empty_after;
      Some (tz + mask_LeadingZeros mask_bits kWidth mask_shift empty_before <? kWidth)
    else Some false);
  t ← set_ctrl t i (if was_never_full : bool then kEmpty else kDeleted);
  Some (set_size t (u64 (size_ t - 1)) (u64 (growth_left t + Z.b2z was_never_full))).

(** [erase(it)] *)
Definition swiss_erase_at (t : stable) (it : iterator) : option stable :=
  _ ← AssertIsFull t it;
  i ← it;
  _ ← slot_at t i;
  t ← set_slot t i None;
  erase_meta_only t i.

Definition swiss_erase (t : stable) (key : K) : option (stable * Z) :=
  it ← swiss_find t key;
  e ← it_is_end t it;
  if e : bool then Some (t, 0) else t ← swiss_erase_at t it; Some (t, 1).

(** [EraseIf(pred, c)] *)
Fixpoint erase_if_loop (fuel : nat) (pred : K * V → bool) (t : stable) (it : iterator) : option stable :=
  e ← it_is_end t it;
  if e : bool then Some t
  else
    match fuel with
    | O => None
    | S fuel =>
        next ← it_next t it;
        kv ← it_deref t it;
        t ← (if pred kv then swiss_erase_at t it else Some t);
        erase_if_loop fuel pred t next
    end.

Definition erase_if (pred : K * V → bool) (t : stable) : option stable :=
  b ← swiss_begin t; erase_if_loop (swiss_fuel t) pred t b.

(** [erase(first, last)] *)
Fixpoint swiss_erase_range (fuel : nat) (t : stable) (first last : iterator) : option stable :=
  _ ← AssertIsValid t first;
  _ ← AssertIsValid t last;
  if bool_decide (first = last) then Some t
  else
    match fuel with
    | O => None
    | S fuel => next ← it_next t first; t ← swiss_erase_at t first; swiss_erase_range fuel t next last
    end.

(** [erase(begin(), end())] *)
Definition swiss_erase_all (t : stable) : option stable := b ← swiss_begin t; swiss_erase_range (swiss_fuel t) t b None.

(** [extract(key)]: the object in a node. *)
Definition swiss_extract (t : stable) (key : K) : option (stable * option (K * V)) :=
  it ← swiss_find t key;
  e ← it_is_end t it;
  if e : bool then Some (t, None)
  else
    _ ← AssertIsFull t it;
    i ← it;
    kv ← slot_at t i;
    t ← set_slot t i None;
    t ← erase_meta_only t i;
    Some (t, Some kv).

(** ** Whole tables *)
Definition swiss_rehash (t : stable) (n : Z) (w : world) : option (stable * world) :=
  if (n =? 0) && (capacity_ t =? 0) then Some (t, w)
  else if (n =? 0) && (size_ t =? 0) then t ← destroy_slots t; Some (t, w)
  else
    lower ← GrowthToLowerboundCapacity (size_ t);
    let m := NormalizeCapacity (Z.lor n lower) in
    if (n =? 0) || (capacity_ t <? m) then swiss_resize t m w else Some (t, w).

Definition swiss_reserve (t : stable) (n : Z) (w : world) : option (stable * world) :=
  m ← GrowthToLowerboundCapacity n; swiss_rehash t m w.

(** The copy constructor: the objects are known to be different. *)
Fixpoint copy_elements (t : stable) (l : list (K * V)) (w : world) : option (stable * world) :=
  match l with
  | [] => Some (t, w)
  | v :: l =>
      hash ← hash_key v.1;
      '(target, _, w) ← find_first_non_full t hash w;
      t ← set_ctrl t target (H2 hash);
      t ← emplace_at t target v;
      copy_elements t l w
  end.

Definition swiss_copy (that : stable) (w : world) : option (stable * world) :=
  '(t, w) ← swiss_reserve swiss_new (size_ that) w;
  l ← swiss_elements that;
  '(t, w) ← copy_elements t (l.*2) w;
  Some (set_size t (size_ that) (u64 (growth_left t - size_ that)), w).

(** The move constructor: the new table, and the one that is left. *)
Definition swiss_move (that : stable) : stable * stable := (that, swiss_new).

(** Copy assignment: [raw_hash_set tmp(that); swap(tmp);], after which the old objects are destroyed. *)
Definition swiss_assign (t that : stable) (w : world) : option (stable * world) :=
  '(tmp, w) ← swiss_copy that w; _ ← destroy_slots t; Some (tmp, w).

(** Move assignment: the table, and the one that is left. *)
Definition swiss_move_assign (t that : stable) : option (stable * stable) :=
  let '(tmp, that) := swiss_move that in _ ← destroy_slots t; Some (tmp, that).

(** [merge(src)]: both tables. *)
Fixpoint merge_loop (fuel : nat) (t src : stable) (it : iterator) (w : world) : option (stable * stable * world) :=
  e ← it_is_end src it;
  if e : bool then Some (t, src, w)
  else
    match fuel with
    | O => None
    | S fuel =>
        next ← it_next src it;
        i ← it;
        kv ← slot_at src i;
        '(t, j, new, w) ← find_or_prepare_insert t kv.1 w;
        '(t, src) ← (if new : bool then
            t ← set_slot t j (Some kv);
            src ← set_slot src i None;
            src ← erase_meta_only src i; Some (t, src)
          else Some (t, src));
        merge_loop fuel t src next w
    end.

Definition swiss_merge (t src : stable) (w : world) : option (stable * stable * world) :=
  b ← swiss_begin src; merge_loop (swiss_fuel src) t src b w.

(** [operator==]: the elements of the table with the smaller capacity are looked up in the other. *)
Fixpoint all_in (t : stable) (l : list (K * V)) : option bool :=
  match l with
  | [] => Some true
  | kv :: l => b ← has_element t kv; if b : bool then all_in t l else Some false
  end.

Definition swiss_equal (a b : stable) : option bool :=
  if negb (size_ a =? size_ b) then Some false
  else
    let '(outer, inner) := if capacity_ b <? capacity_ a then (b, a) else (a, b) in
    l ← swiss_elements outer;
    all_in inner (l.*2).
End swiss.
