(* ===== verification/SwissShape.v ===== *)
(** * The groups a probe looks at, and the control bytes they load (absl: raw_hash_set.h)

    The positions of a table are counted modulo [n], its capacity and one for the sentinel.
    The [m]-th group of a probe starts at [h + kWidth * tri m] and covers the next [kWidth]
    positions. In a table of at least one group's width, the groups of the first [n / kWidth]
    probes cover every position, each once; in a smaller one a single group covers all.

    Then the shape of the control bytes: the sentinel, the mirrored bytes behind it, and that
    a load of a group sees the bytes of the positions it covers. *)
From S2P Require Import Prelude Words BitArray DenseProbe SwissBits SwissGroup SwissTable.

Section windows.
Context (W n : Z).

(** Where the [m]-th group of a probe starts, and whether it covers a position. *)
Definition window (h m : Z) : Z := (h + W * tri m) `mod` n.

Definition covers (h m q : Z) : Prop := (q - window h m) `mod` n < W.

(** How many groups a probe looks at before they repeat. *)
Definition probe_groups : Z := Z.max 1 (n / W).

(** The sizes a table can have. *)
Definition table_size : Prop := (0 < n ∧ 2 * n ≤ W) ∨ ∃ g, 0 ≤ g ∧ n = W * 2 ^ g.

Context (HW : 0 < W) (Hn : table_size).

Lemma size_pos : 0 < n.
Proof using HW Hn. destruct Hn as [[? _]|(g & Hg & ->)]; [done|]. assert (0 < 2 ^ g) by lia. nia. Qed.

Lemma window_range h m : 0 ≤ window h m < n.
Proof using HW Hn. apply Z.mod_pos_bound, size_pos. Qed.

Lemma window_0 h : window h 0 = h `mod` n.
Proof using. unfold window. change (tri 0) with 0. by rewrite Z.mul_0_r, Z.add_0_r. Qed.

Lemma window_succ h m : (window h m + W * (m + 1)) `mod` n = window h (m + 1).
Proof using. unfold window. rewrite Zplus_mod_idemp_l, tri_succ. f_equal. lia. Qed.

Lemma probe_groups_large g : 0 ≤ g → n = W * 2 ^ g → probe_groups = 2 ^ g.
Proof using HW. intros Hg Hng. unfold probe_groups. rewrite Hng, Z.mul_comm, Z.div_mul by lia. lia. Qed.

Lemma probe_groups_small : 2 * n ≤ W → probe_groups = 1.
Proof using HW Hn. intros Hs. pose proof size_pos. unfold probe_groups. rewrite Z.div_small; lia. Qed.

(** In a large table a group is one block of [kWidth] positions, counted from the start of the probe. *)
Lemma covers_block g h m q :
  0 ≤ g → n = W * 2 ^ g → covers h m q ↔ (q - h) `mod` n / W = tri m `mod` 2 ^ g.
Proof using HW Hn.
  intros Hg Hng. pose proof size_pos as Hpos. assert (0 < 2 ^ g) as H2 by lia. unfold covers, window.
  rewrite Zminus_mod_idemp_r. replace (q - (h + W * tri m)) with (q - h - W * tri m) by lia.
  rewrite <-Zminus_mod_idemp_l. set (r := (q - h) `mod` n). pose proof (Z.mod_pos_bound (q - h) n Hpos) as Hr. fold r in Hr.
  pose proof (Z.div_mod r W ltac:(lia)) as Hdm. pose proof (Z.mod_pos_bound r W HW) as He.
  set (b := r / W) in *. set (e := r `mod` W) in *.
  assert (0 ≤ b < 2 ^ g) as Hb by (rewrite Hng in Hr; nia).
  replace ((r - W * tri m) `mod` n) with (W * ((b - tri m) `mod` 2 ^ g) + e).
  2:{ replace (r - W * tri m) with (e + W * (b - tri m)) by lia. rewrite Hng.
      rewrite Z.rem_mul_r by lia. rewrite (Z.mul_comm W (b - tri m)), Z_mod_plus_full, Z.div_add by lia.
      rewrite (Z.mod_small e W), (Z.div_small e W), Z.add_0_l by done. lia. }
  pose proof (Z.mod_pos_bound (b - tri m) (2 ^ g) H2) as Hm. split.
  - intros Hlt. assert ((b - tri m) `mod` 2 ^ g = 0) as H0 by nia.
    rewrite <-(Z.mod_small b (2 ^ g)) by done. replace b with (b - tri m + tri m) by lia.
    by rewrite <-Zplus_mod_idemp_l, H0.
  - intros ->. rewrite Zminus_mod_idemp_l, Z.sub_diag, Z.mod_0_l by lia. lia.
Qed.

Lemma covers_exists h q : 0 ≤ q < n → ∃ m, 0 ≤ m < probe_groups ∧ covers h m q.
Proof using HW Hn.
  intros Hq. pose proof size_pos as Hpos. destruct Hn as [[_ Hs]|(g & Hg & Hng)].
  - exists 0. rewrite probe_groups_small by done. split; [done|]. unfold covers.
    pose proof (Z.mod_pos_bound (q - window h 0) n Hpos). lia.
  - pose proof (Z.mod_pos_bound (q - h) n Hpos) as Hr. assert (0 < 2 ^ g) by lia.
    destruct (probe_pos_cover g 0 ((q - h) `mod` n / W) Hg) as (m & Hm & Hpm).
    { split; [apply Z.div_pos; lia|]. apply Z.div_lt_upper_bound; [done|]. rewrite <-Hng. lia. }
    exists m. rewrite (probe_groups_large g) by done. split; [done|]. apply (covers_block g); [done..|].
    by rewrite <-Hpm.
Qed.

(** The byte of a group that stands for a position it covers. *)
Lemma covers_byte h m q :
  0 ≤ q < n → covers h m q →
  let j := (q - window h m) `mod` n in
  0 ≤ j < W ∧ (window h m + j) `mod` n = q ∧ window h m + j ≤ 2 * (n - 1).
Proof using HW Hn.
  intros Hq Hc j. pose proof size_pos as Hpos. pose proof (Z.mod_pos_bound (q - window h m) n Hpos) as Hj. fold j in Hj.
  pose proof (window_range h m). split; [split; [lia|exact Hc]|]. split; [|lia].
  unfold j. rewrite Zplus_mod_idemp_r. replace (window h m + (q - window h m)) with q by lia. by apply Z.mod_small.
Qed.

Lemma byte_covers h m j : 0 ≤ j < W → covers h m ((window h m + j) `mod` n).
Proof using HW Hn.
  intros Hj. pose proof size_pos as Hpos. unfold covers. rewrite Zminus_mod_idemp_l.
  replace (window h m + j - window h m) with j by lia. pose proof (Z.mod_le j n). lia.
Qed.

(** The same block, the same group: how [drop_deletes_without_resize] compares two positions. *)
Lemma same_block_covers h m q q' :
  2 * n > W → (q - h) `mod` n / W = (q' - h) `mod` n / W → covers h m q → covers h m q'.
Proof using HW Hn.
  intros Hl Heq. destruct Hn as [[_ Hs]|(g & Hg & Hng)]; [lia|]. rewrite !(covers_block g) by done. by rewrite Heq.
Qed.
End windows.

(** * The control bytes of a flat hash map

    [shape] says that the capacity is a power of two less one, that the bytes after the
    sentinel repeat the first ones and are empty where those run out, and that no slot has
    a sentinel. Then a group can be loaded at every position, the masks of the group tell
    which positions it covers, and writing a byte keeps the repetition. *)

Definition capacity_ok (cap : Z) : Prop := ∃ k, 0 ≤ k < 62 ∧ cap = 2 ^ k - 1.

(** A control byte; those outside the array are not read. *)
Definition ctrl_at {K V} (t : raw_hash_set K V) (q : Z) : Z := default 0 (arr_get (ctrl_bytes t) q).

(** The start of the probe of a hash in a table. *)
Definition probe_start_of {K V} (t : raw_hash_set K V) (hash : Z) : Z := H1 hash (ctrl_ t).

Record shape `{G : Group} {K V} (t : raw_hash_set K V) : Prop := Shape {
  sh_cap : capacity_ok (capacity_ t);
  sh_len : capacity_ t + kWidth + Z.min 1 (capacity_ t) ≤ Z.of_nat (length (ctrl_bytes t));
  sh_cyc q : 0 ≤ q < capacity_ t + kWidth →
    ctrl_at t q = if q <=? 2 * capacity_ t then ctrl_at t (q `mod` (capacity_ t + 1)) else kEmpty;
  sh_sentinel : ctrl_at t (capacity_ t) = kSentinel;
  sh_valid q : 0 ≤ q < capacity_ t → ctrl_valid (ctrl_at t q) ∧ ctrl_at t q ≠ kSentinel;
  sh_slots : Z.of_nat (length (slots_ t)) = capacity_ t
}.

Section capacities.
Context `{L : GroupLaws}.

Lemma kWidth_pos : 0 < kWidth.
Proof using L. destruct kWidth_cases as [-> | ->]; lia. Qed.

Lemma capacity_size cap : capacity_ok cap → table_size kWidth (cap + 1).
Proof using L.
  intros (k & Hk & ->). assert (∃ w, 0 ≤ w ∧ kWidth = 2 ^ w) as (w & Hw & HW).
  { destruct kWidth_cases as [-> | ->]; [by exists 3|by exists 4]. }
  replace (2 ^ k - 1 + 1) with (2 ^ k) by lia. destruct (Z.lt_ge_cases k w) as [Hlt|Hge].
  - left. split; [lia|]. rewrite HW, <-Z.pow_succ_r by lia. apply Z.pow_le_mono_r; lia.
  - right. exists (k - w). split; [lia|]. rewrite HW, <-Z.pow_add_r by lia. f_equal. lia.
Qed.

Lemma capacity_range cap : capacity_ok cap → 0 ≤ cap < 2 ^ 61.
Proof using.
  intros (k & Hk & ->). assert (0 < 2 ^ k) by lia. assert (2 ^ k ≤ 2 ^ 61) by (apply Z.pow_le_mono_r; lia). lia.
Qed.

(** The mask of a capacity takes the remainder. *)
Lemma capacity_mask cap z : capacity_ok cap → Z.land z cap = z `mod` (cap + 1).
Proof using.
  intros (k & Hk & ->). rewrite land_ones_wrap by lia. unfold wrap. f_equal. lia.
Qed.

Lemma capacity_mask_u64 cap z : capacity_ok cap → Z.land (u64 z) cap = z `mod` (cap + 1).
Proof using.
  intros Hc. rewrite capacity_mask by done. destruct Hc as (k & Hk & ->). replace (2 ^ k - 1 + 1) with (2 ^ k) by lia.
  unfold wrap. replace (2 ^ 64) with (2 ^ k * 2 ^ (64 - k)) by (rewrite <-Z.pow_add_r by lia; f_equal; lia).
  assert (0 < 2 ^ k ∧ 0 < 2 ^ (64 - k)) by lia. rewrite Z.rem_mul_r by lia.
  by rewrite (Z.mul_comm (2 ^ k)), Z_mod_plus_full, Zmod_mod.
Qed.

Lemma capacity_is_mask cap : capacity_ok cap → Z.land (u64 (cap + 1)) cap = 0.
Proof using.
  intros Hc. rewrite capacity_mask_u64 by done. pose proof (capacity_range cap Hc). apply Z.mod_same. lia.
Qed.

Lemma IsValidCapacity_ok cap : capacity_ok cap → 0 < cap → IsValidCapacity cap = true.
Proof using.
  intros Hc Hp. unfold IsValidCapacity. rewrite capacity_is_mask by done. by apply Z.ltb_lt in Hp as ->.
Qed.

Lemma assert_true NDEBUG c : c = true → swiss_assert NDEBUG c = Some ().
Proof using. intros ->. unfold swiss_assert. by rewrite orb_true_r. Qed.
End capacities.

(** [assert_ok] passes the asserts whose condition it can prove. *)
Ltac assert_ok := rewrite assert_true by (first [done|assumption|apply Z.ltb_lt; lia|apply Z.leb_le; lia|idtac]).

Section shape.
Context `{L : GroupLaws} {K V : Type}.
Implicit Types t : raw_hash_set K V.
Abbreviation cyc t := (capacity_ t + 1).

Lemma shape_size t : shape t → table_size kWidth (cyc t).
Proof using L. intros H. apply capacity_size, H. Qed.

Lemma shape_range t : shape t → 0 ≤ capacity_ t < 2 ^ 61.
Proof using. intros H. apply capacity_range, H. Qed.

(** The bytes of a group *)
Definition group_at t (o : Z) : list Z := (λ j, ctrl_at t (o + j)) <$> seqZ 0 kWidth.

Lemma group_at_length t o : Z.of_nat (length (group_at t o)) = kWidth.
Proof using L. pose proof kWidth_pos. unfold group_at. rewrite length_fmap, length_seqZ. lia. Qed.

Lemma group_at_lookup t o i c :
  group_at t o !! i = Some c ↔ Z.of_nat i < kWidth ∧ c = ctrl_at t (o + Z.of_nat i).
Proof using.
  unfold group_at. rewrite list_lookup_fmap. destruct (seqZ 0 kWidth !! i) as [j|] eqn:Hj; cbn.
  - apply lookup_seqZ in Hj as [-> Hlt]. rewrite Z.add_0_l. intuition congruence.
  - apply lookup_ge_None in Hj. rewrite length_seqZ in Hj. split; [done|]. lia.
Qed.

Lemma ctrl_at_lookup t q : shape t → 0 ≤ q < capacity_ t + kWidth → ctrl_bytes t !! Z.to_nat q = Some (ctrl_at t q).
Proof using.
  intros H Hq. pose proof (sh_len t H). pose proof (shape_range t H). unfold ctrl_at, arr_get. rewrite (proj2 (Z.leb_le 0 q)) by lia.
  destruct (lookup_lt_is_Some_2 (ctrl_bytes t) (Z.to_nat q)) as [c Hc]; [lia|]. by rewrite Hc.
Qed.

Lemma arr_get_ctrl t q : shape t → 0 ≤ q < capacity_ t + kWidth → arr_get (ctrl_bytes t) q = Some (ctrl_at t q).
Proof using. intros H Hq. apply arr_get_lookup; [lia|]. by apply ctrl_at_lookup. Qed.

Lemma load_group_at t o : shape t → 0 ≤ o ≤ capacity_ t → load_group (ctrl_bytes t) o = Some (group_at t o).
Proof using L.
  intros H Ho. pose proof kWidth_pos. pose proof (sh_len t H). pose proof (shape_range t H).
  unfold load_group. rewrite slice_in_bounds by lia. f_equal. apply list_eq. intros i.
  destruct (decide (Z.of_nat i < kWidth)) as [Hi|Hi].
  - rewrite lookup_take_lt by lia. rewrite lookup_drop. replace (Z.to_nat o + i)%nat with (Z.to_nat (o + Z.of_nat i)) by lia.
    rewrite ctrl_at_lookup by (done || lia). symmetry. by apply group_at_lookup.
  - rewrite lookup_take_ge by lia. symmetry. apply lookup_ge_None. pose proof (group_at_length t o). lia.
Qed.

(** A byte of a group is that of the position it stands for, or one of the empty ones at the end. *)
Lemma group_byte t o j :
  shape t → 0 ≤ o ≤ capacity_ t → 0 ≤ j < kWidth →
  ctrl_at t (o + j) = if o + j <=? 2 * capacity_ t then ctrl_at t ((o + j) `mod` cyc t) else kEmpty.
Proof using. intros H Ho Hj. apply H. lia. Qed.

Lemma ctrl_at_valid t q : shape t → 0 ≤ q ≤ capacity_ t → ctrl_valid (ctrl_at t q).
Proof using.
  intros H Hq. destruct (decide (q = capacity_ t)) as [->|]; [rewrite (sh_sentinel t H); by right; right; right|].
  apply (sh_valid t H). lia.
Qed.

Lemma group_at_valid t o : shape t → 0 ≤ o ≤ capacity_ t → Forall ctrl_valid (group_at t o).
Proof using.
  intros H Ho. apply Forall_lookup. intros i c [Hi ->]%group_at_lookup. rewrite group_byte by (done || lia).
  destruct (o + Z.of_nat i <=? 2 * capacity_ t); [|by right; left]. apply ctrl_at_valid; [done|].
  pose proof (shape_range t H). pose proof (Z.mod_pos_bound (o + Z.of_nat i) (cyc t) ltac:(lia)). lia.
Qed.

(** In a small table every group has an empty byte. *)
Lemma small_group_empty t o :
  shape t → 0 ≤ o ≤ capacity_ t → 2 * cyc t ≤ kWidth → ctrl_at t (o + (2 * cyc t - 1 - o)) = kEmpty.
Proof using.
  intros H Ho Hs. rewrite group_byte by (done || lia). by rewrite (proj2 (Z.leb_gt _ _)) by lia.
Qed.

(** ** The masks of a group, by position *)
Section window.
Context (t : raw_hash_set K V) (H : shape t) (hash m : Z).
Abbreviation h := (probe_start_of t hash).
Abbreviation o := (window kWidth (cyc t) h m).
Abbreviation seen := (covers kWidth (cyc t) h m).

Lemma o_range : 0 ≤ o ≤ capacity_ t.
Proof using L H. pose proof (window_range kWidth (cyc t) kWidth_pos (shape_size t H) h m). lia. Qed.

(** A position that is covered has its byte in the group. *)
Lemma seen_byte q :
  0 ≤ q ≤ capacity_ t → seen q →
  ∃ i, Z.of_nat i < kWidth ∧ group_at t o !! i = Some (ctrl_at t q) ∧ (o + Z.of_nat i) `mod` cyc t = q.
Proof using L H.
  intros Hq Hs. pose proof o_range as Ho.
  destruct (covers_byte kWidth (cyc t) kWidth_pos (shape_size t H) h m q ltac:(lia) Hs) as ([Hj0 Hj1] & Hmod & Hle).
  set (j := (q - o) `mod` cyc t) in *. exists (Z.to_nat j). rewrite !Z2Nat.id by done. split; [done|]. split; [|done].
  apply group_at_lookup. rewrite Z2Nat.id by done. split; [done|]. rewrite group_byte by (done || lia).
  rewrite (proj2 (Z.leb_le _ _)) by lia. by rewrite Hmod.
Qed.

(** A byte of the group that is not one of the empty ones at the end belongs to a position it covers. *)
Lemma byte_seen i c :
  group_at t o !! i = Some c → c ≠ kEmpty →
  let q := (o + Z.of_nat i) `mod` cyc t in 0 ≤ q ≤ capacity_ t ∧ seen q ∧ ctrl_at t q = c.
Proof using L H.
  intros [Hi ->]%group_at_lookup Hne q. pose proof o_range as Ho. pose proof (shape_range t H).
  rewrite group_byte in Hne |- * by (done || lia).
  destruct (o + Z.of_nat i <=? 2 * capacity_ t); [|done]. pose proof (Z.mod_pos_bound (o + Z.of_nat i) (cyc t) ltac:(lia)).
  split; [unfold q; lia|]. split; [|done]. apply byte_covers; [apply kWidth_pos|by apply shape_size|lia].
Qed.

(** In a large table the empty bytes of the group are those of the positions too. *)
Lemma byte_seen_large i :
  kWidth < 2 * cyc t → Z.of_nat i < kWidth →
  let q := (o + Z.of_nat i) `mod` cyc t in
  0 ≤ q ≤ capacity_ t ∧ seen q ∧ group_at t o !! i = Some (ctrl_at t q).
Proof using L H.
  intros Hl Hi q. pose proof o_range as Ho. pose proof (shape_range t H) as Hc.
  pose proof (Z.mod_pos_bound (o + Z.of_nat i) (cyc t) ltac:(lia)).
  split; [unfold q; lia|]. split; [apply byte_covers; [apply kWidth_pos|by apply shape_size|lia]|].
  apply group_at_lookup. split; [done|]. rewrite group_byte by (done || lia).
  destruct (shape_size t H) as [[_ Hs]|(g & Hg & Hng)]; [lia|].
  assert (kWidth ≤ cyc t) as Hw by (assert (0 < 2 ^ g) by lia; pose proof kWidth_pos; nia).
  rewrite (proj2 (Z.leb_le _ _)); [done|]. destruct (decide (Z.of_nat i = 0)); lia.
Qed.
End window.
End shape.

(** * Writing control bytes

    [set_ctrl] writes a byte and its repetition, [reset_ctrl] makes every slot empty;
    both keep the shape of the array. *)

Section ctrl.
Context `{L : GroupLaws} {K V : Type}.
Context (NDEBUG : bool) (p : platform).
Implicit Types t : raw_hash_set K V.
Abbreviation cyc t := (capacity_ t + 1).

(** Where the repetition of a byte is, or the byte itself. *)
Lemma clone_index cap i :
  capacity_ok cap → 0 ≤ i < cap →
  Z.land (u64 (i - kWidth)) cap + 1 + Z.land (kWidth - 1) cap = if i <? kWidth then i + (cap + 1) else i.
Proof using L.
  intros Hc Hi. rewrite capacity_mask_u64, capacity_mask by done. pose proof kWidth_pos.
  destruct (capacity_size cap Hc) as [[Hn Hs]|(g & Hg & Hng)].
  - rewrite (proj2 (Z.ltb_lt i kWidth)) by lia.
    assert (∃ d, kWidth = (cap + 1) * d) as (d & Hd).
    { destruct Hc as (k & Hk & ->). replace (2 ^ k - 1 + 1) with (2 ^ k) in * by lia.
      assert (∃ w, 0 ≤ w ∧ kWidth = 2 ^ w) as (w & Hw & HW) by (destruct kWidth_cases as [-> | ->]; [by exists 3|by exists 4]).
      exists (2 ^ (w - k)). rewrite HW, <-Z.pow_add_r; [f_equal; lia|lia|].
      rewrite HW, <-Z.pow_succ_r in Hs by lia. apply Z.pow_le_mono_r_iff in Hs; lia. }
    replace (i - kWidth) with (i + (- d) * (cap + 1)) by lia. rewrite Z_mod_plus_full, Z.mod_small by lia.
    replace (kWidth - 1) with (cap + (d - 1) * (cap + 1)) by lia. rewrite Z_mod_plus_full, Z.mod_small by lia. lia.
  - assert (kWidth ≤ cap + 1) by (assert (0 < 2 ^ g) by lia; nia). rewrite (Z.mod_small (kWidth - 1)) by lia.
    destruct (Z.ltb_spec i kWidth).
    + rewrite <-(Z_mod_plus_full _ 1), Z.mod_small by lia. lia.
    + rewrite Z.mod_small by lia. lia.
Qed.

Lemma arr_set_ok a i v : 0 ≤ i < Z.of_nat (length a) → ∃ a', arr_set a i v = Some a' ∧ length a' = length a.
Proof using.
  intros Hi. unfold arr_set. rewrite (proj2 (Z.leb_le _ _)), (proj2 (Z.ltb_lt _ _)) by lia.
  eexists. split; [done|]. apply length_insert.
Qed.

(** Changing bytes at a position and at its repetition keeps the shape. *)
Lemma shape_update t t' i h :
  shape t → 0 ≤ i < capacity_ t → ctrl_valid h → h ≠ kSentinel →
  capacity_ t' = capacity_ t → length (ctrl_bytes t') = length (ctrl_bytes t) → length (slots_ t') = length (slots_ t) →
  (∀ q, 0 ≤ q < capacity_ t + kWidth →
    ctrl_at t' q = if q =? (if i <? kWidth then i + cyc t else i) then h else if q =? i then h else ctrl_at t q) →
  shape t' ∧ ∀ q, 0 ≤ q ≤ capacity_ t → ctrl_at t' q = if q =? i then h else ctrl_at t q.
Proof using L.
  intros H Hi Hv Hs Hc Hl Hsl Hq. pose proof kWidth_pos. pose proof (shape_range t H) as Hr.
  assert (∀ q, 0 ≤ q ≤ capacity_ t → ctrl_at t' q = if q =? i then h else ctrl_at t q) as Hpos.
  { intros q Hqr. rewrite Hq by lia. destruct (Z.ltb_spec i kWidth); [|by destruct (q =? i)].
    by rewrite (proj2 (Z.eqb_neq q (i + cyc t))) by lia. }
  split; [|done]. split; rewrite ?Hc, ?Hl, ?Hsl.
  - apply H.
  - apply H.
  - intros q Hqr. destruct (Z.leb_spec q (2 * capacity_ t)) as [Hle|Hgt].
    + destruct (decide (q ≤ capacity_ t)) as [Hlo|Hhi]; [by rewrite Z.mod_small by lia|].
      assert (q `mod` cyc t = q - cyc t) as Hm by (rewrite <-(Z_mod_plus_full _ (-1)), Z.mod_small by lia; lia).
      rewrite Hm, (Hpos (q - cyc t)), Hq by lia. rewrite (sh_cyc t H q Hqr), (proj2 (Z.leb_le _ _)), Hm by lia.
      rewrite (proj2 (Z.eqb_neq q i)) by lia.
      destruct (Z.ltb_spec i kWidth).
      * destruct (Z.eqb_spec q (i + cyc t)), (Z.eqb_spec (q - cyc t) i); done || lia.
      * rewrite (proj2 (Z.eqb_neq q i)), (proj2 (Z.eqb_neq (q - cyc t) i)) by lia. done.
    + rewrite Hq by done. rewrite (sh_cyc t H q Hqr), (proj2 (Z.leb_gt _ _)) by lia.
      rewrite (proj2 (Z.eqb_neq q i)) by lia. destruct (Z.ltb_spec i kWidth); by rewrite (proj2 (Z.eqb_neq q _)) by lia.
  - rewrite Hpos by lia. rewrite (proj2 (Z.eqb_neq _ i)) by lia. apply H.
  - intros q Hqr. rewrite Hpos by lia. destruct (q =? i); [done|]. by apply H.
  - apply H.
Qed.

Lemma set_ctrl_ok t i h :
  shape t → 0 ≤ i < capacity_ t → ctrl_valid h → h ≠ kSentinel →
  ∃ bytes, set_ctrl NDEBUG t i h = Some (set_bytes t bytes) ∧ shape (set_bytes t bytes) ∧
    ∀ q, 0 ≤ q ≤ capacity_ t → ctrl_at (set_bytes t bytes) q = if q =? i then h else ctrl_at t q.
Proof using L.
  intros H Hi Hv Hs. pose proof kWidth_pos. pose proof (sh_len t H) as Hl. unfold set_ctrl.
  rewrite assert_true by (apply Z.ltb_lt; lia). cbn [mbind option_bind]. rewrite clone_index by (done || apply H).
  destruct (arr_set_ok (ctrl_bytes t) i h) as (b1 & Hb1 & Hl1); [lia|]. rewrite Hb1. cbn [mbind option_bind].
  set (i2 := if i <? kWidth then i + cyc t else i).
  destruct (arr_set_ok b1 i2 h) as (b2 & Hb2 & Hl2); [unfold i2; destruct (Z.ltb_spec i kWidth); lia|].
  rewrite Hb2. cbn [mbind option_bind]. exists b2. split; [done|].
  apply (shape_update t (set_bytes t b2) i h); [done..|cbn; congruence|done|].
  intros q Hq. unfold ctrl_at. cbn [ctrl_bytes set_bytes]. rewrite (arr_get_set _ _ _ _ _ Hb2), (arr_get_set _ _ _ _ _ Hb1).
  fold i2. by destruct (q =? i2), (q =? i).
Qed.

(** An array of empty slots *)
Lemma reset_ctrl_ok t :
  capacity_ok (capacity_ t) → 0 < capacity_ t → capacity_ t + kWidth + 1 ≤ Z.of_nat (length (ctrl_bytes t)) →
  Z.of_nat (length (slots_ t)) = capacity_ t →
  ∃ bytes, reset_ctrl t = Some (set_bytes t bytes) ∧ shape (set_bytes t bytes) ∧
    ∀ q, 0 ≤ q < capacity_ t → ctrl_at (set_bytes t bytes) q = kEmpty.
Proof using L.
  intros Hc Hp Hl Hsl. pose proof kWidth_pos. pose proof (capacity_range _ Hc).
  unfold reset_ctrl, store_bytes. rewrite length_replicate.
  rewrite (proj2 (Z.leb_le _ _)) by lia. rewrite (proj2 (Z.leb_le _ _)) by lia. cbn [andb mbind option_bind].
  rewrite take_0. cbn [app]. set (b1 := replicate _ kEmpty ++ _).
  assert (length b1 = length (ctrl_bytes t)) as Hl1.
  { unfold b1. rewrite length_app, length_replicate, length_drop. lia. }
  destruct (arr_set_ok b1 (capacity_ t) kSentinel) as (b2 & Hb2 & Hl2); [lia|]. rewrite Hb2. cbn [mbind option_bind].
  exists b2. split; [done|].
  assert (∀ q, 0 ≤ q < capacity_ t + kWidth → ctrl_at (set_bytes t b2) q = if q =? capacity_ t then kSentinel else kEmpty) as Hq.
  { intros q Hq. unfold ctrl_at. cbn [ctrl_bytes set_bytes]. rewrite (arr_get_set _ _ _ _ _ Hb2). destruct (q =? capacity_ t); [done|].
    unfold arr_get. rewrite (proj2 (Z.leb_le 0 q)) by lia. unfold b1. rewrite lookup_app_l by (rewrite length_replicate; lia).
    by rewrite lookup_replicate_2 by lia. }
  split.
  2:{ intros q Hqr. rewrite Hq by lia. by rewrite (proj2 (Z.eqb_neq _ _)) by lia. }
  split; cbn [capacity_ ctrl_bytes slots_ set_bytes].
  - done.
  - lia.
  - intros q Hqr. rewrite Hq by done. destruct (Z.leb_spec q (2 * capacity_ t)) as [Hle|Hgt].
    + destruct (decide (q ≤ capacity_ t)) as [Hlo|Hhi]; [rewrite Z.mod_small by lia; by rewrite Hq by lia|].
      assert (q `mod` cyc t = q - cyc t) as Hm by (rewrite <-(Z_mod_plus_full _ (-1)), Z.mod_small by lia; lia).
      rewrite Hm, (Hq (q - cyc t)) by lia. by rewrite !(proj2 (Z.eqb_neq _ _)) by lia.
    + by rewrite (proj2 (Z.eqb_neq _ _)) by lia.
  - rewrite Hq by lia. by rewrite Z.eqb_refl.
  - intros q Hqr. rewrite Hq by lia. rewrite (proj2 (Z.eqb_neq _ _)) by lia. split; [by right; left|done].
  - done.
Qed.

(** The static group of a table without slots *)
Lemma swiss_new_shape : shape (swiss_new (K := K) (V := V) p).
Proof using L.
  pose proof kWidth_pos. assert (∀ q, 0 ≤ q < 16 → ctrl_at (swiss_new (K := K) (V := V) p) q = if q =? 0 then kSentinel else kEmpty) as Hq.
  { intros q Hq. assert (q ∈ seqZ 0 16) as Hin by (apply elem_of_seqZ; lia). revert q Hq Hin.
    enough (Forall (λ q, ctrl_at (swiss_new (K := K) (V := V) p) q = if q =? 0 then kSentinel else kEmpty) (seqZ 0 16)) as Hall.
    { intros q _ Hin. by eapply Forall_forall in Hall. }
    by repeat constructor. }
  assert (kWidth ≤ 16) by (destruct kWidth_cases as [-> | ->]; lia).
  split; cbn [capacity_ swiss_new].
  - by exists 0.
  - cbn [ctrl_bytes swiss_new EmptyGroup length]. rewrite length_replicate. lia.
  - intros q Hqr. rewrite Hq by lia. destruct (Z.leb_spec q (2 * 0)).
    + assert (q = 0) as -> by lia. rewrite Z.mod_1_r. by rewrite Hq by lia.
    + by rewrite (proj2 (Z.eqb_neq _ _)) by lia.
  - by rewrite Hq by lia.
  - lia.
  - done.
Qed.
End ctrl.
