(* ===== verification/SwissFind.v ===== *)
(** * What a probe of a flat hash map finds

    The loops of [find], [has_element] and [find_first_non_full], against the groups of a
    probe and the positions these cover. A position is [groups_before] the groups without a kind
    of byte when its own group is the first of the probe that may have one: the entries of
    a table are before the empty slots, and an insertion takes a slot before the free ones. *)
From S2P Require Import Prelude Words BitArray DenseProbe SwissBits SwissGroup SwissTable SwissShape.

Section find.
Context `{L : GroupLaws} {K V : Type} `{EqDecision K} `{EqDecision V}.
Context (hash_key : K → option Z) (NDEBUG : bool) (p : platform).
Implicit Types t : raw_hash_set K V.
Abbreviation cyc t := (capacity_ t + 1).
Abbreviation groups t := (probe_groups kWidth (cyc t)).
Abbreviation start t hash m := (window kWidth (cyc t) (probe_start_of t hash) m).

(** The [m]-th group of the probe of a hash covers a position. *)
Definition seen t hash m q : Prop := 0 ≤ q ≤ capacity_ t ∧ covers kWidth (cyc t) (probe_start_of t hash) m q.

Definition groups_before (P : Z → bool) t hash q : Prop :=
  ∃ m, 0 ≤ m < groups t ∧ seen t hash m q ∧ ∀ m', 0 ≤ m' < m → ∀ q', seen t hash m' q' → P (ctrl_at t q') = false.

(** Full slots hold an object. *)
Definition constructed t : Prop := ∀ q, 0 ≤ q < capacity_ t → 0 ≤ ctrl_at t q → is_Some (slot_at t q).

Definition small t : Prop := 2 * cyc t ≤ kWidth.

#[export] Instance small_decision t : Decision (small t).
Proof using. unfold small. apply _. Defined.

Lemma is_small_spec t : shape t → is_small t = bool_decide (small t).
Proof using L.
  intros H. pose proof (shape_range t H). unfold is_small, small. destruct (shape_size t H) as [[Hn Hs]|(g & Hg & Hng)].
  - rewrite (bool_decide_eq_true_2 _ Hs). apply Z.ltb_lt. lia.
  - pose proof kWidth_pos. assert (0 < 2 ^ g) by lia. rewrite (bool_decide_eq_false_2 (2 * cyc t ≤ kWidth)) by nia.
    apply Z.ltb_ge. nia.
Qed.

(** A small table has one group. *)
Lemma groups_small t : shape t → small t → groups t = 1.
Proof using L. intros H Hs. apply probe_groups_small; [apply kWidth_pos|by apply shape_size|done]. Qed.

Lemma groups_bound t : shape t → kWidth * (groups t - 1) ≤ Z.max 0 (cyc t - kWidth) ∧ 1 ≤ groups t ≤ cyc t.
Proof using L.
  intros H. pose proof kWidth_pos. pose proof (shape_range t H). destruct (shape_size t H) as [[Hn Hs]|(g & Hg & Hng)].
  - rewrite groups_small by done. lia.
  - rewrite (probe_groups_large kWidth (cyc t) kWidth_pos g) by done. assert (0 < 2 ^ g) by lia. nia.
Qed.

(** The asserts on the index of a probe *)
Lemma later_group t m : shape t → 1 ≤ m < groups t → kWidth * m < capacity_ t.
Proof using L.
  intros H Hm. pose proof (groups_bound t H) as [Hg _]. assert (8 ≤ kWidth) by (destruct kWidth_cases as [-> | ->]; lia). nia.
Qed.

Lemma seen_exists t hash q : shape t → 0 ≤ q ≤ capacity_ t → ∃ m, 0 ≤ m < groups t ∧ seen t hash m q.
Proof using L.
  intros H Hq. destruct (covers_exists kWidth (cyc t) kWidth_pos (shape_size t H) (probe_start_of t hash) q ltac:(lia))
    as (m & Hm & Hc). by exists m.
Qed.

Lemma start_range t hash m : shape t → 0 ≤ start t hash m ≤ capacity_ t.
Proof using L. intros H. exact (o_range t H hash m). Qed.

(** ** Which groups have a byte of a kind that the bytes at the end have *)
Lemma group_has (P : Z → bool) t hash m :
  shape t → P kEmpty = true →
  existsb P (group_at t (start t hash m)) = true ↔ small t ∨ ∃ q, seen t hash m q ∧ P (ctrl_at t q) = true.
Proof using L.
  intros H HP. pose proof (start_range t hash m H) as Ho. rewrite existsb_exists. split.
  - intros (c & Hc & Hp). apply list_elem_of_In, list_elem_of_lookup in Hc as [i Hi].
    destruct (decide (small t)) as [|Hs]; [by left|]. right. unfold small in Hs.
    assert (Z.of_nat i < kWidth) as Hlt by (by apply group_at_lookup in Hi as [? _]).
    destruct (byte_seen_large t H hash m i ltac:(lia) Hlt) as (Hq & Hcov & Hb). rewrite Hb in Hi. injection Hi as <-.
    eexists. split; [split; [exact Hq|exact Hcov]|done].
  - intros [Hs|(q & [Hq Hcov] & Hp)].
    + exists kEmpty. split; [|done]. apply list_elem_of_In, list_elem_of_lookup.
      exists (Z.to_nat (2 * cyc t - 1 - start t hash m)). apply group_at_lookup. unfold small in Hs.
      rewrite Z2Nat.id by lia. split; [lia|]. by rewrite small_group_empty.
    + destruct (seen_byte t H hash m q Hq Hcov) as (i & _ & Hi & _). eexists. split; [|exact Hp].
      apply list_elem_of_In. by eapply list_elem_of_lookup_2.
Qed.

Lemma existsb_fmap {A} (f : A → bool) l : existsb id (f <$> l) = existsb f l.
Proof using. induction l as [|x l IH]; [done|]. cbn. by rewrite IH. Qed.

Lemma MatchEmpty_bool t o :
  shape t → 0 ≤ o ≤ capacity_ t → mask_bool (MatchEmpty (group_at t o)) = existsb IsEmpty (group_at t o).
Proof using L.
  intros H Ho. rewrite MatchEmpty_val by (apply group_at_length || by apply group_at_valid).
  rewrite mask_bool_val by apply mask_shift_nonneg. apply existsb_fmap.
Qed.

Lemma MatchFree_bool t o :
  shape t → 0 ≤ o ≤ capacity_ t →
  mask_bool (MatchEmptyOrDeleted (group_at t o)) = existsb IsEmptyOrDeleted (group_at t o).
Proof using L.
  intros H Ho. rewrite MatchEmptyOrDeleted_val by (apply group_at_length || by apply group_at_valid).
  rewrite mask_bool_val by apply mask_shift_nonneg. apply existsb_fmap.
Qed.

(** ** The state of a probe after [m] groups *)
Definition probe_at t hash m (s : probe_seq) : Prop := s = ProbeSeq (capacity_ t) (start t hash m) (kWidth * m).

Lemma swiss_probe_ok t hash : shape t → ∃ s, swiss_probe NDEBUG t hash = Some s ∧ probe_at t hash 0 s.
Proof using L.
  intros H. eexists. unfold swiss_probe, probe_start. rewrite assert_true by (rewrite capacity_is_mask by apply H; done).
  split; [done|]. unfold probe_at. rewrite capacity_mask by apply H. rewrite window_0. by rewrite Z.mul_0_r.
Qed.

Lemma seq_next_ok t hash m s :
  shape t → probe_at t hash m s → 0 ≤ m < groups t → probe_at t hash (m + 1) (seq_next s).
Proof using L.
  intros H -> Hm. pose proof kWidth_pos. pose proof (shape_range t H). pose proof (groups_bound t H). unfold seq_next, probe_at. cbn [mask_ offset_ index_].
  assert (kWidth ≤ 16) by (destruct kWidth_cases as [-> | ->]; lia).
  rewrite (wrap_small 64 (kWidth * m + kWidth)) by (split; nia). rewrite capacity_mask_u64 by apply H.
  replace (kWidth * m + kWidth) with (kWidth * (m + 1)) by lia. by rewrite window_succ.
Qed.

Lemma seq_offset_ok t hash m s i : shape t → probe_at t hash m s → seq_offset s i = (start t hash m + i) `mod` cyc t.
Proof using. intros H ->. unfold seq_offset. cbn [mask_ offset_]. apply capacity_mask_u64, H. Qed.

(** ** The slots of a group that match *)
Lemma match_slots_ok t eq s l :
  (∀ i, i ∈ l → is_Some (slot_at t (seq_offset s i))) →
  ∃ r, match_slots t eq s l = Some r ∧
    match r with
    | Some q => ∃ i kv, i ∈ l ∧ q = seq_offset s i ∧ slot_at t q = Some kv ∧ eq kv = true
    | None => ∀ i kv, i ∈ l → slot_at t (seq_offset s i) = Some kv → eq kv = false
    end.
Proof using.
  induction l as [|i l IH]; intros Hl; cbn [match_slots].
  { exists None. split; [done|]. by intros i kv ?%elem_of_nil. }
  destruct (Hl i) as [kv Hkv]; [by left|]. rewrite Hkv. cbn [mbind option_bind]. destruct (eq kv) eqn:He.
  - eexists. split; [done|]. exists i, kv. split; [by left|done].
  - destruct IH as (r & Hr & Hspec); [intros j Hj; apply Hl; by right|]. exists r. split; [done|].
    destruct r as [q|].
    + destruct Hspec as (j & kv' & Hj & Hrest). exists j, kv'. split; [by right|done].
    + intros j kv' [->|Hj]%elem_of_cons Hs; [congruence|]. by eapply Hspec.
Qed.

Definition hits t (eq : K * V → bool) q : Prop := 0 ≤ q < capacity_ t ∧ 0 ≤ ctrl_at t q ∧ ∃ kv, slot_at t q = Some kv ∧ eq kv = true.

Lemma H2_range hash : 0 ≤ H2 hash < 128.
Proof using. unfold H2. change 127 with (2 ^ 7 - 1). rewrite land_ones_wrap by lia. by apply fits_wrap. Qed.

Lemma match_group_ok t eq hash m s :
  shape t → constructed t → probe_at t hash m s →
  ∃ r, match_group t eq hash s (group_at t (start t hash m)) = Some r ∧
    match r with
    | Some q => hits t eq q ∧ seen t hash m q
    | None => ∀ q kv, seen t hash m q → ctrl_at t q = H2 hash → slot_at t q = Some kv → eq kv = false
    end.
Proof using L.
  intros H Hcon Hs. pose proof (start_range t hash m H) as Ho. pose proof (H2_range hash) as H2r.
  set (g := group_at t (start t hash m)). assert (Z.of_nat (length g) = kWidth) as Hlen by apply group_at_length.
  destruct (Match_val g (H2 hash) Hlen ltac:(by apply group_at_valid) H2r) as (bs & Hbs & [Hl Hfull Hall _]).
  unfold match_group. rewrite Hbs. rewrite mask_positions_val; [|apply mask_shift_nonneg|rewrite Hl, Hlen; apply mask_bits_enough].
  cbn [mbind option_bind].
  assert (∀ j, j ∈ trues 0 bs → let q := seq_offset s j in
    0 ≤ q < capacity_ t ∧ 0 ≤ ctrl_at t q ∧ seen t hash m q) as Hgood.
  { intros j (i & -> & Hi)%elem_of_trues q. destruct (Hfull i Hi) as (c & Hc & Hc0).
    pose proof (byte_seen t H hash m i c Hc ltac:(unfold kEmpty; lia)) as (Hq & Hcov & Hat).
    unfold q. rewrite (seq_offset_ok t hash m s) by done. rewrite Z.add_0_l. split; [|split; [by rewrite Hat|by split]].
    split; [lia|]. destruct (decide ((start t hash m + Z.of_nat i) `mod` cyc t = capacity_ t)) as [Heq|]; [|lia].
    rewrite Heq, (sh_sentinel t H) in Hat. unfold kSentinel in Hat. lia. }
  destruct (match_slots_ok t eq s (trues 0 bs)) as (r & Hr & Hspec).
  { intros j Hj. destruct (Hgood j Hj) as (Hq & Hc & _). by apply Hcon. }
  exists r. split; [done|]. destruct r as [q|].
  - destruct Hspec as (j & kv & Hj & -> & Hkv & He). destruct (Hgood j Hj) as (Hq & Hc & Hseen).
    split; [|done]. split; [done|]. split; [done|]. by exists kv.
  - intros q kv [Hq Hcov] Hc Hkv. destruct (seen_byte t H hash m q Hq Hcov) as (i & Hi & Hat & Hmod).
    apply (Hspec (Z.of_nat i) kv).
    + apply elem_of_trues. exists i. split; [lia|]. apply Hall. fold g in Hat. by rewrite Hat, Hc.
    + rewrite (seq_offset_ok t hash m s) by done. by rewrite Hmod.
Qed.

(** ** The loop of a lookup *)
Definition has_empty t hash m : Prop := small t ∨ ∃ q, seen t hash m q ∧ IsEmpty (ctrl_at t q) = true.

Definition no_match t (eq : K * V → bool) hash m : Prop :=
  ∀ q kv, seen t hash m q → ctrl_at t q = H2 hash → slot_at t q = Some kv → eq kv = false.

(** A group where the loop cannot go on. *)
Definition stops t eq hash m : Prop := no_match t eq hash m → has_empty t hash m.

Lemma group_empty t hash m :
  shape t → mask_bool (MatchEmpty (group_at t (start t hash m))) = true ↔ has_empty t hash m.
Proof using L. intros H. rewrite MatchEmpty_bool by (done || by apply start_range). by apply group_has. Qed.

Lemma swiss_find_loop_ok t eq hash mm :
  shape t → constructed t → mm < groups t → stops t eq hash mm →
  ∀ fuel m s, probe_at t hash m s → 0 ≤ m ≤ mm → mm - m ≤ Z.of_nat fuel →
  ∃ r, find_loop fuel t eq hash s = Some r ∧
    match r with
    | Some q => hits t eq q
    | None => ∃ m', m ≤ m' ≤ mm ∧ has_empty t hash m' ∧ ∀ m'', m ≤ m'' ≤ m' → no_match t eq hash m''
    end.
Proof using L.
  intros H Hcon Hmm Hstop. induction fuel as [|fuel IH]; intros m s Hs Hm Hfuel; cbn [find_loop].
  all: assert (offset_ s = start t hash m) as -> by (by rewrite Hs).
  all: rewrite load_group_at by (done || by apply start_range); cbn [mbind option_bind].
  all: destruct (match_group_ok t eq hash m s H Hcon Hs) as (r & -> & Hr); cbn [mbind option_bind].
  all: destruct r as [q|]; [exists (Some q); split; [done|apply Hr]|].
  all: destruct (mask_bool (MatchEmpty (group_at t (start t hash m)))) eqn:He;
    [exists None; split; [done|]; exists m; split; [lia|]; split; [by apply group_empty|];
     intros m'' Hm''; by replace m'' with m by lia|].
  all: assert (m ≠ mm) by (intros ->; apply (not_true_iff_false (mask_bool _)) in He; apply He, group_empty; [done|]; by apply Hstop).
  - lia.
  - destruct (IH (m + 1) (seq_next s)) as (r & -> & Hspec); [by apply seq_next_ok; [| |lia]|lia|lia|].
    exists r. split; [done|]. destruct r as [q|]; [done|]. destruct Hspec as (m' & Hm' & He' & Hno).
    exists m'. split; [lia|]. split; [done|]. intros m'' Hm''. destruct (decide (m'' = m)) as [->|]; [done|]. apply Hno. lia.
Qed.

(** [has_element] makes the same turns, and its assert holds. *)
Lemma has_element_find t elem hash mm :
  let eq kv := bool_decide (kv = elem) in
  shape t → constructed t → mm < groups t → stops t eq hash mm →
  ∀ fuel m s, probe_at t hash m s → 0 ≤ m ≤ mm → mm - m ≤ Z.of_nat fuel →
  has_element_loop NDEBUG fuel t elem hash s =
    (λ r : option Z, if r is Some _ then true else false) <$> find_loop fuel t eq hash s.
Proof using L.
  intros eq H Hcon Hmm Hstop. induction fuel as [|fuel IH]; intros m s Hs Hm Hfuel; cbn [has_element_loop find_loop].
  all: assert (offset_ s = start t hash m) as -> by (by rewrite Hs).
  all: rewrite load_group_at by (done || by apply start_range); cbn [mbind option_bind].
  all: destruct (match_group_ok t eq hash m s H Hcon Hs) as (r & Hr & Hspec); fold eq; rewrite Hr; cbn [mbind option_bind].
  all: destruct r as [q|]; [done|].
  all: destruct (mask_bool (MatchEmpty (group_at t (start t hash m)))) eqn:He; [done|].
  all: assert (m ≠ mm) by (intros ->; apply (not_true_iff_false (mask_bool _)) in He; apply He, group_empty; [done|]; by apply Hstop).
  - lia.
  - assert (probe_at t hash (m + 1) (seq_next s)) as Hn by (by apply seq_next_ok; [| |lia]).
    rewrite assert_true; [cbn [mbind option_bind]; apply (IH (m + 1)); [done|lia|lia]|].
    rewrite Hn. cbn [index_]. apply Z.ltb_lt, later_group; [done|lia].
Qed.

Lemma fuel_groups t : shape t → groups t ≤ Z.of_nat (swiss_fuel t).
Proof using L. intros H. pose proof (groups_bound t H). unfold swiss_fuel. pose proof (shape_range t H). lia. Qed.

(** A group with an empty slot, in a table that has one *)
Lemma roomy_group t hash :
  shape t → (small t ∨ ∃ q, 0 ≤ q ≤ capacity_ t ∧ IsEmpty (ctrl_at t q) = true) → ∃ m, 0 ≤ m < groups t ∧ has_empty t hash m.
Proof using L.
  intros H Hemp. pose proof (groups_bound t H). destruct Hemp as [Hsm|(q & Hq & Hqe)]; [exists 0; split; [lia|by left]|].
  destruct (seen_exists t hash q H Hq) as (m & Hm & Hseen). exists m. split; [done|]. right. by exists q.
Qed.

Section lookup.
Context (t : raw_hash_set K V) (H : shape t) (Hcon : constructed t) (eq : K * V → bool) (hash : Z).

(** An entry before the empty slots is found, when no other fits. *)
Lemma find_present q0 kv0 :
  0 ≤ q0 < capacity_ t → ctrl_at t q0 = H2 hash → slot_at t q0 = Some kv0 → eq kv0 = true →
  groups_before IsEmpty t hash q0 → (∀ q, hits t eq q → q = q0) →
  ∃ s, swiss_probe NDEBUG t hash = Some s ∧ find_loop (swiss_fuel t) t eq hash s = Some (Some q0).
Proof using L H Hcon.
  intros Hq0 Hc Hkv He (m0 & Hm0 & Hseen & Hbef) Huniq. destruct (swiss_probe_ok t hash H) as (s & Hs & Hp). exists s. split; [done|].
  pose proof (fuel_groups t H).
  assert (stops t eq hash m0) as Hstop by (intros Hno; rewrite (Hno q0 kv0 Hseen Hc Hkv) in He; done).
  destruct (swiss_find_loop_ok t eq hash m0 H Hcon ltac:(lia) Hstop (swiss_fuel t) 0 s Hp) as (r & -> & Hr); [lia|lia|].
  destruct r as [q|]; [by rewrite (Huniq q Hr)|]. exfalso. destruct Hr as (m' & Hm' & Hemp & Hno).
  destruct (decide (m' = m0)) as [->|Hne].
  - rewrite (Hno m0 ltac:(lia) q0 kv0 Hseen Hc Hkv) in He. done.
  - destruct Hemp as [Hsm|(q & Hq & Hqe)]; [rewrite groups_small in Hm0 by done; lia|].
    rewrite (Hbef m' ltac:(lia) q Hq) in Hqe. done.
Qed.

(** A table with an empty slot ends the probe of what it does not hold. *)
Lemma find_absent :
  (∀ q, ¬ hits t eq q) → (small t ∨ ∃ q, 0 ≤ q ≤ capacity_ t ∧ IsEmpty (ctrl_at t q) = true) →
  ∃ s, swiss_probe NDEBUG t hash = Some s ∧ find_loop (swiss_fuel t) t eq hash s = Some None.
Proof using L H Hcon.
  intros Hno Hemp. destruct (swiss_probe_ok t hash H) as (s & Hs & Hp). exists s. split; [done|].
  pose proof (fuel_groups t H). destruct (roomy_group t hash H Hemp) as (m & Hm & He).
  destruct (swiss_find_loop_ok t eq hash m H Hcon ltac:(lia) ltac:(by intros _) (swiss_fuel t) 0 s Hp) as (r & -> & Hr); [lia|lia|].
  destruct r as [q|]; [by destruct (Hno q)|done].
Qed.
End lookup.

(** ** The first slot that is not full *)
Definition has_free t hash m : Prop := small t ∨ ∃ q, seen t hash m q ∧ IsEmptyOrDeleted (ctrl_at t q) = true.

Lemma group_free t hash m :
  shape t → mask_bool (MatchEmptyOrDeleted (group_at t (start t hash m))) = true ↔ has_free t hash m.
Proof using L. intros H. rewrite MatchFree_bool by (done || by apply start_range). by apply group_has. Qed.

Definition free_slot t q : Prop := 0 ≤ q < capacity_ t ∧ IsEmptyOrDeleted (ctrl_at t q) = true.

Lemma seen_free t hash m q : shape t → seen t hash m q → IsEmptyOrDeleted (ctrl_at t q) = true → free_slot t q.
Proof using.
  intros H [Hq _] Hf. split; [|done]. split; [lia|].
  destruct (decide (q = capacity_ t)) as [->|]; [by rewrite (sh_sentinel t H) in Hf|lia].
Qed.

(** What the mask of a group gives: a free slot it covers or, in a small table that is full, the place of the sentinel. *)
Lemma lowest_free t hash m s :
  shape t → has_free t hash m → probe_at t hash m s →
  ∃ i, LowestBitSet mask_shift (MatchEmptyOrDeleted (group_at t (start t hash m))) = Some i ∧
    let q := seq_offset s i in
    (free_slot t q ∧ seen t hash m q) ∨ (small t ∧ q = capacity_ t ∧ ∀ q', ¬ free_slot t q').
Proof using L.
  intros H Hfree Hs. pose proof (start_range t hash m H) as Ho. set (g := group_at t (start t hash m)).
  assert (existsb id (IsEmptyOrDeleted <$> g) = true) as Hex.
  { rewrite existsb_fmap. apply group_has; [done|done|exact Hfree]. }
  rewrite MatchEmptyOrDeleted_val by (apply group_at_length || by apply group_at_valid).
  destruct (first_true _ Hex) as (i & r & Hi). rewrite Hi, LowestBitSet_val by apply mask_shift_nonneg.
  exists (Z.of_nat i). split; [done|]. rewrite (seq_offset_ok t hash m s) by done.
  assert (∃ c, g !! i = Some c ∧ IsEmptyOrDeleted c = true) as (c & Hc & Hcf).
  { assert ((IsEmptyOrDeleted <$> g) !! i = Some true) as Hl.
    { rewrite Hi, lookup_app_r, length_replicate, Nat.sub_diag by (rewrite length_replicate; lia). done. }
    rewrite list_lookup_fmap in Hl. destruct (g !! i) as [c|]; [|done]. injection Hl as Hl. by exists c. }
  assert (∀ j, (j < i)%nat → ∀ c', g !! j = Some c' → IsEmptyOrDeleted c' = false) as Hmin.
  { intros j Hj c' Hc'. assert ((IsEmptyOrDeleted <$> g) !! j = Some false) as Hl.
    { rewrite Hi, lookup_app_l, lookup_replicate_2 by (rewrite ?length_replicate; lia). done. }
    rewrite list_lookup_fmap, Hc' in Hl. by injection Hl. }
  apply group_at_lookup in Hc as Hc2. destruct Hc2 as [Hlt Hceq]. rewrite group_byte in Hceq by (done || lia).
  destruct (Z.leb_spec (start t hash m + Z.of_nat i) (2 * capacity_ t)) as [Hle|Hgt].
  - left. pose proof (shape_range t H). pose proof (Z.mod_pos_bound (start t hash m + Z.of_nat i) (cyc t) ltac:(lia)) as Hmb.
    assert (seen t hash m ((start t hash m + Z.of_nat i) `mod` cyc t)) as Hseen.
    { split; [lia|]. apply byte_covers; [apply kWidth_pos|by apply shape_size|lia]. }
    split; [|done]. eapply seen_free; [done|done|by rewrite <-Hceq].
  - right. assert (small t) as Hsm.
    { unfold small. destruct (shape_size t H) as [[_ ?]|(k & Hk & Hng)]; [done|]. assert (0 < 2 ^ k) by lia. pose proof kWidth_pos. nia. }
    assert (∀ q', ¬ free_slot t q') as Hnone.
    { intros q' [Hq' Hf']. assert (covers kWidth (cyc t) (probe_start_of t hash) m q') as Hcov.
      { destruct (seen_exists t hash q' H ltac:(lia)) as (m1 & Hm1 & _ & Hc1). rewrite groups_small in Hm1 by done.
        unfold covers. pose proof (Z.mod_pos_bound (q' - start t hash m) (cyc t) ltac:(lia)). unfold small in Hsm. lia. }
      destruct (covers_byte kWidth (cyc t) kWidth_pos (shape_size t H) (probe_start_of t hash) m q' ltac:(lia) Hcov) as ([Hj0 Hj1] & Hmod & Hle').
      set (j := (q' - start t hash m) `mod` cyc t) in *.
      rewrite (Hmin (Z.to_nat j) ltac:(lia) (ctrl_at t q')) in Hf'; [done|]. apply group_at_lookup. rewrite Z2Nat.id by done.
      split; [done|]. rewrite group_byte by (done || lia). rewrite (proj2 (Z.leb_le _ _)) by lia. by rewrite Hmod. }
    split; [done|]. split; [|done].
    assert (start t hash m + Z.of_nat i = 2 * capacity_ t + 1) as ->.
    { destruct (decide (start t hash m + Z.of_nat i = 2 * capacity_ t + 1)) as [|Hne]; [done|]. exfalso.
      assert (IsEmptyOrDeleted kEmpty = false) as Hbad; [|done].
      apply (Hmin (Z.to_nat (2 * capacity_ t + 1 - start t hash m)) ltac:(lia)). apply group_at_lookup.
      unfold small in Hsm. rewrite Z2Nat.id by lia. split; [lia|]. rewrite group_byte by (done || lia).
      by rewrite (proj2 (Z.leb_gt _ _)) by lia. }
    replace (2 * capacity_ t + 1) with (capacity_ t + 1 * cyc t) by lia. rewrite Z_mod_plus_full. apply Z.mod_small.
    pose proof (shape_range t H). lia.
Qed.

(** In a large table the highest bit is a free slot too. *)
Lemma highest_free t hash m s :
  shape t → ¬ small t → has_free t hash m → probe_at t hash m s →
  let q := seq_offset s (HighestBitSet mask_bits mask_shift (MatchEmptyOrDeleted (group_at t (start t hash m)))) in
  free_slot t q ∧ seen t hash m q.
Proof using L.
  intros H Hl Hfree Hs q. pose proof (start_range t hash m H) as Ho. set (g := group_at t (start t hash m)) in q.
  assert (existsb id (IsEmptyOrDeleted <$> g) = true) as Hex.
  { rewrite existsb_fmap. apply group_has; [done|done|exact Hfree]. }
  unfold q. rewrite MatchEmptyOrDeleted_val by (apply group_at_length || by apply group_at_valid).
  destruct (last_true _ Hex) as (r & j & Hr). rewrite Hr, HighestBitSet_val by apply mask_shift_nonneg.
  rewrite (seq_offset_ok t hash m s) by done.
  assert ((IsEmptyOrDeleted <$> g) !! length r = Some true) as Hat by (by rewrite Hr, list_lookup_middle).
  rewrite list_lookup_fmap in Hat. destruct (g !! length r) as [c|] eqn:Hc; [|done]. injection Hat as Hat.
  assert (Z.of_nat (length r) < kWidth) as Hlt by (by apply group_at_lookup in Hc as [? _]).
  pose proof (byte_seen_large t H hash m (length r) ltac:(unfold small in Hl; lia) Hlt) as (Hq & Hcov & Hb).
  fold g in Hb. rewrite Hb in Hc. injection Hc as <-. assert (seen t hash m ((start t hash m + Z.of_nat (length r)) `mod` cyc t)) by (by split).
  split; [|done]. by eapply seen_free.
Qed.

Definition first_non_full_spec t hash q : Prop :=
  (free_slot t q ∧ groups_before IsEmptyOrDeleted t hash q) ∨ (small t ∧ q = capacity_ t ∧ ∀ q', ¬ free_slot t q').

Lemma first_non_full_loop_ok t hash mm :
  shape t → mm < groups t → has_free t hash mm →
  ∀ fuel m s w, probe_at t hash m s → 0 ≤ m ≤ mm → mm - m ≤ Z.of_nat fuel →
  (∀ m', 0 ≤ m' < m → ¬ has_free t hash m') →
  ∃ q i w', first_non_full_loop NDEBUG p fuel t hash s w = Some (q, i, w') ∧ first_non_full_spec t hash q.
Proof using L.
  intros H Hmm Hfree. induction fuel as [|fuel IH]; intros m s w Hs Hm Hfuel Hbef; cbn [first_non_full_loop].
  all: assert (offset_ s = start t hash m) as -> by (by rewrite Hs).
  all: rewrite load_group_at by (done || by apply start_range); cbn [mbind option_bind].
  all: assert (∀ q, seen t hash m q → groups_before IsEmptyOrDeleted t hash q) as Hb
    by (intros q Hq; exists m; split; [lia|]; split; [done|]; intros m' Hm' q' Hq';
        destruct (IsEmptyOrDeleted (ctrl_at t q')) eqn:He; [|done]; destruct (Hbef m' Hm'); right; by exists q').
  all: destruct (mask_bool (MatchEmptyOrDeleted (group_at t (start t hash m)))) eqn:He.
  2: { assert (m ≠ mm); [|lia]. intros ->. apply (not_true_iff_false (mask_bool _)) in He. by apply He, group_free. }
  3: { assert (m ≠ mm) by (intros ->; apply (not_true_iff_false (mask_bool _)) in He; by apply He, group_free).
       assert ((index_ s <? capacity_ t) = true) as Ha.
       { rewrite Hs. cbn [index_]. apply Z.ltb_lt. pose proof (later_group t (m + 1) H ltac:(lia)). pose proof kWidth_pos. lia. }
       rewrite assert_true by done. cbn [mbind option_bind].
       apply (IH (m + 1)); [by apply seq_next_ok; [| |lia]|lia|lia|]. intros m' Hm'.
       destruct (decide (m' = m)) as [->|]; [|apply Hbef; lia]. intros Hf. apply group_free in Hf; [congruence|done]. }
  all: apply group_free in He; [|done].
  all: destruct (lowest_free t hash m s H He Hs) as (j & Hj & Hlow); cbn zeta in Hlow.
  all: rewrite is_small_spec by done; destruct (negb NDEBUG && negb (bool_decide (small t))) eqn:Hback.
  all: try (destruct (ShouldInsertBackwards p hash (ctrl_ t) w) as [[] w']).
  all: try (rewrite Hj; cbn [mbind option_bind]; eexists _, _, _; split; [done|];
            destruct Hlow as [[Hf Hsn]|Hf]; [left; split; [done|by apply Hb]|by right]).
  all: apply andb_true_iff in Hback as [_ Hl%negb_true_iff%bool_decide_eq_false].
  all: destruct (highest_free t hash m s H Hl He Hs) as [Hf Hsn].
  all: eexists _, _, _; split; [done|]; left; split; [done|by apply Hb].
Qed.

Lemma find_first_non_full_ok t hash w :
  shape t → (small t ∨ ∃ q, free_slot t q) →
  ∃ q i w', find_first_non_full NDEBUG p t hash w = Some (q, i, w') ∧ first_non_full_spec t hash q.
Proof using L.
  intros H Hfree. pose proof (groups_bound t H). pose proof (fuel_groups t H).
  assert (∃ m, 0 ≤ m < groups t ∧ has_free t hash m) as (m & Hm & Hf).
  { destruct Hfree as [Hs|(q & Hq & Hf)]; [exists 0; split; [lia|by left]|].
    destruct (seen_exists t hash q H ltac:(lia)) as (m & Hm & Hseen). exists m. split; [done|]. right. by exists q. }
  destruct (swiss_probe_ok t hash H) as (s & Hs & Hp). unfold find_first_non_full. rewrite Hs. cbn [mbind option_bind].
  apply (first_non_full_loop_ok t hash m H ltac:(lia) Hf _ 0); [done|lia|lia|]. lia.
Qed.
End find.
