(* ===== verification/SwissInv.v ===== *)
(** * The invariant of a flat hash map

    [table_ok]: the full slots are those with an object, their control byte has seven bits
    of the hash, no group of the probe before their own has an empty byte, and the keys are
    distinct. [growth_ok]: the counters, and that a small table has no deleted slots.
    [swiss_models] adds the finite map a table stands for. *)
From stdpp Require Import gmap.
From S2P Require Import Prelude Words BitArray DenseProbe SwissBits SwissGroup SwissTable SwissShape SwissFind.

(** ** Counting positions *)
Definition count_where (P : Z → bool) (a b : Z) : Z := Z.of_nat (length (filter (λ q, P q = true) (seqZ a (b - a)))).

Lemma count_where_nonneg P a b : 0 ≤ count_where P a b.
Proof. unfold count_where. lia. Qed.

Lemma count_where_nil P a : count_where P a a = 0.
Proof. unfold count_where. by rewrite Z.sub_diag. Qed.

Lemma count_where_app P a b c : a ≤ b ≤ c → count_where P a c = count_where P a b + count_where P b c.
Proof.
  intros Hb. unfold count_where. replace (c - a) with ((b - a) + (c - b)) by lia. rewrite seqZ_app by lia.
  rewrite filter_app, length_app. replace (a + (b - a)) with b by lia. lia.
Qed.

Lemma count_where_one P a : count_where P a (a + 1) = Z.b2z (P a).
Proof.
  unfold count_where. replace (a + 1 - a) with 1 by lia. rewrite seqZ_cons, seqZ_nil by lia. rewrite filter_cons. destruct (P a); by destruct (decide _).
Qed.

Lemma count_where_succ P a b : a ≤ b → count_where P a (b + 1) = count_where P a b + Z.b2z (P b).
Proof. intros Hab. rewrite (count_where_app P a b (b + 1)) by lia. by rewrite count_where_one. Qed.

Lemma count_where_ext P P' a b : (∀ q, a ≤ q < b → P q = P' q) → count_where P a b = count_where P' a b.
Proof.
  intros Heq. unfold count_where. do 2 f_equal. assert (∀ q, q ∈ seqZ a (b - a) → P q = P' q) as Hl.
  { intros q Hq%elem_of_seqZ. apply Heq. lia. }
  induction (seqZ a (b - a)) as [|q l IH]; [done|]. rewrite !filter_cons, (Hl q), IH by (try intros; try apply Hl; by constructor).
  done.
Qed.

(** One position changed *)
Lemma count_where_update P P' a b i :
  a ≤ i < b → (∀ q, a ≤ q < b → q ≠ i → P' q = P q) →
  count_where P' a b = count_where P a b - Z.b2z (P i) + Z.b2z (P' i).
Proof.
  intros Hi Heq. rewrite !(count_where_app _ a i b), !(count_where_app _ i (i + 1) b), !count_where_one by lia.
  rewrite (count_where_ext P' P a i), (count_where_ext P' P (i + 1) b) by (intros; apply Heq; lia). lia.
Qed.

Lemma count_where_zero P a b : count_where P a b = 0 → ∀ q, a ≤ q < b → P q = false.
Proof.
  intros H0 q Hq. rewrite (count_where_app _ a q b), (count_where_app _ q (q + 1) b), count_where_one in H0 by lia.
  pose proof (count_where_nonneg P a q). pose proof (count_where_nonneg P (q + 1) b). destruct (P q); [cbn in H0; lia|done].
Qed.

Lemma count_where_none P a b : a ≤ b → (∀ q, a ≤ q < b → P q = false) → count_where P a b = 0.
Proof.
  intros Hab HP. revert HP. replace b with (a + Z.of_nat (Z.to_nat (b - a))) by lia. generalize (Z.to_nat (b - a)). clear b Hab.
  intros n. induction n as [|n IH]; intros HP; [rewrite Z.add_0_r; apply count_where_nil|].
  replace (a + Z.of_nat (S n)) with (a + Z.of_nat n + 1) by lia. rewrite count_where_succ, IH by (lia || intros; apply HP; lia).
  by rewrite HP by lia.
Qed.

(** Fewer than there are positions: one is left. *)
Lemma count_where_room P a b : a ≤ b → count_where P a b < b - a → ∃ q, a ≤ q < b ∧ P q = false.
Proof.
  intros Hab. replace b with (a + Z.of_nat (Z.to_nat (b - a))) by lia. generalize (Z.to_nat (b - a)). clear b Hab. intros n.
  induction n as [|n IH]; [rewrite Z.add_0_r, count_where_nil; lia|].
  replace (a + Z.of_nat (S n)) with (a + Z.of_nat n + 1) by lia. rewrite count_where_succ by lia. intros Hlt.
  destruct (P (a + Z.of_nat n)) eqn:Hp; [|exists (a + Z.of_nat n); split; [lia|done]].
  cbn [Z.b2z] in Hlt. destruct IH as (q & Hq & Hf); [lia|]. exists q. split; [lia|done].
Qed.

Lemma count_where_or P P' a b :
  a ≤ b → (∀ q, a ≤ q < b → P q && P' q = false) →
  count_where (λ q, P q || P' q) a b = count_where P a b + count_where P' a b.
Proof.
  intros Hab. replace b with (a + Z.of_nat (Z.to_nat (b - a))) by lia. generalize (Z.to_nat (b - a)). clear b Hab. intros n.
  induction n as [|n IH]; intros HP; [by rewrite Z.add_0_r, !count_where_nil|].
  replace (a + Z.of_nat (S n)) with (a + Z.of_nat n + 1) by lia. rewrite !count_where_succ, IH by (lia || intros; apply HP; lia).
  specialize (HP (a + Z.of_nat n) ltac:(lia)). destruct (P (a + Z.of_nat n)), (P' (a + Z.of_nat n)); cbn in *; lia || done.
Qed.

Section inv.
Context `{L : GroupLaws} {K V : Type} `{Countable K} `{EqDecision V}.
Context (hash_key : K → option Z) (NDEBUG : bool) (p : platform).
Implicit Types (t : raw_hash_set K V) (g : gmap K V).
Abbreviation cyc t := (capacity_ t + 1).

(** ** Slots *)
Lemma slot_at_range t q kv : shape t → slot_at t q = Some kv → 0 ≤ q < capacity_ t.
Proof using.
  intros Hs. unfold slot_at. destruct (Z.leb_spec 0 q); [|done].
  destruct (slots_ t !! Z.to_nat q) as [x|] eqn:Hx; [|done]. intros _. apply lookup_lt_Some in Hx.
  pose proof (sh_slots t Hs). lia.
Qed.

Lemma set_slot_ok t i x :
  Z.of_nat (length (slots_ t)) = capacity_ t → 0 ≤ i < capacity_ t →
  set_slot t i x = Some (set_slots t (<[Z.to_nat i := x]> (slots_ t))) ∧
  ∀ q, slot_at (set_slots t (<[Z.to_nat i := x]> (slots_ t))) q = if q =? i then x else slot_at t q.
Proof using.
  intros Hsl Hi. unfold set_slot. rewrite (proj2 (Z.leb_le _ _)), (proj2 (Z.ltb_lt _ _)) by lia. split; [done|].
  intros q. unfold slot_at. cbn [slots_ set_slots]. destruct (Z.leb_spec 0 q).
  - destruct (Z.eqb_spec q i) as [->|Hne]; [by rewrite list_lookup_insert_eq by lia|].
    by rewrite list_lookup_insert_ne by lia.
  - by rewrite (proj2 (Z.eqb_neq q i)) by lia.
Qed.

Lemma shape_set_slots t i x : shape t → shape (set_slots t (<[Z.to_nat i := x]> (slots_ t))).
Proof using. intros [? ? ? ? ? ?]. split; [done..|]. cbn [slots_ set_slots]. by rewrite length_insert. Qed.

Lemma set_slot_shape t i x :
  shape t → 0 ≤ i < capacity_ t →
  ∃ l, set_slot t i x = Some (set_slots t l) ∧ shape (set_slots t l) ∧
    ∀ q, slot_at (set_slots t l) q = if q =? i then x else slot_at t q.
Proof using.
  intros Hs Hi. destruct (set_slot_ok t i x (sh_slots t Hs) Hi) as [Hset Hslot]. eexists. split; [exact Hset|].
  split; [by apply shape_set_slots|exact Hslot].
Qed.

(** ** The table *)
Definition placed t (kv : K * V) (q : Z) : Prop :=
  ∃ h, hash_key kv.1 = Some h ∧ ctrl_at t q = H2 h ∧ groups_before IsEmpty t h q.

Record table_ok t : Prop := TableOk {
  tk_shape : shape t;
  tk_full q : 0 ≤ q < capacity_ t → is_Some (slot_at t q) ↔ 0 ≤ ctrl_at t q;
  tk_placed q kv : slot_at t q = Some kv → placed t kv q;
  tk_distinct q q' kv kv' : slot_at t q = Some kv → slot_at t q' = Some kv' → kv.1 = kv'.1 → q = q'
}.

Definition ctrl_count t (P : Z → bool) : Z := count_where (λ q, P (ctrl_at t q)) 0 (capacity_ t).

(** [CapacityToGrowth] without its assert *)
Definition growth_of (cap : Z) : Z := if (kWidth =? 8) && (cap =? 7) then 6 else cap - cap / 8.

Record growth_ok t : Prop := CountsOk {
  cn_size : size_ t = ctrl_count t IsFull;
  cn_growth : growth_left t = growth_of (capacity_ t) - ctrl_count t IsFull - ctrl_count t IsDeleted;
  cn_room : 0 ≤ growth_left t;
  cn_small : small t → ctrl_count t IsDeleted = 0
}.

Definition table_holds t g : Prop := ∀ k v, g !! k = Some v ↔ ∃ q, slot_at t q = Some (k, v).

Record swiss_models t g : Prop := SwissModels {
  md_table : table_ok t;
  md_counts : growth_ok t;
  md_cap : capacity_ t < 2 ^ 50;
  md_holds : table_holds t g;
  md_size : size_ t = Z.of_nat (size g)
}.

Lemma growth_of_range cap : capacity_ok cap → 0 ≤ growth_of cap ≤ cap ∧ (kWidth < 2 * (cap + 1) → growth_of cap < cap).
Proof using L.
  intros Hc. pose proof (capacity_range cap Hc). pose proof (capacity_size cap Hc) as Hn. unfold growth_of.
  destruct kWidth_cases as [Hw|Hw]; rewrite Hw in *; cbn [Z.eqb Pos.eqb andb].
  - destruct (Z.eqb_spec cap 7) as [->|]; [lia|]. split; [div_lia|]. intros Hl. destruct Hn as [[_ ?]|(k & Hk & Hng)]; [lia|].
    assert (0 < 2 ^ k) by lia. div_lia.
  - split; [div_lia|]. intros Hl. destruct Hn as [[_ ?]|(k & Hk & Hng)]; [lia|]. assert (0 < 2 ^ k) by lia. div_lia.
Qed.

Lemma CapacityToGrowth_ok cap : capacity_ok cap → 0 < cap → CapacityToGrowth NDEBUG cap = Some (growth_of cap).
Proof using.
  intros Hc Hp. unfold CapacityToGrowth. rewrite assert_true by (by apply IsValidCapacity_ok). done.
Qed.

Lemma table_constructed t : table_ok t → constructed t.
Proof using. intros Ht q Hq Hc. by apply Ht. Qed.

(** A slot is full, deleted or empty. *)
Lemma ctrl_kind t q : shape t → 0 ≤ q < capacity_ t → IsFull (ctrl_at t q) = negb (IsEmptyOrDeleted (ctrl_at t q)).
Proof using.
  intros Hs Hq. destruct (sh_valid t Hs q Hq) as [[Hf|[->|[->| ->]]] Hne]; [|done..].
  unfold IsFull, IsEmptyOrDeleted, kSentinel. rewrite (proj2 (Z.leb_le _ _)), (proj2 (Z.ltb_ge _ _)) by lia. done.
Qed.

Lemma ctrl_kind_free t q :
  shape t → 0 ≤ q < capacity_ t → IsEmptyOrDeleted (ctrl_at t q) = IsEmpty (ctrl_at t q) || IsDeleted (ctrl_at t q).
Proof using.
  intros Hs Hq. destruct (sh_valid t Hs q Hq) as [[Hf|[->|[->| ->]]] Hne]; [|done..].
  unfold IsEmpty, IsDeleted, IsEmptyOrDeleted, kSentinel, kEmpty, kDeleted.
  rewrite (proj2 (Z.ltb_ge _ _)), !(proj2 (Z.eqb_neq _ _)) by lia. done.
Qed.

Lemma room_free t : shape t → ctrl_count t IsFull < capacity_ t → ∃ q, free_slot t q.
Proof using.
  intros Hs Hc. pose proof (shape_range t Hs). 
  destruct (count_where_room (λ q, IsFull (ctrl_at t q)) 0 (capacity_ t)) as (q & Hq & Hf); [lia|unfold ctrl_count in Hc; lia|].
  exists q. split; [done|]. cbn beta in Hf. rewrite ctrl_kind in Hf by done. by apply negb_false_iff in Hf.
Qed.

Lemma room_empty t :
  shape t → ctrl_count t IsFull + ctrl_count t IsDeleted < capacity_ t → ∃ q, 0 ≤ q < capacity_ t ∧ IsEmpty (ctrl_at t q) = true.
Proof using.
  intros Hs Hc. pose proof (shape_range t Hs). unfold ctrl_count in Hc. rewrite <-count_where_or in Hc; [|lia|].
  2:{ intros q Hq. destruct (sh_valid t Hs q Hq) as [[Hf|[->|[->| ->]]] Hne]; [|done..].
      unfold IsDeleted, kDeleted. rewrite (proj2 (Z.eqb_neq _ _)) by lia. apply andb_false_r. }
  match type of Hc with count_where ?P _ _ < _ => destruct (count_where_room P 0 (capacity_ t)) as (q & Hq & Hf); [lia|lia|] end. exists q. split; [done|].
  apply orb_false_iff in Hf as [Hf Hd]. rewrite ctrl_kind in Hf by done. apply negb_false_iff in Hf.
  rewrite ctrl_kind_free in Hf by done. rewrite Hd, orb_false_r in Hf. done.
Qed.

(** Every probe ends. *)
Definition roomy t : Prop := small t ∨ ∃ q, 0 ≤ q ≤ capacity_ t ∧ IsEmpty (ctrl_at t q) = true.

Lemma counts_roomy t : shape t → growth_ok t → roomy t.
Proof using L.
  intros Hs Hc. destruct (decide (small t)) as [|Hl]; [by left|]. right. unfold small in Hl.
  destruct (growth_of_range (capacity_ t) (sh_cap t Hs)) as [_ Hg]. specialize (Hg ltac:(lia)).
  destruct (room_empty t Hs) as (q & Hq & He); [pose proof (cn_growth t Hc); pose proof (cn_room t Hc); lia|].
  exists q. split; [lia|done].
Qed.

(** ** Lookup *)
Definition is_found t (key : K) (r : option Z) : Prop :=
  match r with
  | Some q => 0 ≤ q < capacity_ t ∧ 0 ≤ ctrl_at t q ∧ ∃ v, slot_at t q = Some (key, v)
  | None => ∀ q v, slot_at t q ≠ Some (key, v)
  end.

(** Whatever is looked for by a predicate that implies the key, with the hash of the key *)
Lemma lookup_ok t (eq : K * V → bool) key hash :
  table_ok t → roomy t → hash_key key = Some hash → (∀ kv, eq kv = true → kv.1 = key) →
  ∃ s r, swiss_probe NDEBUG t hash = Some s ∧ find_loop (swiss_fuel t) t eq hash s = Some r ∧
    match r with Some q => hits t eq q | None => ∀ q, ¬ hits t eq q end.
Proof using L.
  intros Ht Hr Hh Heq. pose proof (tk_shape t Ht) as Hs. pose proof (table_constructed t Ht) as Hcon.
  destruct (decide (Exists (λ q, 0 ≤ ctrl_at t q ∧ default false (eq <$> slot_at t q) = true) (seqZ 0 (capacity_ t)))) as [He|Hne].
  - apply Exists_exists in He as (q & Hq%elem_of_seqZ & Hc & He). destruct (slot_at t q) as [kv|] eqn:Hkv; [|done]. cbn in He.
    destruct (tk_placed t Ht q kv Hkv) as (h & Hkey & Hctrl & Hbef). rewrite (Heq kv He), Hh in Hkey. injection Hkey as <-.
    destruct (find_present NDEBUG t Hs Hcon eq hash q kv ltac:(lia) Hctrl Hkv He Hbef) as (s & Hp & Hf).
    { intros q' (Hq' & _ & kv' & Hkv' & He'). apply (tk_distinct t Ht q' q kv' kv Hkv' Hkv). by rewrite (Heq _ He), (Heq _ He'). }
    exists s, (Some q). split; [done|]. split; [done|]. split; [lia|]. split; [done|]. by exists kv.
  - assert (∀ q, ¬ hits t eq q) as Hno.
    { intros q (Hq & Hc & kv & Hkv & He). apply Hne, Exists_exists. exists q. split; [apply elem_of_seqZ; lia|].
      split; [done|]. by rewrite Hkv. }
    destruct (find_absent NDEBUG t Hs Hcon eq hash Hno Hr) as (s & Hp & Hf). by exists s, None.
Qed.

Lemma key_is_hit t key q : table_ok t → hits t (key_is key) q ↔ ∃ v, slot_at t q = Some (key, v).
Proof using.
  intros Ht. unfold key_is. split.
  - intros (_ & _ & [k v] & Hkv & He%bool_decide_eq_true). cbn in He. subst. by exists v.
  - intros [v Hkv]. pose proof (slot_at_range t q _ (tk_shape t Ht) Hkv) as Hq. split; [done|]. split; [by apply Ht|].
    exists (key, v). split; [done|]. by apply bool_decide_eq_true.
Qed.

Lemma find_key_ok t key hash :
  table_ok t → roomy t → hash_key key = Some hash →
  ∃ s r, swiss_probe NDEBUG t hash = Some s ∧ find_loop (swiss_fuel t) t (key_is key) hash s = Some r ∧ is_found t key r.
Proof using L.
  intros Ht Hr Hh. destruct (lookup_ok t (key_is key) key hash Ht Hr Hh) as (s & r & Hp & Hf & Hspec).
  { intros kv He. by apply bool_decide_eq_true in He. }
  exists s, r. split; [done|]. split; [done|]. destruct r as [q|].
  - pose proof Hspec as (Hq & Hc & _). apply key_is_hit in Hspec; done.
  - intros q v Hkv. apply (Hspec q), key_is_hit; [done|]. by exists v.
Qed.

Lemma swiss_find_ok t key hash :
  table_ok t → roomy t → hash_key key = Some hash →
  ∃ r, swiss_find hash_key NDEBUG t key = Some r ∧ is_found t key r.
Proof using L.
  intros Ht Hr Hh. destruct (find_key_ok t key hash Ht Hr Hh) as (s & r & Hp & Hf & Hspec).
  exists r. unfold swiss_find, find_hash. rewrite Hh. cbn [mbind option_bind]. by rewrite Hp.
Qed.

(** ** A slot taken for a key *)
Record reserved t hash q (t1 : raw_hash_set K V) : Prop := Reserved {
  rs_shape : shape t1;
  rs_addr : ctrl_ t1 = ctrl_ t;
  rs_cap : capacity_ t1 = capacity_ t;
  rs_slots : slots_ t1 = slots_ t;
  rs_ctrl q' : 0 ≤ q' ≤ capacity_ t → ctrl_at t1 q' = if q' =? q then H2 hash else ctrl_at t q';
  rs_free : free_slot t q;
  rs_before : groups_before IsEmptyOrDeleted t hash q
}.

(** What keeps the groups before an entry. *)
Lemma before_mono (P P' : Z → bool) t t' hash q :
  ctrl_ t' = ctrl_ t → capacity_ t' = capacity_ t →
  (∀ q', 0 ≤ q' ≤ capacity_ t → P (ctrl_at t q') = false → P' (ctrl_at t' q') = false) →
  groups_before P t hash q → groups_before P' t' hash q.
Proof using.
  intros Ha Hc Hm (m & Hm0 & Hs & Hb). assert (∀ m q, seen t' hash m q ↔ seen t hash m q) as Hseen.
  { intros m1 q1. unfold seen, probe_start_of. by rewrite Ha, Hc. }
  exists m. rewrite Hc. split; [done|]. split; [by apply Hseen|]. intros m' Hm' q' Hq'%Hseen.
  apply Hm; [apply Hq'|]. by apply (Hb m').
Qed.

Lemma empty_free c : IsEmptyOrDeleted c = false → IsEmpty c = false.
Proof using.
  unfold IsEmptyOrDeleted, IsEmpty, kSentinel, kEmpty. intros Hc%Z.ltb_ge. apply Z.eqb_neq. lia.
Qed.

Lemma H2_full hash : IsFull (H2 hash) = true ∧ IsEmpty (H2 hash) = false ∧ IsEmptyOrDeleted (H2 hash) = false ∧
  IsDeleted (H2 hash) = false ∧ ctrl_valid (H2 hash) ∧ H2 hash ≠ kSentinel.
Proof using.
  pose proof (H2_range hash). unfold IsFull, IsEmpty, IsEmptyOrDeleted, IsDeleted, ctrl_valid, kSentinel, kEmpty, kDeleted.
  rewrite (proj2 (Z.leb_le _ _)), (proj2 (Z.ltb_ge _ _)), !(proj2 (Z.eqb_neq _ _)) by lia.
  split; [done|]. split; [done|]. split; [done|]. split; [done|]. lia.
Qed.

(** The object goes into the slot. *)
Lemma reserved_fill t hash q t1 t2 kv :
  table_ok t → reserved t hash q t1 → hash_key kv.1 = Some hash → (∀ q' v, slot_at t q' ≠ Some (kv.1, v)) →
  shape t2 → ctrl_ t2 = ctrl_ t1 → capacity_ t2 = capacity_ t1 → (∀ q', ctrl_at t2 q' = ctrl_at t1 q') →
  (∀ q', slot_at t2 q' = if q' =? q then Some kv else slot_at t q') → table_ok t2.
Proof using.
  intros Ht [Hs1 Ha1 Hc1 Hsl1 Hctrl1 [Hq Hfree] Hbef] Hh Hno Hs2 Ha2 Hc2 Hctrl2 Hslot.
  pose proof (H2_full hash) as (Hf & He & Hed & _). pose proof (H2_range hash). assert (capacity_ t2 = capacity_ t) as Hcap by congruence.
  assert (∀ q', 0 ≤ q' ≤ capacity_ t → ctrl_at t2 q' = if q' =? q then H2 hash else ctrl_at t q') as Hat.
  { intros q' Hq'. by rewrite Hctrl2, Hctrl1. }
  assert (∀ h q' (P : Z → bool), P (H2 hash) = false → groups_before P t h q' → groups_before P t2 h q') as Hmono.
  { intros h q' P HP. apply before_mono; [congruence|done|]. intros q'' Hq'' Hpq. rewrite Hat by done. by destruct (q'' =? q). }
  split; [done| | |].
  - intros q' Hq'. rewrite Hcap in Hq'. rewrite Hslot, Hat by lia. destruct (q' =? q); [split; [lia|done]|]. by apply Ht.
  - intros q' kv'. rewrite Hslot. destruct (Z.eqb_spec q' q) as [->|Hne].
    + intros [= <-]. exists hash. split; [done|]. split.
      * rewrite Hat by lia. by rewrite Z.eqb_refl.
      * apply (before_mono IsEmptyOrDeleted IsEmpty t t2); [congruence|done| |exact Hbef]. intros q'' Hq'' He'. rewrite Hat by done.
        destruct (q'' =? q); [done|]. by apply empty_free.
    + intros Hkv. destruct (tk_placed t Ht q' kv' Hkv) as (h & Hk & Hc & Hb). pose proof (slot_at_range t q' kv' (tk_shape t Ht) Hkv).
      exists h. split; [done|]. split; [|by apply Hmono]. rewrite Hat by lia. by rewrite (proj2 (Z.eqb_neq q' q)).
  - intros q1 q2 [k1 v1] [k2 v2]. rewrite !Hslot. destruct (Z.eqb_spec q1 q) as [->|], (Z.eqb_spec q2 q) as [->|]; [done|..]; cbn [fst].
    + intros [= ->] Hkv <-. by destruct (Hno q2 v2).
    + intros Hkv [= ->] ->. by destruct (Hno q1 v1).
    + apply Ht.
Qed.

(** Taking a slot that [find_first_non_full] returned *)
Lemma reserve_ok t hash q :
  shape t → free_slot t q → groups_before IsEmptyOrDeleted t hash q →
  ∃ bytes, set_ctrl NDEBUG t q (H2 hash) = Some (set_bytes t bytes) ∧ reserved t hash q (set_bytes t bytes).
Proof using L.
  intros Hs Hf Hb. pose proof (H2_full hash) as (_ & _ & _ & _ & Hv & Hne).
  destruct (set_ctrl_ok NDEBUG t q (H2 hash) Hs (proj1 Hf) Hv Hne) as (bytes & Hset & Hsh & Hat).
  exists bytes. by split.
Qed.

(** One control byte changed. *)
Lemma ctrl_count_update t t' i c P :
  capacity_ t' = capacity_ t → 0 ≤ i < capacity_ t →
  (∀ q, 0 ≤ q ≤ capacity_ t → ctrl_at t' q = if q =? i then c else ctrl_at t q) →
  ctrl_count t' P = ctrl_count t P - Z.b2z (P (ctrl_at t i)) + Z.b2z (P c).
Proof using.
  intros Hc Hi Hctrl. unfold ctrl_count. rewrite Hc.
  rewrite (count_where_update (λ q, P (ctrl_at t q)) (λ q, P (ctrl_at t' q)) 0 (capacity_ t) i) by
    (done || (intros q Hq Hne; rewrite Hctrl by lia; by rewrite (proj2 (Z.eqb_neq q i)))).
  rewrite Hctrl by lia. by rewrite Z.eqb_refl.
Qed.

Lemma reserved_counts t hash q t1 P :
  shape t → reserved t hash q t1 → ctrl_count t1 P = ctrl_count t P - Z.b2z (P (ctrl_at t q)) + Z.b2z (P (H2 hash)).
Proof using.
  intros Hs [Hs1 _ Hc1 _ Hctrl1 [Hq _] _]. by apply ctrl_count_update.
Qed.
End inv.
