(* ===== verification/SwissResize.v ===== *)
(** * New arrays, and moving a table into them

    [initialize_slots] makes an array of empty slots; an object is placed in the first free
    slot of its probe; [resize] places every object of the old array in the new one. *)
From stdpp Require Import gmap.
From S2P Require Import Prelude Words BitArray DenseProbe SwissBits SwissGroup SwissTable SwissShape SwissFind SwissInv.

Section swiss_resize.
Context `{L : GroupLaws} {K V : Type} `{Countable K} `{EqDecision V}.
Context (hash_key : K → option Z) (NDEBUG : bool) (p : platform).
Implicit Types (t : raw_hash_set K V) (g : gmap K V).
Abbreviation table_ok := (table_ok hash_key).

(** The counters do not matter to the arrays. *)
Lemma shape_set_size t s gl : shape t → shape (set_size t s gl).
Proof using. by intros []; split. Qed.

Lemma table_set_size t s gl : table_ok t → table_ok (set_size t s gl).
Proof using. intros [Hs Hf Hp Hd]. split; [by apply shape_set_size|exact Hf|exact Hp|exact Hd]. Qed.

Lemma counts_set_size t s gl P : ctrl_count (set_size t s gl) P = ctrl_count t P.
Proof using. done. Qed.

(** ** Empty tables *)
Record vacant t : Prop := Vacant {
  vc_shape : shape t;
  vc_ctrl q : 0 ≤ q < capacity_ t → ctrl_at t q = kEmpty;
  vc_slots q : slot_at t q = None
}.

Lemma vacant_table t : vacant t → table_ok t.
Proof using.
  intros [Hs Hc Hsl]. split; [done| | |].
  - intros q Hq. rewrite Hsl, Hc by done. split; [by intros [? ?]|by intros ?].
  - intros q kv. by rewrite Hsl.
  - intros q q' kv kv'. by rewrite Hsl.
Qed.

Lemma vacant_count t P : vacant t → P kEmpty = false → ctrl_count t P = 0.
Proof using.
  intros [Hs Hc Hsl] HP. pose proof (shape_range t Hs). apply count_where_none; [lia|]. intros q Hq. by rewrite Hc.
Qed.

Lemma vacant_holds t : vacant t → table_holds t ∅.
Proof using. intros [_ _ Hsl] k v. rewrite lookup_empty. split; [done|]. intros [q Hq]. by rewrite Hsl in Hq. Qed.

Lemma swiss_new_vacant : vacant (swiss_new p).
Proof using L.
  split; [apply swiss_new_shape|cbn; lia|]. intros q. unfold slot_at. destruct (0 <=? q); [|done]. by destruct (Z.to_nat q).
Qed.

Lemma growth_of_0 : growth_of 0 = 0.
Proof using. unfold growth_of. by rewrite andb_false_r. Qed.

Lemma swiss_new_models : swiss_models hash_key (swiss_new p) (∅ : gmap K V).
Proof using L.
  pose proof swiss_new_vacant as Hv. split; [by apply vacant_table| |cbn; lia|by apply vacant_holds|by rewrite map_size_empty].
  split; cbn [size_ growth_left capacity_ swiss_new].
  - by rewrite vacant_count.
  - rewrite growth_of_0, !vacant_count by done. done.
  - done.
  - intros _. by rewrite vacant_count.
Qed.

Lemma slots_none cap t : slots_ t = replicate cap None → ∀ q, slot_at t q = None.
Proof using.
  intros Hsl q. unfold slot_at. destruct (0 <=? q); [|done]. rewrite Hsl.
  destruct (replicate cap None !! Z.to_nat q) eqn:Hl; [|done]. apply lookup_replicate in Hl as [-> _]. done.
Qed.

Lemma reset_growth_left_ok t :
  capacity_ok (capacity_ t) → 0 < capacity_ t →
  reset_growth_left NDEBUG t = Some (set_size t (size_ t) (u64 (growth_of (capacity_ t) - size_ t))).
Proof using. intros Hc Hp. unfold reset_growth_left. by rewrite CapacityToGrowth_ok. Qed.

Lemma MakeLayout_ok cap : capacity_ok cap → 0 < cap → MakeLayout NDEBUG cap = Some ().
Proof using. intros Hc Hp. apply assert_true. by apply IsValidCapacity_ok. Qed.

Lemma freed_layout_ok t : shape t → (if capacity_ t =? 0 then Some () else MakeLayout NDEBUG (capacity_ t)) = Some ().
Proof using.
  intros Hs. destruct (Z.eqb_spec (capacity_ t) 0); [done|]. apply MakeLayout_ok; [apply Hs|]. pose proof (shape_range t Hs). lia.
Qed.

Lemma initialize_slots_ok t w :
  capacity_ok (capacity_ t) → 0 < capacity_ t →
  ∃ t' w', initialize_slots NDEBUG p t w = Some (t', w') ∧ vacant t' ∧ capacity_ t' = capacity_ t ∧ size_ t' = size_ t ∧
    growth_left t' = u64 (growth_of (capacity_ t) - size_ t).
Proof using L.
  intros Hc Hp. pose proof kWidth_pos. unfold initialize_slots.
  rewrite assert_true by (rewrite (proj2 (Z.eqb_neq _ _)) by lia; done). cbn [mbind option_bind].
  rewrite MakeLayout_ok by done. cbn [mbind option_bind].
  set (t0 := RawHashSet _ _ _ _ _ _).
  destruct (reset_ctrl_ok t0) as (bytes & Hr & Hs & He); [done|done| | |].
  { unfold t0. cbn [ctrl_bytes capacity_]. rewrite length_fmap, length_seqZ. lia. }
  { unfold t0. cbn [slots_ capacity_]. rewrite length_replicate. lia. }
  rewrite Hr. cbn [mbind option_bind]. rewrite reset_growth_left_ok by done. cbn [mbind option_bind].
  eexists _, _. split; [done|]. split; [|done].
  split; [by apply shape_set_size|exact He|]. by apply (slots_none (Z.to_nat (capacity_ t))).
Qed.

(** ** Placing an object *)
Record slot_filled t (kv : K * V) (q : Z) t' : Prop := Filled {
  fl_table : table_ok t';
  fl_cap : capacity_ t' = capacity_ t;
  fl_slot q' : slot_at t' q' = if q' =? q then Some kv else slot_at t q';
  fl_free : free_slot t q;
  fl_count P : ∃ h, ctrl_count t' P = ctrl_count t P - Z.b2z (P (ctrl_at t q)) + Z.b2z (P (H2 h))
}.

Lemma filled_full t kv q t' : shape t → slot_filled t kv q t' → ctrl_count t' IsFull = ctrl_count t IsFull + 1.
Proof using.
  intros Hs [_ _ _ [Hq Hf] Hc]. destruct (Hc IsFull) as [h ->]. rewrite ctrl_kind, Hf by done.
  pose proof (H2_full h) as (-> & _). cbn. lia.
Qed.

Lemma filled_deleted t kv q t' : slot_filled t kv q t' → ctrl_count t' IsDeleted = ctrl_count t IsDeleted - Z.b2z (IsDeleted (ctrl_at t q)).
Proof using.
  intros [_ _ _ _ Hc]. destruct (Hc IsDeleted) as [h ->]. pose proof (H2_full h) as (_ & _ & _ & -> & _). cbn. lia.
Qed.

(** A slot that is reserved is filled by writing it. *)
Lemma fill_ok t hash q t1 kv :
  table_ok t → reserved t hash q t1 → hash_key kv.1 = Some hash → (∀ q' v, slot_at t q' ≠ Some (kv.1, v)) →
  ∃ t2, set_slot t1 q (Some kv) = Some t2 ∧ slot_filled t kv q t2 ∧ size_ t2 = size_ t1 ∧ growth_left t2 = growth_left t1.
Proof using L.
  intros Ht Hr Hh Hno. pose proof (rs_shape t hash q t1 Hr) as Hs1. pose proof (rs_cap t hash q t1 Hr) as Hc1.
  destruct (set_slot_shape t1 q (Some kv) Hs1) as (l & Hset & Hs2 & Hslot); [rewrite Hc1; apply Hr|].
  set (t2 := set_slots t1 l) in *. exists t2. split; [done|].
  assert (∀ q', slot_at t2 q' = if q' =? q then Some kv else slot_at t q') as Hslot'.
  { intros q'. rewrite Hslot. destruct (q' =? q); [done|]. unfold slot_at. by rewrite (rs_slots t hash q t1 Hr). }
  split; [|done]. split; [|done|done|apply Hr|].
  - by eapply (reserved_fill hash_key t hash q t1 t2 kv).
  - intros P. exists hash. rewrite <-(reserved_counts t hash q t1 P (tk_shape _ t Ht) Hr). done.
Qed.

Lemma place_ok t kv hash w :
  table_ok t → hash_key kv.1 = Some hash → (∀ q v, slot_at t q ≠ Some (kv.1, v)) → ctrl_count t IsFull < capacity_ t →
  ∃ q i w' t1 t2, find_first_non_full NDEBUG p t hash w = Some (q, i, w') ∧ set_ctrl NDEBUG t q (H2 hash) = Some t1 ∧
    reserved t hash q t1 ∧ set_slot t1 q (Some kv) = Some t2 ∧ slot_filled t kv q t2 ∧
    size_ t2 = size_ t ∧ growth_left t2 = growth_left t.
Proof using L.
  intros Ht Hh Hno Hc. pose proof (tk_shape _ t Ht) as Hs. destruct (room_free t Hs Hc) as [q0 Hq0].
  destruct (find_first_non_full_ok NDEBUG p t hash w Hs) as (q & i & w' & Hf & Hspec); [right; by exists q0|].
  destruct Hspec as [[Hfree Hbef]|(_ & _ & Hnone)]; [|by destruct (Hnone q0)].
  destruct (reserve_ok NDEBUG t hash q Hs Hfree Hbef) as (bytes & Hset & Hres).
  destruct (fill_ok t hash q _ kv Ht Hres Hh Hno) as (t2 & Ht2 & Hfill & Hsz & Hgl).
  exists q, i, w', (set_bytes t bytes), t2. done.
Qed.

(** ** [resize] *)
Definition same_entries t t' : Prop := ∀ kv, (∃ q, slot_at t' q = Some kv) ↔ ∃ q, slot_at t q = Some kv.

Definition moved t (i : Z) nt : Prop :=
  table_ok nt ∧ ctrl_count nt IsFull = count_where (λ q, IsFull (ctrl_at t q)) 0 i ∧ ctrl_count nt IsDeleted = 0 ∧
  ∀ kv, (∃ q, slot_at nt q = Some kv) ↔ ∃ q, q < i ∧ slot_at t q = Some kv.

(** A slot that is not full is passed over. *)
Lemma moved_skip t i nt : table_ok t → 0 ≤ i < capacity_ t → IsFull (ctrl_at t i) = false → moved t i nt → moved t (i + 1) nt.
Proof using.
  intros Ht Hi Hfull (Htn & Hcnt & Hdel & Hent). split; [done|]. rewrite count_where_succ, Hfull, Z.add_0_r by lia. split; [done|]. split; [done|].
  intros kv. rewrite Hent. split; intros (q & Hq & Hkv); exists q; (split; [|done]); [lia|].
  assert (q ≠ i); [|lia]. intros ->. assert (0 ≤ ctrl_at t i) as Hbad by (apply (tk_full _ t Ht); [lia|by eexists]).
  apply Z.leb_le in Hbad. unfold IsFull in Hfull. congruence.
Qed.

(** A full one takes a slot of the new arrays. *)
Lemma moved_fill t i nt kv q t2 :
  0 ≤ i < capacity_ t → IsFull (ctrl_at t i) = true → slot_at t i = Some kv → moved t i nt → slot_filled nt kv q t2 → moved t (i + 1) t2.
Proof using.
  intros Hi Hfull Hkv (Htn & Hcnt & Hdel & Hent) Hfill. split; [apply Hfill|].
  rewrite (filled_full nt kv q t2 (tk_shape _ nt Htn) Hfill), Hcnt, count_where_succ, Hfull by lia. split; [done|]. split.
  { rewrite (filled_deleted nt kv q t2 Hfill), Hdel. assert (IsDeleted (ctrl_at nt q) = false) as ->; [|done].
    apply (count_where_zero (λ q, IsDeleted (ctrl_at nt q)) 0 (capacity_ nt) Hdel). apply Hfill. }
  intros kv'. split.
  - intros [q' Hq']. rewrite (fl_slot _ _ _ _ Hfill) in Hq'. destruct (q' =? q).
    { injection Hq' as <-. exists i. split; [lia|done]. }
    destruct (proj1 (Hent kv')) as (q'' & ? & ?); [by exists q'|]. exists q''. split; [lia|done].
  - intros (q' & Hq' & Hkv'). destruct (decide (q' = i)) as [->|Hne].
    { rewrite Hkv in Hkv'. injection Hkv' as <-. exists q. rewrite (fl_slot _ _ _ _ Hfill). by rewrite Z.eqb_refl. }
    destruct (proj2 (Hent kv')) as [q'' Hq'']; [exists q'; split; [lia|done]|]. exists q''. rewrite (fl_slot _ _ _ _ Hfill).
    destruct (Z.eqb_spec q'' q) as [->|]; [|done]. destruct (fl_free _ _ _ _ Hfill) as [Hqr Hqf].
    assert (0 ≤ ctrl_at nt q) as Hbad by (apply (tk_full _ nt Htn); [done|by eexists]). apply Z.leb_le in Hbad.
    change (IsFull (ctrl_at nt q) = true) in Hbad. rewrite ctrl_kind, Hqf in Hbad by (done || apply Htn). done.
Qed.

(** There is room for it. *)
Lemma moved_room t i nt :
  0 ≤ i < capacity_ t → IsFull (ctrl_at t i) = true → moved t i nt → ctrl_count t IsFull < capacity_ nt + 1 → ctrl_count nt IsFull < capacity_ nt.
Proof using.
  intros Hi Hfull (_ & -> & _). unfold ctrl_count.
  rewrite (count_where_app _ 0 i (capacity_ t)), (count_where_app _ i (i + 1) (capacity_ t)), count_where_one, Hfull by lia. cbn [Z.b2z].
  pose proof (count_where_nonneg (λ q, IsFull (ctrl_at t q)) (i + 1) (capacity_ t)). lia.
Qed.

Lemma resize_ok t cap w :
  table_ok t → capacity_ok cap → 0 < cap → size_ t = ctrl_count t IsFull → size_ t ≤ growth_of cap →
  ∃ t' w', swiss_resize hash_key NDEBUG p t cap w = Some (t', w') ∧ table_ok t' ∧ growth_ok t' ∧ capacity_ t' = cap ∧
    same_entries t t' ∧ size_ t' = size_ t ∧ growth_left t' = growth_of cap - size_ t.
Proof using L.
  intros Ht Hc Hp Hsz Hle. pose proof (tk_shape _ t Ht) as Hs. pose proof (shape_range t Hs) as Hr.
  pose proof (growth_of_range cap Hc) as [Hg _]. pose proof (capacity_range cap Hc).
  pose proof (count_where_nonneg (λ q, IsFull (ctrl_at t q)) 0 (capacity_ t)). unfold ctrl_count in Hsz. pose proof kWidth_pos as HW.
  unfold swiss_resize. rewrite assert_true by (by apply IsValidCapacity_ok). cbn [mbind option_bind].
  set (t0 := RawHashSet _ _ _ _ cap _). destruct (initialize_slots_ok t0 w Hc Hp) as (nt0 & w0 & Hi & Hv & Hcap0 & Hsz0 & Hgl0).
  rewrite Hi. cbn [mbind option_bind]. set (body := λ (i : Z) (x : _ * world), _).
  destruct (for_loop_total (λ i '(nt, _), moved t i nt ∧ capacity_ nt = cap ∧ size_ nt = size_ t ∧ growth_left nt = growth_left nt0)
    body (Z.to_nat (capacity_ t)) 0 (nt0, w0)) as ((nt & w') & Hrun & (Htn & Hcnt & Hdel & Hent) & Hcapn & Hszn & Hgln).
  - split; [|done]. split; [by apply vacant_table|]. split; [rewrite count_where_nil; by apply vacant_count|].
    split; [by apply vacant_count|]. intros kv. split; [intros [q Hq]; by rewrite (vc_slots _ Hv) in Hq|].
    intros (q & Hq & Hkv). apply slot_at_range in Hkv; [lia|done].
  - intros i [nt w1] Hir (Hmv & Hcapn & Hszn & Hgln). unfold body.
    rewrite arr_get_ctrl by (done || lia). cbn [mbind option_bind].
    destruct (IsFull (ctrl_at t i)) eqn:Hfull.
    + destruct (tk_full _ t Ht i ltac:(lia)) as [_ [kv Hkv]]; [by apply Z.leb_le|]. rewrite Hkv. cbn [mbind option_bind].
      destruct (tk_placed _ t Ht i kv Hkv) as (hash & Hh & _ & _). rewrite Hh. cbn [mbind option_bind].
      destruct (place_ok nt kv hash w1 (proj1 Hmv) Hh) as (q & j & w2 & t1 & t2 & -> & Hset & _ & Hsl & Hfill & Hsz2 & Hgl2).
      { intros q v Hq. destruct Hmv as (_ & _ & _ & Hent). destruct (proj1 (Hent (kv.1, v))) as (q' & Hq' & Hkv'); [by exists q|].
        assert (q' = i); [|lia]. by apply (tk_distinct _ t Ht q' i _ _ Hkv' Hkv). }
      { apply (moved_room t i); [lia|done|done|]. unfold ctrl_count. lia. }
      cbn [mbind option_bind]. rewrite Hset. cbn [mbind option_bind]. rewrite Hsl. cbn [mbind option_bind].
      eexists. split; [done|]. split; [apply (moved_fill t i nt kv q); (lia || done)|]. rewrite (fl_cap _ _ _ _ Hfill). by rewrite Hsz2, Hgl2.
    + eexists. split; [done|]. split; [|done]. by apply moved_skip; [|lia|..].
  - rewrite Hrun. cbn [mbind option_bind]. rewrite freed_layout_ok by done. cbn [mbind option_bind].
    rewrite Z2Nat.id, Z.add_0_l in * by lia. exists nt, w'. split; [done|]. split; [done|].
    rewrite Hgl0 in Hgln. change (size_ t0) with (size_ t) in Hgln. change (capacity_ t0) with cap in Hgln.
    rewrite wrap_small in Hgln by (split; lia).
    split; [split|]; [lia|rewrite Hcapn; lia|lia|done|]. split; [done|]. split; [|lia].
    intros kv. rewrite Hent. split; [intros (q & _ & Hq); by exists q|]. intros [q Hq]. exists q. split; [|done].
    by apply slot_at_range in Hq; [lia|].
Qed.
End swiss_resize.
