(* ===== verification/SwissDrop.v ===== *)
(** * Rehashing in place

    [drop_deletes_without_resize] makes the deleted slots empty and marks the objects as
    deleted, then gives each one the first slot of its probe that is not taken, and exchanges
    it with an object that is still to be placed there. Every turn advances or places an
    object, so that twice the capacity bounds the turns. *)
From stdpp Require Import gmap.
From S2P Require Import Prelude Words BitArray DenseProbe SwissBits SwissGroup SwissTable SwissShape SwissFind SwissInv SwissResize.

Section drop.
Context `{L : GroupLaws} {K V : Type} `{Countable K} `{EqDecision V}.
Context (hash_key : K → option Z) (NDEBUG : bool) (p : platform).
Implicit Types (t : raw_hash_set K V).
Abbreviation table_ok := (table_ok hash_key).
Abbreviation cyc t := (capacity_ t + 1).

(** ** The conversion of the control bytes *)
Lemma store_bytes_ok bytes pos l :
  0 ≤ pos → pos + Z.of_nat (length l) ≤ Z.of_nat (length bytes) →
  ∃ bytes', store_bytes bytes pos l = Some bytes' ∧ length bytes' = length bytes ∧
    ∀ q, 0 ≤ q → arr_get bytes' q =
      if (pos <=? q) && (q <? pos + Z.of_nat (length l)) then arr_get l (q - pos) else arr_get bytes q.
Proof using.
  intros Hp Hl. unfold store_bytes. rewrite !(proj2 (Z.leb_le _ _)) by lia. cbn [andb]. eexists. split; [done|].
  split; [rewrite !length_app, length_take, length_drop; lia|]. intros q Hq. unfold arr_get. rewrite (proj2 (Z.leb_le 0 q)) by done.
  destruct (Z.leb_spec pos q) as [Hpq|Hpq]; cbn [andb].
  - rewrite lookup_app_r by (rewrite length_take; lia). rewrite length_take. destruct (Z.ltb_spec q (pos + Z.of_nat (length l))).
    + rewrite lookup_app_l by lia. rewrite (proj2 (Z.leb_le 0 (q - pos))) by lia. f_equal. lia.
    + rewrite lookup_app_r by lia. rewrite lookup_drop. f_equal. lia.
  - rewrite lookup_app_l by (rewrite length_take; lia). by rewrite lookup_take_lt by lia.
Qed.

(** A group read from bytes that are those of a table there *)
Lemma load_group_bytes t bytes o :
  shape t → 0 ≤ o → o + kWidth ≤ Z.of_nat (length bytes) →
  (∀ q, o ≤ q < o + kWidth → arr_get bytes q = Some (ctrl_at t q)) → load_group bytes o = Some (group_at t o).
Proof using L.
  intros Hs Ho Hl Hq. pose proof kWidth_pos. unfold load_group. rewrite slice_in_bounds by lia. f_equal. apply list_eq. intros i.
  destruct (decide (Z.of_nat i < kWidth)) as [Hi|Hi].
  - rewrite lookup_take_lt by lia. rewrite lookup_drop. specialize (Hq (o + Z.of_nat i) ltac:(lia)).
    apply arr_get_Some in Hq as [_ Hq]. replace (Z.to_nat o + i)%nat with (Z.to_nat (o + Z.of_nat i)) by lia. rewrite Hq.
    symmetry. by apply group_at_lookup.
  - rewrite lookup_take_ge by lia. symmetry. apply lookup_ge_None. pose proof (group_at_length t o). lia.
Qed.

Lemma group_map_get t o (f : Z → Z) q :
  o ≤ q < o + kWidth → arr_get (f <$> group_at t o) (q - o) = Some (f (ctrl_at t q)).
Proof using.
  intros Hq. apply arr_get_Some. split; [lia|]. rewrite list_lookup_fmap.
  assert (group_at t o !! Z.to_nat (q - o) = Some (ctrl_at t q)) as ->; [|done]. apply group_at_lookup. split; [lia|]. f_equal. lia.
Qed.

Lemma large_groups t : shape t → ¬ small t → ∃ k, 1 ≤ k ∧ cyc t = kWidth * k.
Proof using L.
  intros Hs Hl. destruct (shape_size t Hs) as [[_ ?]|(e & He & Hng)]; [by unfold small in Hl|]. exists (2 ^ e). split; [lia|done].
Qed.

Lemma convert_valid c : ctrl_valid (convert_ctrl c) ∧ convert_ctrl c ≠ kSentinel.
Proof using. unfold convert_ctrl. destruct (IsFull c); (split; [|done]); [by right; right; left|by right; left]. Qed.

(** The loop over the groups converts every byte, the sentinel among them. *)
Lemma convert_loop_ok t :
  shape t → ¬ small t →
  ∃ b1 pos, while (Z.to_nat (capacity_ t)) (λ '(_, pos), negb (pos =? capacity_ t + 1)) (λ '(bytes, pos),
      g ← load_group bytes pos;
      bytes ← store_bytes bytes pos (ConvertSpecialToEmptyAndFullToDeleted g);
      Some (bytes, pos + kWidth)) (ctrl_bytes t, 0) = Some (b1, pos) ∧ length b1 = length (ctrl_bytes t) ∧
    ∀ q, 0 ≤ q < cyc t → arr_get b1 q = Some (convert_ctrl (ctrl_at t q)).
Proof using L.
  intros Hs Hl. pose proof kWidth_pos as HW. destruct (large_groups t Hs Hl) as (k & Hk & Hnk). pose proof (sh_len t Hs) as Hlen.
  assert (8 ≤ kWidth) as HW8 by (destruct kWidth_cases as [-> | ->]; lia).
  assert (kWidth ≤ cyc t) as HWn by nia. assert (0 < capacity_ t) as Hp by lia. rewrite Z.min_l in Hlen by lia.
  match goal with |- context [while _ ?c ?b _] => set (cond := c); set (body := b) end.
  destruct (while_total (λ '(bytes, pos), ∃ j, 0 ≤ j ≤ k ∧ pos = kWidth * j ∧ length bytes = length (ctrl_bytes t) ∧
      ∀ q, 0 ≤ q < cyc t → arr_get bytes q = Some (if q <? pos then convert_ctrl (ctrl_at t q) else ctrl_at t q))
    (λ '(_, pos), Z.to_nat ((cyc t - pos) / kWidth)) cond body) with (fuel := Z.to_nat (capacity_ t)) (s := (ctrl_bytes t, 0))
    as ([b1 pos1] & Hrun & (j & Hj & Hpos & Hl1 & Hb1) & Hend).
  - intros [b pos] (j & Hj & Hpos & Hlb & Hb) Hc. apply negb_true_iff, Z.eqb_neq in Hc. assert (j < k) as Hlt by nia.
    assert (pos + kWidth ≤ cyc t) as Hle by nia. assert (0 ≤ pos) by nia. unfold body.
    rewrite (load_group_bytes t b pos Hs) by (lia || (intros q Hq; rewrite Hb by lia; by rewrite (proj2 (Z.ltb_ge q pos)) by lia)).
    cbn [mbind option_bind]. rewrite Convert_val by (apply group_at_length || (apply group_at_valid; [done|lia])).
    destruct (store_bytes_ok b pos (convert_ctrl <$> group_at t pos)) as (b' & Hb' & Hlb' & Hget);
      [done|rewrite length_fmap, group_at_length; lia|]. rewrite Hb'. cbn [mbind option_bind]. eexists. split; [done|]. split.
    + exists (j + 1). split; [lia|]. split; [nia|]. split; [lia|]. intros q Hq. rewrite Hget by lia.
      rewrite length_fmap, group_at_length. destruct (Z.leb_spec pos q), (Z.ltb_spec q (pos + kWidth)); cbn [andb].
      * by rewrite group_map_get by lia.
      * rewrite Hb by done. by rewrite (proj2 (Z.ltb_ge q pos)) by lia.
      * rewrite Hb by done. by rewrite (proj2 (Z.ltb_lt q pos)) by lia.
      * lia.
    + replace (cyc t - (pos + kWidth)) with ((k - j - 1) * kWidth) by nia. replace (cyc t - pos) with ((k - j) * kWidth) by nia.
      rewrite !Z.div_mul by lia. lia.
  - exists 0. split; [lia|]. split; [lia|]. split; [done|]. intros q Hq. rewrite arr_get_ctrl by (done || lia).
    by rewrite (proj2 (Z.ltb_ge q 0)) by lia.
  - rewrite Z.sub_0_r. replace (cyc t) with (k * kWidth) by lia. rewrite Z.div_mul by lia. nia.
  - unfold cond in Hend. apply negb_false_iff, Z.eqb_eq in Hend. rewrite Hend in Hb1.
    exists b1, pos1. split; [done|]. split; [done|]. intros q Hq. rewrite Hb1 by done. by rewrite (proj2 (Z.ltb_lt q _)) by lia.
Qed.

Lemma convert_bytes_ok t :
  shape t → ¬ small t →
  ∃ bytes, ConvertDeletedToEmptyAndFullToDeleted NDEBUG (ctrl_bytes t) (capacity_ t) = Some bytes ∧ shape (set_bytes t bytes) ∧
    ∀ q, 0 ≤ q < capacity_ t → ctrl_at (set_bytes t bytes) q = convert_ctrl (ctrl_at t q).
Proof using L.
  intros Hs Hl. pose proof kWidth_pos as HW. destruct (large_groups t Hs Hl) as (k & Hk & Hnk). pose proof (sh_len t Hs) as Hlen.
  assert (8 ≤ kWidth) as HW8 by (destruct kWidth_cases as [-> | ->]; lia).
  assert (kWidth ≤ cyc t) as HWn by nia. assert (0 < capacity_ t) as Hp by lia. rewrite Z.min_l in Hlen by lia.
  unfold ConvertDeletedToEmptyAndFullToDeleted. rewrite arr_get_ctrl by (done || lia). rewrite (sh_sentinel t Hs).
  cbn [mbind option_bind]. rewrite (assert_true NDEBUG (kSentinel =? kSentinel)) by done. cbn [mbind option_bind].
  rewrite assert_true by (apply IsValidCapacity_ok; [apply Hs|done]). cbn [mbind option_bind].
  destruct (convert_loop_ok t Hs Hl) as (b1 & pos1 & Hrun & Hl1 & Hc1). rewrite Hrun. cbn [mbind option_bind].
  assert (∃ gr : list Z, load_group b1 0 = Some gr ∧ Z.of_nat (length gr) = kWidth ∧ ∀ q, 0 ≤ q < kWidth → arr_get gr q = arr_get b1 q) as (gr & Hg & Hlg & Hgq).
  { unfold load_group. rewrite slice_in_bounds by lia. eexists. split; [done|]. split; [rewrite length_take, length_drop; lia|].
    intros q Hq. unfold arr_get. rewrite (proj2 (Z.leb_le 0 q)) by lia. rewrite lookup_take_lt by lia. by rewrite drop_0. }
  rewrite Hg. cbn [mbind option_bind].
  destruct (store_bytes_ok b1 (cyc t) gr) as (b2 & Hb2 & Hl2 & Hget2); [lia|lia|]. rewrite Hb2. cbn [mbind option_bind].
  destruct (arr_set_ok b2 (capacity_ t) kSentinel) as (b3 & Hb3 & Hl3); [lia|]. rewrite Hb3. exists b3. split; [done|].
  assert (∀ q, 0 ≤ q < cyc t + kWidth → ctrl_at (set_bytes t b3) q =
    if q =? capacity_ t then kSentinel else convert_ctrl (ctrl_at t (if q <? cyc t then q else q - cyc t))) as Hat.
  { intros q Hq. unfold ctrl_at at 1. cbn [ctrl_bytes set_bytes]. rewrite (arr_get_set _ _ _ _ _ Hb3). destruct (q =? capacity_ t); [done|].
    rewrite Hget2 by lia. rewrite Hlg. destruct (Z.ltb_spec q (cyc t)) as [Hlo|Hhi].
    - rewrite (proj2 (Z.leb_gt _ _)) by lia. cbn [andb]. by rewrite Hc1 by lia.
    - rewrite (proj2 (Z.leb_le _ _)), (proj2 (Z.ltb_lt _ _)) by lia. cbn [andb]. rewrite Hgq by lia. by rewrite Hc1 by lia. }
  split.
  2:{ intros q Hq. rewrite Hat by lia. rewrite (proj2 (Z.eqb_neq _ _)), (proj2 (Z.ltb_lt _ _)) by lia. done. }
  split; cbn [capacity_ ctrl_bytes slots_ set_bytes].
  - apply Hs.
  - lia.
  - intros q Hq. rewrite (proj2 (Z.leb_le _ _)) by lia. destruct (decide (q ≤ capacity_ t)) as [Hlo|Hhi]; [by rewrite Z.mod_small by lia|].
    replace (q `mod` cyc t) with (q - cyc t) by (rewrite <-(Z_mod_plus_full _ (-1)), Z.mod_small by lia; lia).
    rewrite !Hat by lia. rewrite !(proj2 (Z.eqb_neq _ _)) by lia. rewrite (proj2 (Z.ltb_ge _ _)), (proj2 (Z.ltb_lt _ _)) by lia. done.
  - rewrite Hat by lia. by rewrite Z.eqb_refl.
  - intros q Hq. rewrite Hat by lia. rewrite (proj2 (Z.eqb_neq _ _)) by lia. apply convert_valid.
  - apply Hs.
Qed.

(** ** The loop: deleted slots hold the objects that are still to be placed *)
Record dropping t : Prop := Dropping {
  dr_shape : shape t;
  dr_occupied q : 0 ≤ q < capacity_ t → is_Some (slot_at t q) ↔ IsEmpty (ctrl_at t q) = false;
  dr_placed q kv : slot_at t q = Some kv → ∃ h, hash_key kv.1 = Some h ∧
    (0 ≤ ctrl_at t q → ctrl_at t q = H2 h ∧ groups_before IsEmptyOrDeleted t h q);
  dr_distinct q q' kv kv' : slot_at t q = Some kv → slot_at t q' = Some kv' → kv.1 = kv'.1 → q = q'
}.

(** When nothing is left to place, the table is in order. *)
Lemma dropping_done t : dropping t → ctrl_count t IsDeleted = 0 → table_ok t.
Proof using.
  intros [Hs Ho Hp Hd] Hc. split; [done| | |done].
  - intros q Hq. rewrite Ho by done. pose proof (count_where_zero (λ q, IsDeleted (ctrl_at t q)) _ _ Hc q Hq) as Hdel. cbn beta in Hdel.
    pose proof (ctrl_kind t q Hs Hq) as Hk. rewrite ctrl_kind_free, Hdel, orb_false_r in Hk by done.
    rewrite <-Z.leb_le. fold (IsFull (ctrl_at t q)). rewrite Hk. by destruct (IsEmpty (ctrl_at t q)).
  - intros q kv Hkv. destruct (Hp q kv Hkv) as (h & Hh & Hpl). exists h. split; [done|].
    pose proof (slot_at_range t q kv Hs Hkv) as Hq. destruct Hpl as [Hc2 Hb].
    { pose proof (count_where_zero (λ q, IsDeleted (ctrl_at t q)) _ _ Hc q Hq) as Hdel. cbn beta in Hdel.
      pose proof (ctrl_kind t q Hs Hq) as Hk. rewrite ctrl_kind_free, Hdel, orb_false_r in Hk by done.
      assert (IsEmpty (ctrl_at t q) = false) as He by (apply Ho; [done|by eexists]). rewrite He in Hk. by apply Z.leb_le. }
    split; [done|]. eapply before_mono; [done|done| |exact Hb]. intros q' _. apply empty_free.
Qed.

Definition swapped (q i x : Z) : Z := if x =? q then i else if x =? i then q else x.

Lemma swapped_inj q i x y : swapped q i x = swapped q i y → x = y.
Proof using. unfold swapped. case_bool; lia. Qed.

Lemma swapped_invol q i x : swapped q i (swapped q i x) = x.
Proof using.
  unfold swapped. destruct (Z.eqb_spec x q) as [->|]; [|destruct (Z.eqb_spec x i) as [->|]].
  - destruct (Z.eqb_spec i q); [done|]. by rewrite Z.eqb_refl.
  - by rewrite Z.eqb_refl.
  - by rewrite !(proj2 (Z.eqb_neq _ _)) by done.
Qed.

(** What a turn that places the object of slot [i] in slot [q] does: the slots are exchanged, and so are their control
    bytes but for the one that becomes full. *)
Record placing t (hash i q : Z) t' : Prop := Placing {
  pc_shape : shape t';
  pc_addr : ctrl_ t' = ctrl_ t;
  pc_cap : capacity_ t' = capacity_ t;
  pc_size : size_ t' = size_ t;
  pc_ctrl x : 0 ≤ x ≤ capacity_ t → ctrl_at t' x = if x =? q then H2 hash else ctrl_at t (swapped q i x);
  pc_slot x : slot_at t' x = slot_at t (swapped q i x)
}.

Lemma placing_count t hash i q t' (P : Z → bool) :
  0 ≤ i < capacity_ t → 0 ≤ q < capacity_ t → placing t hash i q t' →
  ctrl_count t' P = ctrl_count t P - Z.b2z (P (ctrl_at t i)) + Z.b2z (P (H2 hash)).
Proof using.
  intros Hi Hq [_ _ Hc _ Hctrl _]. unfold swapped in Hctrl.
  destruct (decide (q = i)) as [->|Hne].
  - apply ctrl_count_update; [done..|]. intros x Hx. rewrite Hctrl by lia. by destruct (x =? i).
  - unfold ctrl_count. rewrite Hc. set (mid := λ x, if x =? q then P (H2 hash) else P (ctrl_at t x)).
    rewrite (count_where_update mid (λ x, P (ctrl_at t' x)) 0 (capacity_ t) i); [|done|].
    2:{ intros x Hx Hxi. rewrite Hctrl by lia. unfold mid. destruct (x =? q); [done|]. by rewrite (proj2 (Z.eqb_neq x i)). }
    rewrite (count_where_update (λ x, P (ctrl_at t x)) mid 0 (capacity_ t) q); [|done|].
    2:{ intros x Hx Hxq. unfold mid. by rewrite (proj2 (Z.eqb_neq x q)). }
    rewrite Hctrl by lia. unfold mid. rewrite Z.eqb_refl, (proj2 (Z.eqb_neq i q)), Z.eqb_refl by lia. lia.
Qed.

Lemma placing_dropping t hash i q t' kv :
  dropping t → 0 ≤ i < capacity_ t → IsDeleted (ctrl_at t i) = true → slot_at t i = Some kv → hash_key kv.1 = Some hash →
  free_slot t q → groups_before IsEmptyOrDeleted t hash q → placing t hash i q t' →
  dropping t' ∧ same_entries t t' ∧
  ctrl_count t' IsFull = ctrl_count t IsFull + 1 ∧ ctrl_count t' IsDeleted = ctrl_count t IsDeleted - 1.
Proof using.
  intros [Hs Ho Hp Hd] Hi Hdel Hkv Hh [Hq Hfree] Hbef Hpl. pose proof Hpl as [Hs' Ha Hc Hsz Hctrl Hslot].
  pose proof (H2_full hash) as (Hf2 & He2 & Hed2 & Hd2 & _). pose proof (H2_range hash) as Hr2.
  assert (ctrl_at t i = kDeleted) as Hci by (by apply Z.eqb_eq).
  assert (∀ h x, groups_before IsEmptyOrDeleted t h x → groups_before IsEmptyOrDeleted t' h x) as Hmono.
  { intros h x. apply before_mono; [done..|]. intros y Hy Hfy. rewrite Hctrl by done. destruct (y =? q); [done|].
    unfold swapped. destruct (Z.eqb_spec y q) as [->|]; [congruence|]. destruct (Z.eqb_spec y i) as [->|]; [|done].
    by rewrite Hci in Hfy. }
  assert (∀ x, 0 ≤ x < capacity_ t → 0 ≤ swapped q i x < capacity_ t) as Hsw by (intros x Hx; unfold swapped; case_bool; lia).
  split; [split|split; [|split]].
  - done.
  - intros x Hx. rewrite Hc in Hx. rewrite Hslot, Hctrl by lia. rewrite Ho by (by apply Hsw).
    destruct (Z.eqb_spec x q) as [->|]; [|done]. rewrite He2. unfold swapped. rewrite Z.eqb_refl, Hci. done.
  - intros x kv'. rewrite Hslot. intros Hx. destruct (Z.eqb_spec x q) as [->|Hne].
    + unfold swapped in Hx. rewrite Z.eqb_refl, Hkv in Hx. injection Hx as <-. exists hash. split; [done|]. intros _.
      rewrite Hctrl, Z.eqb_refl by lia. split; [done|]. by apply Hmono.
    + destruct (Hp _ kv' Hx) as (h & Hh' & Hpl'). exists h. split; [done|].
      assert (0 ≤ x < capacity_ t) as Hxr.
      { apply slot_at_range in Hx as Hr; [|done]. rewrite <-(swapped_invol q i x). by apply Hsw. }
      rewrite Hctrl, (proj2 (Z.eqb_neq x q)) by lia. unfold swapped in *. rewrite (proj2 (Z.eqb_neq x q)) in * by done.
      destruct (Z.eqb_spec x i) as [->|]; [|intros Hc0; destruct (Hpl' Hc0) as [? ?]; split; [done|by apply Hmono]].
      intros Hc0. exfalso. unfold IsEmptyOrDeleted, kSentinel in Hfree. apply Z.ltb_lt in Hfree. lia.
  - intros x y kv1 kv2. rewrite !Hslot. intros Hx Hy Heq. apply (swapped_inj q i). by eapply Hd.
  - intros kv'. split; intros [x Hx].
    + rewrite Hslot in Hx. by exists (swapped q i x).
    + exists (swapped q i x). by rewrite Hslot, swapped_invol.
  - rewrite (placing_count t hash i q t' IsFull Hi Hq Hpl), Hf2, Hci. cbn. lia.
  - rewrite (placing_count t hash i q t' IsDeleted Hi Hq Hpl), Hd2, Hci. cbn. lia.
Qed.

(** The three ways to place an object *)
Lemma place_here t hash i :
  dropping t → 0 ≤ i < capacity_ t → ∃ t', set_ctrl NDEBUG t i (H2 hash) = Some t' ∧ placing t hash i i t'.
Proof using L.
  intros Hdr Hi. pose proof (H2_full hash) as (_ & _ & _ & _ & Hv & Hne).
  destruct (set_ctrl_ok NDEBUG t i (H2 hash) (dr_shape t Hdr) Hi Hv Hne) as (b & Hset & Hs & Hat). eexists. split; [done|].
  assert (∀ x, swapped i i x = x) as Hid by (intros x; unfold swapped; case_bool; lia).
  split; [done..| |]; intros x; [intros Hx|]; rewrite Hid; [by apply Hat|done].
Qed.

Lemma place_empty t hash i q kv :
  dropping t → 0 ≤ i < capacity_ t → 0 ≤ q < capacity_ t → q ≠ i → IsEmpty (ctrl_at t q) = true → slot_at t i = Some kv →
  ∃ t1 t2 t3, set_ctrl NDEBUG t q (H2 hash) = Some t1 ∧ transfer t1 q i = Some t2 ∧ set_ctrl NDEBUG t2 i kEmpty = Some t3 ∧
    placing t hash i q t3.
Proof using L.
  intros Hdr Hi Hq Hne He Hkv. pose proof (H2_full hash) as (_ & _ & _ & _ & Hv & Hns).
  destruct (set_ctrl_ok NDEBUG t q (H2 hash) (dr_shape t Hdr) Hq Hv Hns) as (b1 & Hset1 & Hs1 & Hat1).
  destruct (set_slot_shape (set_bytes t b1) q (Some kv) Hs1 Hq) as (l2 & Hset2 & Hs2 & Hsl2).
  destruct (set_slot_shape (set_slots (set_bytes t b1) l2) i None Hs2 Hi) as (l3 & Hset3 & Hs3 & Hsl3).
  destruct (set_ctrl_ok NDEBUG _ i kEmpty Hs3 Hi) as (b4 & Hset4 & Hs4 & Hat4); [by right; left|done|].
  assert (slot_at t q = None) as Hnone.
  { destruct (slot_at t q) as [o|] eqn:Ho; [|done]. assert (IsEmpty (ctrl_at t q) = false); [|congruence]. apply (dr_occupied t Hdr); [done|by eexists]. }
  eexists _, _, _. split; [exact Hset1|]. unfold transfer. change (slot_at (set_bytes t b1) i) with (slot_at t i). rewrite Hkv. cbn [mbind option_bind].
  rewrite Hset2. cbn [mbind option_bind]. split; [exact Hset3|]. split; [exact Hset4|].
  split; [exact Hs4|done..| |]; intros x; unfold swapped.
  - intros Hx. rewrite Hat4 by done. change (ctrl_at (set_slots (set_slots (set_bytes t b1) l2) l3) x) with (ctrl_at (set_bytes t b1) x).
    rewrite Hat1 by done. destruct (Z.eqb_spec x i) as [->|]; [|by destruct (x =? q)]. rewrite (proj2 (Z.eqb_neq i q)) by done. by apply Z.eqb_eq in He.
  - etrans; [apply Hsl3|]. rewrite Hsl2. destruct (Z.eqb_spec x i) as [->|]; [by rewrite (proj2 (Z.eqb_neq i q))|]. by destruct (x =? q).
Qed.

Lemma place_deleted t hash i q kv :
  dropping t → 0 ≤ i < capacity_ t → 0 ≤ q < capacity_ t → q ≠ i → IsDeleted (ctrl_at t q) = true →
  IsDeleted (ctrl_at t i) = true → slot_at t i = Some kv →
  ∃ t1 o t2 t3, set_ctrl NDEBUG t q (H2 hash) = Some t1 ∧ slot_at t1 q = Some o ∧ set_slot t1 i (Some o) = Some t2 ∧
    set_slot t2 q (Some kv) = Some t3 ∧ placing t hash i q t3.
Proof using L.
  intros Hdr Hi Hq Hne Hdel Hdi Hkv. pose proof (H2_full hash) as (_ & _ & _ & _ & Hv & Hns).
  destruct (set_ctrl_ok NDEBUG t q (H2 hash) (dr_shape t Hdr) Hq Hv Hns) as (b1 & Hset1 & Hs1 & Hat1).
  destruct (dr_occupied t Hdr q Hq) as [_ [o Ho]]; [by apply Z.eqb_eq in Hdel as ->|].
  destruct (set_slot_shape (set_bytes t b1) i (Some o) Hs1 Hi) as (l2 & Hset2 & Hs2 & Hsl2).
  destruct (set_slot_shape (set_slots (set_bytes t b1) l2) q (Some kv) Hs2 Hq) as (l3 & Hset3 & Hs3 & Hsl3).
  eexists _, o, _, _. split; [exact Hset1|]. split; [exact Ho|]. split; [exact Hset2|]. split; [exact Hset3|].
  split; [exact Hs3|done..| |]; intros x; unfold swapped.
  - intros Hx. change (ctrl_at (set_slots (set_slots (set_bytes t b1) l2) l3) x) with (ctrl_at (set_bytes t b1) x). rewrite Hat1 by done.
    destruct (x =? q); [done|]. destruct (Z.eqb_spec x i) as [->|]; [|done]. apply Z.eqb_eq in Hdel, Hdi. congruence.
  - rewrite Hsl3. destruct (Z.eqb_spec x q) as [->|]; [done|]. rewrite Hsl2. by destruct (x =? i).
Qed.

(** ** One turn *)
Lemma drop_deletes_step_ok t i w :
  dropping t → ¬ small t → 0 ≤ i < capacity_ t →
  ∃ t' i' w', drop_deletes_step hash_key NDEBUG p (t, i, w) = Some (t', i', w') ∧
    ((t' = t ∧ i' = i + 1 ∧ IsDeleted (ctrl_at t i) = false) ∨
     ∃ hash q kv, IsDeleted (ctrl_at t i) = true ∧ slot_at t i = Some kv ∧ hash_key kv.1 = Some hash ∧ free_slot t q ∧
       groups_before IsEmptyOrDeleted t hash q ∧ placing t hash i q t' ∧
       (i' = i ∨ i' = i + 1 ∧ IsDeleted (ctrl_at t' i) = false)).
Proof using L.
  intros Hdr Hl Hi. pose proof (dr_shape t Hdr) as Hs. unfold drop_deletes_step. rewrite arr_get_ctrl by (done || (pose proof kWidth_pos; lia)).
  cbn [mbind option_bind]. destruct (IsDeleted (ctrl_at t i)) eqn:Hdel; cbn [negb]; [|eexists _, _, _; split; [done|by left]].
  destruct (dr_occupied t Hdr i Hi) as [_ [kv Hkv]]; [by apply Z.eqb_eq in Hdel as ->|]. rewrite Hkv. cbn [mbind option_bind].
  destruct (dr_placed t Hdr i kv Hkv) as (hash & Hh & _). rewrite Hh. cbn [mbind option_bind].
  assert (free_slot t i) as Hfi by (split; [done|]; by apply Z.eqb_eq in Hdel as ->).
  destruct (find_first_non_full_ok NDEBUG p t hash w Hs) as (q & j & w1 & Hf & Hspec); [right; by exists i|].
  rewrite Hf. cbn [mbind option_bind]. destruct Hspec as [[Hfq Hbef]|[? _]]; [|done]. destruct Hfq as [Hq Hfree].
  destruct (swiss_probe_ok NDEBUG t hash Hs) as (s & Hp & Hps). rewrite Hp. cbn [mbind option_bind].
  assert (∀ x, Z.land (u64 (x - offset_ s)) (capacity_ t) / kWidth = (x - probe_start_of t hash) `mod` cyc t / kWidth) as Hblock.
  { intros x. rewrite capacity_mask_u64 by apply Hs. rewrite Hps. cbn [offset_]. rewrite window_0. by rewrite Zminus_mod_idemp_r. }
  rewrite !Hblock. destruct (Z.eqb_spec ((q - probe_start_of t hash) `mod` cyc t / kWidth) ((i - probe_start_of t hash) `mod` cyc t / kWidth)) as [Heq|Hne].
  - destruct (place_here t hash i Hdr Hi) as (t' & -> & Hpl). cbn [mbind option_bind]. eexists _, _, _. split; [done|]. right.
    exists hash, i, kv. split; [done|]. split; [done|]. split; [done|]. split; [done|]. split; [|split; [done|]].
    + destruct Hbef as (m & Hm & [_ Hcov] & Hb). exists m. split; [done|]. split; [|done]. split; [lia|].
      eapply same_block_covers; [apply kWidth_pos|by apply shape_size|unfold small in Hl; lia|exact Heq|exact Hcov].
    + right. split; [done|]. rewrite (pc_ctrl _ _ _ _ _ Hpl), Z.eqb_refl by lia. by apply H2_full.
  - assert (q ≠ i) as Hqi by congruence. rewrite arr_get_ctrl by (done || (pose proof kWidth_pos; lia)). cbn [mbind option_bind].
    pose proof (ctrl_kind_free t q Hs Hq) as Hk. rewrite Hfree in Hk. destruct (IsEmpty (ctrl_at t q)) eqn:He.
    + destruct (place_empty t hash i q kv Hdr Hi Hq Hqi He Hkv) as (t1 & t2 & t3 & -> & Ht2 & Ht3 & Hpl). cbn [mbind option_bind].
      rewrite Ht2. cbn [mbind option_bind]. rewrite Ht3. cbn [mbind option_bind]. eexists _, _, _. split; [done|]. right.
      exists hash, q, kv. do 6 (split; [done|]). right. split; [done|]. rewrite (pc_ctrl _ _ _ _ _ Hpl) by lia.
      rewrite (proj2 (Z.eqb_neq i q)) by done. unfold swapped. rewrite (proj2 (Z.eqb_neq i q)), Z.eqb_refl by done. by apply Z.eqb_eq in He as ->.
    + cbn [orb] in Hk. destruct (place_deleted t hash i q kv Hdr Hi Hq Hqi (eq_sym Hk) Hdel Hkv) as (t1 & o & t2 & t3 & Ht1 & Ho & Ht2 & Ht3 & Hpl).
      rewrite assert_true by done. cbn [mbind option_bind]. rewrite Ht1. cbn [mbind option_bind]. rewrite Ho. cbn [mbind option_bind].
      rewrite Ht2. cbn [mbind option_bind]. rewrite Ht3. cbn [mbind option_bind]. eexists _, _, _. split; [done|]. right.
      exists hash, q, kv. do 6 (split; [done|]). by left.
Qed.

(** ** The whole rehash *)
Lemma convert_dropping t bytes :
  table_ok t → shape (set_bytes t bytes) →
  (∀ q, 0 ≤ q < capacity_ t → ctrl_at (set_bytes t bytes) q = convert_ctrl (ctrl_at t q)) →
  dropping (set_bytes t bytes) ∧ ctrl_count (set_bytes t bytes) IsFull = 0 ∧ ctrl_count (set_bytes t bytes) IsDeleted = ctrl_count t IsFull.
Proof using.
  intros Ht Hs Hat. pose proof (shape_range t (tk_shape _ t Ht)).
  assert (∀ q, 0 ≤ q < capacity_ t → ¬ 0 ≤ ctrl_at (set_bytes t bytes) q) as Hneg.
  { intros q Hq. rewrite Hat by done. unfold convert_ctrl, kDeleted, kEmpty. destruct (IsFull _); lia. }
  split; [split; [done| | |]|split].
  - intros q Hq. cbn [capacity_ set_bytes] in Hq. rewrite Hat by done. change (slot_at (set_bytes t bytes) q) with (slot_at t q).
    rewrite (tk_full _ t Ht q Hq), <-Z.leb_le. fold (IsFull (ctrl_at t q)). unfold convert_ctrl. by destruct (IsFull (ctrl_at t q)).
  - intros q kv Hkv. destruct (tk_placed _ t Ht q kv Hkv) as (h & Hh & _). exists h. split; [done|]. intros Hc.
    destruct (Hneg q); [|done]. apply (slot_at_range t q kv (tk_shape _ t Ht) Hkv).
  - apply (tk_distinct _ t Ht).
  - apply count_where_none; [cbn; lia|]. intros q Hq. cbn [capacity_ set_bytes] in Hq. apply Z.leb_gt. specialize (Hneg q Hq). lia.
  - apply count_where_ext. intros q Hq. cbn [capacity_ set_bytes] in Hq. rewrite Hat by done. unfold convert_ctrl. by destruct (IsFull _).
Qed.

Definition drop_inv t0 (N : Z) (st : raw_hash_set K V * Z * world) : Prop :=
  let '(t, i, _) := st in
  dropping t ∧ capacity_ t = capacity_ t0 ∧ size_ t = size_ t0 ∧ same_entries t0 t ∧ ctrl_count t IsFull + ctrl_count t IsDeleted = N ∧
  0 ≤ i ≤ capacity_ t ∧ ∀ q, 0 ≤ q < i → IsDeleted (ctrl_at t q) = false.

Lemma drop_loop_ok t0 N st :
  ¬ small t0 → drop_inv t0 N st → ctrl_count st.1.1 IsDeleted ≤ capacity_ t0 →
  ∃ t' w', while (2 * Z.to_nat (capacity_ t0)) (λ '(t, i, _), negb (i =? capacity_ t)) (drop_deletes_step hash_key NDEBUG p) st =
      Some (t', capacity_ t', w') ∧ drop_inv t0 N (t', capacity_ t', w').
Proof using L.
  intros Hl Hinv Hcount. set (m := λ st : raw_hash_set K V * Z * world, Z.to_nat (capacity_ t0 - st.1.2 + ctrl_count st.1.1 IsDeleted)).
  destruct (while_total (drop_inv t0 N) m (λ '(t, i, _), negb (i =? capacity_ t)) (drop_deletes_step hash_key NDEBUG p))
    with (fuel := (2 * Z.to_nat (capacity_ t0))%nat) (s := st) as ([[t' i'] w'] & Hrun & Hinv' & Hend).
  - intros [[t i] w] (Hdr & Hcap & Hsz & Hent & HN & Hi & Hbelow) Hc. apply negb_true_iff, Z.eqb_neq in Hc.
    destruct (drop_deletes_step_ok t i w Hdr ltac:(unfold small in *; lia) ltac:(lia)) as (t1 & i1 & w1 & Hstep & Hcase).
    exists (t1, i1, w1). split; [done|]. pose proof (count_where_nonneg (λ q, IsDeleted (ctrl_at t q)) 0 (capacity_ t)) as Hcn. unfold m. cbn [fst snd].
    destruct Hcase as [(-> & -> & Hnd)|(hash & q & kv & Hdel & Hkv & Hh & Hfree & Hbef & Hpl & Hi1)].
    + split; [|unfold ctrl_count; lia]. do 5 (split; [done|]). split; [lia|]. intros q Hq. destruct (decide (q = i)) as [->|]; [done|]. apply Hbelow. lia.
    + destruct (placing_dropping t hash i q t1 kv Hdr ltac:(lia) Hdel Hkv Hh Hfree Hbef Hpl) as (Hdr1 & Hent1 & Hf1 & Hd1).
      pose proof Hpl as [_ _ Hcap1 Hsz1 Hctrl1 _]. destruct Hfree as [Hq _].
      assert (∀ x, 0 ≤ x < i → IsDeleted (ctrl_at t1 x) = false) as Hb1.
      { intros x Hx. rewrite Hctrl1 by lia. destruct (Z.eqb_spec x q); [by apply H2_full|]. unfold swapped.
        rewrite !(proj2 (Z.eqb_neq _ _)) by lia. by apply Hbelow. }
      assert (same_entries t0 t1) as Hent01 by (intros kv1; etrans; [apply Hent1|apply Hent]).
      assert (0 ≤ ctrl_count t1 IsDeleted) by apply count_where_nonneg.
      split; [|lia]. split; [done|]. split; [lia|]. split; [lia|]. split; [done|]. split; [lia|]. split; [lia|].
      intros x Hx. destruct Hi1 as [->|[-> Hnd]]; [by apply Hb1|]. destruct (decide (x = i)) as [->|]; [done|]. apply Hb1. lia.
  - done.
  - destruct st as [[t i] w]. destruct Hinv as (_ & Hcap & _ & _ & _ & Hi & _). unfold m. cbn [fst snd] in *. lia.
  - apply negb_false_iff, Z.eqb_eq in Hend as ->. by exists t', w'.
Qed.

Lemma drop_deletes_ok t w :
  table_ok t → ¬ small t → size_ t = ctrl_count t IsFull → size_ t ≤ growth_of (capacity_ t) →
  ∃ t' w', drop_deletes_without_resize hash_key NDEBUG p t w = Some (t', w') ∧ table_ok t' ∧ growth_ok t' ∧
    capacity_ t' = capacity_ t ∧ same_entries t t' ∧ size_ t' = size_ t ∧ growth_left t' = growth_of (capacity_ t) - size_ t.
Proof using L.
  intros Ht Hl Hsz Hle. pose proof (tk_shape _ t Ht) as Hs. pose proof (sh_cap t Hs) as Hc. pose proof (capacity_range _ Hc).
  assert (0 < capacity_ t) as Hp by (unfold small in Hl; destruct kWidth_cases; lia). pose proof (growth_of_range (capacity_ t) Hc) as [Hg _].
  assert (0 ≤ size_ t) by (rewrite Hsz; apply count_where_nonneg).
  unfold drop_deletes_without_resize. rewrite (assert_true NDEBUG (IsValidCapacity (capacity_ t))) by (by apply IsValidCapacity_ok). cbn [mbind option_bind].
  rewrite assert_true by (rewrite is_small_spec by done; by rewrite bool_decide_eq_false_2). cbn [mbind option_bind].
  destruct (convert_bytes_ok t Hs Hl) as (bytes & -> & Hs1 & Hat). cbn [mbind option_bind].
  destruct (convert_dropping t bytes Ht Hs1 Hat) as (Hdr & Hf0 & Hd0).
  destruct (drop_loop_ok t (ctrl_count t IsFull) (set_bytes t bytes, 0, w) Hl) as (t' & w' & -> & Hdr' & Hcap & Hsz' & Hent & HN & _ & Hnd).
  { split; [done|]. split; [done|]. split; [done|]. split; [done|]. split; [lia|]. split; [cbn; lia|]. lia. }
  { cbn [fst]. lia. }
  cbn [mbind option_bind]. rewrite reset_growth_left_ok by (rewrite Hcap; done). cbn [mbind option_bind].
  assert (ctrl_count t' IsDeleted = 0) as Hd' by (apply count_where_none; [lia|done]).
  eexists _, _. split; [done|]. rewrite Hcap, Hsz'. rewrite wrap_small by (split; lia).
  split; [by apply table_set_size, dropping_done|]. split; [split; cbn [size_ growth_left capacity_ set_size]; rewrite ?counts_set_size|].
  - lia.
  - rewrite Hcap. lia.
  - lia.
  - done.
  - done.
Qed.
End drop.
