(* ===== verification/SwissInsert.v ===== *)
(** * Insertion in a flat hash map

    [prepare_insert] finds a slot, in place or in a larger array when the table is full; the
    insertions of [raw_hash_set] and of [raw_hash_map] do to the finite map what they say. *)
From stdpp Require Import gmap.
From S2P Require Import Prelude Words BitArray FiniteMaps DenseProbe SwissBits SwissGroup SwissTable SwissShape SwissFind SwissInv SwissResize SwissDrop.

Section insert.
Context `{L : GroupLaws} {K V : Type} `{Countable K} `{EqDecision V}.
Context (hash_key : K → option Z) (NDEBUG : bool) (p : platform).
Implicit Types (t : raw_hash_set K V) (g : gmap K V).
Abbreviation table_ok := (table_ok hash_key).
Abbreviation swiss_models := (swiss_models hash_key).
Abbreviation cyc t := (capacity_ t + 1).

Lemma models_shape t g : swiss_models t g → shape t.
Proof using. intros Hm. apply Hm. Qed.

Lemma models_roomy t g : swiss_models t g → roomy t.
Proof using L. intros Hm. apply counts_roomy; [by eapply models_shape|apply Hm]. Qed.

Lemma models_same t t' g :
  swiss_models t g → table_ok t' → growth_ok t' → capacity_ t' < 2 ^ 50 → same_entries t t' → size_ t' = size_ t →
  swiss_models t' g.
Proof using.
  intros [Ht Hc Hcap Hh Hs] Ht' Hc' Hcap' Hent Hs'. split; [done..| |congruence].
  intros k v. rewrite (Hh k v). symmetry. apply (Hent (k, v)).
Qed.

(** Finding a key of the map *)
Lemma models_found t g key r :
  swiss_models t g → is_found t key r →
  match r with
  | Some q => ∃ v, 0 ≤ q < capacity_ t ∧ 0 ≤ ctrl_at t q ∧ slot_at t q = Some (key, v) ∧ g !! key = Some v
  | None => g !! key = None
  end.
Proof using.
  intros Hm Hr. destruct r as [q|].
  - destruct Hr as (Hq & Hc & v & Hv). exists v. split; [done|]. split; [done|]. split; [done|]. apply (md_holds _ t g Hm). by exists q.
  - destruct (g !! key) as [v|] eqn:Hg; [|done]. apply (md_holds _ t g Hm) in Hg as [q Hq]. by destruct (Hr q v).
Qed.

(** ** Growing *)
Lemma growth_of_double cap : capacity_ok cap → 0 < cap → growth_of cap < growth_of (2 * cap + 1).
Proof using L.
  intros Hc Hp. unfold growth_of. destruct Hc as (k & Hk & ->). destruct (kWidth =? 8); cbn [andb].
  - destruct (Z.eqb_spec (2 ^ k - 1) 7), (Z.eqb_spec (2 * (2 ^ k - 1) + 1) 7); div_lia.
  - div_lia.
Qed.

Lemma capacity_double cap : capacity_ok cap → cap < 2 ^ 60 → capacity_ok (2 * cap + 1).
Proof using.
  intros (k & Hk & ->) Hlt. exists (k + 1). rewrite Z.pow_add_r by lia. split; [|lia].
  assert (k < 61); [|lia]. apply (Z.pow_lt_mono_r_iff 2); lia.
Qed.

Lemma rehash_and_grow_ok t g w :
  swiss_models t g → growth_left t = 0 → Z.of_nat (size g) < 2 ^ 40 →
  ∃ t' w', rehash_and_grow_if_necessary hash_key NDEBUG p t w = Some (t', w') ∧ swiss_models t' g ∧ 0 < growth_left t'.
Proof using L.
  intros Hm Hgl Hsz. pose proof Hm as [Ht Hc Hcap Hh Hs]. pose proof (tk_shape _ t Ht) as Hsh. pose proof (sh_cap t Hsh) as Hck.
  pose proof (capacity_range _ Hck). destruct Hc as [Hc1 Hc2 Hc3 Hc4]. rewrite Hgl in *.
  pose proof (count_where_nonneg (λ q, IsDeleted (ctrl_at t q)) 0 (capacity_ t)) as Hd0. fold (ctrl_count t IsDeleted) in Hd0.
  unfold rehash_and_grow_if_necessary. destruct (Z.eqb_spec (capacity_ t) 0) as [Hc0|Hc0].
  - assert (growth_of 1 = 1) as Hg1 by (unfold growth_of; by destruct (kWidth =? 8)).
    assert (size_ t = 0) as Hz by (rewrite Hc1; unfold ctrl_count; rewrite Hc0; apply count_where_nil).
    destruct (resize_ok hash_key NDEBUG p t 1 w Ht) as (t' & w' & Hr & Ht' & Hc' & Hcap' & Hent & Hs' & Hg'); [by exists 1|done|done|lia|].
    exists t', w'. split; [done|]. split; [|lia]. eapply models_same; [done..|lia|done|done].
  - rewrite CapacityToGrowth_ok by (done || lia). cbn [mbind option_bind].
    destruct (Z.leb_spec (size_ t) (growth_of (capacity_ t) / 2)) as [Hle|Hgt].
    + assert (¬ small t) as Hl.
      { intros Hsm. specialize (Hc4 Hsm). assert (growth_of (capacity_ t) = capacity_ t) as Hgc; [|div_lia].
        unfold growth_of, small in *. destruct kWidth_cases as [Hw|Hw]; rewrite Hw in *; cbn [Z.eqb Pos.eqb andb].
        - rewrite (proj2 (Z.eqb_neq _ 7)) by lia. div_lia.
        - div_lia. }
      destruct (drop_deletes_ok hash_key NDEBUG p t w Ht Hl Hc1) as (t' & w' & Hr & Ht' & Hc' & Hcap' & Hent & Hs' & Hg'); [div_lia|].
      exists t', w'. split; [done|]. split; [eapply models_same; [done..|lia|done|done]|].
      assert (0 < growth_of (capacity_ t)); [|div_lia]. unfold small in Hl. pose proof kWidth_pos.
      unfold growth_of. destruct (_ && _); [done|]. div_lia.
    + assert (capacity_ t < 2 ^ 45) as Hcb.
      { unfold growth_of in Hgt. destruct ((kWidth =? 8) && (capacity_ t =? 7)) eqn:H7; [apply andb_true_iff in H7 as [_ H7%Z.eqb_eq]; lia|].
        div_lia. }
      rewrite wrap_small by (split; lia). replace (capacity_ t * 2 + 1) with (2 * capacity_ t + 1) by lia.
      pose proof (growth_of_double (capacity_ t) Hck ltac:(lia)) as Hg2.
      destruct (resize_ok hash_key NDEBUG p t (2 * capacity_ t + 1) w Ht) as (t' & w' & Hr & Ht' & Hc' & Hcap' & Hent & Hs' & Hg');
        [apply capacity_double; [done|lia]|lia|done|lia|].
      exists t', w'. split; [done|]. split; [|lia]. eapply models_same; [done..|lia|done|done].
Qed.

(** ** A slot for a new key *)
Record taken t g hash q t1 : Prop := Taken {
  tn_models : swiss_models t g;
  tn_reserved : reserved t hash q t1;
  tn_size : size_ t1 = size_ t + 1;
  tn_growth : growth_left t1 = growth_left t - Z.b2z (IsEmpty (ctrl_at t q));
  tn_room : 0 ≤ growth_left t1
}.

Lemma models_size_bound t g : swiss_models t g → Z.of_nat (size g) ≤ capacity_ t ∧ growth_left t ≤ capacity_ t.
Proof using L.
  intros [Ht [H1 H2 H3 _] _ _ Hs]. pose proof (growth_of_range (capacity_ t) (sh_cap t (tk_shape _ t Ht))) as [Hg _].
  pose proof (count_where_nonneg (λ q, IsDeleted (ctrl_at t q)) 0 (capacity_ t)) as Hd. fold (ctrl_count t IsDeleted) in Hd.
  pose proof (count_where_nonneg (λ q, IsFull (ctrl_at t q)) 0 (capacity_ t)) as Hf. fold (ctrl_count t IsFull) in Hf. lia.
Qed.

(** The end of [prepare_insert], where the slot is known *)
Lemma take_slot t g hash q :
  swiss_models t g → free_slot t q → groups_before IsEmptyOrDeleted t hash q → (growth_left t ≠ 0 ∨ IsDeleted (ctrl_at t q) = true) →
  ∃ t1, (c ← arr_get (ctrl_bytes t) q;
         set_ctrl NDEBUG (set_size t (u64 (size_ t + 1)) (u64 (growth_left t - Z.b2z (IsEmpty c)))) q (H2 hash)) = Some t1 ∧
    taken t g hash q t1.
Proof using L.
  intros Hm [Hq Hf] Hb Hroom. pose proof (models_shape t g Hm) as Hs. pose proof kWidth_pos. pose proof (models_size_bound t g Hm) as [Hsb Hgb].
  pose proof (md_counts _ t g Hm) as [H1 H2 H3 H4]. pose proof (md_size _ t g Hm) as Hsz. pose proof (md_cap _ t g Hm).
  rewrite arr_get_ctrl by (done || lia). cbn [mbind option_bind].
  assert (0 ≤ growth_left t - Z.b2z (IsEmpty (ctrl_at t q))) as Hg.
  { destruct (IsEmpty (ctrl_at t q)) eqn:He; cbn [Z.b2z]; [|lia]. destruct Hroom as [|Hd]; [lia|].
    apply Z.eqb_eq in He, Hd. by rewrite He in Hd. }
  pose proof (b2z_bound (IsEmpty (ctrl_at t q))).
  rewrite !wrap_small by (split; lia). set (t0 := set_size t _ _).
  destruct (reserve_ok NDEBUG t0 hash q (shape_set_size t _ _ Hs) (conj Hq Hf) Hb) as (bytes & Hset & Hres).
  eexists. split; [exact Hset|]. split; [done| |done|done|done]. destruct Hres. by split.
Qed.

Lemma prepare_insert_ok t g key hash w :
  swiss_models t g → hash_key key = Some hash → Z.of_nat (size g) < 2 ^ 40 →
  ∃ t0 t1 q w', prepare_insert hash_key NDEBUG p t hash w = Some (t1, q, w') ∧ taken t0 g hash q t1.
Proof using L.
  intros Hm Hh Hsz. pose proof (models_shape t g Hm) as Hs. pose proof kWidth_pos. pose proof (shape_range t Hs) as Hr.
  unfold prepare_insert.
  destruct (find_first_non_full_ok NDEBUG p t hash w Hs) as (q & i & w1 & -> & Hspec).
  { destruct (models_roomy t g Hm) as [|(q & Hq & He)]; [by left|]. right. exists q.
    assert (q ≠ capacity_ t) by (intros ->; by rewrite (sh_sentinel t Hs) in He). split; [lia|]. by apply Z.eqb_eq in He as ->. }
  cbn [mbind option_bind]. rewrite arr_get_ctrl.
  2: done.
  2: { destruct Hspec as [[[? _] _]|(_ & -> & _)]; lia. }
  cbn [mbind option_bind].
  destruct ((growth_left t =? 0) && negb (IsDeleted (ctrl_at t q))) eqn:Hfull.
  - apply andb_true_iff in Hfull as [Hg0%Z.eqb_eq _].
    destruct (rehash_and_grow_ok t g w1 Hm Hg0 Hsz) as (t0 & w2 & -> & Hm0 & Hpos). cbn [mbind option_bind].
    pose proof (models_shape t0 g Hm0) as Hs0. pose proof (md_counts _ t0 g Hm0) as [H1 H2 H3 _].
    pose proof (growth_of_range (capacity_ t0) (sh_cap t0 Hs0)) as [Hgr _].
    pose proof (count_where_nonneg (λ q, IsDeleted (ctrl_at t0 q)) 0 (capacity_ t0)) as Hd. fold (ctrl_count t0 IsDeleted) in Hd.
    destruct (room_free t0 Hs0) as [q0 Hq0]; [lia|].
    destruct (find_first_non_full_ok NDEBUG p t0 hash w2 Hs0) as (q1 & i1 & w3 & -> & Hspec1); [right; by exists q0|]. cbn [mbind option_bind].
    destruct Hspec1 as [[Hf1 Hb1]|(_ & _ & Hn)]; [|by destruct (Hn q0)].
    destruct (take_slot t0 g hash q1 Hm0 Hf1 Hb1) as (t1 & Ht1 & Htk); [left; lia|].
    exists t0, t1, q1, w3. split; [|done]. destruct (arr_get (ctrl_bytes t0) q1); [|done]. cbn [mbind option_bind] in *. by rewrite Ht1.
  - cbn [mbind option_bind]. destruct Hspec as [[Hf Hb]|(Hsm & -> & Hn)].
    + destruct (take_slot t g hash q Hm Hf Hb) as (t1 & Ht1 & Htk).
      { apply andb_false_iff in Hfull as [Hg%Z.eqb_neq|Hd%negb_false_iff]; [by left|by right]. }
      exists t, t1, q, w1. split; [|done]. destruct (arr_get (ctrl_bytes t) q); [|done]. cbn [mbind option_bind] in *. by rewrite Ht1.
    + exfalso. rewrite (sh_sentinel t Hs), andb_true_r in Hfull. apply Z.eqb_neq in Hfull.
      destruct (md_counts _ t g Hm) as [H1 H2 H3 H4]. pose proof (growth_of_range (capacity_ t) (sh_cap t Hs)) as [Hgr _].
      pose proof (count_where_nonneg (λ q, IsDeleted (ctrl_at t q)) 0 (capacity_ t)) as Hd. fold (ctrl_count t IsDeleted) in Hd.
      destruct (room_free t Hs) as [q0 Hq0]; [lia|]. by destruct (Hn q0).
Qed.

(** The object is written: the map has the key. *)
Lemma taken_fill t g hash q t1 key v :
  taken t g hash q t1 → hash_key key = Some hash → g !! key = None →
  ∃ t2, set_slot t1 q (Some (key, v)) = Some t2 ∧ swiss_models t2 (<[key := v]> g) ∧ slot_at t2 q = Some (key, v) ∧
    capacity_ t2 = capacity_ t.
Proof using L.
  intros [Hm Hr Hs1 Hg1 Hroom] Hh Hg. pose proof (md_table _ t g Hm) as Ht. pose proof (tk_shape _ t Ht) as Hs.
  destruct (fill_ok hash_key t hash q t1 (key, v) Ht Hr Hh) as (t2 & Hset & Hfill & Hs2 & Hg2).
  { intros q' v' Hq'. assert (g !! key = Some v'); [|congruence]. apply (md_holds _ t g Hm). by exists q'. }
  exists t2. split; [done|]. pose proof Hfill as [Ht2 Hcap Hslot [Hq Hf] _].
  split; [|split; [rewrite Hslot; by rewrite Z.eqb_refl|done]].
  pose proof (filled_full _ t _ q t2 Hs Hfill) as Hcf. pose proof (filled_deleted _ t _ q t2 Hfill) as Hcd.
  pose proof (ctrl_kind_free t q Hs Hq) as Hk. rewrite Hf in Hk. destruct (md_counts _ t g Hm) as [H1 H2 H3 H4].
  split; [done|split|rewrite Hcap; apply Hm| |].
  - lia.
  - rewrite Hg2, Hg1, H2, Hcf, Hcd, Hcap. destruct (IsEmpty (ctrl_at t q)) eqn:He, (IsDeleted (ctrl_at t q)) eqn:Hd; cbn in *; try done; try lia.
    apply Z.eqb_eq in He, Hd. by rewrite He in Hd.
  - lia.
  - unfold small. rewrite Hcap. intros Hsm. specialize (H4 Hsm). rewrite Hcd, H4. pose proof (count_where_zero (λ q, IsDeleted (ctrl_at t q)) _ _ H4 q Hq) as Hz.
    cbn beta in Hz. by rewrite Hz.
  - intros k' v'. rewrite lookup_insert_Some, (md_holds _ t g Hm k' v'). split.
    + intros [[<- <-]|[Hne [q' Hq']]]; [exists q; by rewrite Hslot, Z.eqb_refl|]. exists q'. rewrite Hslot.
      destruct (Z.eqb_spec q' q) as [->|]; [|done]. assert (0 ≤ ctrl_at t q) as Hbad by (apply (tk_full _ t Ht); [done|by eexists]).
      unfold IsEmptyOrDeleted, kSentinel in Hf. apply Z.ltb_lt in Hf. lia.
    + intros [q' Hq']. rewrite Hslot in Hq'. destruct (q' =? q); [injection Hq' as <- <-; by left|]. right. split; [|by exists q'].
      intros <-. assert (g !! key = Some v'); [|congruence]. apply (md_holds _ t g Hm). by exists q'.
  - rewrite map_size_insert_None by done. rewrite Hs2, Hs1, (md_size _ t g Hm). lia.
Qed.

Lemma it_deref_ok t i kv :
  table_ok t → slot_at t i = Some kv → it_deref NDEBUG t (Some i) = Some kv.
Proof using L.
  intros Ht Hkv. pose proof (slot_at_range t i kv (tk_shape _ t Ht) Hkv) as Hi. pose proof kWidth_pos. unfold it_deref, AssertIsFull.
  destruct NDEBUG; cbn [mbind option_bind]; [done|]. rewrite arr_get_ctrl by (apply Ht || lia). cbn [mbind option_bind].
  rewrite assert_true; [done|]. apply Z.leb_le, Ht; [done|]. by eexists.
Qed.

(** The assert of [emplace_at] holds. *)
Lemma emplace_at_ok t t1 q key v hash :
  set_slot t1 q (Some (key, v)) = Some t → table_ok t → roomy t → hash_key key = Some hash → slot_at t q = Some (key, v) →
  emplace_at hash_key NDEBUG t1 q (key, v) = Some t.
Proof using L.
  intros Hset Ht Hr Hh Hq. pose proof (it_deref_ok t q (key, v) Ht Hq) as Hd. unfold emplace_at. rewrite Hset.
  cbn [mbind option_bind]. destruct NDEBUG eqn:HN; [done|]. rewrite Hd. cbn [mbind option_bind fst]. destruct (swiss_find_ok hash_key false t key hash Ht Hr Hh) as (r & -> & Hf). cbn [mbind option_bind].
  destruct r as [q'|]; [|by destruct (Hf q v)]. destruct Hf as (Hq' & Hc & v' & Hv').
  assert (q' = q) as -> by (by apply (tk_distinct _ t Ht q' q _ _ Hv' Hq)).
  unfold AssertIsValid. rewrite arr_get_ctrl by (apply Ht || (pose proof kWidth_pos; lia)). cbn [mbind option_bind].
  rewrite (assert_true false (IsFull _)) by (by apply Z.leb_le). cbn [mbind option_bind].
  rewrite assert_true by (by apply bool_decide_eq_true). done.
Qed.

Lemma find_or_prepare_ok t g key hash w :
  swiss_models t g → hash_key key = Some hash → Z.of_nat (size g) < 2 ^ 40 →
  (∃ i v, find_or_prepare_insert hash_key NDEBUG p t key w = Some (t, i, false, w) ∧ 0 ≤ i < capacity_ t ∧
     slot_at t i = Some (key, v) ∧ g !! key = Some v) ∨
  (∃ t1 i w', find_or_prepare_insert hash_key NDEBUG p t key w = Some (t1, i, true, w') ∧ g !! key = None ∧
     ∀ v, ∃ t2, set_slot t1 i (Some (key, v)) = Some t2 ∧ emplace_at hash_key NDEBUG t1 i (key, v) = Some t2 ∧
       swiss_models t2 (<[key := v]> g) ∧ slot_at t2 i = Some (key, v)).
Proof using L.
  intros Hm Hh Hsz. unfold find_or_prepare_insert. rewrite Hh. cbn [mbind option_bind].
  destruct (find_key_ok hash_key NDEBUG t key hash (md_table _ t g Hm) (models_roomy t g Hm) Hh) as (s & r & -> & Hf & Hr).
  cbn [mbind option_bind]. rewrite Hf. cbn [mbind option_bind]. apply (models_found t g key r Hm) in Hr. destruct r as [i|].
  - left. destruct Hr as (v & Hi & _ & Hv & Hg). by exists i, v.
  - right. destruct (prepare_insert_ok t g key hash w Hm Hh Hsz) as (t0 & t1 & q & w' & -> & Htk). cbn [mbind option_bind].
    exists t1, q, w'. split; [done|]. split; [done|]. intros v.
    destruct (taken_fill t0 g hash q t1 key v Htk Hh Hr) as (t2 & Hset & Hm2 & Hq & _). exists t2. split; [done|].
    split; [|done]. eapply emplace_at_ok; [done|apply Hm2|by eapply models_roomy|done|done].
Qed.

(** ** Assigning to a value *)
Lemma it_assign_ok t g i key old v :
  swiss_models t g → slot_at t i = Some (key, old) →
  ∃ t', it_assign NDEBUG t (Some i) v = Some t' ∧ swiss_models t' (<[key := v]> g) ∧ slot_at t' i = Some (key, v).
Proof using L.
  intros Hm Hkv. pose proof Hm as [Ht Hc Hcap Hh Hs]. pose proof (tk_shape _ t Ht) as Hsh.
  pose proof (slot_at_range t i _ Hsh Hkv) as Hi. unfold it_assign. rewrite (it_deref_ok t i (key, old)) by done. cbn [mbind option_bind fst].
  destruct (set_slot_shape t i (Some (key, v)) Hsh Hi) as (l & Hset & Hs' & Hsl). rewrite Hset. eexists. split; [done|].
  split; [|rewrite Hsl; by rewrite Z.eqb_refl]. split; [split; [done| | |]|destruct Hc; by split|done| |].
  - intros q Hq. cbn [capacity_ set_slots] in Hq. rewrite Hsl. change (ctrl_at (set_slots t l) q) with (ctrl_at t q). rewrite <-(tk_full _ t Ht q Hq).
    destruct (Z.eqb_spec q i) as [->|]; [|done]. rewrite Hkv. split; intros _; by eexists.
  - intros q kv. rewrite Hsl. destruct (Z.eqb_spec q i) as [->|]; [intros [= <-]; exact (tk_placed _ t Ht i _ Hkv)|apply Ht].
  - intros q q' kv kv'. rewrite !Hsl. destruct (Z.eqb_spec q i) as [->|], (Z.eqb_spec q' i) as [->|]; [done|..].
    + intros [= <-] Hq' Heq. by apply (tk_distinct _ t Ht i q' (key, old) kv').
    + intros Hq [= <-] Heq. by apply (tk_distinct _ t Ht q i kv (key, old)).
    + apply Ht.
  - intros k' v'. rewrite lookup_insert_Some, (Hh k' v'). split.
    + intros [[<- <-]|[Hne [q Hq]]]; [exists i; by rewrite Hsl, Z.eqb_refl|]. exists q. rewrite Hsl.
      destruct (Z.eqb_spec q i) as [->|]; [|done]. congruence.
    + intros [q Hq]. rewrite Hsl in Hq. destruct (Z.eqb_spec q i) as [Heq|Hne]; [injection Hq as <- <-; by left|]. right.
      split; [|by exists q]. intros <-. by apply Hne, (tk_distinct _ t Ht q i _ _ Hq Hkv).
  - rewrite map_size_insert. assert (g !! key = Some old) as -> by (apply Hh; by exists i). done.
Qed.

(** ** The insertions of the class *)
Lemma swiss_emplace_models t g k v w hash :
  swiss_models t g → hash_key k = Some hash → Z.of_nat (size g) < 2 ^ 40 →
  ∃ t' i w', swiss_emplace hash_key NDEBUG p t (k, v) w = Some (t', i, bool_decide (g !! k = None), w') ∧
    swiss_models t' (put_new g (k, v)) ∧ slot_at t' i = Some (k, default v (g !! k)).
Proof using L.
  intros Hm Hh Hsz. unfold swiss_emplace, put_new. cbn [fst snd].
  destruct (find_or_prepare_ok t g k hash w Hm Hh Hsz) as [(i & v' & -> & _ & Hv & Hg)|(t1 & i & w' & -> & Hg & Hfill)]; cbn [mbind option_bind].
  - rewrite Hg. rewrite bool_decide_eq_false_2 by done. by exists t, i, w.
  - destruct (Hfill v) as (t2 & _ & -> & Hm2 & Hv). cbn [mbind option_bind]. rewrite Hg. rewrite bool_decide_eq_true_2 by done. by exists t2, i, w'.
Qed.

Lemma swiss_insert_or_assign_models t g k v w hash :
  swiss_models t g → hash_key k = Some hash → Z.of_nat (size g) < 2 ^ 40 →
  ∃ t' w', swiss_insert_or_assign hash_key NDEBUG p t k v w = Some (t', bool_decide (g !! k = None), w') ∧ swiss_models t' (<[k := v]> g).
Proof using L.
  intros Hm Hh Hsz. unfold swiss_insert_or_assign.
  destruct (find_or_prepare_ok t g k hash w Hm Hh Hsz) as [(i & v' & -> & _ & Hv & Hg)|(t1 & i & w' & -> & Hg & Hfill)]; cbn [mbind option_bind].
  - destruct (it_assign_ok t g i k v' v Hm Hv) as (t' & -> & Hm' & _). cbn [mbind option_bind]. rewrite bool_decide_eq_false_2 by congruence. by exists t', w.
  - destruct (Hfill v) as (t2 & _ & -> & Hm2 & _). cbn [mbind option_bind]. rewrite bool_decide_eq_true_2 by done. by exists t2, w'.
Qed.

Lemma swiss_subscript_models dflt t g k v w hash :
  swiss_models t g → hash_key k = Some hash → Z.of_nat (size g) < 2 ^ 40 →
  ∃ t' w', swiss_subscript_assign hash_key NDEBUG p dflt t k v w = Some (t', w') ∧ swiss_models t' (<[k := v]> g).
Proof using L.
  intros Hm Hh Hsz. unfold swiss_subscript_assign. destruct (swiss_emplace_models t g k dflt w hash Hm Hh Hsz) as (t1 & i & w1 & -> & Hm1 & Hv).
  cbn [mbind option_bind]. destruct (it_assign_ok t1 _ i k _ v Hm1 Hv) as (t2 & -> & Hm2 & _). cbn [mbind option_bind].
  exists t2, w1. split; [done|]. replace (<[k := v]> g) with (<[k := v]> (put_new g (k, dflt))); [done|].
  unfold put_new. cbn [fst snd]. destruct (g !! k); [done|]. by rewrite insert_insert_eq.
Qed.

Lemma swiss_insert_range_models l : ∀ t g w,
  swiss_models t g → Forall (λ kv, is_Some (hash_key kv.1)) l → Z.of_nat (size g) + Z.of_nat (length l) < 2 ^ 40 →
  ∃ t' w', swiss_insert_range hash_key NDEBUG p t l w = Some (t', w') ∧ swiss_models t' (put_all g l).
Proof using L.
  induction l as [|[k v] l IH]; intros t g w Hm Hh Hsz; cbn [swiss_insert_range length] in *; [by exists t, w|].
  apply Forall_cons in Hh as [[hash Hk] Hh]. destruct (swiss_emplace_models t g k v w hash Hm Hk ltac:(lia)) as (t1 & i & w1 & -> & Hm1 & _).
  cbn [mbind option_bind]. apply IH; [done|done|]. pose proof (put_new_size g (k, v)). lia.
Qed.

Lemma lazy_emplace_models t g k v w hash :
  swiss_models t g → hash_key k = Some hash → Z.of_nat (size g) < 2 ^ 40 →
  ∃ t' i w', lazy_emplace hash_key NDEBUG p t k (k, v) w = Some (t', i, w') ∧ swiss_models t' (put_new g (k, v)) ∧
    slot_at t' i = Some (k, default v (g !! k)).
Proof using L.
  intros Hm Hh Hsz. unfold lazy_emplace, put_new. cbn [fst snd].
  destruct (find_or_prepare_ok t g k hash w Hm Hh Hsz) as [(i & v' & -> & _ & Hv & Hg)|(t1 & i & w' & -> & Hg & Hfill)]; cbn [mbind option_bind].
  - rewrite Hg. by exists t, i, w.
  - destruct (Hfill v) as (t2 & -> & _ & Hm2 & Hv). cbn [mbind option_bind]. rewrite Hg. by exists t2, i, w'.
Qed.

Lemma insert_node_models t g node w :
  swiss_models t g → (∀ kv, node = Some kv → is_Some (hash_key kv.1)) → Z.of_nat (size g) < 2 ^ 40 →
  ∃ t' w', insert_node hash_key NDEBUG p t node w = Some (t',
      (match node with Some kv => bool_decide (g !! kv.1 = None) | None => false end),
      (match node with Some kv => if g !! kv.1 is Some _ then Some kv else None | None => None end), w') ∧
    swiss_models t' (match node with Some kv => put_new g kv | None => g end).
Proof using L.
  intros Hm Hh Hsz. unfold insert_node, put_new. destruct node as [[k v]|]; [|by exists t, w]. cbn [fst snd].
  destruct (Hh (k, v) eq_refl) as [hash Hk].
  destruct (find_or_prepare_ok t g k hash w Hm Hk Hsz) as [(i & v' & -> & _ & Hv & Hg)|(t1 & i & w' & -> & Hg & Hfill)]; cbn [mbind option_bind].
  - rewrite Hg. rewrite bool_decide_eq_false_2 by done. by exists t, w.
  - destruct (Hfill v) as (t2 & -> & _ & Hm2 & _). cbn [mbind option_bind]. rewrite Hg. rewrite bool_decide_eq_true_2 by done. by exists t2, w'.
Qed.
End insert.
