(* ===== verification/SwissErase.v ===== *)
(** * Lookup and erasure in a flat hash map

    An erased slot becomes empty when every group that covers it has another empty byte, so
    that no probe can have passed it, and deleted otherwise; the code counts the bytes on
    both sides of the slot to decide. The iterators meet the full slots in their order. *)
From stdpp Require Import gmap.
From S2P Require Import Prelude Words BitArray FiniteMaps DenseProbe SwissBits SwissGroup SwissTable SwissShape SwissFind SwissInv SwissResize SwissDrop SwissInsert.

Section erase.
Context `{L : GroupLaws} {K V : Type} `{Countable K} `{EqDecision V}.
Context (hash_key : K → option Z) (NDEBUG : bool) (p : platform).
Implicit Types (t : raw_hash_set K V) (g : gmap K V).
Abbreviation table_ok := (table_ok hash_key).
Abbreviation swiss_models := (swiss_models hash_key).
Abbreviation cyc t := (capacity_ t + 1).

(** ** What the client finds *)
Lemma swiss_find_models t g key hash :
  swiss_models t g → hash_key key = Some hash →
  ∃ r, swiss_find hash_key NDEBUG t key = Some r ∧
    match r with
    | Some q => ∃ v, 0 ≤ q < capacity_ t ∧ slot_at t q = Some (key, v) ∧ g !! key = Some v
    | None => g !! key = None
    end.
Proof using L.
  intros Hm Hh. destruct (swiss_find_ok hash_key NDEBUG t key hash (md_table _ t g Hm) (models_roomy _ t g Hm) Hh) as (r & -> & Hr).
  exists r. split; [done|]. apply (models_found _ t g key r Hm) in Hr. destruct r as [q|]; [|done].
  destruct Hr as (v & Hq & _ & Hv & Hg). by exists v.
Qed.

Lemma it_is_end_ok t it :
  table_ok t → (∀ q, it = Some q → is_Some (slot_at t q)) →
  it_is_end NDEBUG t it = Some (if it is None then true else false).
Proof using L.
  intros Ht Hit. unfold it_is_end, AssertIsValid. destruct NDEBUG; [done|]. destruct it as [q|]; [|done].
  destruct (Hit q eq_refl) as [kv Hkv]. pose proof (slot_at_range t q kv (tk_shape _ t Ht) Hkv). pose proof kWidth_pos.
  rewrite arr_get_ctrl by (apply Ht || lia). cbn [mbind option_bind]. rewrite assert_true; [done|].
  apply Z.leb_le, Ht; [done|]. by eexists.
Qed.

Lemma swiss_find_value_models t g key hash :
  swiss_models t g → hash_key key = Some hash → swiss_find_value hash_key NDEBUG t key = Some (g !! key).
Proof using L.
  intros Hm Hh. unfold swiss_find_value. destruct (swiss_find_models t g key hash Hm Hh) as (r & -> & Hr). cbn [mbind option_bind].
  pose proof (md_table _ t g Hm) as Ht. rewrite it_is_end_ok; [|done|].
  - cbn [mbind option_bind]. destruct r as [q|]; [|by rewrite Hr]. destruct Hr as (v & _ & Hv & ->).
    rewrite (it_deref_ok hash_key NDEBUG t q (key, v)) by done. done.
  - intros q ->. destruct Hr as (v & _ & Hv & _). by eexists.
Qed.

Lemma swiss_count_models t g key hash :
  swiss_models t g → hash_key key = Some hash →
  swiss_count hash_key NDEBUG t key = Some (if g !! key is Some _ then 1 else 0) ∧
  swiss_contains hash_key NDEBUG t key = Some (bool_decide (is_Some (g !! key))) ∧
  swiss_at hash_key NDEBUG t key = g !! key.
Proof using L.
  intros Hm Hh. unfold swiss_count, swiss_contains, swiss_at. destruct (swiss_find_models t g key hash Hm Hh) as (r & -> & Hr). cbn [mbind option_bind].
  pose proof (md_table _ t g Hm) as Ht. rewrite it_is_end_ok; [|done|].
  - cbn [mbind option_bind]. destruct r as [q|]; [|by rewrite Hr, bool_decide_eq_false_2 by (by intros [? ?])].
    destruct Hr as (v & _ & Hv & ->). rewrite (it_deref_ok hash_key NDEBUG t q (key, v)) by done. by rewrite bool_decide_eq_true_2.
  - intros q ->. destruct Hr as (v & _ & Hv & _). by eexists.
Qed.

(** ** Whether a probe can have passed a slot *)
Lemma large_byte t o j :
  shape t → ¬ small t → 0 ≤ o ≤ capacity_ t → 0 ≤ j < kWidth → ctrl_at t (o + j) = ctrl_at t ((o + j) `mod` cyc t).
Proof using L.
  intros Hs Hl Ho Hj. destruct (large_groups t Hs Hl) as (k & Hk & Hng). pose proof kWidth_pos. assert (kWidth ≤ cyc t) by nia.
  rewrite group_byte by (done || lia). rewrite (proj2 (Z.leb_le _ _)); [done|]. destruct (decide (j = 0)); lia.
Qed.

(** The empty bytes nearest to a slot leave less than a group's width between them. *)
Lemma near_empty t i j1 j2 hash m :
  shape t → ¬ small t → 0 ≤ i < capacity_ t → 0 ≤ j1 < kWidth → 0 ≤ j2 < kWidth → j1 + j2 < kWidth →
  IsEmpty (ctrl_at t (i + j1)) = true → IsEmpty (ctrl_at t ((i - kWidth) `mod` cyc t + (kWidth - 1 - j2))) = true →
  seen t hash m i → has_empty t hash m.
Proof using L.
  intros Hs Hl Hi Hj1 Hj2 Hj He1 He2 [_ Hcov]. pose proof (shape_range t Hs). pose proof kWidth_pos as HW.
  set (o := window kWidth (cyc t) (probe_start_of t hash) m) in *.
  pose proof (start_range t hash m Hs) as Ho. fold o in Ho. unfold covers in Hcov. fold o in Hcov.
  set (d := (i - o) `mod` cyc t) in *. pose proof (Z.mod_pos_bound (i - o) (cyc t) ltac:(lia)) as Hd. fold d in Hd.
  assert ((o + d) `mod` cyc t = i) as Hod.
  { unfold d. rewrite Zplus_mod_idemp_r. replace (o + (i - o)) with i by lia. apply Z.mod_small. lia. }
  right. rewrite large_byte in He1, He2 by (done || lia || (pose proof (Z.mod_pos_bound (i - kWidth) (cyc t) ltac:(lia)); lia)).
  destruct (Z.lt_ge_cases (d + j1) kWidth) as [Hlt|Hge].
  - exists ((o + (d + j1)) `mod` cyc t). replace ((o + (d + j1)) `mod` cyc t) with ((i + j1) `mod` cyc t).
    2:{ rewrite <-Hod, Zplus_mod_idemp_l. f_equal. lia. }
    split; [|done]. pose proof (Z.mod_pos_bound (i + j1) (cyc t) ltac:(lia)). split; [lia|].
    replace ((i + j1) `mod` cyc t) with ((o + (d + j1)) `mod` cyc t) by (rewrite <-Hod, Zplus_mod_idemp_l; f_equal; lia).
    apply byte_covers; [done|by apply shape_size|lia].
  - exists ((o + (d - 1 - j2)) `mod` cyc t).
    assert (((i - kWidth) `mod` cyc t + (kWidth - 1 - j2)) `mod` cyc t = (o + (d - 1 - j2)) `mod` cyc t) as Heq.
    { rewrite Zplus_mod_idemp_l. replace (i - kWidth + (kWidth - 1 - j2)) with (i + (- 1 - j2)) by lia.
      rewrite <-Hod, Zplus_mod_idemp_l. f_equal. lia. }
    rewrite Heq in He2. split; [|done]. pose proof (Z.mod_pos_bound (o + (d - 1 - j2)) (cyc t) ltac:(lia)). split; [lia|].
    apply byte_covers; [done|by apply shape_size|lia].
Qed.

(** ** [erase_meta_only] *)
Lemma empty_ends t o :
  shape t → 0 ≤ o ≤ capacity_ t → existsb IsEmpty (group_at t o) = true →
  (∃ j, 0 ≤ j < kWidth ∧ mask_TrailingZeros mask_shift (MatchEmpty (group_at t o)) = Some j ∧ IsEmpty (ctrl_at t (o + j)) = true) ∧
  (∃ j, 0 ≤ j < kWidth ∧ mask_LeadingZeros mask_bits kWidth mask_shift (MatchEmpty (group_at t o)) = j ∧
     IsEmpty (ctrl_at t (o + (kWidth - 1 - j))) = true ∧ (IsEmpty (ctrl_at t (o + (kWidth - 1))) = true → j = 0)).
Proof using L.
  intros Hs Ho He. rewrite <-existsb_fmap in He. pose proof (group_at_length t o) as Hlen. pose proof mask_shift_nonneg as Hms.
  rewrite MatchEmpty_val by (done || by apply group_at_valid).
  assert (∀ n, (IsEmpty <$> group_at t o) !! n = Some true → Z.of_nat n < kWidth ∧ IsEmpty (ctrl_at t (o + Z.of_nat n)) = true) as Hat.
  { intros n Hn. rewrite list_lookup_fmap in Hn. destruct (group_at t o !! n) as [c|] eqn:Hc; [|done]. apply group_at_lookup in Hc as [? ->].
    by injection Hn. }
  split.
  - destruct (first_true _ He) as (n & r & Hn). destruct (Hat n) as [Hlt Hemp].
    { rewrite Hn, lookup_app_r, length_replicate, Nat.sub_diag by (rewrite length_replicate; lia). done. }
    exists (Z.of_nat n). split; [lia|]. split; [|done]. rewrite Hn. by apply mask_TrailingZeros_val.
  - destruct (last_true _ He) as (r & j & Hr). destruct (Hat (length r)) as [Hlt Hemp]; [by rewrite Hr, list_lookup_middle|].
    assert (Z.of_nat (length r + S j) = kWidth) as Hw.
    { rewrite <-Hlen, <-(length_fmap IsEmpty (group_at t o)), Hr, length_app. cbn [length]. rewrite length_replicate. done. }
    exists (Z.of_nat j). split; [lia|]. split; [|split].
    + rewrite Hr, <-Hw. apply mask_LeadingZeros_val; [done|]. rewrite Hw. apply mask_bits_enough.
    + replace (kWidth - 1 - Z.of_nat j) with (Z.of_nat (length r)) by lia. done.
    + intros Hlast. destruct j as [|j]; [done|]. exfalso.
      assert ((IsEmpty <$> group_at t o) !! (length r + S j)%nat = Some true) as Hbad.
      { rewrite list_lookup_fmap. assert (group_at t o !! (length r + S j)%nat = Some (ctrl_at t (o + (kWidth - 1)))) as ->.
        { apply group_at_lookup. split; [lia|]. f_equal. lia. } cbn. by rewrite Hlast. }
      rewrite Hr, lookup_app_r in Hbad by lia. replace (length r + S j - length r)%nat with (S j) in Hbad by lia.
      change ((true :: replicate (S j) false) !! S j) with (replicate (S j) false !! j) in Hbad. rewrite lookup_replicate_2 in Hbad by lia. done.
Qed.

Lemma erase_meta_ok t i :
  shape t → 0 ≤ i < capacity_ t → 0 ≤ ctrl_at t i →
  ∃ bytes wnf, erase_meta_only NDEBUG t i =
      Some (set_size (set_bytes t bytes) (u64 (size_ t - 1)) (u64 (growth_left t + Z.b2z wnf))) ∧ shape (set_bytes t bytes) ∧
    (∀ q, 0 ≤ q ≤ capacity_ t → ctrl_at (set_bytes t bytes) q = if q =? i then if wnf : bool then kEmpty else kDeleted else ctrl_at t q) ∧
    (wnf = true → ∀ hash m, seen t hash m i → has_empty t hash m) ∧ (small t → wnf = true).
Proof using L.
  intros Hs Hi Hc. pose proof kWidth_pos as HW. pose proof (shape_range t Hs). unfold erase_meta_only.
  rewrite arr_get_ctrl by (done || lia). cbn [mbind option_bind]. rewrite assert_true by (by apply Z.leb_le). cbn [mbind option_bind].
  rewrite capacity_mask_u64 by apply Hs. pose proof (Z.mod_pos_bound (i - kWidth) (cyc t) ltac:(lia)) as Hb.
  set (ib := (i - kWidth) `mod` cyc t) in *. rewrite !load_group_at by (done || lia). cbn [mbind option_bind].
  rewrite !MatchEmpty_bool by (done || lia).
  set (wnf_of := if _ && _ then _ else _). assert (∃ wnf : bool, wnf_of = Some wnf ∧
    (wnf = true → ∀ hash m, seen t hash m i → has_empty t hash m) ∧ (small t → wnf = true)) as (wnf & Hwnf & Hnever & Hsmall).
  { unfold wnf_of. destruct (existsb IsEmpty (group_at t ib)) eqn:Heb; [destruct (existsb IsEmpty (group_at t i)) eqn:Hei|]; cbn [andb].
    - destruct (empty_ends t i Hs ltac:(lia) Hei) as [(j1 & Hj1 & -> & He1) _].
      destruct (empty_ends t ib Hs ltac:(lia) Heb) as [_ (j2 & Hj2 & -> & He2 & Hlast)]. cbn [mbind option_bind].
      eexists. split; [done|]. split.
      + intros Hlt%Z.ltb_lt hash m Hseen. destruct (decide (small t)) as [|Hl]; [by left|]. by eapply (near_empty t i j1 j2).
      + intros Hsm. unfold small in Hsm. apply Z.ltb_lt. rewrite Hlast; [lia|].
        rewrite group_byte by (done || lia). by rewrite (proj2 (Z.leb_gt _ _)) by lia.
    - exists false. split; [done|]. split; [done|]. intros Hsm. exfalso. apply not_true_iff_false in Hei. apply Hei.
      apply existsb_exists. exists kEmpty. split; [|done]. apply list_elem_of_In, list_elem_of_lookup. unfold small in Hsm.
      exists (Z.to_nat (2 * cyc t - 1 - i)). apply group_at_lookup. rewrite Z2Nat.id by lia. split; [lia|]. by rewrite small_group_empty by (done || lia).
    - exists false. split; [done|]. split; [done|]. intros Hsm. exfalso. apply not_true_iff_false in Heb. apply Heb.
      apply existsb_exists. exists kEmpty. split; [|done]. apply list_elem_of_In, list_elem_of_lookup. unfold small in Hsm.
      exists (Z.to_nat (2 * cyc t - 1 - ib)). apply group_at_lookup. rewrite Z2Nat.id by lia. split; [lia|]. by rewrite small_group_empty by (done || lia). }
  rewrite Hwnf. cbn [mbind option_bind].
  destruct (set_ctrl_ok NDEBUG t i (if wnf then kEmpty else kDeleted) Hs Hi) as (bytes & -> & Hs' & Hat);
    [destruct wnf; [by right; left|by right; right; left]|by destruct wnf|].
  cbn [mbind option_bind]. by exists bytes, wnf.
Qed.

(** ** Erasing the entry in a slot *)
Lemma erase_slot_models t g i key v :
  swiss_models t g → slot_at t i = Some (key, v) →
  ∃ t0 t', set_slot t i None = Some t0 ∧ erase_meta_only NDEBUG t0 i = Some t' ∧ swiss_models t' (delete key g) ∧
    capacity_ t' = capacity_ t ∧ ∀ q, slot_at t' q = if q =? i then None else slot_at t q.
Proof using L.
  intros Hm Hkv. pose proof Hm as [Ht Hc Hcap Hh Hsz]. pose proof (tk_shape _ t Ht) as Hs. pose proof (slot_at_range t i _ Hs Hkv) as Hi.
  assert (0 ≤ ctrl_at t i) as Hfull by (apply (tk_full _ t Ht); [done|by eexists]).
  destruct (set_slot_shape t i None Hs Hi) as (l & Hset & Hs0 & Hsl).
  destruct (erase_meta_ok (set_slots t l) i Hs0 Hi Hfull) as (bytes & wnf & Herase & Hs' & Hat & Hnever & Hsmall).
  eexists _, _. split; [exact Hset|]. split; [exact Herase|]. set (t' := set_size _ _ _).
  change (∀ hash m, seen (set_slots t l) hash m i → has_empty (set_slots t l) hash m) with (∀ hash m, seen t hash m i → has_empty t hash m) in Hnever.
  assert (∀ q, 0 ≤ q ≤ capacity_ t → ctrl_at t' q = if q =? i then if wnf then kEmpty else kDeleted else ctrl_at t q) as Hat' by exact Hat.
  assert (∀ q, slot_at t' q = if q =? i then None else slot_at t q) as Hsl' by exact Hsl.
  assert (shape t') as Hst' by (by apply shape_set_size).
  pose proof (λ P, ctrl_count_update t t' i _ P eq_refl Hi Hat') as Hcnt.
  assert (∀ h q, groups_before IsEmpty t h q → groups_before IsEmpty t' h q) as Hmono.
  { intros h q (m & Hm0 & Hsn & Hb). exists m. split; [done|]. split; [done|]. intros m' Hm' q' Hq'. rewrite Hat' by apply Hq'.
    destruct (Z.eqb_spec q' i) as [->|]; [|by apply (Hb m')]. destruct wnf; [|done]. exfalso.
    destruct (Hnever eq_refl h m' Hq') as [Hsm|(x & Hx & Hxe)]; [rewrite groups_small in Hm0 by done; lia|].
    by rewrite (Hb m' Hm' x Hx) in Hxe. }
  destruct Hc as [H1 H2 H3 H4]. pose proof (models_size_bound _ t g Hm) as [Hb1 Hb2]. pose proof (b2z_bound wnf).
  assert (g !! key = Some v) as Hg by (apply Hh; by exists i).
  pose proof (map_size_delete_plus g key v Hg) as Hszd.
  assert (IsFull (ctrl_at t i) = true ∧ IsDeleted (ctrl_at t i) = false) as [Hf Hnd].
  { split; [by apply Z.leb_le|]. apply Z.eqb_neq. unfold kDeleted. lia. }
  split; [split; [split; [done| | |]| |done| |]|done].
  - intros q Hq. rewrite Hsl', Hat' by (change (capacity_ t') with (capacity_ t) in Hq; lia). destruct (q =? i).
    + split; [by intros [? ?]|]. destruct wnf; unfold kEmpty, kDeleted; lia.
    + by apply (tk_full _ t Ht).
  - intros q kv. rewrite Hsl'. destruct (Z.eqb_spec q i) as [|Hne]; [done|]. intros Hq. destruct (tk_placed _ t Ht q kv Hq) as (h & Hk & Hch & Hbf).
    pose proof (slot_at_range t q kv Hs Hq). exists h. split; [done|]. split; [|by apply Hmono]. rewrite Hat' by lia.
    by rewrite (proj2 (Z.eqb_neq q i)).
  - intros q q' kv kv'. rewrite !Hsl'. destruct (q =? i), (q' =? i); [done..|]. apply (tk_distinct _ t Ht).
  - unfold t'. split; cbn [size_ growth_left capacity_ set_size set_bytes set_slots]; fold t'.
    + rewrite Hcnt, Hf. rewrite wrap_small by (split; lia). destruct wnf; cbn; lia.
    + rewrite !Hcnt, Hf, Hnd. rewrite wrap_small by (split; lia). destruct wnf; cbn; lia.
    + rewrite wrap_small by (split; lia). lia.
    + intros Hsm. rewrite Hcnt, Hnd. rewrite (Hsmall Hsm). cbn. specialize (H4 Hsm). lia.
  - intros k' v'. rewrite lookup_delete_Some, (Hh k' v'). split.
    + intros [Hne [q Hq]]. exists q. rewrite Hsl'. destruct (Z.eqb_spec q i) as [Heq|]; [|done]. subst q. congruence.
    + intros [q Hq]. rewrite Hsl' in Hq. destruct (Z.eqb_spec q i) as [|Hne]; [done|]. split; [|by exists q].
      intros <-. by apply Hne, (tk_distinct _ t Ht q i _ _ Hq Hkv).
  - unfold t'. cbn [size_ set_size set_slots]. rewrite wrap_small by (split; lia). lia.
Qed.

Lemma AssertIsFull_ok t q : table_ok t → is_Some (slot_at t q) → AssertIsFull NDEBUG t (Some q) = Some ().
Proof using L.
  intros Ht [kv Hkv]. unfold AssertIsFull. destruct NDEBUG; [done|]. cbn [mbind option_bind]. pose proof kWidth_pos.
  pose proof (slot_at_range t q kv (tk_shape _ t Ht) Hkv). rewrite arr_get_ctrl by (apply Ht || lia). cbn [mbind option_bind].
  apply assert_true. apply Z.leb_le, Ht; [done|]. by eexists.
Qed.

Lemma swiss_erase_at_models t g i key v :
  swiss_models t g → slot_at t i = Some (key, v) →
  ∃ t', swiss_erase_at NDEBUG t (Some i) = Some t' ∧ swiss_models t' (delete key g) ∧ capacity_ t' = capacity_ t ∧
    ∀ q, slot_at t' q = if q =? i then None else slot_at t q.
Proof using L.
  intros Hm Hkv. destruct (erase_slot_models t g i key v Hm Hkv) as (t0 & t' & Hset & Her & Hm' & Hrest).
  exists t'. split; [|done]. unfold swiss_erase_at. rewrite (AssertIsFull_ok t) by (exact (md_table _ t g Hm) || by eexists). cbn [mbind option_bind].
  rewrite Hkv. cbn [mbind option_bind]. rewrite Hset. cbn [mbind option_bind]. exact Her.
Qed.

Lemma swiss_erase_models t g key hash :
  swiss_models t g → hash_key key = Some hash →
  ∃ t', swiss_erase hash_key NDEBUG t key = Some (t', if g !! key is Some _ then 1 else 0) ∧ swiss_models t' (delete key g).
Proof using L.
  intros Hm Hh. unfold swiss_erase. destruct (swiss_find_models t g key hash Hm Hh) as (r & -> & Hr). cbn [mbind option_bind].
  rewrite it_is_end_ok; [|apply Hm|intros q ->; destruct Hr as (v & _ & Hv & _); by eexists]. cbn [mbind option_bind].
  destruct r as [q|].
  - destruct Hr as (v & _ & Hv & ->). destruct (swiss_erase_at_models t g q key v Hm Hv) as (t' & -> & Hm' & _). by exists t'.
  - rewrite Hr. exists t. split; [done|]. by rewrite delete_id.
Qed.

Lemma swiss_extract_models t g key hash :
  swiss_models t g → hash_key key = Some hash →
  ∃ t', swiss_extract hash_key NDEBUG t key = Some (t', (λ v, (key, v)) <$> g !! key) ∧ swiss_models t' (delete key g).
Proof using L.
  intros Hm Hh. unfold swiss_extract. destruct (swiss_find_models t g key hash Hm Hh) as (r & -> & Hr). cbn [mbind option_bind].
  rewrite it_is_end_ok; [|apply Hm|intros q ->; destruct Hr as (v & _ & Hv & _); by eexists]. cbn [mbind option_bind].
  destruct r as [q|].
  - destruct Hr as (v & _ & Hv & ->). destruct (erase_slot_models t g q key v Hm Hv) as (t0 & t' & Hset & Her & Hm' & _).
    rewrite (AssertIsFull_ok t) by (exact (md_table _ t g Hm) || by eexists). cbn [mbind option_bind]. rewrite Hv. cbn [mbind option_bind].
    rewrite Hset. cbn [mbind option_bind]. rewrite Her. by exists t'.
  - rewrite Hr. exists t. split; [done|]. by rewrite delete_id.
Qed.
End erase.

(** * Iteration over a flat hash map, and what the client does with it

    An iterator skips the free slots a group at a time; the positions it meets are those of
    the full slots, in order. Entries may be erased on the way; the entries of one map may
    be moved to another; two maps are compared through the elements of one. *)

Section iter.
Context `{L : GroupLaws} {K V : Type} `{Countable K} `{EqDecision V}.
Context (hash_key : K → option Z) (NDEBUG : bool) (p : platform).
Implicit Types (t : raw_hash_set K V) (g : gmap K V).
Abbreviation table_ok := (table_ok hash_key).
Abbreviation swiss_models := (swiss_models hash_key).

(** ** Skipping *)
Lemma leading_free_spec l : 0 ≤ leading_free l ≤ Z.of_nat (length l) ∧
  ∀ i c, Z.of_nat i < leading_free l → l !! i = Some c → IsEmptyOrDeleted c = true.
Proof using.
  induction l as [|c l [Hl Hf]]; cbn [leading_free length]; [split; [lia|]; intros i c' Hi; lia|].
  destruct (IsEmptyOrDeleted c) eqn:Hc; [|split; [lia|]; intros i c' Hi; lia]. split; [lia|].
  intros [|i] c' Hi Hlk; [by injection Hlk as <-|]. apply (Hf i); [lia|done].
Qed.

Lemma slot_none t q : table_ok t → 0 ≤ q < capacity_ t → IsEmptyOrDeleted (ctrl_at t q) = true → slot_at t q = None.
Proof using.
  intros Ht Hq Hf. destruct (slot_at t q) as [kv|] eqn:Hkv; [|done].
  assert (0 ≤ ctrl_at t q) as Hc by (apply (tk_full _ t Ht); [done|by eexists]). unfold IsEmptyOrDeleted, kSentinel in Hf.
  apply Z.ltb_lt in Hf. lia.
Qed.

(** The first position that is not free, from a position on *)
Lemma skip_loop_ok t : table_ok t → ∀ fuel i,
  0 ≤ i ≤ capacity_ t → capacity_ t - i < Z.of_nat fuel →
  ∃ q, skip_loop fuel t i = Some q ∧ i ≤ q ≤ capacity_ t ∧ IsEmptyOrDeleted (ctrl_at t q) = false ∧
    ∀ x, i ≤ x < q → slot_at t x = None.
Proof using L.
  intros Ht. pose proof (tk_shape _ t Ht) as Hs. pose proof kWidth_pos.
  induction fuel as [|fuel IH]; intros i Hi Hfuel; [lia|]. cbn [skip_loop]. rewrite arr_get_ctrl by (done || lia). cbn [mbind option_bind].
  destruct (IsEmptyOrDeleted (ctrl_at t i)) eqn:Hfree; [|exists i; split; [done|]; split; [lia|]; split; [done|]; lia].
  rewrite load_group_at by done. cbn [mbind option_bind].
  rewrite CountLeading_val by (apply group_at_length || by apply group_at_valid). cbn [mbind option_bind].
  destruct (leading_free_spec (group_at t i)) as [Hl Hlf]. set (shift := leading_free (group_at t i)) in *.
  rewrite group_at_length in Hl.
  assert (∀ j, 0 ≤ j < shift → i + j ≤ capacity_ t → IsEmptyOrDeleted (ctrl_at t (i + j)) = true) as Hat.
  { intros j Hj Hij. apply (Hlf (Z.to_nat j)); [lia|]. apply group_at_lookup. rewrite Z2Nat.id by lia. split; [lia|done]. }
  assert (i + shift ≤ capacity_ t) as Hle.
  { destruct (Z.le_gt_cases (i + shift) (capacity_ t)) as [|Hgt]; [done|]. exfalso.
    specialize (Hat (capacity_ t - i) ltac:(lia) ltac:(lia)). replace (i + (capacity_ t - i)) with (capacity_ t) in Hat by lia.
    by rewrite (sh_sentinel t Hs) in Hat. }
  assert (1 ≤ shift) as Hs1.
  { unfold shift. assert (group_at t i !! 0%nat = Some (ctrl_at t i)) as Hhd.
    { apply group_at_lookup. split; [lia|]. f_equal. lia. }
    destruct (group_at t i) as [|c r]; [done|]. injection Hhd as ->. cbn [leading_free]. rewrite Hfree.
    pose proof (proj1 (leading_free_spec r)). lia. }
  destruct (IH (i + shift)) as (q & -> & Hq & Hqf & Hbelow); [lia|lia|].
  exists q. split; [done|]. split; [lia|]. split; [done|]. intros x Hx.
  destruct (Z.lt_ge_cases x (i + shift)); [|apply Hbelow; lia]. apply slot_none; [done|lia|].
  replace x with (i + (x - i)) by lia. apply Hat; lia.
Qed.

(** The entries from a position on *)
Definition entries_from t (i : Z) : list (Z * (K * V)) := omap (λ q, kv ← slot_at t q; Some (q, kv)) (seqZ i (capacity_ t - i)).

Lemma entries_from_step t i :
  i < capacity_ t →
  entries_from t i = match slot_at t i with Some kv => (i, kv) :: entries_from t (i + 1) | None => entries_from t (i + 1) end.
Proof using.
  intros Hi. unfold entries_from. rewrite seqZ_cons by lia. replace (Z.pred (capacity_ t - i)) with (capacity_ t - (i + 1)) by lia.
  replace (Z.succ i) with (i + 1) by lia. cbn [omap list_omap]. by destruct (slot_at t i).
Qed.

Lemma entries_from_end t i : capacity_ t ≤ i → entries_from t i = [].
Proof using. intros Hi. unfold entries_from. by rewrite seqZ_nil by lia. Qed.

Lemma entries_from_skip t i q : i ≤ q ≤ capacity_ t → (∀ x, i ≤ x < q → slot_at t x = None) → entries_from t i = entries_from t q.
Proof using.
  intros Hq Hn. replace q with (i + Z.of_nat (Z.to_nat (q - i))) in * by lia. revert Hq Hn. generalize (Z.to_nat (q - i)). clear q.
  intros n. revert i. induction n as [|n IH]; intros i Hq Hn; [by rewrite Z.add_0_r|].
  rewrite entries_from_step, Hn by lia. rewrite (IH (i + 1)) by (lia || intros; apply Hn; lia). f_equal. lia.
Qed.

(** An iterator stands at the first full slot from a position on. *)
Definition stands t (i : Z) (it : option Z) : Prop :=
  match it with
  | Some q => i ≤ q < capacity_ t ∧ is_Some (slot_at t q) ∧ ∀ x, i ≤ x < q → slot_at t x = None
  | None => ∀ x, i ≤ x < capacity_ t → slot_at t x = None
  end.

Lemma skip_ok t i : table_ok t → 0 ≤ i ≤ capacity_ t → ∃ it, skip_empty_or_deleted t i = Some it ∧ stands t i it.
Proof using L.
  intros Ht Hi. pose proof (tk_shape _ t Ht) as Hs. pose proof kWidth_pos. unfold skip_empty_or_deleted.
  destruct (skip_loop_ok t Ht (swiss_fuel t) i Hi) as (q & -> & Hq & Hqf & Hbelow); [unfold swiss_fuel; lia|]. cbn [mbind option_bind].
  rewrite arr_get_ctrl by (done || lia). cbn [mbind option_bind]. eexists. split; [done|].
  destruct (decide (q = capacity_ t)) as [->|Hne]; [rewrite (sh_sentinel t Hs); exact Hbelow|].
  rewrite (proj2 (Z.eqb_neq _ _)) by (apply (sh_valid t Hs); lia).
  split; [lia|]. split; [|done]. apply (tk_full _ t Ht); [lia|]. apply Z.leb_le. fold (IsFull (ctrl_at t q)).
  rewrite ctrl_kind, Hqf by (done || lia). done.
Qed.

Lemma stands_slot t i it q : stands t i it → it = Some q → is_Some (slot_at t q).
Proof using. intros Hst ->. apply Hst. Qed.

Lemma it_next_ok t i q : table_ok t → 0 ≤ i → stands t i (Some q) → ∃ it, it_next NDEBUG t (Some q) = Some it ∧ stands t (q + 1) it.
Proof using L.
  intros Ht Hi (Hq & Hsl & _). unfold it_next. rewrite (AssertIsFull_ok hash_key NDEBUG t q Ht Hsl). cbn [mbind option_bind]. apply skip_ok; [done|lia].
Qed.

Lemma swiss_iterate_ok t : table_ok t → ∀ fuel i it,
  0 ≤ i ≤ capacity_ t → capacity_ t - i < Z.of_nat fuel → stands t i it →
  swiss_iterate NDEBUG fuel t it = Some (entries_from t i).
Proof using L.
  intros Ht. induction fuel as [|fuel IH]; intros i it Hi Hfuel Hst; [lia|]. cbn [swiss_iterate].
  rewrite (it_is_end_ok hash_key NDEBUG t it Ht) by (intros q; by eapply stands_slot). cbn [mbind option_bind].
  destruct it as [q|].
  - destruct (it_next_ok t i q Ht ltac:(lia) Hst) as (it' & Hnext & Hst'). destruct Hst as (Hq & [kv Hkv] & Hbelow).
    rewrite (it_deref_ok hash_key NDEBUG t q kv Ht Hkv). cbn [mbind option_bind]. rewrite Hnext. cbn [mbind option_bind].
    rewrite (IH (q + 1) it') by (lia || done). cbn [mbind option_bind]. rewrite (entries_from_skip t i q) by (lia || done).
    by rewrite (entries_from_step t q), Hkv by lia.
  - rewrite (entries_from_skip t i (capacity_ t)) by (lia || done). by rewrite entries_from_end by lia.
Qed.

Lemma swiss_elements_ok t : table_ok t → swiss_elements NDEBUG t = Some (entries_from t 0).
Proof using L.
  intros Ht. pose proof (shape_range t (tk_shape _ t Ht)). unfold swiss_elements, swiss_begin.
  destruct (skip_ok t 0 Ht ltac:(lia)) as (it & -> & Hst). cbn [mbind option_bind].
  apply (swiss_iterate_ok t Ht _ 0); [lia|unfold swiss_fuel; lia|done].
Qed.

Lemma elem_of_entries t i q kv : (q, kv) ∈ entries_from t i ↔ i ≤ q < capacity_ t ∧ slot_at t q = Some kv.
Proof using.
  unfold entries_from. rewrite list_elem_of_omap. split.
  - intros (x & Hx%elem_of_seqZ & Hs). destruct (slot_at t x) as [kv'|] eqn:Hkv; [|done]. injection Hs as -> ->. split; [lia|done].
  - intros [Hq Hs]. exists q. rewrite elem_of_seqZ, Hs. split; [lia|done].
Qed.

Lemma entries_positions t i : NoDup (entries_from t i).*1.
Proof using.
  unfold entries_from. assert (NoDup (seqZ i (capacity_ t - i))) as Hnd by apply NoDup_seqZ. revert Hnd.
  generalize (seqZ i (capacity_ t - i)). intros l. induction 1 as [|q l Hq Hnd IH]; [constructor|]. cbn [omap list_omap].
  destruct (slot_at t q) as [kv|]; cbn [mbind option_bind]; [|done]. rewrite fmap_cons. constructor; [|done].
  intros ([q' kv'] & Heq & Hin)%list_elem_of_fmap. cbn in Heq. subst q'. apply list_elem_of_omap in Hin as (x & Hx & Hs).
  destruct (slot_at t x); [|done]. injection Hs as -> ->. done.
Qed.

(** The elements of a table are those of its map. *)
Lemma swiss_elements_models t g : swiss_models t g → (entries_from t 0).*2 ≡ₚ map_to_list g.
Proof using.
  intros Hm. pose proof (md_table _ t g Hm) as Ht. apply NoDup_Permutation.
  - pose proof (entries_positions t 0) as Hnd.
    assert (∀ x y, x ∈ entries_from t 0 → y ∈ entries_from t 0 → x.2 = y.2 → x.1 = y.1) as Hinj.
    { intros [q kv] [q' kv'] [_ Hq]%elem_of_entries [_ Hq']%elem_of_entries Heq. cbn in *. subst. by apply (tk_distinct _ t Ht q q' kv' kv'). }
    revert Hnd Hinj. generalize (entries_from t 0). intros l. induction l as [|x l IH]; intros Hnd Hinj; [constructor|].
    rewrite fmap_cons in *. apply NoDup_cons in Hnd as [Hx Hnd]. constructor; [|apply IH; [done|intros; apply Hinj; by (done || right)]].
    intros (y & Hy & Hin)%list_elem_of_fmap. apply Hx. apply list_elem_of_fmap. exists y. split; [|done]. apply Hinj; [by left|by right|done].
  - apply NoDup_map_to_list.
  - intros [k v]. rewrite elem_of_map_to_list, (md_holds _ t g Hm k v), list_elem_of_fmap. split.
    + intros ([q kv] & Heq & [_ Hq]%elem_of_entries). cbn in Heq. subst. by exists q.
    + intros [q Hq]. exists (q, (k, v)). split; [done|]. apply elem_of_entries. split; [|done].
      by apply slot_at_range in Hq; [|apply Ht].
Qed.

(** [equal_range]: nothing, or a range of one element *)
Lemma swiss_equal_range_models t g key hash :
  swiss_models t g → hash_key key = Some hash →
  match g !! key with
  | Some v => ∃ q n, swiss_equal_range hash_key NDEBUG t key = Some (Some q, n) ∧ slot_at t q = Some (key, v) ∧ stands t (q + 1) n
  | None => swiss_equal_range hash_key NDEBUG t key = Some (None, None)
  end.
Proof using L.
  intros Hm Hh. unfold swiss_equal_range. destruct (swiss_find_models hash_key NDEBUG t g key hash Hm Hh) as (r & -> & Hr). cbn [mbind option_bind].
  rewrite (it_is_end_ok hash_key); [|apply Hm|intros q ->; destruct Hr as (v & _ & Hv & _); by eexists]. cbn [mbind option_bind].
  destruct r as [q|]; [|by rewrite Hr]. destruct Hr as (v & Hq & Hv & ->).
  destruct (it_next_ok t q q (md_table _ t g Hm) ltac:(lia)) as (n & -> & Hst); [split; [lia|]; split; [by eexists|lia]|].
  cbn [mbind option_bind]. by exists q, n.
Qed.

(** ** Erasing on the way *)
Lemma erase_if_loop_ok pred : ∀ fuel t g i it,
  swiss_models t g → 0 ≤ i ≤ capacity_ t → capacity_ t - i < Z.of_nat fuel → stands t i it →
  ∃ t' g', erase_if_loop NDEBUG fuel pred t it = Some t' ∧ swiss_models t' g' ∧
    ∀ k v, g' !! k = Some v ↔ g !! k = Some v ∧ ((∃ x, i ≤ x ∧ slot_at t x = Some (k, v)) → pred (k, v) = false).
Proof using L.
  induction fuel as [|fuel IH]; intros t g i it Hm Hi Hfuel Hst; [lia|]. cbn [erase_if_loop]. pose proof (md_table _ t g Hm) as Ht.
  rewrite (it_is_end_ok hash_key NDEBUG t it Ht) by (intros q; by eapply stands_slot). cbn [mbind option_bind]. destruct it as [q|].
  2:{ exists t, g. split; [done|]. split; [done|]. intros k v. split; [|by intros [? _]]. intros Hg. split; [done|].
      intros (x & Hx & Hsx). pose proof (slot_at_range t x _ (tk_shape _ t Ht) Hsx). rewrite (Hst x) in Hsx by lia. done. }
  destruct (it_next_ok t i q Ht ltac:(lia) Hst) as (n & -> & Hst'). destruct Hst as (Hq & [[k v] Hkv] & Hbelow). cbn [mbind option_bind].
  rewrite (it_deref_ok hash_key NDEBUG t q (k, v) Ht Hkv). cbn [mbind option_bind].
  assert (g !! k = Some v) as Hg by (apply (md_holds _ t g Hm); by exists q).
  assert (∀ x kv, i ≤ x → slot_at t x = Some kv → x ≠ q → q + 1 ≤ x) as Habove.
  { intros x kv Hx Hsx Hne. destruct (Z.lt_ge_cases x q); [|lia]. by rewrite (Hbelow x) in Hsx by lia. }
  destruct (pred (k, v)) eqn:Hp.
  - destruct (swiss_erase_at_models hash_key NDEBUG t g q k v Hm Hkv) as (t1 & -> & Hm1 & Hcap1 & Hsl1). cbn [mbind option_bind].
    assert (stands t1 (q + 1) n) as Hst1.
    { destruct n as [x|]; unfold stands in *; rewrite ?Hcap1.
      - destruct Hst' as (Hx & Hsx & Hb). split; [done|]. rewrite Hsl1, (proj2 (Z.eqb_neq x q)) by lia. split; [done|].
        intros y Hy. rewrite Hsl1, (proj2 (Z.eqb_neq y q)) by lia. by apply Hb.
      - intros x Hx. rewrite Hsl1, (proj2 (Z.eqb_neq x q)) by lia. by apply Hst'. }
    destruct (IH t1 (delete k g) (q + 1) n Hm1) as (t' & g' & -> & Hm' & Hg'); [lia|lia|done|]. exists t', g'. split; [done|]. split; [done|].
    intros k' v'. rewrite Hg', lookup_delete_Some. split.
    + intros [[Hne Hgk] Hpk]. split; [done|]. intros (x & Hx & Hsx). apply Hpk. exists x. rewrite Hsl1.
      destruct (Z.eqb_spec x q) as [Heq|Hxq]; [subst x; congruence|]. split; [|done]. by eapply Habove.
    + intros [Hgk Hpk]. split; [split; [|done]|].
      * intros <-. rewrite Hg in Hgk. injection Hgk as <-. rewrite Hpk in Hp; [done|]. exists q. split; [lia|done].
      * intros (x & Hx & Hsx). apply Hpk. exists x. rewrite Hsl1 in Hsx. destruct (x =? q); [done|]. split; [lia|done].
  - cbn [mbind option_bind]. destruct (IH t g (q + 1) n Hm) as (t' & g' & -> & Hm' & Hg'); [lia|lia|done|]. exists t', g'. split; [done|]. split; [done|].
    intros k' v'. rewrite Hg'. split; intros [Hgk Hpk]; (split; [done|]); intros (x & Hx & Hsx).
    + destruct (decide (x = q)) as [->|Hxq]; [congruence|]. apply Hpk. exists x. split; [|done]. by eapply Habove.
    + apply Hpk. exists x. split; [lia|done].
Qed.

Lemma swiss_erase_if_models pred t g :
  swiss_models t g → ∃ t', erase_if NDEBUG pred t = Some t' ∧ swiss_models t' (filter (λ kv, pred kv = false) g).
Proof using L.
  intros Hm. pose proof (md_table _ t g Hm) as Ht. pose proof (shape_range t (tk_shape _ t Ht)). unfold erase_if, swiss_begin.
  destruct (skip_ok t 0 Ht ltac:(lia)) as (it & -> & Hst). cbn [mbind option_bind].
  destruct (erase_if_loop_ok pred (swiss_fuel t) t g 0 it Hm) as (t' & g' & -> & Hm' & Hg'); [lia|unfold swiss_fuel; lia|done|].
  exists t'. split; [done|]. replace (filter (λ kv, pred kv = false) g) with g'; [done|]. apply map_eq. intros k.
  apply option_eq. intros v. rewrite Hg', map_lookup_filter_Some. split; intros [Hg Hp]; (split; [done|]).
  - apply Hp. apply (md_holds _ t g Hm) in Hg as [x Hx]. exists x. split; [|done]. by apply slot_at_range in Hx; [lia|apply Ht].
  - by intros _.
Qed.

(** [erase(first, end())] is [EraseIf] with a predicate that always holds. *)
Lemma erase_range_end : ∀ fuel t it, swiss_erase_range NDEBUG fuel t it None = erase_if_loop NDEBUG fuel (λ _, true) t it.
Proof using.
  assert (∀ t, AssertIsValid NDEBUG t None = Some ()) as Hend by (intros; unfold AssertIsValid; by destruct NDEBUG).
  induction fuel as [|fuel IH]; intros t it; cbn [swiss_erase_range erase_if_loop]; unfold it_is_end.
  - destruct (AssertIsValid NDEBUG t it); cbn [mbind option_bind]; [|done]. rewrite Hend. cbn [mbind option_bind].
    destruct it; [by rewrite bool_decide_eq_false_2|by rewrite bool_decide_eq_true_2].
  - destruct (AssertIsValid NDEBUG t it); cbn [mbind option_bind]; [|done]. rewrite Hend. cbn [mbind option_bind].
    destruct it as [i|]; [rewrite bool_decide_eq_false_2 by done|by rewrite bool_decide_eq_true_2].
    destruct (it_next NDEBUG t (Some i)) as [n|]; cbn [mbind option_bind]; [|done]. unfold it_deref, swiss_erase_at.
    destruct (AssertIsFull NDEBUG t (Some i)); cbn [mbind option_bind]; [|done]. destruct (slot_at t i); cbn [mbind option_bind]; [|done].
    destruct (set_slot t i None) as [t1|]; cbn [mbind option_bind]; [|done]. destruct (erase_meta_only NDEBUG t1 i); cbn [mbind option_bind]; [|done].
    apply IH.
Qed.

Lemma erase_all_models t g : swiss_models t g → ∃ t', swiss_erase_all NDEBUG t = Some t' ∧ swiss_models t' ∅.
Proof using L.
  intros Hm. destruct (swiss_erase_if_models (λ _, true) t g Hm) as (t' & He & Hm'). exists t'. split.
  - rewrite <-He. unfold swiss_erase_all, erase_if. destruct (swiss_begin t); [|done]. cbn [mbind option_bind]. apply erase_range_end.
  - replace (filter (λ kv : K * V, true = false) g) with (∅ : gmap K V) in Hm'; [done|].
    apply map_eq. intros k. rewrite lookup_empty. symmetry. apply map_lookup_filter_None. right. by intros v _ Hp.
Qed.
End iter.
