(* ===== verification/SwissManage.v ===== *)
(** * Whole flat hash maps: clearing, reserving, copying, merging, comparing *)
From stdpp Require Import gmap.
From S2P Require Import Prelude Words BitArray FiniteMaps DenseProbe SwissBits SwissGroup SwissTable SwissShape SwissFind SwissInv SwissResize SwissDrop SwissInsert SwissErase.

Section manage.
Context `{L : GroupLaws} {K V : Type} `{Countable K} `{EqDecision V}.
Context (hash_key : K → option Z) (NDEBUG : bool) (p : platform).
Implicit Types (t : raw_hash_set K V) (g : gmap K V).
Abbreviation table_ok := (table_ok hash_key).
Abbreviation swiss_models := (swiss_models hash_key).

(** ** Clearing *)
Lemma vacant_models t :
  vacant t → size_ t = 0 → growth_left t = growth_of (capacity_ t) → capacity_ t < 2 ^ 50 → swiss_models t ∅.
Proof using L.
  intros Hv Hs Hg Hc. pose proof (growth_of_range (capacity_ t) (sh_cap t (vc_shape t Hv))) as [Hgr _].
  split; [by apply vacant_table| |done|by apply vacant_holds|by rewrite map_size_empty].
  split; rewrite ?vacant_count by done; lia || done.
Qed.

Lemma destroy_full_ok t :
  table_ok t → ∃ l, destroy_full t = Some (set_slots t l) ∧ length l = length (slots_ t) ∧ ∀ q, slot_at (set_slots t l) q = None.
Proof using L.
  intros Ht. pose proof (tk_shape _ t Ht) as Hs. pose proof (shape_range t Hs). pose proof kWidth_pos. unfold destroy_full.
  destruct (for_loop_total (λ i t1, ∃ l, t1 = set_slots t l ∧ length l = length (slots_ t) ∧
      ∀ q, slot_at t1 q = if q <? i then None else slot_at t q)
    (λ i t0, c ← arr_get (ctrl_bytes t0) i; if IsFull c then _ ← slot_at t0 i; set_slot t0 i None else Some t0)
    (Z.to_nat (capacity_ t)) 0 t) as (t1 & -> & l & -> & Hl & Hq).
  - exists (slots_ t). split; [by destruct t|]. split; [done|]. intros q. destruct (Z.ltb_spec q 0); [|done].
    unfold slot_at. by rewrite (proj2 (Z.leb_gt 0 q)) by lia.
  - intros i t1 Hi (l & -> & Hl & Hq). cbn [ctrl_bytes set_slots]. rewrite arr_get_ctrl by (done || lia). cbn [mbind option_bind].
    destruct (IsFull (ctrl_at t i)) eqn:Hf.
    + destruct (tk_full _ t Ht i ltac:(lia)) as [_ [kv Hkv]]; [by apply Z.leb_le|].
      rewrite Hq, (proj2 (Z.ltb_ge i i)), Hkv by lia. cbn [mbind option_bind].
      destruct (set_slot_ok (set_slots t l) i None) as [Hset Hsl]; [cbn [slots_ capacity_ set_slots]; rewrite Hl; apply Hs|cbn; lia|].
      rewrite Hset. eexists. split; [done|]. eexists. split; [done|]. split; [cbn [slots_ set_slots]; by rewrite length_insert|].
      intros q. etrans; [apply Hsl|]. rewrite Hq. destruct (Z.eqb_spec q i) as [->|Hne].
      * by rewrite (proj2 (Z.ltb_lt i (i + 1))) by lia.
      * replace (q <? i + 1) with (q <? i); [done|]. destruct (Z.ltb_spec q i), (Z.ltb_spec q (i + 1)); lia || done.
    + eexists. split; [done|]. exists l. split; [done|]. split; [done|]. intros q. rewrite Hq.
      destruct (Z.ltb_spec q i), (Z.ltb_spec q (i + 1)); [done|lia| |done]. assert (q = i) as -> by lia.
      destruct (slot_at t i) eqn:Hsl; [|done]. assert (0 ≤ ctrl_at t i) as Hc by (apply (tk_full _ t Ht); [lia|by eexists]).
      apply Z.leb_le in Hc. unfold IsFull in Hf. congruence.
  - exists l. split; [done|]. split; [done|]. intros q. rewrite Hq. destruct (Z.ltb_spec q (0 + Z.of_nat (Z.to_nat (capacity_ t)))); [done|].
    destruct (slot_at t q) eqn:Hsl; [|done]. apply slot_at_range in Hsl; [lia|done].
Qed.

Lemma destroy_slots_ok t : table_ok t → ∃ t', destroy_slots NDEBUG p t = Some t' ∧ (0 < capacity_ t → t' = swiss_new p) ∧ (capacity_ t = 0 → t' = t).
Proof using L.
  intros Ht. pose proof (shape_range t (tk_shape _ t Ht)). unfold destroy_slots. destruct (Z.eqb_spec (capacity_ t) 0).
  - exists t. split; [done|]. split; [intros; lia|done].
  - destruct (destroy_full_ok t Ht) as (l & -> & _). cbn [mbind option_bind]. rewrite MakeLayout_ok by (lia || apply Ht). eexists. split; [done|]. split; [done|intros; lia].
Qed.

Lemma swiss_clear_models t g :
  swiss_models t g → ∃ t', swiss_clear NDEBUG p t = Some t' ∧ swiss_models t' ∅ ∧ (0 < capacity_ t ≤ 127 → capacity_ t' = capacity_ t).
Proof using L.
  intros Hm. pose proof (md_table _ t g Hm) as Ht. pose proof (tk_shape _ t Ht) as Hs. pose proof (shape_range t Hs). unfold swiss_clear.
  destruct (Z.ltb_spec 127 (capacity_ t)) as [Hbig|Hle]; [|destruct (Z.eqb_spec (capacity_ t) 0) as [Hz|Hnz]; cbn [negb]].
  - destruct (destroy_slots_ok t Ht) as (t' & -> & Hnew & _). rewrite Hnew by lia. cbn [mbind option_bind].
    rewrite assert_true by done. cbn [mbind option_bind]. exists (swiss_new p). split; [done|]. split; [apply swiss_new_models|lia].
  - cbn [mbind option_bind]. pose proof (models_size_bound _ t g Hm) as [Hb _]. assert (g = ∅) as -> by (apply map_size_empty_inv; lia).
    rewrite assert_true by (rewrite (md_size _ t _ Hm), map_size_empty; done). cbn [mbind option_bind]. exists t. split; [done|]. split; [done|lia].
  - destruct (destroy_full_ok t Ht) as (l & -> & Hl & Hnone). cbn [mbind option_bind].
    set (t0 := set_size (set_slots t l) 0 _). pose proof (sh_len t Hs) as Hlen. rewrite Z.min_l in Hlen by lia.
    assert (capacity_ok (capacity_ t)) as Hc by apply Hs. pose proof kWidth_pos.
    destruct (reset_ctrl_ok t0) as (bytes & Hr & Hs0 & He); [done|cbn; lia|done|cbn [slots_ set_size set_slots t0 capacity_]; rewrite Hl; apply Hs|].
    rewrite Hr. cbn [mbind option_bind]. rewrite reset_growth_left_ok by (done || (cbn; lia)). cbn [mbind option_bind].
    rewrite assert_true by done. cbn [mbind option_bind]. eexists. split; [done|]. split; [|done].
    pose proof (growth_of_range (capacity_ t) Hc) as [Hgr _]. apply vacant_models; [split; [by apply shape_set_size|exact He|exact Hnone]|done| |apply Hm].
    cbn [growth_left set_size set_bytes capacity_ t0 set_slots size_]. rewrite Z.sub_0_r. apply wrap_small. split; lia.
Qed.

(** ** Capacities *)
Lemma NormalizeCapacity_ok x : 0 < x < 2 ^ 48 → capacity_ok (NormalizeCapacity x) ∧ x ≤ NormalizeCapacity x < 2 ^ 48.
Proof using.
  intros Hx. unfold NormalizeCapacity. rewrite (proj2 (Z.eqb_neq x 0)), LeadingZeros_pos by lia.
  pose proof (Z.log2_nonneg x). pose proof (Z.log2_spec x ltac:(lia)) as Hl. assert (Z.log2 x < 48) by (apply Z.log2_lt_pow2; lia).
  assert (Z.shiftr (2 ^ 64 - 1) (64 - 1 - Z.log2 x) = 2 ^ (Z.log2 x + 1) - 1) as ->.
  { rewrite Z.shiftr_div_pow2 by lia. assert (0 < 2 ^ (64 - 1 - Z.log2 x) ∧ 0 < 2 ^ (Z.log2 x + 1)) by lia.
    replace (2 ^ 64) with (2 ^ (Z.log2 x + 1) * 2 ^ (64 - 1 - Z.log2 x)) by (rewrite <-Z.pow_add_r by lia; f_equal; lia).
    symmetry. apply (Z.div_unique _ _ _ (2 ^ (64 - 1 - Z.log2 x) - 1)); lia. }
  split; [exists (Z.log2 x + 1); split; [lia|done]|]. replace (Z.log2 x + 1) with (Z.succ (Z.log2 x)) by lia.
  assert (2 ^ Z.succ (Z.log2 x) ≤ 2 ^ 48) by (apply Z.pow_le_mono_r; lia). lia.
Qed.

(** The capacity for a number of elements has room for them. *)
Lemma GrowthToLowerbound_ok s :
  0 ≤ s < 2 ^ 45 →
  ∃ x, GrowthToLowerboundCapacity s = Some x ∧ s ≤ x < 2 ^ 47 ∧ (s = 0 → x = 0) ∧ ∀ cap, 0 ≤ cap → x ≤ cap → s ≤ growth_of cap.
Proof using L.
  intros Hs. unfold GrowthToLowerboundCapacity, growth_of. destruct ((kWidth =? 8) && (s =? 7)) eqn:H7.
  - apply andb_true_iff in H7 as [-> Hs7%Z.eqb_eq]. exists 8. split; [done|]. split; [lia|]. split; [lia|]. intros cap Hc Hle. cbn [andb].
    rewrite (proj2 (Z.eqb_neq cap 7)) by lia. div_lia.
  - assert (to_i64 s = s) as -> by (unfold to_i64; rewrite wrap_small by (split; lia); lia).
    rewrite (proj2 (Z.eqb_neq _ _)) by lia. eexists. split; [done|].
    assert (0 ≤ Z.quot (s - 1) 7 ≤ s ∧ s + Z.quot (s - 1) 7 < 2 ^ 46 ∧
      ((s = 0 ∧ Z.quot (s - 1) 7 = 0) ∨ 0 < s ∧ Z.quot (s - 1) 7 = (s - 1) / 7)) as (Hq & Hb & Hcase).
    { destruct (decide (s = 0)) as [->|Hne]; [change (Z.quot (0 - 1) 7) with 0; lia|]. rewrite Z.quot_div_nonneg by lia.
      split; [div_lia|]. split; [div_lia|]. right. lia. }
    rewrite !wrap_small by (split; lia || (rewrite wrap_small by (split; lia); lia)). split; [lia|]. split; [lia|].
    intros cap Hc Hle. destruct (kWidth =? 8); cbn [andb] in *.
    + apply Z.eqb_neq in H7. destruct (Z.eqb_spec cap 7) as [->|]; [lia|]. destruct Hcase as [[-> _]|[Hp Hqd]]; div_lia.
    + destruct Hcase as [[-> _]|[Hp Hqd]]; div_lia.
Qed.

Lemma lor_bounds a b : 0 ≤ a < 2 ^ 47 → 0 ≤ b < 2 ^ 47 → a ≤ Z.lor a b ∧ b ≤ Z.lor a b ∧ Z.lor a b < 2 ^ 47.
Proof using.
  intros Ha Hb. pose proof (fits_lor 47 a b ltac:(lia) Ha Hb) as [_ Hlt].
  assert (∀ x y, 0 ≤ x → 0 ≤ y → x ≤ Z.lor x y) as Hle.
  { intros x y Hx Hy. assert (0 ≤ Z.ldiff y x) by (by apply Z.ldiff_nonneg; left).
    replace (Z.lor x y) with (x + Z.ldiff y x); [lia|]. rewrite Z.add_nocarry_lxor.
    - apply Z.bits_inj'. intros i Hi. rewrite Z.lxor_spec, Z.ldiff_spec, Z.lor_spec. by destruct (Z.testbit x i), (Z.testbit y i).
    - apply Z.bits_inj'. intros i Hi. rewrite Z.land_spec, Z.ldiff_spec, Z.bits_0. by destruct (Z.testbit x i), (Z.testbit y i). }
  split; [apply Hle; lia|]. split; [rewrite Z.lor_comm; apply Hle; lia|done].
Qed.

(** ** [rehash], [reserve] and the constructor with a size *)
Lemma swiss_rehash_models t g m w :
  swiss_models t g → 0 ≤ m < 2 ^ 47 → Z.of_nat (size g) < 2 ^ 45 →
  ∃ t' w', swiss_rehash hash_key NDEBUG p t m w = Some (t', w') ∧ swiss_models t' g ∧ m ≤ capacity_ t' ∧
    (ctrl_count t IsDeleted = 0 → ctrl_count t' IsDeleted = 0).
Proof using L.
  intros Hm Hn Hsz. pose proof (md_table _ t g Hm) as Ht. pose proof (md_size _ t g Hm) as Hs. pose proof (shape_range t (tk_shape _ t Ht)).
  unfold swiss_rehash. destruct (Z.eqb_spec m 0) as [->|Hnz], (Z.eqb_spec (capacity_ t) 0) as [Hc0|Hc0]; cbn [andb orb].
  { exists t, w. split; [done|]. split; [done|]. split; [lia|done]. }
  1: destruct (Z.eqb_spec (size_ t) 0) as [Hs0|Hs0].
  { destruct (destroy_slots_ok t Ht) as (t' & -> & Hnew & _). rewrite Hnew by lia. cbn [mbind option_bind].
    assert (g = ∅) as -> by (apply map_size_empty_inv; lia). eexists _, w. split; [done|]. split; [apply swiss_new_models|]. split; [done|].
    intros _. by apply vacant_count; [apply swiss_new_vacant|]. }
  all: destruct (GrowthToLowerbound_ok (size_ t)) as (x & -> & Hx & Hx0 & Hroom); [lia|]; cbn [mbind option_bind].
  all: match goal with |- context [NormalizeCapacity (Z.lor ?n ?y)] => pose proof (lor_bounds n y ltac:(lia) ltac:(lia)) as (Hl1 & Hl2 & Hl3) end.
  all: match goal with |- context [NormalizeCapacity ?y] => destruct (NormalizeCapacity_ok y ltac:(lia)) as [Hcok Hcb]; set (cap := NormalizeCapacity y) in * end.
  2,3: destruct (Z.ltb_spec (capacity_ t) cap) as [Hlt|Hge]; [|exists t, w; split; [done|]; split; [done|]; split; [lia|done]].
  all: destruct (resize_ok hash_key NDEBUG p t cap w Ht) as (t' & w' & -> & Ht' & Hc' & Hcap' & Hent & Hs' & Hg');
    [done|lia|apply Hm|apply Hroom; lia|]; exists t', w'; split; [done|]; split; [|split; [lia|]].
  all: try (eapply models_same; [done..|lia|done|done]). all: intros _; destruct Hc' as [? ? _ _]; rewrite Hcap' in *; lia.
Qed.

Lemma swiss_reserve_models t g m w :
  swiss_models t g → 0 ≤ m < 2 ^ 45 → Z.of_nat (size g) < 2 ^ 45 →
  ∃ t' w', swiss_reserve hash_key NDEBUG p t m w = Some (t', w') ∧ swiss_models t' g ∧ m ≤ growth_of (capacity_ t') ∧
    (ctrl_count t IsDeleted = 0 → ctrl_count t' IsDeleted = 0).
Proof using L.
  intros Hm Hn Hsz. unfold swiss_reserve. destruct (GrowthToLowerbound_ok m Hn) as (x & -> & Hx & _ & Hroom). cbn [mbind option_bind].
  destruct (swiss_rehash_models t g x w Hm ltac:(lia) Hsz) as (t' & w' & -> & Hm' & Hc & Hd). exists t', w'. split; [done|]. split; [done|]. split; [|done].
  apply Hroom; [|done]. pose proof (shape_range t' (models_shape _ t' g Hm')). lia.
Qed.

Lemma swiss_new_count_models m w :
  0 ≤ m < 2 ^ 48 → ∃ t w', swiss_new_count (K := K) (V := V) NDEBUG p m w = Some (t, w') ∧ swiss_models t ∅ ∧ m ≤ capacity_ t.
Proof using L.
  intros Hn. unfold swiss_new_count. destruct (Z.eqb_spec m 0) as [->|Hne].
  { eexists _, _. split; [done|]. split; [apply swiss_new_models|done]. }
  destruct (NormalizeCapacity_ok m ltac:(lia)) as [Hc Hb]. pose proof (growth_of_range _ Hc) as [Hg _].
  rewrite reset_growth_left_ok by (done || (cbn; lia)). cbn [mbind option_bind].
  match goal with |- context [initialize_slots NDEBUG p ?t w] => destruct (initialize_slots_ok NDEBUG p t w) as (t' & w' & -> & Hv & Hcap & Hsz & Hgl) end; [done|cbn; lia|].
  cbn [size_ capacity_ set_size] in *. exists t', w'. split; [done|]. split; [|lia].
  apply vacant_models; [done|done| |lia]. rewrite Hgl, Hcap, Z.sub_0_r. apply wrap_small. split; lia.
Qed.

Lemma swiss_new_range_models l m w :
  0 ≤ m < 2 ^ 48 → Forall (λ kv, is_Some (hash_key kv.1)) l → Z.of_nat (length l) < 2 ^ 40 →
  ∃ t w', swiss_new_range hash_key NDEBUG p l m w = Some (t, w') ∧ swiss_models t (put_all ∅ l).
Proof using L.
  intros Hn Hl Hsz. unfold swiss_new_range. destruct (swiss_new_count_models m w Hn) as (t & w1 & -> & Hm & _). cbn [mbind option_bind].
  apply swiss_insert_range_models; [done|done|]. by rewrite map_size_empty.
Qed.

(** ** Copying *)
Lemma copy_elements_ok l : ∀ t w,
  table_ok t → ctrl_count t IsDeleted = 0 → ctrl_count t IsFull + Z.of_nat (length l) ≤ growth_of (capacity_ t) →
  (∀ kv, kv ∈ l → is_Some (hash_key kv.1) ∧ ∀ q v, slot_at t q ≠ Some (kv.1, v)) → NoDup (l.*1) →
  ∃ t' w', copy_elements hash_key NDEBUG p t l w = Some (t', w') ∧ table_ok t' ∧ capacity_ t' = capacity_ t ∧
    ctrl_count t' IsDeleted = 0 ∧ ctrl_count t' IsFull = ctrl_count t IsFull + Z.of_nat (length l) ∧
    size_ t' = size_ t ∧ growth_left t' = growth_left t ∧
    ∀ kv, (∃ q, slot_at t' q = Some kv) ↔ (∃ q, slot_at t q = Some kv) ∨ kv ∈ l.
Proof using L.
  induction l as [|[k v] l IH]; intros t w Ht Hd Hroom Hl Hnd; cbn [copy_elements length].
  { exists t, w. split; [done|]. split; [done|]. split; [done|]. split; [done|]. split; [lia|]. split; [done|]. split; [done|].
    intros kv. rewrite elem_of_nil. tauto. }
  destruct (Hl (k, v)) as [[hash Hh] Hno]; [by left|]. cbn [fst] in *. rewrite Hh. cbn [mbind option_bind]. cbn [length] in Hroom.
  pose proof (tk_shape _ t Ht) as Hs. pose proof (growth_of_range (capacity_ t) (sh_cap t Hs)) as [Hg Hg'].
  destruct (place_ok hash_key NDEBUG p t (k, v) hash w Ht Hh Hno ltac:(lia)) as (q & i & w1 & t1 & t2 & -> & Hset & _ & Hsl & Hfill & Hs2 & Hg2).
  cbn [mbind option_bind]. rewrite Hset. cbn [mbind option_bind]. pose proof Hfill as [Ht2 Hcap2 Hslot2 Hfree2 _].
  pose proof (filled_full _ t _ q t2 Hs Hfill) as Hf2. pose proof (filled_deleted _ t _ q t2 Hfill) as Hd2.
  assert (ctrl_count t2 IsDeleted = 0) as Hd2'.
  { pose proof (count_where_nonneg (λ q, IsDeleted (ctrl_at t2 q)) 0 (capacity_ t2)) as Hn. fold (ctrl_count t2 IsDeleted) in Hn.
    pose proof (b2z_bound (IsDeleted (ctrl_at t q))). lia. }
  assert (roomy t2) as Hr2.
  { destruct (decide (small t2)) as [|Hlg]; [by left|]. right. unfold small in Hlg. rewrite Hcap2 in Hlg.
    destruct (room_empty t2 (tk_shape _ t2 Ht2)) as (x & Hx & He); [rewrite Hcap2; specialize (Hg' ltac:(lia)); lia|]. exists x. split; [lia|done]. }
  rewrite (emplace_at_ok hash_key NDEBUG t2 t1 q k v hash) by (done || by rewrite Hslot2, Z.eqb_refl). cbn [mbind option_bind].
  rewrite fmap_cons in Hnd. apply NoDup_cons in Hnd as [Hkl Hnd]. cbn [fst] in Hkl.
  destruct (IH t2 w1 Ht2 Hd2') as (t' & w' & -> & Ht' & Hc' & Hd' & Hf' & Hs' & Hg3 & Hent); [rewrite Hcap2; lia| |done|].
  { intros kv Hkv. destruct (Hl kv) as [? Hn]; [by right|]. split; [done|]. intros q' v'. rewrite Hslot2. destruct (q' =? q); [|by apply Hn].
    intros [= Heq _]. apply Hkl. rewrite Heq. by apply list_elem_of_fmap_2. }
  exists t', w'. split; [done|]. split; [done|]. split; [lia|]. split; [done|]. split; [lia|]. split; [congruence|]. split; [congruence|].
  intros kv. rewrite Hent, elem_of_cons. split.
  - intros [[x Hx]|Hin]; [|by right; right]. rewrite Hslot2 in Hx. destruct (x =? q); [injection Hx as <-; right; by left|]. left. by exists x.
  - intros [[x Hx]|[->|Hin]]; [|left; exists q; by rewrite Hslot2, Z.eqb_refl|by right]. left. exists x. rewrite Hslot2.
    destruct (Z.eqb_spec x q) as [Heq|]; [|done]. subst x. destruct Hfree2 as [Hq Hqf]. by rewrite (slot_none hash_key t q Ht Hq Hqf) in Hx.
Qed.

Lemma swiss_copy_models that g w :
  swiss_models that g → Z.of_nat (size g) < 2 ^ 45 →
  ∃ t' w', swiss_copy hash_key NDEBUG p that w = Some (t', w') ∧ swiss_models t' g.
Proof using L.
  intros Hm Hsz. pose proof (md_table _ that g Hm) as Ht. pose proof (md_size _ that g Hm) as Hs. unfold swiss_copy.
  destruct (swiss_reserve_models (swiss_new p) ∅ (size_ that) w) as (t0 & w0 & -> & Hm0 & Hg0 & Hd0); [apply swiss_new_models|lia|rewrite map_size_empty; lia|].
  cbn [mbind option_bind]. rewrite (swiss_elements_ok hash_key) by done. cbn [mbind option_bind].
  specialize (Hd0 (vacant_count _ IsDeleted (swiss_new_vacant p) eq_refl)).
  pose proof (swiss_elements_models hash_key that g Hm) as Hperm. set (l := (entries_from that 0).*2) in *.
  assert (Z.of_nat (length l) = size_ that) as Hlen by (by rewrite Hs, Hperm, length_map_to_list).
  pose proof Hm0 as [Ht0 [H1 H2 H3 H4] Hcap0 Hh0 Hs0]. rewrite map_size_empty in Hs0.
  pose proof (growth_of_range (capacity_ t0) (sh_cap t0 (tk_shape _ t0 Ht0))) as [Hgr _].
  assert (∀ q kv, slot_at t0 q ≠ Some kv) as Hnone.
  { intros q [k v] Hq. assert ((∅ : gmap K V) !! k = Some v) as Hbad by (apply Hh0; by exists q). by rewrite lookup_empty in Hbad. }
  destruct (copy_elements_ok l t0 w0 Ht0 Hd0) as (t' & w' & -> & Ht' & Hc' & Hd' & Hf' & Hs' & Hg' & Hent); [lia| | |].
  { intros [k v] Hkv. split; [|intros; apply Hnone]. rewrite Hperm in Hkv. apply elem_of_map_to_list in Hkv.
    apply (md_holds _ that g Hm) in Hkv as [q Hq]. destruct (tk_placed _ that Ht q _ Hq) as (h & Hh & _). by exists h. }
  { rewrite Hperm. apply NoDup_fst_map_to_list. }
  cbn [mbind option_bind]. eexists _, _. split; [done|]. split; [by apply (table_set_size hash_key)| |cbn; lia| |done].
  - split; cbn [size_ growth_left capacity_ set_size]; change (ctrl_count (set_size t' _ _) ?P) with (ctrl_count t' P); [lia| | |done].
    all: rewrite wrap_small by (split; lia); rewrite ?Hc'; lia.
  - intros k v. change (slot_at (set_size t' _ _)) with (slot_at t'). rewrite Hent, Hperm, elem_of_map_to_list. split; [by right|].
    intros [[q Hq]|]; [by destruct (Hnone q (k, v))|done].
Qed.

Lemma swiss_assign_models t that g g' w :
  swiss_models t g → swiss_models that g' → Z.of_nat (size g') < 2 ^ 45 →
  ∃ t' w', swiss_assign hash_key NDEBUG p t that w = Some (t', w') ∧ swiss_models t' g'.
Proof using L.
  intros Hm Hm' Hsz. unfold swiss_assign. destruct (swiss_copy_models that g' w Hm' Hsz) as (t' & w' & -> & Ht'). cbn [mbind option_bind].
  destruct (destroy_slots_ok t (md_table _ t g Hm)) as (t1 & -> & _). by exists t', w'.
Qed.

Lemma swiss_move_assign_models t that g g' :
  swiss_models t g → swiss_models that g' →
  ∃ t' that', swiss_move_assign NDEBUG p t that = Some (t', that') ∧ swiss_models t' g' ∧ swiss_models that' ∅.
Proof using L.
  intros Hm Hm'. unfold swiss_move_assign, swiss_move. destruct (destroy_slots_ok t (md_table _ t g Hm)) as (t1 & -> & _). cbn [mbind option_bind].
  exists that, (swiss_new p). split; [done|]. split; [done|apply swiss_new_models].
Qed.
End manage.

(** * Merging and comparing flat hash maps

    [merge] moves the entries whose keys are new and leaves the others; [operator==] holds
    when the two tables stand for the same map, whatever their sizes and histories. *)

Section merge.
Context `{L : GroupLaws} {K V : Type} `{Countable K} `{EqDecision V}.
Context (hash_key : K → option Z) (NDEBUG : bool) (p : platform).
Implicit Types (t src : raw_hash_set K V) (g gs : gmap K V).
Abbreviation table_ok := (table_ok hash_key).
Abbreviation swiss_models := (swiss_models hash_key).

(** ** Merging *)
Lemma slot_hashable t q kv : table_ok t → slot_at t q = Some kv → is_Some (hash_key kv.1).
Proof using. intros Ht Hq. destruct (tk_placed _ t Ht q kv Hq) as (h & Hh & _). by exists h. Qed.

(** A position after one that is free of entries up to it *)
Lemma stands_after t i q x kv : stands t i (Some q) → i ≤ x → slot_at t x = Some kv → x ≠ q → q + 1 ≤ x.
Proof using. intros (_ & _ & Hb) Hx Hsx Hne. destruct (Z.lt_ge_cases x q); [|lia]. by rewrite (Hb x) in Hsx by lia. Qed.

Lemma stands_erased t t' i q it :
  q < i → capacity_ t' = capacity_ t → (∀ x, slot_at t' x = if x =? q then None else slot_at t x) → stands t i it → stands t' i it.
Proof using.
  intros Hq Hcap Hsl. destruct it as [y|]; unfold stands; rewrite Hcap.
  - intros (Hy & Hsy & Hb). split; [done|]. rewrite Hsl, (proj2 (Z.eqb_neq y q)) by lia. split; [done|].
    intros x Hx. rewrite Hsl, (proj2 (Z.eqb_neq x q)) by lia. by apply Hb.
  - intros Hb x Hx. rewrite Hsl, (proj2 (Z.eqb_neq x q)) by lia. by apply Hb.
Qed.

(** From a position on, the entries of [src] that [t] does not have move. *)
Record merged g src gs i t' src' g' gs' : Prop := Merged {
  mg_dst : swiss_models t' g';
  mg_src : swiss_models src' gs';
  mg_in k v : g' !! k = Some v ↔ g !! k = Some v ∨ (g !! k = None ∧ ∃ x, i ≤ x ∧ slot_at src x = Some (k, v));
  mg_left k v : gs' !! k = Some v ↔ gs !! k = Some v ∧ ((∃ x, i ≤ x ∧ slot_at src x = Some (k, v)) → is_Some (g !! k))
}.

(** Where the key was there, its entry stays. *)
Lemma merged_stay g src gs i q k v old t' src' g' gs' :
  swiss_models src gs → stands src i (Some q) → slot_at src q = Some (k, v) → g !! k = Some old →
  merged g src gs (q + 1) t' src' g' gs' → merged g src gs i t' src' g' gs'.
Proof using.
  intros Hms Hst Hkv Hg [Hd Hs Hin Hleft]. pose proof Hst as (Hq & _). split; [done..| |]; intros k' v'.
  - rewrite Hin. split; (intros [|[Hn (x & Hx & Hsx)]]; [by left|right]); (split; [done|]); exists x; (split; [|done]); [lia|].
    eapply stands_after; [done..|]. intros ->. congruence.
  - rewrite Hleft. split; intros [Hgs Hp]; (split; [done|]); intros (x & Hx & Hsx).
    + destruct (decide (x = q)) as [->|Hne]; [|apply Hp; exists x; split; [by eapply stands_after|done]].
      rewrite Hkv in Hsx. injection Hsx as <- <-. by exists old.
    + apply Hp. exists x. split; [lia|done].
Qed.

(** Where it was not, its entry moves. *)
Lemma merged_move g src gs i q k v src1 t' src' g' gs' :
  swiss_models src gs → stands src i (Some q) → slot_at src q = Some (k, v) → g !! k = None →
  (∀ x, slot_at src1 x = if x =? q then None else slot_at src x) →
  merged (<[k := v]> g) src1 (delete k gs) (q + 1) t' src' g' gs' → merged g src gs i t' src' g' gs'.
Proof using.
  intros Hms Hst Hkv Hg Hsl [Hd Hs Hin Hleft]. pose proof Hst as (Hq & _). pose proof (md_table _ src gs Hms) as Ht.
  assert (gs !! k = Some v) as Hgs by (apply (md_holds _ src gs Hms); by exists q).
  assert (∀ x v', slot_at src x = Some (k, v') → x = q) as Hk by (intros x v' Hx; by apply (tk_distinct _ src Ht x q _ _ Hx Hkv)).
  assert (∀ k' v', k' ≠ k → (∃ x, q + 1 ≤ x ∧ slot_at src1 x = Some (k', v')) ↔ ∃ x, i ≤ x ∧ slot_at src x = Some (k', v')) as Hex.
  { intros k' v' Hne. split; intros (x & Hx & Hsx).
    - rewrite Hsl in Hsx. destruct (x =? q); [done|]. exists x. split; [lia|done].
    - assert (x ≠ q) by (intros ->; congruence). exists x. split; [by eapply stands_after|]. by rewrite Hsl, (proj2 (Z.eqb_neq x q)). }
  split; [done..| |]; intros k' v'; [rewrite Hin, lookup_insert_Some, lookup_insert_None|rewrite Hleft, lookup_delete_Some];
    (destruct (decide (k' = k)) as [->|Hne]).
  - rewrite Hg. split.
    + intros [[[_ <-]|[? _]]|[[_ ?] _]]; [|done..]. right. split; [done|]. exists q. split; [lia|done].
    + intros [|[_ (x & Hx & Hsx)]]; [done|]. rewrite (Hk x v' Hsx) in Hsx. left. left. split; [done|]. congruence.
  - rewrite Hex by done. split; [intros [[[? _]|[_ ?]]|[[? _] ?]]; [congruence|by left|by right]|].
    intros [?|[? ?]]; [left; right; by split|right; by split].
  - split; [by intros [[? _] _]|]. intros [Hgk Hp]. rewrite Hgs in Hgk. injection Hgk as <-. exfalso.
    destruct Hp as [? Hbad]; [exists q; split; [lia|done]|congruence].
  - rewrite Hex, lookup_insert_ne by done. split; [by intros [[_ ?] ?]|]. intros [? ?]. by split.
Qed.

Lemma merge_loop_ok : ∀ fuel t src g gs i it w,
  swiss_models t g → swiss_models src gs → Z.of_nat (size g) + Z.of_nat (size gs) < 2 ^ 40 →
  0 ≤ i ≤ capacity_ src → capacity_ src - i < Z.of_nat fuel → stands src i it →
  ∃ t' src' w' g' gs', merge_loop hash_key NDEBUG p fuel t src it w = Some (t', src', w') ∧ merged g src gs i t' src' g' gs'.
Proof using L.
  induction fuel as [|fuel IH]; intros t src g gs i it w Hm Hms Hsz Hi Hfuel Hst; [lia|]. cbn [merge_loop]. pose proof (md_table _ src gs Hms) as Ht.
  rewrite (it_is_end_ok hash_key NDEBUG src it Ht) by (intros q; by eapply stands_slot). cbn [mbind option_bind]. destruct it as [q|].
  2:{ assert (∀ kv, ¬ ∃ x, i ≤ x ∧ slot_at src x = Some kv) as Hno.
      { intros kv (x & Hx & Hsx). pose proof (slot_at_range src x _ (tk_shape _ src Ht) Hsx). by rewrite (Hst x) in Hsx by lia. }
      exists t, src, w, g, gs. split; [done|]. split; [done..| |]; intros k v; specialize (Hno (k, v)); tauto. }
  destruct (it_next_ok hash_key NDEBUG src i q Ht ltac:(lia) Hst) as (n & -> & Hst'). pose proof Hst as (Hq & [[k v] Hkv] & _).
  cbn [mbind option_bind]. rewrite Hkv. cbn [mbind option_bind fst]. destruct (slot_hashable src q _ Ht Hkv) as [hash Hh]. cbn [fst] in Hh.
  destruct (find_or_prepare_ok hash_key NDEBUG p t g k hash w Hm Hh ltac:(lia)) as [(j & old & -> & _ & _ & Hg)|(t1 & j & w1 & -> & Hg & Hfill)];
    cbn [mbind option_bind].
  - destruct (IH t src g gs (q + 1) n w Hm Hms Hsz) as (t' & src' & w' & g' & gs' & -> & Hmg); [lia|lia|done|].
    exists t', src', w', g', gs'. split; [done|]. by eapply merged_stay.
  - destruct (Hfill v) as (t2 & -> & _ & Hm2 & _). cbn [mbind option_bind].
    destruct (erase_slot_models hash_key NDEBUG src gs q k v Hms Hkv) as (src0 & src1 & -> & Her & Hms1 & Hcap1 & Hsl1).
    cbn [mbind option_bind]. rewrite Her. cbn [mbind option_bind].
    assert (gs !! k = Some v) as Hgs by (apply (md_holds _ src gs Hms); by exists q).
    pose proof (map_size_delete_plus gs k v Hgs).
    destruct (IH t2 src1 (<[k := v]> g) (delete k gs) (q + 1) n w1 Hm2 Hms1) as (t' & src' & w' & g' & gs' & -> & Hmg);
      [rewrite map_size_insert_None by done; lia|lia|lia|by eapply (stands_erased src src1 _ q); [lia|..]|].
    exists t', src', w', g', gs'. split; [done|]. by eapply merged_move.
Qed.

Lemma swiss_merge_models t src g gs w :
  swiss_models t g → swiss_models src gs → Z.of_nat (size g) + Z.of_nat (size gs) < 2 ^ 40 →
  ∃ t' src' w', swiss_merge hash_key NDEBUG p t src w = Some (t', src', w') ∧ swiss_models t' (g ∪ gs) ∧
    swiss_models src' (filter (λ kv, is_Some (g !! kv.1)) gs).
Proof using L.
  intros Hm Hms Hsz. pose proof (md_table _ src gs Hms) as Ht. pose proof (shape_range src (tk_shape _ src Ht)). unfold swiss_merge, swiss_begin.
  destruct (skip_ok hash_key src 0 Ht ltac:(lia)) as (it & -> & Hst). cbn [mbind option_bind].
  destruct (merge_loop_ok (swiss_fuel src) t src g gs 0 it w Hm Hms Hsz) as (t' & src' & w' & g' & gs' & -> & [Hd Hs Hin Hleft]);
    [lia|unfold swiss_fuel; lia|done|].
  assert (∀ k v, (∃ x, 0 ≤ x ∧ slot_at src x = Some (k, v)) ↔ gs !! k = Some v) as Hex.
  { intros k v. rewrite (md_holds _ src gs Hms k v). split; [intros (x & _ & Hx); by exists x|]. intros [x Hx].
    exists x. split; [|done]. apply slot_at_range in Hx; [lia|apply Ht]. }
  exists t', src', w'. split; [done|]. split.
  - replace (g ∪ gs) with g'; [done|]. apply map_eq. intros k. apply option_eq. intros v. by rewrite Hin, Hex, lookup_union_Some_raw.
  - replace (filter _ gs) with gs'; [done|]. apply map_eq. intros k. apply option_eq. intros v.
    rewrite Hleft, Hex, map_lookup_filter_Some. cbn [fst].
    split; intros [Hg Hp]; (split; [done|]); [by apply Hp|by intros _].
Qed.

(** ** Comparing *)
Lemma has_element_ok t kv hash :
  table_ok t → roomy t → hash_key kv.1 = Some hash →
  ∃ b, has_element hash_key NDEBUG t kv = Some b ∧ (b = true ↔ ∃ q, slot_at t q = Some kv).
Proof using L.
  intros Ht Hr Hh. pose proof (tk_shape _ t Ht) as Hs. unfold has_element. rewrite Hh. cbn [mbind option_bind].
  destruct (lookup_ok hash_key NDEBUG t (λ x, bool_decide (x = kv)) kv.1 hash Ht Hr Hh) as (s & r & Hp & Hf & Hspec).
  { by intros x ->%bool_decide_eq_true. }
  rewrite Hp. cbn [mbind option_bind]. destruct (swiss_probe_ok NDEBUG t hash Hs) as (s' & Hp' & Hat). rewrite Hp in Hp'. injection Hp' as <-.
  destruct (roomy_group t hash Hs Hr) as (m & Hm & He). pose proof (fuel_groups t Hs).
  rewrite (has_element_find NDEBUG t kv hash m) with (m := 0) by (done || lia || (by apply (table_constructed hash_key)) || by intros _).
  rewrite Hf. eexists. split; [done|]. destruct r as [q|].
  - split; [intros _|done]. destruct Hspec as (_ & _ & x & Hx & Heq%bool_decide_eq_true). subst x. by exists q.
  - split; [done|]. intros [q Hq]. destruct (Hspec q). pose proof (slot_at_range t q kv Hs Hq).
    split; [done|]. split; [apply (tk_full _ t Ht); [done|by eexists]|]. exists kv. split; [done|]. by apply bool_decide_eq_true.
Qed.

Lemma all_in_ok t g l :
  swiss_models t g → (∀ kv, kv ∈ l → is_Some (hash_key kv.1)) →
  ∃ b, all_in hash_key NDEBUG t l = Some b ∧ (b = true ↔ ∀ k v, (k, v) ∈ l → g !! k = Some v).
Proof using L.
  intros Hm. induction l as [|[k v] l IH]; intros Hl; cbn [all_in].
  { exists true. split; [done|]. split; [intros _ k v []%not_elem_of_nil|done]. }
  destruct (Hl (k, v)) as [hash Hh]; [by left|]. cbn [fst] in Hh.
  destruct (has_element_ok t (k, v) hash (md_table _ t g Hm) (models_roomy _ t g Hm) Hh) as (b & -> & Hb). cbn [mbind option_bind].
  rewrite <-(md_holds _ t g Hm k v) in Hb. destruct b.
  - destruct IH as (b & -> & Hb'); [intros; apply Hl; by right|]. exists b. split; [done|]. rewrite Hb'. split.
    + intros Hall k' v' [[= -> ->]|Hin]%elem_of_cons; [by apply Hb|by apply Hall].
    + intros Hall k' v' Hin. apply Hall. by right.
  - exists false. split; [done|]. split; [done|]. intros Hall. apply Hb, Hall. by left.
Qed.

Lemma map_equal_subset (g1 g2 : gmap K V) : size g1 = size g2 → (∀ k v, (k, v) ∈ map_to_list g1 → g2 !! k = Some v) ↔ g1 = g2.
Proof using.
  intros Hsz. split.
  - intros Hall. apply map_subseteq_size_eq; [|lia]. apply map_subseteq_spec. intros k v Hk. by apply Hall, elem_of_map_to_list.
  - intros -> k v Hin. by apply elem_of_map_to_list.
Qed.

Lemma swiss_equal_models t t2 g g2 :
  swiss_models t g → swiss_models t2 g2 → swiss_equal hash_key NDEBUG t t2 = Some (bool_decide (g = g2)).
Proof using L.
  intros Hm Hm2. unfold swiss_equal. rewrite (md_size _ t g Hm), (md_size _ t2 g2 Hm2).
  destruct (Z.eqb_spec (Z.of_nat (size g)) (Z.of_nat (size g2))) as [Hsz|Hne]; cbn [negb].
  2:{ rewrite bool_decide_eq_false_2; [done|]. intros ->. lia. }
  assert (∀ (a b : raw_hash_set K V) (ga gb : gmap K V), swiss_models a ga → swiss_models b gb → size ga = size gb →
    (l ← swiss_elements NDEBUG a; all_in hash_key NDEBUG b (l.*2)) = Some (bool_decide (ga = gb))) as Hgo.
  { intros a b ga gb Hma Hmb Hs. rewrite (swiss_elements_ok hash_key NDEBUG a) by apply Hma. cbn [mbind option_bind].
    pose proof (swiss_elements_models hash_key a ga Hma) as Hperm.
    destruct (all_in_ok b gb (entries_from a 0).*2 Hmb) as (r & -> & Hr).
    - intros kv ([q kv'] & -> & Hx)%list_elem_of_fmap. apply elem_of_entries in Hx as [_ Hx]. by apply (slot_hashable a q kv'); [apply Hma|].
    - f_equal. apply Bool.eq_true_iff_eq. rewrite Hr, bool_decide_eq_true, <-(map_equal_subset ga gb Hs).
      split; intros Hall k v Hin; apply Hall; by rewrite Hperm in *. }
  destruct (capacity_ t2 <? capacity_ t).
  - rewrite (Hgo t2 t g2 g) by (done || lia). f_equal. apply bool_decide_ext. by split.
  - apply Hgo; [done..|lia].
Qed.
End merge.
