(* ===== verification/SwissRun.v ===== *)
(** * Runs of two flat hash maps

    A client's operations on two tables, with exchanges, copies, merges and moves between
    them, answer what they would answer on two finite maps, wherever the arrays are
    allocated, whatever memory held before and however the seeds come out; no assert fails,
    no access leaves the arrays and every probe ends. *)
From stdpp Require Import gmap.
From S2P Require Import Prelude Words BitArray FiniteMaps DenseProbe SwissBits SwissGroup SwissPortable SwissTable SwissShape SwissFind SwissInv SwissResize SwissDrop SwissInsert SwissErase SwissManage.

Inductive swiss_op {K V : Type} :=
  | SEmplace (key : K) (obj : V)
  | SInsertOrAssign (key : K) (obj : V)
  | SSubscript (key : K) (obj : V)
  | SLazyEmplace (key : K) (obj : V)
  | SInsertRange (l : list (K * V))
  | SErase (key : K)
  | SEraseIf (pred : K * V → bool)
  | SEraseAll
  | SMoveNode (key : K)
  | SFind (key : K)
  | SContains (key : K)
  | SCount (key : K)
  | SAt (key : K)
  | SEqualRange (key : K)
  | SElements
  | SSize
  | SClear
  | SRehash (n : Z)
  | SReserve (n : Z)
  | SMerge
  | SEqual
  | SSwap
  | SNewRange (l : list (K * V)) (n : Z)
  | SCopy
  | SAssign
  | SMoveAssign.
Arguments swiss_op : clear implicits.

Inductive swiss_answer {K V : Type} `{Countable K} :=
  | SNone
  | SInserted (b : bool)
  | SCounted (n : Z)
  | SFound (r : option V)
  | SListed (n : nat) (g : gmap K V).
Arguments swiss_answer K V {_ _}.

Section run.
Context `{L : GroupLaws} {K V : Type} `{Countable K} `{EqDecision V}.
Context (hash_key : K → option Z) (NDEBUG : bool) (p : platform) (dflt : V).

Abbreviation stable := (raw_hash_set K V).
Abbreviation state := (stable * stable * world)%type.
Abbreviation answer := (swiss_answer K V).
Abbreviation op := (swiss_op K V).

(** One operation: the first of two tables is the one a method is called on. [SMoveNode]
    is [second.insert(first.extract(key))], [SCopy] builds the second from the first,
    [SAssign] and [SMoveAssign] assign the second to the first, [SMerge] merges the second
    into it. *)
Definition swiss_step (s : state) (o : op) : option (state * answer) :=
  let '(t, t2, w) := s in
  match o with
  | SEmplace k v => '(t, _, b, w) ← swiss_emplace hash_key NDEBUG p t (k, v) w; Some ((t, t2, w), SInserted b)
  | SInsertOrAssign k v => '(t, b, w) ← swiss_insert_or_assign hash_key NDEBUG p t k v w; Some ((t, t2, w), SInserted b)
  | SSubscript k v => '(t, w) ← swiss_subscript_assign hash_key NDEBUG p dflt t k v w; Some ((t, t2, w), SNone)
  | SInsertRange l => '(t, w) ← swiss_insert_range hash_key NDEBUG p t l w; Some ((t, t2, w), SNone)
  | SLazyEmplace k v =>
      '(t, i, w) ← lazy_emplace hash_key NDEBUG p t k (k, v) w; kv ← it_deref NDEBUG t (Some i); Some ((t, t2, w), SFound (Some kv.2))
  | SErase k => '(t, n) ← swiss_erase hash_key NDEBUG t k; Some ((t, t2, w), SCounted n)
  | SEraseIf pred => t ← erase_if NDEBUG pred t; Some ((t, t2, w), SNone)
  | SEraseAll => t ← swiss_erase_all NDEBUG t; Some ((t, t2, w), SNone)
  | SMoveNode k =>
      '(t, node) ← swiss_extract hash_key NDEBUG t k;
      '(t2, b, _, w) ← insert_node hash_key NDEBUG p t2 node w; Some ((t, t2, w), SInserted b)
  | SFind k => r ← swiss_find_value hash_key NDEBUG t k; Some (s, SFound r)
  | SContains k => b ← swiss_contains hash_key NDEBUG t k; Some (s, SInserted b)
  | SCount k => n ← swiss_count hash_key NDEBUG t k; Some (s, SCounted n)
  | SAt k => v ← swiss_at hash_key NDEBUG t k; Some (s, SFound (Some v))
  | SEqualRange k =>
      '(i, _) ← swiss_equal_range hash_key NDEBUG t k;
      match i with None => Some (s, SFound None) | Some i => kv ← it_deref NDEBUG t (Some i); Some (s, SFound (Some kv.2)) end
  | SElements => l ← swiss_elements NDEBUG t; Some (s, SListed (length l) (list_to_map (l.*2)))
  | SSize => Some (s, SCounted (size_ t))
  | SClear => t ← swiss_clear NDEBUG p t; Some ((t, t2, w), SNone)
  | SRehash n => '(t, w) ← swiss_rehash hash_key NDEBUG p t n w; Some ((t, t2, w), SNone)
  | SReserve n => '(t, w) ← swiss_reserve hash_key NDEBUG p t n w; Some ((t, t2, w), SNone)
  | SMerge => '(t, t2, w) ← swiss_merge hash_key NDEBUG p t t2 w; Some ((t, t2, w), SNone)
  | SEqual => b ← swiss_equal hash_key NDEBUG t t2; Some (s, SInserted b)
  | SSwap => Some ((t2, t, w), SNone)
  | SNewRange l n => '(t2, w) ← swiss_new_range hash_key NDEBUG p l n w; Some ((t, t2, w), SNone)
  | SCopy => '(t2, w) ← swiss_copy hash_key NDEBUG p t w; Some ((t, t2, w), SNone)
  | SAssign => '(t, w) ← swiss_assign hash_key NDEBUG p t t2 w; Some ((t, t2, w), SNone)
  | SMoveAssign => '(t, t2) ← swiss_move_assign NDEBUG p t t2; Some ((t, t2, w), SNone)
  end.

(** The same operation on two maps. *)
Definition swiss_spec_step (s : gmap K V * gmap K V) (o : op) : (gmap K V * gmap K V) * answer :=
  let '(g, g2) := s in
  let has k := bool_decide (is_Some (g !! k)) in
  match o with
  | SEmplace k v => ((put_new g (k, v), g2), SInserted (negb (has k)))
  | SInsertOrAssign k v => ((<[k := v]> g, g2), SInserted (negb (has k)))
  | SSubscript k v => ((<[k := v]> g, g2), SNone)
  | SInsertRange l => ((put_all g l, g2), SNone)
  | SLazyEmplace k v => ((put_new g (k, v), g2), SFound (Some (default v (g !! k))))
  | SErase k => ((delete k g, g2), SCounted (Z.b2z (has k)))
  | SEraseIf pred => ((filter (λ kv, pred kv = false) g, g2), SNone)
  | SMoveNode k =>
      match g !! k with
      | Some v => ((delete k g, put_new g2 (k, v)), SInserted (bool_decide (g2 !! k = None)))
      | None => ((g, g2), SInserted false)
      end
  | SFind k | SAt k | SEqualRange k => (s, SFound (g !! k))
  | SContains k => (s, SInserted (has k))
  | SCount k => (s, SCounted (Z.b2z (has k)))
  | SElements => (s, SListed (size g) g)
  | SSize => (s, SCounted (Z.of_nat (size g)))
  | SClear | SEraseAll => ((∅, g2), SNone)
  | SRehash _ | SReserve _ => (s, SNone)
  | SMerge => ((g ∪ g2, filter (λ kv, is_Some (g !! kv.1)) g2), SNone)
  | SEqual => (s, SInserted (bool_decide (g = g2)))
  | SSwap => ((g2, g), SNone)
  | SNewRange l _ => ((g, put_all ∅ l), SNone)
  | SCopy => ((g, g), SNone)
  | SAssign => ((g2, g2), SNone)
  | SMoveAssign => ((g2, ∅), SNone)
  end.

(** What the client may ask for: keys with a hash, fewer than 2^40 entries, and [at] for a
    key that is there. *)
Definition hashed (k : K) : Prop := is_Some (hash_key k).

Definition few (g : gmap K V) (n : Z) : Prop := Z.of_nat (size g) + n < 2 ^ 40.

Definition swiss_op_ok (s : gmap K V * gmap K V) (o : op) : Prop :=
  let '(g, g2) := s in
  match o with
  | SEmplace k _ | SInsertOrAssign k _ | SSubscript k _ | SLazyEmplace k _ => hashed k ∧ few g 0
  | SInsertRange l => Forall (λ kv, hashed kv.1) l ∧ few g (Z.of_nat (length l))
  | SErase k | SFind k | SContains k | SCount k | SEqualRange k => hashed k
  | SMoveNode k => hashed k ∧ few g2 0
  | SAt k => hashed k ∧ is_Some (g !! k)
  | SRehash n | SReserve n => 0 ≤ n < 2 ^ 45 ∧ few g 0
  | SMerge => few g (Z.of_nat (size g2))
  | SNewRange l n => Forall (λ kv, hashed kv.1) l ∧ Z.of_nat (length l) < 2 ^ 40 ∧ 0 ≤ n < 2 ^ 48
  | SCopy => few g 0
  | SAssign => few g2 0
  | SEraseIf _ | SEraseAll | SElements | SSize | SClear | SEqual | SSwap | SMoveAssign => True
  end.

Fixpoint run_swiss (s : state) (ops : list op) : option (state * list answer) :=
  match ops with
  | [] => Some (s, [])
  | o :: ops => '(s, a) ← swiss_step s o; '(s, l) ← run_swiss s ops; Some (s, a :: l)
  end.

Fixpoint run_swiss_spec (s : gmap K V * gmap K V) (ops : list op) : (gmap K V * gmap K V) * list answer :=
  match ops with
  | [] => (s, [])
  | o :: ops => let '(s, a) := swiss_spec_step s o in let '(s, l) := run_swiss_spec s ops in (s, a :: l)
  end.

Fixpoint swiss_ops_ok (s : gmap K V * gmap K V) (ops : list op) : Prop :=
  match ops with
  | [] => True
  | o :: ops => swiss_op_ok s o ∧ swiss_ops_ok (swiss_spec_step s o).1 ops
  end.

#[export] Instance swiss_op_ok_dec s o : Decision (swiss_op_ok s o).
Proof using. destruct s as [g g2], o; cbn [swiss_op_ok]; unfold hashed, few; apply _. Defined.

#[export] Instance swiss_ops_ok_dec s ops : Decision (swiss_ops_ok s ops).
Proof using. revert s. induction ops as [|o ops IH]; intros s; cbn [swiss_ops_ok]; apply _. Defined.

(** Two tables the client has just built. *)
Definition new_swiss_tables (n n2 : Z) (w : world) : option state :=
  '(t, w) ← swiss_new_count NDEBUG p n w; '(t2, w) ← swiss_new_count NDEBUG p n2 w; Some (t, t2, w).

Definition swiss_implement (s : state) (a : gmap K V * gmap K V) : Prop :=
  swiss_models hash_key s.1.1 a.1 ∧ swiss_models hash_key s.1.2 a.2.

Definition swiss_agrees (r : option (state * answer)) (a : (gmap K V * gmap K V) * answer) : Prop :=
  ∃ s', r = Some (s', a.2) ∧ swiss_implement s' a.1.

(** ** Each operation *)
Local Ltac pick := repeat first [apply list_elem_of_here|apply list_elem_of_further].

Lemma swiss_first_agrees t t2 w g g2 a :
  swiss_models hash_key t g → swiss_models hash_key t2 g2 → swiss_agrees (Some ((t, t2, w), a)) ((g, g2), a).
Proof using. intros Hm Hm2. by exists (t, t2, w). Qed.

Lemma is_none_some {A} (x : option A) : bool_decide (x = None) = negb (bool_decide (is_Some x)).
Proof using. destruct x; [rewrite bool_decide_eq_false_2, bool_decide_eq_true_2 by (done || by eexists); done|]. by rewrite bool_decide_eq_true_2, bool_decide_eq_false_2 by (done || by intros [? ?]). Qed.

Lemma b2z_some {A} (x : option A) : (if x is Some _ then 1 else 0) = Z.b2z (bool_decide (is_Some x)).
Proof using. destruct x; [by rewrite bool_decide_eq_true_2 by by eexists|]. by rewrite bool_decide_eq_false_2 by by intros [? ?]. Qed.

Lemma swiss_lookup_agrees t t2 w g g2 o k :
  swiss_models hash_key t g → swiss_models hash_key t2 g2 → hashed k → (∀ v, o = SAt v → is_Some (g !! k)) →
  o ∈ [SFind k; SContains k; SCount k; SAt k; SEqualRange k] → swiss_agrees (swiss_step (t, t2, w) o) (swiss_spec_step (g, g2) o).
Proof using L.
  intros Hm Hm2 [hash Hh] Hat Ho. destruct (swiss_count_models hash_key NDEBUG t g k hash Hm Hh) as (Hc & Hcon & Hv).
  repeat apply elem_of_cons in Ho as [->|Ho]; [..|by apply elem_of_nil in Ho]; cbn [swiss_step swiss_spec_step].
  - rewrite (swiss_find_value_models hash_key NDEBUG t g k hash Hm Hh). by apply swiss_first_agrees.
  - rewrite Hcon. by apply swiss_first_agrees.
  - rewrite Hc, b2z_some. by apply swiss_first_agrees.
  - rewrite Hv. destruct (Hat k eq_refl) as [v ->]. by apply swiss_first_agrees.
  - pose proof (swiss_equal_range_models hash_key NDEBUG t g k hash Hm Hh) as Hr. destruct (g !! k) as [v|].
    + destruct Hr as (q & n & -> & Hq & _). cbn [mbind option_bind]. rewrite (it_deref_ok hash_key NDEBUG t q (k, v)) by (apply Hm || done).
      by apply swiss_first_agrees.
    + rewrite Hr. by apply swiss_first_agrees.
Qed.

Lemma swiss_elements_agrees t t2 w g g2 :
  swiss_models hash_key t g → swiss_models hash_key t2 g2 → swiss_agrees (swiss_step (t, t2, w) SElements) (swiss_spec_step (g, g2) SElements).
Proof using L.
  intros Hm Hm2. cbn [swiss_step swiss_spec_step]. rewrite (swiss_elements_ok hash_key NDEBUG t) by apply Hm. cbn [mbind option_bind].
  pose proof (swiss_elements_models hash_key t g Hm) as Hp.
  replace (length (entries_from t 0)) with (size g); [|by rewrite <-(length_fmap snd), Hp, length_map_to_list].
  replace (list_to_map _) with g; [by apply swiss_first_agrees|]. symmetry. rewrite <-(list_to_map_to_list g). apply list_to_map_proper; [|done].
  rewrite Hp. apply NoDup_fst_map_to_list.
Qed.

Lemma swiss_update_agrees t t2 w g g2 o k :
  swiss_models hash_key t g → swiss_models hash_key t2 g2 → hashed k → few g 0 →
  (∃ v, o ∈ [SEmplace k v; SInsertOrAssign k v; SSubscript k v; SLazyEmplace k v]) → swiss_agrees (swiss_step (t, t2, w) o) (swiss_spec_step (g, g2) o).
Proof using L.
  intros Hm Hm2 [hash Hh] Hsz [v Ho]. assert (Z.of_nat (size g) < 2 ^ 40) as Hlt by (unfold few in Hsz; lia).
  repeat apply elem_of_cons in Ho as [->|Ho]; [..|by apply elem_of_nil in Ho]; cbn [swiss_step swiss_spec_step].
  - destruct (swiss_emplace_models hash_key NDEBUG p t g k v w hash Hm Hh Hlt) as (t' & i & w' & -> & Hm' & _). rewrite <-is_none_some.
    by apply swiss_first_agrees.
  - destruct (swiss_insert_or_assign_models hash_key NDEBUG p t g k v w hash Hm Hh Hlt) as (t' & w' & -> & Hm'). rewrite <-is_none_some.
    by apply swiss_first_agrees.
  - destruct (swiss_subscript_models hash_key NDEBUG p dflt t g k v w hash Hm Hh Hlt) as (t' & w' & -> & Hm'). by apply swiss_first_agrees.
  - destruct (lazy_emplace_models hash_key NDEBUG p t g k v w hash Hm Hh Hlt) as (t' & i & w' & -> & Hm' & Hv). cbn [mbind option_bind].
    rewrite (it_deref_ok hash_key NDEBUG t' i (k, default v (g !! k))) by (done || apply Hm'). by apply swiss_first_agrees.
Qed.

Lemma swiss_remove_agrees t t2 w g g2 o :
  swiss_models hash_key t g → swiss_models hash_key t2 g2 → swiss_op_ok (g, g2) o →
  ((∃ k, o ∈ [SErase k; SMoveNode k]) ∨ (∃ pred, o = SEraseIf pred) ∨ o ∈ [SEraseAll; SClear]) →
  swiss_agrees (swiss_step (t, t2, w) o) (swiss_spec_step (g, g2) o).
Proof using L.
  intros Hm Hm2 Hok [[k Ho]|[[pred ->]|Ho]].
  - repeat apply elem_of_cons in Ho as [->|Ho]; [..|by apply elem_of_nil in Ho]; cbn [swiss_step swiss_spec_step swiss_op_ok] in *.
    + destruct Hok as [hash Hh]. destruct (swiss_erase_models hash_key NDEBUG t g k hash Hm Hh) as (t' & -> & Hm'). rewrite b2z_some.
      by apply swiss_first_agrees.
    + destruct Hok as [[hash Hh] Hsz]. destruct (swiss_extract_models hash_key NDEBUG t g k hash Hm Hh) as (t' & -> & Hm'). cbn [mbind option_bind].
      destruct (insert_node_models hash_key NDEBUG p t2 g2 ((λ v, (k, v)) <$> g !! k) w Hm2) as (t2' & w' & -> & Hm2').
      { intros kv Hkv. destruct (g !! k); [|done]. injection Hkv as <-. by exists hash. }
      { unfold few in Hsz. lia. }
      cbn [mbind option_bind]. destruct (g !! k) as [v|] eqn:Hg; cbn [fmap option_fmap option_map fst] in *; [by apply swiss_first_agrees|].
      rewrite (delete_id g k) in Hm' by done. by apply swiss_first_agrees.
  - cbn [swiss_step swiss_spec_step]. destruct (swiss_erase_if_models hash_key NDEBUG pred t g Hm) as (t' & -> & Hm'). by apply swiss_first_agrees.
  - repeat apply elem_of_cons in Ho as [->|Ho]; [..|by apply elem_of_nil in Ho]; cbn [swiss_step swiss_spec_step].
    { destruct (erase_all_models hash_key NDEBUG t g Hm) as (t' & -> & Hm'). by apply swiss_first_agrees. }
    destruct (swiss_clear_models hash_key NDEBUG p t g Hm) as (t' & -> & Hm' & _). by apply swiss_first_agrees.
Qed.

Lemma swiss_capacity_agrees t t2 w g g2 o n :
  swiss_models hash_key t g → swiss_models hash_key t2 g2 → 0 ≤ n < 2 ^ 45 → few g 0 → o ∈ [SRehash n; SReserve n] →
  swiss_agrees (swiss_step (t, t2, w) o) (swiss_spec_step (g, g2) o).
Proof using L.
  intros Hm Hm2 Hn Hsz Ho. unfold few in Hsz.
  repeat apply elem_of_cons in Ho as [->|Ho]; [..|by apply elem_of_nil in Ho]; cbn [swiss_step swiss_spec_step].
  - destruct (swiss_rehash_models hash_key NDEBUG p t g n w Hm) as (t' & w' & -> & Hm' & _); [lia|lia|]. by apply swiss_first_agrees.
  - destruct (swiss_reserve_models hash_key NDEBUG p t g n w Hm) as (t' & w' & -> & Hm' & _); [lia|lia|]. by apply swiss_first_agrees.
Qed.

Lemma swiss_step_agrees s a o : swiss_implement s a → swiss_op_ok a o → swiss_agrees (swiss_step s o) (swiss_spec_step a o).
Proof using L.
  destruct s as [[t t2] w], a as [g g2]. intros [Hm Hm2] Ho. cbn [fst snd] in Hm, Hm2.
  destruct o as [k v|k v|k v|k v|l|k|pred| |k|k|k|k|k|k| | | |n|n| | | |l n| | |]; cbn [swiss_op_ok] in Ho.
  - apply (swiss_update_agrees _ _ _ _ _ _ k); [done|done|apply Ho|apply Ho|]. exists v. by left.
  - apply (swiss_update_agrees _ _ _ _ _ _ k); [done|done|apply Ho|apply Ho|]. exists v. by right; left.
  - apply (swiss_update_agrees _ _ _ _ _ _ k); [done|done|apply Ho|apply Ho|]. exists v. by right; right; left.
  - apply (swiss_update_agrees _ _ _ _ _ _ k); [done|done|apply Ho|apply Ho|]. exists v. by right; right; right; left.
  - cbn [swiss_step swiss_spec_step].
    destruct (swiss_insert_range_models hash_key NDEBUG p l t g w Hm) as (t' & w' & -> & Hm'); [apply Ho|apply Ho|]. by apply swiss_first_agrees.
  - apply swiss_remove_agrees; [done..|]. left. exists k. by left.
  - apply swiss_remove_agrees; [done..|]. right; left. by exists pred.
  - apply swiss_remove_agrees; [done..|]. right; right. by left.
  - apply swiss_remove_agrees; [done..|]. left. exists k. by right; left.
  - apply (swiss_lookup_agrees _ _ _ _ _ _ k); [done..|by pick].
  - apply (swiss_lookup_agrees _ _ _ _ _ _ k); [done..|by pick].
  - apply (swiss_lookup_agrees _ _ _ _ _ _ k); [done..|by pick].
  - apply (swiss_lookup_agrees _ _ _ _ _ _ k); [done|done|apply Ho|intros _ _; apply Ho|by pick].
  - apply (swiss_lookup_agrees _ _ _ _ _ _ k); [done..|by pick].
  - by apply swiss_elements_agrees.
  - cbn [swiss_step swiss_spec_step]. rewrite (md_size _ t g Hm). by apply swiss_first_agrees.
  - apply swiss_remove_agrees; [done..|]. right; right. by right; left.
  - apply (swiss_capacity_agrees _ _ _ _ _ _ n); [done|done|apply Ho|apply Ho|by pick].
  - apply (swiss_capacity_agrees _ _ _ _ _ _ n); [done|done|apply Ho|apply Ho|by pick].
  - cbn [swiss_step swiss_spec_step]. destruct (swiss_merge_models hash_key NDEBUG p t t2 g g2 w Hm Hm2 Ho) as (t' & t2' & w' & -> & H1 & H2).
    by apply swiss_first_agrees.
  - cbn [swiss_step swiss_spec_step]. rewrite (swiss_equal_models hash_key NDEBUG t t2 g g2 Hm Hm2). by apply swiss_first_agrees.
  - by apply swiss_first_agrees.
  - cbn [swiss_step swiss_spec_step]. destruct Ho as (Hl & Hsz & Hn).
    destruct (swiss_new_range_models hash_key NDEBUG p l n w Hn Hl Hsz) as (t' & w' & -> & Hm'). by apply swiss_first_agrees.
  - cbn [swiss_step swiss_spec_step]. destruct (swiss_copy_models hash_key NDEBUG p t g w Hm) as (t' & w' & -> & Hm'); [unfold few in Ho; lia|].
    by apply swiss_first_agrees.
  - cbn [swiss_step swiss_spec_step]. destruct (swiss_assign_models hash_key NDEBUG p t t2 g g2 w Hm Hm2) as (t' & w' & -> & Hm'); [unfold few in Ho; lia|].
    by apply swiss_first_agrees.
  - cbn [swiss_step swiss_spec_step]. destruct (swiss_move_assign_models hash_key NDEBUG p t t2 g g2 Hm Hm2) as (t' & t2' & -> & H1 & H2).
    by apply swiss_first_agrees.
Qed.

Lemma run_swiss_agrees ops : ∀ s a,
  swiss_implement s a → swiss_ops_ok a ops →
  ∃ s', run_swiss s ops = Some (s', (run_swiss_spec a ops).2) ∧ swiss_implement s' (run_swiss_spec a ops).1.
Proof using L.
  induction ops as [|o ops IH]; intros s a Hs Hops; [by exists s|]. destruct Hops as [Ho Hops].
  destruct (swiss_step_agrees s a o Hs Ho) as (s1 & Hs1 & Hi). destruct (IH s1 _ Hi Hops) as (s' & Hs' & Hi').
  exists s'. cbn [run_swiss run_swiss_spec]. rewrite Hs1. cbn [mbind option_bind]. rewrite Hs'. cbn [mbind option_bind].
  destruct (swiss_spec_step a o) as [a1 ans]. cbn [fst snd] in *. by destruct (run_swiss_spec a1 ops).
Qed.

Lemma new_swiss_tables_ok n n2 w :
  0 ≤ n < 2 ^ 48 → 0 ≤ n2 < 2 ^ 48 → ∃ s, new_swiss_tables n n2 w = Some s ∧ swiss_implement s (∅, ∅).
Proof using L.
  intros Hn Hn2. unfold new_swiss_tables. destruct (swiss_new_count_models (K := K) (V := V) hash_key NDEBUG p n w Hn) as (t & w1 & -> & Hm & _).
  cbn [mbind option_bind]. destruct (swiss_new_count_models (K := K) (V := V) hash_key NDEBUG p n2 w1 Hn2) as (t2 & w2 & -> & Hm2 & _).
  by exists (t, t2, w2).
Qed.
End run.

(** C8: Any sequence of insertions, assignments, erasures, moves of nodes, lookups, walks,
    clearings, rehashes, merges, comparisons, exchanges, copies and assignments on two new
    flat hash maps is defined (no assert fails, no access is outside an array, every probe
    ends), answers what two finite maps answer and leaves tables with the entries of those
    maps, whichever implementation of the groups is used, with or without the asserts, and
    whatever the hash, the addresses, the fresh memory and the seeds are. *)
Theorem swiss_run_as_maps `{L : GroupLaws} {K V : Type} `{Countable K} `{EqDecision V}
    (hash_key : K → option Z) NDEBUG p (dflt : V) n n2 w ops :
  0 ≤ n < 2 ^ 48 → 0 ≤ n2 < 2 ^ 48 → swiss_ops_ok hash_key (∅, ∅) ops →
  ∃ s t t2 w' l l2, new_swiss_tables NDEBUG p n n2 w = Some s ∧
    run_swiss hash_key NDEBUG p dflt s ops = Some ((t, t2, w'), (run_swiss_spec (∅, ∅) ops).2) ∧
    swiss_elements NDEBUG t = Some l ∧ swiss_elements NDEBUG t2 = Some l2 ∧
    l.*2 ≡ₚ map_to_list (run_swiss_spec (∅, ∅) ops).1.1 ∧ l2.*2 ≡ₚ map_to_list (run_swiss_spec (∅, ∅) ops).1.2.
Proof.
  intros Hn Hn2 Hops. destruct (new_swiss_tables_ok (V := V) hash_key NDEBUG p n n2 w Hn Hn2) as (s & -> & Hs).
  destruct (run_swiss_agrees hash_key NDEBUG p dflt ops s (∅, ∅) Hs Hops) as ([[t t2] w'] & Hs' & [Hm Hm2]).
  exists s, t, t2, w', (entries_from t 0), (entries_from t2 0). split; [done|]. split; [done|].
  split; [by apply (swiss_elements_ok hash_key); apply Hm|]. split; [by apply (swiss_elements_ok hash_key); apply Hm2|].
  split; by apply (swiss_elements_models hash_key).
Qed.

(** ** Instance: keys that collide, in tables that grow, are emptied and drop deletes in place *)
Definition demo_swiss_ops : list (swiss_op Z Z) :=
  [SEmplace 4 40; SEmplace 5 50; SEmplace 4 41; SInsertOrAssign 4 42; SFind 4; SAt 5; SSubscript 6 60; SErase 5; SErase 5; SFind 5;
   SInsertRange ((λ k, (k, k)) <$> seqZ 10 20); SSize; SCount 12; SContains 13; SEqualRange 14; SEqualRange 5;
   SEraseIf (λ kv, 20 <=? kv.1); SSize; SCopy; SEqual; SSwap; SErase 10; SMoveNode 11; SMoveNode 77; SSize; SInsertOrAssign 100 1;
   SMerge; SSize; SSwap; SSize; SRehash 0; SReserve 50; SElements; SAssign; SEqual; SMoveAssign; SSize; SSwap; SEmplace 1 1; SClear; SSize;
   SNewRange [(1, 2); (4, 5); (1, 3)] 2; SLazyEmplace 1 7; SLazyEmplace 1 8; SMerge; SSize; SEraseAll; SSize].

(** Two keys of three share their bits and their place. *)
Definition demo_swiss_key (k : Z) : option Z := Some (u64 (k / 3 * 1000)).

Definition demo_platform : platform := Platform (λ i, i * 4096) (λ i, - (i `mod` 128)) 8192 64.

Lemma demo_swiss_ops_ok : swiss_ops_ok demo_swiss_key (∅, ∅) demo_swiss_ops.
Proof. apply (bool_decide_unpack _). by vm_compute. Qed.

Definition demo_swiss_answers : list (swiss_answer Z Z) := (run_swiss_spec (∅, ∅) demo_swiss_ops).2.

Lemma swiss_run_as_maps_witness :
  (∃ s t t2 w', new_swiss_tables (G := GroupSse2Impl true) false demo_platform 0 3 (World 0 0) = Some s ∧
    run_swiss (G := GroupSse2Impl true) demo_swiss_key false demo_platform 0 s demo_swiss_ops = Some ((t, t2, w'), demo_swiss_answers)) ∧
  (∃ s t t2 w', new_swiss_tables (G := GroupPortableImpl) false demo_platform 0 3 (World 0 0) = Some s ∧
    run_swiss (G := GroupPortableImpl) demo_swiss_key false demo_platform 0 s demo_swiss_ops = Some ((t, t2, w'), demo_swiss_answers)).
Proof.
  split.
  - destruct (swiss_run_as_maps (L := GroupSse2Laws true) demo_swiss_key false demo_platform 0 0 3 (World 0 0) demo_swiss_ops
      ltac:(lia) ltac:(lia) demo_swiss_ops_ok) as (s & t & t2 & w' & _ & _ & Hs & Hrun & _). exists s, t, t2, w'. split; [exact Hs|exact Hrun].
  - destruct (swiss_run_as_maps (L := GroupPortableLaws) demo_swiss_key false demo_platform 0 0 3 (World 0 0) demo_swiss_ops
      ltac:(lia) ltac:(lia) demo_swiss_ops_ok) as (s & t & t2 & w' & _ & _ & Hs & Hrun & _). exists s, t, t2, w'. split; [exact Hs|exact Hrun].
Defined.
