(* ===== verification/SwissFacts.v ===== *)
(** * What the flat hash map promises beyond its answers

    The two implementations of a group and of the bit counts agree; the state of a table is
    well formed after any run; a rehash in place loses nothing and ends; a reserved table
    takes what it was reserved for without another allocation. *)
From stdpp Require Import gmap.
From S2P Require Import Prelude Words BitArray FiniteMaps DenseProbe SwissBits SwissGroup SwissPortable SwissTable SwissShape SwissFind SwissInv SwissResize SwissDrop SwissInsert SwissErase SwissManage SwissRun.

(** ** Groups *)

(** The positions a mask of each implementation has. *)
Definition sse2_positions (m : Z) : option (list Z) := mask_positions 32 0 m.
Definition portable_positions (m : Z) : option (list Z) := mask_positions 64 3 m.

Lemma trues_app l r : ∀ i, trues i (l ++ r) = trues i l ++ trues (i + Z.of_nat (length l)) r.
Proof.
  induction l as [|b l IH]; intros i; cbn [trues app length]; [by rewrite Z.add_0_r|].
  rewrite IH. replace (i + 1 + Z.of_nat (length l)) with (i + Z.of_nat (S (length l))) by lia. by destruct b.
Qed.

Lemma trues_shift l : ∀ i k, trues (i + k) l = (λ j, k + j) <$> trues i l.
Proof.
  induction l as [|b l IH]; intros i k; [done|]. cbn [trues]. replace (i + k + 1) with (i + 1 + k) by lia. rewrite IH.
  destruct b; [|done]. rewrite fmap_cons. f_equal. lia.
Qed.

(** Two groups of eight, as one of sixteen *)
Lemma positions_halves (bs1 bs2 : list bool) :
  length bs1 = 8%nat → length bs2 = 8%nat →
  sse2_positions (mask_val 0 (bs1 ++ bs2)) = Some (trues 0 bs1 ++ ((λ j, 8 + j) <$> trues 0 bs2)) ∧
  portable_positions (mask_val 3 bs1) = Some (trues 0 bs1) ∧ portable_positions (mask_val 3 bs2) = Some (trues 0 bs2).
Proof.
  intros H1 H2. unfold sse2_positions, portable_positions.
  rewrite !mask_positions_val by (done || (rewrite ?length_app; cbn; lia)).
  split; [|done]. rewrite trues_app, H1. by rewrite <-(trues_shift bs2 0 8).
Qed.

Lemma leading_free_app l1 l2 :
  leading_free (l1 ++ l2) = if leading_free l1 =? Z.of_nat (length l1) then leading_free l1 + leading_free l2 else leading_free l1.
Proof.
  induction l1 as [|c l1 IH]; [done|]. cbn [leading_free app length]. destruct (IsEmptyOrDeleted c).
  - rewrite IH. pose proof (leading_free_spec l1) as [Hl _].
    destruct (Z.eqb_spec (leading_free l1) (Z.of_nat (length l1))), (Z.eqb_spec (1 + leading_free l1) (Z.of_nat (S (length l1)))); lia.
  - by rewrite (proj2 (Z.eqb_neq 0 _)) by lia.
Qed.

(** C16: The portable word arithmetic and the SSE2 lanes see the same in the control bytes
    of a table, eight at a time and sixteen at a time: the same empty and free positions,
    the same number of free ones in front and the same conversion; and the positions that
    the portable match marks in excess are full, and there only where some byte of the
    group really matches, as its comment says. *)
Theorem portable_group_agrees SSSE3 l1 l2 h :
  length l1 = 8%nat → length l2 = 8%nat → Forall ctrl_valid (l1 ++ l2) → 0 ≤ h < 128 →
  (∀ sse2 portable, (sse2, portable) ∈ [(sse2_MatchEmpty SSSE3, portable_MatchEmpty); (sse2_MatchEmptyOrDeleted, portable_MatchEmptyOrDeleted)] →
    ∃ p1 p2, portable_positions (portable l1) = Some p1 ∧ portable_positions (portable l2) = Some p2 ∧
      sse2_positions (sse2 (l1 ++ l2)) = Some (p1 ++ ((λ j, 8 + j) <$> p2))) ∧
  (∃ n1 n2, portable_CountLeading l1 = Some n1 ∧ portable_CountLeading l2 = Some n2 ∧
    sse2_CountLeading (l1 ++ l2) = Some (if n1 =? 8 then 8 + n2 else n1)) ∧
  sse2_Convert SSSE3 (l1 ++ l2) = portable_Convert l1 ++ portable_Convert l2 ∧
  ∃ p1 p2 p, portable_positions (portable_Match l1 h) = Some p1 ∧ portable_positions (portable_Match l2 h) = Some p2 ∧
    sse2_positions (sse2_Match (l1 ++ l2) h) = Some p ∧ (∀ i, i ∈ p ↔ ∃ n, i = Z.of_nat n ∧ (l1 ++ l2) !! n = Some h) ∧
    p ⊆ p1 ++ ((λ j, 8 + j) <$> p2) ∧ (p1 ≠ [] → h ∈ l1) ∧ ∀ i, i ∈ p1 → ∃ n c, i = Z.of_nat n ∧ l1 !! n = Some c ∧ IsFull c = true.
Proof.
  intros Hl1 Hl2 Hv Hh. pose proof Hv as [Hv1 Hv2]%Forall_app.
  assert (Z.of_nat (length (l1 ++ l2)) = 16) as Hl by (rewrite length_app; lia).
  pose proof (GroupSse2Laws SSSE3) as LS. split; [|split; [|split]].
  - intros sse2 portable Hin. rewrite !elem_of_cons in Hin. destruct Hin as [[= -> ->]|[[= -> ->]|Hin%elem_of_nil]]; [..|done].
    + pose proof (MatchEmpty_val (GroupLaws := LS) (l1 ++ l2) Hl Hv : sse2_MatchEmpty SSSE3 (l1 ++ l2) = mask_val 0 (IsEmpty <$> l1 ++ l2)) as Hs.
      rewrite !portable_MatchEmpty_val, Hs, fmap_app by done.
      destruct (positions_halves (IsEmpty <$> l1) (IsEmpty <$> l2)) as (-> & -> & ->); [by rewrite length_fmap..|]. eauto.
    + pose proof (MatchEmptyOrDeleted_val (GroupLaws := LS) (l1 ++ l2) Hl Hv : sse2_MatchEmptyOrDeleted (l1 ++ l2) = mask_val 0 (IsEmptyOrDeleted <$> l1 ++ l2)) as Hs.
      rewrite !portable_MatchEmptyOrDeleted_val, Hs, fmap_app by done.
      destruct (positions_halves (IsEmptyOrDeleted <$> l1) (IsEmptyOrDeleted <$> l2)) as (-> & -> & ->); [by rewrite length_fmap..|]. eauto.
  - pose proof (CountLeading_val (GroupLaws := LS) (l1 ++ l2) Hl Hv : sse2_CountLeading (l1 ++ l2) = Some (leading_free (l1 ++ l2))) as Hs.
    rewrite !portable_CountLeading_val, Hs, leading_free_app, Hl1 by done. eexists _, _. split; [done|]. split; [done|].
    change (Z.of_nat 8) with 8. by destruct (Z.eqb_spec (leading_free l1) 8) as [->|].
  - pose proof (Convert_val (GroupLaws := LS) (l1 ++ l2) Hl Hv : sse2_Convert SSSE3 (l1 ++ l2) = convert_ctrl <$> l1 ++ l2) as Hs. by rewrite !portable_Convert_val, Hs, fmap_app.
  - rewrite !portable_Match_val by done. pose proof (portable_marks l1 h Hv1 Hh) as [Hm1 Hf1 Ha1 Hr1].
    pose proof (portable_marks l2 h Hv2 Hh) as [Hm2 _ Ha2 _]. set (bs1 := borrow_marks _ _) in *. set (bs2 := borrow_marks _ ((λ c, Z.lxor (u8 c) h) <$> l2)) in *.
    destruct (positions_halves bs1 bs2) as (_ & -> & ->); [congruence..|].
    assert (sse2_positions (sse2_Match (l1 ++ l2) h) = Some (trues 0 ((λ y, h =? y) <$> l1 ++ l2))) as ->.
    { unfold sse2_Match. rewrite cmpeq_mask by (done || lia). apply mask_positions_val; [done|rewrite length_fmap; lia]. }
    assert (∀ i, i ∈ trues 0 ((λ y, h =? y) <$> l1 ++ l2) ↔ ∃ n, i = Z.of_nat n ∧ (l1 ++ l2) !! n = Some h) as Hp.
    { intros i. rewrite elem_of_trues. split; intros (n & -> & Hn); exists n; (split; [done|]); rewrite list_lookup_fmap in *.
      - destruct ((l1 ++ l2) !! n) as [c|]; [|done]. by injection Hn as ->%Z.eqb_eq.
      - rewrite Hn. cbn. by rewrite Z.eqb_refl. }
    eexists _, _, _. split; [done|]. split; [done|]. split; [done|]. split; [exact Hp|]. split; [|split].
    + intros i (n & -> & Hn)%Hp. apply elem_of_app. destruct (decide (n < 8)%nat) as [Hlt|Hge].
      * left. apply elem_of_trues. exists n. split; [done|]. apply Ha1. by rewrite lookup_app_l in Hn by lia.
      * right. apply list_elem_of_fmap. exists (Z.of_nat (n - 8)). split; [lia|]. apply elem_of_trues. exists (n - 8)%nat. split; [lia|].
        apply Ha2. by rewrite lookup_app_r, Hl1 in Hn by lia.
    + intros Hne. apply Hr1. destruct (trues 0 bs1) as [|i p1] eqn:Ht; [done|].
      assert (i ∈ trues 0 bs1) as (n & _ & Hn)%elem_of_trues by (rewrite Ht; by left).
      apply existsb_exists. exists true. split; [|done]. apply list_elem_of_In. by eapply list_elem_of_lookup_2.
    + intros i (n & -> & Hn)%elem_of_trues. destruct (Hf1 n Hn) as (c & Hc & Hge). exists n, c. split; [done|]. split; [done|]. by apply Z.leb_le.
Qed.

(** The group of the comment of [Match], whose first byte matches and whose second is marked too. *)
Lemma portable_group_agrees_witness :
  ∃ p1 p2 p, portable_positions (portable_Match [16; 17; -128; 3; -2; -128; 5; 6] 16) = Some p1 ∧
    portable_positions (portable_Match [16; 17; 18; 19; 20; 21; 22; -1] 16) = Some p2 ∧
    sse2_positions (sse2_Match ([16; 17; -128; 3; -2; -128; 5; 6] ++ [16; 17; 18; 19; 20; 21; 22; -1]) 16) = Some p ∧
    p ⊆ p1 ++ ((λ j, 8 + j) <$> p2).
Proof.
  destruct (portable_group_agrees true [16; 17; -128; 3; -2; -128; 5; 6] [16; 17; 18; 19; 20; 21; 22; -1] 16)
    as (_ & _ & _ & p1 & p2 & p & H1 & H2 & H3 & _ & Hsub & _); [done|done| |lia|].
  - repeat (apply Forall_cons; split; [unfold ctrl_valid, kEmpty, kDeleted, kSentinel; lia|]). by apply Forall_nil.
  - exists p1, p2, p. split; [exact H1|]. split; [exact H2|]. split; [exact H3|exact Hsub].
Defined.

(** ** Bit counts *)

(** The portable bit counts compute what the compiler's builtins do on every word,
    the leading zeros of 0 included. *)
Theorem slow_bit_counts n :
  (fits 64 n → CountLeadingZeros64Slow n = Some (CountLeadingZeros 64 n)) ∧
  (fits 32 n → CountLeadingZeros32Slow n = Some (CountLeadingZeros 32 n)) ∧
  (0 < n < 2 ^ 64 → CountTrailingZerosNonZero n = Some (CountTrailingZerosNonZero64Slow n)) ∧
  (0 < n < 2 ^ 32 → CountTrailingZerosNonZero n = Some (CountTrailingZerosNonZero32Slow n)).
Proof.
  split; [apply CountLeadingZeros64Slow_ok|]. split; [apply CountLeadingZeros32Slow_ok|].
  split; [apply CountTrailingZerosNonZero64Slow_ok|apply CountTrailingZerosNonZero32Slow_ok].
Qed.

Lemma slow_bit_counts_witness : CountLeadingZeros64Slow 0x00F0 = Some 56 ∧ CountTrailingZerosNonZero 0x00F0 = Some 4.
Proof.
  destruct (slow_bit_counts 0x00F0) as (H1 & _ & H2 & _). split; [rewrite H1; [reflexivity|by split]|rewrite H2; [reflexivity|by split]].
Defined.

(** ** Well-formed tables *)
Section wf.
Context `{L : GroupLaws} {K V : Type} `{Countable K} `{EqDecision V}.
Context (hash_key : K → option Z) (NDEBUG : bool) (p : platform).
Implicit Types (t : raw_hash_set K V) (g : gmap K V).

(** The state of a table in the terms of its arrays and counters: the array of control bytes
    ends in a sentinel and is repeated behind it, a slot holds an object just when its byte
    is full, the byte has seven bits of the object's hash, the keys are distinct, and
    [growth_left] is what is left of seven eighths (six of seven slots in groups of eight)
    after the full and the deleted slots. *)
Record swiss_wf t : Prop := SwissWf {
  wf_capacity : capacity_ t = 0 ∨ ∃ k, 0 < k ∧ capacity_ t = 2 ^ k - 1;
  wf_sentinel : arr_get (ctrl_bytes t) (capacity_ t) = Some kSentinel;
  wf_clone q : capacity_ t ≠ 0 → 0 ≤ q < Z.min (kWidth - 1) (capacity_ t) →
    arr_get (ctrl_bytes t) (capacity_ t + 1 + q) = arr_get (ctrl_bytes t) q;
  wf_slot q : 0 ≤ q < capacity_ t → is_Some (slot_at t q) ↔ ∃ c, arr_get (ctrl_bytes t) q = Some c ∧ IsFull c = true;
  wf_hash q kv : slot_at t q = Some kv → ∃ h, hash_key kv.1 = Some h ∧ arr_get (ctrl_bytes t) q = Some (H2 h);
  wf_keys q q' kv kv' : slot_at t q = Some kv → slot_at t q' = Some kv' → kv.1 = kv'.1 → q = q';
  wf_size : size_ t = ctrl_count t IsFull;
  wf_growth : size_ t + ctrl_count t IsDeleted + growth_left t = growth_of (capacity_ t) ∧ 0 ≤ growth_left t;
  wf_empty : kWidth ≤ capacity_ t + 1 → ∃ q, 0 ≤ q < capacity_ t ∧ arr_get (ctrl_bytes t) q = Some kEmpty
}.

Lemma models_wf t g : swiss_models hash_key t g → swiss_wf t.
Proof using L.
  intros Hm. pose proof (md_table _ t g Hm) as Ht. pose proof (tk_shape _ t Ht) as Hs. pose proof (md_counts _ t g Hm) as [H1 H2 H3 H4].
  pose proof (shape_range t Hs). pose proof kWidth_pos as HW. split.
  - destruct (sh_cap t Hs) as (k & Hk & ->). destruct (decide (k = 0)) as [->|]; [by left|]. right. exists k. split; [lia|done].
  - rewrite arr_get_ctrl by (done || lia). by rewrite (sh_sentinel t Hs).
  - intros q Hc Hq. rewrite !arr_get_ctrl by (done || lia). rewrite (sh_cyc t Hs) by lia. rewrite (proj2 (Z.leb_le _ _)) by lia.
    do 2 f_equal. rewrite Z.add_comm, <-(Z.mul_1_l (capacity_ t + 1)) at 1. rewrite Z.mod_add by lia. apply Z.mod_small. lia.
  - intros q Hq. rewrite (tk_full _ t Ht q Hq), arr_get_ctrl by (done || lia). split.
    + intros Hc. eexists. split; [done|]. by apply Z.leb_le.
    + intros (c & [= <-] & Hc). by apply Z.leb_le.
  - intros q kv Hq. pose proof (slot_at_range t q kv Hs Hq). destruct (tk_placed _ t Ht q kv Hq) as (h & Hh & Hc & _). exists h.
    split; [done|]. rewrite arr_get_ctrl by (done || lia). by rewrite Hc.
  - apply (tk_distinct _ t Ht).
  - done.
  - lia.
  - intros Hw. destruct (growth_of_range (capacity_ t) (sh_cap t Hs)) as [_ Hg]. specialize (Hg ltac:(lia)).
    destruct (room_empty t Hs) as (q & Hq & He%Z.eqb_eq); [lia|]. exists q. split; [done|]. rewrite arr_get_ctrl by (done || lia). by rewrite He.
Qed.

(** C12: After any sequence of operations on two new flat hash maps both are well formed:
    the control bytes are those of the objects, mirrored behind the sentinel, the keys are
    distinct, the counters are exact, and a table of more than one group has an empty slot,
    so that every probe of it will end. *)
Theorem swiss_run_well_formed (dflt : V) n n2 w ops s s' answers :
  0 ≤ n < 2 ^ 48 → 0 ≤ n2 < 2 ^ 48 → swiss_ops_ok hash_key (∅, ∅) ops → new_swiss_tables NDEBUG p n n2 w = Some s →
  run_swiss hash_key NDEBUG p dflt s ops = Some (s', answers) → swiss_wf s'.1.1 ∧ swiss_wf s'.1.2.
Proof using L.
  intros Hn Hn2 Hops Hnew Hrun. destruct (new_swiss_tables_ok (V := V) hash_key NDEBUG p n n2 w Hn Hn2) as (s0 & Hs0 & Hi).
  rewrite Hnew in Hs0. injection Hs0 as <-. destruct (run_swiss_agrees hash_key NDEBUG p dflt ops s (∅, ∅) Hi Hops) as (s1 & Hs1 & [Hm Hm2]).
  rewrite Hrun in Hs1. injection Hs1 as <- _. split; by eapply models_wf.
Qed.

(** ** Rehashing in place *)
Lemma drop_deletes_models t g w :
  swiss_models hash_key t g → ¬ small t →
  ∃ t' w', drop_deletes_without_resize hash_key NDEBUG p t w = Some (t', w') ∧ swiss_models hash_key t' g ∧
    capacity_ t' = capacity_ t ∧ growth_left t' = growth_of (capacity_ t) - size_ t.
Proof using L.
  intros Hm Hl. pose proof (md_counts _ t g Hm) as [H1 H2 H3 H4].
  pose proof (count_where_nonneg (λ q, IsDeleted (ctrl_at t q)) 0 (capacity_ t)) as Hd. fold (ctrl_count t IsDeleted) in Hd.
  destruct (drop_deletes_ok hash_key NDEBUG p t w (md_table _ t g Hm) Hl H1) as (t' & w' & -> & Ht' & Hc' & Hcap & Hent & Hs' & Hg'); [lia|].
  exists t', w'. split; [done|]. split; [|done]. apply (models_same hash_key t); [done..| |done|done]. rewrite Hcap. apply Hm.
Qed.

(** C13: [drop_deletes_without_resize], on any reachable table of at least one group, ends
    within twice its capacity turns, fails no assert, reads and writes only its own slots
    and keeps every entry at the same capacity; what is left to grow is then all that the
    capacity allows: no deleted slot is left. *)
Theorem swiss_rehash_in_place (dflt : V) n n2 w ops s t t2 w' answers w0 :
  0 ≤ n < 2 ^ 48 → 0 ≤ n2 < 2 ^ 48 → swiss_ops_ok hash_key (∅, ∅) ops → new_swiss_tables NDEBUG p n n2 w = Some s →
  run_swiss hash_key NDEBUG p dflt s ops = Some ((t, t2, w'), answers) → is_small t = false →
  ∃ t' w1 l l', drop_deletes_without_resize hash_key NDEBUG p t w0 = Some (t', w1) ∧
    swiss_elements NDEBUG t = Some l ∧ swiss_elements NDEBUG t' = Some l' ∧ l'.*2 ≡ₚ l.*2 ∧
    capacity_ t' = capacity_ t ∧ CapacityToGrowth NDEBUG (capacity_ t) = Some (size_ t' + growth_left t') ∧
    ∀ q c, 0 ≤ q < capacity_ t → arr_get (ctrl_bytes t') q = Some c → c ≠ kDeleted.
Proof using L.
  intros Hn Hn2 Hops Hnew Hrun Hsmall. destruct (new_swiss_tables_ok (V := V) hash_key NDEBUG p n n2 w Hn Hn2) as (s0 & Hs0 & Hi).
  rewrite Hnew in Hs0. injection Hs0 as <-. destruct (run_swiss_agrees hash_key NDEBUG p dflt ops s (∅, ∅) Hi Hops) as (s1 & Hs1 & [Hm _]).
  rewrite Hrun in Hs1. injection Hs1 as <- _. cbn [fst snd] in Hm. set (g := (run_swiss_spec (∅, ∅) ops).1.1) in *.
  pose proof (models_shape hash_key t g Hm) as Hs. pose proof kWidth_pos.
  assert (¬ small t) as Hl by (rewrite is_small_spec in Hsmall by done; by apply bool_decide_eq_false in Hsmall).
  destruct (drop_deletes_models t g w0 Hm Hl) as (t' & w1 & -> & Hm' & Hcap & Hg).
  exists t', w1, (entries_from t 0), (entries_from t' 0). split; [done|].
  split; [by apply (swiss_elements_ok hash_key), Hm|]. split; [by apply (swiss_elements_ok hash_key), Hm'|].
  split; [by rewrite (swiss_elements_models hash_key t g Hm), (swiss_elements_models hash_key t' g Hm')|]. split; [done|].
  pose proof (md_size _ t g Hm). pose proof (md_size _ t' g Hm'). pose proof (md_counts _ t' g Hm') as [Hc1 Hc2 _ _].
  split; [rewrite CapacityToGrowth_ok; [f_equal; lia|apply Hs|unfold small in Hl; destruct kWidth_cases; lia]|].
  intros q c Hq Hc ->. pose proof (models_shape hash_key t' g Hm') as Hs'. rewrite arr_get_ctrl in Hc by (done || lia). injection Hc as Hc.
  assert (ctrl_count t' IsDeleted = 0) as Hz by (rewrite Hcap in Hc2; lia).
  pose proof (count_where_zero (λ q, IsDeleted (ctrl_at t' q)) _ _ Hz q ltac:(lia)) as Hd. cbn beta in Hd. by rewrite Hc in Hd.
Qed.
End wf.

(** ** Insertions into a table with room *)
Section same_array.
Context `{L : GroupLaws} {K V : Type} `{Countable K} `{EqDecision V}.
Context (hash_key : K → option Z) (NDEBUG : bool) (p : platform).
Implicit Types (t : raw_hash_set K V) (g : gmap K V).

(** The array stays where it is, and as large. *)
Definition same_array t t' : Prop := ctrl_ t' = ctrl_ t ∧ capacity_ t' = capacity_ t.

Lemma set_ctrl_kept t i h t' : set_ctrl NDEBUG t i h = Some t' → same_array t t' ∧ growth_left t' = growth_left t.
Proof using.
  unfold set_ctrl. intros (? & _ & Hr)%bind_Some. apply bind_Some in Hr as (b & _ & Hr). apply bind_Some in Hr as (b' & _ & [= <-]). done.
Qed.

Lemma set_slot_kept t i x t' : set_slot t i x = Some t' → same_array t t' ∧ growth_left t' = growth_left t.
Proof using. unfold set_slot. destruct (_ && _); [|done]. by intros [= <-]. Qed.

Lemma emplace_at_kept t i kv t' : emplace_at hash_key NDEBUG t i kv = Some t' → same_array t t' ∧ growth_left t' = growth_left t.
Proof using.
  unfold emplace_at. intros (t1 & Hset & Hr)%bind_Some. apply set_slot_kept in Hset. destruct NDEBUG; [by injection Hr as <-|].
  repeat (apply bind_Some in Hr as (? & _ & Hr)). by injection Hr as <-.
Qed.

Lemma first_non_full_kept t hash : ∀ fuel s w q i w',
  first_non_full_loop NDEBUG p fuel t hash s w = Some (q, i, w') → allocations w' = allocations w.
Proof using.
  induction fuel as [|fuel IH]; intros s w q i w'; cbn [first_non_full_loop]; intros (gr & _ & Hr)%bind_Some.
  all: destruct (mask_bool _); [|apply bind_Some in Hr as (? & _ & Hr); by (done || apply IH in Hr)].
  all: destruct (negb NDEBUG && negb (is_small t)); cbn in Hr.
  all: try (destruct (_ <? _); [by injection Hr as <- <- <-|]); apply bind_Some in Hr as (? & _ & [= <- <- <-]); done.
Qed.

Lemma prepare_insert_kept t hash w t' q w' :
  prepare_insert hash_key NDEBUG p t hash w = Some (t', q, w') → 0 < growth_left t < 2 ^ 64 →
  same_array t t' ∧ growth_left t - 1 ≤ growth_left t' ∧ allocations w' = allocations w.
Proof using.
  unfold prepare_insert. intros ([[q1 i1] w1] & Hf & Hr)%bind_Some Hg. unfold find_first_non_full in Hf.
  apply bind_Some in Hf as (s & _ & Hf). apply first_non_full_kept in Hf.
  rewrite (proj2 (Z.eqb_neq (growth_left t) 0)) in Hr by lia. apply bind_Some in Hr as (c & _ & Hr). cbn [andb mbind option_bind] in Hr.
  apply bind_Some in Hr as (c' & _ & Hr). apply bind_Some in Hr as (t1 & Hset & [= <- <- <-]). apply set_ctrl_kept in Hset as [[Ha Hc] Hgl].
  split; [by split|]. split; [|done]. rewrite Hgl. cbn [growth_left set_size]. pose proof (b2z_bound (IsEmpty c')). rewrite wrap_small by (split; lia). lia.
Qed.

Lemma swiss_emplace_kept t kv w t' q b w' :
  swiss_emplace hash_key NDEBUG p t kv w = Some (t', q, b, w') → 0 < growth_left t < 2 ^ 64 →
  same_array t t' ∧ growth_left t - 1 ≤ growth_left t' ∧ allocations w' = allocations w.
Proof using.
  unfold swiss_emplace, find_or_prepare_insert. intros ([[[t1 q1] new] w1] & Hf & Hr)%bind_Some Hg.
  apply bind_Some in Hf as (hash & _ & Hf). apply bind_Some in Hf as (s & _ & Hf). apply bind_Some in Hf as ([i|] & _ & Hf).
  - injection Hf as <- <- <- <-. injection Hr as <- <- <- <-. split; [done|]. split; [lia|done].
  - apply bind_Some in Hf as ([[t2 q2] w2] & Hp & [= <- <- <- <-]). apply prepare_insert_kept in Hp as ([Ha Hc] & Hgl & Hw); [|done].
    apply bind_Some in Hr as (t3 & He & [= <- <- <- <-]). apply emplace_at_kept in He as [[Ha' Hc'] Hg'].
    split; [split; congruence|]. split; [lia|done].
Qed.

Lemma growth_left_bound t g : swiss_models hash_key t g → 0 ≤ growth_left t < 2 ^ 64.
Proof using L. intros Hm. pose proof (models_size_bound hash_key t g Hm) as [_ ?]. pose proof (cn_room t (md_counts _ t g Hm)). pose proof (md_cap _ t g Hm). lia. Qed.

Lemma insert_range_kept l : ∀ t g w,
  swiss_models hash_key t g → Forall (λ kv, is_Some (hash_key kv.1)) l → Z.of_nat (size g) + Z.of_nat (length l) < 2 ^ 40 →
  Z.of_nat (length l) ≤ growth_left t →
  ∃ t' w', swiss_insert_range hash_key NDEBUG p t l w = Some (t', w') ∧ swiss_models hash_key t' (put_all g l) ∧ same_array t t' ∧
    allocations w' = allocations w.
Proof using L.
  induction l as [|[k v] l IH]; intros t g w Hm Hh Hsz Hg; cbn [swiss_insert_range length] in *; [by exists t, w|].
  apply Forall_cons in Hh as [[hash Hk] Hh].
  destruct (swiss_emplace_models hash_key NDEBUG p t g k v w hash Hm Hk ltac:(lia)) as (t1 & i & w1 & He & Hm1 & _).
  pose proof (growth_left_bound t g Hm). apply swiss_emplace_kept in He as Hkept; [|lia]. destruct Hkept as ([Ha Hc] & Hg1 & Hw). rewrite He.
  cbn [mbind option_bind]. pose proof (put_new_size g (k, v)).
  destruct (IH t1 (put_new g (k, v)) w1 Hm1 Hh) as (t' & w' & -> & Hm' & [Ha' Hc'] & Hw'); [lia|lia|].
  exists t', w'. split; [done|]. split; [done|]. split; [split|]; congruence.
Qed.

(** C14: After [reserve(n)] on a table without deleted slots, insertions that keep it within
    [n] entries allocate nothing and leave the array where it is, so that iterators stay
    valid; the table ends with the entries inserted. *)
Theorem swiss_reserve_keeps t g n l w :
  swiss_models hash_key t g → (∀ q c, 0 ≤ q < capacity_ t → arr_get (ctrl_bytes t) q = Some c → c ≠ kDeleted) →
  0 ≤ n < 2 ^ 40 → Z.of_nat (size g) + Z.of_nat (length l) ≤ n → Forall (λ kv, is_Some (hash_key kv.1)) l →
  ∃ t1 w1 t2 w2 r, swiss_reserve hash_key NDEBUG p t n w = Some (t1, w1) ∧
    swiss_insert_range hash_key NDEBUG p t1 l w1 = Some (t2, w2) ∧
    ctrl_ t2 = ctrl_ t1 ∧ capacity_ t2 = capacity_ t1 ∧ allocations w2 = allocations w1 ∧
    swiss_elements NDEBUG t2 = Some r ∧ r.*2 ≡ₚ map_to_list (put_all g l).
Proof using L.
  intros Hm Hnd Hn Hle Hh. pose proof (models_shape hash_key t g Hm) as Hs. pose proof kWidth_pos.
  destruct (swiss_reserve_models hash_key NDEBUG p t g n w Hm) as (t1 & w1 & -> & Hm1 & Hcap & Hdel); [lia|lia|].
  assert (ctrl_count t IsDeleted = 0) as Hd0.
  { apply count_where_none; [pose proof (shape_range t Hs); lia|]. intros q Hq. apply Z.eqb_neq. apply (Hnd q); [done|]. apply arr_get_ctrl; [done|lia]. }
  specialize (Hdel Hd0). destruct (md_counts _ t1 g Hm1) as [Hc1 Hc2 Hc3 _]. pose proof (md_size _ t1 g Hm1).
  destruct (insert_range_kept l t1 g w1 Hm1 Hh) as (t2 & w2 & Hins & Hm2 & [Ha Hc] & Hw); [lia|lia|].
  exists t1, w1, t2, w2, (entries_from t2 0). split; [done|]. split; [done|]. split; [done|]. split; [done|]. split; [done|].
  split; [by apply (swiss_elements_ok hash_key), Hm2|by apply (swiss_elements_models hash_key)].
Qed.
End same_array.

(** ** Instances *)

(** Twenty entries, half of which are erased, in a table of thirty-one slots. *)
Definition demo_wf_ops : list (swiss_op Z Z) := [SInsertRange ((λ k, (k, k)) <$> seqZ 10 20); SEraseIf (λ kv, 20 <=? kv.1)].

Lemma demo_wf_ops_ok : swiss_ops_ok demo_swiss_key (∅, ∅) demo_wf_ops.
Proof. apply (bool_decide_unpack _). by vm_compute. Qed.

Definition demo_wf_start : option (raw_hash_set Z Z * raw_hash_set Z Z * world) :=
  new_swiss_tables (G := GroupSse2Impl true) false demo_platform 0 3 (World 0 0).

Lemma demo_wf_runs :
  ∃ s s' answers, demo_wf_start = Some s ∧ run_swiss (G := GroupSse2Impl true) demo_swiss_key false demo_platform 0 s demo_wf_ops = Some (s', answers) ∧
    size_ s'.1.1 = 10 ∧ is_small (G := GroupSse2Impl true) s'.1.1 = false.
Proof. do 3 eexists. split; [vm_compute; reflexivity|]. split; [vm_compute; reflexivity|]. by split. Qed.

Lemma swiss_run_well_formed_witness :
  ∃ t : raw_hash_set Z Z, swiss_wf (G := GroupSse2Impl true) demo_swiss_key t ∧ size_ t = 10.
Proof.
  destruct demo_wf_runs as (s & s' & answers & Hs & Hrun & Hsize & _).
  destruct (swiss_run_well_formed (L := GroupSse2Laws true) demo_swiss_key false demo_platform 0 0 3 (World 0 0) demo_wf_ops
    s s' answers ltac:(lia) ltac:(lia) demo_wf_ops_ok Hs Hrun) as [Hwf _]. exists s'.1.1. split; [exact Hwf|exact Hsize].
Defined.

Lemma swiss_rehash_in_place_witness :
  ∃ (t t' : raw_hash_set Z Z) w1, size_ t = 10 ∧
    drop_deletes_without_resize (G := GroupSse2Impl true) demo_swiss_key false demo_platform t (World 0 0) = Some (t', w1) ∧
    CapacityToGrowth (G := GroupSse2Impl true) false (capacity_ t) = Some (size_ t' + growth_left t').
Proof.
  destruct demo_wf_runs as (s & [[t t2] w'] & answers & Hs & Hrun & Hsize & Hsmall).
  destruct (swiss_rehash_in_place (L := GroupSse2Laws true) demo_swiss_key false demo_platform 0 0 3 (World 0 0) demo_wf_ops
    s t t2 w' answers (World 0 0) ltac:(lia) ltac:(lia) demo_wf_ops_ok Hs Hrun Hsmall) as (t' & w1 & _ & _ & Hd & _ & _ & _ & _ & Hc & _).
  exists t, t', w1. split; [exact Hsize|]. split; [exact Hd|exact Hc].
Defined.

Lemma swiss_reserve_keeps_witness :
  ∃ (t1 t2 : raw_hash_set Z Z) w1 w2,
    swiss_reserve (G := GroupPortableImpl) demo_swiss_key false demo_platform (swiss_new demo_platform) 7 (World 0 0) = Some (t1, w1) ∧
    swiss_insert_range (G := GroupPortableImpl) demo_swiss_key false demo_platform t1 ((λ k, (k, k)) <$> seqZ 0 7) w1 = Some (t2, w2) ∧
    ctrl_ t2 = ctrl_ t1 ∧ allocations w2 = allocations w1.
Proof.
  destruct (swiss_reserve_keeps (L := GroupPortableLaws) demo_swiss_key false demo_platform (swiss_new demo_platform) ∅ 7
    ((λ k, (k, k)) <$> seqZ 0 7) (World 0 0)) as (t1 & w1 & t2 & w2 & r & H1 & H2 & H3 & _ & H4 & _).
  - apply (swiss_new_models (L := GroupPortableLaws)).
  - intros q c Hq. exfalso. cbn in Hq. lia.
  - lia.
  - by vm_compute.
  - repeat (apply Forall_cons; split; [by eexists|]). by apply Forall_nil.
  - exists t1, t2, w1, w2. split; [exact H1|]. split; [exact H2|]. split; [exact H3|exact H4].
Defined.
