(* ===== verification/StringMap.v ===== *)
(** * What the benchmarks rely on of a hash table

    The clients build a table with [map[key] = value], may set its load factor, and look
    keys up with [map.find(key)]. [StringMap] has these operations, any of which may be
    undefined; [StringMapLaws] is what a table promises: it models a finite map as long
    as the keys are a set that fits. Here two tables keep the promise: an association list,
    and [tsl::robin_map] with any hash functor that is defined and does not crowd the keys;
    Google's and Abseil's tables do in BenchGoogle.v and BenchSwiss.v. [std::unordered_map]
    is used through the interface. *)
From stdpp Require Import gmap.
From S2P Require Import Prelude Words Floats RobinGrowth RobinTable RobinProbe RobinLoad RobinMap RobinExtra RobinRun.

#[export] Instance byte_countable : Countable byte := inj_countable Byte.to_N Byte.of_N Byte.of_to_N.

Class StringMap (M : Type) := {
  sm_max_load_factor : M → spec_float → option M;
  sm_insert : M → bytes → Z → option M;
  sm_find : M → bytes → option (option Z)
}.

Class StringMapLaws (M : Type) `{StringMap M} := {
  sm_models : M → gmap bytes Z → Prop;
  sm_fits : gset bytes → Prop;
  sm_factor : spec_float → Prop;
  sm_fits_subseteq X Y : Y ⊆ X → sm_fits X → sm_fits Y;
  sm_max_load_factor_ok m g f :
    sm_models m g → sm_factor f → ∃ m', sm_max_load_factor m f = Some m' ∧ sm_models m' g;
  sm_insert_ok m g k v :
    sm_models m g → sm_fits ({[k]} ∪ dom g) → ∃ m', sm_insert m k v = Some m' ∧ sm_models m' (<[k := v]> g);
  sm_find_ok m g k : sm_models m g → sm_fits ({[k]} ∪ dom g) → sm_find m k = Some (g !! k)
}.

(** ** An association list, the most recent entry first *)
Definition assoc_map := list (bytes * Z).

Fixpoint assoc_find (m : assoc_map) (k : bytes) : option Z :=
  match m with
  | [] => None
  | (k', v) :: m => if decide (k' = k) then Some v else assoc_find m k
  end.

#[export] Instance assoc_string_map : StringMap assoc_map := {
  sm_max_load_factor m _ := Some m;
  sm_insert m k v := Some ((k, v) :: m);
  sm_find m k := Some (assoc_find m k)
}.

#[export, refine] Instance assoc_string_map_laws : StringMapLaws assoc_map := {
  sm_models m g := ∀ k, assoc_find m k = g !! k;
  sm_fits _ := True;
  sm_factor _ := True
}.
Proof.
  - done.
  - intros m g f Hm _. by exists m.
  - intros m g k v Hm _. eexists. split; [done|]. intros k'. cbn [assoc_find].
    destruct (decide (k = k')) as [->|Hne]; [by rewrite lookup_insert_eq|]. by rewrite lookup_insert_ne.
  - intros m g k Hm _. cbn. by rewrite Hm.
Defined.

(** ** [tsl::robin_map<std::string, int, Hash, ..., store_hash>]

    The growth policy is the default one. [entry_has_room] and [vector_max_size] are what
    the library of the platform decides. *)
Definition store_hash : bool := true.

Record robin_map {hash : bytes → option Z} {entry_has_room : bool} {vector_max_size : Z} := RobinMap {
  rm_table : robin_hash bytes Z power_of_two_growth_policy
}.
Arguments robin_map : clear implicits.
Arguments RobinMap {hash entry_has_room vector_max_size}.

Section robin_map.
Context (hash : bytes → option Z) (entry_has_room : bool) (vector_max_size : Z).
Abbreviation map := (robin_map hash entry_has_room vector_max_size).

(** [robin_map map(bucket_count)] *)
Definition robin_map_new (bucket_count : Z) : option map :=
  t ← robin_new vector_max_size bucket_count DEFAULT_MIN_LOAD_FACTOR DEFAULT_MAX_LOAD_FACTOR; Some (RobinMap t).

#[export] Instance robin_string_map : StringMap map := {
  sm_max_load_factor m f := t ← max_load_factor (rm_table m) f; Some (RobinMap t);
  sm_insert m k v :=
    t ← subscript_assign hash store_hash entry_has_room vector_max_size 0 (rm_table m) k v; Some (RobinMap t);
  sm_find m k := find_value hash store_hash entry_has_room (rm_table m) k
}.

Context (Hvec : 2 ^ 40 ≤ Z.min (gp_max_bucket_count (G := power_of_two_growth_policy)) vector_max_size).

#[export, refine] Instance robin_string_map_laws : StringMapLaws map := {
  sm_models m g := models hash store_hash entry_has_room (rm_table m) g;
  sm_fits X := ∃ D, crowd (G := power_of_two_growth_policy) hash X D;
  sm_factor f := valid_binary 24 128 f = true
}.
Proof using Hvec.
  - intros X Y HYX [D HX]. exists D. by eapply crowd_subseteq.
  - intros m g f Hm Hf.
    destruct (max_load_factor_models hash store_hash entry_has_room (rm_table m) g f Hm (load_ok_pow2 f Hf))
      as (t & Ht & Hm'). cbn. rewrite Ht. by exists (RobinMap t).
  - intros m g k v Hm [D HX].
    destruct (table_step_models hash store_hash entry_has_room vector_max_size 0 Hvec (rm_table m) g (OpAssign k v)
      ({[k]} ∪ dom g) D Hm ltac:(set_solver) HX ltac:(cbn; set_solver)) as (t & Ht & Hm').
    cbn [table_step] in Ht. cbn. destruct (subscript_assign _ _ _ _ _ _ _ _) as [t'|]; [|done].
    injection Ht as <-. by exists (RobinMap t').
  - intros m g k Hm [D HX].
    destruct (table_step_models hash store_hash entry_has_room vector_max_size 0 Hvec (rm_table m) g (OpFind k)
      ({[k]} ∪ dom g) D Hm ltac:(set_solver) HX ltac:(cbn; set_solver)) as (t & Ht & _).
    cbn [table_step map_step fst snd] in Ht. cbn. destruct (find_value _ _ _ _ _); [|done].
    by injection Ht as _ <-.
Defined.

(** A new table models the empty map. *)
Lemma robin_map_new_ok bucket_count :
  0 ≤ bucket_count ≤ 2 ^ 38 → ∃ m : map, robin_map_new bucket_count = Some m ∧ sm_models m ∅.
Proof using Hvec.
  intros Hc. destruct (robin_new_ok (V := Z) hash store_hash entry_has_room vector_max_size Hvec bucket_count
    DEFAULT_MAX_LOAD_FACTOR Hc ltac:(by apply load_ok_pow2)) as (g & n & th & Hnew & _ & Hn & Hsh).
  unfold robin_map_new. rewrite Hnew. eexists. split; [done|]. apply fresh_models; [exact Hsh|lia].
Qed.

(** Few keys always fit. *)
Lemma robin_fits_small (X : gset bytes) :
  (∀ k, k ∈ X → hashable hash k) → Z.of_nat (size X) ≤ 4095 → sm_fits (M := map) X.
Proof using.
  intros Hh HX. exists 4094. split; [done|apply spread_small; lia|unfold DIST_FROM_IDEAL_BUCKET_LIMIT; lia|lia].
Qed.
End robin_map.

(** ** Building an index *)

(** [for (unsigned i = 0; i < data.size(); i++) map[data[i]] = i;] *)
Fixpoint build_index `{StringMap M} (m : M) (i : Z) (data : list bytes) : option M :=
  match data with
  | [] => Some m
  | k :: data => m ← sm_insert m k (to_i32 i); build_index m (i + 1) data
  end.

(** The entry of a key is the index of its last occurrence. *)
Fixpoint last_index (i : Z) (data : list bytes) (k : bytes) : option Z :=
  match data with
  | [] => None
  | k' :: data =>
      match last_index (i + 1) data k with
      | Some j => Some j
      | None => if decide (k' = k) then Some (to_i32 i) else None
      end
  end.


Lemma last_index_None data i k : last_index i data k = None ↔ k ∉ data.
Proof.
  revert i. induction data as [|k' data IH]; intros i; cbn [last_index].
  { split; [intros _; apply not_elem_of_nil|done]. }
  rewrite not_elem_of_cons, <-(IH (i + 1)). destruct (last_index (i + 1) data k); [intuition congruence|].
  destruct (decide (k' = k)); intuition congruence.
Qed.

Lemma last_index_Some data i k j :
  0 ≤ i → i + Z.of_nat (length data) ≤ 2 ^ 31 → last_index i data k = Some j →
  ∃ n, j = i + Z.of_nat n ∧ data !! n = Some k ∧ ∀ n', (n < n')%nat → data !! n' ≠ Some k.
Proof.
  revert i. induction data as [|k' data IH]; intros i Hi Hlen; [done|]. cbn [last_index length] in *.
  destruct (last_index (i + 1) data k) as [j'|] eqn:Hl.
  - intros [= <-]. destruct (IH (i + 1) ltac:(lia) ltac:(lia) Hl) as (n & -> & Hn & Hlast).
    exists (S n). split; [lia|]. split; [done|]. intros [|n'] Hn'; [lia|]. apply Hlast. lia.
  - destruct (decide (k' = k)) as [->|]; [|done]. intros [= <-]. exists 0%nat.
    split; [|split; [done|]].
    + unfold to_i32. rewrite wrap_small by (split; lia). lia.
    + intros [|n'] Hn' Hk; [lia|]. apply last_index_None in Hl. apply Hl. by eapply list_elem_of_lookup_2.
Qed.


(** The map of the index. *)
Fixpoint index_map (g : gmap bytes Z) (i : Z) (data : list bytes) : gmap bytes Z :=
  match data with
  | [] => g
  | k :: data => index_map (<[k := to_i32 i]> g) (i + 1) data
  end.

Lemma index_map_lookup data k : ∀ g i,
  index_map g i data !! k = match last_index i data k with Some j => Some j | None => g !! k end.
Proof.
  induction data as [|k' data IH]; intros g i; [done|]. cbn [index_map last_index].
  rewrite IH. destruct (last_index (i + 1) data k); [done|].
  destruct (decide (k' = k)) as [->|Hne]; [by rewrite lookup_insert_eq|]. by rewrite lookup_insert_ne.
Qed.

Lemma index_map_dom data : ∀ g i, dom (index_map g i data) = dom g ∪ list_to_set data.
Proof.
  induction data as [|k data IH]; intros g i; cbn [index_map list_to_set]; [set_solver|].
  rewrite IH. set_solver.
Qed.

(** Membership in the data is presence in the table. *)
Lemma index_map_member data i k :
  bool_decide (is_Some (index_map ∅ i data !! k)) = bool_decide (k ∈ data).
Proof.
  apply bool_decide_ext. rewrite <-elem_of_dom, index_map_dom, dom_empty_L. set_solver.
Qed.

(** ** A table that models a map, to a client that only looks keys up *)
Section index.
Context {M : Type} `{L : StringMapLaws M}.

Definition serves (m : M) (g : gmap bytes Z) (p : list bytes) : Prop :=
  ∀ x, x ∈ p → sm_find m x = Some (g !! x).

Lemma models_serves m g p X :
  sm_models m g → sm_fits X → dom g ⊆ X → list_to_set p ⊆ X → serves m g p.
Proof using.
  intros Hm HX Hg Hp x Hx. apply sm_find_ok; [done|]. eapply sm_fits_subseteq; [|exact HX].
  apply union_least; [|done]. apply singleton_subseteq_l, Hp. by apply elem_of_list_to_set.
Qed.

Lemma build_index_ok data X : ∀ (m : M) g i,
  sm_models m g → sm_fits X → dom g ∪ list_to_set data ⊆ X →
  ∃ m', build_index m i data = Some m' ∧ sm_models m' (index_map g i data).
Proof using L.
  induction data as [|k data IH]; intros m g i Hm HX Hd; [by exists m|]. cbn [build_index index_map].
  destruct (sm_insert_ok m g k (to_i32 i) Hm) as (m1 & -> & Hm1).
  { eapply sm_fits_subseteq; [|exact HX]. set_solver. }
  cbn [mbind option_bind]. apply (IH m1 _ (i + 1) Hm1 HX). set_solver.
Qed.
End index.
