(* ===== verification/BenchFilters.v ===== *)
(** * The Bloom-filter clients (src/benchmark_filters.cpp, lines 1-290)

    [benchFilter_throughput] and [benchFilter_latency] insert the data, check that
    every element is found, query the probes and report the false positives. They are
    written against [BitFilter], and are proved here for every filter that keeps its
    laws; the clock and the printing are not modelled. *)
From stdpp Require Import strings gmap.
From S2P Require Import Prelude Words Floats BitArray BitFilter SelfBloom SmallHashes BlockedLoop StringMap.

(** The table [fprs]. *)
Definition fpr_table := gmap (string * string) spec_float.

(** [fprs[metric_class][filter_name] += fpr], with [fpr] a [float] *)
Definition add_fpr (fprs : fpr_table) (metric_class filter_name : string) (fpr : spec_float) : fpr_table :=
  let old := default (f64_of_Z 0) (fprs !! (metric_class, filter_name)) in
  <[(metric_class, filter_name) := f64_add old (f64_of_f32 fpr)]> fprs.

(** The count reported and the table; [None] is [exit(1)]. *)
Definition relay_filter_statistics (metric_class : string) (probes : list bytes) (result : Z)
    (filter_name : string) (numProbesUnsuccessful : Z) (fprs : fpr_table) : option (Z * fpr_table) :=
  if String.eqb metric_class "filter_latency" then
    let fps := to_i32 result in
    let fpr := f32_div (f32_of_Z fps) (f32_of_Z numProbesUnsuccessful) in
    Some (fps, add_fpr fprs "filter_latency" filter_name fpr)
  else if String.eqb metric_class "filter_throughput" then
    let successful := to_i32 (u64 (Z.of_nat (length probes) - numProbesUnsuccessful)) in
    let fps := to_i32 (result - successful) in
    let fpr := f32_div (f32_of_Z fps) (f32_of_Z numProbesUnsuccessful) in
    Some (fps, add_fpr fprs "filter_throughput" filter_name fpr)
  else None.

(** [std::vector<bool>]: its size, and the storage [reserve] obtained. *)
Record vec_bool := VecBool { vb_size : Z; vb_storage : list bool }.

Definition vb_reserve (n : Z) : vec_bool := VecBool 0 (replicate (Z.to_nat n) false).

(** [v[i]] is defined below the size; [by_storage] is the behaviour of a library that
    only needs the storage to be there. *)
Definition vb_limit (by_storage : bool) (v : vec_bool) : Z :=
  if by_storage then Z.of_nat (length (vb_storage v)) else vb_size v.

Definition vb_set (by_storage : bool) (v : vec_bool) (i : Z) (b : bool) : option vec_bool :=
  if (0 <=? i) && (i <? vb_limit by_storage v)
  then Some (VecBool (vb_size v) (<[Z.to_nat i := b]> (vb_storage v))) else None.

Definition vb_get (by_storage : bool) (v : vec_bool) (i : Z) : option bool :=
  if (0 <=? i) && (i <? vb_limit by_storage v) then vb_storage v !! Z.to_nat i else None.

Definition in_filter (pi : bytes) (data : list bytes) : bool :=
  existsb (λ d, bool_decide (pi = d)) data.

Section clients.
Context {F : Type} `{BitFilter F bytes} {M : Type} `{StringMap M}.

(** One query of the throughput loop. *)
Definition throughput_body (p : list bytes) (filter : F) (j s : Z) : option (Z * Z) :=
  x ← vec_get p j; b ← bf_test filter x; Some (s + Z.b2z b, j).

Definition benchFilter_throughput (table_latency : bool) (data probes : list bytes) (filter : F)
    (filter_name : string) (numProbesUnsuccessful : Z) (fprs : fpr_table)
    : option (F * (Z * fpr_table)) :=
  filter ← (if negb table_latency then insert_all bf_add filter data else Some filter);
  result ← count_present bf_test filter data;
  if u32 result =? Z.of_nat (length data) then
    let p := probes in
    s_w ← count_present bf_test filter p;
    r ← timed_loop hash_xxh64_s p (throughput_body p filter) 0 0;
    stats ← relay_filter_statistics "filter_throughput" probes r.1 filter_name numProbesUnsuccessful fprs;
    Some (filter, stats)
  else None.

(** [probe_to_filter_map[i] = map.find(p[i]) != map.end()] for every probe *)
Definition fill_map (by_storage : bool) (map : M) (p : list bytes) (v : vec_bool) : option vec_bool :=
  for_loop (length p) 0
    (λ i v, x ← vec_get p i; it ← sm_find map x; vb_set by_storage v i (bool_decide (is_Some it))) v.

(** One query of the latency loop: a positive answer skips the next probe. *)
Definition latency_body (by_storage : bool) (p : list bytes) (filter : F) (v : vec_bool) (j s : Z)
    : option (Z * Z) :=
  x ← vec_get p j;
  interm ← bf_test filter x;
  known ← vb_get by_storage v j;
  Some (s + Z.b2z (interm && negb known), u32 (j + Z.b2z interm)).

(** [new_map] is [absl::flat_hash_map<std::string, int, hash_xxh64_s> map(data.size())]. *)
Definition benchFilter_latency (new_map : Z → option M) (by_storage : bool) (data probes : list bytes)
    (filter : F) (filter_name : string) (numProbesUnsuccessful : Z) (fprs : fpr_table)
    : option (F * (Z * fpr_table)) :=
  filter ← insert_all bf_add filter data;
  map ← new_map (Z.of_nat (length data));
  map ← build_index map 0 data;
  result ← count_present bf_test filter data;
  if u32 result =? Z.of_nat (length data) then
    let p := probes in
    v ← fill_map by_storage map p (vb_reserve (Z.of_nat (length p)));
    s_w ← count_present bf_test filter p;
    r ← timed_loop hash_xxh64_s p (latency_body by_storage p filter v) 0 0;
    stats ← relay_filter_statistics "filter_latency" probes r.1 filter_name numProbesUnsuccessful fprs;
    Some (filter, stats)
  else None.

(** The filter is passed by reference: throughput queries what latency filled. *)
Definition benchFilter (new_map : Z → option M) (by_storage metric_latency metric_throughput : bool) (data probes : list bytes)
    (filter : F) (filter_name : string) (numProbesUnsuccessful : Z) (fprs : fpr_table)
    : option (F * fpr_table) :=
  s ← (if metric_latency
       then r ← benchFilter_latency new_map by_storage data probes filter filter_name numProbesUnsuccessful fprs;
            Some (r.1, r.2.2)
       else Some (filter, fprs));
  if metric_throughput
  then r ← benchFilter_throughput metric_latency data probes s.1 filter_name numProbesUnsuccessful s.2;
       Some (r.1, r.2.2)
  else Some s.
End clients.

(** ** Counting *)

Fixpoint count_if {V} (P : V → bool) (l : list V) : Z :=
  match l with [] => 0 | x :: l => Z.b2z (P x) + count_if P l end.

Lemma count_if_app {V} (P : V → bool) l l' : count_if P (l ++ l') = count_if P l + count_if P l'.
Proof. induction l as [|x l IH]; simpl; [done|]. lia. Qed.

Lemma count_if_bounds {V} (P : V → bool) l : 0 ≤ count_if P l ≤ Z.of_nat (length l).
Proof. induction l as [|x l IH]; simpl; [done|]. pose proof (b2z_bound (P x)). lia. Qed.

Lemma count_if_split {V} (P Q : V → bool) l :
  (∀ x, Q x = true → P x = true) →
  count_if P l = count_if (λ x, P x && negb (Q x)) l + count_if Q l.
Proof.
  intros HQ. induction l as [|x l IH]; simpl; [done|]. rewrite IH.
  destruct (Q x) eqn:Hx; [rewrite (HQ x Hx)|rewrite andb_true_r]; cbn [negb andb Z.b2z]; lia.
Qed.

Lemma hash_xxh64_s_total x : is_Some (hash_xxh64_s x).
Proof.
  destruct (Xxh3.XXH3_64bits_total x) as (h & Hh & _). unfold hash_xxh64_s, hash_xxh64. rewrite Hh. eauto.
Qed.

Section properties.
Context {F : Type} `{L : BitFilterLaws F bytes} {M : Type} `{LM : StringMapLaws M}.

Definition known (data : list bytes) (x : bytes) : bool := bool_decide (x ∈ data).
Definition positive (f : F) (x : bytes) : bool := default false (bf_test f x).
Definition false_positive (f : F) (data : list bytes) (x : bytes) : bool :=
  positive f x && negb (known data x).

(** A filter, and elements that all have positions in it. *)
Definition usable (f : F) (xs : list bytes) : Prop :=
  bf_ok f ∧ ∀ x, x ∈ xs → is_Some (bf_positions f x).

Lemma usable_test f xs x : usable f xs → x ∈ xs → bf_test f x = Some (positive f x).
Proof using L.
  intros [Hok Hpos] Hx. destruct (Hpos x Hx) as [ps Hps]. unfold positive.
  by rewrite (bf_test_spec f x ps Hok Hps).
Qed.

Lemma usable_incl f xs ys : usable f xs → (∀ y, y ∈ ys → y ∈ xs) → usable f ys.
Proof using. intros [Hok Hpos] Hin. split; [done|]. auto. Qed.

Lemma usable_count f xs : usable f xs → count_present bf_test f xs = Some (count_if (positive f) xs).
Proof using L.
  induction xs as [|x xs IH]; intros Hu; [done|]. cbn [count_present count_if].
  rewrite (usable_test f (x :: xs) x Hu) by apply list_elem_of_here. cbn [mbind option_bind].
  rewrite IH; [done|]. eapply usable_incl; [done|]. intros y. apply list_elem_of_further.
Qed.

(** Both clients start by inserting the data, and their assertion holds. *)
Lemma filled f data xs :
  usable f (data ++ xs) →
  ∃ f', insert_all bf_add f data = Some f' ∧ usable f' (data ++ xs) ∧
    count_present bf_test f' data = Some (Z.of_nat (length data)) ∧
    ∀ x, known data x = true → positive f' x = true.
Proof using L.
  intros [Hok Hpos].
  assert (is_Some (positions_all f data)) as Hall.
  { apply positions_all_total, Forall_forall. intros x Hx. apply Hpos, elem_of_app. by left. }
  destruct (bf_no_false_negatives f data Hok Hall) as (f' & Hf' & Hok' & Htest).
  destruct (bf_count_all f data Hok Hall) as (f2 & Hf2 & Hcount).
  destruct Hall as [pss Hpss].
  destruct (bf_add_all_spec data f pss Hok Hpss) as (f3 & Hf3 & _ & Hp & _).
  rewrite Hf' in Hf2, Hf3. injection Hf2 as <-. injection Hf3 as <-.
  exists f'. split; [done|]. split; [|split; [done|]].
  - split; [done|]. intros x Hx. rewrite Hp. by apply Hpos.
  - intros x Hx%bool_decide_eq_true. unfold positive. by rewrite Htest.
Qed.

(** The throughput loop counts the positives among the whole blocks. *)
Lemma throughput_loop f p :
  usable f p → Z.of_nat (length p) < 2 ^ 32 →
  ∃ d, timed_loop hash_xxh64_s p (throughput_body p f) 0 0
       = Some (count_if (positive f) (take (Z.to_nat step_size * (length p / Z.to_nat step_size)) p), d).
Proof using L.
  intros Hu Hp.
  destruct (timed_loop_spec (λ x s, (s + Z.b2z (positive f x), 0%nat)) 0 p (throughput_body p f))
    with (dummy_hash := hash_xxh64_s) (s := 0) (dummy := 0) as [d Hd].
  - intros j x s Hx. unfold throughput_body, vec_get. rewrite (proj2 (Z.leb_le _ _)) by lia.
    rewrite Nat2Z.id, Hx. cbn [mbind option_bind].
    rewrite (usable_test f p x Hu) by (by eapply list_elem_of_lookup_2). cbn [mbind option_bind fst snd].
    by rewrite Nat.add_0_r.
  - intros x _. apply hash_xxh64_s_total.
  - by rewrite Nat.add_0_r.
  - exists d. rewrite Hd. do 2 f_equal. rewrite blocks_fold_prefix by done.
    generalize (take (Z.to_nat step_size * (length p / Z.to_nat step_size)) p). intros l.
    transitivity (0 + count_if (positive f) l); [|done]. generalize 0.
    induction l as [|x l IH]; intros s; cbn [skip_fold count_if fst snd]; [lia|]. rewrite IH. lia.
Qed.

Lemma throughput_fps f data probes name U fprs :
  usable f (data ++ probes) →
  Z.of_nat (length data) < 2 ^ 32 → Z.of_nat (length probes) < 2 ^ 31 → 0 ≤ U →
  count_if (known data) probes = Z.of_nat (length probes) - U →
  let whole := (100 * (length probes / 100))%nat in
  ∃ f' fprs', insert_all bf_add f data = Some f' ∧
    benchFilter_throughput false data probes f name U fprs
    = Some (f', (count_if (false_positive f' data) (take whole probes)
                 - count_if (known data) (drop whole probes), fprs')).
Proof using L.
  intros Hu Hd Hp HU Hknown whole.
  destruct (filled f data probes Hu) as (f' & Hf' & Hu' & Hcount & Hpos).
  assert (usable f' probes) as Hup.
  { eapply usable_incl; [exact Hu'|]. intros y Hy. apply elem_of_app. by right. }
  destruct (throughput_loop f' probes Hup) as [d Hloop]; [lia|].
  change (Z.to_nat step_size) with 100%nat in Hloop. fold whole in Hloop.
  exists f'. eexists. split; [done|].
  unfold benchFilter_throughput. cbn [negb]. rewrite Hf'. cbn [mbind option_bind].
  rewrite Hcount. cbn [mbind option_bind]. rewrite wrap_small, Z.eqb_refl by (split; lia).
  rewrite (usable_count f' probes Hup). cbn [mbind option_bind]. rewrite Hloop.
  cbn [mbind option_bind fst]. unfold relay_filter_statistics. cbn [String.eqb Ascii.eqb Bool.eqb].
  cbn [mbind option_bind]. do 3 f_equal.
  rewrite (count_if_split (positive f') (known data) _ Hpos).
  assert (U ≤ Z.of_nat (length probes)) by (pose proof (count_if_bounds (known data) probes); lia).
  pose proof (count_if_bounds (false_positive f' data) (take whole probes)) as Hb.
  rewrite length_take in Hb.
  pose proof (count_if_bounds (known data) (drop whole probes)) as Hb'. rewrite length_drop in Hb'.
  rewrite <-(take_drop whole probes), count_if_app in Hknown at 1.
  rewrite wrap_small by (split; lia). rewrite (to_i32_small (_ - U)) by lia.
  rewrite to_i32_small; unfold false_positive in *; lia.
Qed.

(** The throughput experiment completes on every usable filter, its assertion
    that no inserted element is missed included. What it reports as false positives
    are the false positives among the probes of the whole blocks of 100, less the
    inserted elements among the probes after the last whole block: the true count
    when the number of probes is a multiple of 100, and possibly a negative one
    otherwise. *)
Theorem benchFilter_throughput_fps f data probes name U fprs :
  usable f (data ++ probes) →
  Z.of_nat (length data) < 2 ^ 32 → Z.of_nat (length probes) < 2 ^ 31 → 0 ≤ U →
  count_if (known data) probes = Z.of_nat (length probes) - U →
  let whole := (100 * (length probes / 100))%nat in
  ∃ f' fprs', insert_all bf_add f data = Some f' ∧
    benchFilter_throughput false data probes f name U fprs
    = Some (f', (count_if (false_positive f' data) (take whole probes)
                 - count_if (known data) (drop whole probes), fprs')).
Proof using L. apply throughput_fps. Qed.

(** ** Latency *)

Lemma fill_map_storage (map : M) data p :
  serves map (index_map ∅ 0 data) p →
  ∃ v, fill_map true map p (vb_reserve (Z.of_nat (length p))) = Some v ∧ vb_storage v = known data <$> p.
Proof using.
  intros Hm. unfold fill_map.
  destruct (for_loop_total (λ i v, length (vb_storage v) = length p ∧
      ∀ j x, Z.of_nat j < i → p !! j = Some x → vb_storage v !! j = Some (known data x))
    (λ i v, x ← vec_get p i; it ← sm_find map x; vb_set true v i (bool_decide (is_Some it)))
    (length p) 0 (vb_reserve (Z.of_nat (length p)))) as (v & Hv & Hlen & Hall).
  - cbn [vb_reserve vb_storage]. rewrite length_replicate. split; [lia|]. intros; lia.
  - intros j v Hj [Hlen Hall]. unfold vec_get. rewrite (proj2 (Z.leb_le _ _)) by lia.
    destruct (lookup_lt_is_Some_2 p (Z.to_nat j)) as [x Hx]; [lia|]. rewrite Hx.
    cbn [mbind option_bind]. rewrite (Hm x) by (by eapply list_elem_of_lookup_2). cbn [mbind option_bind].
    unfold vb_set, vb_limit. rewrite (proj2 (Z.leb_le _ _)) by lia.
    rewrite (proj2 (Z.ltb_lt _ _)) by lia. cbn [andb]. eexists. split; [done|]. cbn [vb_storage].
    rewrite length_insert. split; [done|]. intros j' x' Hj' Hx'.
    destruct (decide (j' = Z.to_nat j)) as [->|Hne].
    + rewrite list_lookup_insert_eq by lia. rewrite Hx in Hx'. injection Hx' as <-.
      by rewrite index_map_member.
    + rewrite list_lookup_insert_ne by done. apply Hall; [lia|done].
  - exists v. split; [done|]. apply list_eq_same_length with (n := length p);
      [by rewrite length_fmap|done|].
    intros j a b Hj Ha Hb. rewrite list_lookup_fmap in Hb.
    destruct (p !! j) as [x|] eqn:Hx; [|done]. injection Hb as <-.
    rewrite (Hall j x) in Ha; [congruence|lia|done].
Qed.

(** The false positives met when every positive answer hides the next probe. *)
Definition latency_step (f : F) (data : list bytes) (x : bytes) (s : Z) : Z * nat :=
  (s + Z.b2z (false_positive f data x), if positive f x then 1%nat else 0%nat).

Lemma latency_loop f data p v :
  usable f p → Z.of_nat (length p) + 1 < 2 ^ 32 → vb_storage v = known data <$> p →
  ∃ d, timed_loop hash_xxh64_s p (latency_body true p f v) 0 0
       = Some (blocks_fold (latency_step f data) (length p / Z.to_nat step_size) p 0, d).
Proof using L.
  intros Hu Hp Hv. apply (timed_loop_spec _ 1); [|intros x _; apply hash_xxh64_s_total|lia].
  intros j x s Hx. assert (j < length p)%nat by (by apply lookup_lt_Some in Hx).
  unfold latency_body, vec_get, vb_get, vb_limit. rewrite !(proj2 (Z.leb_le 0 (Z.of_nat j))) by lia.
  rewrite Nat2Z.id, Hx. cbn [mbind option_bind].
  rewrite (usable_test f p x Hu) by (by eapply list_elem_of_lookup_2). cbn [mbind option_bind].
  rewrite Hv, length_fmap, (proj2 (Z.ltb_lt _ _)), list_lookup_fmap, Hx by lia. cbn [andb fmap option_fmap option_map mbind option_bind].
  unfold latency_step, false_positive. cbn [fst snd].
  split; [|destruct (positive f x); lia]. do 2 f_equal.
  rewrite wrap_small by (split; destruct (positive f x); cbn [Z.b2z]; lia).
  destruct (positive f x); cbn [Z.b2z]; lia.
Qed.

Lemma skip_fold_latency f data l : ∀ k s,
  s ≤ skip_fold (latency_step f data) l k s ≤ s + count_if (false_positive f data) l.
Proof using.
  induction l as [|x l IH]; intros k s; [simpl; lia|]. cbn [skip_fold count_if].
  pose proof (b2z_bound (false_positive f data x)).
  destruct k as [|k]; [|specialize (IH k s); lia].
  specialize (IH (latency_step f data x s).2 (latency_step f data x s).1).
  cbn [latency_step fst snd] in *. lia.
Qed.

Lemma blocks_fold_latency f data m : ∀ p s,
  s ≤ blocks_fold (latency_step f data) m p s ≤ s + count_if (false_positive f data) p.
Proof using.
  induction m as [|m IH]; intros p s; cbn [blocks_fold].
  { pose proof (count_if_bounds (false_positive f data) p). lia. }
  specialize (IH (drop (Z.to_nat step_size) p) (skip_fold (latency_step f data) (take (Z.to_nat step_size) p) 0 s)).
  pose proof (skip_fold_latency f data (take (Z.to_nat step_size) p) 0 s).
  set (c := count_if (false_positive f data) p) in *. assert (Hc : c = count_if (false_positive f data) p) by done.
  clearbody c.
  rewrite <-(take_drop (Z.to_nat step_size) p), count_if_app in Hc. lia.
Qed.

(** The latency experiment, on a library for which the reserved storage of the
    [vector<bool>] is enough: it completes, and what it reports is the number of
    false positives among the probes it reaches, where every positive answer hides
    the following probe: never more than the false positives of the probes. The table of
    the data has to have room for the data and the probes. *)
Theorem benchFilter_latency_fps new_map (map : M) f data probes name U fprs :
  usable f (data ++ probes) →
  new_map (Z.of_nat (length data)) = Some map → sm_models map ∅ → sm_fits (M := M) (list_to_set (data ++ probes)) →
  Z.of_nat (length data) < 2 ^ 32 → Z.of_nat (length probes) < 2 ^ 31 →
  ∃ f' fps fprs', insert_all bf_add f data = Some f' ∧
    benchFilter_latency (M := M) new_map true data probes f name U fprs = Some (f', (fps, fprs')) ∧
    fps = blocks_fold (latency_step f' data) (length probes / 100) probes 0 ∧
    0 ≤ fps ≤ count_if (false_positive f' data) probes.
Proof using L LM.
  intros Hu Hnew Hm HX Hd Hp. destruct (filled f data probes Hu) as (f' & Hf' & Hu' & Hcount & _).
  assert (usable f' probes) as Hup.
  { eapply usable_incl; [exact Hu'|]. intros y Hy. apply elem_of_app. by right. }
  rewrite list_to_set_app_L in HX.
  destruct (build_index_ok data _ map ∅ 0 Hm HX) as (map' & Hbuild & Hm').
  { rewrite dom_empty_L, union_empty_l_L. apply union_subseteq_l. }
  destruct (fill_map_storage map' data probes) as (v & Hv & Hst).
  { eapply models_serves; [done|exact HX| |apply union_subseteq_r].
    rewrite index_map_dom, dom_empty_L, union_empty_l_L. apply union_subseteq_l. }
  destruct (latency_loop f' data probes v Hup) as [d Hloop]; [lia|done|].
  change (Z.to_nat step_size) with 100%nat in Hloop.
  pose proof (blocks_fold_latency f' data (length probes / 100) probes 0).
  pose proof (count_if_bounds (false_positive f' data) probes).
  exists f'. do 2 eexists. split; [done|]. split; [|split; [reflexivity|lia]].
  unfold benchFilter_latency. rewrite Hf'. cbn [mbind option_bind]. rewrite Hnew. cbn [mbind option_bind].
  rewrite Hbuild. cbn [mbind option_bind]. rewrite Hcount. cbn [mbind option_bind]. rewrite wrap_small, Z.eqb_refl by (split; lia).
  rewrite Hv. cbn [mbind option_bind]. rewrite (usable_count f' probes Hup). cbn [mbind option_bind].
  rewrite Hloop. cbn [mbind option_bind fst]. unfold relay_filter_statistics.
  cbn [String.eqb Ascii.eqb Bool.eqb mbind option_bind]. rewrite to_i32_small by lia. done.
Qed.

(** As the language defines it, the latency experiment has no behaviour on any
    probe: the [vector<bool>] is only reserved, its size stays 0, and the first
    write is outside it. *)
Theorem benchFilter_latency_undefined (new_map : Z → option M) f data probes name U fprs :
  probes ≠ [] → benchFilter_latency (M := M) new_map false data probes f name U fprs = None.
Proof using.
  intros Hp. unfold benchFilter_latency.
  destruct (insert_all bf_add f data) as [f'|]; [|done]. cbn [mbind option_bind].
  destruct (new_map _) as [map|]; [|done]. cbn [mbind option_bind].
  destruct (build_index map 0 data) as [map'|]; [|done]. cbn [mbind option_bind].
  destruct (count_present bf_test f' data) as [n|]; [|done]. cbn [mbind option_bind].
  destruct (u32 n =? Z.of_nat (length data)); [|done].
  destruct probes as [|x probes]; [done|]. unfold fill_map at 1. cbn [length for_loop].
  change (vec_get (x :: probes) 0) with (Some x). cbn [mbind option_bind].
  by destruct (sm_find map' x).
Qed.
End properties.

(** ** Instances: the filter of src/include/self_reg_bloom.hh with a hash that is the
    length of the key, one key of data and two probes. *)
Definition demo_hash (x : bytes) : option Z := Some (Z.of_nat (length x)).
Definition demo_filter : selfBloom := SelfBloom 64 (replicate 8 0) 4 (f64_of_Z 0) 2.

Lemma demo_usable xs : usable (H := selfBloom_filter demo_hash) demo_filter xs.
Proof.
  split; [|intros x _; by eexists].
  split; [apply (words_ok_zeros 8 8); lia|]. split; [done|]. cbn [sizeInBits numHashes demo_filter]. lia.
Qed.

(** Two probes are less than a block: the report is -1. *)
Lemma benchFilter_throughput_fps_witness :
  ∃ f' fprs', benchFilter_throughput (H := selfBloom_filter demo_hash) false [[x61]] [[x61]; [x62; x62]]
    demo_filter "selfbloom" 1 ∅ = Some (f', (-1, fprs')).
Proof.
  destruct (benchFilter_throughput_fps (L := selfBloom_laws demo_hash) demo_filter [[x61]] [[x61]; [x62; x62]]
    "selfbloom" 1 ∅) as (f' & fprs' & _ & Hrun).
  - apply demo_usable.
  - cbn. lia.
  - cbn. lia.
  - lia.
  - vm_compute. reflexivity.
  - exists f', fprs'. exact Hrun.
Defined.

Lemma benchFilter_latency_fps_witness :
  ∃ f' fps fprs', benchFilter_latency (H := selfBloom_filter demo_hash) (M := assoc_map) (λ _, Some []) true [[x61]]
    [[x61]; [x62; x62]] demo_filter "selfbloom" 1 ∅ = Some (f', (fps, fprs')) ∧ 0 ≤ fps.
Proof.
  destruct (benchFilter_latency_fps (L := selfBloom_laws demo_hash) (M := assoc_map) (λ _, Some []) [] demo_filter [[x61]]
    [[x61]; [x62; x62]] "selfbloom" 1 ∅) as (f' & fps & fprs' & _ & Hrun & _ & Hb & _).
  - apply demo_usable.
  - reflexivity.
  - intros k. by rewrite lookup_empty.
  - exact I.
  - cbn. lia.
  - cbn. lia.
  - exists f', fps, fprs'. split; [exact Hrun|exact Hb].
Defined.

Lemma benchFilter_latency_undefined_witness :
  benchFilter_latency (H := selfBloom_filter demo_hash) (M := assoc_map) (λ _, Some []) false [[x61]] [[x61]]
    demo_filter "selfbloom" 0 ∅ = None.
Proof.
  apply (benchFilter_latency_undefined (H := selfBloom_filter demo_hash) (M := assoc_map)). discriminate.
Defined.
