(* ===== verification/Driver.v ===== *)
(** * The benchmark driver (src/benchmarker.cpp)

    What [main] does between the command line and the benchmarks: it records the requested
    hash functions and metrics, and for every trial splits the data set and draws the
    probes. The options are arguments; printing and the
    parsing of the command line (boost) are not modelled. *)
From stdpp Require Import strings gmap.
From S2P Require Import Prelude Words Floats BitFilter SelfBloom Storage EntropyFiles Workload BenchFilters.

(** ** Options *)

Definition hashfuncs_init : gmap string bool :=
  list_to_map ((λ n, (n, false)) <$>
    ["standard"; "sub4_mmh2"; "sub1_sdbm"; "xxh3"; "xxh3_sub8"; "xxh3_trivial"; "default"; "wyhash";
     "wyhash_sub8"; "wyhash_sub8_hardcode"; "crc_wyhash_sub8"; "crc32"; "mmh2"; "sdbm"]%string).

Definition table_metrics_init : gmap string bool := list_to_map [("throughput"%string, false); ("latency"%string, false)].

(** [for (auto& f : requested) m[f] = true;] when the option is given, an exception otherwise. *)
Definition set_requested (requested : option (list string)) (m : gmap string bool) : option (gmap string bool) :=
  fs ← requested; Some (foldl (λ m f, <[f := true]> m) m fs).

Definition setHashFunctions := set_requested.
Definition setTableMetrics := set_requested.

(** ** Averages printed at the end *)

Definition variance_avg (total : spec_float) (num_trials : Z) : spec_float :=
  f64_div total (f64_mul (f64_of_Z 1) (f64_of_Z num_trials)).
Definition fpr_avg (total : spec_float) (num_trials : Z) : spec_float :=
  f64_div total (f64_mul (f64_of_Z 1) (f64_of_Z num_trials)).

(** The time per key or probe. *)
Definition outputTime (metric : string) (total : spec_float) (data_size num_probes num_trials : Z) : spec_float :=
  let items := if String.eqb metric "hash_table_build" then data_size else num_probes in
  f64_div total (f64_mul (f64_mul (f64_of_Z 1) (f64_of_Z items)) (f64_of_Z num_trials)).

Definition outputTime_mt (total : spec_float) (num_probes num_iters : Z) : spec_float :=
  f64_div total (f64_mul (f64_mul (f64_of_Z 1) (f64_of_Z num_probes)) (f64_of_Z num_iters)).

(** ** Trials *)

(** [data_size], by default the size of the data set, and [fract]; the option [data_fract]
    is read and overwritten. *)
Definition subset_size (data_size : option Z) (full : Z) : Z := default (to_i32 full) data_size.
Definition subset_fraction (data_size : option Z) (full : Z) : spec_float :=
  f64_div (f64_of_Z (subset_size data_size full)) (f64_of_Z full).

Section trial.
Context {R : Type} (draw : R → Z → Z → Z * R) (shuffle : ∀ A : Type, R → list A → list A * R).

(** The lines of the data set, shuffled; an exception when no file is named. *)
Definition read_dataset (dataset : option bytes) (rng : R) : option (list bytes * R) :=
  file ← dataset; Some (shuffle bytes rng (read_lines file)).

(** [(data, uninserted)], and the data set and the generator afterwards. *)
Definition trial_data {A} (rng : R) (full_data : list A) (fract : spec_float)
    : option ((list A * list A) * (list A * R)) :=
  if negb (SFeqb fract (f64_of_Z 1)) then get_subset shuffle rng full_data (f32_of_f64 fract)
  else Some ((full_data, []), (full_data, rng)).

(** A trial: [(data, uninserted, probes, numProbesUnsuccessful)]. *)
Definition trial {A} (rng : R) (full_data : list A) (fract fract_successful : spec_float) (num_probes : Z)
    : option ((list A * list A * list A * Z) * (list A * R)) :=
  '((data, uninserted), (full_data, rng)) ← trial_data rng full_data fract;
  '(probes, numProbesUnsuccessful, rng) ←
    generate_probes_with_unselected_keys_as_false draw shuffle rng data uninserted fract_successful (u32 num_probes);
  Some ((data, uninserted, probes, numProbesUnsuccessful), (full_data, rng)).

(** [for (int i = 0; i < num_trials; i++)]: what every trial hands to the benchmarks. *)
Fixpoint trials {A} (num_trials : nat) (rng : R) (full_data : list A) (fract fract_successful : spec_float)
    (num_probes : Z) : option (list (list A * list A * list A * Z)) :=
  match num_trials with
  | O => Some []
  | S n =>
      '(t, (full_data, rng)) ← trial rng full_data fract fract_successful num_probes;
      l ← trials n rng full_data fract fract_successful num_probes;
      Some (t :: l)
  end.
End trial.

(** ** What a trial hands to the benchmarks *)

Lemma count_if_perm {V} (P : V → bool) l l' : l ≡ₚ l' → count_if P l = count_if P l'.
Proof. induction 1; cbn [count_if]; lia. Qed.

Lemma count_if_const {V} (P : V → bool) b l : Forall (λ x, P x = b) l → count_if P l = Z.b2z b * Z.of_nat (length l).
Proof. induction 1 as [|x l Hx _ IH]; cbn [count_if length]; [lia|]. rewrite Hx, IH. destruct b; cbn [Z.b2z]; lia. Qed.

Section trial_spec.
Context {R : Type} (draw : R → Z → Z → Z * R) (shuffle : ∀ A : Type, R → list A → list A * R).
Context (shuffle_perm : ∀ A rng (l : list A), (shuffle A rng l).1 ≡ₚ l).
Context (draw_range : ∀ rng lo hi, lo ≤ hi → lo ≤ (draw rng lo hi).1 ≤ hi).

(** Preparing a data set: strings without newlines that are made unique, written to a file and read
    by the driver are the strings of the input, each once, in some order. *)
Theorem prepared_dataset_reload input rng :
  Forall (Forall (λ b, b ≠ x0a)) input → Z.of_nat (length input) ≤ 210000000 →
  ∃ data rng', read_dataset shuffle (Some (write_dataset (makeUniqueSet input []))) rng = Some (data, rng') ∧
    NoDup data ∧ ∀ x, x ∈ data ↔ x ∈ input.
Proof using shuffle_perm.
  intros Hin Hlen. unfold makeUniqueSet. destruct (makeUniqueSet_loop_spec input [] []) as (new & -> & Hnd & Hsub & Hel).
  assert (Forall (Forall (λ b, b ≠ x0a)) new) as Hnew.
  { rewrite Forall_forall in Hin |- *. intros x Hx. by apply Hin, Hel. }
  unfold read_dataset, read_lines. cbn [mbind option_bind app]. rewrite split_write_dataset by done.
  pose proof (sublist_length _ _ Hsub). rewrite read_loop_all by lia.
  pose proof (shuffle_perm bytes rng new) as Hp. destruct (shuffle bytes rng new) as [data rng'] eqn:Hs. cbn [fst] in Hp.
  exists data, rng'. split; [done|]. split; [by rewrite Hp|]. intros x. rewrite Hp, Hel.
  split; [tauto|]. intros ?. split; [done|apply not_elem_of_nil].
Qed.

Lemma trial_data_ok {A} rng (full_data : list A) fract n :
  SFeqb fract (f64_of_Z 1) = false → SFleb (f32_of_f64 fract) (f32_of_Z 1) = true →
  SFleb (f32_of_Z 0) (f32_of_f64 fract) = true →
  fraction_of (f32_of_f64 fract) (Z.of_nat (length full_data)) = Some n → n ≤ Z.of_nat (length full_data) →
  ∃ data uninserted full_data' rng', trial_data shuffle rng full_data fract = Some ((data, uninserted), (full_data', rng')) ∧
    data ++ uninserted ≡ₚ full_data ∧ Z.of_nat (length data) = n.
Proof using shuffle_perm.
  intros H1 Hle Hge Hn Hlen. unfold trial_data, get_subset. rewrite H1, Hle, Hge, Hn. cbn [negb andb mbind option_bind].
  pose proof (sf_to_unsigned_fits _ _ _ Hn) as [Hn0 _].
  pose proof (shuffle_perm A rng full_data) as Hp. destruct (shuffle A rng full_data) as [full_data' rng'].
  cbn [fst] in Hp. pose proof (Permutation_length Hp) as Hl.
  rewrite (proj2 (Z.ltb_ge _ _)) by lia. rewrite deal_loop by done. cbn [mbind option_bind].
  do 4 eexists. split; [done|]. split; [by rewrite take_drop|]. rewrite length_take. lia.
Qed.

(** The options of a trial that draws both kinds of probes. *)
Record trial_options (full : nat) (fract fract_successful : spec_float) (num_probes n s : Z) : Prop := TrialOptions {
  to_full : Z.of_nat full < 2 ^ 31;
  to_part : SFeqb fract (f64_of_Z 1) = false;
  to_le : SFleb (f32_of_f64 fract) (f32_of_Z 1) = true;
  to_ge : SFleb (f32_of_Z 0) (f32_of_f64 fract) = true;
  to_n : fraction_of (f32_of_f64 fract) (Z.of_nat full) = Some n;
  to_split : 0 < n < Z.of_nat full;
  to_probes : 0 ≤ num_probes < 2 ^ 31;
  to_s : fraction_of fract_successful num_probes = Some s;
  to_hits : s ≤ num_probes
}.

Lemma trial_ok {A} rng (full_data : list A) fract fract_successful num_probes n s :
  trial_options (length full_data) fract fract_successful num_probes n s →
  ∃ data uninserted probes hits misses st,
    trial draw shuffle rng full_data fract fract_successful num_probes
      = Some ((data, uninserted, probes, num_probes - s), st) ∧
    data ++ uninserted ≡ₚ full_data ∧ Z.of_nat (length data) = n ∧ probes ≡ₚ hits ++ misses ∧
    Z.of_nat (length hits) = s ∧ Z.of_nat (length misses) = num_probes - s ∧
    Forall (λ p, p ∈ data) hits ∧ Forall (λ p, p ∈ uninserted) misses.
Proof using shuffle_perm draw_range.
  intros [Hfull H1 Hle Hge Hn Hsplit Hnp Hs Hhits].
  destruct (trial_data_ok rng full_data fract n H1 Hle Hge Hn ltac:(lia))
    as (data & uninserted & full' & rng' & Hdata & Hperm & Hlen).
  pose proof (Permutation_length Hperm) as Hl. rewrite length_app in Hl.
  destruct (random_probes_ok draw shuffle shuffle_perm draw_range rng' data uninserted fract_successful num_probes s)
    as (probes & rng2 & hits & misses & Hrun & Hrest); [lia|lia|done|lia|].
  exists data, uninserted, probes, hits, misses, (full', rng2). split; [|split; [done|split; [exact Hlen|exact Hrest]]].
  unfold trial. rewrite Hdata. cbn [mbind option_bind]. rewrite wrap_small by (split; lia). by rewrite Hrun.
Qed.

(** In a data set without repetition the count of unsuccessful probes is right. *)
Lemma trial_counts rng (full_data : list bytes) fract fract_successful num_probes n s :
  NoDup full_data → trial_options (length full_data) fract fract_successful num_probes n s →
  ∃ data uninserted probes st,
    trial draw shuffle rng full_data fract fract_successful num_probes
      = Some ((data, uninserted, probes, num_probes - s), st) ∧
    data ++ uninserted ≡ₚ full_data ∧ Z.of_nat (length data) = n ∧ Z.of_nat (length probes) = num_probes ∧
    count_if (known data) probes = s.
Proof using shuffle_perm draw_range.
  intros Hnd Ho. pose proof (to_hits _ _ _ _ _ _ Ho) as Hs.
  destruct (trial_ok rng full_data fract fract_successful num_probes n s Ho)
    as (data & uninserted & probes & hits & misses & st & Hrun & Hperm & Hlen & Hp & Hh & Hm & Hhits & Hmisses).
  exists data, uninserted, probes, st. split; [done|]. split; [done|]. split; [done|]. split.
  - rewrite (Permutation_length Hp), length_app. lia.
  - rewrite (count_if_perm _ _ _ Hp), count_if_app.
    rewrite (count_if_const _ true hits), (count_if_const _ false misses); [cbn [Z.b2z]; lia| |].
    + eapply Forall_impl; [exact Hmisses|]. intros x Hx. unfold known. apply bool_decide_eq_false.
      intros Hin. rewrite <-Hperm in Hnd. apply NoDup_app in Hnd as (_ & Hdis & _). by apply (Hdis x).
    + eapply Forall_impl; [exact Hhits|]. intros x Hx. unfold known. by apply bool_decide_eq_true.
Qed.

Context {F : Type} `{L : BitFilterLaws F bytes}.

(** C6: A trial on a data set without repetition, from the split of the data to the report of the
    throughput experiment: when the number of probes is a multiple of 100, what it
    reports is the number of false positives among the probes, for every filter that
    keeps the laws of [BitFilter] and is usable on the keys. *)
Theorem trial_throughput_exact rng (full_data : list bytes) fract fract_successful num_probes n s :
  NoDup full_data → trial_options (length full_data) fract fract_successful num_probes n s →
  num_probes mod 100 = 0 →
  ∃ data uninserted probes numProbesUnsuccessful st,
    trial draw shuffle rng full_data fract fract_successful num_probes
      = Some ((data, uninserted, probes, numProbesUnsuccessful), st) ∧
    Z.of_nat (length probes) = num_probes ∧ data ++ uninserted ≡ₚ full_data ∧
    ∀ f name fprs, usable f (data ++ probes) →
      ∃ f' fprs', insert_all bf_add f data = Some f' ∧
        benchFilter_throughput false data probes f name numProbesUnsuccessful fprs
        = Some (f', (count_if (false_positive f' data) probes, fprs')).
Proof using shuffle_perm draw_range L.
  intros Hnd Ho H100. pose proof Ho as [Hfull _ _ _ _ Hsplit Hnp _ Hs].
  destruct (trial_counts rng full_data fract fract_successful num_probes n s Hnd Ho)
    as (data & uninserted & probes & st & Hrun & Hperm & Hlen & Hlp & Hcount).
  exists data, uninserted, probes, (num_probes - s), st. split; [done|]. split; [done|]. split; [done|].
  intros f name fprs Hu.
  destruct (throughput_fps f data probes name (num_probes - s) fprs Hu) as (f' & fprs' & Hins & Hrep); [lia..|].
  exists f', fprs'. split; [done|]. rewrite Hrep.
  assert (100 * (length probes / 100) = length probes)%nat as ->.
  { apply Nat2Z.inj. rewrite Nat2Z.inj_mul, Nat2Z.inj_div, Hlp. change (Z.of_nat 100) with 100.
    pose proof (Z.div_mod num_probes 100 ltac:(lia)). lia. }
  rewrite take_ge, drop_ge by done. cbn [count_if]. by rewrite Z.sub_0_r.
Qed.
End trial_spec.


(** ** A run without [data_size] *)

Lemma whole_fraction n : 0 < n < 2 ^ 31 → SFeqb (subset_fraction None n) (f64_of_Z 1) = true.
Proof.
  intros Hn. unfold subset_fraction, subset_size. cbn [default]. rewrite to_i32_small by lia.
  destruct (f64_of_Z_finite n ltac:(lia)) as (m & e & ->). rewrite f64_div_self. vm_compute. reflexivity.
Qed.

Lemma probes_of_nothing {R A} draw n (acc : list A * R) :
  (0 < n)%nat → for_loop n 0 (probe_body draw []) acc = None.
Proof.
  intros Hn. destruct n as [|n]; [lia|]. cbn [for_loop].
  assert (probe_body draw (@nil A) 0 acc = None) as ->; [|done].
  unfold probe_body. destruct (draw acc.2 0 (u32 (Z.of_nat (length (@nil A)) - 1))) as [idx rng].
  destruct (to_i32 idx <? 0); [done|]. by rewrite lookup_nil.
Qed.

Section whole.
Context {R : Type} (draw : R → Z → Z → Z * R) (shuffle : ∀ A : Type, R → list A → list A * R).

(** Without the option [data_size] the fraction of the data set is exactly 1, so nothing is
    left out of the data, and a trial that wants an unsuccessful probe indexes the empty
    vector of keys left out: the run has no defined behaviour, whatever the generator
    draws. *)
Theorem trial_whole_data_undefined {A} rng (full_data : list A) fract_successful num_probes s u :
  0 < Z.of_nat (length full_data) < 2 ^ 31 →
  probe_split fract_successful (u32 num_probes) = Some (s, u) → 0 < u →
  trial draw shuffle rng full_data (subset_fraction None (Z.of_nat (length full_data))) fract_successful num_probes = None.
Proof using.
  intros Hn Hs Hu. unfold trial, trial_data. rewrite whole_fraction by done. cbn [negb mbind option_bind].
  unfold generate_probes_with_unselected_keys_as_false. rewrite Hs. cbn [mbind option_bind].
  destruct (generate_successful_probes draw rng full_data s []) as [[probes rng']|]; [|done].
  cbn [mbind option_bind]. unfold generate_unsuccessful_probes.
  by rewrite probes_of_nothing by lia.
Qed.
End whole.

(** With the default of half the probes successful. *)
Lemma trial_whole_data_undefined_witness :
  trial draw_low shuffle_id tt [1; 2; 3] (subset_fraction None 3) (f32_of_f64 (f64_lit 5 1)) 1000000 = None.
Proof.
  apply (trial_whole_data_undefined draw_low shuffle_id tt [1; 2; 3] (f32_of_f64 (f64_lit 5 1)) 1000000 500000 500000).
  - cbn. lia.
  - vm_compute. reflexivity.
  - lia.
Defined.

(** The subset can be smaller than [data_size]: the fraction goes through two roundings and
    the product is rounded down. *)
Example subset_rounded_down :
  fraction_of (f32_of_f64 (subset_fraction (Some 251) 1000)) 1000 = Some 250 ∧
  fraction_of (f32_of_f64 (subset_fraction (Some 1) 41)) 41 = Some 0.
Proof. split; vm_compute; reflexivity. Qed.

Lemma prepared_dataset_reload_witness :
  ∃ data rng', read_dataset shuffle_id (Some (write_dataset (makeUniqueSet [[x61]; [x62]; [x61]] []))) tt = Some (data, rng') ∧
    NoDup data ∧ ∀ x, x ∈ data ↔ x ∈ [[x61]; [x62]; [x61]].
Proof.
  apply (prepared_dataset_reload shuffle_id (λ _ _ _, reflexivity _) [[x61]; [x62]; [x61]] tt).
  - vm_decide.
  - cbn. lia.
Defined.

(** ** Instance: four keys, two of them inserted, a hundred probes *)
Definition demo_data : list bytes := [[x61]; [x62; x62]; [x63; x63; x63]; [x64; x64; x64; x64]].

Lemma trial_throughput_exact_witness :
  ∃ data uninserted probes numProbesUnsuccessful st,
    trial draw_low shuffle_id tt demo_data (subset_fraction (Some 2) 4) (f32_of_f64 (f64_lit 5 1)) 100
      = Some ((data, uninserted, probes, numProbesUnsuccessful), st) ∧
    ∃ f' fprs', benchFilter_throughput (H := selfBloom_filter demo_hash) false data probes demo_filter "selfbloom"
      numProbesUnsuccessful ∅ = Some (f', (count_if (false_positive (H := selfBloom_filter demo_hash) f' data) probes, fprs')).
Proof.
  destruct (trial_throughput_exact draw_low shuffle_id (λ _ _ _, reflexivity _) (λ _ _ _ H, conj (Z.le_refl _) H)
    (L := selfBloom_laws demo_hash) tt demo_data (subset_fraction (Some 2) 4) (f32_of_f64 (f64_lit 5 1)) 100 2 50)
    as (data & uninserted & probes & U & st & Hrun & _ & _ & H).
  - apply (bool_decide_unpack _). vm_compute. exact I.
  - split; try (vm_compute; reflexivity); cbn; lia.
  - reflexivity.
  - exists data, uninserted, probes, U, st. split; [exact Hrun|].
    destruct (H demo_filter "selfbloom"%string ∅ (demo_usable _)) as (f' & fprs' & _ & Hrep). exists f', fprs'. exact Hrep.
Defined.
