(* ===== verification/DriverLocations.v ===== *)
(** * Generating and reading the files of locations (src/benchmarker.cpp)

    With the option [loc.regenerate] the driver chooses locations on one half of the data
    set, scores them on the other, and writes one file per chunk size; every run reads the
    files whose names are given. A file is its contents, by chunk size. *)
From stdpp Require Import gmap.
From S2P Require Import Prelude Words Floats EntropyEstimators Storage EntropyFiles.

(** [unsigned max], returned as an [int] *)
Definition max_str_size (data : list bytes) : Z :=
  to_i32 (foldl (λ max s, if max <? Z.of_nat (length s) then u32 (Z.of_nat (length s)) else max) 0 data).

Section locations.
Context {R : Type} (shuffle : ∀ A : Type, R → list A → list A * R).
Context `{DoubleText} (log2 : spec_float → spec_float) (iter : list (bytes * Z) → list (bytes * Z)).

(** The last file written under the name of one chunk size [w]; the file of locations that
    is written before it is truncated. *)
Definition generate_file (w : nat) (data sample_data sample_val : list bytes) (numPositions : Z) : option bytes :=
  sel ← greedyRenyiSelectorStopK log2 iter w (u32 (max_str_size data)) sample_data sample_val [] [] numPositions;
  write_entropies (entropies sel) (returnPositions sel) (fixedLength sel).

(** [if (vm.count(...))]: nothing is written when no name is given. *)
Definition generate_if (files : nat → bool) (w : nat) (data sample_data sample_val : list bytes) (numPositions : Z)
    (fs : gmap nat bytes) : option (gmap nat bytes) :=
  if files w then f ← generate_file w data sample_data sample_val numPositions; Some (<[w := f]> fs) else Some fs.

(** The files of 1, 4 and 8 bytes whose names are given; the data and the generator change. *)
Definition generateLocationData (rng : R) (data : list bytes) (files : nat → bool)
    : option (gmap nat bytes * (list bytes * R)) :=
  '((sample_data, sample_val), (data, rng)) ← get_subset shuffle rng data (f32_of_f64 (f64_lit 5 1));
  fs ← generate_if files 1 data sample_data sample_val 16 ∅;
  fs ← generate_if files 4 data sample_data sample_val 16 fs;
  fs ← generate_if files 8 data sample_data sample_val 12 fs;
  Some (fs, (data, rng)).

(** [locations[w]], [entropies[w]], and the flag, when there is a file for [w] *)
Definition read_if (files : gmap nat bytes) (st : option (gmap nat (list Z * list spec_float) * bool)) (w : nat)
    : option (gmap nat (list Z * list spec_float) * bool) :=
  '(m, fixed) ← st;
  match files !! w with
  | Some f => '(l, e, fixed) ← read_entropies f; Some (<[w := (l, e)]> m, fixed)
  | None => Some (m, fixed)
  end.

(** The flag is the one of the last file read. *)
Definition setLocationData (files : gmap nat bytes) (dataIsFixedLength : bool)
    : option (gmap nat (list Z * list spec_float) * bool) :=
  foldl (read_if files) (Some (∅, dataIsFixedLength)) [1; 4; 8]%nat.
End locations.

(** ** What is generated is what is read *)

Lemma max_str_size_range data :
  Forall (λ s, Z.of_nat (length s) < 2 ^ 31) data → 0 ≤ max_str_size data < 2 ^ 31.
Proof.
  intros Hd. unfold max_str_size.
  assert (∀ m, 0 ≤ m < 2 ^ 31 → 0 ≤ foldl (λ max s, if max <? Z.of_nat (length s) then u32 (Z.of_nat (length s)) else max) m data < 2 ^ 31)
    as H; [|specialize (H 0 ltac:(lia)); rewrite to_i32_small by lia; lia].
  induction Hd as [|s data Hs _ IH]; intros m Hm; cbn [foldl]; [done|]. apply IH.
  destruct (m <? _); [rewrite wrap_small by (split; lia); lia|done].
Qed.

Section reload.
Context {R : Type} (shuffle : ∀ A : Type, R → list A → list A * R).
Context `{L : DoubleTextLaws} (log2 : spec_float → spec_float) (iter : list (bytes * Z) → list (bytes * Z)).

(** What the file of one chunk size holds. *)
Definition chosen (w : nat) (data sample_data : list bytes) (numPositions : Z) (locs : list Z) (es : list spec_float) : Prop :=
  length locs = length es ∧ Z.of_nat (length locs) ≤ numPositions ∧ extends w (max_str_size data) [] locs.

Lemma generate_file_read w data sample_data sample_val numPositions file :
  (0 < w)%nat → 0 ≤ numPositions < 210000000 → Forall (λ s, Z.of_nat (length s) < 2 ^ 31) data →
  generate_file log2 iter w data sample_data sample_val numPositions = Some file →
  ∃ locs es, read_entropies file = Some (locs, es, evaluateDatasetFixedLength sample_data) ∧
    chosen w data sample_data numPositions locs es.
Proof using L.
  intros Hw Hnp Hd (sel & Hsel & Hf)%bind_Some. pose proof (max_str_size_range data Hd) as Hm.
  rewrite wrap_small in Hsel by (split; lia).
  destruct (stopK_shape log2 iter w _ _ _ _ _ _ _ Hm Hsel) as (new & newEnts & Hp & He & Hl & Hle & Hext & _ & Hfix).
  cbn [app] in Hp, He. rewrite Hp, He, Hfix in Hf.
  assert (Forall (λ l, - 2 ^ 31 ≤ l < 2 ^ 31) new) as Hr.
  { apply Forall_lookup. intros k p Hk. destruct (Hext k p Hk) as [->|[Hp' _]]; [lia|].
    assert (max_str_size data / Z.of_nat w ≤ max_str_size data) by (apply Z.div_le_upper_bound; nia). lia. }
  destruct (entropies_read newEnts new (evaluateDatasetFixedLength sample_data) Hl Hr ltac:(lia)) as (file' & Hw' & Hread).
  rewrite Hw' in Hf. injection Hf as ->. exists new, (dt_round <$> newEnts). split; [done|].
  split; [by rewrite length_fmap|]. split; [lia|done].
Qed.

(** The file of one chunk size, when it is asked for. *)
Definition stored (files : nat → bool) (data sample_data : list bytes) (fs : gmap nat bytes) (w : nat) (n : Z) : Prop :=
  if files w then ∃ file locs es, fs !! w = Some file ∧
    read_entropies file = Some (locs, es, evaluateDatasetFixedLength sample_data) ∧ chosen w data sample_data n locs es
  else fs !! w = None.

(** What is known of one chunk size after the files are read. *)
Definition loaded (files : nat → bool) (data sample_data : list bytes) (m : gmap nat (list Z * list spec_float))
    (w : nat) (n : Z) : Prop :=
  if files w then ∃ locs es, m !! w = Some (locs, es) ∧ chosen w data sample_data n locs es else m !! w = None.

Lemma stored_ne files data sample_data fs fs' w n :
  fs' !! w = fs !! w → stored files data sample_data fs w n → stored files data sample_data fs' w n.
Proof using. unfold stored. by intros ->. Qed.

Lemma loaded_ne files data sample_data m m' w n :
  m' !! w = m !! w → loaded files data sample_data m w n → loaded files data sample_data m' w n.
Proof using. unfold loaded. by intros ->. Qed.

Lemma generate_if_stored files w data sample_data sample_val n fs fs' :
  (0 < w)%nat → 0 ≤ n < 210000000 → Forall (λ s, Z.of_nat (length s) < 2 ^ 31) data → fs !! w = None →
  generate_if log2 iter files w data sample_data sample_val n fs = Some fs' →
  stored files data sample_data fs' w n ∧ ∀ w', w' ≠ w → fs' !! w' = fs !! w'.
Proof using L.
  intros Hw Hn Hd Hnone. unfold generate_if, stored. destruct (files w); [|by intros [= <-]].
  intros (file & Hf & [= <-])%bind_Some. split; [|intros; by rewrite lookup_insert_ne].
  destruct (generate_file_read w data sample_data sample_val n file Hw Hn Hd Hf) as (locs & es & Hr & Hc).
  exists file, locs, es. by rewrite lookup_insert_eq.
Qed.

Lemma read_if_loaded files data sample_data fs w n m fixed :
  stored files data sample_data fs w n → m !! w = None →
  ∃ m', read_if fs (Some (m, fixed)) w = Some (m', if files w then evaluateDatasetFixedLength sample_data else fixed) ∧
    loaded files data sample_data m' w n ∧ ∀ w', w' ≠ w → m' !! w' = m !! w'.
Proof using.
  unfold stored, loaded, read_if. cbn [mbind option_bind]. destruct (files w).
  - intros (file & locs & es & -> & Hr & Hc) _. rewrite Hr. eexists. split; [done|].
    split; [|intros; by rewrite lookup_insert_ne]. exists locs, es. by rewrite lookup_insert_eq.
  - intros -> Hnone. by exists m.
Qed.

Lemma generated_loaded rng data files fs data' rng' fixed0 :
  files 1%nat || files 4%nat || files 8%nat = true →
  generateLocationData shuffle log2 iter rng data files = Some (fs, (data', rng')) →
  Forall (λ s, Z.of_nat (length s) < 2 ^ 31) data' →
  ∃ sample_data sample_val m,
    get_subset shuffle rng data (f32_of_f64 (f64_lit 5 1)) = Some ((sample_data, sample_val), (data', rng')) ∧
    setLocationData fs fixed0 = Some (m, evaluateDatasetFixedLength sample_data) ∧
    loaded files data' sample_data m 1 16 ∧ loaded files data' sample_data m 4 16 ∧ loaded files data' sample_data m 8 12.
Proof using L.
  intros Hsome Hrun Hd. unfold generateLocationData in Hrun.
  apply bind_Some in Hrun as ([[sample_data sample_val] [data1 rng1]] & Hsub & Hrun).
  apply bind_Some in Hrun as (fs1 & H1 & (fs4 & H4 & (fs8 & H8 & [= -> -> ->])%bind_Some)%bind_Some).
  apply generate_if_stored in H1 as [S1 N1]; [|lia..|done|done].
  apply generate_if_stored in H4 as [S4 N4]; [|lia..|done|by rewrite N1, lookup_empty].
  apply generate_if_stored in H8 as [S8 N8]; [|lia..|done|by rewrite N4, N1, lookup_empty].
  apply (stored_ne _ _ _ _ fs) in S4; [|by apply N8].
  apply (stored_ne _ _ _ _ fs) in S1; [|by rewrite N8, N4].
  exists sample_data, sample_val. unfold setLocationData. cbn [foldl].
  destruct (read_if_loaded _ _ _ _ _ _ ∅ fixed0 S1 (lookup_empty _)) as (m1 & -> & L1 & M1).
  match goal with |- context [read_if fs (Some (m1, ?b)) 4] =>
    destruct (read_if_loaded _ _ _ _ _ _ m1 b S4) as (m4 & -> & L4 & M4); [by rewrite M1, lookup_empty|] end.
  match goal with |- context [read_if fs (Some (m4, ?b)) 8] =>
    destruct (read_if_loaded _ _ _ _ _ _ m4 b S8) as (m8 & -> & L8 & M8); [by rewrite M4, M1, lookup_empty|] end.
  exists m8. split; [done|]. split.
  - by destruct (files 1%nat), (files 4%nat), (files 8%nat).
  - split; [apply (loaded_ne _ _ _ m1); [by rewrite M8, M4|done]|].
    split; [apply (loaded_ne _ _ _ m4); [by rewrite M8|done]|done].
Qed.
(** C24: The driver reads what it generates: when some file is asked for, [setLocationData] on the
    files of [generateLocationData] gives every chunk size asked for as many positions as
    entropies, the positions within the longest key and without repetition (-1 apart), and leaves
    the flag of the half of the data that the positions were chosen on. *)
Theorem generated_locations_reload rng data files fs data' rng' fixed0 :
  files 1%nat || files 4%nat || files 8%nat = true →
  generateLocationData shuffle log2 iter rng data files = Some (fs, (data', rng')) →
  Forall (λ s, Z.of_nat (length s) < 2 ^ 31) data' →
  ∃ sample_data sample_val m,
    get_subset shuffle rng data (f32_of_f64 (f64_lit 5 1)) = Some ((sample_data, sample_val), (data', rng')) ∧
    setLocationData fs fixed0 = Some (m, evaluateDatasetFixedLength sample_data) ∧
    loaded files data' sample_data m 1 16 ∧ loaded files data' sample_data m 4 16 ∧ loaded files data' sample_data m 8 12.
Proof using L. apply generated_loaded. Qed.
End reload.

(** ** Instance: four keys of 16 bytes, the file of 8 bytes only, and a notation of doubles that writes
    the integer part *)
Definition demo_keys : list bytes :=
  (λ b, b :: replicate 15 x61) <$> [x61; x62; x63; x64].

Lemma generated_locations_reload_witness :
  ∃ fs m sample_data,
    generateLocationData shuffle_id (H := demo_double_text) libm_minus_two id tt demo_keys (λ w, (w =? 8)%nat)
      = Some (fs, (demo_keys, tt)) ∧
    setLocationData (H := demo_double_text) fs false = Some (m, true) ∧
    loaded (λ w, (w =? 8)%nat) demo_keys sample_data m 8 12.
Proof.
  eexists.
  match goal with |- ∃ m sample_data, _ = Some (?fs, _) ∧ _ =>
    destruct (generated_locations_reload shuffle_id (L := demo_double_text_laws) libm_minus_two id tt demo_keys
      (λ w, (w =? 8)%nat) fs demo_keys tt false) as (sample_data & sample_val & m & Hs & Hr & _ & _ & H8)
  end.
  - reflexivity.
  - vm_compute. reflexivity.
  - vm_decide.
  - exists m, sample_data. split; [vm_compute; reflexivity|]. split; [|exact H8].
    rewrite Hr. vm_compute in Hs. injection Hs as <- <-. vm_compute. reflexivity.
Defined.
