(* ===== verification/Dispatch.v ===== *)
(** * Which benchmarks a trial runs (src/benchmarker.cpp, src/include/benchmark_*.hh)

    The body of a trial looks every requested benchmark up by its name and calls it. Here a
    trial is the list of the clients it calls, in order; a name that is not in its map is used
    through [end()], and a missing list of metrics throws where nothing catches. *)
From stdpp Require Import strings gmap.
From S2P Require Import Prelude Words Floats BenchSelect Driver.

Inductive client_call :=
  | Cpartition (r : bench_run)
  | Cfilter (r : bench_run)
  | Chash
  | Ctable (r : bench_run)
  | Ctable_mt (r : bench_run).

(** The options of a trial; [None] for an option that is not given. *)
Record requests := Requests {
  rq_partition : option (list string);
  rq_filter : option (list string);
  rq_hash : option (list string);
  rq_table : option (list string);
  rq_table_mt : option (list string);
  rq_metrics : option (list string)
}.

Section dispatch.
(** libm *)
Context (log2 : spec_float → spec_float).

Definition partition_benchmarks : gmap string (bench_env → Z → option (list bench_run)) :=
  {[ "partition"%string := bench_partitioners log2 ]}.
Definition filter_benchmarks : gmap string (bench_env → option (list bench_run)) :=
  list_to_map [("self_bloom", bench_selfbloom log2); ("register_bloom", bench_register_block_bloom log2);
    ("block_bloom", bench_blockbloom log2)]%string.
Definition hash_benchmarks : gmap string unit := {[ "bench_hashes"%string := tt ]}.
Definition table_benchmarks : gmap string (bench_env → option (list bench_run)) :=
  list_to_map [("robin_table", bench_robin_table); ("google_table", bench_google_table);
    ("swiss_table", bench_swiss_table log2); ("std_table", bench_std_table log2)]%string.

(** [if (vm.count(...)) for (auto& f : requested) fn = table.find(f)->second, fn(...)] *)
Definition run_group {A} (requested : option (list string)) (table : gmap string A)
    (call : A → option (list client_call)) : option (list client_call) :=
  match requested with
  | None => Some []
  | Some fs => l ← mapM (λ f, fn ← table !! f; call fn) fs; Some (concat l)
  end.

(** [setTableMetrics(vm)] before the groups that need it *)
Definition metrics_before (requested metrics : option (list string)) (m : gmap string bool) : option (gmap string bool) :=
  match requested with None => Some m | Some _ => setTableMetrics metrics m end.

Definition as_calls (c : bench_run → client_call) (runs : option (list bench_run)) : option (list client_call) :=
  match runs with Some l => Some (c <$> l) | None => None end.

Definition trial_calls (env : bench_env) (rq : requests) (m : gmap string bool)
    : option (list client_call * gmap string bool) :=
  partitions ← run_group (rq_partition rq) partition_benchmarks (λ fn, as_calls Cpartition (fn env 1024));
  m ← metrics_before (rq_filter rq) (rq_metrics rq) m;
  filters ← run_group (rq_filter rq) filter_benchmarks (λ fn, as_calls Cfilter (fn env));
  hashes ← run_group (rq_hash rq) hash_benchmarks (λ _, Some [Chash]);
  m ← metrics_before (rq_table rq) (rq_metrics rq) m;
  tables ← run_group (rq_table rq) table_benchmarks (λ fn, as_calls Ctable (fn env));
  mt ← match rq_table_mt rq with
       | None => Some []
       | Some _ => as_calls Ctable_mt (bench_swiss_table_mt log2 env)
       end;
  Some (partitions ++ filters ++ hashes ++ tables ++ mt, m).

(** ** When a trial has no behaviour *)

Lemma run_group_defined {A} requested (table : gmap string A) call l f :
  run_group requested table call = Some l → f ∈ default [] requested → ∃ fn, table !! f = Some fn ∧ is_Some (call fn).
Proof using.
  destruct requested as [fs|]; cbn [run_group default from_option id]; [|intros _ ?%elem_of_nil; done].
  intros (ls & Hm & _)%bind_Some Hf. apply mapM_Some_1 in Hm.
  apply list_elem_of_lookup in Hf as [i Hi]. destruct (Forall2_lookup_l _ _ _ _ _ Hm Hi) as (c & _ & Hc).
  apply bind_Some in Hc as (fn & Hfn & Hc). eauto.
Qed.

(** The names a trial may be asked for. *)
Definition known_names (rq : requests) : Prop :=
  Forall (λ f, f = "partition"%string) (default [] (rq_partition rq)) ∧
  Forall (λ f, f ∈ ["self_bloom"; "register_bloom"; "block_bloom"]%string) (default [] (rq_filter rq)) ∧
  Forall (λ f, f = "bench_hashes"%string) (default [] (rq_hash rq)) ∧
  Forall (λ f, f ∈ ["robin_table"; "google_table"; "swiss_table"; "std_table"]%string) (default [] (rq_table rq)).

(** A trial is only defined when every benchmark asked for has one of the nine names of the
    maps, and metrics are given with a filter or a table benchmark; asking for the
    multi-threaded table runs it whatever the names are. *)
Theorem trial_calls_known env rq m calls m' :
  trial_calls env rq m = Some (calls, m') →
  known_names rq ∧ (is_Some (rq_filter rq) ∨ is_Some (rq_table rq) → is_Some (rq_metrics rq)).
Proof using.
  unfold trial_calls. intros (ps & Hp & H)%bind_Some. apply bind_Some in H as (m1 & Hm1 & (fs & Hf & H)%bind_Some).
  apply bind_Some in H as (hs & Hh & (m2 & Hm2 & (ts & Ht & _)%bind_Some)%bind_Some).
  assert (∀ r m m', metrics_before r (rq_metrics rq) m = Some m' → is_Some r → is_Some (rq_metrics rq)) as Hmet.
  { intros r m0 m0' Hr [x ->]. cbn [metrics_before] in Hr. unfold setTableMetrics, set_requested in Hr.
    apply bind_Some in Hr as (y & -> & _). by eexists. }
  split; [|intros [?|?]; [by eapply (Hmet (rq_filter rq))|by eapply (Hmet (rq_table rq))]].
  split_and!; apply Forall_forall; intros f Hin.
  - destruct (run_group_defined _ _ _ _ f Hp Hin) as (fn & Hfn & _).
    unfold partition_benchmarks in Hfn. by apply lookup_singleton_Some in Hfn as [<- _].
  - destruct (run_group_defined _ _ _ _ f Hf Hin) as (fn & Hfn & _).
    apply elem_of_list_to_map_2, (list_elem_of_fmap_2 fst) in Hfn. exact Hfn.
  - destruct (run_group_defined _ _ _ _ f Hh Hin) as (fn & Hfn & _).
    unfold hash_benchmarks in Hfn. by apply lookup_singleton_Some in Hfn as [<- _].
  - destruct (run_group_defined _ _ _ _ f Ht Hin) as (fn & Hfn & _).
    apply elem_of_list_to_map_2, (list_elem_of_fmap_2 fst) in Hfn. exact Hfn.
Qed.
End dispatch.

(** The configuration file lists [f14_table] among the tables: no map has it. *)
Example f14_table_undefined env :
  trial_calls libm_one env (Requests None None None (Some ["f14_table"]) None (Some ["latency"]))%string table_metrics_init = None.
Proof. reflexivity. Qed.

(** The multi-threaded benchmark of the configuration file, by any name. *)
Definition demo_requests : requests :=
  Requests None (Some ["self_bloom"]) None None (Some ["any"]) (Some ["throughput"])%string.

Example demo_trial_calls :
  fst <$> trial_calls libm_one (demo_env "standard" [f64_of_Z 0]) demo_requests table_metrics_init
  = Some [Cfilter (BenchRun "selfbloom-std" HashFns.Hstandard []); Ctable_mt (BenchRun "swiss_standard" HashFns.Hstandard [])].
Proof. vm_compute. reflexivity. Qed.

Lemma trial_calls_known_witness :
  is_Some (trial_calls libm_one (demo_env "standard" [f64_of_Z 0]) demo_requests table_metrics_init) ∧ known_names demo_requests.
Proof.
  split; [eexists; vm_compute; reflexivity|].
  eapply (trial_calls_known libm_one (demo_env "standard" [f64_of_Z 0]) demo_requests table_metrics_init).
  vm_compute. reflexivity.
Defined.
