(* ===== verification/Pipeline.v ===== *)
(** * From the generated locations to the hash functions that run

    The driver generates the files of locations, reads them back and hands them to the
    benchmarks, which pick the functor of each run from the entropies (src/benchmarker.cpp,
    src/benchmark_filters.cpp). Whether every run hashes every key of the data depends on
    all of them: on the positions the estimator chose, on the flag of the file, which is that of
    one half of the data, and on the selection of the functor. *)
From stdpp Require Import strings gmap fin_maps.
From S2P Require Import Prelude Words Floats LocArrays Crc32Hash EntropyEstimators Storage EntropyFiles HashFns BenchSelect DriverLocations.

(** The environment of the benchmarks, from what [setLocationData] leaves. *)
Definition env_of (m : gmap nat (list Z * list spec_float)) (fixed : bool) (hashfuncs : string → bool)
    (data_size : Z) (added_fpr : spec_float) : bench_env :=
  BenchEnv (kmap Z.of_nat (snd <$> m)) (kmap Z.of_nat (fst <$> m)) hashfuncs fixed data_size added_fpr.

#[local] Instance of_nat_inj : Inj (=) (=) Z.of_nat := Nat2Z.inj.

(** ** The positions of the estimator are words of the longest key *)

Lemma extends_locations w max new :
  (0 < w)%nat → extends w max [] new → -1 ∉ new →
  NoDup new ∧ Forall (λ p, 0 ≤ p ∧ Z.of_nat w * p + Z.of_nat w ≤ max) new.
Proof.
  intros Hw Hext Hm. split.
  - apply NoDup_alt. intros i j p Hi Hj.
    assert (∀ a b, new !! a = Some p → new !! b = Some p → ¬ (a < b)%nat) as H.
    { intros a b Ha Hb Hlt. destruct (Hext b p Hb) as [->|[_ Hn]].
      - by apply Hm, (list_elem_of_lookup_2 _ b).
      - apply Hn. cbn [app]. apply elem_of_take. by exists a. }
    destruct (Nat.lt_trichotomy i j) as [?|[?|?]]; [by exfalso; apply (H i j)|done|by exfalso; apply (H j i)].
  - apply Forall_lookup. intros k p Hk. destruct (Hext k p Hk) as [->|[Hp _]].
    { exfalso. by apply Hm, (list_elem_of_lookup_2 _ k). }
    pose proof (Z.mul_div_le max (Z.of_nat w) ltac:(lia)). nia.
Qed.

(** In a data set of keys of one length the longest key has it. *)
Lemma max_str_size_fixed data x :
  x ∈ data → (∀ y, y ∈ data → length y = length x) → Z.of_nat (length x) < 2 ^ 31 →
  max_str_size data = Z.of_nat (length x).
Proof.
  intros Hx Hall Hlen. unfold max_str_size.
  assert (∀ (l : list bytes) m, (∀ y, y ∈ l → length y = length x) → m = 0 ∨ m = Z.of_nat (length x) →
    foldl (λ max s, if max <? Z.of_nat (length s) then u32 (Z.of_nat (length s)) else max) m l
    = if bool_decide (l = []) then m else Z.of_nat (length x)) as H.
  { induction l as [|s l IH]; intros m Hl Hm; [done|]. cbn [foldl]. rewrite (Hl s) by (by left).
    rewrite IH; [|intros; apply Hl; by right|destruct (m <? _) eqn:?; [right; apply wrap_small; split; lia|lia]].
    rewrite (bool_decide_eq_false_2 (_ :: _ = [])) by done. case_bool_decide; [|done].
    destruct (Z.ltb_spec m (Z.of_nat (length x))); [apply wrap_small; split; lia|lia]. }
  rewrite H; [|done|by left]. rewrite bool_decide_eq_false_2; [by apply to_i32_small; lia|].
  intros ->. by apply not_elem_of_nil in Hx.
Qed.

Section pipeline.
Context `{C : Crc32} (std_hash default_hash : bytes → Z).
Context {R : Type} (shuffle : ∀ A : Type, R → list A → list A * R).
Context `{L : DoubleTextLaws} (log2 : spec_float → spec_float) (iter : list (bytes * Z) → list (bytes * Z)).

(** C25: The locations that the driver generates are fit for the functors that the Bloom-filter
    benchmark picks: when the file of 8-byte locations is generated and read back, it holds no -1, and
    data declared of fixed length is of one length, every run with a full-key or an 8-byte functor hashes
    every key of the data set without reading outside it (the CRC family, which has no fallback, needs at
    least one location). *)
Theorem generated_runs_safe rng data files fs data' rng' fixed0 m fixed hashfuncs data_size added_fpr runs r key :
  generateLocationData shuffle log2 iter rng data files = Some (fs, (data', rng')) →
  Forall (λ s, Z.of_nat (length s) < 2 ^ 31) data' → files 8%nat = true →
  setLocationData fs fixed0 = Some (m, fixed) →
  let env := env_of m fixed hashfuncs data_size added_fpr in
  -1 ∉ default [] (locations_of env !! 8) →
  (fixed = true → ∀ x y, x ∈ data' → y ∈ data' → length x = length y) →
  (hashfuncs "crc_wyhash_sub8"%string = true → 1 ≤ numLocationsForChunkSize true 5 env (needed_self log2 env) 8) →
  bench_selfbloom log2 env = Some runs → r ∈ runs → sub8_or_full (run_fn r) = true → key ∈ data' →
  ∃ h, run_hash std_hash default_hash (run_fn r) (run_locations r) key = Some h.
Proof using L.
  intros Hgen Hd H8 Hset env Hm1 Hfix Hcrc Hruns Hr Hf Hkey.
  destruct (generated_loaded shuffle log2 iter rng data files fs data' rng' fixed0) as (sample_data & _ & m' & _ & Hset' & _ & _ & Hl);
    [by rewrite H8, orb_true_r|done|done|].
  rewrite Hset in Hset'. injection Hset' as <- ->. unfold loaded in Hl. rewrite H8 in Hl.
  destruct Hl as (locs & es & Hlook & _ & _ & Hext).
  assert (locations_of env !! 8 = Some locs) as Hlocs.
  { subst env. cbn [locations_of env_of]. change 8 with (Z.of_nat 8). by rewrite (lookup_kmap Z.of_nat), lookup_fmap, Hlook. }
  rewrite Hlocs in Hm1. cbn [default from_option id] in Hm1.
  destruct (extends_locations 8 _ _ ltac:(lia) Hext Hm1) as [Hnd Hrange].
  pose proof (max_str_size_range data' Hd) as Hmax.
  assert (fits 64 (Z.of_nat (length key))) as Hk64.
  { rewrite Forall_forall in Hd. specialize (Hd key Hkey). split; lia. }
  apply (selfbloom_run_defined std_hash default_hash log2 env runs r); [|done..|].
  - unfold locations_ok. rewrite Hlocs. cbn [default from_option id]. split; [done|].
    eapply Forall_impl; [exact Hrange|]. intros p [? ?]. cbv beta. lia.
  - unfold key_ok. split; [done|]. rewrite Hlocs. cbn [default from_option id]. intros Hfixed.
    cbn [dataIsFixedLength env_of env] in Hfixed. eapply Forall_impl; [exact Hrange|]. intros p [? Hp]. cbv beta.
    rewrite (max_str_size_fixed data' key) in Hp; [lia|done|intros y Hy; by apply Hfix|].
    rewrite Forall_forall in Hd. by apply Hd.
Qed.
End pipeline.

(** ** Instances *)

Lemma generated_runs_safe_witness :
  ∃ runs r h, bench_selfbloom libm_minus_two
      (env_of {[ 8%nat := ([0; 1], [f64_of_Z 2; f64_of_Z 2]) ]} true (String.eqb "wyhash_sub8") 4 (f64_of_Z 1)) = Some runs ∧
    r ∈ runs ∧ run_hash (C := crc32c) (λ _, 0) (λ _, 0) (run_fn r) (run_locations r) (replicate 16 x61) = Some h.
Proof.
  do 2 eexists.
  match goal with |- ∃ h, _ = Some ?runs ∧ ?r ∈ _ ∧ _ =>
    destruct (generated_runs_safe (C := crc32c) (λ _, 0) (λ _, 0) shuffle_id (L := demo_double_text_laws) libm_minus_two id tt
      demo_keys (λ w, (w =? 8)%nat)
      {[ 8%nat := true_text ++ x0a :: concat (write_entropy_line (H := demo_double_text) <$> [(0, f64_of_Z 2); (1, f64_of_Z 2)]) ]}
      demo_keys tt false {[ 8%nat := ([0; 1], [f64_of_Z 2; f64_of_Z 2]) ]} true (String.eqb "wyhash_sub8") 4 (f64_of_Z 1)
      runs r (replicate 16 x61)) as [h Hh]
  end.
  - vm_compute. reflexivity.
  - vm_decide.
  - reflexivity.
  - vm_compute. reflexivity.
  - vm_decide.
  - intros _ x y Hx Hy.
    assert (Forall (λ x : bytes, length x = 16%nat) demo_keys) as Hall by vm_decide.
    rewrite Forall_forall in Hall. by rewrite (Hall x Hx), (Hall y Hy).
  - intros Hname. exfalso. revert Hname. apply diff_false_true.
  - vm_compute. reflexivity.
  - apply list_elem_of_here.
  - reflexivity.
  - apply list_elem_of_here.
  - exists h. split; [vm_compute; reflexivity|]. split; [apply list_elem_of_here|exact Hh].
Defined.

(** The first half: keys of 104 bytes that differ in the last word. The other has a key of 88 bytes: it has
    eleven words, and the twelve positions chosen are the last one and the first eleven. *)
Definition demo_mixed : list bytes :=
  [replicate 104 x61; replicate 96 x61 ++ replicate 8 x62; replicate 104 x61; replicate 88 x63].

(** The flag is computed on the half that the positions are chosen on: here that half has one
    length and the other has not, the flag says fixed, and the functor that is picked reads
    outside the short key. *)
Example fixed_flag_of_half_unsafe :
  ∃ fs st m runs r,
    generateLocationData (H := demo_double_text) shuffle_id libm_minus_two id tt demo_mixed (λ w, (w =? 8)%nat) = Some (fs, st) ∧
    setLocationData (H := demo_double_text) fs false = Some (m, true) ∧
    bench_selfbloom libm_minus_two (env_of m true (String.eqb "wyhash_sub8") 4 (f64_of_Z 4)) = Some runs ∧ r ∈ runs ∧
    run_hash (C := crc32c) (λ _, 0) (λ _, 0) (run_fn r) (run_locations r) (replicate 88 x63) = None.
Proof.
  do 5 eexists. split; [vm_compute; reflexivity|]. split; [vm_compute; reflexivity|].
  split; [vm_compute; reflexivity|]. split; [apply list_elem_of_here|]. vm_compute. reflexivity.
Qed.
