(* ===== verification/BenchTables.v ===== *)
(** * The hash-table clients (src/benchmark_tables.cpp, lines 30-520)

    Build a table from the data, warm it up, look the probes up in timed blocks. The
    table is any [StringMap], and at the end a [robin_map]; the clock and the printing are
    not modelled. The sums are of fewer than 2^33 [int]s, inside an [int64_t]. *)
From stdpp Require Import gmap.
From S2P Require Import Prelude Words Floats SmallHashes BlockedLoop RobinGrowth RobinTable RobinExtra RobinRun StringMap BenchFilters.

Section clients.
Context {M : Type} `{StringMap M}.

(** The options [set_load_factor] and [load_factor]. *)
Context (set_load_factor : bool) (load_factor : spec_float).

(** [auto it = map.find(p[j]); if (it != map.end()) s += it->second;] *)
Definition find_body (p : list bytes) (map : M) (j s : Z) : option (Z * Z) :=
  x ← vec_get p j;
  it ← sm_find map x;
  match it with
  | Some v => Some (s + v, j)
  | None => Some (s, j)
  end.

(** [if (it != map.end()) { s += it->second; j += it->second; }] *)
Definition chase_body (p : list bytes) (map : M) (j s : Z) : option (Z * Z) :=
  x ← vec_get p j;
  it ← sm_find map x;
  match it with
  | Some v => Some (s + v, u32 (j + v))
  | None => Some (s, j)
  end.

(** [if (set_load_factor) map.max_load_factor(load_factor);] *)
Definition with_load_factor (map : M) : option M :=
  if set_load_factor then sm_max_load_factor map load_factor else Some map.

(** The table built and the sum returned. *)
Definition bench_hashtable_throughput (map : M) (data probes : list bytes) : option (M * Z) :=
  map ← with_load_factor map;
  map ← build_index map 0 data;
  let p := probes in
  s ← for_loop (length p) 0 (λ i s, r ← find_body p map i s; Some r.1) 0;
  r ← timed_loop hash_xxh64_s p (find_body p map) s 0;
  Some (map, r.1).

(** The copy for one table, which also prints that table's counters. *)
Definition bench_hashtable_throughput_only_swiss_table (map : M) (data probes : list bytes)
    : option (M * Z) :=
  map ← with_load_factor map;
  map ← build_index map 0 data;
  let p := probes in
  s ← for_loop (length p) 0 (λ i s, r ← find_body p map i s; Some r.1) 0;
  r ← timed_loop hash_xxh64_s p (find_body p map) s 0;
  Some (map, r.1).

(** [map[data[i]] = rand() % 3] *)
Fixpoint build_random (rand : Z → Z) (map : M) (i : Z) (data : list bytes) : option M :=
  match data with
  | [] => Some map
  | k :: data => map ← sm_insert map k (Z.rem (rand i) 3); build_random rand map (i + 1) data
  end.

(** One of the two warm-up rounds on [(s, i)]. *)
Definition warmup_round (p : list bytes) (map : M) (st : Z * Z) : option (Z * Z) :=
  st ← while (length p) (λ st, st.2 <? Z.of_nat (length p))
         (λ st, r ← chase_body p map st.2 st.1; Some (r.1, u32 (r.2 + 1))) st;
  Some (st.1, u32 (st.2 - Z.of_nat (length p))).

(** One of the two timed rounds on [(s, dummy, i)]: the index of the blocks is left at
    their number, unless it started after it. *)
Definition timed_round (p : list bytes) (map : M) (st : Z * Z * Z) : option (Z * Z * Z) :=
  let '(s, dummy, i) := st in
  let blocks := Z.of_nat (length p) / step_size in
  r ← timed_from i hash_xxh64_s p (chase_body p map) s dummy;
  Some (r.1, r.2, u32 (Z.max i blocks - blocks)).

Definition bench_hashtable_latency (rand : Z → Z) (map : M) (data probes : list bytes) : option (M * Z) :=
  map ← with_load_factor map;
  map ← build_random rand map 0 data;
  let p := probes in
  w ← for_loop 2 0 (λ _ st, warmup_round p map st) (0, 0);
  r ← for_loop 2 0 (λ _ st, timed_round p map st) (w.1, 0, 0);
  Some (map, r.1.1).

(** The table is passed by reference: throughput starts from what latency built. *)
Definition bench_hashtable (metric_latency metric_throughput : bool) (rand : Z → Z)
    (map : M) (data probes : list bytes) : option M :=
  map ← (if metric_latency then r ← bench_hashtable_latency rand map data probes; Some r.1 else Some map);
  if metric_throughput then r ← bench_hashtable_throughput map data probes; Some r.1 else Some map.

Definition bench_hashtable_only_swiss_table (metric_latency metric_throughput : bool) (rand : Z → Z)
    (map : M) (data probes : list bytes) : option M :=
  map ← (if metric_latency then r ← bench_hashtable_latency rand map data probes; Some r.1 else Some map);
  if metric_throughput
  then r ← bench_hashtable_throughput_only_swiss_table map data probes; Some r.1 else Some map.
End clients.

(** A block of [bench_robin_table]:
    [tsl::robin_map<std::string, int, Hash, ...> map(data.size()); bench_hashtable(name, map, data, probes);] *)
Definition bench_robin (hash : bytes → option Z) (entry_has_room : bool) (vector_max_size : Z)
    (set_load_factor : bool) (load_factor : spec_float) (metric_latency metric_throughput : bool)
    (rand : Z → Z) (data probes : list bytes) : option (robin_map hash entry_has_room vector_max_size) :=
  map ← robin_map_new hash entry_has_room vector_max_size (Z.of_nat (length data));
  bench_hashtable set_load_factor load_factor metric_latency metric_throughput rand map data probes.

(** The sum of a function over a list. *)
Fixpoint sum_of {V} (f : V → Z) (l : list V) : Z :=
  match l with [] => 0 | x :: l => f x + sum_of f l end.

Section properties.
Context {M : Type} `{L : StringMapLaws M}.
Definition entry (g : gmap bytes Z) (x : bytes) : Z := default 0 (g !! x).

Lemma find_body_at p (map : M) g j x s :
  serves map g p → p !! j = Some x → find_body p map (Z.of_nat j) s = Some (s + entry g x, Z.of_nat j).
Proof using.
  intros Hm Hx. unfold find_body, vec_get, entry. rewrite (proj2 (Z.leb_le _ _)) by lia.
  rewrite Nat2Z.id, Hx. cbn [mbind option_bind]. rewrite (Hm x) by (by eapply list_elem_of_lookup_2).
  cbn [mbind option_bind]. destruct (g !! x); simpl; [done|]. by rewrite Z.add_0_r.
Qed.

(** The value of an entry is also how many probes the latency loop skips. *)
Definition chase_step (g : gmap bytes Z) (x : bytes) (s : Z) : Z * nat := (s + entry g x, Z.to_nat (entry g x)).

Lemma chase_body_at p (map : M) g j x s :
  serves map g p → (∀ x, 0 ≤ entry g x ≤ 2) → Z.of_nat (length p + 2) < 2 ^ 32 → p !! j = Some x →
  chase_body p map (Z.of_nat j) s = Some ((chase_step g x s).1, Z.of_nat (j + (chase_step g x s).2))
  ∧ ((chase_step g x s).2 ≤ 2)%nat.
Proof using.
  intros Hm Hent Hp Hx. pose proof (lookup_lt_Some _ _ _ Hx). specialize (Hent x).
  unfold chase_body, vec_get, chase_step, entry in *. cbn [fst snd].
  rewrite (proj2 (Z.leb_le _ _)) by lia. rewrite Nat2Z.id, Hx. cbn [mbind option_bind].
  rewrite (Hm x) by (by eapply list_elem_of_lookup_2). cbn [mbind option_bind].
  destruct (g !! x) as [v|]; cbn [default from_option id] in *; (split; [|lia]).
  - rewrite wrap_small by (split; lia). do 2 f_equal. lia.
  - rewrite Z.add_0_r. do 2 f_equal. simpl. lia.
Qed.

(** A loop over all probes. *)
Lemma find_all_sum p (map : M) g s :
  serves map g p →
  for_loop (length p) 0 (λ i s, r ← find_body p map i s; Some r.1) s = Some (s + sum_of (entry g) p).
Proof using.
  intros Hm.
  assert (∀ l p' s, p = p' ++ l →
    for_loop (length l) (Z.of_nat (length p')) (λ i s, r ← find_body p map i s; Some r.1) s
    = Some (s + sum_of (entry g) l)) as Hgen.
  { induction l as [|x l IH]; intros p' t Hp; cbn [length for_loop sum_of]; [by rewrite Z.add_0_r|].
    rewrite (find_body_at p map g (length p') x) by (done || (rewrite Hp; apply list_lookup_middle; lia)).
    cbn [mbind option_bind fst].
    replace (Z.of_nat (length p') + 1) with (Z.of_nat (length (p' ++ [x]))) by (rewrite length_app; simpl; lia).
    rewrite IH by (rewrite Hp, <-app_assoc; done). f_equal. lia. }
  apply (Hgen p [] s). done.
Qed.

Lemma throughput_sum p (map : M) g s :
  serves map g p → Z.of_nat (length p) < 2 ^ 32 →
  ∃ d, timed_loop hash_xxh64_s p (find_body p map) s 0
       = Some (s + sum_of (entry g) (take (Z.to_nat step_size * (length p / Z.to_nat step_size)) p), d).
Proof using.
  intros Hm Hp.
  destruct (timed_loop_spec (λ x s, (s + entry g x, 0%nat)) 0 p (find_body p map))
    with (dummy_hash := hash_xxh64_s) (s := s) (dummy := 0) as [d Hd].
  - intros j x t Hx. rewrite (find_body_at p map g j x) by done. cbn [fst snd]. by rewrite Nat.add_0_r.
  - intros x _. apply hash_xxh64_s_total.
  - by rewrite Nat.add_0_r.
  - exists d. rewrite Hd. do 2 f_equal. rewrite blocks_fold_prefix by done.
    generalize (take (Z.to_nat step_size * (length p / Z.to_nat step_size)) p). intros l.
    revert s Hd. intros s _. revert s.
    induction l as [|x l IH]; intros s; cbn [skip_fold sum_of fst snd]; [lia|]. rewrite IH. lia.
Qed.

(** ** Latency *)

(** What the latency experiment stores. *)
Fixpoint random_map (rand : Z → Z) (g : gmap bytes Z) (i : Z) (data : list bytes) : gmap bytes Z :=
  match data with
  | [] => g
  | k :: data => random_map rand (<[k := Z.rem (rand i) 3]> g) (i + 1) data
  end.

Lemma build_random_ok rand data X : ∀ (map : M) g i,
  sm_models map g → sm_fits X → dom g ∪ list_to_set data ⊆ X →
  ∃ map', build_random rand map i data = Some map' ∧ sm_models map' (random_map rand g i data)
    ∧ dom (random_map rand g i data) ⊆ X.
Proof using.
  induction data as [|k data IH]; intros m g i Hm HX Hd; [exists m; set_solver|].
  cbn [build_random random_map].
  destruct (sm_insert_ok m g k (Z.rem (rand i) 3) Hm) as (m1 & -> & Hm1).
  { eapply sm_fits_subseteq; [|exact HX]. set_solver. }
  cbn [mbind option_bind]. apply (IH m1 _ (i + 1) Hm1 HX). set_solver.
Qed.

Lemma random_map_entry rand data : (∀ i, 0 ≤ rand i) → ∀ g i,
  (∀ x, 0 ≤ entry g x ≤ 2) → ∀ x, 0 ≤ entry (random_map rand g i data) x ≤ 2.
Proof using.
  intros Hr. induction data as [|k data IH]; intros g i Hm x; [apply Hm|]. cbn [random_map].
  apply IH. intros y. unfold entry. destruct (decide (k = y)) as [->|Hne].
  - rewrite lookup_insert_eq. cbn [default from_option id]. pose proof (Z.rem_bound_pos (rand i) 3 (Hr i)). lia.
  - rewrite lookup_insert_ne by done. apply Hm.
Qed.

Lemma warmup_round_spec p (map : M) g s k :
  serves map g p → (∀ x, 0 ≤ entry g x ≤ 2) → Z.of_nat (length p + 2) < 2 ^ 32 → (k ≤ 2)%nat →
  warmup_round p map (s, Z.of_nat k)
  = Some (skip_fold (chase_step g) p k s, Z.of_nat (skip_rest (chase_step g) p k s))
  ∧ (skip_rest (chase_step g) p k s ≤ 2)%nat.
Proof using.
  intros Hm Hent Hp Hk.
  assert (skip_rest (chase_step g) p k s ≤ 2)%nat as Hrest.
  { clear Hm Hp. revert k s Hk. induction p as [|x p IH]; intros k s Hk; cbn [skip_rest]; [done|].
    destruct k; [|by apply IH; lia]. apply IH. cbn [chase_step snd]. pose proof (Hent x). lia. }
  split; [|done]. unfold warmup_round.
  pose proof (inner_while (chase_step g) p (chase_body p map) 2) as Hw.
  specialize (Hw ltac:(intros; by apply (chase_body_at p map g)) (length p) (length p) (length p) 0%nat k s).
  rewrite drop_0, firstn_all in Hw. change (0 + k)%nat with k in Hw. rewrite Hw by lia.
  cbn [mbind option_bind fst snd]. do 2 f_equal.
  rewrite Nat2Z.inj_add, wrap_small by (split; lia). lia.
Qed.

Lemma timed_round_spec p (map : M) g s d :
  serves map g p → (∀ x, 0 ≤ entry g x ≤ 2) → Z.of_nat (length p + 2) < 2 ^ 32 →
  ∃ d', timed_round p map (s, d, 0)
        = Some (blocks_fold (chase_step g) (length p / Z.to_nat step_size) p s, d', 0).
Proof using.
  intros Hm Hent Hp. unfold timed_round.
  destruct (timed_loop_spec (chase_step g) 2 p (chase_body p map)) with
    (dummy_hash := hash_xxh64_s) (s := s) (dummy := d) as [d' Hd]; [|intros; apply hash_xxh64_s_total|done|].
  - intros j x t Hx. by apply (chase_body_at p map g).
  - exists d'. unfold timed_loop in Hd. rewrite Hd. cbn [mbind option_bind fst snd].
    assert (0 ≤ Z.of_nat (length p) / step_size) by (apply Z.div_pos; unfold step_size; lia).
    rewrite Z.max_r, Z.sub_diag by lia. done.
Qed.

(** ** The experiments *)

Context (set_load_factor : bool) (load_factor : spec_float).
Context (Hlf : set_load_factor = true → sm_factor (M := M) load_factor).

Lemma with_load_factor_ok (map : M) g :
  sm_models map g → ∃ map', with_load_factor set_load_factor load_factor map = Some map' ∧ sm_models map' g.
Proof using Hlf.
  intros Hm. unfold with_load_factor. destruct set_load_factor; [|by exists map].
  apply sm_max_load_factor_ok; auto.
Qed.

(** Keys of the data, of the probes and of the table as it was. *)
Definition room (g : gmap bytes Z) (data probes : list bytes) : Prop :=
  sm_fits (M := M) (dom g ∪ list_to_set data ∪ list_to_set probes).

Lemma throughput_models (map : M) g data probes :
  sm_models map g → room g data probes → Z.of_nat (length probes) < 2 ^ 32 →
  ∃ map', bench_hashtable_throughput set_load_factor load_factor map data probes
    = Some (map', sum_of (entry (index_map g 0 data)) probes
        + sum_of (entry (index_map g 0 data)) (take (100 * (length probes / 100)) probes)) ∧
    sm_models map' (index_map g 0 data).
Proof using Hlf.
  intros Hm HX Hp. unfold bench_hashtable_throughput.
  destruct (with_load_factor_ok map g Hm) as (map1 & -> & Hm1). cbn [mbind option_bind].
  destruct (build_index_ok data _ map1 g 0 Hm1 HX ltac:(apply union_subseteq_l)) as (map2 & -> & Hm2).
  cbn [mbind option_bind]. exists map2. split; [|done].
  assert (serves map2 (index_map g 0 data) probes) as Hs.
  { eapply models_serves; [done|exact HX|rewrite index_map_dom; apply union_subseteq_l|apply union_subseteq_r]. }
  rewrite (find_all_sum _ _ _ 0 Hs), Z.add_0_l. cbn [mbind option_bind].
  destruct (throughput_sum probes map2 _ (sum_of (entry (index_map g 0 data)) probes) Hs Hp) as [d ->]. done.
Qed.

(** The throughput experiment on a fresh table that has room completes; the table
    then models the map of each key of the data to the index of its last occurrence, with
    no other key, and the sum returned adds the entries of all probes, from the
    warm-up, and once more those of the probes in whole blocks of 100. *)
Theorem bench_hashtable_throughput_sum (map : M) data probes :
  sm_models map ∅ → room ∅ data probes →
  Z.of_nat (length data) ≤ 2 ^ 31 → Z.of_nat (length probes) < 2 ^ 32 →
  ∃ map' g, bench_hashtable_throughput set_load_factor load_factor map data probes
    = Some (map', sum_of (entry g) probes + sum_of (entry g) (take (100 * (length probes / 100)) probes)) ∧
    sm_models map' g ∧
    ∀ k, match g !! k with
         | Some v => ∃ n, v = Z.of_nat n ∧ data !! n = Some k ∧ ∀ n', (n < n')%nat → data !! n' ≠ Some k
         | None => k ∉ data
         end.
Proof using Hlf.
  intros Hm HX Hd Hp. destruct (throughput_models map ∅ data probes Hm HX Hp) as (map' & Hrun & Hm').
  exists map', (index_map ∅ 0 data). split; [done|]. split; [done|]. intros k.
  rewrite index_map_lookup. destruct (last_index 0 data k) as [v|] eqn:Hv.
  - destruct (last_index_Some data 0 k v ltac:(lia) ltac:(lia) Hv) as (n & -> & Hn & Hl). eauto.
  - rewrite lookup_empty. by apply last_index_None in Hv.
Qed.

Lemma latency_models rand (map : M) g data probes :
  sm_models map g → room g data probes → (∀ i, 0 ≤ rand i) → (∀ x, 0 ≤ entry g x ≤ 2) →
  Z.of_nat (length probes + 2) < 2 ^ 32 →
  let chase := chase_step (random_map rand g 0 data) in
  let blocks := blocks_fold chase (length probes / 100) probes in
  ∃ map', bench_hashtable_latency set_load_factor load_factor rand map data probes
    = Some (map', blocks (blocks (skip_fold chase probes (skip_rest chase probes 0 0)
                                         (skip_fold chase probes 0 0)))) ∧
    sm_models map' (random_map rand g 0 data) ∧ dom (random_map rand g 0 data) ⊆ dom g ∪ list_to_set data.
Proof using Hlf.
  intros Hm HX Hrand Hg Hp chase blocks. unfold bench_hashtable_latency.
  destruct (with_load_factor_ok map g Hm) as (map1 & -> & Hm1). cbn [mbind option_bind].
  pose proof (sm_fits_subseteq _ (dom g ∪ list_to_set data) ltac:(apply union_subseteq_l) HX) as HX'.
  destruct (build_random_ok rand data _ map1 g 0 Hm1 HX' ltac:(done)) as (map2 & -> & Hm2 & Hdom).
  cbn [mbind option_bind]. exists map2. split; [|done].
  assert (serves map2 (random_map rand g 0 data) probes) as Hs.
  { eapply models_serves; [done|exact HX|etrans; [exact Hdom|apply union_subseteq_l]|apply union_subseteq_r]. }
  pose proof (random_map_entry rand data Hrand g 0 Hg) as Hent.
  cbn [for_loop]. change (0, 0) with (0, Z.of_nat 0).
  destruct (warmup_round_spec probes map2 _ 0 0 Hs Hent Hp) as [-> Hk]; [lia|]. cbn [mbind option_bind].
  fold chase in Hk |- *.
  destruct (warmup_round_spec probes map2 _ (skip_fold chase probes 0 0) _ Hs Hent Hp Hk) as [-> _].
  cbn [mbind option_bind fst]. fold chase.
  destruct (timed_round_spec probes map2 _ (skip_fold chase probes (skip_rest chase probes 0 0)
    (skip_fold chase probes 0 0)) 0 Hs Hent Hp) as [d1 Hd1].
  fold chase in Hd1 |- *. rewrite Hd1. cbn [mbind option_bind].
  destruct (timed_round_spec probes map2 _ (blocks_fold chase (length probes / Z.to_nat step_size) probes
    (skip_fold chase probes (skip_rest chase probes 0 0) (skip_fold chase probes 0 0))) d1 Hs Hent Hp) as [d2 Hd2].
  fold chase in Hd2. rewrite Hd2. done.
Qed.

(** The latency experiment terminates on every data and probes a fresh table has
    room for: although each lookup moves the index by the value it finds, no probe
    outside the vector is read, and the sum returned is that of the probes reached in
    two warm-up rounds, the second starting where the first one overshot, and in two
    timed rounds. *)
Theorem bench_hashtable_latency_sum rand (map : M) data probes :
  sm_models map ∅ → room ∅ data probes → (∀ i, 0 ≤ rand i) → Z.of_nat (length probes + 2) < 2 ^ 32 →
  let chase := chase_step (random_map rand ∅ 0 data) in
  let blocks := blocks_fold chase (length probes / 100) probes in
  ∃ map', bench_hashtable_latency set_load_factor load_factor rand map data probes
    = Some (map', blocks (blocks (skip_fold chase probes (skip_rest chase probes 0 0)
                                         (skip_fold chase probes 0 0)))) ∧
    sm_models map' (random_map rand ∅ 0 data).
Proof using Hlf.
  intros Hm HX Hrand Hp chase blocks.
  destruct (latency_models rand map ∅ data probes Hm HX Hrand) as (map' & Hrun & Hm' & _); [|done|].
  - intros x. unfold entry. rewrite lookup_empty. cbn. lia.
  - by exists map'.
Qed.

(** Both experiments in turn; the second finds the values of the first overwritten. *)
Lemma bench_hashtable_models latency throughput rand (map : M) data probes :
  sm_models map ∅ → room ∅ data probes → (∀ i, 0 ≤ rand i) → Z.of_nat (length probes + 2) < 2 ^ 32 →
  ∃ map' g, bench_hashtable set_load_factor load_factor latency throughput rand map data probes = Some map' ∧
    sm_models map' g ∧ dom g ⊆ list_to_set data ∧
    (throughput = true → ∀ k, g !! k = last_index 0 data k).
Proof using Hlf.
  intros Hm HX Hrand Hp. unfold bench_hashtable.
  assert (∃ map1 g1, (if latency then r ← bench_hashtable_latency set_load_factor load_factor rand map data probes;
      Some r.1 else Some map) = Some map1 ∧ sm_models map1 g1 ∧ dom g1 ⊆ list_to_set data) as (map1 & g1 & -> & Hm1 & Hd1).
  { destruct latency; [|exists map, ∅; split; [done|split; [done|set_solver]]].
    destruct (latency_models rand map ∅ data probes Hm HX Hrand) as (map' & -> & Hm' & Hd); [|done|].
    - intros x. unfold entry. rewrite lookup_empty. cbn. lia.
    - do 2 eexists. split; [done|]. split; [done|]. set_solver. }
  cbn [mbind option_bind]. destruct throughput; [|by exists map1, g1].
  destruct (throughput_models map1 g1 data probes Hm1) as (map2 & -> & Hm2); [|lia|].
  { eapply sm_fits_subseteq; [|exact HX]. set_solver. }
  cbn [mbind option_bind fst]. do 2 eexists. split; [done|]. split; [done|]. split.
  - rewrite index_map_dom. set_solver.
  - intros _ k. rewrite index_map_lookup. destruct (last_index 0 data k) eqn:Hl; [done|].
    apply not_elem_of_dom. intros Hk%Hd1%elem_of_list_to_set. by apply last_index_None in Hl.
Qed.
(** A block of a benchmark, on a table that is new: where the lines and the probes fit. *)
Lemma bench_table_ok latency throughput rand (map : M) data probes :
  sm_models map ∅ → sm_fits (list_to_set (data ++ probes)) → (∀ i, 0 ≤ rand i) → Z.of_nat (length probes + 2) < 2 ^ 32 →
  ∃ map', bench_hashtable set_load_factor load_factor latency throughput rand map data probes = Some map' ∧
    (throughput = true → ∀ k, k ∈ data ++ probes → sm_find map' k = Some (last_index 0 data k)).
Proof using Hlf.
  intros Hm Hfits Hrand Hp.
  destruct (bench_hashtable_models latency throughput rand map data probes) as (m & g & -> & Hm' & Hg & Hlast); [done| |done|done|].
  { unfold room. eapply sm_fits_subseteq; [|exact Hfits]. rewrite list_to_set_app. set_solver. }
  exists m. split; [done|]. intros Ht k Hk. rewrite <-(Hlast Ht k). apply sm_find_ok; [done|].
  eapply sm_fits_subseteq; [|exact Hfits]. rewrite list_to_set_app. rewrite elem_of_app in Hk. set_solver.
Qed.
End properties.

(** C18: A block of [bench_robin_table] is defined for every hash functor that is defined on
    the keys and does not crowd them, with any load factor: no [at], rehash or
    wrapped distance of the robin-hood table gets in the way of the client. With the
    throughput metric the table ends as the map from each key of the data to its last index. *)
Theorem bench_robin_table_ok hash entry_has_room vector_max_size set_load_factor load_factor
    latency throughput rand data probes D :
  2 ^ 40 ≤ Z.min (gp_max_bucket_count (G := power_of_two_growth_policy)) vector_max_size →
  (set_load_factor = true → valid_binary 24 128 load_factor = true) →
  crowd (G := power_of_two_growth_policy) hash (list_to_set (data ++ probes)) D →
  (∀ i, 0 ≤ rand i) → Z.of_nat (length data) ≤ 2 ^ 31 → Z.of_nat (length probes + 2) < 2 ^ 32 →
  ∃ m, bench_robin hash entry_has_room vector_max_size set_load_factor load_factor latency throughput
      rand data probes = Some m ∧
    (throughput = true → ∀ k, k ∈ data ++ probes → sm_find m k = Some (last_index 0 data k)).
Proof.
  intros Hvec Hlf HX Hrand Hd Hp.
  set (laws := robin_string_map_laws hash entry_has_room vector_max_size Hvec).
  assert (sm_fits (StringMapLaws := laws) (list_to_set (data ++ probes))) as Hfits by by exists D.
  destruct (robin_map_new_ok hash entry_has_room vector_max_size Hvec (Z.of_nat (length data)))
    as (m0 & Hnew & Hm0); [lia|].
  unfold bench_robin. rewrite Hnew. cbn [mbind option_bind].
  by apply (bench_table_ok (L := laws) set_load_factor load_factor Hlf).
Qed.

(** ** Instances: an association list for the table *)

Lemma assoc_models_empty : sm_models ([] : assoc_map) ∅.
Proof. intros k. by rewrite lookup_empty. Qed.

Lemma bench_hashtable_throughput_sum_witness :
  ∃ map s, bench_hashtable_throughput false S754_nan ([] : assoc_map) [[x61]; [x62]; [x61]] [[x61]; [x63]]
    = Some (map, s) ∧ sm_find map [x63] = Some None.
Proof.
  destruct (bench_hashtable_throughput_sum (L := assoc_string_map_laws) false S754_nan ltac:(done) []
    [[x61]; [x62]; [x61]] [[x61]; [x63]]) as (map & g & Hrun & Hm & Hfind).
  - apply assoc_models_empty.
  - exact I.
  - cbn. lia.
  - cbn. lia.
  - exists map. eexists. split; [exact Hrun|]. specialize (Hfind [x63]). cbn. rewrite (Hm [x63]).
    destruct (g !! [x63]) as [v|]; [|reflexivity].
    destruct Hfind as (n & _ & Hn & _). exfalso. by destruct n as [|[|[|n]]].
Defined.

Lemma bench_hashtable_latency_sum_witness :
  ∃ map s, bench_hashtable_latency true (f32_lit 75 2) (λ i, Z.abs i + 1) ([] : assoc_map) [[x61]; [x62]]
    [[x61]; [x63]; [x62]] = Some (map, s).
Proof.
  destruct (bench_hashtable_latency_sum (L := assoc_string_map_laws) true (f32_lit 75 2) (λ _, I) (λ i, Z.abs i + 1) []
    [[x61]; [x62]] [[x61]; [x63]; [x62]]) as (map & Hrun & _).
  - apply assoc_models_empty.
  - exact I.
  - intros i. lia.
  - cbn. lia.
  - eexists. eexists. exact Hrun.
Defined.

(** A robin-hood table with the length of the key as its hash. *)
Lemma bench_robin_table_ok_witness :
  ∃ m, bench_robin demo_hash false (2 ^ 56) true (f32_lit 75 2) true true (λ i, Z.abs i)
      [[x61]; [x62]; [x61]] [[x62]; [x63]] = Some m ∧ sm_find m [x61] = Some (Some 2).
Proof.
  destruct (bench_robin_table_ok demo_hash false (2 ^ 56) true (f32_lit 75 2) true true (λ i, Z.abs i)
    [[x61]; [x62]; [x61]] [[x62]; [x63]] 4094) as (m & Hrun & Hfind).
  - vm_compute. discriminate.
  - intros _. vm_compute. reflexivity.
  - split; [|apply RobinProbe.spread_small; vm_compute; discriminate|unfold DIST_FROM_IDEAL_BUCKET_LIMIT; lia|vm_compute; reflexivity].
    intros k Hk%elem_of_list_to_set. exists (Z.of_nat (length k)). split; [done|]. cbn in Hk.
    repeat (apply elem_of_cons in Hk as [->|Hk]; [done|]). by apply elem_of_nil in Hk.
  - intros i. lia.
  - cbn. lia.
  - cbn. lia.
  - exists m. split; [exact Hrun|]. rewrite (Hfind eq_refl [x61]); [reflexivity|by left].
Defined.
