(* ===== verification/BenchGoogle.v ===== *)
(** * The benchmark of Google's dense hash map (src/benchmark_tables.cpp, lines 678-688)

    [google::dense_hash_map<std::string, int, Hash>] as a table of the clients, and
    [bench_google_table]: the literal that is set as its empty key, a NUL character, is the
    empty string, so that the data and the probes must have no empty lines. *)
From stdpp Require Import gmap.
From S2P Require Import Prelude Words Floats HashFns FiniteMaps DenseTable DenseProbe DenseInv DenseMap DenseManage DenseLimits StringMap BenchTables.

Record dense_hash_map {hash : bytes → option Z} {NDEBUG : bool} {max_size : Z} := DenseHashMap {
  dhm_table : dense_hashtable bytes Z
}.
Arguments dense_hash_map : clear implicits.
Arguments DenseHashMap {hash NDEBUG max_size}.

(** [std::string("\0")], which ends at its first character *)
Definition empty_key : bytes := [].

Section dense_map.
Context (hash : bytes → option Z) (NDEBUG : bool) (max_size : Z).
Abbreviation map := (dense_hash_map hash NDEBUG max_size).

#[export] Instance dense_string_map : StringMap map := {
  sm_max_load_factor m f := t ← dense_max_load_factor NDEBUG (dhm_table m) f; Some (DenseHashMap t);
  sm_insert m k v := t ← dense_subscript_assign hash NDEBUG 0 max_size (dhm_table m) k v; Some (DenseHashMap t);
  sm_find m k := dense_find_value hash NDEBUG (dhm_table m) k
}.

(** [map_std(data.size()); map_std.set_empty_key("\0");] *)
Definition dense_map_new (n : Z) : option map :=
  t ← dense_new [] 0 n; t ← set_empty_key NDEBUG 0 t empty_key; Some (DenseHashMap t).

Definition bench_google (set_load_factor : bool) (load_factor : spec_float) (metric_latency metric_throughput : bool)
    (rand : Z → Z) (data probes : list bytes) : option map :=
  m ← dense_map_new (Z.of_nat (length data));
  bench_hashtable set_load_factor load_factor metric_latency metric_throughput rand m data probes.

Context (Hmax : 2 ^ 40 ≤ max_size).

Definition storable (X : gset bytes) : Prop :=
  (∀ k, k ∈ X → k ≠ empty_key ∧ dhashable hash k) ∧ Z.of_nat (size X) < 2 ^ 33.

Lemma storable_usable (X : gset bytes) k : storable X → k ∈ X → usable_key hash empty_key None k.
Proof using. intros [HX _] Hk. destruct (HX k Hk). by split. Qed.

Lemma storable_room (X : gset bytes) (g : gmap bytes Z) : storable X → dom g ⊆ X → Z.of_nat (size g) + 1 < 2 ^ 34.
Proof using. intros [_ Hs] Hg. pose proof (size_dom_bound g X Hg). lia. Qed.

#[export, refine] Instance dense_string_map_laws : StringMapLaws map := {
  sm_models m g := dense_models hash empty_key None (dhm_table m) g;
  sm_fits := storable;
  sm_factor f := grow_factor_ok f = true
}.
Proof using Hmax.
  - intros X Y HYX [HX Hs]. split; [intros k Hk; by apply HX, HYX|]. pose proof (subseteq_size _ _ HYX). lia.
  - intros m g f Hm Hf. destruct (dense_max_load_models hash NDEBUG empty_key None (dhm_table m) g f Hm Hf) as (t & Ht & Hm').
    cbn. rewrite Ht. by exists (DenseHashMap t).
  - intros m g k v Hm HX.
    destruct (dense_subscript_models hash NDEBUG 0 max_size Hmax empty_key None (dhm_table m) g k v Hm) as (t & Ht & Hm').
    { eapply storable_usable; [done|set_solver]. } { eapply storable_room; [done|set_solver]. }
    cbn. rewrite Ht. by exists (DenseHashMap t).
  - intros m g k Hm [HX _]. apply (dense_find_value_models hash NDEBUG empty_key None); [done|]. apply HX. set_solver.
Defined.

Lemma dense_map_new_ok n : 0 ≤ n ≤ 2 ^ 34 → ∃ m : map, dense_map_new n = Some m ∧ sm_models m ∅.
Proof using.
  intros Hn. destruct (dense_new_models hash NDEBUG [] 0 n empty_key Hn) as (t & t' & Ht & Ht' & Hm).
  exists (DenseHashMap t'). split; [|done]. unfold dense_map_new. rewrite Ht. cbn [mbind option_bind]. by rewrite Ht'.
Qed.
End dense_map.

(** With the asserts, storing stops at the first empty line. *)
Lemma build_index_empty_line hash max_size data : ∀ (m : dense_hash_map hash false max_size) g i,
  2 ^ 40 ≤ max_size → dense_models hash empty_key None (dhm_table m) g → (∀ k, k ∈ data → dhashable hash k) →
  Z.of_nat (size g) + Z.of_nat (length data) + 1 < 2 ^ 34 → empty_key ∈ data → build_index m i data = None.
Proof.
  induction data as [|k data IH]; intros m g i Hmax Hm Hh Hsz Hin; [by apply elem_of_nil in Hin|]. cbn [build_index length] in *.
  destruct (decide (k = empty_key)) as [->|Hne].
  - cbn. unfold dense_subscript_assign, find_or_insert. by rewrite (assert_empty_key hash empty_key None _ g Hm).
  - destruct (dense_subscript_models hash false 0 max_size Hmax empty_key None (dhm_table m) g k (to_i32 i) Hm) as (t & Ht & Hm');
      [split; [done|split; [done|apply Hh; by left]]|lia|].
    cbn. rewrite Ht. cbn [mbind option_bind]. apply (IH _ (<[k := to_i32 i]> g)); [done|exact Hm'|intros; apply Hh; by right| |].
    + rewrite map_size_insert. destruct (g !! k); cbn [id]; lia.
    + apply elem_of_cons in Hin as [|]; congruence.
Qed.

(** C19: [bench_google_table] on data and probes without empty lines is defined, fails no
    assert and, with the throughput metric, ends with the map from each line of the data
    to its last index, whatever [std::hash] is, for at most 2^31 lines and, where the load factor is set, one from 1/4
    up to but not including 1 (a larger one fails an assert, and with 1 the table can fill up);
    with the asserts on, an empty line in the data stops its throughput experiment. *)
Theorem bench_google_table_ok NDEBUG max_size set_load_factor load_factor latency throughput rand data probes :
  2 ^ 40 ≤ max_size → (set_load_factor = true → grow_factor_ok load_factor = true) →
  (∀ i, 0 ≤ rand i) → Z.of_nat (length data) ≤ 2 ^ 31 → Z.of_nat (length probes + 2) < 2 ^ 32 →
  ∀ std_hash, let hash := hash_standard_s std_hash in
  ((empty_key ∉ data ++ probes) →
    ∃ m, bench_google hash NDEBUG max_size set_load_factor load_factor latency throughput rand data probes = Some m ∧
      (throughput = true → ∀ k, k ∈ data ++ probes → sm_find m k = Some (last_index 0 data k))) ∧
  (empty_key ∈ data → bench_google hash false max_size set_load_factor load_factor false true rand data probes = None).
Proof.
  intros Hmax Hlf Hrand Hd Hp std_hash hash.
  assert (∀ k, dhashable hash k) as Hh by (intros k; exists (u64 (std_hash k)); split; [done|by apply fits_wrap]).
  split.
  - intros Hne. set (laws := dense_string_map_laws hash NDEBUG max_size Hmax).
    assert (storable hash (list_to_set (data ++ probes))) as Hfits.
    { split; [intros k Hk%elem_of_list_to_set; split; [congruence|done]|].
      pose proof (list_to_set_size (data ++ probes)) as Hsz. rewrite length_app in Hsz. lia. }
    destruct (dense_map_new_ok hash NDEBUG max_size Hmax (Z.of_nat (length data))) as (m0 & Hnew & Hm0); [lia|].
    unfold bench_google. rewrite Hnew. cbn [mbind option_bind].
    by apply (bench_table_ok (L := laws) set_load_factor load_factor Hlf).
  - intros Hin. destruct (dense_map_new_ok hash false max_size Hmax (Z.of_nat (length data))) as (m0 & Hnew & Hm0); [lia|].
    unfold bench_google. rewrite Hnew. cbn [mbind option_bind]. unfold bench_hashtable, bench_hashtable_throughput.
    cbn [mbind option_bind].
    destruct (with_load_factor_ok (L := dense_string_map_laws hash false max_size Hmax) set_load_factor load_factor Hlf m0 ∅ Hm0)
      as (m1 & -> & Hm1). cbn [mbind option_bind].
    rewrite (build_index_empty_line hash max_size data m1 ∅ 0); [done|done|exact Hm1|done| |done].
    rewrite map_size_empty. lia.
Qed.

(** A hash that is the length of the key. *)
Lemma bench_google_table_ok_witness :
  ∃ m, bench_google (hash_standard_s (λ k, Z.of_nat (length k))) false (2 ^ 60) true (f32_lit 75 2) true true (λ i, Z.abs i)
      [[x61]; [x62]; [x61]] [[x62]; [x63]] = Some m ∧ sm_find m [x61] = Some (Some 2).
Proof.
  destruct (bench_google_table_ok false (2 ^ 60) true (f32_lit 75 2) true true (λ i, Z.abs i) [[x61]; [x62]; [x61]] [[x62]; [x63]]
    ltac:(lia) ltac:(intros _; vm_compute; reflexivity) ltac:(intros i; lia) ltac:(cbn; lia) ltac:(cbn; lia)
    (λ k, Z.of_nat (length k))) as [(m & Hrun & Hfind) _].
  - intros Hin. cbn [app] in Hin. repeat (apply elem_of_cons in Hin as [Hin|Hin]; [done|]). by apply elem_of_nil in Hin.
  - exists m. split; [exact Hrun|]. rewrite (Hfind eq_refl [x61]); [reflexivity|by left].
Defined.
