(* ===== verification/BenchSwiss.v ===== *)
(** * The benchmark of Abseil's flat hash map (src/benchmark_tables.cpp, lines 776-935)

    [absl::flat_hash_map<std::string, int, Hash>] as a table of the clients, with the state
    of the platform its operations change, and a block of [bench_swiss_table]. *)
From stdpp Require Import gmap strings.
From S2P Require Import Prelude Words Floats Crc32Hash SmallHashes HashFns BenchSelect FiniteMaps DenseLimits SwissGroup SwissPortable SwissTable SwissInv SwissInsert SwissErase SwissManage StringMap BenchTables.

Record flat_hash_map {G : Group} {hash : bytes → option Z} {NDEBUG : bool} {p : platform} := FlatHashMap {
  fhm_table : raw_hash_set bytes Z;
  fhm_world : world
}.
Arguments flat_hash_map : clear implicits.
Arguments FlatHashMap {G hash NDEBUG p}.

Section flat_map.
Context (G : Group) (hash : bytes → option Z) (NDEBUG : bool) (p : platform).
Abbreviation map := (flat_hash_map G hash NDEBUG p).

(** [max_load_factor(float)] does nothing. *)
#[export] Instance flat_string_map : StringMap map := {
  sm_max_load_factor m _ := Some m;
  sm_insert m k v :=
    '(t, w) ← swiss_subscript_assign hash NDEBUG p 0 (fhm_table m) k v (fhm_world m); Some (FlatHashMap t w);
  sm_find m k := swiss_find_value hash NDEBUG (fhm_table m) k
}.

(** [absl::flat_hash_map<std::string, int, Hash> map(data.size())] *)
Definition flat_map_new (n : Z) (w : world) : option map :=
  '(t, w) ← swiss_new_count NDEBUG p n w; Some (FlatHashMap t w).

Definition bench_flat (set_load_factor : bool) (load_factor : spec_float) (metric_latency metric_throughput : bool)
    (rand : Z → Z) (w : world) (data probes : list bytes) : option map :=
  m ← flat_map_new (Z.of_nat (length data)) w;
  bench_hashtable set_load_factor load_factor metric_latency metric_throughput rand m data probes.

Context (L : GroupLaws G).

Definition flat_storable (X : gset bytes) : Prop := (∀ k, k ∈ X → is_Some (hash k)) ∧ Z.of_nat (size X) < 2 ^ 40.

Lemma flat_storable_key (X : gset bytes) k : flat_storable X → k ∈ X → is_Some (hash k).
Proof using. intros [HX _]. by apply HX. Qed.

Lemma flat_storable_size (X : gset bytes) (g : gmap bytes Z) : flat_storable X → dom g ⊆ X → Z.of_nat (size g) < 2 ^ 40.
Proof using. intros [_ Hs] Hg. pose proof (size_dom_bound g X Hg). lia. Qed.

#[export, refine] Instance flat_string_map_laws : StringMapLaws map := {
  sm_models m g := swiss_models hash (fhm_table m) g;
  sm_fits := flat_storable;
  sm_factor _ := True
}.
Proof using L.
  - intros X Y HYX [HX Hs]. split; [intros k Hk; by apply HX, HYX|]. pose proof (subseteq_size _ _ HYX). lia.
  - intros m g f Hm _. by exists m.
  - intros m g k v Hm HX. destruct (flat_storable_key _ k HX) as [h Hh]; [set_solver|].
    destruct (swiss_subscript_models hash NDEBUG p 0 (fhm_table m) g k v (fhm_world m) h Hm Hh) as (t & w & Ht & Hm').
    { eapply flat_storable_size; [done|set_solver]. }
    cbn. rewrite Ht. by exists (FlatHashMap t w).
  - intros m g k Hm HX. destruct (flat_storable_key _ k HX) as [h Hh]; [set_solver|]. by apply (swiss_find_value_models hash NDEBUG _ _ _ h).
Defined.

Lemma flat_map_new_ok n w : 0 ≤ n < 2 ^ 48 → ∃ m : map, flat_map_new n w = Some m ∧ sm_models m ∅.
Proof using.
  intros Hn. destruct (swiss_new_count_models (K := bytes) (V := Z) hash NDEBUG p n w Hn) as (t & w' & Ht & Hm & _).
  exists (FlatHashMap t w'). split; [|done]. unfold flat_map_new. by rewrite Ht.
Qed.
End flat_map.

(** ** The functors that [bench_swiss_table] picks *)
Section runs.
Context `{C : Crc32} (std_hash default_hash : bytes → Z) (log2 : spec_float → spec_float).

(** Every functor but those of the other chunk sizes and the hardcoded one *)
Definition swiss_plain (fn : hash_fn) : bool :=
  match fn with Hwyhash_hardcode | Hsub4_mmh2 | Hsub1_sdbm => false | _ => true end.

(** A line that the benchmark may hash *)
Definition swiss_key_ok (env : bench_env) (key : bytes) : Prop := key_ok env key ∧ Z.of_nat (length key) < 2 ^ 31.

Definition swiss_run_hash (r : bench_run) : bytes → option Z := run_hash std_hash default_hash (run_fn r) (run_locations r).

Definition swiss_sub8_names : list string := ["xxh3_sub8"; "wyhash_sub8"; "crc_wyhash_sub8"]%string.

Lemma swiss_full_defined env label fn r :
  fn ∈ [Hdefault; Hstandard; Hxxh64; Hwyhash; Hcrc32; Hmmh2; Hsdbm] → full label fn = Some r →
  ∀ key, swiss_key_ok env key → is_Some (swiss_run_hash r key).
Proof using.
  intros Hfn Hr key [Hkey Hlen]. unfold swiss_run_hash.
  change [Hdefault; Hstandard; Hxxh64; Hwyhash; Hcrc32; Hmmh2; Hsdbm] with ([Hdefault; Hstandard; Hxxh64; Hwyhash; Hcrc32] ++ [Hmmh2; Hsdbm]) in Hfn.
  apply elem_of_app in Hfn as [Hfn|Hfn]; [by eapply full_defined|]. injection Hr as <-. cbn [run_fn run_locations].
  rewrite !elem_of_cons in Hfn. destruct Hfn as [->|[->|Hfn]]; [..|by apply elem_of_nil in Hfn]; cbn [run_hash].
  - destruct (mmh2_copies_ok key Hlen) as (h & -> & _). by exists h.
  - rewrite hash_sdbm_s_eq. by eexists.
Qed.

Lemma swiss_run_defined env runs r :
  locations_ok env →
  (∀ name, name ∈ swiss_sub8_names → hashfuncs env name = true → 1 ≤ numLocationsForChunkSize true 4 env (needed_swiss log2 env) 8) →
  bench_swiss_table log2 env = Some runs → r ∈ runs → swiss_plain (run_fn r) = true →
  ∀ key, swiss_key_ok env key → is_Some (swiss_run_hash r key).
Proof using.
  intros Hok Hsub. unfold bench_swiss_table. revert runs r.
  repeat (refine (when_defined _ _ _ _ (λ r, swiss_plain (run_fn r) = true → ∀ key, swiss_key_ok env key → is_Some (swiss_run_hash r key)) _ _);
    [intros r Hname Hr Hf|]).
  1-7: by eapply swiss_full_defined; [|exact Hr]; set_solver.
  1-3: intros key [Hkey _]; (eapply sub8_four_defined; [done| |exact Hr|done]); eapply Hsub; [|done]; set_solver.
  - by injection Hr as <-.
  - unfold sub_other in Hr. by apply bind_Some in Hr as (hl & _ & [= <-]).
  - unfold sub_other in Hr. by apply bind_Some in Hr as (hl & _ & [= <-]).
  - intros runs r [= <-] Hr. by apply elem_of_nil in Hr.
Qed.
End runs.

(** C9: Every run of [bench_swiss_table] with a full-key or an 8-byte functor is defined:
    the functor it picks hashes every line and probe inside its bounds, no assert of the
    flat hash map fails and every probe of it ends, whichever groups, addresses, fresh
    memory and seeds the platform has; with the throughput metric it ends with the map
    from each line to its last index. A functor of 8-byte words needs a location. *)
Theorem bench_swiss_table_ok `{C : Crc32} `{L : GroupLaws} std_hash default_hash log2 env runs r NDEBUG p
    set_load_factor load_factor latency throughput rand w data probes :
  locations_ok env →
  (∀ name, name ∈ swiss_sub8_names → hashfuncs env name = true → 1 ≤ numLocationsForChunkSize true 4 env (needed_swiss log2 env) 8) →
  bench_swiss_table log2 env = Some runs → r ∈ runs → swiss_plain (run_fn r) = true →
  (∀ k, k ∈ data ++ probes → swiss_key_ok env k) → (∀ i, 0 ≤ rand i) →
  Z.of_nat (length data) ≤ 2 ^ 31 → Z.of_nat (length probes + 2) < 2 ^ 32 →
  ∃ m, bench_flat G (swiss_run_hash std_hash default_hash r) NDEBUG p set_load_factor load_factor latency throughput rand w data probes = Some m ∧
    (throughput = true → ∀ k, k ∈ data ++ probes → sm_find m k = Some (last_index 0 data k)).
Proof.
  intros Hloc Hsub Hruns Hr Hplain Hkeys Hrand Hd Hp. set (hash := swiss_run_hash std_hash default_hash r).
  set (laws := flat_string_map_laws G hash NDEBUG p L).
  destruct (flat_map_new_ok G hash NDEBUG p L (Z.of_nat (length data)) w) as (m0 & Hnew & Hm0); [lia|].
  unfold bench_flat. rewrite Hnew. cbn [mbind option_bind].
  apply (bench_table_ok (L := laws) set_load_factor load_factor (λ _, I)); [done| |done|done].
  split; [|pose proof (list_to_set_size (data ++ probes)) as Hsz; rewrite length_app in Hsz; lia].
  intros k Hk%elem_of_list_to_set. by apply (swiss_run_defined std_hash default_hash log2 env runs r), Hkeys.
Qed.

(** A single location that has not enough entropy is not used at all: the number of locations
    starts from one less than there are, and 0 is taken as four, so that the functor of four
    words reads an empty vector. *)
Theorem bench_swiss_single_location `{C : Crc32} std_hash default_hash log2 env e runs :
  entropies_of env !! 8 = Some [e] → SFltb (needed_swiss log2 env) e = false →
  hashfuncs env "xxh3_sub8" = true → bench_swiss_table log2 env = Some runs →
  ∃ r, r ∈ runs ∧ run_label r = "swiss_xxh3_sub8"%string ∧ run_locations r = [] ∧ ∀ key, swiss_run_hash std_hash default_hash r key = None.
Proof.
  intros Hents Hnone Hname. unfold bench_swiss_table.
  assert (numLocationsForChunkSize true 4 env (needed_swiss log2 env) 8 = 0) as Hn.
  { unfold numLocationsForChunkSize. rewrite Hents. unfold num_locations. cbn [first_above]. by rewrite Hnone. }
  rewrite Hn. intros H. do 7 (apply when_rest in H as (? & H & Hsub); revert Hsub).
  apply when_head in H as (r & Hr & Hin); [|done]. intros.
  unfold sub8, hash_locations in Hr. rewrite (proj2 (Z.leb_le 0 (Z.of_nat _))) in Hr by lia. injection Hr as <-.
  eexists. split; [eauto 12|]. split; [done|]. split; [done|]. intros key. unfold swiss_run_hash. by destruct (dataIsFixedLength env).
Qed.

(** Two locations, the first of which has enough entropy, and lines of sixteen bytes. *)
Definition demo_swiss_env : bench_env := demo_env "wyhash_sub8" [f64_of_Z 2; f64_of_Z 3].

Definition demo_swiss_lines : list bytes := [replicate 16 x61; replicate 16 x62; replicate 16 x61].

Definition demo_swiss_platform : platform := Platform (λ i, i * 4096) (λ i, - (i `mod` 128)) 8192 64.

Lemma bench_swiss_table_ok_witness :
  ∃ runs r m, bench_swiss_table libm_one demo_swiss_env = Some runs ∧ r ∈ runs ∧
    bench_flat (GroupSse2Impl true) (swiss_run_hash (C := crc32c) (λ _, 0) (λ _, 0) r) false demo_swiss_platform false S754_nan true true (λ i, Z.abs i)
      (World 0 0) demo_swiss_lines [replicate 16 x63] = Some m ∧ sm_find m (replicate 16 x61) = Some (Some 2).
Proof.
  do 2 eexists.
  match goal with |- ∃ m, _ = Some ?runs ∧ ?r ∈ _ ∧ _ =>
    destruct (bench_swiss_table_ok (C := crc32c) (L := GroupSse2Laws true) (λ _, 0) (λ _, 0) libm_one demo_swiss_env runs r false
      demo_swiss_platform false S754_nan true true (λ i, Z.abs i) (World 0 0) demo_swiss_lines [replicate 16 x63]) as (m & Hm & Hfind)
  end.
  - vm_decide.
  - intros name _ _. by vm_compute.
  - vm_compute. reflexivity.
  - apply list_elem_of_here.
  - reflexivity.
  - apply Forall_forall. repeat (apply Forall_cons; split; [split; [vm_decide|by vm_compute]|]). by apply Forall_nil.
  - intros i. lia.
  - by vm_compute.
  - by vm_compute.
  - exists m. split; [vm_compute; reflexivity|]. split; [apply list_elem_of_here|]. split; [exact Hm|].
    rewrite (Hfind eq_refl (replicate 16 x61)); [reflexivity|by left].
Defined.
