(* ===== verification/BenchMt.v ===== *)
(** * The multi-threaded table benchmark (src/benchmark_tables_mt.cpp, lines 35-224)

    [bench_hashtable_mt] spawns its workers, and switches the flags [warmup] and
    [running] while they go through two spin barriers. A state is the shared
    variables, the program point of every worker and that of the main thread; one step
    is one access of one thread to a shared variable. The table is only read. *)
From stdpp Require Import gmap.
From S2P Require Import Prelude Words StringMap BenchFilters BenchTables.

(** Where a worker is; [AtCas] holds the local [copy] of [count_down]. *)
Inductive worker_pc :=
  | ALoad | ACas (copy : Z) | AWait
  | Warm
  | BLoad | BCas (copy : Z) | BWait
  | Run
  | Done.

Record worker := Worker { w_pc : worker_pc; w_s : Z }.

(** Where the main thread is: spawning, at its four assignments to the flags, joining. *)
Inductive main_pc :=
  | Spawn
  | WarmupOn | WarmupOff
  | RunningOn | RunningOff
  | Join (i : nat)
  | Finished (num_iters : Z).

Record mt_state := MtState {
  barrier_a : Z;
  barrier_b : Z;
  warmup : bool;
  running : bool;
  thread_num_iters : list Z;
  workers : list worker;
  main : main_pc
}.

Section steps.
Context {M : Type} `{StringMap M}.
Context (map : M) (probeList : list (list bytes)).

(** One pass over the probes of a worker. *)
Definition pass (i : nat) (s : Z) : option Z :=
  let p := default [] (probeList !! i) in
  for_loop (length p) 0 (λ j s, r ← find_body p map j s; Some r.1) s.

Definition set_worker (st : mt_state) (i : nat) (pc : worker_pc) (s : Z) : mt_state :=
  MtState (barrier_a st) (barrier_b st) (warmup st) (running st) (thread_num_iters st)
    (<[i := Worker pc s]> (workers st)) (main st).

Definition set_a (st : mt_state) (n : Z) : mt_state :=
  MtState n (barrier_b st) (warmup st) (running st) (thread_num_iters st) (workers st) (main st).
Definition set_b (st : mt_state) (n : Z) : mt_state :=
  MtState (barrier_a st) n (warmup st) (running st) (thread_num_iters st) (workers st) (main st).
Definition set_main (st : mt_state) (w r : bool) (pc : main_pc) : mt_state :=
  MtState (barrier_a st) (barrier_b st) w r (thread_num_iters st) (workers st) pc.

(** [thread_num_iters[thread_id]++] *)
Definition count_iter (st : mt_state) (i : nat) : mt_state :=
  MtState (barrier_a st) (barrier_b st) (warmup st) (running st)
    (alter (λ n, u64 (n + 1)) i (thread_num_iters st)) (workers st) (main st).

(** [bench_hashtable_throughput_mt] in thread [i]. What [benchmark_mt], in which it runs, does
    after the timed loop is in the step to [Done]: it prints and records the result, under a
    mutex whose holder never waits (Timings.v). *)
Definition worker_step (st : mt_state) (i : nat) : option mt_state :=
  w ← workers st !! i;
  let s := w_s w in
  match w_pc w with
  | ALoad => Some (set_worker st i (ACas (barrier_a st)) s)
  | ACas copy =>
      if barrier_a st =? copy
      then Some (set_worker (set_a st (u64 (copy - 1))) i AWait s)
      else Some (set_worker st i ALoad s)
  | AWait => if 0 <? barrier_a st then Some st else Some (set_worker st i Warm s)
  | Warm => if warmup st then s ← pass i s; Some (set_worker st i Warm s) else Some (set_worker st i BLoad s)
  | BLoad => Some (set_worker st i (BCas (barrier_b st)) s)
  | BCas copy =>
      if barrier_b st =? copy
      then Some (set_worker (set_b st (u64 (copy - 1))) i BWait s)
      else Some (set_worker st i BLoad s)
  | BWait => if 0 <? barrier_b st then Some st else Some (set_worker st i Run s)
  | Run =>
      if running st then s ← pass i s; Some (set_worker (count_iter st i) i Run s)
      else Some (set_worker st i Done s)
  | Done => None
  end.

(** [bench_hashtable_mt] from the first [std::thread] on. *)
Definition main_step (num_threads : nat) (st : mt_state) : option mt_state :=
  match main st with
  | Spawn =>
      if decide (length (workers st) < num_threads)%nat
      then Some (MtState (barrier_a st) (barrier_b st) (warmup st) (running st) (thread_num_iters st)
                   (workers st ++ [Worker ALoad 0]) Spawn)
      else Some (set_main st (warmup st) (running st) WarmupOn)
  | WarmupOn => Some (set_main st true (running st) WarmupOff)
  | WarmupOff => Some (set_main st false (running st) RunningOn)
  | RunningOn => Some (set_main st (warmup st) true RunningOff)
  | RunningOff => Some (set_main st (warmup st) false (Join 0))
  | Join i =>
      if decide (i < num_threads)%nat
      then w ← workers st !! i;
           match w_pc w with Done => Some (set_main st (warmup st) (running st) (Join (S i))) | _ => None end
      else Some (set_main st (warmup st) (running st) (Finished (u64 (sum_of id (thread_num_iters st)))))
  | Finished _ => None
  end.

(** [set_n] on both barriers, the flags and the counters. *)
Definition mt_init (num_threads : nat) : mt_state :=
  MtState (Z.of_nat num_threads) (Z.of_nat num_threads) false false (replicate num_threads 0) [] Spawn.

Inductive mt_step (num_threads : nat) : mt_state → mt_state → Prop :=
  | step_main st st' : main_step num_threads st = Some st' → mt_step num_threads st st'
  | step_worker st st' i : worker_step st i = Some st' → mt_step num_threads st st'.

Definition reachable (num_threads : nat) : mt_state → Prop :=
  rtc (mt_step num_threads) (mt_init num_threads).
End steps.

(** ** The invariant *)

(** Past [count_down] and past [wait_for] of each barrier. *)
Definition counted_a (pc : worker_pc) : bool := match pc with ALoad | ACas _ => false | _ => true end.
Definition through_a (pc : worker_pc) : bool := match pc with ALoad | ACas _ | AWait => false | _ => true end.
Definition counted_b (pc : worker_pc) : bool := match pc with BWait | Run | Done => true | _ => false end.
Definition through_b (pc : worker_pc) : bool := match pc with Run | Done => true | _ => false end.
Definition is_done (pc : worker_pc) : bool := match pc with Done => true | _ => false end.

Definition count_pc (P : worker_pc → bool) (ws : list worker) : Z := count_if (λ w, P (w_pc w)) ws.

(** A barrier [n] for [num] threads: it is what is left to count down, and whoever is
    through has seen 0. *)
Definition barrier_ok (num : Z) (n : Z) (counted through : worker_pc → bool) (ws : list worker) : Prop :=
  n = num - count_pc counted ws ∧ ∀ w, w ∈ ws → through (w_pc w) = true → n = 0.

(** What the main thread has done so far. *)
Definition main_ok (num_threads : nat) (st : mt_state) : Prop :=
  match main st with
  | Spawn => warmup st = false ∧ running st = false ∧ (length (workers st) ≤ num_threads)%nat
  | WarmupOn | RunningOn => warmup st = false ∧ running st = false ∧ length (workers st) = num_threads
  | WarmupOff => warmup st = true ∧ running st = false ∧ length (workers st) = num_threads
  | RunningOff => warmup st = false ∧ running st = true ∧ length (workers st) = num_threads
  | Join i => warmup st = false ∧ running st = false ∧ length (workers st) = num_threads ∧
      (i ≤ num_threads)%nat ∧ Forall (λ w, w_pc w = Done) (take i (workers st))
  | Finished n => warmup st = false ∧ running st = false ∧ length (workers st) = num_threads ∧
      Forall (λ w, w_pc w = Done) (workers st) ∧ n = u64 (sum_of id (thread_num_iters st))
  end.

Record mt_inv (num_threads : nat) (st : mt_state) : Prop := MtInv {
  inv_a : barrier_ok (Z.of_nat num_threads) (barrier_a st) counted_a through_a (workers st);
  inv_b : barrier_ok (Z.of_nat num_threads) (barrier_b st) counted_b through_b (workers st);
  inv_iters : length (thread_num_iters st) = num_threads ∧ Forall (fits 64) (thread_num_iters st);
  inv_main : main_ok num_threads st
}.

Lemma count_pc_insert P ws i w pc s :
  ws !! i = Some w →
  count_pc P (<[i := Worker pc s]> ws) = count_pc P ws - Z.b2z (P (w_pc w)) + Z.b2z (P pc).
Proof.
  unfold count_pc. revert i. induction ws as [|w' ws IH]; intros [|i] Hw; [done..| |].
  - injection Hw as ->. change (<[0%nat:=Worker pc s]> (w :: ws)) with (Worker pc s :: ws).
    cbn [count_if w_pc]. lia.
  - change (<[S i:=Worker pc s]> (w' :: ws)) with (w' :: <[i:=Worker pc s]> ws).
    cbn [count_if]. rewrite (IH i) by done. lia.
Qed.

(** All are counted exactly when the count is the length. *)
Lemma count_pc_full P ws : count_pc P ws = Z.of_nat (length ws) → ∀ w, w ∈ ws → P (w_pc w) = true.
Proof.
  unfold count_pc. induction ws as [|w' ws IH]; intros Hc w Hw; [by apply elem_of_nil in Hw|].
  cbn [count_if length] in Hc. pose proof (count_if_bounds (λ w, P (w_pc w)) ws).
  destruct (P (w_pc w')) eqn:Hp; cbn [Z.b2z] in Hc; [|lia].
  apply elem_of_cons in Hw as [->|Hw]; [done|]. apply IH; [lia|done].
Qed.

Lemma count_pc_lt P ws i w :
  ws !! i = Some w → P (w_pc w) = false → 0 ≤ count_pc P ws < Z.of_nat (length ws).
Proof.
  intros Hw Hp. unfold count_pc. pose proof (count_if_bounds (λ w, P (w_pc w)) ws). split; [lia|].
  destruct (decide (count_pc P ws = Z.of_nat (length ws))) as [Hfull|]; [|unfold count_pc in *; lia].
  pose proof (count_pc_full P ws Hfull w ltac:(by eapply list_elem_of_lookup_2)). congruence.
Qed.

Section barrier.
Context (num n : Z) (counted through : worker_pc → bool) (ws : list worker).
Context (Hok : barrier_ok num n counted through ws) (Hlen : Z.of_nat (length ws) ≤ num).

(** A step that does not count down and gets through only at 0. *)
Lemma barrier_ok_move i w pc s :
  ws !! i = Some w → counted pc = counted (w_pc w) →
  (through pc = true → through (w_pc w) = true ∨ n = 0) →
  barrier_ok num n counted through (<[i := Worker pc s]> ws).
Proof using Hok.
  destruct Hok as [Hn Hthru]. intros Hw Hc Ht. split.
  - rewrite (count_pc_insert _ _ _ w) by done. rewrite Hc. lia.
  - intros w' Hw'%list_elem_of_lookup Hp. destruct Hw' as [j Hj].
    destruct (decide (i = j)) as [<-|Hne].
    + rewrite list_lookup_insert_eq in Hj by (by eapply lookup_lt_Some). injection Hj as <-.
      destruct (Ht Hp) as [Hp'| ->]; [|done]. apply (Hthru w); [by eapply list_elem_of_lookup_2|done].
    + rewrite list_lookup_insert_ne in Hj by done. apply (Hthru w'); [by eapply list_elem_of_lookup_2|done].
Qed.

(** A successful compare-and-swap; nobody can be through yet. *)
Lemma barrier_ok_count i w pc s :
  num < 2 ^ 64 → (∀ pc, through pc = true → counted pc = true) →
  ws !! i = Some w → counted (w_pc w) = false → counted pc = true → through pc = false →
  barrier_ok num (u64 (n - 1)) counted through (<[i := Worker pc s]> ws).
Proof using Hok Hlen.
  destruct Hok as [Hn Hthru]. intros Hnum Himp Hw Hc Hc' Ht.
  pose proof (count_pc_lt counted ws i w Hw Hc). split.
  - rewrite (count_pc_insert _ _ _ w) by done. rewrite Hc, Hc', wrap_small by (split; lia).
    cbn [Z.b2z]. lia.
  - intros w' [j Hj]%list_elem_of_lookup Hp. destruct (decide (i = j)) as [<-|Hne].
    + rewrite list_lookup_insert_eq in Hj by (by eapply lookup_lt_Some). injection Hj as <-.
      cbn in Hp. congruence.
    + rewrite list_lookup_insert_ne in Hj by done.
      assert (n = 0) by (apply (Hthru w'); [by eapply list_elem_of_lookup_2|done]). lia.
Qed.

(** Whoever is through knows that all threads were spawned and have counted down. *)
Lemma barrier_ok_through w :
  w ∈ ws → through (w_pc w) = true →
  Z.of_nat (length ws) = num ∧ ∀ w', w' ∈ ws → counted (w_pc w') = true.
Proof using Hok Hlen.
  destruct Hok as [Hn Hthru]. intros Hw Ht. pose proof (Hthru w Hw Ht).
  pose proof (count_if_bounds (λ w, counted (w_pc w)) ws). unfold count_pc in Hn.
  split; [lia|]. apply count_pc_full. unfold count_pc. lia.
Qed.
End barrier.

(** ** Every step keeps the invariant *)

Lemma main_ok_worker num_threads st st' i w w' :
  main_ok num_threads st → workers st !! i = Some w → w_pc w ≠ Done →
  workers st' = <[i := w']> (workers st) → main st' = main st →
  warmup st' = warmup st → running st' = running st →
  (thread_num_iters st' = thread_num_iters st ∨ running st = true) →
  main_ok num_threads st'.
Proof.
  unfold main_ok. intros Hm Hw Hpc -> -> -> -> Hit. rewrite length_insert.
  destruct (main st) as [| | | | |k|m]; try done.
  - destruct Hm as (? & ? & ? & ? & Hdone). split_and!; [done..|].
    destruct (decide (i < k)%nat).
    + rewrite Forall_forall in Hdone. destruct Hpc. apply Hdone.
      apply elem_of_take. eauto.
    + by rewrite take_insert_ge by lia.
  - destruct Hm as (? & ? & ? & Hdone & ?). rewrite Forall_forall in Hdone. destruct Hpc.
    apply Hdone. by eapply list_elem_of_lookup_2.
Qed.

Section preservation.
Context {M : Type} `{StringMap M} (map : M) (probeList : list (list bytes)).
Context (num_threads : nat) (Hnum : Z.of_nat num_threads < 2 ^ 64).

Lemma inv_workers_le st : mt_inv num_threads st → Z.of_nat (length (workers st)) ≤ Z.of_nat num_threads.
Proof using. intros [_ _ _ Hm]. unfold main_ok in Hm. destruct (main st); lia. Qed.

Lemma mt_inv_init : mt_inv num_threads (mt_init num_threads).
Proof using.
  split; cbn [mt_init barrier_a barrier_b workers thread_num_iters].
  1-2: split; [cbn; lia|intros w Hw; by apply elem_of_nil in Hw].
  - split; [apply length_replicate|]. apply Forall_replicate. split; lia.
  - unfold main_ok. cbn. split_and!; [done..|lia].
Qed.

Lemma worker_step_inv st i st' :
  mt_inv num_threads st → worker_step map probeList st i = Some st' → mt_inv num_threads st'.
Proof using Hnum.
  intros Hinv. pose proof (inv_workers_le st Hinv) as Hlen. destruct Hinv as [Ha Hb Hit Hm].
  unfold worker_step. intros (w & Hw & Hstep)%bind_Some.
  destruct (w_pc w) as [|ca| | | |cb| | |] eqn:Hpc; try done;
    repeat match type of Hstep with (if ?b then _ else _) = _ => destruct b eqn:? end;
    try apply bind_Some in Hstep as (s' & _ & Hstep); injection Hstep as <-; try (split; assumption).
  all: split; cbn [set_worker set_a set_b count_iter barrier_a barrier_b workers thread_num_iters];
    try done.
  (* the main thread's part *)
  all: try (eapply main_ok_worker; [exact Hm|exact Hw|congruence|reflexivity..|]; auto; fail).
  (* moves *)
  all: try (eapply barrier_ok_move; [done|done|by rewrite Hpc|
    rewrite Hpc; cbn [through_a through_b]; intros; try discriminate; auto]; fail).
  (* counting down *)
  all: try (apply Z.eqb_eq in Heqb; subst; eapply barrier_ok_count;
    [done|done|done|by intros []|done|by rewrite Hpc|done|done]; fail).
  (* through a barrier *)
  all: try (eapply barrier_ok_move; [done|done|by rewrite Hpc|]; intros _; right;
    destruct Ha as [Ha _], Hb as [Hb _]; apply Z.ltb_ge in Heqb; unfold count_pc in *;
    pose proof (count_if_bounds (λ w, counted_a (w_pc w)) (workers st));
    pose proof (count_if_bounds (λ w, counted_b (w_pc w)) (workers st)); lia).
  (* the counters *)
  destruct Hit as [Hl Hf]. split; [by rewrite length_alter|].
  apply Forall_alter; [done|]. intros n _ _. apply fits_wrap. lia.
Qed.

Lemma main_step_inv st st' :
  mt_inv num_threads st → main_step num_threads st = Some st' → mt_inv num_threads st'.
Proof using Hnum.
  intros [Ha Hb Hit Hm]. unfold main_step, main_ok in *.
  destruct (main st) as [| | | | |k|m] eqn:Hmain; intros Hstep; try done.
  - destruct (decide _) as [Hlt|Hge]; injection Hstep as <-.
    + assert (∀ n counted through, counted ALoad = false → through ALoad = false →
        barrier_ok (Z.of_nat num_threads) n counted through (workers st) →
        barrier_ok (Z.of_nat num_threads) n counted through (workers st ++ [Worker ALoad 0])) as Hnew.
      { intros n counted through Hc Ht [Hn Hthru]. split.
        - unfold count_pc in *. rewrite count_if_app. cbn [count_if w_pc]. rewrite Hc. cbn [Z.b2z]. lia.
        - intros w [Hw|Hw]%elem_of_app Hp; [by apply (Hthru w)|].
          apply list_elem_of_singleton in Hw as ->. cbn in Hp. congruence. }
      split; cbn [barrier_a barrier_b workers thread_num_iters]; [by apply Hnew..|done|].
      unfold main_ok. cbn. destruct Hm as (? & ? & ?). rewrite length_app. cbn. split_and!; [done..|lia].
    + destruct Hm as (? & ? & ?). split; [done..|]. unfold main_ok. cbn. split_and!; [done..|lia].
  - injection Hstep as <-. split; [done..|]. unfold main_ok. cbn. destruct Hm as (? & ? & ?). by split_and!.
  - injection Hstep as <-. split; [done..|]. unfold main_ok. cbn. destruct Hm as (? & ? & ?). by split_and!.
  - injection Hstep as <-. split; [done..|]. unfold main_ok. cbn. destruct Hm as (? & ? & ?). by split_and!.
  - injection Hstep as <-. split; [done..|]. unfold main_ok. cbn. rewrite take_0.
    destruct Hm as (? & ? & ?). split_and!; [done..|lia|constructor].
  - destruct Hm as (? & ? & Hl & Hk & Hdone). destruct (decide _) as [Hlt|Hge].
    + apply bind_Some in Hstep as (w & Hw & Hstep). destruct (w_pc w) eqn:Hpc; try done.
      injection Hstep as <-. split; [done..|]. unfold main_ok. cbn.
      split_and!; [done..|lia|]. rewrite (take_S_r _ _ _ Hw). apply Forall_app. split; [done|].
      by repeat constructor.
    + injection Hstep as <-. split; [done..|]. unfold main_ok. cbn. split_and!; [done..| |done].
      by rewrite take_ge in Hdone by lia.
Qed.

Lemma reachable_inv st : reachable map probeList num_threads st → mt_inv num_threads st.
Proof using Hnum.
  unfold reachable. intros Hr. pose proof mt_inv_init as Hi. induction Hr as [|st1 st2 st3 Hs _ IH]; [done|].
  apply IH. destruct Hs; [by eapply main_step_inv|by eapply worker_step_inv].
Qed.
End preservation.

(** ** Properties *)
Section properties.
Context {M : Type} `{StringMap M} (map : M) (probeList : list (list bytes)).
Context (num_threads : nat).
#[local] Abbreviation reach := (reachable map probeList num_threads).
#[local] Abbreviation step := (mt_step map probeList num_threads).

(** C36: The spin barriers are barriers, in every interleaving: the counters never wrap
    around, and as soon as one worker is past [wait_for], every thread has been
    spawned and has counted down. *)
Theorem spin_barrier_safe st :
  Z.of_nat num_threads < 2 ^ 64 → reach st →
  0 ≤ barrier_a st ≤ Z.of_nat num_threads ∧ 0 ≤ barrier_b st ≤ Z.of_nat num_threads ∧
  ∀ w, w ∈ workers st →
    (through_a (w_pc w) = true → length (workers st) = num_threads ∧
       ∀ w', w' ∈ workers st → counted_a (w_pc w') = true) ∧
    (through_b (w_pc w) = true → length (workers st) = num_threads ∧
       ∀ w', w' ∈ workers st → counted_b (w_pc w') = true).
Proof using.
  intros Hnum Hr. pose proof (reachable_inv map probeList num_threads Hnum st Hr) as Hinv.
  pose proof (inv_workers_le num_threads st Hinv) as Hlen. destruct Hinv as [Ha Hb _ _].
  pose proof (count_if_bounds (λ w, counted_a (w_pc w)) (workers st)).
  pose proof (count_if_bounds (λ w, counted_b (w_pc w)) (workers st)).
  pose proof (proj1 Ha). pose proof (proj1 Hb). unfold count_pc in *.
  split; [lia|]. split; [lia|]. intros w Hw. split; intros Ht.
  - destruct (barrier_ok_through _ _ _ _ _ Ha Hlen w Hw Ht). split; [lia|done].
  - destruct (barrier_ok_through _ _ _ _ _ Hb Hlen w Hw Ht). split; [lia|done].
Qed.

Lemma worker_step_iters st st' i :
  worker_step map probeList st i = Some st' →
  thread_num_iters st' = thread_num_iters st ∨
  ∃ w, workers st !! i = Some w ∧ w_pc w = Run ∧ running st = true ∧
    thread_num_iters st' = alter (λ n, u64 (n + 1)) i (thread_num_iters st).
Proof using.
  unfold worker_step. intros (w & Hw & Hstep)%bind_Some.
  destruct (w_pc w) eqn:Hpc; try done;
    repeat match type of Hstep with (if ?b then _ else _) = _ => destruct b eqn:? end;
    try apply bind_Some in Hstep as (s' & _ & Hstep); injection Hstep as <-; cbn; eauto 10.
Qed.

(** An iteration is counted only while [running] is set and every thread has
    finished its warm-up and arrived at the second barrier; it is the counter of the
    thread itself that goes up, by one. *)
Theorem iterations_are_timed st st' :
  Z.of_nat num_threads < 2 ^ 64 → reach st → step st st' →
  thread_num_iters st' ≠ thread_num_iters st →
  running st = true ∧ length (workers st) = num_threads ∧
  (∀ w, w ∈ workers st → counted_b (w_pc w) = true) ∧
  ∃ i, worker_step map probeList st i = Some st' ∧
    thread_num_iters st' = alter (λ n, u64 (n + 1)) i (thread_num_iters st).
Proof using.
  intros Hnum Hr Hs Hne. pose proof (reachable_inv map probeList num_threads Hnum st Hr) as Hinv.
  pose proof (inv_workers_le num_threads st Hinv) as Hlen. destruct Hinv as [_ Hb _ _].
  destruct Hs as [st st' Hs|st st' i Hs].
  - exfalso. apply Hne. unfold main_step in Hs.
    destruct (main st); try case_decide; try (injection Hs as <-; done); [|done].
    apply bind_Some in Hs as (w & _ & Hs). destruct (w_pc w); try done. by injection Hs as <-.
  - destruct (worker_step_iters st st' i Hs) as [|(w & Hw & Hpc & Hrun & Hit)]; [done|].
    apply list_elem_of_lookup_2 in Hw.
    destruct (barrier_ok_through _ _ _ _ _ Hb Hlen w Hw) as [Hl Hall]; [by rewrite Hpc|].
    split; [done|]. split; [lia|]. split; [done|]. by exists i.
Qed.

(** When the main thread is through its joins, every worker has returned and the
    total is the sum of the counters. *)
Theorem joined_all_done st n :
  Z.of_nat num_threads < 2 ^ 64 → reach st → main st = Finished n →
  length (workers st) = num_threads ∧ (∀ w, w ∈ workers st → w_pc w = Done) ∧
  n = u64 (sum_of id (thread_num_iters st)).
Proof using.
  intros Hnum Hr Hm. destruct (reachable_inv map probeList num_threads Hnum st Hr) as [_ _ _ Hmain].
  unfold main_ok in Hmain. rewrite Hm in Hmain. destruct Hmain as (_ & _ & Hl & Hd & Hn).
  rewrite Forall_forall in Hd. split_and!; auto.
Qed.
End properties.

(** ** The benchmark can always finish *)

Lemma count_pc_all P ws : (∀ w, w ∈ ws → P (w_pc w) = true) → count_pc P ws = Z.of_nat (length ws).
Proof.
  unfold count_pc. induction ws as [|w ws IH]; intros Hall; [done|]. cbn [count_if length].
  rewrite (Hall w) by apply list_elem_of_here. rewrite IH; [cbn [Z.b2z]; lia|].
  intros w' Hw'. by apply Hall, list_elem_of_further.
Qed.

(** How far a worker is from its end. *)
Definition rank (pc : worker_pc) : Z :=
  match pc with
  | ALoad | ACas _ => 6 | AWait => 5 | Warm => 4 | BLoad | BCas _ => 3 | BWait => 2 | Run => 1 | Done => 0
  end.
Definition total_rank (ws : list worker) : Z := sum_of (λ w, rank (w_pc w)) ws.

Lemma total_rank_insert ws i w w' :
  ws !! i = Some w → total_rank (<[i := w']> ws) = total_rank ws - rank (w_pc w) + rank (w_pc w').
Proof.
  unfold total_rank. revert i. induction ws as [|w0 ws IH]; intros [|i] Hw; [done..| |].
  - injection Hw as ->. change (<[0%nat:=w']> (w :: ws)) with (w' :: ws). cbn [sum_of]. lia.
  - change (<[S i:=w']> (w0 :: ws)) with (w0 :: <[i:=w']> ws). cbn [sum_of]. rewrite (IH i) by done. lia.
Qed.

Lemma total_rank_nonneg ws : 0 ≤ total_rank ws.
Proof.
  unfold total_rank. induction ws as [|w ws IH]; cbn [sum_of]; [done|].
  assert (0 ≤ rank (w_pc w)) by (destruct (w_pc w); cbn; lia). lia.
Qed.

Section progress.
Context {M : Type} `{StringMap M} (map : M) (probeList : list (list bytes)).
Context (num_threads : nat) (Hnum : Z.of_nat num_threads < 2 ^ 64).
#[local] Abbreviation step := (mt_step map probeList num_threads).

Lemma steps_inv st st' : mt_inv num_threads st → rtc step st st' → mt_inv num_threads st'.
Proof using Hnum.
  intros Hi Hr. induction Hr as [|st1 st2 st3 Hs _ IH]; [done|]. apply IH.
  destruct Hs; [by eapply main_step_inv|by eapply worker_step_inv].
Qed.

(** Worker [i] goes from [pc] to [pc'] in one step of its own. *)
Lemma one_step st i w st' :
  workers st !! i = Some w → worker_step map probeList st i = Some st' → rtc step st st'.
Proof using. intros Hw Hs. apply rtc_once. by eapply step_worker. Qed.

(** [st'] is [st] with worker [i] closer to its end. *)
Definition closer (st : mt_state) (i : nat) (w : worker) (st' : mt_state) : Prop :=
  rtc step st st' ∧ main st' = main st ∧
  ∃ w', workers st' = <[i := w']> (workers st) ∧ rank (w_pc w') < rank (w_pc w).

Lemma advance_load_a st i w :
  workers st !! i = Some w → w_pc w = ALoad → ∃ st', closer st i w st'.
Proof using.
  intros Hw Hpc. pose proof (lookup_lt_Some _ _ _ Hw) as Hi.
  exists (set_worker (set_a (set_worker st i (ACas (barrier_a st)) (w_s w)) (u64 (barrier_a st - 1))) i AWait (w_s w)).
  split; [|split; [done|]].
  - eapply rtc_l; [eapply step_worker with (i := i); unfold worker_step; rewrite Hw; cbn [mbind option_bind];
      by rewrite Hpc|].
    apply rtc_once. eapply step_worker with (i := i). unfold worker_step. cbn [set_worker workers].
    rewrite list_lookup_insert_eq by done. cbn [mbind option_bind w_pc barrier_a]. by rewrite Z.eqb_refl.
  - eexists. cbn [set_worker set_a workers]. rewrite list_insert_insert_eq. split; [done|]. rewrite Hpc. cbn. lia.
Qed.

Lemma advance_load_b st i w :
  workers st !! i = Some w → w_pc w = BLoad → ∃ st', closer st i w st'.
Proof using.
  intros Hw Hpc. pose proof (lookup_lt_Some _ _ _ Hw) as Hi.
  exists (set_worker (set_b (set_worker st i (BCas (barrier_b st)) (w_s w)) (u64 (barrier_b st - 1))) i BWait (w_s w)).
  split; [|split; [done|]].
  - eapply rtc_l; [eapply step_worker with (i := i); unfold worker_step; rewrite Hw; cbn [mbind option_bind];
      by rewrite Hpc|].
    apply rtc_once. eapply step_worker with (i := i). unfold worker_step. cbn [set_worker workers].
    rewrite list_lookup_insert_eq by done. cbn [mbind option_bind w_pc barrier_b]. by rewrite Z.eqb_refl.
  - eexists. cbn [set_worker set_b workers]. rewrite list_insert_insert_eq. split; [done|]. rewrite Hpc. cbn. lia.
Qed.

(** A failed compare-and-swap only costs a new load. *)
Lemma closer_after st1 st2 i w pc s :
  workers st1 !! i = Some w → st2 = set_worker st1 i pc s → rank pc = rank (w_pc w) →
  step st1 st2 → (∃ st', closer st2 i (Worker pc s) st') → ∃ st', closer st1 i w st'.
Proof using.
  intros Hw -> Hr Hs (st' & Hsteps & Hm & w' & Hws & Hlt). exists st'. split; [by eapply rtc_l|].
  split; [done|]. exists w'. cbn [set_worker workers] in Hws. rewrite list_insert_insert_eq in Hws.
  split; [done|]. cbn [w_pc] in Hlt. lia.
Qed.

Lemma advance st i w :
  workers st !! i = Some w → w_pc w ≠ Done → warmup st = false → running st = false →
  (w_pc w = AWait → barrier_a st = 0) → (w_pc w = BWait → barrier_b st = 0) →
  ∃ st', closer st i w st'.
Proof using.
  intros Hw Hd Hwu Hrun HA HB. pose proof (lookup_lt_Some _ _ _ Hw) as Hi.
  assert (∀ pc, worker_step map probeList st i = Some (set_worker st i pc (w_s w)) →
    rank pc < rank (w_pc w) → ∃ st', closer st i w st') as Hone.
  { intros pc Hs Hlt. eexists. split; [by eapply one_step|]. split; [done|]. by eexists. }
  assert (∀ pc, worker_step map probeList st i = Some (set_worker st i pc (w_s w)) →
    step st (set_worker st i pc (w_s w))) as Hstep by (intros; by eapply step_worker).
  assert (worker_step map probeList st i = worker_step map probeList st i) as Heq by done.
  unfold worker_step in Heq at 2. rewrite Hw in Heq. cbn [mbind option_bind] in Heq.
  destruct (w_pc w) as [|c| | | |c| | |] eqn:Hpc.
  - by eapply advance_load_a.
  - destruct (barrier_a st =? c) eqn:Hc.
    + eexists. split; [by eapply one_step|]. split; [done|]. eexists. split; [done|]. rewrite Hpc. cbn. lia.
    + eapply (closer_after st _ i w ALoad (w_s w)); [done|reflexivity|by rewrite Hpc|by apply Hstep|].
      eapply advance_load_a; [|done]. cbn. by apply list_lookup_insert_eq.
  - rewrite (HA eq_refl) in Heq. eapply Hone; [exact Heq|]. cbn. lia.
  - rewrite Hwu in Heq. eapply Hone; [exact Heq|]. cbn. lia.
  - by eapply advance_load_b.
  - destruct (barrier_b st =? c) eqn:Hc.
    + eexists. split; [by eapply one_step|]. split; [done|]. eexists. split; [done|]. rewrite Hpc. cbn. lia.
    + eapply (closer_after st _ i w BLoad (w_s w)); [done|reflexivity|by rewrite Hpc|by apply Hstep|].
      eapply advance_load_b; [|done]. cbn. by apply list_lookup_insert_eq.
  - rewrite (HB eq_refl) in Heq. eapply Hone; [exact Heq|]. cbn. lia.
  - rewrite Hrun in Heq. eapply Hone; [exact Heq|]. cbn. lia.
  - done.
Qed.

(** Among workers that are not all done, one can advance. *)
Lemma pick st k :
  mt_inv num_threads st → main st = Join k → ¬ Forall (λ w, is_done (w_pc w) = true) (workers st) →
  ∃ i w st', workers st !! i = Some w ∧ closer st i w st'.
Proof using.
  intros [Ha Hb _ Hm] Hmain Hnd. unfold main_ok in Hm. rewrite Hmain in Hm.
  destruct Hm as (Hwu & Hrun & Hl & _ & _).
  assert (∀ P, ¬ Forall (λ w, P (w_pc w) = true) (workers st) →
    ∃ i w, workers st !! i = Some w ∧ P (w_pc w) = false) as Hex.
  { intros P HP. apply not_Forall_Exists in HP; [|intros w; apply _].
    apply Exists_exists in HP as (w & [i Hi]%list_elem_of_lookup & Hp). exists i, w.
    split; [done|]. cbv beta in Hp. by apply not_true_is_false. }
  destruct (decide (Forall (λ w, counted_a (w_pc w) = true) (workers st))) as [Hall|Hsome].
  - assert (barrier_a st = 0) as Ha0.
    { rewrite (proj1 Ha), count_pc_all by (by apply Forall_forall). lia. }
    destruct (decide (Forall (λ w, counted_b (w_pc w) = true) (workers st))) as [Hallb|Hsomeb].
    + assert (barrier_b st = 0) as Hb0.
      { rewrite (proj1 Hb), count_pc_all by (by apply Forall_forall). lia. }
      destruct (Hex is_done Hnd) as (i & w & Hw & Hp). 
      destruct (advance st i w Hw) as [st' Hst']; [intros Hpc; by rewrite Hpc in Hp|done..|eauto].
    + destruct (Hex counted_b Hsomeb) as (i & w & Hw & Hp).
      destruct (advance st i w Hw) as [st' Hst'];
        [intros Hpc; by rewrite Hpc in Hp|done|done|done|intros Hpc; by rewrite Hpc in Hp|eauto].
  - destruct (Hex counted_a Hsome) as (i & w & Hw & Hp).
    destruct (advance st i w Hw) as [st' Hst'];
      [intros Hpc; by rewrite Hpc in Hp|done|done|intros Hpc; by rewrite Hpc in Hp..|eauto].
Qed.

Lemma all_done_reachable n : ∀ st k,
  mt_inv num_threads st → main st = Join k → (Z.to_nat (total_rank (workers st)) ≤ n)%nat →
  ∃ st', rtc step st st' ∧ mt_inv num_threads st' ∧ main st' = Join k ∧
    Forall (λ w, is_done (w_pc w) = true) (workers st').
Proof using Hnum.
  induction n as [|n IH]; intros st k Hi Hm Hn;
    (destruct (decide (Forall (λ w, is_done (w_pc w) = true) (workers st))) as [|Hnd];
      [exists st; split; [constructor|done]|]);
    destruct (pick st k Hi Hm Hnd) as (i & w & st' & Hw & Hs & Hm' & w' & Hws & Hlt);
    pose proof (total_rank_insert _ _ _ w' Hw) as Htot; rewrite <-Hws in Htot;
    pose proof (total_rank_nonneg (workers st')).
  - lia.
  - destruct (IH st' k) as (st2 & Hs2 & H2); [by eapply steps_inv|congruence|lia|].
    exists st2. split; [by etrans|done].
Qed.

(** Joining workers that are done. *)
Lemma join_all n : ∀ st k,
  mt_inv num_threads st → main st = Join k → Forall (λ w, is_done (w_pc w) = true) (workers st) →
  (num_threads - k ≤ n)%nat → ∃ st' m, rtc step st st' ∧ main st' = Finished m.
Proof using Hnum.
  induction n as [|n IH]; intros st k Hi Hm Hd Hk;
    pose proof (inv_main _ _ Hi) as Hok; unfold main_ok in Hok; rewrite Hm in Hok;
    destruct Hok as (_ & _ & Hl & Hle & _).
  - do 2 eexists. split; [apply rtc_once, step_main; unfold main_step; rewrite Hm; rewrite decide_False by lia; done|done].
  - destruct (decide (k < num_threads)%nat) as [Hlt|Hge]; [|].
    + destruct (lookup_lt_is_Some_2 (workers st) k) as [w Hw]; [lia|].
      pose proof (proj1 (Forall_lookup _ _) Hd k w Hw) as Hdw. cbv beta in Hdw.
      assert (step st (set_main st (warmup st) (running st) (Join (S k)))) as Hs.
      { apply step_main. unfold main_step. rewrite Hm, decide_True, Hw by done. cbn [mbind option_bind].
        by destruct (w_pc w). }
      destruct (IH (set_main st (warmup st) (running st) (Join (S k))) (S k)) as (st' & m & Hst' & Hfin);
        [eapply steps_inv; [done|by apply rtc_once]|done|done|lia|].
      exists st', m. split; [by eapply rtc_l|done].
    + do 2 eexists. split; [apply rtc_once, step_main; unfold main_step; rewrite Hm; rewrite decide_False by lia; done|done].
Qed.

(** The main thread on its own reaches the joins. *)
Definition main_rank (st : mt_state) : nat :=
  match main st with
  | Spawn => 5 + (num_threads - length (workers st))
  | WarmupOn => 4 | WarmupOff => 3 | RunningOn => 2 | RunningOff => 1
  | Join _ | Finished _ => 0
  end.

Lemma main_to_join n : ∀ st,
  mt_inv num_threads st → (main_rank st ≤ n)%nat →
  ∃ st', rtc step st st' ∧ mt_inv num_threads st' ∧
    ((∃ k, main st' = Join k) ∨ ∃ m, main st' = Finished m).
Proof using Hnum.
  induction n as [|n IH]; intros st Hi Hn; unfold main_rank in Hn;
    destruct (main st) as [| | | | |k|m] eqn:Hm; try lia; try (exists st; by eauto using rtc_refl).
  all: assert (∃ st1, main_step num_threads st = Some st1 ∧ (main_rank st1 ≤ n)%nat) as (st1 & Hs & Hr).
  all: try (unfold main_step; rewrite Hm; eexists; split; [done|]; cbn; lia).
  all: try (destruct (IH st1) as (st' & Hst' & Hrest);
    [by eapply main_step_inv|done|exists st'; split; [eapply rtc_l; [by apply step_main|done]|done]]).
  unfold main_step. rewrite Hm. destruct (decide _) as [Hlt|Hge]; eexists; (split; [done|]);
    unfold main_rank; cbn [main set_main workers]; rewrite ?length_app; cbn [length]; lia.
Qed.

Context {L : StringMapLaws M} (g : gmap bytes Z).
Context (Hserve : ∀ i p, probeList !! i = Some p → serves map g p).

(** A pass adds the entries of the probes of its worker. *)
Lemma pass_ok i s : pass map probeList i s = Some (s + sum_of (entry g) (default [] (probeList !! i))).
Proof using Hserve.
  unfold pass. apply find_all_sum. destruct (probeList !! i) as [p|] eqn:Hp; [by apply (Hserve i)|].
  intros x Hx. by apply elem_of_nil in Hx.
Qed.

Lemma worker_step_defined st i w :
  workers st !! i = Some w → w_pc w ≠ Done → is_Some (worker_step map probeList st i).
Proof using Hserve.
  intros Hw Hpc. unfold worker_step. rewrite Hw. cbn [mbind option_bind].
  destruct (w_pc w); try done; repeat case_match; rewrite ?pass_ok; eauto.
Qed.

(** C37: The benchmark never gets stuck: from every reachable state, whatever the
    interleaving so far, every worker that has not returned has a step, and the
    threads can run to the end, with all workers joined. *)
Theorem bench_mt_can_finish st :
  reachable map probeList num_threads st →
  (∀ i w, workers st !! i = Some w → w_pc w ≠ Done → is_Some (worker_step map probeList st i)) ∧
  ∃ st' m, rtc step st st' ∧ main st' = Finished m.
Proof using Hnum Hserve.
  intros Hr. split; [intros i w; apply worker_step_defined|].
  pose proof (reachable_inv map probeList num_threads Hnum st Hr) as Hi.
  destruct (main_to_join _ st Hi (le_n _)) as (st1 & Hs1 & Hi1 & [[k Hm]|[m Hm]]); [|by eauto].
  destruct (all_done_reachable _ st1 k Hi1 Hm (le_n _)) as (st2 & Hs2 & Hi2 & Hm2 & Hd).
  destruct (join_all _ st2 k Hi2 Hm2 Hd (le_n _)) as (st3 & m & Hs3 & Hm3).
  exists st3, m. split; [|done]. by etrans; [|etrans].
Qed.
End progress.

(** ** Instances: two threads over an association list *)

Lemma bench_mt_can_finish_witness :
  ∃ st m, rtc (mt_step (M := assoc_map) [([x61], 5)] [[[x61]; [x62]]; [[x61]]] 2) (mt_init 2) st ∧ main st = Finished m.
Proof.
  apply (bench_mt_can_finish (M := assoc_map) [([x61], 5)] [[[x61]; [x62]]; [[x61]]] 2 ltac:(lia) {[[x61] := 5]}).
  - intros i p _ x _. cbn. f_equal. destruct (decide ([x61] = x)) as [<-|Hne].
    + by rewrite lookup_singleton_eq.
    + by rewrite lookup_singleton_ne.
  - apply rtc_refl.
Defined.

(** Runs of the machine by a schedule: [None] is the main thread. *)
Definition demo_step (n : nat) (st : mt_state) (who : option nat) : mt_state :=
  default st (match who with
              | None => main_step n st
              | Some i => worker_step (M := assoc_map) [] [] st i
              end).

Lemma demo_step_steps n st who : rtc (mt_step (M := assoc_map) [] [] n) st (demo_step n st who).
Proof.
  unfold demo_step. destruct who as [i|].
  - destruct (worker_step _ _ _ _) as [st'|] eqn:Hs; [|apply rtc_refl]. apply rtc_once. by eapply step_worker.
  - destruct (main_step _ _) as [st'|] eqn:Hs; [|apply rtc_refl]. apply rtc_once. by eapply step_main.
Qed.

Lemma demo_reachable n whos st :
  reachable (M := assoc_map) [] [] n st → reachable (M := assoc_map) [] [] n (foldl (demo_step n) st whos).
Proof.
  revert st. induction whos as [|who whos IH]; intros st Hr; [done|]. apply IH.
  unfold reachable in *. etrans; [exact Hr|]. apply demo_step_steps.
Qed.

(** Two threads: the first is past the first barrier, the second still waits in it. *)
Definition demo_pair : mt_state :=
  foldl (demo_step 2) (mt_init 2) [None; None; Some 0; Some 1; Some 0; Some 1; Some 1; Some 1; Some 0]%nat.

Lemma spin_barrier_safe_witness :
  w_pc <$> workers demo_pair = [Warm; AWait] ∧ barrier_a demo_pair = 0 ∧
  ∀ w, w ∈ workers demo_pair → counted_a (w_pc w) = true.
Proof.
  split; [vm_compute; reflexivity|]. split; [vm_compute; reflexivity|].
  destruct (spin_barrier_safe (M := assoc_map) [] [] 2 demo_pair) as (_ & _ & Hw); [lia|apply demo_reachable, rtc_refl|].
  apply (Hw (Worker Warm 0)); [vm_compute; apply list_elem_of_here|reflexivity].
Defined.

(** One thread that goes through both barriers and counts a pass. *)
Definition demo_run : list (option nat) :=
  [None; None; None; None; None; Some 0; Some 0; Some 0; Some 0; Some 0; Some 0; Some 0]%nat.

Lemma iterations_are_timed_witness :
  let st := foldl (demo_step 1) (mt_init 1) demo_run in running st = true ∧ length (workers st) = 1%nat.
Proof.
  destruct (iterations_are_timed (M := assoc_map) [] [] 1 (foldl (demo_step 1) (mt_init 1) demo_run)
    (demo_step 1 (foldl (demo_step 1) (mt_init 1) demo_run) (Some 0%nat))) as (Hrun & Hlen & _).
  - lia.
  - apply demo_reachable, rtc_refl.
  - apply (step_worker [] [] 1 _ _ 0). vm_compute. reflexivity.
  - vm_compute. discriminate.
  - split; [exact Hrun|exact Hlen].
Defined.
