(* ===== verification/BenchPartitions.v ===== *)
(** * The partitioning client (src/benchmark_partitions.cpp, lines 24-96)

    [benchPartition] sends every key to partition [hash & (numPartitions - 1)]. The
    clock and the printing are not modelled. *)
From stdpp Require Import strings gmap.
From S2P Require Import Prelude Words Floats SmallHashes BlockedLoop BenchFilters.

Section client.
(** libm *)
Context (log2 sqrt : spec_float → spec_float) (pow : spec_float → spec_float → spec_float).

(** [int partitionNum = hash & mask], [mask] an [int] converted to [size_t] *)
Definition partition_number (numPartitions h : Z) : Z :=
  let mask := numPartitions - 1 in to_i32 (Z.land h (u64 mask)).

(** [partition_variances[partitioner_name] += ...]; dividing by no partition has no value. *)
Definition relay_partition_statistics (data : list bytes) (counts : list Z) (partitioner_name : string)
    (partition_variances : gmap string spec_float) : option (gmap string spec_float) :=
  let size := Z.of_nat (length counts) in
  if size =? 0 then None else
  let meanPerPartition := f64_of_Z (Z.of_nat (length data) / size) in
  let variance_total := foldl (λ v c,
    f64_add v (pow (f64_sub (f64_of_Z c) meanPerPartition) (f64_of_Z 2))) (f64_of_Z 0) counts in
  let avg_variance := f64_div variance_total (f64_of_Z size) in
  let old := default (f64_of_Z 0) (partition_variances !! partitioner_name) in
  Some (<[partitioner_name := f64_add old (f64_div (sqrt avg_variance) meanPerPartition)]> partition_variances).

(** [assert(log2(numPartitions) == static_cast<int>(log2(numPartitions)))] *)
Definition assert_power_of_two (numPartitions : Z) : option unit :=
  let l := log2 (f64_of_Z numPartitions) in
  i ← sf_to_i32 l; if SFeqb l (f64_of_Z i) then Some tt else None.

(** One key: only the running sum of the partition numbers changes. *)
Definition partition_body (hashfn : bytes → option Z) (numPartitions : Z) (data : list bytes) (j dummy : Z)
    : option (Z * Z) :=
  x ← vec_get data j; h ← hashfn x; Some (u64 (dummy + partition_number numPartitions h), j).

(** The statistics and the sum printed; the vectors [partitions] stay empty, so that
    every count is the size of an empty vector. *)
Definition benchPartition (data : list bytes) (partitioner_name : string) (numPartitions : Z)
    (hashfn : bytes → option Z) (partition_variances : gmap string spec_float)
    : option (gmap string spec_float * Z) :=
  assert_power_of_two numPartitions;;
  let partitions := replicate (Z.to_nat numPartitions) ([] : list bytes) in
  dummy ← for_loop (length data) 0 (λ i d, r ← partition_body hashfn numPartitions data i d; Some r.1) 0;
  let partitions := (λ _, []) <$> partitions in
  r ← timed_loop hash_xxh64_s data (partition_body hashfn numPartitions data) dummy 0;
  let partitionCounts := (λ p : list bytes, to_i32 (Z.of_nat (length p))) <$> partitions in
  v ← relay_partition_statistics data partitionCounts partitioner_name partition_variances;
  Some (v, u64 (r.1 + r.2)).

(** ** Properties *)

(** For a power of two the mask keeps the low bits of the hash: the number of the
    partition is the hash modulo their number, always a valid index. *)
Theorem partition_number_mod k h :
  0 ≤ k < 31 → 0 ≤ h →
  partition_number (2 ^ k) h = h `mod` 2 ^ k ∧ 0 ≤ partition_number (2 ^ k) h < 2 ^ k.
Proof using.
  intros Hk Hh. unfold partition_number.
  assert (0 < 2 ^ k) by (apply Z.pow_pos_nonneg; lia).
  assert (2 ^ k < 2 ^ 31) by (apply Z.pow_lt_mono_r; lia).
  rewrite wrap_small by (split; lia). rewrite land_ones_wrap by lia. unfold wrap.
  pose proof (Z.mod_pos_bound h (2 ^ k)). rewrite to_i32_small by lia. split; [done|lia].
Qed.

Lemma for_dummy hashfn n data :
  (∀ x, x ∈ data → is_Some (hashfn x)) →
  ∃ d, for_loop (length data) 0 (λ i d, r ← partition_body hashfn n data i d; Some r.1) 0 = Some d.
Proof using.
  intros Hh. destruct (for_loop_total (λ _ _, True)
    (λ i d, r ← partition_body hashfn n data i d; Some r.1) (length data) 0 0 I) as (d & Hd & _); [|by eauto].
  intros j d Hj _. unfold partition_body, vec_get. rewrite (proj2 (Z.leb_le _ _)) by lia.
  destruct (lookup_lt_is_Some_2 data (Z.to_nat j)) as [x Hx]; [lia|]. rewrite Hx. cbn [mbind option_bind].
  destruct (Hh x) as [h ->]; [by eapply list_elem_of_lookup_2|]. cbn. eauto.
Qed.

(** The experiment completes for every hash that is defined on the data, and the
    variance it records is the same for all of them: the partitions are never
    filled, so it only depends on the numbers of keys and of partitions. *)
Theorem benchPartition_ignores_hash data name k hashfn hashfn' variances :
  0 ≤ k < 31 → Z.of_nat (length data) < 2 ^ 32 →
  log2 (f64_of_Z (2 ^ k)) = f64_of_Z k →
  (∀ x, x ∈ data → is_Some (hashfn x)) → (∀ x, x ∈ data → is_Some (hashfn' x)) →
  ∃ v d d', benchPartition data name (2 ^ k) hashfn variances = Some (v, d) ∧
    benchPartition data name (2 ^ k) hashfn' variances = Some (v, d').
Proof using.
  intros Hk Hd Hlog.
  assert (assert_power_of_two (2 ^ k) = Some tt) as Hassert.
  { unfold assert_power_of_two. rewrite Hlog. clear - Hk.
    assert (∃ n, (n < 31)%nat ∧ k = Z.of_nat n) as (n & Hn & ->) by (exists (Z.to_nat k); lia).
    do 31 (destruct n as [|n]; [by vm_compute|]). lia. }
  set (counts := (λ p : list bytes, to_i32 (Z.of_nat (length p))) <$>
    ((λ _ : list bytes, [] : list bytes) <$> replicate (Z.to_nat (2 ^ k)) ([] : list bytes))).
  assert (∃ v, relay_partition_statistics data counts name variances = Some v) as [v Hv].
  { unfold relay_partition_statistics.
    assert (0 < 2 ^ k) by (apply Z.pow_pos_nonneg; lia).
    assert (length counts ≠ 0%nat) by (unfold counts; rewrite !length_fmap, length_replicate; lia).
    rewrite (proj2 (Z.eqb_neq _ _)) by lia. eauto. }
  assert (∀ fn, (∀ x, x ∈ data → is_Some (fn x)) →
    ∃ d, benchPartition data name (2 ^ k) fn variances = Some (v, d)) as Hall.
  { intros fn Hfn. unfold benchPartition. rewrite Hassert. cbn [mbind option_bind].
    destruct (for_dummy fn (2 ^ k) data Hfn) as [d0 ->]. cbn [mbind option_bind].
    destruct (timed_loop_spec (λ x s, (u64 (s + partition_number (2 ^ k) (default 0 (fn x))), 0%nat)) 0 data
      (partition_body fn (2 ^ k) data)) with (dummy_hash := hash_xxh64_s) (s := d0) (dummy := 0) as [d ->].
    - intros j x s Hx. unfold partition_body, vec_get. rewrite (proj2 (Z.leb_le _ _)) by lia.
      rewrite Nat2Z.id, Hx. cbn [mbind option_bind].
      destruct (Hfn x) as [h ->]; [by eapply list_elem_of_lookup_2|]. cbn [mbind option_bind fst snd default from_option id].
      by rewrite Nat.add_0_r.
    - intros x _. apply hash_xxh64_s_total.
    - by rewrite Nat.add_0_r.
    - cbn [mbind option_bind fst snd]. fold counts. rewrite Hv. cbn [mbind option_bind]. eauto. }
  intros H1 H2. destruct (Hall hashfn H1) as [d ->], (Hall hashfn' H2) as [d' ->]. eauto.
Qed.
End client.

(** ** Instances: [log2] and [sqrt] constant, four partitions *)

Lemma partition_number_mod_witness : partition_number (2 ^ 2) 1023 = 3.
Proof. apply (partition_number_mod 2 1023); lia. Defined.

Lemma benchPartition_ignores_hash_witness :
  ∃ v d d', benchPartition (λ _, f64_of_Z 2) libm_one libm_half [[x61]; [x62]] "partition-std" 4 (λ _, Some 0) ∅
      = Some (v, d) ∧
    benchPartition (λ _, f64_of_Z 2) libm_one libm_half [[x61]; [x62]] "partition-std" 4 (λ _, Some 7) ∅
      = Some (v, d').
Proof.
  apply (benchPartition_ignores_hash (λ _, f64_of_Z 2) libm_one libm_half [[x61]; [x62]] "partition-std" 2
    (λ _, Some 0) (λ _, Some 7) ∅).
  - lia.
  - cbn. lia.
  - reflexivity.
  - intros x _. by eexists.
  - intros x _. by eexists.
Defined.
