(* ===== verification/BenchBloom.v ===== *)
(** * A whole run of the Bloom-filter benchmark

    What src/benchmark_filters.cpp does for each requested hash function, from the
    choice of the functor to the report: the theorems of the functors, of the filter
    and of the client put together. *)
From stdpp Require Import strings gmap.
From S2P Require Import Prelude Words Floats BitFilter SelfBloom Crc32Hash HashFns BenchSelect.
From S2P Require Import BlockedLoop StringMap BenchFilters.

Section run.
Context `{C : Crc32} (std_hash default_hash : bytes → Z).
(** libm *)
Context (log2 log : spec_float → spec_float) (pow : spec_float → spec_float → spec_float).

(** The hash function of a run. *)
Definition hash_of (r : bench_run) : bytes → option Z :=
  run_hash std_hash default_hash (run_fn r) (run_locations r).

(** [selfBloom<...> filter(generateNumBits(bits_per_element, data.size()), data.size());
    benchFilter(...)], for the throughput metric *)
Definition selfbloom_throughput (bits_per_element : spec_float) (r : bench_run) (data probes : list bytes)
    (numProbesUnsuccessful : Z) (fprs : fpr_table) : option (selfBloom * (Z * fpr_table)) :=
  bits ← generateNumBits bits_per_element (Z.of_nat (length data));
  filter ← selfBloom_ctor log pow bits (Z.of_nat (length data));
  benchFilter_throughput (H := selfBloom_filter (hash_of r)) false data probes filter (run_label r)
    numProbesUnsuccessful fprs.

(** C5: Put together: for every run the benchmark chooses (the sub4 and sub1 functors
    aside), on distinct locations and keys that contain the chosen words when their
    length is declared fixed, the experiment completes; the filter it leaves finds
    every inserted key, and the report is the number of false positives in the whole blocks
    of 100 probes less the number of known probes behind them, which are subtracted although
    they were not looked up: it is the number of false positives when the probes fill their
    blocks, and too small, even negative, when known probes are left over. *)
Theorem selfbloom_throughput_run env runs r bits_per_element data probes bits f U fprs :
  locations_ok env →
  (hashfuncs env "crc_wyhash_sub8" = true →
   1 ≤ numLocationsForChunkSize true 5 env (needed_self log2 env) 8) →
  bench_selfbloom log2 env = Some runs → r ∈ runs → sub8_or_full (run_fn r) = true →
  Forall (key_ok env) (data ++ probes) →
  Z.of_nat (length data) < 2 ^ 32 → Z.of_nat (length probes) < 2 ^ 31 → 0 ≤ U →
  count_if (known data) probes = Z.of_nat (length probes) - U →
  generateNumBits bits_per_element (Z.of_nat (length data)) = Some bits → 0 < bits < 2 ^ 64 - 7 →
  selfBloom_ctor log pow bits (Z.of_nat (length data)) = Some f →
  let whole := (100 * (length probes / 100))%nat in
  ∃ f' fprs',
    selfbloom_throughput bits_per_element r data probes U fprs
    = Some (f', (count_if (false_positive (H := selfBloom_filter (hash_of r)) f' data) (take whole probes)
                 - count_if (known data) (drop whole probes), fprs')) ∧
    ∀ x, x ∈ data → testValue (hash_of r) f' x = Some true.
Proof using.
  intros Hlocs Hcrc Hruns Hr Hfn Hkeys Hd Hp HU Hknown Hbits Hb Hctor whole.
  pose proof (selfbloom_run_defined std_hash default_hash log2 env runs r Hlocs Hcrc Hruns Hr Hfn) as Hdef.
  destruct (selfBloom_ctor_ok log pow bits _ f Hb Hctor) as (Hok & _ & _).
  rewrite Forall_forall in Hkeys.
  assert (usable (H := selfBloom_filter (hash_of r)) f (data ++ probes)) as Hu.
  { split; [exact Hok|]. intros x Hx. destruct (Hdef x (Hkeys x Hx)) as [h Hh].
    cbn [bf_positions selfBloom_filter]. unfold sb_positions, hash_of. rewrite Hh. by eexists. }
  destruct (throughput_fps (L := selfBloom_laws (hash_of r)) f data probes (run_label r) U fprs Hu Hd Hp HU Hknown)
    as (f' & fprs' & Hadd & Hrun).
  exists f', fprs'. split.
  - unfold selfbloom_throughput. rewrite Hbits. cbn [mbind option_bind]. rewrite Hctor. exact Hrun.
  - intros x Hx. destruct (bf_no_false_negatives (L := selfBloom_laws (hash_of r)) f data Hok) as (f2 & Hf2 & _ & Htest).
    + apply positions_all_total, Forall_forall. intros y Hy. apply Hu, elem_of_app. by left.
    + rewrite Hadd in Hf2. injection Hf2 as <-. by apply Htest.
Qed.
End run.

(** One requested functor, one key of data, two probes; sixteen bits for the key. *)
Lemma selfbloom_throughput_run_witness :
  let env := demo_env "wyhash_sub8" [f64_of_Z 0; f64_of_Z 5] in
  let key := replicate 16 x61 in
  ∃ runs r f' stats, bench_selfbloom libm_one env = Some runs ∧ r ∈ runs ∧
    selfbloom_throughput (C := crc32c) (λ _, 0) (λ _, 0) libm_one libm_half (f64_of_Z 16) r
      [key] [key; replicate 16 x62] 1 ∅ = Some (f', stats) ∧
    testValue (hash_of (C := crc32c) (λ _, 0) (λ _, 0) r) f' key = Some true.
Proof.
  intros env key. do 2 eexists.
  match goal with |- ∃ f' stats, _ = Some ?runs ∧ ?r ∈ _ ∧ _ =>
    destruct (selfbloom_throughput_run (C := crc32c) (λ _, 0) (λ _, 0) libm_one libm_one libm_half env runs r
      (f64_of_Z 16) [key] [key; replicate 16 x62] 16
      (default (SelfBloom 0 [] 0 (f64_of_Z 0) 0) (selfBloom_ctor libm_one libm_half 16 1)) 1 ∅)
      as (f' & fprs' & Hrun & Htest)
  end.
  - split; [vm_decide|repeat constructor; cbn; lia].
  - intros Hname. vm_compute in Hname. discriminate.
  - vm_compute. reflexivity.
  - apply list_elem_of_here.
  - reflexivity.
  - repeat constructor; unfold fits; cbn; try lia; intros _; repeat constructor; cbn; lia.
  - cbn. lia.
  - cbn. lia.
  - lia.
  - vm_compute. reflexivity.
  - vm_compute. reflexivity.
  - lia.
  - vm_compute. reflexivity.
  - exists f'. eexists. split; [vm_compute; reflexivity|]. split; [apply list_elem_of_here|].
    split; [exact Hrun|]. apply Htest, list_elem_of_here.
Defined.
